(* ===== verification/_CoqProject ===== *)
-Q . S2P
Prelude.v
Labels.v
Strings.v
Matcher.v
MetricTables.v
Float64.v
FloatOrder.v
Delay.v
Points.v
Format.v
Threshold.v
Slots.v
FieldCache.v
Accumulator.v
Collector.v
Store.v
PastPoints.v
Fifo.v
RingCounter.v
LogChunks.v
LogBuffer.v
Bytes.v
Nrpe.v
Zabbix.v
Json.v
ErrorText.v
Secrets.v
Services.v
MetricRegister.v
JmxMetrics.v
MetricFilter.v
ServicesState.v
JmxState.v
JmxClient.v
Discovery.v
Limits.v
MetricsState.v
RegistrationStatus.v
SyncState.v
MqttPoints.v
MqttConnection.v
MqttMessages.v
MetricSync.v
LinkedSync.v
Execution.v
ScrapeLoop.v
Registrations.v
ConfigTypes.v
Config.v
ConfigEnv.v
ConfigBuild.v
