(* ===== verification/Prelude.v ===== *)
(** * Glouton, the Bleemeo monitoring agent: a verification development

    Glouton is a Go agent.  It discovers the services that run on a host,
    collects metrics about them, keeps the recent points in memory, compares
    them with thresholds, answers NRPE and Zabbix servers, and reports to the
    Bleemeo cloud over HTTP and MQTT.  This library models the parts of it that
    decide something on their own, away from input and output, as executable
    functions and as transition systems, and proves what those parts promise.

    ** Parts, files and sources

    Inputs:
    - [Collector] (collector/collector.go): the inputs added, removed, gathered
      and stopped by concurrent goroutines; an action is what runs under the lock
      or touches nothing shared, and a log records the calls of the inputs.
    - [FieldCache] (collector/collector.go, inputs/types.go): what an input sent
      is remembered, and what it stops sending is marked as stale.
    - [Accumulator] (inputs/internal/accumulator.go, inputs/types.go): fields
      are renamed, counters turned into rates, and points are made of them.

    The path of a metric point:
    - [Labels] (types/types.go, utils/metricutils/metrics.go): statuses,
      annotations, the text form of a label set and its parser, metric keys.
    - [Float64], [FloatOrder], [Format]: binary64 numbers as the processor has them, the order of
      their sums and products, the sign of their quotients, and the text of values and durations (threshold/threshold.go, [FormatValue],
      [formatDuration]).
    - [Points], [Threshold] (types/types.go, threshold/threshold.go): the state
      machine of one status ([statusState.Update]), thresholds and their merge,
      the [Registry] with [SetThresholds], [ApplyThresholds] and the saved
      states.
    - [Slots], [Store] (store/store.go, store/encoded_points.go): the store is
      a record of maps; [PushPoints], [run] (retention), [DropMetrics] and the
      notifiees are functions on it.
    - [Strings], [Matcher], [MetricTables], [JmxMetrics], [MetricFilter]
      (agent/metric-filter/metric.go, prometheus/matcher/matcher.go,
      jmxtrans/jmx_metrics.go): the selectors of metrics, the default tables and
      the filter made from them, its rebuilds and the merge of two filters.
    - [PastPoints] (prometheus/registry/past_point_filter.go): the wrapper of a
      gatherer that drops, in place, the points older than the last of their
      series.

    Queues and counters:
    - [Fifo] (mqtt/client/fifo.go): the ring buffer is the record [fifo]; the
      goroutines inside [Get], [Put], [PutNoWait] and [Close], the mutex, the
      two condition variables and the watchers of contexts are a step relation
      on configurations, one step per critical section.
    - [MqttPoints] (bleemeo/internal/mqtt/mqtt.go): the points that wait for the
      connection, those kept after a failure, and the messages made of them; a
      history of the client records what it accepted and sent.
    - [MqttConnection] (mqtt/client/client.go): the connection manager as a
      transition system, one step per critical section, reading of the clock or
      wait; [Delay] (delay/jitter.go): the delays between attempts;
      [MqttMessages] (mqtt/client/client.go, state.go, stats.go, encoding.go):
      the messages from their encoding to their acknowledgement.
    - [RingCounter] (otel/logsource/ringcounter.go): 64-bit counters per second.
    - [LogChunks] (otel/logprocessing/chunker.go): a batch of logs is cut into
      chunks; [LogBuffer] (logger/buffer.go): the first and the last lines of the
      agent's own log.

    Servers for other monitoring systems:
    - [Bytes]: byte strings, endianness and the CRC-32 of hash/crc32.
    - [Nrpe] (nrpe/server.go) and [Zabbix] (zabbix/zabbix.go): from the
      segments a connection delivers to the bytes of the answer.  The callback
      that runs the command is a parameter.

    Services:
    - [ErrorText], [Secrets] (discovery/services_state.go): an error message is
      made stable, rid of secrets and cut.
    - [Services], [ServicesState] (discovery/common.go, services_state.go): a
      service, its input result, the published snapshot and its completion.
    - [Discovery] (discovery/discovery.go, metrics.go): the services map, its
      updates with removals in between, the reconfiguration of the inputs.
    - [JmxClient] (jmxtrans/config.go, client.go): the configuration written for
      jmxtrans and the client that makes points of the lines it sends back;
      [JmxState] (jmxtrans/state.go): how the collection of each service goes,
      as an automaton on services, points and connections.

    Report to the cloud (bleemeo/internal/synchronizer/syncregistrationstatus):
    - [Json]: the part of encoding/json the payload needs.
    - [Limits] (registrationstatus.go, limits.go): rows and their limits.
    - [RegistrationStatus] (send.go, entity.go): the hash of a payload, the
      decision to send, the entity run by the synchronizer.

    The synchronizer that runs such entities (bleemeo/internal/synchronizer):
    - [SyncState] (sync.go): the pending requests and the methods other
      goroutines call, as functions on the record [Synchronizer].
    - [LinkedSync] (execution.go): the rows of an execution and the
      synchronizations linked to others.
    - [Execution] (execution.go, compatibility.go, [runOnce]): the run of an
      execution, in which entities and other goroutines act at every call.

    The metrics on the API (bleemeo/internal/synchronizer/metrics.go):
    - [MetricsState] (also bleemeo/internal/filter/metric_filter.go): the metrics
      the plan allows and whose dependencies are known, their order, and the
      report on the others, by name and reason.
    - [MetricRegister]: the four passes of the registration, the failures that
      are remembered and their retries.
    - [MetricSync]: [syncMetrics] as a whole, with the update of the cache and
      the deactivation.  The HTTP client and the store are parameters that take
      the state of the world and give the next one with an answer.

    The metric registry (prometheus/registry):
    - [Registrations] (registry.go): the registrations, the loops that gather
      them and the goroutines that register, remove, restart and stop them or
      change the hooks; an action is a section of code under a lock.
    - [ScrapeLoop] (gatherer_loop.go, registry.go): the times a loop gives to its
      points, and the runs asked for with [ScheduleRun].

    The configuration (config):
    - [ConfigTypes] (types.go): the fields of the configuration under their YAML
      names, as data, and the values that have a type.
    - [Config] (loader.go, config.go): the items of the files, of the environment
      and of the defaults, their priorities and how they are merged.
    - [ConfigEnv] (config.go): the key that a variable of the environment sets.
    - [ConfigBuild] (loader.go, config.go): what is done once all is merged.
      What koanf and mapstructure read and decode is an argument.

    This file, [Prelude], holds machine integers, times, results and the
    generic lemmas the others share.

    ** Conventions

    A Go string is a [string], or a [list Z] of bytes where single bytes
    matter.  A map is a [gmap]; where the code ranges over it the order is an
    argument, any permutation of the entries, and the theorems hold for all of
    them.  An index out of range or another panic is the value [None].  A time
    is its number of nanoseconds since the zero [time.Time]; [Time.Sub]
    saturates as Go's does.  Sized integers wrap where the code can overflow.
    Third-party code is a parameter: the chunk codec of the store with its
    append law, the printable runes of [strconv], SHA-256, the parser of PromQL,
    the matchers of Prometheus, the signature of a label set, the size of a batch of logs,
    [strconv.ParseFloat], the builders of inputs, the dynamic discovery, the entity synchronizers and the API.

    ** What the theorems show

    - Round trips: labels to text and back, saved threshold states, NRPE
      answers, the hashed text of a payload, keys of the configuration and their
      variables.
    - Types: the configuration that is merged from well-typed sources is well
      typed, and each key has the value of the sources that win.
    - Refinement: the store implements the abstract map from metrics to lists
      of points, notifications included.
    - Invariants of every reachable state: queue order and capacity, the ring
      counter's window, inputs of the discovery, status soft periods, inputs
      of the collector that are stopped once and not called afterwards, one
      loop for each registration of the registry.
    - Liveness and termination: no wake-up of the queue is lost and its
      goroutines settle; removed inputs are stopped; a change of the services is reported in time; no
      request to the synchronizer is lost and its links are closed; the
      connection manager does not spin; the calls of the registry return and the
      runs that are asked for happen.
    - Safety and bounds: sends are spaced, so are the connections to the broker,
      of which one is alive at a time, every message is accounted for, calls are ordered, the passwords of a service are masked in the errors that are published,
      lists and texts are within their limits, altered packets are rejected.
    - Metrics on the API: what the filter keeps and can be registered is, in one run,
      whatever the order and the other metrics; the refusals of a run are bounded; every metric that
      is not registered is reported for one reason; one metric stays active for
      each label set with recent points; no update that was asked for is lost.
    - Order and framing: the points of a series leave for the cloud in order,
      none twice, and all that can be sent is; late points are dropped, the lines of a stream do not
      depend on how it is cut, logs are cut without loss and kept in order.
    - Errors: what the code does wrong is proved as such: requests that make the
      Zabbix parser panic, a full synchronization that is missed, late points that
      pass, lines of one service taken for another's, an input in error whose
      metrics never become stale, a retry delay that overflows, an age limit
      that retries renew, a batch lost for one infinite value, a client left
      behind by a reload, a loop that outlives its registration, a setting lost
      because two variables set it.

    ** What the statements leave out

    A theorem says in its comment what it supposes.  Where the code does otherwise outside of that, an example shows it:
    - the inputs of services that are renamed can leak ([Discovery.renamed_input_leaks]);
    - tags that the flat text does not tell apart share their counters ([Accumulator.flattenTag_collision]);
    - a family left without a point makes late points pass ([PastPoints.past_family_emitted]);
    - a delta added behind the window of a counter is counted in it ([RingCounter.added_behind_window]);
    - a delay is truncated to whole seconds, below the documented range ([Delay.jitter_truncated]).

    Steps that are coarser than the code: in [Collector] the end of a gather, which reads and writes the remembered fields of its
    input, is one action, so that two gathers of the same input that overlap are ordered; in [Fifo] the end of a
    context wakes its waiters in one step; in [Registrations] the list of the registrations that [Run] removes at its
    end, which the code walks without the lock, is read at once, and a registration always finds a free identifier, where the code gives up
    beyond 65536 of them.

    ** Fuel

    Loops that do not recurse on a part of their argument take fuel: parsers of
    labels, texts and items take the length of the input, each turn consuming a
    byte at least; the division loops of the formatting take the width of the
    number; [Slots.firstFree] takes the size of the map plus one;
    [LinkedSync.recursiveExpand] takes the number of links plus one;
    [MqttPoints.addNoLock] takes two, as it calls itself once at most;
    [MqttPoints.batches] the number of points;
    [LogChunks.push] takes the number of records less one, the depth of the
    splits; [PastPoints.filterMetrics] the number of metrics;
    [ScrapeLoop.catchUp] one more than the number of intervals that were missed;
    [ConfigEnv.leafKeys] ten, more than the depth of the configuration.  The lemmas
    named [_fuel] and [_total] prove that more fuel changes nothing or that the
    result is always found.

    ** What is not modelled

    Process start and reload, container runtimes and Kubernetes, the
    Telegraf inputs behind their accumulators, exporters and PromQL, active checks, the REST synchronisation of
    the other entities, the web interface and the
    OpenTelemetry pipeline: they are input and output, or glue around
    third-party libraries whose source is not part of this repository.  Of the
    registry, the relabelling and the exporter are left out, and of the
    configuration the migration of the oldest settings and the censoring of what
    is shown. *)

From stdpp Require Export base gmap strings list sorting fin_maps.
From Stdlib Require Export Ascii ZArith Lia.

#[global] Open Scope Z_scope.
#[global] Arguments String.append : simpl nomatch.

(** ** Machine integers

    Go's sized integers are modelled as [Z] with the wrap-around written
    out where the source can overflow. *)
Module Int.
Definition wrapU (w z : Z) : Z := z mod 2 ^ w.

Definition wrapS (w z : Z) : Z := (z + 2 ^ (w - 1)) mod 2 ^ w - 2 ^ (w - 1).

Definition maxInt64 : Z := 2 ^ 63 - 1.
Definition minInt64 : Z := - 2 ^ 63.

Definition int64 (z : Z) : Z := wrapS 64 z.

Lemma wrapS_range (w z : Z) :
  0 < w → - 2 ^ (w - 1) ≤ wrapS w z < 2 ^ (w - 1).
Proof.
  intros Hw. unfold wrapS.
  assert (2 ^ w = 2 * 2 ^ (w - 1)) as Hp.
  { rewrite <-Z.pow_succ_r by lia. f_equal. lia. }
  pose proof (Z.pow_pos_nonneg 2 (w - 1)).
  pose proof (Z.mod_pos_bound (z + 2 ^ (w - 1)) (2 ^ w)). lia.
Qed.

Lemma wrapS_id (w z : Z) :
  0 < w → - 2 ^ (w - 1) ≤ z < 2 ^ (w - 1) → wrapS w z = z.
Proof.
  intros Hw Hz. unfold wrapS.
  assert (2 ^ w = 2 * 2 ^ (w - 1)) as Hp.
  { rewrite <-Z.pow_succ_r by lia. f_equal. lia. }
  rewrite Z.mod_small by lia. lia.
Qed.

(** A sum may be reduced at every step or only once. *)
Lemma wrapS_add_l (w a b : Z) : wrapS w (wrapS w a + b) = wrapS w (a + b).
Proof.
  unfold wrapS. f_equal.
  replace ((a + 2 ^ (w - 1)) mod 2 ^ w - 2 ^ (w - 1) + b + 2 ^ (w - 1))
    with ((a + 2 ^ (w - 1)) mod 2 ^ w + b) by lia.
  rewrite Zplus_mod_idemp_l. f_equal. lia.
Qed.

Lemma wrapS_add_r (w a b : Z) : wrapS w (a + wrapS w b) = wrapS w (a + b).
Proof. rewrite Z.add_comm, wrapS_add_l. f_equal. lia. Qed.

Lemma int64_id (z : Z) : minInt64 ≤ z ≤ maxInt64 → int64 z = z.
Proof. unfold int64, minInt64, maxInt64. intros. apply wrapS_id; simpl; lia. Qed.
End Int.

(** ** Go's time package

    A [time.Time] is the number of nanoseconds since Go's zero instant
    (January 1st, year 1, UTC), so that [IsZero] is the test to 0; the
    location and the monotonic reading do not take part in the
    comparisons used below.  A [time.Duration] is a number of
    nanoseconds; [Sub] saturates as the library's does. *)
Module Time.
Definition nanosecond : Z := 1.
Definition millisecond : Z := 1000000.
Definition second : Z := 1000000000.
Definition minute : Z := 60 * second.
Definition hour : Z := 60 * minute.

(** The Unix epoch, in nanoseconds after the zero time. *)
Definition unixEpoch : Z := 62135596800 * second.

Definition zero : Z := 0.
Definition IsZero (t : Z) : bool := t =? 0.
Definition After (t u : Z) : bool := u <? t.
Definition Before (t u : Z) : bool := t <? u.
Definition Equal (t u : Z) : bool := t =? u.

Definition Sub (t u : Z) : Z :=
  Z.max Int.minInt64 (Z.min Int.maxInt64 (t - u)).

Definition Add (t d : Z) : Z := t + d.

(** [Truncate] rounds down to a multiple of [d] since the zero time. *)
Definition Truncate (t d : Z) : Z := if d <=? 0 then t else t - t mod d.

Definition UnixMilli (t : Z) : Z := Int.int64 ((t - unixEpoch) / millisecond).
Definition FromUnixMilli (ms : Z) : Z := unixEpoch + ms * millisecond.
Definition Unix (t : Z) : Z := Int.int64 ((t - unixEpoch) / second).

Lemma Sub_small (t u : Z) :
  Int.minInt64 ≤ t - u ≤ Int.maxInt64 → Sub t u = t - u.
Proof. unfold Sub. lia. Qed.

Lemma Sub_ge (t u d : Z) :
  Int.minInt64 < d ≤ Int.maxInt64 → d ≤ t - u ↔ d ≤ Sub t u.
Proof. unfold Sub. lia. Qed.

Lemma Sub_self (t : Z) : Sub t t = 0.
Proof. unfold Sub, Int.minInt64, Int.maxInt64. lia. Qed.

Lemma FromUnixMilli_UnixMilli (t : Z) :
  - 2 ^ 63 ≤ (t - unixEpoch) / millisecond < 2 ^ 63 →
  FromUnixMilli (UnixMilli t) = t - t mod millisecond.
Proof.
  intros H. unfold FromUnixMilli, UnixMilli.
  rewrite Int.int64_id by (unfold Int.minInt64, Int.maxInt64; lia).
  assert (t mod millisecond = (t - unixEpoch) mod millisecond) as ->.
  { replace (t - unixEpoch) with (t + (- (62135596800 * 1000)) * millisecond)
      by (unfold unixEpoch, second, millisecond; lia).
    by rewrite Z.mod_add. }
  pose proof (Z.div_mod (t - unixEpoch) millisecond).
  unfold millisecond in *. lia.
Qed.
End Time.

(** ** Tactics

    [go_cases] splits every boolean test and match of the goal, turning
    the integer comparisons into propositions for [lia]. *)
Ltac bool_prop :=
  repeat match goal with
  | H : (_ =? _) = true |- _ => apply Z.eqb_eq in H
  | H : (_ =? _) = false |- _ => apply Z.eqb_neq in H
  | H : (_ <? _) = true |- _ => apply Z.ltb_lt in H
  | H : (_ <? _) = false |- _ => apply Z.ltb_ge in H
  | H : (_ <=? _) = true |- _ => apply Z.leb_le in H
  | H : (_ <=? _) = false |- _ => apply Z.leb_gt in H
  | H : _ && _ = true |- _ => apply andb_true_iff in H as [??]
  | H : _ && _ = false |- _ => apply andb_false_iff in H
  | H : _ || _ = true |- _ => apply orb_true_iff in H
  | H : _ || _ = false |- _ => apply orb_false_iff in H as [??]
  | H : negb _ = true |- _ => apply negb_true_iff in H
  | H : negb _ = false |- _ => apply negb_false_iff in H
  end.

Ltac split_if :=
  match goal with
  | |- context [if ?b then _ else _] =>
      lazymatch type of b with bool => destruct b eqn:? end
  end.

Ltac split_if_in H :=
  match type of H with
  | context [if ?b then _ else _] =>
      lazymatch type of b with bool => destruct b eqn:? end
  end.

Ltac go_cases := repeat (split_if; simplify_eq/=); bool_prop.

(** ** Hints *)
Create HintDb glouton.
#[export] Hint Resolve Time.Sub_self : glouton.

(** * Lists *)
Lemma fmap_nil_iff {A B : Type} (f : A → B) (l : list A) : f <$> l = [] ↔ l = [].
Proof. by destruct l. Qed.

Lemma Forall_filter {A : Type} (P Q : A → Prop) `{!∀ x, Decision (Q x)} (l : list A) :
  Forall P l → Forall P (filter Q l).
Proof. rewrite !Forall_forall. intros HP x [_ Hx]%list_elem_of_filter. eauto. Qed.

(** Deleting a list of keys from a map. *)
Lemma filter_all {A : Type} (P : A → Prop) `{∀ x, Decision (P x)} (l : list A) : Forall P l → filter P l = l.
Proof. induction 1 as [|x l Hx _ IH]; [done|]. by rewrite filter_cons, decide_True, IH. Qed.

Lemma StronglySorted_lookup {A : Type} (R : relation A) (l : list A) (i j : nat) (x y : A) :
  StronglySorted R l → (i < j)%nat → l !! i = Some x → l !! j = Some y → R x y.
Proof.
  intros Hs. revert i j. induction Hs as [|z l Hs IH Hz]; intros [|i] [|j] Hij Hi Hj; simplify_eq/=; try lia.
  - rewrite Forall_forall in Hz. apply Hz. by eapply list_elem_of_lookup_2.
  - eapply IH; [|done..]. lia.
Qed.

Lemma lookup_foldl_delete `{Countable K} {A : Type} (ids : list K) (m : gmap K A) (k : K) :
  foldl (λ m id, delete id m) m ids !! k = if bool_decide (k ∈ ids) then None else m !! k.
Proof.
  revert m. induction ids as [|id ids IH]; intros m; [done|]. simpl. rewrite IH.
  destruct (decide (k = id)) as [->|Hne].
  - rewrite lookup_delete_eq, (bool_decide_eq_true_2 (id ∈ id :: ids)) by (by left).
    by case_bool_decide.
  - rewrite lookup_delete_ne by done. erewrite bool_decide_ext; [done|].
    rewrite elem_of_cons. naive_solver.
Qed.

(** ** Sorting

    [sort.Slice] is a parameter of the definitions that use it; what it asks of its comparison, what it gives, and a
    function that has these properties. *)
Definition strictWeakOrder {A : Type} (less : A → A → bool) : Prop :=
  (∀ a, less a a = false) ∧ (∀ a b c, less a b = true → less b c = true → less a c = true) ∧
  (∀ a b c, less a b = false → less b c = false → less a c = false).

Definition sortedBy {A : Type} (less : A → A → bool) (l : list A) : Prop :=
  ∀ i j a b, (i < j)%nat → l !! i = Some a → l !! j = Some b → less b a = false.

Definition notGreater {A : Type} (less : A → A → bool) (a b : A) : Prop := less b a = false.

#[global] Instance notGreater_dec {A : Type} (less : A → A → bool) : RelDecision (notGreater less).
Proof. intros a b. unfold notGreater. apply _. Defined.

Definition mergeSort {A : Type} (less : A → A → bool) (l : list A) : list A := merge_sort (notGreater less) l.

Lemma mergeSort_perm {A : Type} (less : A → A → bool) (l : list A) : mergeSort less l ≡ₚ l.
Proof. apply merge_sort_Permutation. Qed.

Lemma mergeSort_sorted {A : Type} (less : A → A → bool) (l : list A) : strictWeakOrder less → sortedBy less (mergeSort less l).
Proof.
  intros (Hi & Ht & Hn) i j a b Hij Ha Hb.
  apply (StronglySorted_lookup (notGreater less) (mergeSort less l) i j a b); [|done..]. apply StronglySorted_merge_sort.
  - intros x y z Hxy Hyz. by apply (Hn z y x).
  - intros x y. destruct (less y x) eqn:Hyx; [|by left]. right. unfold notGreater. destruct (less x y) eqn:Hxy; [|done]. pose proof (Ht x y x Hxy Hyx) as Hx. by rewrite Hi in Hx.
Qed.

Lemma sortedBy_sublist {A : Type} (less : A → A → bool) (l k : list A) : l `sublist_of` k → sortedBy less k → sortedBy less l.
Proof.
  intros Hs Hk i j a b Hij Ha Hb. revert i j a b Hij Ha Hb. induction Hs as [|x l k Hs IH|x l k Hs IH]; intros i j a b Hij Ha Hb; [by rewrite lookup_nil in Ha| |].
  - destruct j as [|j]; [lia|]. cbn in Hb. destruct i as [|i]; cbn in Ha.
    + injection Ha as <-. assert (b ∈ k) as Hin by (eapply elem_of_sublist; [|exact Hs]; by eapply list_elem_of_lookup_2). apply list_elem_of_lookup in Hin as [n Hn].
      by apply (Hk 0%nat (S n)); [lia|done|done].
    + apply (IH (λ i' j' a' b' H1 H2 H3, Hk (S i') (S j') a' b' ltac:(lia) H2 H3) i j a b); [lia|done..].
  - apply (IH (λ i' j' a' b' H1 H2 H3, Hk (S i') (S j') a' b' ltac:(lia) H2 H3) i j a b); done.
Qed.
