(* ===== verification/Labels.v ===== *)
(** Metric identity: statuses, annotations, the text form of a label set and
    the metric key derived from it (types/types.go, utils/metricutils).

    A Go string is a sequence of bytes, modelled by [string] (a list of
    8-bit [ascii]); a [map[string]string] is a [gmap string string].  The
    text form is the key under which thresholds, units and registered
    metrics are looked up, so its injectivity is what keeps two metrics
    apart. *)
From S2P Require Import Prelude.

Local Open Scope string_scope.
Local Open Scope Z_scope.

(** ** Status (types/types.go) *)
Module Status.
Inductive t : Set :=
  | StatusUnset
  | StatusOk
  | StatusWarning
  | StatusCritical
  | StatusUnknown.

#[global] Instance eq_dec : EqDecision t.
Proof. solve_decision. Defined.

Definition IsSet (s : t) : bool := bool_decide (s ≠ StatusUnset).

Definition String (s : t) : string :=
  match s with
  | StatusUnset => "unset"
  | StatusOk => "ok"
  | StatusWarning => "warning"
  | StatusCritical => "critical"
  | _ => "unknown"
  end.

Definition NagiosCode (s : t) : Z :=
  match s with
  | StatusOk => 0
  | StatusWarning => 1
  | StatusCritical => 2
  | StatusUnknown | StatusUnset => 3
  end.

Definition FromNagios (value : Z) : t :=
  if value =? 0 then StatusOk
  else if value =? 1 then StatusWarning
  else if value =? 2 then StatusCritical
  else StatusUnknown.
End Status.

(** ** Annotations (types/types.go) *)
Record StatusDescription := mkStatusDescription {
  sdCurrentStatus : Status.t;
  sdStatusDescription : string;
}.

Record MetricAnnotations := mkAnnotations {
  ContainerID : string;
  ServiceName : string;
  ServiceInstance : string;
  StatusOf : string;
  SNMPTarget : string;
  BleemeoAgentID : string;
  AnnStatus : StatusDescription;
}.

Definition zeroStatusDescription : StatusDescription :=
  mkStatusDescription Status.StatusUnset "".

Definition zeroAnnotations : MetricAnnotations :=
  mkAnnotations "" "" "" "" "" "" zeroStatusDescription.

(** [a if b is empty, b otherwise], the rule of each field of [Merge]. *)
Definition or_string (a b : string) : string :=
  if bool_decide (b ≠ "") then b else a.

Definition annMerge (a other : MetricAnnotations) : MetricAnnotations :=
  {| ContainerID := or_string (ContainerID a) (ContainerID other);
     ServiceName := or_string (ServiceName a) (ServiceName other);
     ServiceInstance := or_string (ServiceInstance a) (ServiceInstance other);
     StatusOf := or_string (StatusOf a) (StatusOf other);
     SNMPTarget := or_string (SNMPTarget a) (SNMPTarget other);
     BleemeoAgentID := or_string (BleemeoAgentID a) (BleemeoAgentID other);
     AnnStatus := if Status.IsSet (sdCurrentStatus (AnnStatus other))
                  then AnnStatus other else AnnStatus a |}.

Definition annChanged (a other : MetricAnnotations) : bool :=
  bool_decide (ContainerID a ≠ ContainerID other)
  || bool_decide (ServiceName a ≠ ServiceName other)
  || bool_decide (ServiceInstance a ≠ ServiceInstance other)
  || bool_decide (StatusOf a ≠ StatusOf other)
  || bool_decide (SNMPTarget a ≠ SNMPTarget other)
  || bool_decide (BleemeoAgentID a ≠ BleemeoAgentID other).

(** ** Label names *)
Abbreviation Labels := (gmap string string).

Definition LabelName : string := "__name__".
Definition LabelItem : string := "item".
Definition LabelInstance : string := "instance".
Definition LabelInstanceUUID : string := "instance_uuid".

(** Reading a missing key of a Go map gives the zero value. *)
Definition lget (m : Labels) (k : string) : string := default "" (m !! k).

(** ** Text form (types/types.go) *)
Definition dquote : Ascii.ascii := "034"%char.
Definition backslash : Ascii.ascii := "092"%char.
Definition newline : Ascii.ascii := "010"%char.
Definition equals : Ascii.ascii := "="%char.
Definition comma : Ascii.ascii := ","%char.

(** [strings.NewReplacer] on one-byte patterns replaces byte by byte. *)
Definition quote_byte (c : Ascii.ascii) : string :=
  if bool_decide (c = backslash) then String backslash (String backslash "")
  else if bool_decide (c = dquote) then String backslash (String dquote "")
  else if bool_decide (c = newline) then String backslash (String "n"%char "")
  else String c "".

Fixpoint quoterReplace (s : string) : string :=
  match s with
  | "" => ""
  | String c s' => quote_byte c +:+ quoterReplace s'
  end.

(** One iteration of the loop of [labelsToText] over the sorted names:
    [b] is the builder, [had] the variable [hadLabels]. *)
Definition writeLabel (labels : Labels) (nameBefore : bool)
    (st : string * bool) (name : string) : string * bool :=
  let '(b, had) := st in
  let value := lget labels name in
  if bool_decide (value = "") then (b, had)
  else
    let b := if nameBefore && negb had then b +:+ "{" else b in
    let b := if had then b +:+ "," else b in
    (b +:+ name +:+ String equals (String dquote "") +:+ quoterReplace value
       +:+ String dquote "", true).

Definition labelNames (labels : Labels) (nameBefore : bool) : list string :=
  merge_sort String.le
    (filter (λ k, ¬ (k = LabelName ∧ nameBefore = true))
       (map_to_list labels).*1).

Definition labelsToText (labels : Labels) (nameBefore : bool) : string :=
  if bool_decide (size labels = 0%nat) then ""
  else
    let b := if nameBefore then lget labels LabelName else "" in
    let '(b, had) :=
      foldl (writeLabel labels nameBefore) (b, false)
        (labelNames labels nameBefore) in
    if nameBefore && had then b +:+ "}" else b.

Definition LabelsToText (labels : Labels) : string := labelsToText labels false.
Definition LabelsToTextNicer (labels : Labels) : string := labelsToText labels true.

(** [strings.IndexByte] followed by the two slices around the byte: the
    bytes before the first [c] and those after it. *)
Fixpoint cutByte (c : Ascii.ascii) (s : string) : option (string * string) :=
  match s with
  | "" => None
  | String a s' =>
      if bool_decide (a = c) then Some ("", s')
      else match cutByte c s' with
           | Some (before, after) => Some (String a before, after)
           | None => None
           end
  end.

(** The slow path: [b] is the builder and [text] what is left from the
    current index; [None] is [ok = false]. *)
Fixpoint consumeQuotedValueEscaped (b text : string) : option (string * string) :=
  match text with
  | "" => None
  | String c rest =>
      if bool_decide (c = dquote) then Some (b, rest)
      else if bool_decide (c = backslash) then
        match rest with
        | "" => None
        | String e rest' =>
            if bool_decide (e = dquote) then
              consumeQuotedValueEscaped (b +:+ String dquote "") rest'
            else if bool_decide (e = backslash) then
              consumeQuotedValueEscaped (b +:+ String backslash "") rest'
            else if bool_decide (e = "n"%char) then
              consumeQuotedValueEscaped (b +:+ String newline "") rest'
            else None
        end
      else consumeQuotedValueEscaped (b +:+ String c "") rest
  end.

(** The fast path: [before] is [text[:i]] of the source. *)
Fixpoint consumeQuotedValue_from (before text : string) : option (string * string) :=
  match text with
  | "" => None
  | String c rest =>
      if bool_decide (c = dquote) then Some (before, rest)
      else if bool_decide (c = backslash) then consumeQuotedValueEscaped before text
      else consumeQuotedValue_from (before +:+ String c "") rest
  end.

Definition consumeQuotedValue (text : string) : option (string * string) :=
  consumeQuotedValue_from "" text.

(** The loop of [TextToLabels]; [None] is the nil map of the error
    branches.  Each iteration removes at least one byte, so the length of
    the text is enough fuel ([TextToLabels_loop_fuel]). *)
Fixpoint TextToLabels_loop (fuel : nat) (remaining : string) (result : Labels)
    : option Labels :=
  match fuel with
  | O => None
  | S fuel' =>
      if bool_decide (remaining = "") then Some result
      else match cutByte equals remaining with
           | None => None
           | Some (key, after) =>
               if bool_decide (key = "") then None
               else match after with
                    | "" => None
                    | String q quoted =>
                        if bool_decide (q ≠ dquote) then None
                        else match consumeQuotedValue quoted with
                             | None => None
                             | Some (value, rest) =>
                                 let result := <[key := value]> result in
                                 match rest with
                                 | "" => TextToLabels_loop fuel' "" result
                                 | String c rest' =>
                                     if bool_decide (c ≠ comma) then None
                                     else TextToLabels_loop fuel' rest' result
                                 end
                             end
                    end
           end
  end.

Definition TextToLabels (text : string) : option Labels :=
  if bool_decide (text = "") then Some ∅
  else TextToLabels_loop (S (String.length text)) text ∅.

(** ** Metric key (utils/metricutils/metrics.go) *)
Definition MetricOnlyHasItem (labels : Labels) (agentID : string) : bool :=
  if bool_decide (4 < size labels)%nat then false
  else forallb (λ '(k, v),
         negb (bool_decide (k ≠ LabelName) && bool_decide (k ≠ LabelItem)
               && bool_decide (k ≠ LabelInstanceUUID)
               && bool_decide (k ≠ LabelInstance))
         && negb (bool_decide (k = LabelInstanceUUID) && bool_decide (v ≠ agentID)))
         (map_to_list labels).

(** The label set [MetricKey] renders: the variable [lbls] at its return. *)
Definition metricKeyLabels (lbls : Labels) (annotations : MetricAnnotations)
    (agentID : string) : Labels :=
  let uuid := lget lbls LabelInstanceUUID in
  if bool_decide (uuid = "") || bool_decide (uuid = BleemeoAgentID annotations)
     || (bool_decide (BleemeoAgentID annotations = "") && bool_decide (uuid = agentID))
  then
    let agentID := if bool_decide (BleemeoAgentID annotations ≠ "")
                   then BleemeoAgentID annotations else agentID in
    if MetricOnlyHasItem lbls agentID then
      let tmp := delete LabelInstance lbls in
      if bool_decide (agentID ≠ "") then <[LabelInstanceUUID := agentID]> tmp else tmp
    else lbls
  else lbls.

Definition MetricKey (lbls : Labels) (annotations : MetricAnnotations)
    (agentID : string) : string :=
  LabelsToText (metricKeyLabels lbls annotations agentID).

(** * Theorems *)

(** ** Strings *)
Fixpoint byte_in (c : Ascii.ascii) (s : string) : bool :=
  match s with
  | "" => false
  | String a s' => bool_decide (a = c) || byte_in c s'
  end.

Lemma append_nil_r (s : string) : s +:+ "" = s.
Proof. induction s as [|c s IH]; simpl; congruence. Qed.

Lemma append_assoc (a b c : string) : (a +:+ b) +:+ c = a +:+ b +:+ c.
Proof. induction a as [|x a IH]; simpl; congruence. Qed.

Lemma append_length (a b : string) :
  String.length (a +:+ b) = (String.length a + String.length b)%nat.
Proof. induction a as [|x a IH]; simpl; congruence. Qed.

Lemma append_eq_nil (a b : string) : a +:+ b = "" → a = "" ∧ b = "".
Proof. destruct a; done. Qed.

Lemma cutByte_append (c : Ascii.ascii) (k rest : string) :
  byte_in c k = false → cutByte c (k +:+ String c rest) = Some (k, rest).
Proof.
  induction k as [|a k IH]; simpl; intros H.
  - by rewrite bool_decide_eq_true_2.
  - apply orb_false_iff in H as [H1 H2]. rewrite H1, IH by done. done.
Qed.

Lemma cutByte_length (c : Ascii.ascii) (s k rest : string) :
  cutByte c s = Some (k, rest) →
  String.length s = (String.length k + S (String.length rest))%nat.
Proof.
  revert k. induction s as [|a s IH]; simpl; intros k H; [done|].
  case_bool_decide; simplify_eq/=; [done|].
  destruct (cutByte c s) as [[??]|]; simplify_eq/=. f_equal. eauto.
Qed.

(** ** Quoted values *)
Lemma consumeEscaped_quote (v b rest : string) :
  consumeQuotedValueEscaped b (quoterReplace v +:+ String dquote rest)
  = Some (b +:+ v, rest).
Proof.
  revert b. induction v as [|c v IH]; intros b; simpl.
  - by rewrite append_nil_r.
  - unfold quote_byte.
    destruct (decide (c = backslash)) as [->|Hb]; [|
      destruct (decide (c = dquote)) as [->|Hd]; [|
        destruct (decide (c = newline)) as [->|Hn]]].
    1-3: simpl; rewrite IH, append_assoc; done.
    rewrite !bool_decide_eq_false_2 by done. simpl.
    rewrite !bool_decide_eq_false_2 by done.
    by rewrite IH, append_assoc.
Qed.

Lemma consumeQuoted_from_quote (v b rest : string) :
  consumeQuotedValue_from b (quoterReplace v +:+ String dquote rest)
  = Some (b +:+ v, rest).
Proof.
  revert b. induction v as [|c v IH]; intros b.
  - simpl. by rewrite append_nil_r.
  - pose proof (consumeEscaped_quote (String c v) b rest) as Hesc.
    simpl in *. unfold quote_byte in *.
    destruct (decide (c = backslash)) as [->|Hb]; [exact Hesc|].
    destruct (decide (c = dquote)) as [->|Hd]; [exact Hesc|].
    destruct (decide (c = newline)) as [->|Hn]; [exact Hesc|].
    rewrite !bool_decide_eq_false_2 by done. simpl.
    rewrite !bool_decide_eq_false_2 by done.
    by rewrite IH, append_assoc.
Qed.

Lemma consumeQuotedValue_quote (v rest : string) :
  consumeQuotedValue (quoterReplace v +:+ String dquote rest) = Some (v, rest).
Proof. apply consumeQuoted_from_quote. Qed.

Lemma consumeEscaped_length (b text v rest : string) :
  consumeQuotedValueEscaped b text = Some (v, rest) →
  (String.length rest < String.length text)%nat.
Proof.
  remember (String.length text) as n eqn:Hn.
  revert b text Hn. induction n as [n IH] using lt_wf_ind; intros b text -> H.
  destruct text as [|c text]; simpl in *; [done|].
  repeat case_bool_decide; simplify_eq/=; [lia| |].
  - destruct text as [|e text]; [done|].
    repeat case_bool_decide; simplify_eq/=;
      (eapply IH in H; [| |reflexivity]; simpl in *; lia).
  - eapply IH in H; [| |reflexivity]; simpl in *; lia.
Qed.

Lemma consumeQuoted_length (b text v rest : string) :
  consumeQuotedValue_from b text = Some (v, rest) →
  (String.length rest < String.length text)%nat.
Proof.
  revert b. induction text as [|c text IH]; intros b H; [done|].
  cbn -[consumeQuotedValueEscaped] in H.
  repeat case_bool_decide; simplify_eq; [simpl; lia| |].
  - by eapply consumeEscaped_length in H.
  - apply IH in H. simpl. lia.
Qed.

(** ** The writer *)
Definition labelText (kv : string * string) : string :=
  kv.1 +:+ String equals (String dquote (quoterReplace kv.2 +:+ String dquote "")).

Fixpoint renderRest (l : list (string * string)) : string :=
  match l with
  | [] => ""
  | kv :: l => String comma (labelText kv +:+ renderRest l)
  end.

Definition render (l : list (string * string)) : string :=
  match l with [] => "" | kv :: l => labelText kv +:+ renderRest l end.

(** The label pairs the loop writes: those whose value is not empty. *)
Definition present (labels : Labels) (names : list string) : list (string * string) :=
  filter (λ kv, kv.2 ≠ "") ((λ k, (k, lget labels k)) <$> names).

Lemma fold_writeLabel_had (labels : Labels) (names : list string) (b : string) :
  foldl (writeLabel labels false) (b, true) names
  = (b +:+ renderRest (present labels names), true).
Proof.
  revert b. induction names as [|k names IH]; intros b; simpl.
  - by rewrite append_nil_r.
  - unfold present. simpl. rewrite filter_cons. simpl.
    case_bool_decide as Hv.
    + rewrite decide_False by tauto. apply IH.
    + rewrite decide_True by done. simpl. rewrite IH. unfold present, labelText.
      simpl. rewrite !append_assoc. simpl. by rewrite !append_assoc.
Qed.

Lemma fold_writeLabel (labels : Labels) (names : list string) (b : string) :
  ∃ had, foldl (writeLabel labels false) (b, false) names
  = (b +:+ render (present labels names), had).
Proof.
  revert b. induction names as [|k names IH]; intros b; simpl.
  - rewrite append_nil_r. eauto.
  - unfold present. simpl. rewrite filter_cons. simpl.
    case_bool_decide as Hv.
    + rewrite decide_False by tauto. apply IH.
    + rewrite decide_True by done. simpl. rewrite fold_writeLabel_had.
      exists true. unfold present, labelText.
      simpl. rewrite !append_assoc. simpl. by rewrite !append_assoc.
Qed.

Lemma LabelsToText_render (labels : Labels) :
  LabelsToText labels = render (present labels (labelNames labels false)).
Proof.
  unfold LabelsToText, labelsToText. case_bool_decide as Hs.
  - apply map_size_empty_iff in Hs as ->. reflexivity.
  - simpl. destruct (fold_writeLabel labels (labelNames labels false) "") as [had ->].
    reflexivity.
Qed.

(** ** The reader *)
Definition good_key (k : string) : Prop := k ≠ "" ∧ byte_in equals k = false.

Lemma TextToLabels_loop_fuel (n m : nat) (remaining : string) (result : Labels) :
  (String.length remaining < n)%nat → (String.length remaining < m)%nat →
  TextToLabels_loop n remaining result = TextToLabels_loop m remaining result.
Proof.
  revert m remaining result.
  induction n as [|n IH]; intros [|m] remaining result Hn Hm; [lia..|].
  cbn -[cutByte consumeQuotedValue]. case_bool_decide as Hr; [done|].
  destruct (cutByte equals remaining) as [[key after]|] eqn:Hcut; [|done].
  case_bool_decide; [done|]. destruct after as [|q quoted]; [done|].
  case_bool_decide; [done|].
  destruct (consumeQuotedValue quoted) as [[value rest]|] eqn:Hq; [|done].
  apply cutByte_length in Hcut. apply consumeQuoted_length in Hq. simpl in *.
  destruct rest as [|c rest]; simpl in *.
  - apply IH; simpl; lia.
  - case_bool_decide; [done|]. apply IH; lia.
Qed.

Lemma parse_label (n : nat) (kv : string * string) (rest : string) (res : Labels) :
  good_key kv.1 →
  TextToLabels_loop (S n) (labelText kv +:+ rest) res
  = match rest with
    | "" => TextToLabels_loop n "" (<[kv.1 := kv.2]> res)
    | String c rest' =>
        if bool_decide (c ≠ comma) then None
        else TextToLabels_loop n rest' (<[kv.1 := kv.2]> res)
    end.
Proof.
  destruct kv as [k v]. intros [Hk Heq]. simpl in Hk, Heq.
  cbn -[cutByte consumeQuotedValue labelText].
  rewrite bool_decide_eq_false_2
    by (intros [H _]%append_eq_nil; by apply append_eq_nil in H as [??]).
  unfold labelText. simpl. rewrite append_assoc. simpl.
  rewrite append_assoc. simpl.
  rewrite cutByte_append by done.
  rewrite bool_decide_eq_false_2 by done.
  rewrite bool_decide_eq_false_2 by tauto.
  by rewrite consumeQuotedValue_quote.
Qed.

Lemma parse_render (l : list (string * string)) (n : nat) (res : Labels) :
  Forall (λ kv, good_key kv.1) l → (length l < n)%nat →
  TextToLabels_loop n (render l) res
  = Some (foldl (λ m kv, <[kv.1 := kv.2]> m) res l).
Proof.
  revert n res. induction l as [|kv l IH]; intros n res Hl Hn; simpl.
  - destruct n; simpl in *; [lia|done].
  - apply Forall_cons in Hl as [Hk Hl]. destruct n as [|n]; simpl in Hn; [lia|].
    rewrite parse_label by done.
    destruct l as [|kv' l]; simpl.
    + destruct n; [lia|]. done.
    + specialize (IH n (<[kv.1 := kv.2]> res) Hl). simpl in IH.
      by rewrite <-IH by (simpl in *; lia).
Qed.

Lemma render_length (l : list (string * string)) :
  (length l ≤ String.length (render l))%nat.
Proof.
  assert (∀ l, (length l ≤ String.length (renderRest l))%nat) as Hrest.
  { clear. induction l as [|kv l IH]; simpl; [lia|].
    rewrite append_length. lia. }
  destruct l as [|kv l]; simpl; [lia|]. specialize (Hrest l).
  unfold labelText. rewrite !append_length. simpl. lia.
Qed.

(** ** Contents of the parsed map *)
Lemma foldl_insert_notin (l : list (string * string)) (res : Labels) (k : string) :
  k ∉ l.*1 → foldl (λ m kv, <[kv.1 := kv.2]> m) res l !! k = res !! k.
Proof.
  revert res. induction l as [|[k' v'] l IH]; intros res Hk; simpl in *; [done|].
  rewrite not_elem_of_cons in Hk. destruct Hk as [Hne Hk].
  rewrite IH by done. by rewrite lookup_insert_ne.
Qed.

Lemma foldl_insert_in (l : list (string * string)) (res : Labels) (k v : string) :
  NoDup l.*1 → (k, v) ∈ l →
  foldl (λ m kv, <[kv.1 := kv.2]> m) res l !! k = Some v.
Proof.
  revert res. induction l as [|[k' v'] l IH]; intros res Hnd Hin; simpl in *.
  - by apply not_elem_of_nil in Hin.
  - apply NoDup_cons in Hnd as [Hni Hnd].
    apply elem_of_cons in Hin as [Heq|Hin].
    + simplify_eq. rewrite foldl_insert_notin by done. by rewrite lookup_insert_eq.
    + by apply IH.
Qed.

Lemma labelNames_elem (labels : Labels) (k : string) :
  k ∈ labelNames labels false ↔ is_Some (labels !! k).
Proof.
  unfold labelNames. rewrite merge_sort_Permutation, list_elem_of_filter.
  rewrite list_elem_of_fmap. split.
  - intros [_ [[k' v] [-> Hin]]]. apply elem_of_map_to_list in Hin. eauto.
  - intros [v Hv]. split; [naive_solver|].
    exists (k, v). split; [done|]. by apply elem_of_map_to_list.
Qed.

Lemma labelNames_NoDup (labels : Labels) : NoDup (labelNames labels false).
Proof.
  unfold labelNames. rewrite merge_sort_Permutation.
  apply NoDup_filter, NoDup_fst_map_to_list.
Qed.

Lemma present_elem (labels : Labels) (names : list string) (k v : string) :
  (k, v) ∈ present labels names ↔ k ∈ names ∧ v = lget labels k ∧ v ≠ "".
Proof.
  unfold present. rewrite list_elem_of_filter, list_elem_of_fmap. naive_solver.
Qed.

Lemma present_NoDup (labels : Labels) (names : list string) :
  NoDup names → NoDup (present labels names).*1.
Proof.
  unfold present. induction names as [|k names IH]; intros Hnd; [constructor|].
  apply NoDup_cons in Hnd as [Hni Hnd]. simpl. rewrite filter_cons. simpl.
  destruct (decide _); [|auto]. simpl. apply NoDup_cons. split; [|auto].
  rewrite list_elem_of_fmap. intros [[k' v'] [-> Hin]].
  apply list_elem_of_filter in Hin as [_ Hin].
  apply list_elem_of_fmap in Hin as [? [? ?]]. naive_solver.
Qed.

Lemma present_foldl (labels : Labels) :
  foldl (λ m kv, <[kv.1 := kv.2]> m) ∅ (present labels (labelNames labels false))
  = filter (λ kv, kv.2 ≠ "") labels.
Proof.
  apply map_eq. intros k.
  pose proof (present_NoDup labels _ (labelNames_NoDup labels)) as Hnd.
  destruct (filter (λ kv, kv.2 ≠ "") labels !! k) as [v|] eqn:Hf.
  - apply map_lookup_filter_Some in Hf as [Hk Hv]. simpl in Hv.
    apply foldl_insert_in; [done|]. apply present_elem.
    rewrite labelNames_elem, Hk. unfold lget. rewrite Hk. naive_solver.
  - rewrite foldl_insert_notin; [done|].
    rewrite list_elem_of_fmap. intros [[k' v] [-> Hin]]. simpl in *.
    apply present_elem in Hin as [Hin [-> Hv]].
    apply labelNames_elem in Hin as [v Hk'].
    unfold lget in Hv. rewrite Hk' in Hv. simpl in Hv.
    apply map_lookup_filter_None_1 in Hf as [Hf|Hf]; naive_solver.
Qed.

Lemma present_good (labels : Labels) :
  (∀ k v, labels !! k = Some v → good_key k) →
  Forall (λ kv, good_key kv.1) (present labels (labelNames labels false)).
Proof.
  intros H. apply Forall_forall. intros [k v] Hin.
  apply present_elem in Hin as [Hin _]. apply labelNames_elem in Hin as [v' Hk].
  eauto.
Qed.

Lemma TextToLabels_render (l : list (string * string)) :
  Forall (λ kv, good_key kv.1) l →
  TextToLabels (render l) = Some (foldl (λ m kv, <[kv.1 := kv.2]> m) ∅ l).
Proof.
  intros Hl. unfold TextToLabels. case_bool_decide as He.
  - destruct l as [|[k v] l]; [done|]. apply Forall_cons in Hl as [[Hk _] _].
    simpl in He. by apply append_eq_nil in He as [[??]%append_eq_nil _].
  - apply parse_render; [done|]. pose proof (render_length l). lia.
Qed.

Lemma TextToLabels_LabelsToText (labels : Labels) :
  (∀ k v, labels !! k = Some v → good_key k) →
  TextToLabels (LabelsToText labels) = Some (filter (λ kv, kv.2 ≠ "") labels).
Proof.
  intros H. rewrite LabelsToText_render, TextToLabels_render by by apply present_good.
  by rewrite present_foldl.
Qed.

(** The text form is canonical: it only depends on the non-empty labels. *)
Lemma present_keys_sorted (labels : Labels) (names : list string) :
  StronglySorted String.le names →
  StronglySorted String.le (present labels names).*1.
Proof.
  unfold present. induction 1 as [|k names Hs IH Hk]; [constructor|].
  simpl. rewrite filter_cons. simpl. destruct (decide _); [|done].
  simpl. constructor; [done|]. rewrite Forall_forall in *. intros k' Hin.
  apply list_elem_of_fmap in Hin as [[a b] [-> Hin]].
  apply list_elem_of_filter in Hin as [_ Hin].
  apply list_elem_of_fmap in Hin as [x [Hx Hin]]. simplify_eq/=. auto.
Qed.

Lemma present_names_sorted (labels : Labels) :
  StronglySorted String.le (present labels (labelNames labels false)).*1.
Proof. apply present_keys_sorted, StronglySorted_merge_sort; apply _. Qed.

Lemma present_lookup (labels : Labels) (k v : string) :
  (k, v) ∈ present labels (labelNames labels false)
  ↔ filter (λ kv, kv.2 ≠ "") labels !! k = Some v.
Proof.
  rewrite present_elem, labelNames_elem, map_lookup_filter_Some. simpl. unfold lget.
  split.
  - intros [[v' Hk] [-> Hv]]. rewrite Hk in *. naive_solver.
  - intros [Hk Hv]. rewrite Hk. naive_solver.
Qed.

Lemma present_as_keys (labels : Labels) :
  present labels (labelNames labels false)
  = (λ k, (k, default "" (filter (λ kv, kv.2 ≠ "") labels !! k)))
      <$> (present labels (labelNames labels false)).*1.
Proof.
  rewrite <-list_fmap_compose. rewrite <-(list_fmap_id (present _ _)) at 1.
  apply list_fmap_ext. intros i [k v] Hi. simpl.
  apply list_elem_of_lookup_2, present_lookup in Hi. by rewrite Hi.
Qed.

Lemma present_canonical (l1 l2 : Labels) :
  filter (λ kv, kv.2 ≠ "") l1 = filter (λ kv, kv.2 ≠ "") l2 →
  present l1 (labelNames l1 false) = present l2 (labelNames l2 false).
Proof.
  intros H. rewrite (present_as_keys l1), (present_as_keys l2), H. f_equal.
  apply (StronglySorted_unique String.le);
    [apply present_names_sorted..|].
  apply NoDup_Permutation; [apply present_NoDup, labelNames_NoDup..|].
  intros k. rewrite !list_elem_of_fmap. setoid_rewrite (surjective_pairing (A:=string)).
  split; intros [[a b] [-> Hin]]; exists (a, b); split; try done;
    apply present_lookup; apply present_lookup in Hin; congruence.
Qed.

(** C34. Round trip of the label text: for every label set whose names are not
    empty and hold no equal sign, parsing the text form gives back the set
    without its empty-valued labels (which the text form leaves out), whatever
    bytes the values hold; and two such sets have the same text exactly when
    they agree on their non-empty labels, so the text identifies a metric. *)
Theorem LabelsToText_roundtrip (labels : Labels) :
  (∀ k v, labels !! k = Some v → good_key k) →
  TextToLabels (LabelsToText labels) = Some (filter (λ kv, kv.2 ≠ "") labels)
  ∧ ∀ other : Labels,
      (∀ k v, other !! k = Some v → good_key k) →
      LabelsToText other = LabelsToText labels
      ↔ filter (λ kv, kv.2 ≠ "") other = filter (λ kv, kv.2 ≠ "") labels.
Proof.
  intros H. split; [by apply TextToLabels_LabelsToText|].
  intros other Ho. split; intros Heq.
  - apply (f_equal TextToLabels) in Heq.
    rewrite !TextToLabels_LabelsToText in Heq by done. by simplify_eq.
  - rewrite !LabelsToText_render. f_equal. by apply present_canonical.
Qed.

Definition sample_labels : Labels :=
  {[ LabelName := "disk_used"; "item" := String dquote (String backslash "a,b=");
     "empty" := "" ]}.

Lemma sample_labels_good (k v : string) : sample_labels !! k = Some v → good_key k.
Proof.
  unfold sample_labels. rewrite !lookup_insert, lookup_singleton.
  repeat case_decide; intros; simplify_eq; by vm_compute.
Qed.

Lemma LabelsToText_roundtrip_witness :
  TextToLabels (LabelsToText sample_labels)
  = Some (filter (λ kv, kv.2 ≠ "") sample_labels).
Proof. exact (proj1 (LabelsToText_roundtrip sample_labels sample_labels_good)). Defined.

(** ** Metric key *)
Lemma metricKeyLabels_lookup (lbls : Labels) (ann : MetricAnnotations)
    (agentID k : string) :
  k ≠ LabelInstance → k ≠ LabelInstanceUUID →
  metricKeyLabels lbls ann agentID !! k = lbls !! k.
Proof.
  intros H1 H2. unfold metricKeyLabels.
  repeat split_if; by rewrite ?lookup_insert_ne, ?lookup_delete_ne by done.
Qed.

Lemma metricKeyLabels_good (lbls : Labels) (ann : MetricAnnotations) (agentID : string) :
  (∀ k v, lbls !! k = Some v → good_key k) →
  ∀ k v, metricKeyLabels lbls ann agentID !! k = Some v → good_key k.
Proof.
  intros H k v Hk.
  destruct (decide (k = LabelInstance)) as [->|H1]; [by vm_compute|].
  destruct (decide (k = LabelInstanceUUID)) as [->|H2]; [by vm_compute|].
  rewrite metricKeyLabels_lookup in Hk by done. eauto.
Qed.

Lemma MetricOnlyHasItem_spec (lbls : Labels) (agentID : string) :
  MetricOnlyHasItem lbls agentID = true ↔
  dom lbls ⊆ {[ LabelName; LabelItem; LabelInstanceUUID; LabelInstance ]}
  ∧ ∀ v, lbls !! LabelInstanceUUID = Some v → v = agentID.
Proof.
  unfold MetricOnlyHasItem. case_bool_decide as Hsz.
  - split; [done|]. intros [Hdom _]. apply subseteq_size in Hdom.
    rewrite size_dom in Hdom. vm_compute (size _) in Hdom at 2. lia.
  - rewrite forallb_forall. split.
    + intros H. split.
      * intros k [v Hk]%elem_of_dom.
        specialize (H (k, v)). rewrite <-list_elem_of_In, elem_of_map_to_list in H.
        specialize (H Hk). apply andb_true_iff in H as [H _]. set_unfold.
        destruct (decide (k = LabelName)), (decide (k = LabelItem)),
          (decide (k = LabelInstanceUUID)), (decide (k = LabelInstance)); try tauto.
        by rewrite !bool_decide_eq_true_2 in H by done.
      * intros v Hv. specialize (H (LabelInstanceUUID, v)).
        rewrite <-list_elem_of_In, elem_of_map_to_list in H. specialize (H Hv).
        destruct (decide (v = agentID)); [done|].
        by rewrite (bool_decide_eq_true_2 (v ≠ agentID)) in H by done.
    + intros [Hdom Huuid] [k v] Hin. rewrite <-list_elem_of_In, elem_of_map_to_list in Hin.
      assert (k ∈ dom lbls) as Hk by (apply elem_of_dom; eauto).
      apply Hdom in Hk. set_unfold.
      destruct Hk as [[[->| ->]| ->]| ->]; try done.
      apply Huuid in Hin as ->.
      by rewrite (bool_decide_eq_false_2 (agentID ≠ agentID)) by tauto.
Qed.

(** A metric key never confuses two metrics: when two label sets have the
    same key they hold the same value for every label but [instance] and
    [instance_uuid], the only two the key normalises. *)
Theorem MetricKey_separates (l1 l2 : Labels) (a1 a2 : MetricAnnotations)
    (agent1 agent2 : string) :
  (∀ k v, l1 !! k = Some v → good_key k) →
  (∀ k v, l2 !! k = Some v → good_key k) →
  MetricKey l1 a1 agent1 = MetricKey l2 a2 agent2 →
  ∀ k, k ≠ LabelInstance → k ≠ LabelInstanceUUID → lget l1 k = lget l2 k.
Proof.
  intros H1 H2 Heq k Hk1 Hk2. unfold MetricKey in Heq.
  apply (f_equal TextToLabels) in Heq.
  rewrite !TextToLabels_LabelsToText in Heq by by apply metricKeyLabels_good.
  simplify_eq. apply (f_equal (λ m : Labels, default "" (m !! k))) in Heq.
  rewrite !map_lookup_filter, !metricKeyLabels_lookup in Heq by done.
  unfold lget. destruct (l1 !! k) as [v1|], (l2 !! k) as [v2|]; simpl in *;
    repeat case_guard; simpl in *; try done;
    repeat match goal with H : ¬ _ |- _ => apply dec_stable in H end; congruence.
Qed.

(** A metric in name and item mode, as gathered and as registered. *)
Definition disk_labels : Labels := {[ LabelName := "disk_used"; LabelItem := "/srv" ]}.
Definition disk_labels_agent : Labels :=
  <[LabelInstanceUUID := "agent-1"]> (<[LabelInstance := "host:8015"]> disk_labels).

Lemma disk_labels_agent_good (k v : string) :
  disk_labels_agent !! k = Some v → good_key k.
Proof.
  unfold disk_labels_agent, disk_labels. rewrite !lookup_insert, lookup_singleton.
  repeat case_decide; intros; simplify_eq; by vm_compute.
Qed.

Lemma disk_labels_good (k v : string) : disk_labels !! k = Some v → good_key k.
Proof.
  unfold disk_labels. rewrite !lookup_insert, lookup_singleton.
  repeat case_decide; intros; simplify_eq; by vm_compute.
Qed.

Lemma MetricKey_separates_witness :
  MetricKey disk_labels zeroAnnotations "agent-1"
    = MetricKey disk_labels_agent zeroAnnotations "agent-1"
  ∧ lget disk_labels LabelItem = lget disk_labels_agent LabelItem.
Proof.
  assert (MetricKey disk_labels zeroAnnotations "agent-1"
    = MetricKey disk_labels_agent zeroAnnotations "agent-1") as H by by vm_compute.
  split; [exact H|].
  exact (MetricKey_separates disk_labels disk_labels_agent zeroAnnotations zeroAnnotations
    "agent-1" "agent-1" disk_labels_good disk_labels_agent_good H LabelItem
    ltac:(by vm_compute) ltac:(by vm_compute)).
Defined.

(** The agent a metric is emitted for. *)
Definition effectiveAgent (ann : MetricAnnotations) (agentID : string) : string :=
  if bool_decide (BleemeoAgentID ann ≠ "") then BleemeoAgentID ann else agentID.

Lemma metricKeyLabels_item_mode (lbls : Labels) (ann : MetricAnnotations)
    (agentID : string) :
  MetricOnlyHasItem lbls (effectiveAgent ann agentID) = true →
  effectiveAgent ann agentID ≠ "" →
  metricKeyLabels lbls ann agentID
  = <[LabelInstanceUUID := effectiveAgent ann agentID]> (delete LabelInstance lbls).
Proof.
  intros Hitem Hag. unfold metricKeyLabels. fold (effectiveAgent ann agentID).
  rewrite Hitem, (bool_decide_eq_true_2 (effectiveAgent _ _ ≠ "")) by done.
  apply MetricOnlyHasItem_spec in Hitem as [_ Huuid].
  unfold lget. destruct (lbls !! LabelInstanceUUID) as [v|]; simpl; [|done].
  rewrite (Huuid v) by done. unfold effectiveAgent.
  destruct (decide (BleemeoAgentID ann = "")) as [Hb|Hb].
  - rewrite Hb. simpl. by rewrite (bool_decide_eq_true_2 (agentID = agentID)), !orb_true_r.
  - rewrite !(bool_decide_eq_true_2 (BleemeoAgentID ann ≠ "")) by done.
    by rewrite (bool_decide_eq_true_2 (BleemeoAgentID ann = BleemeoAgentID ann)), orb_true_r.
Qed.

(** Name and item mode: a metric that only has a name and an item gets the
    same key whether or not it carries the [instance_uuid] of its agent and
    whatever its [instance] is, which is what the registration relies on. *)
Theorem MetricKey_item_mode (lbls : Labels) (ann : MetricAnnotations)
    (agentID instance : string) :
  dom lbls ⊆ {[ LabelName; LabelItem ]} →
  effectiveAgent ann agentID ≠ "" →
  MetricKey (<[LabelInstanceUUID := effectiveAgent ann agentID]>
               (<[LabelInstance := instance]> lbls)) ann agentID
  = MetricKey lbls ann agentID
  ∧ MetricKey (<[LabelInstanceUUID := effectiveAgent ann agentID]> lbls) ann agentID
  = MetricKey lbls ann agentID.
Proof.
  intros Hdom Hag. unfold MetricKey.
  assert (lbls !! LabelInstanceUUID = None ∧ lbls !! LabelInstance = None) as [Hu Hi].
  { rewrite <-!not_elem_of_dom. split; intros H%Hdom; set_unfold;
      destruct H as [H|H]; by vm_compute in H. }
  assert (∀ m, m = lbls ∨ m = <[LabelInstance := instance]> lbls →
    metricKeyLabels (<[LabelInstanceUUID := effectiveAgent ann agentID]> m) ann agentID
    = metricKeyLabels lbls ann agentID) as Hmain; [|split; f_equal; apply Hmain; auto].
  intros m Hm. rewrite !metricKeyLabels_item_mode; try done.
  - apply map_eq. intros k.
    destruct (decide (k = LabelInstanceUUID)) as [->|H1];
      [by rewrite !lookup_insert_eq|]. rewrite !lookup_insert_ne by done.
    destruct (decide (k = LabelInstance)) as [->|H2]; [by rewrite !lookup_delete_eq|].
    rewrite !lookup_delete_ne by done. rewrite !lookup_insert_ne by done.
    destruct Hm as [->| ->]; [done|]. by rewrite lookup_insert_ne.
  - apply MetricOnlyHasItem_spec. split; [set_solver|]. intros v Hv. congruence.
  - apply MetricOnlyHasItem_spec. split.
    + destruct Hm as [->| ->]; rewrite ?dom_insert_L; set_solver.
    + intros v Hv. rewrite lookup_insert_eq in Hv. congruence.
Qed.

Lemma MetricKey_item_mode_witness :
  MetricKey disk_labels_agent zeroAnnotations "agent-1"
  = MetricKey disk_labels zeroAnnotations "agent-1".
Proof.
  refine (proj1 (MetricKey_item_mode disk_labels zeroAnnotations "agent-1" "host:8015" _ _));
    [unfold disk_labels; set_solver|by vm_compute].
Defined.

(** Nagios codes are stable under a round trip for every status that is set. *)
Lemma FromNagios_NagiosCode (s : Status.t) :
  s ≠ Status.StatusUnset → Status.FromNagios (Status.NagiosCode s) = s.
Proof. by destruct s. Qed.

(** Two label sets the text does not tell apart: an empty value is not
    written. *)
Example LabelsToText_empty_value :
  LabelsToText {[ LabelName := "up"; LabelItem := "" ]}
  = LabelsToText {[ LabelName := "up" ]}.
Proof. by vm_compute. Qed.
