(* ===== verification/Strings.v ===== *)
(** The functions of Go's package strings that the metric filter and the JMX
    metrics use: [Split] and [NewReplacer(...).Replace], [strconv.ParseInt] and [net.JoinHostPort]. *)
From S2P Require Import Prelude Labels.

#[local] Open Scope string_scope.

(** What follows [prefix] in [s], if [s] starts with it. *)
Fixpoint CutPrefix (prefix s : string) : option string :=
  match prefix, s with
  | EmptyString, _ => Some s
  | String c prefix, String d s => if bool_decide (c = d) then CutPrefix prefix s else None
  | String _ _, EmptyString => None
  end.

(** [strings.Split] with a separator of one byte: never the empty list. *)
Fixpoint Split (c : Ascii.ascii) (s : string) : list string :=
  match s with
  | EmptyString => [""]
  | String d s =>
      if bool_decide (c = d) then "" :: Split c s
      else match Split c s with
           | w :: ws => String d w :: ws
           | [] => [String d ""]
           end
  end.

(** The first pair, in the order of the arguments, whose old string is at the
    beginning of [s]. *)
Fixpoint matchOld (pairs : list (string * string)) (s : string) : option (string * string) :=
  match pairs with
  | [] => None
  | (old, new) :: pairs =>
      match CutPrefix old s with
      | Some rest => Some (new, rest)
      | None => matchOld pairs s
      end
  end.

(** Replacements go from left to right and never overlap. *)
Fixpoint replaceFrom (fuel : nat) (pairs : list (string * string)) (s : string) : string :=
  match fuel, s with
  | O, _ | _, EmptyString => s
  | S fuel, String c rest =>
      match matchOld pairs s with
      | Some (new, rest') => new +:+ replaceFrom fuel pairs rest'
      | None => String c (replaceFrom fuel pairs rest)
      end
  end.

(** [strings.NewReplacer(pairs...).Replace(s)], with no empty old string. *)
Definition Replace (pairs : list (string * string)) (s : string) : string :=
  replaceFrom (String.length s) pairs s.

(** [strconv.ParseInt(s, 10, 0)] *)
Fixpoint parseDigits (acc : Z) (s : string) : option Z :=
  match s with
  | EmptyString => Some acc
  | String c s =>
      let d := (Z.of_N (Ascii.N_of_ascii c) - 48)%Z in
      if ((0 <=? d) && (d <=? 9))%Z then parseDigits (10 * acc + d)%Z s else None
  end.

Definition ParseInt (s : string) : option Z :=
  let '(negative, digits) :=
    match s with
    | String "-" s => (true, s)
    | String "+" s => (false, s)
    | _ => (false, s)
    end in
  if bool_decide (digits = "") then None
  else
    n ← parseDigits 0 digits;
    let n := if negative then (- n)%Z else n in
    if ((Int.minInt64 <=? n) && (n <=? Int.maxInt64))%Z then Some n else None.

(** [net.JoinHostPort]: an address with a colon, as an IPv6 one, is bracketed. *)
Definition JoinHostPort (host port : string) : string :=
  if byte_in ":"%char host then "[" +:+ host +:+ "]:" +:+ port else host +:+ ":" +:+ port.

(** * Laws *)
Lemma CutPrefix_Some (p s rest : string) : CutPrefix p s = Some rest ↔ s = p +:+ rest.
Proof.
  revert s. induction p as [|c p IH]; intros s; [simpl; naive_solver|].
  destruct s as [|d s]; [simpl; naive_solver|]. cbn [CutPrefix].
  change (String c p +:+ rest) with (String c (p +:+ rest)).
  case_bool_decide; [subst; rewrite IH; naive_solver|naive_solver].
Qed.

(** A string none of whose bytes starts an old string is left alone. *)
Lemma replaceFrom_id (pairs : list (string * string)) (s : string) :
  Forall (λ p, ∃ c old, p.1 = String c old ∧ byte_in c s = false) pairs →
  ∀ fuel, replaceFrom fuel pairs s = s.
Proof.
  induction s as [|d s IH]; intros Hp [|fuel]; try done. cbn [replaceFrom].
  assert (matchOld pairs (String d s) = None) as ->.
  { clear IH. induction Hp as [|[old new] pairs (c & o & Ho & Hc) _ IHp]; [done|].
    simpl in Ho. subst old. cbn [matchOld CutPrefix]. cbn in Hc.
    destruct (decide (d = c)) as [->|Hne]; [by rewrite bool_decide_true in Hc|].
    by rewrite (bool_decide_false (c = d)) by congruence. }
  f_equal. apply IH. eapply Forall_impl; [exact Hp|]. intros p (c & o & Ho & Hc). exists c, o. split; [done|].
  cbn in Hc. by case_bool_decide.
Qed.

Lemma Replace_id (pairs : list (string * string)) (s : string) :
  Forall (λ p, ∃ c old, p.1 = String c old ∧ byte_in c s = false) pairs → Replace pairs s = s.
Proof. intros H. by apply replaceFrom_id. Qed.
