(* ===== verification/Matcher.v ===== *)
(** Metric selectors (prometheus/matcher/matcher.go): a list of matchers, all of
    which a label set must satisfy, and the translation of a configured metric
    name, glob or selector into one.

    The PromQL parser and the matchers belong to Prometheus.  Its parser is the
    function [selector], from a text to the type, label and value of each matcher
    or an error; [matchValue] is the test of a value by a matcher; and
    [newMatcherError] is the error of the creation of a matcher. *)
From S2P Require Import Prelude Labels Strings.

#[local] Open Scope string_scope.

(** * Data *)
(** labels.MatchType *)
Inductive MatchType : Set := MatchEqual | MatchNotEqual | MatchRegexp | MatchNotRegexp.

#[global] Instance MatchType_eq_dec : EqDecision MatchType.
Proof. solve_decision. Defined.
#[global] Instance MatchType_countable : Countable MatchType.
Proof.
  refine (inj_countable' (λ t, match t with MatchEqual => 0 | MatchNotEqual => 1 | MatchRegexp => 2 | MatchNotRegexp => 3 end)%nat
    (λ n, match n with 0 => MatchEqual | 1 => MatchNotEqual | 2 => MatchRegexp | _ => MatchNotRegexp end)%nat _).
  by intros [].
Defined.

(** labels.Matcher: [mRe] is its pointer to the compiled regular expression, so two
    matchers of the same regular expression differ. *)
Record Matcher := mkMatcher { mType : MatchType; mName : string; mValue : string; mRe : option nat }.

#[global] Instance Matcher_eq_dec : EqDecision Matcher.
Proof. solve_decision. Defined.
#[global] Instance Matcher_countable : Countable Matcher.
Proof.
  refine (inj_countable' (λ m, (mType m, mName m, mValue m, mRe m)) (λ '(t, n, v, r), mkMatcher t n v r) _).
  by intros [].
Defined.

Notation Matchers := (list Matcher).

(** A matcher without its pointer. *)
Notation spec := (MatchType * string * string)%type.
Definition erase (m : Matcher) : spec := (mType m, mName m, mValue m).

Definition eraseAll (m : Matchers) : list spec := erase <$> m.

Definition isRegexp (t : MatchType) : bool :=
  match t with MatchRegexp | MatchNotRegexp => true | _ => false end.

(** The matchers of [specs], of which [heap] regular expressions are already compiled. *)
Fixpoint allocate (heap : nat) (specs : list spec) : Matchers * nat :=
  match specs with
  | [] => ([], heap)
  | (t, n, v) :: specs =>
      let (ms, heap') := allocate (if isRegexp t then S heap else heap) specs in
      (mkMatcher t n v (if isRegexp t then Some heap else None) :: ms, heap')
  end.

(** * Operations *)
Definition globToRegex (str : string) : string :=
  let two := String backslash (String backslash "") in
  Replace [(".", two +:+ "."); ("$", two +:+ "$"); ("^", two +:+ "^"); ("*", ".*")] str.

(** The selector that NormalizeMetric gives to the parser. *)
Definition selectorText (metric : string) : string :=
  if negb (byte_in "{"%char metric) then
    let metric := Replace [(".", "_"); ("-", "_")] metric in
    let isGlob := byte_in "*"%char metric in
    let matchType := if isGlob then "=~" else "=" in
    let metric := if isGlob then globToRegex metric else metric in
    "{" +:+ LabelName +:+ matchType +:+ String dquote metric +:+ String dquote "}"
  else metric.

Definition Get (m : Matchers) (label : string) : option Matcher :=
  snd <$> list_find (λ val, mName val = label) m.

Section Matching.
Context {E : Type}.
Variable matchValue : MatchType → string → string → bool.
Variable selector : string → list spec + E.
Variable newMatcherError : MatchType → string → string → option E.

(** The error of NormalizeMetric has the text that was not parsed. *)
Definition NormalizeMetric (heap : nat) (metric : string) : (Matchers + string * E) * nat :=
  match selector (selectorText metric) with
  | inl specs => let (ms, heap) := allocate heap specs in (inl ms, heap)
  | inr err => (inr (selectorText metric, err), heap)
  end.

(** labels.Matcher.Matches *)
Definition matcherMatches (m : Matcher) (value : string) : bool := matchValue (mType m) (mValue m) value.

Definition matchesLabels (m : Matcher) (lbls : Labels) : bool := matcherMatches m (lget lbls (mName m)).

Definition Matches (m : Matchers) (lbls : Labels) : bool := forallb (λ matcher, matchesLabels matcher lbls) m.

Definition MatchesAny (lbls : Labels) (matchers : list Matchers) : bool :=
  existsb (λ m, Matches m lbls) matchers.

(** The error of Add is NewMatcher's. *)
Definition Add (heap : nat) (m : Matchers) (label value : string) (labelType : MatchType) : (Matchers + E) * nat :=
  match newMatcherError labelType label value with
  | Some err => (inr err, heap)
  | None => let (ms, heap) := allocate heap [(labelType, label, value)] in (inl (m ++ ms)%list, heap)
  end.

(** * Selectors without their pointers *)
Definition specMatches (s : spec) (lbls : Labels) : bool := matchValue s.1.1 s.2 (lget lbls s.1.2).

Definition specsMatch (lbls : Labels) (specs : list spec) : bool := forallb (λ s, specMatches s lbls) specs.

Lemma Matches_erase (m : Matchers) (lbls : Labels) : Matches m lbls = specsMatch lbls (eraseAll m).
Proof. unfold Matches, specsMatch. induction m as [|[t n v r] m IH]; [done|]. simpl. by rewrite IH. Qed.

Lemma MatchesAny_erase (lbls : Labels) (l : list Matchers) :
  MatchesAny lbls l = existsb (specsMatch lbls) (eraseAll <$> l).
Proof. induction l as [|m l IH]; [done|]. simpl. by rewrite Matches_erase, IH. Qed.

Lemma allocate_erase (heap : nat) (specs : list spec) : eraseAll (allocate heap specs).1 = specs.
Proof.
  revert heap. induction specs as [|[[t n] v] specs IH]; intros heap; [done|]. cbn [allocate].
  specialize (IH (if isRegexp t then S heap else heap)). destruct (allocate _ specs) as [ms heap'].
  simpl in *. by rewrite IH.
Qed.

(** What NormalizeMetric returns, but for the pointers. *)
Definition normalized (metric : string) : option (list spec) :=
  match selector (selectorText metric) with inl specs => Some specs | inr _ => None end.

Lemma NormalizeMetric_spec (heap : nat) (metric : string) :
  match (NormalizeMetric heap metric).1 with
  | inl ms => normalized metric = Some (eraseAll ms)
  | inr (text, _) => normalized metric = None ∧ text = selectorText metric
  end.
Proof.
  unfold NormalizeMetric, normalized. destruct (selector _) as [specs|err]; [|done].
  pose proof (allocate_erase heap specs) as H. destruct (allocate heap specs). simpl in *. by rewrite H.
Qed.

Lemma Add_spec (heap : nat) (m : Matchers) (label value : string) (t : MatchType) :
  newMatcherError t label value = None →
  ∃ ms heap', Add heap m label value t = (inl ms, heap') ∧
    eraseAll ms = (eraseAll m ++ [(t, label, value)])%list.
Proof.
  intros Hn. unfold Add. rewrite Hn. pose proof (allocate_erase heap [(t, label, value)]) as H.
  destruct (allocate heap _) as [ms heap']. exists (m ++ ms)%list, heap'. simpl in H.
  unfold eraseAll in *. by rewrite fmap_app, H.
Qed.

Lemma Get_erase (m : Matchers) (label : string) :
  is_Some (Get m label) ↔ Exists (λ s : spec, s.1.2 = label) (eraseAll m).
Proof.
  unfold Get, eraseAll. rewrite fmap_is_Some, Exists_fmap. split.
  - intros [[i x] (Hi & Hx & _)%list_find_Some]. apply Exists_exists. exists x. split; [|done].
    by eapply list_elem_of_lookup_2.
  - intros (x & Hin & Hx)%Exists_exists. by eapply list_find_elem_of.
Qed.

(** The first matcher of the name is one that the labels of a match satisfy. *)
Lemma Get_Matches (m : Matchers) (n : Matcher) (label : string) (lbls : Labels) :
  Get m label = Some n → Matches m lbls = true → matcherMatches n (lget lbls label) = true.
Proof.
  unfold Get. intros ((i & x) & Hf & ->)%fmap_Some Hm. apply list_find_Some in Hf as (Hi & Hx & _).
  unfold Matches in Hm. rewrite forallb_forall in Hm.
  specialize (Hm x). rewrite <-Hx. apply Hm, list_elem_of_In. by eapply list_elem_of_lookup_2.
Qed.
End Matching.
