(* ===== verification/MetricTables.v ===== *)
(** The default metrics of the agent (agent/metric-filter/metric.go): the system
    metrics, those of the inputs, and those of each type of service, as the
    tables of the source list them. *)
From S2P Require Import Prelude Labels.

#[local] Open Scope string_scope.

(** A string in which a single quote stands for a double one. *)
Fixpoint quotes (s : string) : string :=
  match s with
  | EmptyString => ""
  | String c s => String (if bool_decide (c = "'"%char) then dquote else c) (quotes s)
  end.

Definition commonDefaultSystemMetrics : list string :=
  ["agent_status"; "service_status"; "system_pending_updates"; "system_pending_security_updates";
   "time_drift"; "agent_config_warning"; "kubernetes_api_status"; "kubernetes_ca_day_left";
   "kubernetes_certificate_day_left"; "kubernetes_certificate_left_perc"; "kubernetes_cpu_allocatable";
   "kubernetes_cpu_limits"; "kubernetes_cpu_requests"; "kubernetes_cronjob_last_success_age_seconds";
   "kubernetes_cronjob_missed_runs"; "kubernetes_hpa_max_replicas"; "kubernetes_hpa_min_replicas";
   "kubernetes_hpa_scaling_limited"; "kubernetes_hpa_status"; "kubernetes_job_failed_pods";
   "kubernetes_kubelet_status"; "kubernetes_last_job_duration_seconds"; "kubernetes_memory_allocatable";
   "kubernetes_memory_limits"; "kubernetes_memory_requests"; "kubernetes_namespaces_count";
   "kubernetes_nodes_count"; "kubernetes_pods_allocatable"; "kubernetes_pods_count";
   "kubernetes_pods_restart_count"; "kubernetes_replicas_desired"; "kubernetes_replicas_ready";
   "process_context_switch"; "process_cpu_system"; "process_cpu_user"; "process_io_read_bytes";
   "process_io_write_bytes"; "process_major_fault"; "process_mem_bytes"; "process_num_procs";
   "process_num_threads"; "process_open_filedesc"; "process_worst_fd_ratio"; "containers_count";
   "container_cpu_used"; "container_cpu_throttled_perc"; "container_health_status";
   "container_io_read_bytes"; "container_io_write_bytes"; "container_mem_used"; "container_mem_used_perc";
   "container_mem_used_perc_status"; "container_net_bits_recv"; "container_net_bits_sent";
   quotes "process_cpu_seconds_total{scrape_job!=''}";
   quotes "process_resident_memory_bytes{scrape_job!=''}"; "probe_duration_seconds"; "probe_dns_answer_rrs";
   quotes "probe_dns_lookup_time_seconds{instance!~'dns:.*'}"; "probe_dns_rcode";
   "probe_dns_duration_seconds"; "probe_http_status_code"; "probe_success";
   "probe_ssl_earliest_cert_expiry"; "probe_ssl_last_chain_expiry_timestamp_seconds";
   "probe_ssl_leaf_certificate_lifespan"; "probe_ssl_validation_success"; "probe_http_duration_seconds";
   "probe_failed_due_to_tls_error"].

Definition promLinuxDefaultSystemMetrics : list string :=
  ["glouton_gatherer_execution_seconds_count"; "glouton_gatherer_execution_seconds_sum"; "node_load1";
   "node_memory_MemTotal_bytes"; "node_memory_MemAvailable_bytes"; "node_memory_MemFree_bytes";
   "node_memory_Buffers_bytes"; "node_memory_Cached_bytes"; "node_disk_io_time_seconds_total";
   "node_disk_read_bytes_total"; "node_disk_written_bytes_total"; "node_disk_reads_completed_total";
   "node_disk_writes_completed_total"; "node_filesystem_avail_bytes"; "node_filesystem_size_bytes";
   "node_network_receive_bytes_total"; "node_network_transmit_bytes_total";
   "node_network_receive_packets_total"; "node_network_transmit_packets_total";
   "node_network_receive_errs_total"; "node_network_transmit_errs_total"].

Definition promLinuxSwapMetrics : list string :=
  ["node_memory_SwapFree_bytes"; "node_memory_SwapTotal_bytes"].

Definition promWindowsDefaultSystemMetrics : list string :=
  ["glouton_gatherer_execution_seconds_count"; "glouton_gatherer_execution_seconds_sum";
   "windows_cpu_time_global"; "windows_memory_physical_total_bytes"; "windows_memory_available_bytes";
   "windows_memory_standby_cache_bytes"; "windows_pagefile_free_bytes"; "windows_pagefile_limit_bytes";
   "windows_logical_disk_idle_seconds_total"; "windows_logical_disk_read_bytes_total";
   "windows_logical_disk_write_bytes_total"; "windows_logical_disk_reads_total";
   "windows_logical_disk_writes_total"; "windows_logical_disk_free_bytes";
   "windows_logical_disk_size_bytes"; "windows_net_bytes_received_total"; "windows_net_bytes_sent_total";
   "windows_net_packets_received_total"; "windows_net_packets_sent_total";
   "windows_net_packets_received_errors"; "windows_net_packets_outbound_errors"; "windows_os_hostname"].

Definition bleemeoDefaultSystemMetrics : list string :=
  ["agent_gather_time"; "cpu_idle"; "cpu_interrupt"; "cpu_nice"; "cpu_other"; "cpu_softirq"; "cpu_steal";
   "cpu_system"; "cpu_used"; "cpu_used_status"; "cpu_user"; "cpu_wait"; "cpu_guest_nice"; "cpu_guest";
   "disk_free"; "disk_inodes_free"; "disk_inodes_total"; "disk_inodes_used"; "disk_total"; "disk_used";
   "disk_used_perc"; "disk_used_perc_status"; "io_read_bytes"; "io_reads"; "io_read_merged";
   "io_read_utilization"; "io_utilization"; "io_write_bytes"; "io_write_merged"; "io_writes";
   "io_write_utilization"; "mem_available"; "mem_available_perc"; "mem_buffered"; "mem_cached"; "mem_free";
   "mem_total"; "mem_used"; "mem_used_perc"; "mem_used_perc_status"; "mem_inactive"; "net_bits_recv";
   "net_bits_sent"; "net_drop_in"; "net_drop_out"; "net_err_in"; "net_err_in_status"; "net_err_out";
   "net_err_out_status"; "net_packets_recv"; "net_packets_sent"; "process_status_blocked";
   "process_status_paging"; "process_status_running"; "process_status_sleeping"; "process_status_stopped";
   "process_status_zombies"; "process_total"; "process_total_threads"; "system_load1"; "system_load5";
   "system_load15"; "system_power_consumption"; "uptime"; "users_logged"; "zfs_pool_health_status"].

Definition bleemeoSwapMetrics : list string :=
  ["swap_free"; "swap_in"; "swap_out"; "swap_total"; "swap_used"; "swap_used_perc"; "swap_used_perc_status"].

Definition snmpMetrics : list string :=
  ["snmp_scrape_duration_seconds"; "snmp_device_status"; "sysUpTime"; "ifOperStatus"; "total_interfaces";
   "connected_interfaces"; "prtMarkerSuppliesLevel"; "temperature"].

Definition inputMetrics : list string :=
  ["smart_device_health_status"; "smart_device_temp_c"; "smart_device_media_wearout_indicator";
   "smart_device_percent_lifetime_remain"; "smart_device_read_error_rate"; "smart_device_seek_error_rate";
   "smart_device_udma_crc_errors"; "smart_device_wear_leveling_count"; "mdstat_health_status";
   "mdstat_disks_active_count"; "mdstat_disks_down_count"; "mdstat_disks_failed_count";
   "mdstat_disks_spare_count"; "mdstat_disks_total_count"; "nvidia_smi_fan_speed";
   "nvidia_smi_fbc_stats_session_count"; "nvidia_smi_fbc_stats_average_fps";
   "nvidia_smi_fbc_stats_average_latency"; "nvidia_smi_memory_free"; "nvidia_smi_memory_used";
   "nvidia_smi_memory_total"; "nvidia_smi_power_draw"; "nvidia_smi_temperature_gpu";
   "nvidia_smi_utilization_gpu"; "nvidia_smi_utilization_memory"; "nvidia_smi_utilization_encoder";
   "nvidia_smi_utilization_decoder"; "nvidia_smi_pcie_link_gen_current";
   "nvidia_smi_pcie_link_width_current"; "nvidia_smi_encoder_stats_session_count";
   "nvidia_smi_encoder_stats_average_fps"; "nvidia_smi_encoder_stats_average_latency";
   "nvidia_smi_clocks_current_graphics"; "nvidia_smi_clocks_current_sm"; "nvidia_smi_clocks_current_memory";
   "nvidia_smi_clocks_current_video"; "psi_cpu_some_perc"; "psi_io_full_perc"; "psi_io_some_perc";
   "psi_memory_full_perc"; "psi_memory_some_perc";
   quotes "{__name__='sensor_temperature', sensor=~'coretemp_package_id_.*'}";
   quotes "{__name__='sensor_temperature', sensor='k10temp_tctl'}";
   quotes "{__name__='sensor_temperature', sensor='ACPI\\ThermalZone\\TZ00_0'}";
   "vsphere_vm_cpu_latency_perc"; "vms_running_count"; "vms_stopped_count"; "hosts_running_count";
   "hosts_stopped_count"].

Definition ActiveMQMetrics : list string :=
  ["activemq_queues_consumer_count"; "activemq_queues_dequeue_count"; "activemq_queues_enqueue_count";
   "activemq_queues_size"; "activemq_topics_consumer_count"; "activemq_topics_dequeue_count";
   "activemq_topics_enqueue_count"].

Definition ApacheMetrics : list string :=
  ["apache_busy_workers"; "apache_busy_workers_perc"; "apache_bytes"; "apache_connections";
   "apache_idle_workers"; "apache_max_workers"; "apache_requests"; "apache_uptime";
   "apache_scoreboard_waiting"; "apache_scoreboard_starting"; "apache_scoreboard_reading";
   "apache_scoreboard_sending"; "apache_scoreboard_keepalive"; "apache_scoreboard_dnslookup";
   "apache_scoreboard_closing"; "apache_scoreboard_logging"; "apache_scoreboard_finishing";
   "apache_scoreboard_idle_cleanup"; "apache_scoreboard_open"].

Definition BindMetrics : list string :=
  ["bind_counter_nxdomain"; "bind_counter_qry_success"; "bind_counter_qryfailure"; "bind_counter_query";
   "bind_counter_recqryrej"; "bind_counter_refused"; "bind_counter_response"; "bind_counter_servfail";
   "bind_memory_in_use"].

Definition BitBucketMetrics : list string :=
  ["bitbucket_events"; "bitbucket_io_tasks"; "bitbucket_jvm_gc"; "bitbucket_jvm_gc_utilization";
   "bitbucket_jvm_heap_used"; "bitbucket_jvm_non_heap_used"; "bitbucket_pulls"; "bitbucket_pushes";
   "bitbucket_queued_events"; "bitbucket_queued_scm_clients"; "bitbucket_queued_scm_commands";
   "bitbucket_request_time"; "bitbucket_requests"; "bitbucket_ssh_connections"; "bitbucket_tasks"].

Definition CassandraMetrics : list string :=
  ["cassandra_bloom_filter_false_ratio"; "cassandra_bloom_filter_false_ratio_sum"; "cassandra_jvm_gc";
   "cassandra_jvm_gc_utilization"; "cassandra_jvm_heap_used"; "cassandra_jvm_non_heap_used";
   "cassandra_read_requests"; "cassandra_read_requests_sum"; "cassandra_read_time";
   "cassandra_read_time_average"; "cassandra_sstable"; "cassandra_sstable_sum"; "cassandra_write_requests";
   "cassandra_write_requests_sum"; "cassandra_write_time"; "cassandra_write_time_average"].

Definition ClickHouseMetrics : list string :=
  ["clickhouse_asynchronous_metrics_replicas_max_queue_size"; "clickhouse_events_failed_query";
   "clickhouse_events_mutation_time_seconds"; "clickhouse_events_network_receive_bytes";
   "clickhouse_events_network_send_bytes"; "clickhouse_events_query_time_seconds";
   "clickhouse_events_query"; "clickhouse_events_select_query"; "clickhouse_events_slow_read";
   "clickhouse_metrics_active_query"; "clickhouse_metrics_broken_disks";
   "clickhouse_metrics_broken_distributed_bytes_to_insert";
   "clickhouse_metrics_broken_distributed_files_to_insert"; "clickhouse_metrics_delayed_inserts";
   "clickhouse_metrics_memory_tracking"; "clickhouse_mutations_failed"; "clickhouse_mutations_running";
   "clickhouse_processes_longest_running"].

Definition ConfluenceMetrics : list string :=
  ["confluence_db_query_time"; "confluence_jvm_gc"; "confluence_jvm_gc_utilization";
   "confluence_jvm_heap_used"; "confluence_jvm_non_heap_used"; "confluence_last_index_time";
   "confluence_queued_error_mails"; "confluence_queued_index_tasks"; "confluence_queued_mails";
   "confluence_request_time"; "confluence_requests"].

Definition ConsulMetrics : list string :=
  ["consul_autopilot_failure_tolerance"; "consul_autopilot_healthy"; "consul_client_rpc_rate";
   "consul_kvs_apply_mean_seconds"; "consul_members_clients"; "consul_members_servers";
   "consul_raft_committime_mean_seconds"; "consul_raft_leader_lastcontact_mean_seconds";
   "consul_rpc_request_rate"; "consul_server_isleader"; "consul_state_kv_entries"; "consul_state_nodes";
   "consul_state_service_instances"; "consul_state_services"].

Definition DovecotMetrics : list string :=
  ["dovecot_auth_failures"; "dovecot_auth_successes"; "dovecot_num_cmds"; "dovecot_num_connected_sessions";
   "dovecot_num_logins"].

Definition ElasticSearchMetrics : list string :=
  ["elasticsearch_docs_count"; "elasticsearch_jvm_gc"; "elasticsearch_jvm_gc_utilization";
   "elasticsearch_jvm_heap_used"; "elasticsearch_jvm_non_heap_used"; "elasticsearch_size";
   "elasticsearch_search"; "elasticsearch_search_time"; "elasticsearch_cluster_docs_count";
   "elasticsearch_cluster_size"].

Definition EximMetrics : list string :=
  ["exim_queue_size"].

Definition Fail2banMetrics : list string :=
  ["fail2ban_failed"; "fail2ban_banned"].

Definition HAProxyMetrics : list string :=
  ["haproxy_act"; "haproxy_bin"; "haproxy_bout"; "haproxy_ctime"; "haproxy_dreq"; "haproxy_dresp";
   "haproxy_econ"; "haproxy_ereq"; "haproxy_eresp"; "haproxy_qcur"; "haproxy_qtime"; "haproxy_req_tot";
   "haproxy_rtime"; "haproxy_scur"; "haproxy_stot"; "haproxy_ttime"].

Definition InfluxDBMetrics : list string :=
  ["influxdb_auth_failures"; "influxdb_client_errors"; "influxdb_mem_pool_bytes"; "influxdb_memory_bytes";
   "influxdb_object_store_transfer_bytes"; "influxdb_parquet_cache_access"; "influxdb_parquet_cache_files";
   "influxdb_parquet_cache_size_bytes"; "influxdb_points_write_dropped"; "influxdb_points_write_failed";
   "influxdb_points_written"; "influxdb_queries"; "influxdb_queries_active"; "influxdb_queries_failed";
   "influxdb_query_duration_seconds"; "influxdb_query_ooms"; "influxdb_request_duration_seconds";
   "influxdb_requests"; "influxdb_series"; "influxdb_server_errors"; "influxdb_thread_panics";
   "influxdb_uptime"; "influxdb_write_timeouts"].

Definition JenkinsMetrics : list string :=
  ["jenkins_busy_executors"; "jenkins_total_executors"; "jenkins_job_duration_seconds";
   "jenkins_job_number"; "jenkins_job_result_code"].

Definition JIRAMetrics : list string :=
  ["jira_jvm_gc"; "jira_jvm_gc_utilization"; "jira_jvm_heap_used"; "jira_jvm_non_heap_used";
   "jira_request_time"; "jira_requests"].

Definition KafkaMetrics : list string :=
  ["kafka_jvm_gc"; "kafka_jvm_gc_utilization"; "kafka_jvm_heap_used"; "kafka_jvm_non_heap_used"].

Definition MemcachedMetrics : list string :=
  ["memcached_command_get"; "memcached_command_set"; "memcached_connections_current";
   "memcached_items_current"; "memcached_octets_rx"; "memcached_octets_tx"; "memcached_ops_cas_hits";
   "memcached_ops_cas_misses"; "memcached_ops_decr_hits"; "memcached_ops_decr_misses";
   "memcached_ops_delete_hits"; "memcached_ops_delete_misses"; "memcached_ops_evictions";
   "memcached_ops_get_hits"; "memcached_ops_get_misses"; "memcached_ops_incr_hits";
   "memcached_ops_incr_misses"; "memcached_ops_touch_hits"; "memcached_ops_touch_misses";
   "memcached_percent_hitratio"; "memcached_ps_count_threads"; "memcached_uptime"].

Definition MongoDBMetrics : list string :=
  ["mongodb_open_connections"; "mongodb_net_in_bytes"; "mongodb_net_out_bytes"; "mongodb_queued_reads";
   "mongodb_queued_writes"; "mongodb_active_reads"; "mongodb_active_writes"; "mongodb_queries"].

Definition MySQLMetrics : list string :=
  ["mysql_cache_result_qcache_hits"; "mysql_cache_result_qcache_inserts";
   "mysql_cache_result_qcache_not_cached"; "mysql_cache_result_qcache_prunes";
   "mysql_cache_blocksize_qcache"; "mysql_cache_free_blocks"; "mysql_cache_free_memory";
   "mysql_cache_size_qcache"; "mysql_locks_immediate"; "mysql_locks_waited";
   "mysql_innodb_history_list_len"; "mysql_innodb_locked_transaction"; "mysql_octets_rx"; "mysql_octets_tx";
   "mysql_queries"; "mysql_slow_queries"; "mysql_threads_cached"; "mysql_threads_connected";
   "mysql_threads_running"; "mysql_total_threads_created"; "mysql_commands_begin"; "mysql_commands_binlog";
   "mysql_commands_call_procedure"; "mysql_commands_change_master"; "mysql_commands_change_repl_filter";
   "mysql_commands_check"; "mysql_commands_checksum"; "mysql_commands_commit"; "mysql_commands_dealloc_sql";
   "mysql_commands_stmt_close"; "mysql_commands_delete_multi"; "mysql_commands_delete"; "mysql_commands_do";
   "mysql_commands_execute_sql"; "mysql_commands_stmt_execute"; "mysql_commands_explain_other";
   "mysql_commands_flush"; "mysql_commands_ha_close"; "mysql_commands_ha_open"; "mysql_commands_ha_read";
   "mysql_commands_insert_select"; "mysql_commands_insert"; "mysql_commands_kill";
   "mysql_commands_preload_keys"; "mysql_commands_load"; "mysql_commands_lock_tables";
   "mysql_commands_optimize"; "mysql_commands_prepare_sql"; "mysql_commands_stmt_prepare";
   "mysql_commands_purge_before_date"; "mysql_commands_purge"; "mysql_commands_release_savepoint";
   "mysql_commands_repair"; "mysql_commands_replace_select"; "mysql_commands_replace";
   "mysql_commands_reset"; "mysql_commands_resignal"; "mysql_commands_rollback_to_savepoint";
   "mysql_commands_rollback"; "mysql_commands_savepoint"; "mysql_commands_select"; "mysql_commands_signal";
   "mysql_commands_slave_start"; "mysql_commands_group_replication_start"; "mysql_commands_stmt_fetch";
   "mysql_commands_stmt_reprepare"; "mysql_commands_stmt_reset"; "mysql_commands_stmt_send_long_data";
   "mysql_commands_slave_stop"; "mysql_commands_group_replication_stop"; "mysql_commands_truncate";
   "mysql_commands_unlock_tables"; "mysql_commands_update_multi"; "mysql_commands_update";
   "mysql_commands_xa_commit"; "mysql_commands_xa_end"; "mysql_commands_xa_prepare";
   "mysql_commands_xa_recover"; "mysql_commands_xa_rollback"; "mysql_commands_xa_start";
   "mysql_commands_assign_to_keycache"; "mysql_handler_commit"; "mysql_handler_delete";
   "mysql_handler_write"; "mysql_handler_update"; "mysql_handler_rollback"].

Definition NatsMetrics : list string :=
  ["nats_uptime_seconds"; "nats_routes"; "nats_slow_consumers"; "nats_subscriptions"; "nats_in_bytes";
   "nats_out_bytes"; "nats_in_msgs"; "nats_out_msgs"; "nats_connections"; "nats_total_connections"].

Definition NfsMetrics : list string :=
  ["nfs_ops"; "nfs_transmitted_bits"; "nfs_rtt_per_op_seconds"; "nfs_retrans"].

Definition NginxMetrics : list string :=
  ["nginx_requests"; "nginx_connections_accepted"; "nginx_connections_handled"; "nginx_connections_active";
   "nginx_connections_waiting"; "nginx_connections_reading"; "nginx_connections_writing"].

Definition NSQMetrics : list string :=
  ["nsq_channel_clients"; "nsq_channel_depth"; "nsq_channel_inflights"; "nsq_channel_messages";
   "nsq_channel_requeues"; "nsq_channel_timeouts"; "nsq_server_servers"; "nsq_server_topics";
   "nsq_topic_depth"; "nsq_topic_messages"].

Definition ChronyMetrics : list string :=
  ["chrony_last_offset"; "chrony_rms_offset"; "chrony_root_delay"; "chrony_activity_online";
   "chrony_activity_offline"].

Definition NTPMetrics : list string :=
  ["ntpq_system_offset_seconds"].

Definition OpenBaoMetrics : list string :=
  ["bao_core_active"; "bao_core_check_tokens"; "bao_core_handle_login_requests"; "bao_core_handle_requests";
   "bao_core_in_flight_requests"; "bao_core_leadership_losses"; "bao_core_unsealed"; "bao_expire_num_leases"].

Definition OpenLDAPMetrics : list string :=
  ["openldap_connections_current"; "openldap_waiters_read"; "openldap_waiters_write";
   "openldap_threads_active"; "openldap_statistics_bytes"; "openldap_statistics_entries";
   "openldap_operations_add_completed"; "openldap_operations_bind_completed";
   "openldap_operations_delete_completed"; "openldap_operations_modify_completed";
   "openldap_operations_search_completed"].

Definition PHPFPMMetrics : list string :=
  ["phpfpm_accepted_conn"; "phpfpm_active_processes"; "phpfpm_idle_processes"; "phpfpm_listen_queue";
   "phpfpm_listen_queue_len"; "phpfpm_max_active_processes"; "phpfpm_max_children_reached";
   "phpfpm_max_listen_queue"; "phpfpm_slow_requests"; "phpfpm_start_since"; "phpfpm_total_processes"].

Definition PostfixMetrics : list string :=
  ["postfix_queue_size"].

Definition PostgreSQLMetrics : list string :=
  ["postgresql_blk_read_utilization"; "postgresql_blk_read_utilization_sum";
   "postgresql_blk_write_utilization"; "postgresql_blk_write_utilization_sum"; "postgresql_blks_hit";
   "postgresql_blks_hit_sum"; "postgresql_blks_read"; "postgresql_blks_read_sum"; "postgresql_commit";
   "postgresql_commit_sum"; "postgresql_rollback"; "postgresql_rollback_sum"; "postgresql_temp_bytes";
   "postgresql_temp_bytes_sum"; "postgresql_temp_files"; "postgresql_temp_files_sum";
   "postgresql_tup_deleted"; "postgresql_tup_deleted_sum"; "postgresql_tup_fetched";
   "postgresql_tup_fetched_sum"; "postgresql_tup_inserted"; "postgresql_tup_inserted_sum";
   "postgresql_tup_returned"; "postgresql_tup_returned_sum"; "postgresql_tup_updated";
   "postgresql_tup_updated_sum"].

Definition PgBouncerMetrics : list string :=
  ["pgbouncer_pools_cl_active"; "pgbouncer_pools_cl_waiting"; "pgbouncer_pools_maxwait";
   "pgbouncer_pools_sv_active"; "pgbouncer_pools_sv_idle"; "pgbouncer_query_time_seconds";
   "pgbouncer_query"; "pgbouncer_received_bytes"; "pgbouncer_sent_bytes"].

Definition RabbitMQMetrics : list string :=
  ["rabbitmq_connections"; "rabbitmq_consumers"; "rabbitmq_messages_acked"; "rabbitmq_messages_count";
   "rabbitmq_messages_delivered"; "rabbitmq_messages_published"; "rabbitmq_messages_unacked_count";
   "rabbitmq_queues"].

Definition RedisMetrics : list string :=
  ["redis_current_connections_clients"; "redis_current_connections_slaves"; "redis_evicted_keys";
   "redis_expired_keys"; "redis_keyspace_hits"; "redis_keyspace_misses"; "redis_keyspace_hitrate";
   "redis_memory"; "redis_memory_lua"; "redis_memory_peak"; "redis_memory_rss"; "redis_pubsub_channels";
   "redis_pubsub_patterns"; "redis_total_connections"; "redis_total_operations"; "redis_uptime";
   "redis_volatile_changes"].

Definition TomcatMetrics : list string :=
  ["tomcat_connector_bytes_received"; "tomcat_connector_bytes_sent";
   "tomcat_connector_current_threads_busy"; "tomcat_connector_error_count"; "tomcat_connector_max_threads";
   "tomcat_connector_processing_time_seconds"; "tomcat_connector_request_count"; "tomcat_jvm_memory_free";
   "tomcat_jvm_memory_max"; "tomcat_jvm_memorypool_used"].

Definition UPSDMetrics : list string :=
  ["upsd_battery_status"; "upsd_status_flags"; "upsd_battery_voltage"; "upsd_input_voltage";
   "upsd_output_voltage"; "upsd_load_percent"; "upsd_battery_charge_percent"; "upsd_internal_temp";
   "upsd_input_frequency"; "upsd_time_left_seconds"; "upsd_time_on_battery_seconds"].

Definition UWSGIMetrics : list string :=
  ["uwsgi_requests"; "uwsgi_transmitted"; "uwsgi_avg_request_time"; "uwsgi_memory_used"; "uwsgi_exceptions";
   "uwsgi_harakiri_count"].

Definition ValkeyMetrics : list string :=
  ["redis_current_connections_clients"; "redis_current_connections_slaves"; "redis_evicted_keys";
   "redis_expired_keys"; "redis_keyspace_hits"; "redis_keyspace_misses"; "redis_keyspace_hitrate";
   "redis_memory"; "redis_memory_lua"; "redis_memory_peak"; "redis_memory_rss"; "redis_pubsub_channels";
   "redis_pubsub_patterns"; "redis_total_connections"; "redis_total_operations"; "redis_uptime";
   "redis_volatile_changes"].

Definition VarnishMetrics : list string :=
  ["varnish_backend_fail"; "varnish_cache_evictions"; "varnish_cache_hit"; "varnish_cache_hit_perc";
   "varnish_cache_miss"; "varnish_sessions_dropped"; "varnish_sessions_queued"; "varnish_threads";
   "varnish_threads_limited"; "varnish_uptime"].

Definition VaultMetrics : list string :=
  ["vault_core_active"; "vault_core_check_tokens"; "vault_core_handle_login_requests";
   "vault_core_handle_requests"; "vault_core_in_flight_requests"; "vault_core_leadership_losses";
   "vault_core_unsealed"; "vault_expire_num_leases"].

Definition ZookeeperMetrics : list string :=
  ["zookeeper_connections"; "zookeeper_packets_received"; "zookeeper_packets_sent";
   "zookeeper_ephemerals_count"; "zookeeper_watch_count"; "zookeeper_znode_count"; "zookeeper_jvm_gc";
   "zookeeper_jvm_gc_utilization"; "zookeeper_jvm_heap_used"; "zookeeper_jvm_non_heap_used"].

(** The tables by type of service; MariaDB has those of MySQL. *)
Definition serviceTables : list (string * list string) :=
  [("activemq", ActiveMQMetrics); ("apache", ApacheMetrics); ("bind", BindMetrics);
   ("bitbucket", BitBucketMetrics); ("cassandra", CassandraMetrics); ("clickhouse", ClickHouseMetrics);
   ("confluence", ConfluenceMetrics); ("consul", ConsulMetrics); ("dovecot", DovecotMetrics);
   ("elasticsearch", ElasticSearchMetrics); ("exim", EximMetrics); ("fail2ban", Fail2banMetrics);
   ("haproxy", HAProxyMetrics); ("influxdb", InfluxDBMetrics); ("jenkins", JenkinsMetrics);
   ("jira", JIRAMetrics); ("kafka", KafkaMetrics); ("memcached", MemcachedMetrics);
   ("mongodb", MongoDBMetrics); ("mysql", MySQLMetrics); ("nats", NatsMetrics); ("nfs", NfsMetrics);
   ("nginx", NginxMetrics); ("nsq", NSQMetrics); ("chrony", ChronyMetrics); ("ntp", NTPMetrics);
   ("openbao", OpenBaoMetrics); ("openldap", OpenLDAPMetrics); ("phpfpm", PHPFPMMetrics);
   ("postfix", PostfixMetrics); ("postgresql", PostgreSQLMetrics); ("pgbouncer", PgBouncerMetrics);
   ("rabbitmq", RabbitMQMetrics); ("redis", RedisMetrics); ("tomcat", TomcatMetrics); ("upsd", UPSDMetrics);
   ("uwsgi", UWSGIMetrics); ("valkey", ValkeyMetrics); ("varnish", VarnishMetrics); ("vault", VaultMetrics);
   ("zookeeper", ZookeeperMetrics);
   ("mariadb", MySQLMetrics)].

Definition getServicesMetrics (serviceType : string) : list string :=
  match list_find (λ entry, entry.1 = serviceType) serviceTables with
  | Some (_, (_, metrics)) => metrics
  | None => []
  end.
