(* ===== verification/Float64.v ===== *)
(** IEEE 754 binary64 numbers as Go's [float64] has them.

    A value is its 64-bit pattern, so that NaN payloads are kept: the store
    recognises the stale marker by its bits ([math.Float64bits]).  The
    comparisons are read off the pattern; arithmetic goes through the
    [SpecFloat] reference operations (round to nearest even) and the decimal
    rendering is exact, as strconv's is for the verb [f]. *)
From S2P Require Import Prelude.
From Stdlib Require Import SpecFloat.
From stdpp Require Import pretty.

Local Open Scope string_scope.
Local Open Scope Z_scope.

Record float64 := F64 { bits : Z }.

#[global] Instance float64_eq_dec : EqDecision float64.
Proof. solve_decision. Defined.

Module Float.
(** ** Fields of the pattern *)
Definition signbit (f : float64) : bool := Z.testbit (bits f) 63.
Definition expo (f : float64) : Z := (bits f / 2 ^ 52) mod 2 ^ 11.
Definition mant (f : float64) : Z := bits f mod 2 ^ 52.
Definition magnitude (f : float64) : Z := bits f mod 2 ^ 63.

Definition IsNaN (f : float64) : bool := (expo f =? 2047) && negb (mant f =? 0).
Definition IsInf (f : float64) : bool := (expo f =? 2047) && (mant f =? 0).

(** Patterns of non-NaN numbers are ordered as sign and magnitude; both
    zeros have key 0. *)
Definition key (f : float64) : Z :=
  if signbit f then - magnitude f else magnitude f.

(** The operators [<], [>], [>=] and [==] of the language: false as soon as
    an operand is NaN. *)
Definition ltb (a b : float64) : bool := negb (IsNaN a) && negb (IsNaN b) && (key a <? key b).
Definition gtb (a b : float64) : bool := ltb b a.
Definition geb (a b : float64) : bool := negb (IsNaN a) && negb (IsNaN b) && (key b <=? key a).
Definition eqb (a b : float64) : bool := negb (IsNaN a) && negb (IsNaN b) && (key a =? key b).

(** ** Constants *)
Definition zero : float64 := F64 0.
(** [math.NaN()] *)
Definition NaN : float64 := F64 0x7FF8000000000001.

(** ** Arithmetic through SpecFloat *)
Definition to_spec (f : float64) : spec_float :=
  if expo f =? 2047 then
    if mant f =? 0 then S754_infinity (signbit f) else S754_nan
  else if expo f =? 0 then
    match mant f with
    | Zpos m => S754_finite (signbit f) m (-1074)
    | _ => S754_zero (signbit f)
    end
  else match mant f + 2 ^ 52 with
       | Zpos m => S754_finite (signbit f) m (expo f - 1075)
       | _ => S754_zero (signbit f)
       end.

Definition of_spec (s : spec_float) : float64 :=
  let sign (b : bool) := if b then 2 ^ 63 else 0 in
  match s with
  | S754_zero b => F64 (sign b)
  | S754_infinity b => F64 (sign b + 2047 * 2 ^ 52)
  | S754_nan => NaN
  | S754_finite b m e =>
      if Zpos m <? 2 ^ 52 then F64 (sign b + Zpos m)
      else F64 (sign b + (e + 1075) * 2 ^ 52 + (Zpos m - 2 ^ 52))
  end.

Definition lift2 (op : Z → Z → spec_float → spec_float → spec_float)
    (a b : float64) : float64 := of_spec (op 53 1024 (to_spec a) (to_spec b)).

Definition add : float64 → float64 → float64 := lift2 SFadd.
Definition sub : float64 → float64 → float64 := lift2 SFsub.
Definition mul : float64 → float64 → float64 := lift2 SFmul.
Definition div : float64 → float64 → float64 := lift2 SFdiv.

(** [math.Abs] clears the sign bit, [-x] flips it. *)
Definition abs (f : float64) : float64 := F64 (magnitude f).
Definition neg (f : float64) : float64 :=
  F64 (if signbit f then magnitude f else magnitude f + 2 ^ 63).

(** The conversion [float64(n)] of an integer. *)
Definition of_Z (z : Z) : float64 := of_spec (binary_normalize 53 1024 z 0 false).

(** The integer [m * 2^e] rounded by [rnd quotient remainder divisor]. *)
Definition scale_round (rnd : Z → Z → Z → Z) (m e : Z) : Z :=
  if 0 <=? e then m * 2 ^ e
  else rnd (m / 2 ^ (- e)) (m mod 2 ^ (- e)) (2 ^ (- e)).

Definition half_even (q r d : Z) : Z :=
  if (d <? 2 * r) || ((d =? 2 * r) && Z.odd q) then q + 1 else q.
Definition half_away (q r d : Z) : Z := if d <=? 2 * r then q + 1 else q.
Definition toward_zero (q _ _ : Z) : Z := q.

(** [math.Round]: to the nearest integer, halves away from zero. *)
Definition Round (f : float64) : float64 :=
  match to_spec f with
  | S754_finite s m e =>
      if 0 <=? e then f
      else
        let r := of_Z (scale_round half_away (Zpos m) e) in
        if s then neg r else r
  | _ => f
  end.

(** The conversion [int64(f)]: truncation toward zero.  Out of range the
    language leaves the value to the implementation; amd64's is kept. *)
Definition to_int64 (f : float64) : Z :=
  match to_spec f with
  | S754_finite s m e =>
      let a := scale_round toward_zero (Zpos m) e in
      let z := if s then - a else a in
      if (Int.minInt64 <=? z) && (z <=? Int.maxInt64) then z else Int.minInt64
  | S754_zero _ => 0
  | _ => Int.minInt64
  end.

(** ** Decimal rendering *)
Fixpoint zeros (n : nat) : string :=
  match n with O => "" | S n => String "0"%char (zeros n) end.

(** [q / 10^prec] written with [prec] decimals. *)
Definition decimal (q : Z) (prec : nat) : string :=
  let p := 10 ^ Z.of_nat prec in
  let frac := pretty (q mod p) in
  pretty (q / p)
  +:+ (if bool_decide (prec = 0%nat) then ""
       else "." +:+ zeros (prec - String.length frac) +:+ frac).

(** [fmt.Sprintf] with the verb [%.<prec>f]: the exact value rounded half to
    even. *)
Definition fixed (prec : nat) (f : float64) : string :=
  let sign := if signbit f then "-" else "" in
  match to_spec f with
  | S754_nan => "NaN"
  | S754_infinity s => if s then "-Inf" else "+Inf"
  | S754_zero _ => sign +:+ decimal 0 prec
  | S754_finite _ m e =>
      sign +:+ decimal (scale_round half_even (Zpos m * 10 ^ Z.of_nat prec) e) prec
  end.
End Float.

(** ** Facts on the order *)
Section FloatOrder.
Implicit Types a b c : float64.

Lemma ltb_irrefl a : Float.ltb a a = false.
Proof. unfold Float.ltb. destruct (Float.IsNaN a); simpl; [done|]. lia. Qed.

Lemma ltb_trans a b c :
  Float.ltb a b = true → Float.ltb b c = true → Float.ltb a c = true.
Proof.
  unfold Float.ltb. intros H1 H2. bool_prop.
  repeat (apply andb_true_iff; split); try (apply negb_true_iff; done).
  apply Z.ltb_lt. lia.
Qed.

Lemma ltb_nan_r a b : Float.IsNaN b = true → Float.ltb a b = false.
Proof. unfold Float.ltb. intros ->. by rewrite andb_false_r. Qed.

Lemma ltb_nan_l a b : Float.IsNaN a = true → Float.ltb a b = false.
Proof. unfold Float.ltb. by intros ->. Qed.

Lemma ltb_iff a b :
  Float.ltb a b = true ↔
  Float.IsNaN a = false ∧ Float.IsNaN b = false ∧ Float.key a < Float.key b.
Proof.
  unfold Float.ltb. rewrite !andb_true_iff, !negb_true_iff, Z.ltb_lt. tauto.
Qed.

Lemma eqb_iff a b :
  Float.eqb a b = true ↔
  Float.IsNaN a = false ∧ Float.IsNaN b = false ∧ Float.key a = Float.key b.
Proof.
  unfold Float.eqb. rewrite !andb_true_iff, !negb_true_iff, Z.eqb_eq. tauto.
Qed.
End FloatOrder.

#[export] Hint Resolve ltb_irrefl ltb_nan_r ltb_nan_l : glouton.

(** The rendering on a few values. *)
Example fixed_samples :
  Float.fixed 2 (Float.of_Z 95) = "95.00"
  ∧ Float.fixed 2 (Float.div (Float.of_Z 1) (Float.of_Z 3)) = "0.33"
  ∧ Float.fixed 2 (Float.neg (Float.div (Float.of_Z 1) (Float.of_Z 1000))) = "-0.00"
  ∧ Float.fixed 0 (Float.div (Float.of_Z 5) (Float.of_Z 2)) = "2"
  ∧ Float.fixed 1 (Float.div (Float.of_Z 3) (Float.of_Z 10)) = "0.3"
  ∧ Float.fixed 2 Float.NaN = "NaN".
Proof. by vm_compute. Qed.

Example round_samples :
  Float.Round (Float.div (Float.of_Z 5) (Float.of_Z 2)) = Float.of_Z 3
  ∧ Float.Round (Float.neg (Float.div (Float.of_Z 5) (Float.of_Z 2))) = Float.neg (Float.of_Z 3)
  ∧ Float.add (Float.div (Float.of_Z 1) (Float.of_Z 10)) (Float.div (Float.of_Z 2) (Float.of_Z 10))
    = F64 0x3FD3333333333334
  ∧ Float.to_int64 (Float.neg (Float.div (Float.of_Z 5) (Float.of_Z 2))) = -2.
Proof. by vm_compute. Qed.
