(* ===== verification/FloatOrder.v ===== *)
(** Order and arithmetic on the binary64 numbers of [Float64]: sums and products of numbers that are not negative are the
    exact ones rounded to nearest, so that they grow with their arguments.

    The value of a finite number that is not negative is an integer in units of 2^-1074 ([units]); [rounded] is the pattern
    of the number nearest to a value, which the operations of [SpecFloat] are shown to give. *)
From S2P Require Import Prelude Float64.
From Stdlib Require Import SpecFloat.

#[local] Open Scope Z_scope.

(** * Rounding *)
(** [N / 2^n] to the nearest integer, halves to even. *)
Definition rne (N n : Z) : Z := Float.half_even (N / 2 ^ n) (N mod 2 ^ n) (2 ^ n).

Lemma rne_mono (N M n : Z) : 0 ≤ n → N ≤ M → rne N n ≤ rne M n.
Proof.
  intros Hn H. unfold rne, Float.half_even. assert (0 < 2 ^ n) as Hp by lia.
  pose proof (Z.div_le_mono N M (2 ^ n) Hp H). pose proof (Z.div_mod N (2 ^ n)). pose proof (Z.div_mod M (2 ^ n)).
  set (d := 2 ^ n) in *. set (q := N / d) in *. set (q' := M / d) in *. set (r := N mod d) in *. set (r' := M mod d) in *. clearbody d q q' r r'.
  destruct (decide (q = q')) as [<-|]; [|destruct (_ || _), (_ || _); lia].
  assert (r ≤ r') by nia. destruct (Z.odd q); destruct (Z.ltb_spec d (2 * r)), (Z.eqb_spec d (2 * r)), (Z.ltb_spec d (2 * r')), (Z.eqb_spec d (2 * r')); cbn; lia.
Qed.

Lemma rne_exact (q n : Z) : 0 ≤ n → rne (q * 2 ^ n) n = q.
Proof.
  intros Hn. unfold rne, Float.half_even. assert (0 < 2 ^ n) as Hp by lia. rewrite Z.div_mul, Z_mod_mult by lia.
  destruct (Z.ltb_spec (2 ^ n) (2 * 0)), (Z.eqb_spec (2 ^ n) (2 * 0)); cbn; lia.
Qed.

Lemma rne_scale (N n k : Z) : 0 ≤ n → 0 ≤ k → rne (N * 2 ^ k) (n + k) = rne N n.
Proof.
  intros Hn Hk. unfold rne, Float.half_even. rewrite Z.pow_add_r by lia. assert (0 < 2 ^ n ∧ 0 < 2 ^ k) as [Hp Hq] by lia.
  rewrite Z.div_mul_cancel_r, Z.mul_mod_distr_r by lia. set (d := 2 ^ n) in *. set (k' := 2 ^ k) in *. set (r := N mod d). clearbody d k' r.
  replace (d * k' <? 2 * (r * k')) with (d <? 2 * r); [replace (d * k' =? 2 * (r * k')) with (d =? 2 * r); [done|]|];
    destruct (Z.ltb_spec d (2 * r)), (Z.eqb_spec d (2 * r)); symmetry; rewrite ?Z.ltb_lt, ?Z.ltb_ge, ?Z.eqb_eq, ?Z.eqb_neq; nia.
Qed.

Lemma rne_bounds (N n a b : Z) : 0 ≤ n → a * 2 ^ n ≤ N ≤ b * 2 ^ n → a ≤ rne N n ≤ b.
Proof.
  intros Hn [Ha Hb]. rewrite <- (rne_exact a n), <- (rne_exact b n) at 1 by done. split; by apply rne_mono.
Qed.

(** * The operations of SpecFloat *)
(** The digits shifted out: the last of them, and whether an earlier one is not zero. *)
Definition shifted (m n : Z) (r : shr_record) : Prop :=
  shr_m r = m / 2 ^ n ∧ shr_r r = (2 ^ n <=? 2 * (m mod 2 ^ n)) && (0 <? n) ∧
  shr_s r = negb (if 2 ^ n <=? 2 * (m mod 2 ^ n) then 2 * (m mod 2 ^ n) =? 2 ^ n else m mod 2 ^ n =? 0) && (0 <? n).

Lemma shr_1_shifted (m n : Z) (r : shr_record) : 0 ≤ m → 0 ≤ n → shifted m n r → shifted m (n + 1) (shr_1 r).
Proof.
  intros Hm Hn (H1 & H2 & H3). assert (shr_1 r = Build_shr_record (shr_m r / 2) (Z.odd (shr_m r)) (shr_r r || shr_s r)) as ->.
  { assert (0 ≤ shr_m r) by (rewrite H1; apply Z.div_pos; lia). destruct r as [[|[p|p|]|p] rr rs]; cbn -[Z.div] in *; try done; try lia.
    - f_equal. apply Z.div_unique with 1; lia.
    - f_equal. apply Z.div_unique with 0; lia. }
  unfold shifted. cbn [shr_m shr_r shr_s]. rewrite H1, H2, H3. rewrite Z.pow_add_r, Z.pow_1_r by lia. assert (0 < 2 ^ n) as Hp by lia.
  rewrite <- Z.div_div by lia. split; [done|]. rewrite (Z.rem_mul_r m (2 ^ n) 2), Zmod_odd by lia. assert (0 <? n + 1 = true) as -> by (apply Z.ltb_lt; lia).
  pose proof (Z.mod_pos_bound m (2 ^ n) Hp) as Hb. assert (0 <? n = false → m mod 2 ^ n = 0) as Hz.
  { intros H. apply Z.ltb_ge in H. replace n with 0 by lia. apply Z.mod_1_r. }
  set (d := 2 ^ n) in *. set (x := m mod d) in *. clearbody d x. rewrite !andb_true_r.
  destruct (Z.odd (m / d)), (0 <? n); rewrite ?andb_true_r, ?andb_false_r; cbn [orb]; try specialize (Hz eq_refl);
    split; repeat match goal with |- context [?a <=? ?b] => destruct (Z.leb_spec a b) | |- context [?a =? ?b] => destruct (Z.eqb_spec a b) end; cbn; lia.
Qed.

Lemma iter_shifted (p : positive) (m n : Z) (r : shr_record) : 0 ≤ m → 0 ≤ n → shifted m n r → shifted m (n + Zpos p) (SpecFloat.iter_pos shr_1 p r).
Proof.
  intros Hm. revert n r. induction p as [p IH|p IH|]; intros n r Hn H; cbn [SpecFloat.iter_pos].
  - replace (n + Zpos p~1) with (n + 1 + Zpos p + Zpos p) by lia. apply IH; [lia|]. apply IH; [lia|]. by apply shr_1_shifted.
  - replace (n + Zpos p~0) with (n + Zpos p + Zpos p) by lia. apply IH; [lia|]. by apply IH.
  - by apply shr_1_shifted.
Qed.

Lemma shr_spec (m e n : Z) : 0 ≤ m → 0 ≤ n →
  ∃ r, shr (shr_record_of_loc m loc_Exact) e n = (r, e + n) ∧ shr_m r = m / 2 ^ n ∧ round_nearest_even (shr_m r) (loc_of_shr_record r) = rne m n.
Proof.
  intros Hm Hn. assert (∃ r, shr (shr_record_of_loc m loc_Exact) e n = (r, e + n) ∧ shifted m n r) as (r & -> & H).
  { assert (shifted m 0 (Build_shr_record m false false)) as H0.
    { unfold shifted. cbn [shr_m shr_r shr_s]. by rewrite Z.pow_0_r, Z.div_1_r, Z.mod_1_r. }
    destruct n as [|p|p]; [|by eexists; split; [done|]; apply (iter_shifted p m 0)|lia]. eexists. split; [cbn; f_equal; lia|done]. }
  exists r. split; [done|]. destruct H as (H1 & H2 & H3). split; [done|]. unfold rne, Float.half_even. rewrite <- H1. destruct r as [q a b]. cbn [shr_m shr_r shr_s] in *.
  subst a b. assert (0 < 2 ^ n) as Hp by lia. pose proof (Z.mod_pos_bound m (2 ^ n) Hp) as Hb.
  assert (0 <? n = false → 2 ^ n = 1) as Hz. { intros H. apply Z.ltb_ge in H. by replace n with 0 by lia. }
  set (d := 2 ^ n) in *. set (x := m mod d) in *. clearbody d x. rewrite <- Z.negb_even.
  destruct (0 <? n); rewrite ?andb_true_r, ?andb_false_r; try specialize (Hz eq_refl);
    destruct (Z.leb_spec d (2 * x)), (Z.eqb_spec (2 * x) d), (Z.eqb_spec x 0), (Z.ltb_spec d (2 * x)), (Z.eqb_spec d (2 * x)); cbn; try done; try lia; by destruct (Z.even q).
Qed.

Lemma Zdigits2_log2 (m : Z) : 0 < m → Zdigits2 m = Z.log2 m + 1.
Proof.
  destruct m as [|p|p]; try lia. intros _. cbn [Zdigits2]. induction p as [p IH|p IH|]; cbn [digits2_pos]; [| |done].
  - rewrite Pos2Z.inj_succ, IH, Pos2Z.inj_xI, Z.log2_succ_double by lia. lia.
  - rewrite Pos2Z.inj_succ, IH, Pos2Z.inj_xO, Z.log2_double by lia. lia.
Qed.

Definition infinityBits : Z := 2047 * 2 ^ 52.

(** The exponent of the last digit kept of a number whose first digit has the given exponent. *)
Definition lastDigit (first : Z) : Z := Z.max (first - 52) (-1074).

Lemma rne_digits (m n first : Z) : 0 < m → 0 ≤ n → Z.log2 m - first = n - lastDigit first →
  0 ≤ rne m n ≤ 2 ^ 53 ∧ (lastDigit first ≠ -1074 → 2 ^ 52 ≤ rne m n).
Proof.
  intros Hm Hn He. destruct (Z.log2_spec m Hm) as [Hlo Hhi]. unfold lastDigit in *. split.
  - apply rne_bounds; [done|]. split; [lia|]. etrans; [apply Z.lt_le_incl, Hhi|]. rewrite <- Z.pow_add_r by lia. apply Z.pow_le_mono_r; lia.
  - intros Hf. apply (rne_bounds m n (2 ^ 52) (m + 1)); [done|]. split; [|nia]. etrans; [|apply Hlo]. rewrite <- Z.pow_add_r by lia. apply Z.pow_le_mono_r; lia.
Qed.

(** The pattern of the rounded number: the same expression for subnormal numbers, normal ones, and those the rounding
    takes to the next power of two. *)
Lemma round_aux_bits (m e : Z) :
  0 < m → let e' := lastDigit (Z.log2 m + e) in
  e ≤ e' → bits (Float.of_spec (binary_round_aux 53 1024 false m e loc_Exact)) = Z.min infinityBits ((e' + 1074) * 2 ^ 52 + rne m (e' - e)).
Proof.
  intros Hm e' Hal. unfold binary_round_aux, shr_fexp, fexp, emin. rewrite Zdigits2_log2 by done.
  replace (Z.max (Z.log2 m + 1 + e - 53) (3 - 1024 - 53)) with e' by (unfold e', lastDigit; lia).
  destruct (shr_spec m e (e' - e)) as (r & -> & _ & ->); [lia..|]. replace (e + (e' - e)) with e' by lia.
  destruct (rne_digits m (e' - e) (Z.log2 m + e)) as [[Hq0 Hq1] Hq2]; [lia..|]. fold e' in Hq2. set (q := rne m (e' - e)) in *. clearbody q.
  assert (-1074 ≤ e') as Hmin by (unfold e', lastDigit; lia). unfold infinityBits. clearbody e'. clear Hal m e Hm.
  destruct (decide (q = 0)) as [->|Hz].
  { replace (Z.max (Zdigits2 0 + e' - 53) (3 - 1024 - 53) - e') with (- (e' - Z.max (e' - 53) (-1074))) by (cbn [Zdigits2]; lia).
    assert (e' = -1074) as -> by (destruct (decide (e' = -1074)); [done|specialize (Hq2 ltac:(done)); lia]). done. }
  rewrite Zdigits2_log2 by lia. destruct (decide (q = 2 ^ 53)) as [->|Hlt].
  - replace (Z.max (Z.log2 (2 ^ 53) + 1 + e' - 53) (3 - 1024 - 53) - e') with 1 by (change (Z.log2 (2 ^ 53)) with 53; lia).
    change (shr (shr_record_of_loc (2 ^ 53) loc_Exact) e' 1) with (Build_shr_record (Zpos 4503599627370496) false false, e' + 1).
    cbn [shr_m]. destruct (Z.leb_spec (e' + 1) (1024 - 53)); unfold Float.of_spec; [change (Zpos 4503599627370496 <? 2 ^ 52) with false|]; cbn [bits]; lia.
  - assert (Z.log2 q < 53) by (apply Z.log2_lt_pow2; lia).
    assert (∀ n, n ≤ 0 → shr (shr_record_of_loc q loc_Exact) e' n = (Build_shr_record q false false, e')) as -> by (by intros [|p|p]).
    2: lia. cbn [shr_m]. destruct q as [|p|p]; [done| |lia]. destruct (Z.leb_spec e' (1024 - 53)); unfold Float.of_spec; cbn [bits]; [|lia].
    destruct (Z.ltb_spec (Zpos p) (2 ^ 52)); cbn [bits]; lia.
Qed.

(** The pattern of the number nearest to [N / 2^u]. *)
Definition rounded (u N : Z) : Z :=
  let e := lastDigit (Z.log2 N - u) in Z.min infinityBits ((e + 1074) * 2 ^ 52 + rne N (e + u)).

Lemma rounded_mono (u N M : Z) : 1074 ≤ u → 0 ≤ N → N ≤ M → rounded u N ≤ rounded u M.
Proof.
  intros Hu HN HM. unfold rounded. set (e := lastDigit (Z.log2 N - u)). set (f := lastDigit (Z.log2 M - u)).
  assert (e ≤ f) as Hef by (pose proof (Z.log2_le_mono N M HM); unfold e, f, lastDigit; lia). assert (-1074 ≤ e) as Hmin by (unfold e, lastDigit; lia).
  apply Z.min_le_compat_l. destruct (decide (e = f)) as [<-|Hne].
  { apply Zplus_le_compat_l, rne_mono; [lia|done]. }
  assert (0 < M) as HM0. { destruct (decide (M = 0)) as [->|]; [|lia]. destruct Hne. unfold e, f. by replace N with 0 by lia. }
  destruct (rne_digits M (f + u) (Z.log2 M - u)) as [_ Hf]; [done|lia|lia|]. fold f in Hf. specialize (Hf ltac:(lia)).
  assert (rne N (e + u) ≤ 2 ^ 53) as He; [|lia]. destruct (decide (N = 0)) as [->|HN0].
  - rewrite <- (Z.mul_0_l (2 ^ (e + u))), rne_exact; lia.
  - apply (rne_digits N (e + u) (Z.log2 N - u)); [lia..|fold e; lia].
Qed.

(** * Numbers that are not negative *)
Definition nonneg (f : float64) : Prop := 0 ≤ bits f < infinityBits.

#[global] Instance nonneg_dec (f : float64) : Decision (nonneg f).
Proof. unfold nonneg. apply _. Defined.

(** The value, in units of 2^-1074. *)
Definition units (f : float64) : Z := if Float.expo f =? 0 then Float.mant f else (Float.mant f + 2 ^ 52) * 2 ^ (Float.expo f - 1).

Lemma fields (f : float64) : nonneg f →
  bits f = Float.expo f * 2 ^ 52 + Float.mant f ∧ 0 ≤ Float.expo f < 2047 ∧ 0 ≤ Float.mant f < 2 ^ 52 ∧ Float.signbit f = false.
Proof.
  unfold nonneg, infinityBits, Float.expo, Float.mant, Float.signbit. intros H. pose proof (Z.div_mod (bits f) (2 ^ 52)).
  pose proof (Z.mod_pos_bound (bits f) (2 ^ 52)). assert (0 ≤ bits f / 2 ^ 52 < 2047) by (split; [apply Z.div_pos|apply Z.div_lt_upper_bound]; lia).
  rewrite (Z.mod_small (bits f / 2 ^ 52)) by lia. split; [lia|]. split; [lia|]. split; [lia|].
  rewrite Z.testbit_eqb by lia. rewrite Z.div_small by lia. done.
Qed.

Lemma to_spec_units (f : float64) : nonneg f →
  (Float.to_spec f = S754_zero false ∧ units f = 0 ∧ bits f = 0) ∨
  ∃ m e, Float.to_spec f = S754_finite false m e ∧ units f = Zpos m * 2 ^ (e + 1074) ∧ -1074 ≤ e ≤ 971 ∧ Zpos m < 2 ^ 53 ∧
    (2 ^ 52 ≤ Zpos m ∨ e = -1074) ∧ bits f = (e + 1074) * 2 ^ 52 + Zpos m.
Proof.
  intros (Hb & He & Hm & Hs)%fields. unfold Float.to_spec, units. rewrite Hs, Hb. clear Hb. destruct (Z.eqb_spec (Float.expo f) 2047) as [?|_]; [lia|].
  destruct (Z.eqb_spec (Float.expo f) 0) as [->|Hz].
  - destruct (Float.mant f) as [|p|p] eqn:Hp; [by left| |lia]. right. exists p, (-1074). change (-1074 + 1074) with 0. rewrite Z.pow_0_r. split; [done|]. repeat split; lia.
  - destruct (Float.mant f + 2 ^ 52) as [|p|p] eqn:Hp; [lia| |lia]. right. exists p, (Float.expo f - 1075).
    replace (Float.expo f - 1075 + 1074) with (Float.expo f - 1) by lia. split; [done|]. repeat split; lia.
Qed.

Lemma units_mono (f g : float64) : nonneg f → nonneg g → bits f ≤ bits g → units f ≤ units g.
Proof.
  intros (Hf & Hef & Hmf & _)%fields (Hg & Heg & Hmg & _)%fields H. unfold units. rewrite Hf, Hg in H.
  destruct (decide (Float.expo f = Float.expo g)) as [Heq|Hne].
  { rewrite Heq in H |- *. destruct (Z.eqb_spec (Float.expo g) 0); [lia|]. assert (0 < 2 ^ (Float.expo g - 1)) by (apply Z.pow_pos_nonneg; lia). apply Z.mul_le_mono_nonneg_r; lia. }
  assert (Float.expo f < Float.expo g) as Hlt by lia. destruct (Z.eqb_spec (Float.expo g) 0) as [?|_]; [lia|].
  assert (0 < 2 ^ (Float.expo g - 1)) as Hone by (apply Z.pow_pos_nonneg; lia). destruct (Z.eqb_spec (Float.expo f) 0) as [_|Hz].
  { set (P := 2 ^ (Float.expo g - 1)) in *. clearbody P. nia. }
  replace (Float.expo g - 1) with (Float.expo f - 1 + (Float.expo g - Float.expo f)) by lia. rewrite Z.pow_add_r by lia.
  assert (2 ^ 1 ≤ 2 ^ (Float.expo g - Float.expo f)) as H2 by (apply Z.pow_le_mono_r; lia). assert (0 < 2 ^ (Float.expo f - 1)) by (apply Z.pow_pos_nonneg; lia).
  set (P := 2 ^ (Float.expo f - 1)) in *. set (Q := 2 ^ (Float.expo g - Float.expo f)) in *. clearbody P Q. etrans; [apply (Z.mul_le_mono_nonneg_r _ (2 ^ 52 * 2)); lia|]. nia.
Qed.

(** A number is rounded to itself, whatever the unit. *)
Lemma rounded_exact (k : Z) (f : float64) : 0 ≤ k → nonneg f → rounded (1074 + k) (units f * 2 ^ k) = bits f.
Proof.
  intros Hk Hf. pose proof Hf as Hn. unfold nonneg in Hn. destruct (to_spec_units f Hf) as [(_ & -> & ->)|(m & e & _ & -> & He & Hm & Hd & Hb)].
  { unfold rounded. rewrite Z.mul_0_l. replace (lastDigit (Z.log2 0 - (1074 + k))) with (-1074) by (unfold lastDigit; cbn; lia).
    rewrite <- (Z.mul_0_l (2 ^ (-1074 + (1074 + k)))), rne_exact; unfold infinityBits; lia. }
  unfold rounded. rewrite <- Z.mul_assoc, <- Z.pow_add_r, Z.log2_mul_pow2 by lia.
  replace (lastDigit (e + 1074 + k + Z.log2 (Zpos m) - (1074 + k))) with e.
  { replace (e + (1074 + k)) with (e + 1074 + k) by lia. rewrite rne_exact by lia. lia. }
  assert (Z.log2 (Zpos m) < 53) by (apply Z.log2_lt_pow2; lia). unfold lastDigit. destruct Hd as [Hd| ->]; [|lia].
  assert (52 ≤ Z.log2 (Zpos m)) by (apply Z.log2_le_pow2; lia). lia.
Qed.

Lemma of_spec_to_spec (f : float64) : nonneg f → Float.of_spec (Float.to_spec f) = f.
Proof.
  intros Hf. destruct f as [b]. destruct (to_spec_units (F64 b) Hf) as [(-> & _ & Hb)|(m & e & -> & _ & He & Hm & Hd & Hb)]; cbn [bits] in Hb; subst b; [done|].
  unfold Float.of_spec. destruct (Z.ltb_spec (Zpos m) (2 ^ 52)); f_equal; lia.
Qed.

(** Rounding through SpecFloat, in units of 2^-u. *)
Lemma round_aux_rounded (u m e : Z) : 0 < m → 1074 ≤ u → - u ≤ e → e ≤ lastDigit (Z.log2 m + e) →
  bits (Float.of_spec (binary_round_aux 53 1024 false m e loc_Exact)) = rounded u (m * 2 ^ (e + u)).
Proof.
  intros Hm Hu He Hal. rewrite round_aux_bits by done. unfold rounded. rewrite Z.log2_mul_pow2 by lia.
  replace (e + u + Z.log2 m - u) with (Z.log2 m + e) by lia. set (d := lastDigit _) in *.
  replace (d + u) with (d - e + (e + u)) by lia. rewrite rne_scale; [done|lia..].
Qed.

Lemma shl_align_spec (m : positive) (e e' : Z) :
  ∃ m', shl_align m e e' = (m', Z.min e e') ∧ Zpos m' = Zpos m * 2 ^ (e - Z.min e e').
Proof.
  unfold shl_align. destruct (e' - e) as [|d|d] eqn:Hd; [exists m; split; [f_equal; lia|]; replace (e - Z.min e e') with 0 by lia; lia..|].
  eexists. split; [f_equal; lia|]. replace (e - Z.min e e') with (Zpos d) by lia. clear Hd.
  induction d as [|d IH] using Pos.peano_ind; [cbn; lia|]. rewrite Pos.iter_succ, Pos2Z.inj_xO, IH, Pos2Z.inj_succ, Z.pow_succ_r by lia. lia.
Qed.

Lemma round_rounded (u : Z) (m : positive) (e : Z) : 1074 ≤ u → - u ≤ e →
  bits (Float.of_spec (binary_round 53 1024 false m e)) = rounded u (Zpos m * 2 ^ (e + u)).
Proof.
  intros Hu He. unfold binary_round. change (Zpos (digits2_pos m)) with (Zdigits2 (Zpos m)). rewrite Zdigits2_log2 by lia.
  destruct (shl_align_spec m e (fexp 53 1024 (Z.log2 (Zpos m) + 1 + e))) as (m' & -> & Hm').
  set (f := fexp 53 1024 _) in *. assert (f = lastDigit (Z.log2 (Zpos m) + e)) as Hf by (unfold f, fexp, emin, lastDigit; lia). clearbody f.
  assert (-1074 ≤ f) by (unfold lastDigit in Hf; lia).
  rewrite (round_aux_rounded u); [|lia..|].
  - rewrite Hm', <- Z.mul_assoc, <- Z.pow_add_r by lia. do 3 f_equal. lia.
  - rewrite Hm', Z.log2_mul_pow2 by lia. replace (e - Z.min e f + Z.log2 (Zpos m) + Z.min e f) with (Z.log2 (Zpos m) + e) by lia. rewrite <- Hf. lia.
Qed.

Lemma units_nonneg (f : float64) : nonneg f → 0 ≤ units f.
Proof. intros Hf. destruct (to_spec_units f Hf) as [(_ & -> & _)|(m & e & _ & -> & _)]; lia. Qed.

(** * Sums and products *)
Lemma add_rounded (f g : float64) : nonneg f → nonneg g → bits (Float.add f g) = rounded 1074 (units f + units g).
Proof.
  intros Hf Hg. pose proof (rounded_exact 0) as Hex. rewrite Z.pow_0_r in Hex. pose proof (of_spec_to_spec f Hf) as Hif. pose proof (of_spec_to_spec g Hg) as Hig.
  unfold Float.add, Float.lift2.
  destruct (to_spec_units f Hf) as [(Hsf & Huf & _)|(m & e & Hsf & Huf & He & _)], (to_spec_units g Hg) as [(Hsg & Hug & _)|(n & d & Hsg & Hug & Hd & _)]; rewrite Hsf, Hsg in *;
    cbn [SFadd].
  - by rewrite Huf, Hug.
  - rewrite Huf, Hig, Z.add_0_l. rewrite <- (Hex g) by done. f_equal. lia.
  - rewrite Hug, Hif, Z.add_0_r. rewrite <- (Hex f) by done. f_equal. lia.
  - destruct (shl_align_spec m e (Z.min e d)) as (m' & -> & Hm'). destruct (shl_align_spec n d (Z.min e d)) as (n' & -> & Hn').
    cbn [fst cond_Zopp binary_normalize]. change (Zpos m' + Zpos n') with (Zpos (m' + n')). cbn [binary_normalize].
    rewrite (round_rounded 1074), Pos2Z.inj_add, Hm', Hn', Huf, Hug, Z.mul_add_distr_r, <- !Z.mul_assoc, <- !Z.pow_add_r by lia.
    replace (e - Z.min e (Z.min e d) + (Z.min e d + 1074)) with (e + 1074) by lia. by replace (d - Z.min d (Z.min e d) + (Z.min e d + 1074)) with (d + 1074) by lia.
Qed.

Lemma mul_rounded (f g : float64) : nonneg f → nonneg g → bits (Float.mul f g) = rounded 2148 (units f * units g).
Proof.
  intros Hf Hg. unfold Float.mul, Float.lift2.
  destruct (to_spec_units f Hf) as [(Hsf & Huf & _)|(m & e & Hsf & Huf & He & _ & Hme & _)], (to_spec_units g Hg) as [(Hsg & Hug & _)|(n & d & Hsg & Hug & Hd & _ & Hne & _)]; rewrite Hsf, Hsg;
    cbn [SFmul xorb]; [rewrite Huf, ?Hug, ?Z.mul_0_l; done..|rewrite Hug, Z.mul_0_r; done|].
  rewrite (round_aux_rounded 2148), Huf, Hug; [|lia..|].
  - f_equal. rewrite Pos2Z.inj_mul. replace (Zpos m * 2 ^ (e + 1074) * (Zpos n * 2 ^ (d + 1074))) with (Zpos m * Zpos n * (2 ^ (e + 1074) * 2 ^ (d + 1074))) by lia.
    rewrite <- Z.pow_add_r by lia. do 2 f_equal. lia.
  - unfold lastDigit. destruct (decide (e = -1074 ∧ d = -1074)) as [[-> ->]|Hor]; [lia|].
    assert (2 ^ 52 ≤ Zpos (m * n)) as Hlog; [|apply Z.log2_le_pow2 in Hlog; lia]. rewrite Pos2Z.inj_mul.
    assert (1 ≤ Zpos m ∧ 1 ≤ Zpos n) by lia. assert (2 ^ 52 ≤ Zpos m ∨ 2 ^ 52 ≤ Zpos n) as [?|?] by lia; nia.
Qed.

Lemma add_mono (f f' g g' : float64) : nonneg f → nonneg f' → nonneg g → nonneg g' → bits f ≤ bits f' → bits g ≤ bits g' →
  bits (Float.add f g) ≤ bits (Float.add f' g').
Proof.
  intros ? ? ? ? H1 H2. rewrite !add_rounded by done. pose proof (units_nonneg f). pose proof (units_nonneg g).
  apply rounded_mono; [lia|naive_solver lia|]. apply Z.add_le_mono; by apply units_mono.
Qed.

Lemma mul_mono (f f' g g' : float64) : nonneg f → nonneg f' → nonneg g → nonneg g' → bits f ≤ bits f' → bits g ≤ bits g' →
  bits (Float.mul f g) ≤ bits (Float.mul f' g').
Proof.
  intros ? ? ? ? H1 H2. rewrite !mul_rounded by done. assert (0 ≤ units f ∧ 0 ≤ units g) as [? ?] by (split; by apply units_nonneg).
  apply rounded_mono; [lia|nia|]. apply Z.mul_le_mono_nonneg; try done; by apply units_mono.
Qed.

Lemma rounded_nonneg (u N : Z) : 1074 ≤ u → 0 ≤ N → 0 ≤ rounded u N.
Proof.
  intros Hu HN. etrans; [|apply (rounded_mono u 0 N); lia]. assert (rounded u 0 = 0) as ->; [|done].
  pose proof (rounded_exact (u - 1074) Float.zero) as H. replace (1074 + (u - 1074)) with u in H by lia. apply H; [lia|by vm_compute].
Qed.

(** * Truncation *)
Lemma to_int64_units (f : float64) : nonneg f →
  Float.to_int64 f = if units f / 2 ^ 1074 <=? Int.maxInt64 then units f / 2 ^ 1074 else Int.minInt64.
Proof.
  intros Hf. unfold Float.to_int64. destruct (to_spec_units f Hf) as [(-> & -> & _)|(m & e & -> & -> & He & _)]; [done|].
  assert (Float.scale_round Float.toward_zero (Zpos m) e = Zpos m * 2 ^ (e + 1074) / 2 ^ 1074) as Hs.
  { unfold Float.scale_round, Float.toward_zero. destruct (Z.leb_spec 0 e).
    - rewrite Z.pow_add_r, Z.mul_assoc, Z.div_mul by lia. done.
    - replace (2 ^ 1074) with (2 ^ (- e) * 2 ^ (e + 1074)) by (rewrite <- Z.pow_add_r by lia; f_equal; lia). rewrite Z.div_mul_cancel_r; lia. }
  rewrite Hs. assert (0 ≤ Zpos m * 2 ^ (e + 1074) / 2 ^ 1074) as Hp by (apply Z.div_pos; lia).
  assert (Int.minInt64 <=? Zpos m * 2 ^ (e + 1074) / 2 ^ 1074 = true) as ->; [|done]. apply Z.leb_le. etrans; [|exact Hp]. done.
Qed.

Lemma to_int64_mono (f g : float64) : nonneg f → nonneg g → bits f ≤ bits g → 0 ≤ Float.to_int64 g → 0 ≤ Float.to_int64 f ≤ Float.to_int64 g.
Proof.
  intros Hf Hg H. rewrite !to_int64_units by done. pose proof (units_mono f g Hf Hg H) as Hu. pose proof (units_nonneg f Hf).
  pose proof (Z.div_le_mono (units f) (units g) (2 ^ 1074) ltac:(done) Hu) as Hd. assert (0 ≤ units f / 2 ^ 1074) by (apply Z.div_pos; lia).
  assert (Int.minInt64 < 0) by done. set (a := units f / 2 ^ 1074) in *. set (b := units g / 2 ^ 1074) in *. clearbody a b.
  destruct (Z.leb_spec a Int.maxInt64), (Z.leb_spec b Int.maxInt64); lia.
Qed.

(** * Quotients of integers *)
(** A normal number. *)
Definition normal (s : bool) (m e : Z) (x : spec_float) : Prop :=
  ∃ p, x = S754_finite s p e ∧ m = Zpos p ∧ 2 ^ 52 ≤ m < 2 ^ 53.

Lemma normal_bits (s : bool) (m e : Z) (x : spec_float) : -1074 ≤ e ≤ 971 → normal s m e x →
  bits (Float.of_spec x) = (if s then 2 ^ 63 else 0) + ((e + 1075) * 2 ^ 52 + (m - 2 ^ 52)).
Proof.
  intros He (p & -> & -> & Hp). unfold Float.of_spec. rewrite (proj2 (Z.ltb_ge (Zpos p) (2 ^ 52))) by lia. destruct s; cbn [bits]; lia.
Qed.

(** The pattern of a sign and a magnitude. *)
Lemma sign_fields (s : bool) (b : Z) : 0 ≤ b < 2 ^ 63 → let f := F64 ((if s then 2 ^ 63 else 0) + b) in
  Float.signbit f = s ∧ Float.magnitude f = b ∧ Float.expo f = b / 2 ^ 52 ∧ Float.mant f = b mod 2 ^ 52.
Proof.
  intros Hb. unfold Float.signbit, Float.magnitude, Float.expo, Float.mant. cbn [bits].
  replace ((if s then 2 ^ 63 else 0) + b) with (b + (if s then 1 else 0) * 2 ^ 63) by (destruct s; lia).
  split; [|split; [|split]].
  - rewrite Z.testbit_eqb, Z.div_add, Z.div_small by lia. by destruct s.
  - by rewrite Z.mod_add, Z.mod_small by lia.
  - change (2 ^ 63) with (2 ^ 11 * 2 ^ 52). rewrite Z.mul_assoc, Z.div_add, Z.mod_add by lia. apply Z.mod_small.
    split; [apply Z.div_pos; lia|apply Z.div_lt_upper_bound; lia].
  - change (2 ^ 63) with (2 ^ 11 * 2 ^ 52). by rewrite Z.mul_assoc, Z.mod_add by lia.
Qed.

Lemma normal_fields (s : bool) (m e : Z) (x : spec_float) : -1074 ≤ e ≤ 971 → normal s m e x →
  Float.signbit (Float.of_spec x) = s ∧ Float.magnitude (Float.of_spec x) = (e + 1075) * 2 ^ 52 + (m - 2 ^ 52) ∧
  Float.expo (Float.of_spec x) = e + 1075 ∧ Float.mant (Float.of_spec x) = m - 2 ^ 52.
Proof.
  intros He Hx. pose proof (normal_bits s m e x He Hx) as Hb. destruct Hx as (p & _ & -> & Hp).
  destruct (Float.of_spec x) as [b]. cbn [bits] in Hb. rewrite Hb.
  destruct (sign_fields s ((e + 1075) * 2 ^ 52 + (Zpos p - 2 ^ 52))) as (-> & -> & -> & ->); [lia|].
  rewrite (Z.add_comm _ (Zpos p - 2 ^ 52)), Z.div_add, Z.mod_add, Z.div_small, Z.mod_small by lia. repeat split; lia.
Qed.

Lemma normal_to_spec (s : bool) (m e : Z) (x : spec_float) : -1074 ≤ e ≤ 971 → normal s m e x → Float.to_spec (Float.of_spec x) = x.
Proof.
  intros He Hx. destruct (normal_fields s m e x He Hx) as (Hs & _ & Hexp & Hm). destruct Hx as (p & -> & -> & Hp).
  unfold Float.to_spec. rewrite Hs, Hexp, Hm. rewrite (proj2 (Z.eqb_neq (e + 1075) 2047)), (proj2 (Z.eqb_neq (e + 1075) 0)) by lia.
  replace (Zpos p - 2 ^ 52 + 2 ^ 52) with (Zpos p) by lia. f_equal. lia.
Qed.

(** Of a normal number, the sign is what tells whether it is at least zero. *)
Lemma normal_geb (s : bool) (m e : Z) (x : spec_float) : -1074 ≤ e ≤ 971 → normal s m e x → Float.geb (Float.of_spec x) Float.zero = negb s.
Proof.
  intros He Hx. destruct (normal_fields s m e x He Hx) as (Hs & Hm & Hexp & _). destruct Hx as (p & _ & -> & Hp).
  unfold Float.geb, Float.IsNaN at 1, Float.key. rewrite Hs, Hm, Hexp. rewrite (proj2 (Z.eqb_neq (e + 1075) 2047)) by lia.
  cbn [negb andb]. change (Float.IsNaN Float.zero) with false. change (Float.signbit Float.zero) with false. change (Float.magnitude Float.zero) with 0.
  cbn [negb andb]. destruct s; [apply Z.leb_gt|apply Z.leb_le]; lia.
Qed.

Lemma normal_neg (m e : Z) (x y : spec_float) : -1074 ≤ e ≤ 971 → normal false m e x → normal true m e y →
  Float.neg (Float.of_spec x) = Float.of_spec y.
Proof.
  intros He Hx Hy. pose proof (normal_bits true m e y He Hy) as Hb. destruct (normal_fields false m e x He Hx) as (Hs & Hm & _).
  unfold Float.neg. rewrite Hs, Hm. destruct (Float.of_spec y) as [b]. cbn [bits] in Hb. f_equal. lia.
Qed.

(** The end of a rounding: the digits kept, with at most one more. *)
Lemma round_end (s : bool) (q e : Z) : 2 ^ 52 ≤ q ≤ 2 ^ 53 → -1000 ≤ e ≤ 900 →
  ∃ m e', e ≤ e' ≤ e + 1 ∧
    normal s m e' (let '(mrs, e') := shr_fexp 53 1024 q e loc_Exact in
      match shr_m mrs with Z0 => S754_zero s | Zpos m => if e' <=? 1024 - 53 then S754_finite s m e' else S754_infinity s | _ => S754_nan end).
Proof.
  intros Hq He. unfold shr_fexp, fexp, emin. rewrite Zdigits2_log2 by lia. destruct (decide (q = 2 ^ 53)) as [->|Hlt].
  - replace (Z.max (Z.log2 (2 ^ 53) + 1 + e - 53) (3 - 1024 - 53) - e) with 1 by (change (Z.log2 (2 ^ 53)) with 53; lia).
    change (shr (shr_record_of_loc (2 ^ 53) loc_Exact) e 1) with (Build_shr_record (Zpos 4503599627370496) false false, e + 1).
    cbn [shr_m]. rewrite (proj2 (Z.leb_le (e + 1) (1024 - 53))) by lia. exists (2 ^ 52), (e + 1). split; [lia|]. by eexists.
  - assert (Z.log2 q = 52) as -> by (apply Z.log2_unique; lia). replace (Z.max (52 + 1 + e - 53) (3 - 1024 - 53) - e) with 0 by lia.
    cbn [shr shr_record_of_loc shr_m]. destruct q as [|p|p]; [lia| |lia]. rewrite (proj2 (Z.leb_le e (1024 - 53))) by lia.
    exists (Zpos p), e. split; [lia|]. exists p. split; [done|]. split; [done|lia].
Qed.

(** The integers are rounded to normal numbers, the same for both signs. *)
Lemma round_integer (p : positive) : Zpos p < 2 ^ 65 → ∃ m e, -100 ≤ e ≤ 100 ∧ ∀ s, normal s m e (binary_round 53 1024 s p 0).
Proof.
  intros Hp. assert (∃ m e, -100 ≤ e ≤ 100 ∧ normal false m e (binary_round 53 1024 false p 0)) as (m & e & He & Hn).
  2:{ exists m, e. split; [done|]. intros s. destruct Hn as (x & Hx & ? & ?). exists x. split; [|done]. revert Hx. unfold binary_round, binary_round_aux.
      destruct (shl_align _ _ _). destruct (shr_fexp _ _ _ _ _). destruct (shr_fexp _ _ _ _ _) as [mrs e2]. destruct (shr_m mrs); [done| |done].
      destruct (e2 <=? 1024 - 53); [|done]. by intros [= -> ->]. }
  unfold binary_round. change (Zpos (digits2_pos p)) with (Zdigits2 (Zpos p)). rewrite Zdigits2_log2 by lia.
  assert (0 ≤ Z.log2 (Zpos p) ≤ 65) as Hl by (split; [apply Z.log2_nonneg|etrans; [apply Z.log2_le_mono, Z.lt_le_incl, Hp|done]]).
  destruct (shl_align_spec p 0 (fexp 53 1024 (Z.log2 (Zpos p) + 1 + 0))) as (p' & -> & Hp').
  set (f := fexp 53 1024 _) in *. assert (f = Z.log2 (Zpos p) - 52) as Hf by (unfold f, fexp, emin; lia). clearbody f. set (e := Z.min 0 f) in *.
  assert (Z.log2 (Zpos p') = Z.log2 (Zpos p) - e) as Hl' by (rewrite Hp', Z.log2_mul_pow2 by lia; lia).
  unfold binary_round_aux. unfold shr_fexp at 1. unfold fexp at 1, emin. rewrite Zdigits2_log2, Hl' by lia.
  replace (Z.max (Z.log2 (Zpos p) - e + 1 + e - 53) (3 - 1024 - 53)) with f by lia.
  destruct (shr_spec (Zpos p') e (f - e)) as (r & -> & _ & ->); [lia..|]. replace (e + (f - e)) with f by lia.
  destruct (rne_digits (Zpos p') (f - e) (Z.log2 (Zpos p))) as [Hq Hq']; [lia..|unfold lastDigit; lia|].
  destruct (round_end false (rne (Zpos p') (f - e)) f) as (m & e' & He' & Hn); [|lia|].
  - split; [apply Hq'; unfold lastDigit; lia|lia].
  - exists m, e'. split; [lia|exact Hn].
Qed.

(** The rounding of a quotient of 53 or 54 digits, whatever follows them. *)
Lemma round_quotient (s : bool) (q e : Z) (l : location) : 2 ^ 52 ≤ q < 2 ^ 54 → -1000 ≤ e ≤ 890 →
  ∃ m e', e ≤ e' ≤ e + 2 ∧ normal s m e' (binary_round_aux 53 1024 s q e l).
Proof.
  intros Hq He. unfold binary_round_aux. unfold shr_fexp at 1. unfold fexp at 1, emin. rewrite Zdigits2_log2 by lia.
  assert (∃ r k, shr (shr_record_of_loc q l) e (Z.max (Z.log2 q + 1 + e - 53) (3 - 1024 - 53) - e) = (r, e + k) ∧ 0 ≤ k ≤ 1 ∧
    2 ^ 52 ≤ shr_m r < 2 ^ 53) as (r & k & -> & Hk & Hr).
  { destruct (decide (q < 2 ^ 53)).
    - assert (Z.log2 q = 52) as -> by (apply Z.log2_unique; lia). replace (Z.max (52 + 1 + e - 53) (3 - 1024 - 53) - e) with 0 by lia.
      exists (shr_record_of_loc q l), 0. cbn [shr]. split; [f_equal; lia|]. split; [lia|]. assert (shr_m (shr_record_of_loc q l) = q) as -> by (by destruct l as [|[]]). lia.
    - assert (Z.log2 q = 53) as -> by (apply Z.log2_unique; lia). replace (Z.max (53 + 1 + e - 53) (3 - 1024 - 53) - e) with 1 by lia.
      exists (shr_1 (shr_record_of_loc q l)), 1. split; [done|]. split; [lia|].
      assert (shr_m (shr_1 (shr_record_of_loc q l)) = q / 2) as ->; [|split; [apply Z.div_le_lower_bound; lia|apply Z.div_lt_upper_bound; lia]].
      destruct q as [|[p|p|]|p]; [lia|..|lia]; try lia; destruct l as [|[]]; cbn [shr_record_of_loc shr_1 shr_m];
        (apply Z.div_unique with 1; lia) || (apply Z.div_unique with 0; lia). }
  destruct (round_end s (round_nearest_even (shr_m r) (loc_of_shr_record r)) (e + k)) as (m & e' & He' & Hn); [|lia|].
  - unfold round_nearest_even. destruct (loc_of_shr_record r) as [|[]]; [lia| |lia|lia]. destruct (Z.even (shr_m r)); lia.
  - exists m, e'. split; [lia|exact Hn].
Qed.

Lemma of_Z_normal (z : Z) : z ≠ 0 → - 2 ^ 65 < z < 2 ^ 65 → ∃ m e, -100 ≤ e ≤ 100 ∧
  normal (z <? 0) m e (Float.to_spec (Float.of_Z z)) ∧ normal (negb (z <? 0)) m e (Float.to_spec (Float.of_Z (- z))).
Proof.
  intros Hz Hb. unfold Float.of_Z. destruct z as [|p|p]; [done| |]; destruct (round_integer p) as (m & e & He & H); [lia| |lia|];
    exists m, e; (split; [done|]); cbn [Z.opp binary_normalize Z.ltb Z.compare negb];
    split; by rewrite (normal_to_spec _ m e) by (lia || apply H); apply H.
Qed.

Lemma of_Z_opp (z : Z) : 0 < z < 2 ^ 65 → Float.neg (Float.of_Z z) = Float.of_Z (- z).
Proof.
  intros Hz. destruct z as [|p|p]; [lia| |lia]. unfold Float.of_Z. cbn [Z.opp binary_normalize].
  destruct (round_integer p) as (m & e & He & H); [lia|]. apply (normal_neg m e); [lia|apply H..].
Qed.

Lemma quotient_digits (m n : Z) : 2 ^ 52 ≤ m < 2 ^ 53 → 2 ^ 52 ≤ n < 2 ^ 53 → 2 ^ 52 ≤ m * 2 ^ 53 / n < 2 ^ 54.
Proof. intros Hm Hn. split; [apply Z.div_le_lower_bound; lia|apply Z.div_lt_upper_bound; lia]. Qed.

(** The quotient of two integers is at least zero when their signs agree or the dividend is zero; by zero, only that of a positive integer. *)
Lemma div_of_Z_geb (d s : Z) : - 2 ^ 65 < d < 2 ^ 65 → - 2 ^ 65 < s < 2 ^ 65 →
  Float.geb (Float.div (Float.of_Z d) (Float.of_Z s)) Float.zero = if s =? 0 then 0 <? d else 0 <=? d * s.
Proof.
  intros Hd Hs. unfold Float.div, Float.lift2. destruct (Z.eqb_spec s 0) as [->|Hs0].
  { change (Float.to_spec (Float.of_Z 0)) with (S754_zero false). destruct (decide (d = 0)) as [->|Hd0]; [by vm_compute|].
    destruct (of_Z_normal d Hd0 Hd) as (m & e & _ & (p & -> & _) & _). cbn [SFdiv xorb]. destruct (Z.ltb_spec d 0), (Z.ltb_spec 0 d); try lia; by vm_compute. }
  destruct (of_Z_normal s Hs0 Hs) as (n & f & Hf & (q & -> & -> & Hq) & _). destruct (decide (d = 0)) as [->|Hd0].
  { change (Float.to_spec (Float.of_Z 0)) with (S754_zero false). cbn [SFdiv xorb]. by destruct (s <? 0). }
  destruct (of_Z_normal d Hd0 Hd) as (m & e & He & (p & -> & -> & Hp) & _). cbn [SFdiv]. unfold SFdiv_core_binary.
  rewrite !Zdigits2_log2 by lia. rewrite (Z.log2_unique (Zpos p) 52), (Z.log2_unique (Zpos q) 52) by lia. unfold fexp, emin.
  replace (Z.min (Z.max (52 + 1 + e - (52 + 1 + f) - 53) (3 - 1024 - 53)) (e - f)) with (e - f - 53) by lia.
  replace (e - f - (e - f - 53)) with 53 by lia. cbn [Z.ltb]. rewrite Z.shiftl_mul_pow2 by lia.
  pose proof (quotient_digits (Zpos p) (Zpos q) Hp Hq) as Hd'. unfold Z.div in Hd'. destruct (Z.div_eucl (Zpos p * 2 ^ 53) (Zpos q)) as [x r].
  destruct (round_quotient (xorb (d <? 0) (s <? 0)) x (e - f - 53) (new_location (Zpos q) r)) as (m & e' & He' & Hn); [done|lia|].
  rewrite (normal_geb _ m e') by (done || lia). destruct (Z.ltb_spec d 0), (Z.ltb_spec s 0); cbn [xorb negb]; symmetry; [apply Z.leb_le|apply Z.leb_gt..|apply Z.leb_le]; nia.
Qed.
