(* ===== verification/Delay.v ===== *)
(** Delays that grow and that are spread (delay/jitter.go), on binary64 numbers.  What math/rand gives, a number of [0, 1),
    is an argument. *)
From S2P Require Import Prelude Float64 FloatOrder.

#[local] Open Scope Z_scope.

(** * math *)
(** [math.Frexp] of a normal number: a fraction of [1/2, 1) and an exponent. *)
Definition Frexp (f : float64) : float64 * Z :=
  (F64 (bits f - Float.expo f * 2 ^ 52 + 1022 * 2 ^ 52), Float.expo f - 1022).

(** [math.Ldexp] of a positive normal number. *)
Definition Ldexp (f : float64) (e : Z) : float64 :=
  let e := e + Float.expo f - 1023 in
  if e <? -1075 then Float.zero
  else if 1023 <? e then F64 (2047 * 2 ^ 52)
  else if e <? -1022 then Float.mul (F64 ((1023 - 53) * 2 ^ 52)) (F64 (Float.mant f + (e + 53 + 1023) * 2 ^ 52))
  else F64 (Float.mant f + (e + 1023) * 2 ^ 52).

Definition half : float64 := F64 (1022 * 2 ^ 52).
Definition one : float64 := F64 (1023 * 2 ^ 52).
Definition two : float64 := F64 (1024 * 2 ^ 52).

(** The loop of [math.Pow]; [i] halves at every turn. *)
Fixpoint powLoop (fuel : nat) (a1 x1 : float64) (ae xe i : Z) : float64 * Z :=
  match fuel with
  | O => (a1, ae)
  | S fuel =>
      if i =? 0 then (a1, ae)
      else if (xe <? - 2 ^ 12) || (2 ^ 12 <? xe) then (a1, ae + xe)
      else
        let '(a1, ae) := if Z.odd i then (Float.mul a1 x1, ae + xe) else (a1, ae) in
        let '(x1, xe) := (Float.mul x1 x1, Z.shiftl xe 1) in
        let '(x1, xe) := if Float.ltb x1 half then (Float.add x1 x1, xe - 1) else (x1, xe) in
        powLoop fuel a1 x1 ae xe (Z.shiftr i 1)
  end.

(** [math.Pow] of a positive normal number to a power that is an integer, not negative. *)
Definition Pow (x : float64) (n : Z) : float64 :=
  if (n =? 0) || Float.eqb x one then one
  else if n =? 1 then x
  else
    let '(x1, xe) := Frexp x in
    let '(a1, ae) := powLoop (S (Z.to_nat (Z.log2 n))) one x1 0 xe n in
    Ldexp a1 ae.

(** [time.Duration.Seconds] *)
Definition Seconds (d : Z) : float64 :=
  Float.add (Float.of_Z (Z.quot d Time.second)) (Float.div (Float.of_Z (Z.rem d Time.second)) (Float.of_Z 1000000000)).

(** * delay *)
(** The product of a [time.Duration] wraps. *)
Definition seconds (n : Z) : Z := Int.int64 (n * Time.second).

Definition Exponential (base : Z) (powerFactor : float64) (n : Z) (maxDur : Z) : Z :=
  let n := n - 1 in
  let n := if n <? 0 then 0 else n in
  let value := Float.mul (Seconds base) (Pow powerFactor n) in
  let value := if Float.gtb value (Seconds maxDur) then Seconds maxDur else value in
  seconds (Float.to_int64 value).

Definition scaleOf (rand factor : float64) : float64 :=
  Float.add (Float.mul (Float.mul rand two) factor) (Float.sub one factor).

Definition JitterDelay (rand : float64) (baseDelay : Z) (factor : float64) : Z :=
  seconds (Float.to_int64 (Float.mul (Seconds baseDelay) (scaleOf rand factor))).

Definition JitterMs (rand : float64) (baseDelay : Z) (factor : float64) : Z :=
  Int.int64 (Float.to_int64 (Float.mul (Float.of_Z (Z.quot baseDelay Time.millisecond)) (scaleOf rand factor)) * Time.millisecond).

(** The constants of the source. *)
Definition fraction (a b : Z) : float64 := Float.div (Float.of_Z a) (Float.of_Z b).
Definition f155 : float64 := fraction 155 100.
Definition f175 : float64 := fraction 175 100.

(** The tables of TestExponential. *)
Example Exponential_tables :
  (λ n, Exponential (60 * Time.second) f155 n Time.hour / Time.second) <$> seqZ 1 12
    = [60; 93; 144; 223; 346; 536; 832; 1289; 1998; 3098; 3600; 3600] ∧
  (λ n, Exponential (2 * Time.second) f155 n Time.hour / Time.second) <$> seqZ 1 4 = [2; 3; 4; 7] ∧
  (λ n, Exponential Time.hour f175 n (12 * Time.hour) / Time.second) <$> seqZ 1 6 = [3600; 6300; 11025; 19293; 33764; 43200].
Proof. vm_compute. done. Qed.

(** * Bounds *)
Definition infinity : float64 := F64 infinityBits.

(** A number that is not negative, infinity included. *)
Definition ordered (f : float64) : Prop := 0 ≤ bits f ≤ infinityBits.

Lemma ordered_cases (f : float64) : ordered f → nonneg f ∨ f = infinity.
Proof. destruct f as [b]. unfold ordered, nonneg, infinity. cbn. intros. destruct (decide (b = infinityBits)) as [->|]; [by right|left; lia]. Qed.

Lemma ltb_bits (f g : float64) : ordered f → ordered g → Float.ltb f g = (bits f <? bits g).
Proof.
  assert (∀ h, ordered h → Float.IsNaN h = false ∧ Float.key h = bits h) as H.
  { intros h [Hh| ->]%ordered_cases; [|done]. destruct (fields h Hh) as (Hb & He & Hm & Hs). unfold Float.IsNaN, Float.key, Float.magnitude. rewrite Hs.
    destruct (Z.eqb_spec (Float.expo h) 2047); [lia|]. split; [done|]. apply Z.mod_small. unfold nonneg, infinityBits in Hh. lia. }
  intros Hf Hg. unfold Float.ltb. destruct (H f Hf) as [-> ->], (H g Hg) as [-> ->]. done.
Qed.

Lemma rounded_ordered (u N : Z) (f : float64) : 1074 ≤ u → 0 ≤ N → bits f = rounded u N → ordered f.
Proof. intros Hu HN Hf. unfold ordered. rewrite Hf. split; [by apply rounded_nonneg|]. unfold rounded. lia. Qed.

Lemma mul_ordered (f g : float64) : nonneg f → nonneg g → ordered (Float.mul f g).
Proof.
  intros Hf Hg. eapply rounded_ordered; [| |by apply mul_rounded]; [lia|]. pose proof (units_nonneg f Hf). pose proof (units_nonneg g Hg). nia.
Qed.

Lemma add_ordered (f g : float64) : nonneg f → nonneg g → ordered (Float.add f g).
Proof.
  intros Hf Hg. eapply rounded_ordered; [| |by apply add_rounded]; [lia|]. pose proof (units_nonneg f Hf). pose proof (units_nonneg g Hg). lia.
Qed.

Lemma mul_infinity (f : float64) : nonneg f → 0 < bits f → Float.mul f infinity = infinity.
Proof.
  intros Hf Hpos. unfold Float.mul, Float.lift2. change (Float.to_spec infinity) with (SpecFloat.S754_infinity false).
  destruct (to_spec_units f Hf) as [(_ & _ & ?)|(m & e & -> & _)]; [lia|done].
Qed.

Lemma Ldexp_ordered (f : float64) (e : Z) : ordered (Ldexp f e).
Proof.
  unfold Ldexp. set (x := e + Float.expo f - 1023). clearbody x. pose proof (Z.mod_pos_bound (bits f) (2 ^ 52)) as Hm. change (bits f mod 2 ^ 52) with (Float.mant f) in Hm.
  destruct (Z.ltb_spec x (-1075)); [done|]. destruct (Z.ltb_spec 1023 x); [done|]. destruct (Z.ltb_spec x (-1022)).
  - apply mul_ordered; [done|]. unfold nonneg, infinityBits. cbn [bits]. lia.
  - unfold ordered, infinityBits. cbn [bits]. lia.
Qed.

Lemma Pow_ordered (x : float64) (n : Z) : nonneg x → ordered (Pow x n).
Proof.
  intros Hx. unfold Pow. destruct (_ || _); [done|]. destruct (n =? 1); [unfold ordered, nonneg in *; lia|].
  destruct (Frexp x). destruct (powLoop _ _ _ _ _ _). apply Ldexp_ordered.
Qed.

Lemma seconds_mono (a b : Z) : 0 ≤ a ≤ b → b * Time.second ≤ Int.maxInt64 → 0 ≤ seconds a ≤ seconds b.
Proof.
  intros H Hb. unfold seconds. rewrite !Int.int64_id; unfold Int.minInt64, Int.maxInt64, Time.second in *; lia.
Qed.

(** An exponential delay is never negative nor above its maximum, however many errors there were: also when the power
    overflows to infinity. *)
Theorem Exponential_capped (base : Z) (powerFactor : float64) (n maxDur : Z) :
  nonneg (Seconds base) → 0 < bits (Seconds base) → nonneg powerFactor → nonneg (Seconds maxDur) →
  0 ≤ Float.to_int64 (Seconds maxDur) → Float.to_int64 (Seconds maxDur) * Time.second ≤ maxDur ≤ Int.maxInt64 →
  0 ≤ Exponential base powerFactor n maxDur ≤ maxDur.
Proof.
  intros Hb Hpos Hp Hm Hint Hmax. unfold Exponential. set (k := if n - 1 <? 0 then 0 else n - 1). set (value := Float.mul _ _).
  assert (ordered value) as Hv.
  { unfold value. destruct (ordered_cases _ (Pow_ordered powerFactor k Hp)) as [H| ->]; [by apply mul_ordered|by rewrite mul_infinity]. }
  unfold Float.gtb. rewrite ltb_bits; [|unfold ordered, nonneg in *; lia|done].
  assert (seconds (Float.to_int64 (Seconds maxDur)) ≤ maxDur) as Hs.
  { unfold seconds. rewrite Int.int64_id; unfold Int.minInt64, Int.maxInt64, Time.second in *; lia. }
  destruct (Z.ltb_spec (bits (Seconds maxDur)) (bits value)).
  - split; [apply (seconds_mono 0 (Float.to_int64 (Seconds maxDur))); lia|done].
  - assert (nonneg value) as Hn by (unfold ordered, nonneg in *; lia). pose proof (to_int64_mono value (Seconds maxDur) Hn Hm ltac:(done) Hint).
    pose proof (seconds_mono (Float.to_int64 value) (Float.to_int64 (Seconds maxDur))) as H'. lia.
Qed.

Lemma Exponential_capped_witness : 0 ≤ Exponential (10 * Time.minute) (Float.of_Z 3) 5000 (120 * Time.hour) ≤ 120 * Time.hour.
Proof. apply (Exponential_capped (10 * Time.minute) (Float.of_Z 3) 5000 (120 * Time.hour)); vm_compute; repeat split; congruence. Defined.

(** What math/rand gives. *)
Definition unitInterval (rand : float64) : Prop := 0 ≤ bits rand < bits one.

(** The products of a value grow with the random number. *)
Lemma scale_between (rand v factor : float64) :
  unitInterval rand → nonneg v → nonneg factor → nonneg (Float.sub one factor) → nonneg (scaleOf one factor) → nonneg (Float.mul v (scaleOf one factor)) →
  nonneg (Float.mul v (scaleOf Float.zero factor)) ∧ nonneg (Float.mul v (scaleOf rand factor)) ∧
  bits (Float.mul v (scaleOf Float.zero factor)) ≤ bits (Float.mul v (scaleOf rand factor)) ≤ bits (Float.mul v (scaleOf one factor)).
Proof.
  intros Hr Hv Hf Hs Htop Hmul. assert (nonneg rand ∧ nonneg one ∧ nonneg two ∧ nonneg Float.zero) as (Hr' & Ho & Ht & Hz).
  { unfold unitInterval, nonneg in *. change (bits one) with (1023 * 2 ^ 52) in *. split; [unfold infinityBits; lia|done]. }
  assert (∀ r, nonneg r → bits r ≤ bits one → nonneg (Float.mul r two)) as H2.
  { intros r H Hle. pose proof (mul_ordered r two H Ht) as Hord. pose proof (mul_mono r one two two H Ho Ht Ht Hle ltac:(done)) as Hm.
    change (bits (Float.mul one two)) with (1024 * 2 ^ 52) in Hm. unfold ordered, nonneg, infinityBits in *. lia. }
  assert (nonneg (Float.mul (Float.mul one two) factor)) as H1f.
  { destruct (ordered_cases _ (mul_ordered (Float.mul one two) factor (H2 one Ho ltac:(done)) Hf)) as [|Hinf]; [done|]. exfalso. revert Htop. unfold scaleOf. rewrite Hinf.
    unfold Float.add, Float.lift2. change (Float.to_spec infinity) with (SpecFloat.S754_infinity false).
    destruct (to_spec_units _ Hs) as [(-> & _)|(m & e & -> & _)]; intros [_ H]; vm_compute in H; done. }
  assert (∀ a b, nonneg a → nonneg b → bits a ≤ bits b → bits b ≤ bits one →
    nonneg (Float.mul v (scaleOf a factor)) ∧ nonneg (Float.mul v (scaleOf b factor)) ∧ bits (Float.mul v (scaleOf a factor)) ≤ bits (Float.mul v (scaleOf b factor))) as Hstep; cycle 1.
  { destruct (Hstep Float.zero rand) as (? & ? & ?); [done..|apply Hr|unfold unitInterval in Hr; lia|]. split; [done|]. split; [done|]. split; [done|].
    apply Hstep; [done..|unfold unitInterval in Hr; lia|done]. }
  assert (∀ r, nonneg r → bits r ≤ bits one → nonneg (Float.mul (Float.mul r two) factor) ∧ nonneg (scaleOf r factor) ∧ nonneg (Float.mul v (scaleOf r factor))) as Hall.
  { intros r H Hle. assert (nonneg (Float.mul (Float.mul r two) factor)) as H1.
    { pose proof (mul_ordered _ _ (H2 r H Hle) Hf). pose proof (mul_mono (Float.mul r two) (Float.mul one two) factor factor (H2 r H Hle) (H2 one Ho ltac:(done)) Hf Hf
        (mul_mono r one two two H Ho Ht Ht Hle ltac:(done)) ltac:(done)). unfold ordered, nonneg in *. lia. }
    assert (bits (scaleOf r factor) ≤ bits (scaleOf one factor)) as Hsc.
    { apply add_mono; try done. apply mul_mono; try done; [by apply H2|by apply mul_mono]. }
    assert (nonneg (scaleOf r factor)) as H3 by (pose proof (add_ordered _ _ H1 Hs); unfold ordered, nonneg, scaleOf in *; lia).
    split; [done|]. split; [done|]. pose proof (mul_ordered v _ Hv H3). pose proof (mul_mono v v _ _ Hv Hv H3 Htop ltac:(done) Hsc). unfold ordered, nonneg in *. lia. }
  intros a b Ha Hb Hab Hb1. destruct (Hall a Ha ltac:(lia)) as (? & ? & ?), (Hall b Hb Hb1) as (? & ? & ?). split; [done|]. split; [done|].
  apply mul_mono; try done. apply add_mono; try done. apply mul_mono; try done; [apply H2; [done|lia]|by apply H2|]. by apply mul_mono.
Qed.

(** The uses of [JitterDelay]: a number of seconds, and a factor as a fraction.  On constants, the broker of MQTT (client.go), the synchronizer
    (sync.go, info.go), the agent (agent.go) and the reconnection (mqtt.go). *)
Definition jitterConstants : list (Z * (Z * Z)) :=
  [(300, (1, 4)); (20, (1, 2)); (15, (3, 10)); (15, (1, 20)); (1200, (1, 4)); (900, (1, 20)); (1800, (1, 10)); (3600, (1, 10)); (86400, (1, 10));
   (86400, (1, 20)); (300, (1, 5)); (90, (1, 3)); (450, (1, 3))].

(** On delays that grow with the number of errors, or of synchronizations, up to their limit: the attempts to connect to the broker, the synchronizations in error,
    and the full synchronizations. *)
Definition growing (base : Z) (powerFactor : float64) (maxDur : Z) : list Z := (λ n, Exponential base powerFactor n maxDur / Time.second) <$> seqZ 1 12.

Definition jitterUses : list (Z * (Z * Z)) :=
  jitterConstants ++ ((λ n, (n, (1, 10))) <$> growing (5 * Time.second) f155 (10 * Time.minute) ++ growing (15 * Time.second) f155 (15 * Time.minute)) ++
  ((λ n, (n, (1, 4))) <$> growing Time.hour f175 (12 * Time.hour)).

Example growing_limits :
  growing (5 * Time.second) f155 (10 * Time.minute) = [5; 7; 12; 18; 28; 44; 69; 107; 166; 258; 400; 600] ∧
  growing (15 * Time.second) f155 (15 * Time.minute) = [15; 23; 36; 55; 86; 134; 208; 322; 499; 774; 900; 900] ∧
  growing Time.hour f175 (12 * Time.hour) = [3600; 6300; 11025; 19293; 33764; 43200; 43200; 43200; 43200; 43200; 43200; 43200].
Proof. vm_compute. done. Qed.

(** What is computed for each of them: the least and the greatest delay are those of the fraction, to the second. *)
Definition jitterExtremes (n a b : Z) : bool :=
  let base := n * Time.second in
  let factor := fraction a b in
  let small (f : float64) := (0 <=? bits f) && (bits f <? infinityBits) in
  let top := Float.to_int64 (Float.mul (Seconds base) (scaleOf one factor)) in
  (0 <? b) && small (Seconds base) && small factor && small (Float.sub one factor) && small (scaleOf one factor) && small (Float.mul (Seconds base) (scaleOf one factor)) &&
  (0 <=? top) && (top <? 2 ^ 31) && (top * b <=? n * (b + a)) && (n * (b - a) / b <=? Float.to_int64 (Float.mul (Seconds base) (scaleOf Float.zero factor))).

Lemma jitterUses_extremes : forallb (λ '(n, (a, b)), jitterExtremes n a b) jitterUses = true.
Proof. vm_compute. reflexivity. Qed.

Lemma JitterDelay_fraction (rand : float64) (n a b : Z) :
  unitInterval rand → jitterExtremes n a b = true →
  ∃ k, JitterDelay rand (n * Time.second) (fraction a b) = k * Time.second ∧ k * b ≤ n * (b + a) ∧ n * (b - a) / b ≤ k < 2 ^ 31.
Proof.
  intros Hr Huse. unfold jitterExtremes in Huse. rewrite !andb_true_iff, !Z.leb_le, !Z.ltb_lt in Huse. destruct Huse as [[[[[[[[[Hpos Hb] Hf] Hs] Ht] Hm] H0] H31] Hhi] Hlo].
  destruct (scale_between rand (Seconds (n * Time.second)) (fraction a b) Hr Hb Hf Hs Ht Hm) as (N0 & N1 & Hle & Hle').
  pose proof (to_int64_mono _ _ N1 Hm Hle' H0) as [Hp Hk]. pose proof (to_int64_mono _ _ N0 N1 Hle Hp) as [_ Hk'].
  exists (Float.to_int64 (Float.mul (Seconds (n * Time.second)) (scaleOf rand (fraction a b)))). split; [|split; [nia|lia]].
  unfold JitterDelay, seconds. apply Int.int64_id. unfold Int.minInt64, Int.maxInt64, Time.second in *. lia.
Qed.

(** C9. Whatever the random number of [0, 1), for each delay and factor the agent spreads (the constants of its source, and the delays that grow from an attempt to the
    next up to their limit), [JitterDelay] gives a whole number of seconds: at most [1 + factor] times the delay, and at least the integer part of
    [1 - factor] times the delay, which may be less than a second below it. *)
Theorem jitter_within (rand : float64) (n a b : Z) :
  unitInterval rand → (n, (a, b)) ∈ jitterUses →
  ∃ k, JitterDelay rand (n * Time.second) (fraction a b) = k * Time.second ∧ k * b ≤ n * (b + a) ∧ n * (b - a) / b ≤ k.
Proof.
  intros Hr Huse. apply list_elem_of_In, (proj1 (forallb_forall _ _) jitterUses_extremes) in Huse. destruct (JitterDelay_fraction rand n a b Hr Huse) as (k & ? & ? & ? & _). by exists k.
Qed.

Lemma jitter_within_witness : ∃ k, JitterDelay half (15 * Time.second) (fraction 1 20) = k * Time.second ∧ k * 20 ≤ 15 * (20 + 1) ∧ 15 * (20 - 1) / 20 ≤ k.
Proof. apply (jitter_within half 15 1 20); [vm_compute; split; congruence|do 3 right; left]. Defined.

(** The least delay may be below [1 - factor] times the one given: 14 seconds, and not 14.25. *)
Example jitter_truncated : JitterDelay Float.zero (15 * Time.second) (fraction 1 20) = 14 * Time.second.
Proof. vm_compute. reflexivity. Qed.
