(* ===== verification/Points.v ===== *)
(** Points as they travel between the components (types/types.go). *)
From S2P Require Import Prelude Labels Float64.

(** One value of one metric at a given time. *)
Record Point := mkPoint { ptTime : Z; ptValue : float64 }.

(** One point with the labels that identify its metric and the annotations
    it was emitted with. *)
Record MetricPoint := mkMetricPoint {
  mpPoint : Point;
  mpLabels : Labels;
  mpAnnotations : MetricAnnotations;
}.

Record LabelsAndAnnotation := mkLabelsAndAnnotation {
  laLabels : Labels;
  laAnnotations : MetricAnnotations;
}.

Abbreviation mpTime p := (ptTime (mpPoint p)).
Abbreviation mpValue p := (ptValue (mpPoint p)).

#[global] Instance Status_inhabited : Inhabited Status.t := populate Status.StatusUnset.

#[global] Instance StatusDescription_eq_dec : EqDecision StatusDescription.
Proof. solve_decision. Defined.

#[global] Instance MetricAnnotations_eq_dec : EqDecision MetricAnnotations.
Proof. solve_decision. Defined.

#[global] Instance Point_eq_dec : EqDecision Point.
Proof. solve_decision. Defined.

#[global] Instance MetricPoint_eq_dec : EqDecision MetricPoint.
Proof. solve_decision. Defined.

Definition set_status (a : MetricAnnotations) (s : StatusDescription) : MetricAnnotations :=
  mkAnnotations (ContainerID a) (ServiceName a) (ServiceInstance a) (StatusOf a)
    (SNMPTarget a) (BleemeoAgentID a) s.

Definition set_status_of (a : MetricAnnotations) (name : string) : MetricAnnotations :=
  mkAnnotations (ContainerID a) (ServiceName a) (ServiceInstance a) name
    (SNMPTarget a) (BleemeoAgentID a) (AnnStatus a).
