(* ===== verification/Format.v ===== *)
(** Rendering of values and durations in status descriptions
    (threshold/threshold.go: FormatValue, FormatValueAlt, formatDuration,
    formatDurationDay). *)
From S2P Require Import Prelude Float64.
From stdpp Require Import pretty.

Local Open Scope string_scope.
Local Open Scope Z_scope.

(** ** Units *)
Record Unit := mkUnit { UnitType : Z; UnitText : string }.

Definition UnitTypeUnit : Z := 0.
Definition UnitTypeByte : Z := 2.
Definition UnitTypeBit : Z := 3.
Definition UnitTypeSecond : Z := 6.
Definition UnitTypeDay : Z := 8.
Definition UnitTypeBytesPS : Z := 10.
Definition UnitTypeBitsPS : Z := 11.

Definition unitNameSecond : string := "second".
Definition unitNameDay : string := "day".

Definition one : float64 := Float.of_Z 1.
(** The literal [0.1]. *)
Definition tenth : float64 := F64 0x3FB999999999999A.

(** [time.Duration.Seconds]: the whole seconds and the rest are converted
    apart. *)
Definition Seconds (d : Z) : float64 :=
  Float.add (Float.of_Z (Z.quot d Time.second))
    (Float.div (Float.of_Z (Z.rem d Time.second)) (Float.of_Z Time.second)).

(** ** Durations *)
Definition durationUnits : list (Z * string) :=
  [ (1, unitNameSecond); (60, "minute"); (60, "hour"); (24, unitNameDay) ].

(** [-0.1*value*float64(currentScale)] *)
Definition tenthOf (value : float64) (currentScale : Z) : float64 :=
  Float.mul (Float.mul (Float.neg tenth) value) (Float.of_Z currentScale).

(** The body of the loop of [formatDuration]; [previous] is the name of the
    previous unit, present when [i > 0]. *)
Fixpoint formatDuration_loop (seconds : float64) (sign : string)
    (units : list (Z * string)) (previous : option string) (currentScale : Z)
    (result : string) : string :=
  match units with
  | [] => result
  | (scale, name) :: units' =>
      let currentScale := currentScale * scale in
      let value := Float.Round (Float.div seconds (Float.of_Z currentScale)) in
      let remainder := Float.sub seconds (Float.mul value (Float.of_Z currentScale)) in
      if Float.ltb value one
         || (Float.eqb value one && Float.ltb remainder (tenthOf value currentScale))
      then result
      else
        let '(value, remainder) :=
          if Float.ltb remainder (tenthOf value currentScale) then
            (Float.sub value one, Float.add remainder (Float.of_Z currentScale))
          else (value, remainder) in
        let result := sign +:+ Float.fixed 0 value +:+ " " +:+ name in
        let result := if Float.gtb value one then result +:+ "s" else result in
        let result :=
          match previous with
          | Some previousName =>
              if Float.geb (Float.abs remainder)
                   (Float.mul (Float.mul tenth value) (Float.of_Z currentScale)) then
                let previousScale := Z.quot currentScale scale in
                let valueRemainder :=
                  Float.Round (Float.div remainder (Float.of_Z previousScale)) in
                let result :=
                  result +:+ " " +:+ Float.fixed 0 valueRemainder +:+ " " +:+ previousName in
                if Float.gtb valueRemainder one then result +:+ "s" else result
              else result
          | None => result
          end in
        formatDuration_loop seconds sign units' (Some name) currentScale result
  end.

Definition formatDuration (period : Z) : string :=
  let '(sign, period) := if period <? 0 then ("-", Int.int64 (- period)) else ("", period) in
  formatDuration_loop (Seconds period) sign durationUnits None 1 ("0 " +:+ unitNameSecond).

Definition formatDurationDay (period : Z) : string :=
  let '(sign, period) := if period <? 0 then ("-", Int.int64 (- period)) else ("", period) in
  let value := Float.Round (Float.div (Seconds period) (Float.of_Z 86400)) in
  let result := sign +:+ Float.fixed 0 value +:+ " " +:+ unitNameDay in
  if Float.gtb value one then result +:+ "s" else result.

(** ** Values *)
Definition scales : list string := [""; "K"; "M"; "G"; "T"; "P"; "E"].

(** The scaling loop: at most [length scales - 1] divisions by 1024. *)
Fixpoint scaleValue (fuel : nat) (i : nat) (value : float64) : nat * float64 :=
  match fuel with
  | O => (i, value)
  | S fuel' =>
      if Float.geb (Float.abs value) (Float.of_Z 1024) then
        scaleValue fuel' (S i) (Float.div value (Float.of_Z 1024))
      else (i, value)
  end.

Fixpoint lastByte (s : string) : option ascii :=
  match s with
  | "" => None
  | String c "" => Some c
  | String _ s' => lastByte s'
  end.

(** [strings.HasSuffix] with the one-byte suffix [s]. *)
Definition hasSuffixS (s : string) : bool := bool_decide (lastByte s = Some "s"%char).

Definition FormatValue (value : float64) (unit : Unit) : string :=
  let ty := UnitType unit in
  if ty =? UnitTypeUnit then Float.fixed 2 value
  else if (ty =? UnitTypeBit) || (ty =? UnitTypeBitsPS)
          || (ty =? UnitTypeByte) || (ty =? UnitTypeBytesPS) then
    let '(i, value) := scaleValue (length scales - 1) 0 value in
    let pluralMark := if hasSuffixS (UnitText unit) then "" else "s" in
    Float.fixed 2 value +:+ " " +:+ default "" (scales !! i)
      +:+ UnitText unit +:+ pluralMark
  else if ty =? UnitTypeSecond then
    formatDuration (Int.int64 (Float.to_int64 value * Time.second))
  else if ty =? UnitTypeDay then
    formatDurationDay (Int.int64 (Int.int64 (Float.to_int64 value * 24) * Time.hour))
  else Float.fixed 2 value +:+ " " +:+ UnitText unit.

Definition FormatValueAlt (value : float64) (unit : Unit) (valueAlt : float64)
    (unitAlt : Unit) : string :=
  FormatValue value unit +:+ " (" +:+ FormatValue valueAlt unitAlt +:+ ")".

(** * Theorems *)

(** The scaling loop stops by itself within its bound: the index stays in
    [scales], and below the last scale the rendered value is under 1024. *)
Lemma scaleValue_spec (fuel i : nat) (value : float64) :
  let '(i', value') := scaleValue fuel i value in
  (i ≤ i' ≤ i + fuel)%nat
  ∧ ((i' < i + fuel)%nat →
     Float.geb (Float.abs value') (Float.of_Z 1024) = false).
Proof.
  revert i value. induction fuel as [|fuel IH]; intros i value; simpl.
  - split; [lia|]. intros; lia.
  - destruct (Float.geb _ _) eqn:Hge.
    + specialize (IH (S i) (Float.div value (Float.of_Z 1024))).
      destruct (scaleValue _ _ _). split; [lia|]. intros. apply IH. lia.
    + split; [lia|done].
Qed.

Lemma scaleValue_in_scales (value : float64) :
  is_Some (scales !! fst (scaleValue (length scales - 1) 0 value)).
Proof.
  pose proof (scaleValue_spec (length scales - 1) 0 value) as H.
  destruct (scaleValue _ _ _) as [i v]. destruct H as [H _].
  apply lookup_lt_is_Some. simpl in *. lia.
Qed.

(** The vectors of the repository's TestFormatValue and TestFormatDuration. *)
Example FormatValue_vectors :
  FormatValue Float.zero (mkUnit 0 "No unit") = "0.00"
  ∧ FormatValue Float.zero (mkUnit 42 "thing") = "0.00 thing"
  ∧ FormatValue Float.zero (mkUnit UnitTypeByte "Byte") = "0.00 Bytes"
  ∧ FormatValue (Float.of_Z 1024) (mkUnit UnitTypeByte "Byte") = "1.00 KBytes"
  ∧ FormatValue (Float.of_Z (2 ^ 70)) (mkUnit UnitTypeByte "Byte") = "1024.00 EBytes"
  ∧ FormatValue (Float.of_Z (- 2 ^ 30)) (mkUnit UnitTypeByte "Byte") = "-1.00 GBytes"
  ∧ FormatValue (Float.of_Z (- 2 ^ 60)) (mkUnit UnitTypeBitsPS "Bits/s") = "-1.00 EBits/s"
  ∧ FormatValue (Float.of_Z 365) (mkUnit UnitTypeDay "day") = "365 days"
  ∧ FormatValue (Float.div (Float.of_Z 7) (Float.of_Z 10)) (mkUnit UnitTypeDay "day") = "0 day"
  ∧ FormatValue (Float.of_Z 125) (mkUnit UnitTypeSecond "second") = "2 minutes"
  ∧ FormatValue (Float.of_Z 3600) (mkUnit UnitTypeSecond "second") = "1 hour"
  ∧ FormatValue (Float.of_Z 604800) (mkUnit UnitTypeSecond "second") = "7 days".
Proof. by vm_compute. Qed.

Example formatDuration_vectors :
  formatDuration (300 * Time.second) = "5 minutes"
  ∧ formatDuration (24 * Time.hour - 100 * Time.second) = "1 day"
  ∧ formatDuration (26 * Time.hour) = "1 day"
  ∧ formatDuration (26 * Time.hour + 31 * Time.minute) = "1 day 3 hours"
  ∧ formatDuration (22 * Time.hour) = "1 day"
  ∧ formatDuration (22 * Time.hour - 25 * Time.minute) = "22 hours"
  ∧ formatDuration (89 * Time.second) = "1 minute 29 seconds"
  ∧ formatDuration (91 * Time.second) = "1 minute 31 seconds"
  ∧ formatDuration (12 * Time.second) = "12 seconds"
  ∧ formatDuration 0 = "0 second"
  ∧ formatDuration (90 * 24 * Time.hour + Time.hour) = "90 days".
Proof. by vm_compute. Qed.
