(* ===== verification/Threshold.v ===== *)
(** The threshold engine (threshold/threshold.go): the soft-period state
    machine of one series, the threshold rules, and the registry that applies
    them to the points. *)
From S2P Require Import Prelude Labels Float64 Points Format.

Local Open Scope string_scope.
Local Open Scope Z_scope.
Import Status.

Definition statusMetricSuffix : string := "_status".
Definition statesTTL : Z := 25 * Time.hour.

(** ** The state of one series *)
Record statusState := mkState {
  CurrentStatus : Status.t;
  CriticalSince : Z;
  WarningSince : Z;
  LastUpdate : Z;
  LastValue : float64;
}.

Definition zeroState : statusState := mkState StatusUnset 0 0 0 Float.zero.

(** [setNewStatus]: the updated state and the critical and warning
    durations. *)
Definition setNewStatus (s : statusState) (newStatus : Status.t) (now : Z)
    : statusState * Z * Z :=
  match newStatus with
  | StatusCritical =>
      let cs := if Time.IsZero (CriticalSince s) then now else CriticalSince s in
      let ws := if Time.IsZero (WarningSince s) then now else WarningSince s in
      (mkState (CurrentStatus s) cs ws (LastUpdate s) (LastValue s),
       Time.Sub now cs, Time.Sub now ws)
  | StatusWarning =>
      let ws := if Time.IsZero (WarningSince s) then now else WarningSince s in
      (mkState (CurrentStatus s) 0 ws (LastUpdate s) (LastValue s),
       0, Time.Sub now ws)
  | _ => (mkState (CurrentStatus s) 0 0 (LastUpdate s) (LastValue s), 0, 0)
  end.

Definition Update (s : statusState) (newStatus : Status.t)
    (warningDelay criticalDelay now : Z) : statusState :=
  let current := if bool_decide (CurrentStatus s = StatusUnset) then newStatus
                 else CurrentStatus s in
  let cs := if Time.After (CriticalSince s) now then 0 else CriticalSince s in
  let ws := if Time.After (WarningSince s) now then 0 else WarningSince s in
  let '(s, criticalDuration, warningDuration) :=
    setNewStatus (mkState current cs ws (LastUpdate s) (LastValue s)) newStatus now in
  let current' :=
    if bool_decide (newStatus = StatusOk) then StatusOk
    else if (negb (criticalDuration =? 0) || bool_decide (newStatus = StatusCritical))
            && (criticalDelay <=? criticalDuration) then StatusCritical
    else if (negb (warningDuration =? 0) || bool_decide (newStatus = StatusWarning))
            && (warningDelay <=? warningDuration) then StatusWarning
    else if bool_decide (CurrentStatus s = StatusCritical)
            && bool_decide (newStatus = StatusWarning) then StatusWarning
    else CurrentStatus s in
  mkState current' (CriticalSince s) (WarningSince s) now (LastValue s).

(** ** Threshold rules *)
Record Threshold := mkThreshold {
  LowCritical : float64;
  LowWarning : float64;
  WarningDelay : Z;
  HighWarning : float64;
  HighCritical : float64;
  CriticalDelay : Z;
}.

(** The zero value of the structure, which a missing map key reads as. *)
Definition zeroThreshold : Threshold :=
  mkThreshold Float.zero Float.zero 0 Float.zero Float.zero 0.

(** The [==] of the structure: field by field. *)
Definition structEq (t other : Threshold) : bool :=
  Float.eqb (LowCritical t) (LowCritical other)
  && Float.eqb (LowWarning t) (LowWarning other)
  && (WarningDelay t =? WarningDelay other)
  && Float.eqb (HighWarning t) (HighWarning other)
  && Float.eqb (HighCritical t) (HighCritical other)
  && (CriticalDelay t =? CriticalDelay other).

(** The test of each bound in [Equal]: it makes the result false. *)
Definition boundDiffers (a b : float64) : bool :=
  negb (Float.eqb a b) && (negb (Float.IsNaN a) || negb (Float.IsNaN b)).

Definition ThresholdEqual (t other : Threshold) : bool :=
  if structEq t other then true
  else if boundDiffers (LowCritical t) (LowCritical other) then false
  else if boundDiffers (LowWarning t) (LowWarning other) then false
  else if boundDiffers (HighWarning t) (HighWarning other) then false
  else if boundDiffers (HighCritical t) (HighCritical other) then false
  else true.

(** The conditions of [Merge]: the other low (high) bound is kept. *)
Definition takeLow (mine other : float64) : bool :=
  Float.IsNaN mine || (negb (Float.IsNaN other) && Float.gtb other mine).
Definition takeHigh (mine other : float64) : bool :=
  Float.IsNaN mine || (negb (Float.IsNaN other) && Float.ltb other mine).

Definition ThresholdMerge (t other : Threshold) : Threshold :=
  let '(lw, wd) := if takeLow (LowWarning t) (LowWarning other)
                   then (LowWarning other, WarningDelay other)
                   else (LowWarning t, WarningDelay t) in
  let '(lc, cd) := if takeLow (LowCritical t) (LowCritical other)
                   then (LowCritical other, CriticalDelay other)
                   else (LowCritical t, CriticalDelay t) in
  let '(hw, wd) := if takeHigh (HighWarning t) (HighWarning other)
                   then (HighWarning other, WarningDelay other)
                   else (HighWarning t, wd) in
  let '(hc, cd) := if takeHigh (HighCritical t) (HighCritical other)
                   then (HighCritical other, CriticalDelay other)
                   else (HighCritical t, cd) in
  mkThreshold lc lw wd hw hc cd.

(** config.Threshold: a nil pointer is a bound that is not configured. *)
Record configThreshold := mkConfigThreshold {
  cfgLowWarning : option float64;
  cfgLowCritical : option float64;
  cfgHighWarning : option float64;
  cfgHighCritical : option float64;
}.

Definition FromConfig (config : configThreshold) (metricName : string)
    (softPeriods : gmap string Z) (defaultSoftPeriod : Z) : Threshold :=
  let delay := default defaultSoftPeriod (softPeriods !! metricName) in
  mkThreshold
    (default Float.NaN (cfgLowCritical config))
    (default Float.NaN (cfgLowWarning config))
    delay
    (default Float.NaN (cfgHighWarning config))
    (default Float.NaN (cfgHighCritical config))
    delay.

Definition ThresholdIsZero (t : Threshold) : bool :=
  if Float.IsNaN (LowCritical t) && Float.IsNaN (LowWarning t)
     && Float.IsNaN (HighWarning t) && Float.IsNaN (HighCritical t) then true
  else Float.eqb (LowCritical t) Float.zero && Float.eqb (LowWarning t) Float.zero
       && Float.eqb (HighWarning t) Float.zero && Float.eqb (HighCritical t) Float.zero.

(** [Threshold.CurrentStatus]: the status of a value and whether it exceeded
    a high bound. *)
Definition thresholdStatus (t : Threshold) (value : float64) : Status.t * bool :=
  if negb (Float.IsNaN (LowCritical t)) && Float.ltb value (LowCritical t) then
    (StatusCritical, false)
  else if negb (Float.IsNaN (LowWarning t)) && Float.ltb value (LowWarning t) then
    (StatusWarning, false)
  else if negb (Float.IsNaN (HighCritical t)) && Float.gtb value (HighCritical t) then
    (StatusCritical, true)
  else if negb (Float.IsNaN (HighWarning t)) && Float.gtb value (HighWarning t) then
    (StatusWarning, true)
  else (StatusOk, false).

(** ** The registry *)
Record Registry := mkRegistry {
  agentID : string;
  states : gmap string statusState;
  units : gmap string Unit;
  thresholds : gmap string Threshold;
  thresholdsAllItem : gmap string Threshold;
}.

Definition setStates (r : Registry) (st : gmap string statusState) : Registry :=
  mkRegistry (agentID r) st (units r) (thresholds r) (thresholdsAllItem r).

(** The saved form of the states (jsonState). *)
Definition jsonState : Type := string * statusState.

(** [New]: [saved] is what [state.Get] returned, [None] on error. *)
Definition NewRegistry (saved : option (list jsonState)) : Registry :=
  mkRegistry ""
    (match saved with
     | Some jsonList => foldl (λ m v, <[v.1 := v.2]> m) ∅ jsonList
     | None => ∅
     end) ∅ ∅ ∅.

(** The metric name of a labels text; the text that does not parse gives a
    nil map, which reads as the empty string. *)
Definition nameOfText (labelsText : string) : string :=
  lget (default ∅ (TextToLabels labelsText)) LabelName.

(** The keys of the thresholds that were replaced by a different one. *)
Definition isChanged (old : gmap string Threshold) (kt : string * Threshold) : bool :=
  match old !! kt.1 with
  | Some o => negb (ThresholdEqual kt.2 o)
  | None => false
  end.

Definition changedKeys (old new : gmap string Threshold) : gset string :=
  dom (filter (λ kt, isChanged old kt = true) new).

Definition resetState (s : statusState) : statusState :=
  mkState StatusUnset 0 0 (LastUpdate s) (LastValue s).

Definition SetThresholds (r : Registry) (agent : string)
    (thresholdWithItem thresholdAllItem : gmap string Threshold) : Registry :=
  let oldThresholds := dom (thresholds r) ∖ dom thresholdWithItem in
  let changedName := changedKeys (thresholdsAllItem r) thresholdAllItem in
  let changedItem := changedKeys (thresholds r) thresholdWithItem in
  mkRegistry agent
    (map_imap (λ labelsText state,
       if bool_decide (labelsText ∈ oldThresholds) then None
       else if bool_decide (labelsText ∈ changedItem)
               || bool_decide (nameOfText labelsText ∈ changedName)
       then Some (resetState state)
       else Some state) (states r))
    (units r) thresholdWithItem thresholdAllItem.

Definition SetUnits (r : Registry) (us : gmap string Unit) : Registry :=
  mkRegistry (agentID r) (states r) us (thresholds r) (thresholdsAllItem r).

Definition GetThresholdMetricNames (r : Registry) : list string :=
  (λ kt, nameOfText kt.1)
    <$> filter (λ kt, ThresholdIsZero kt.2 = false) (map_to_list (thresholds r)).

Definition nanThreshold : Threshold :=
  mkThreshold Float.NaN Float.NaN 0 Float.NaN Float.NaN 0.

Definition getThreshold (r : Registry) (metricName metricKey : string) : Threshold :=
  match thresholds r !! metricKey with
  | Some t => t
  | None =>
      let t := default zeroThreshold (thresholdsAllItem r !! metricName) in
      if ThresholdIsZero t then nanThreshold else t
  end.

Definition GetThreshold (r : Registry) (lbls : Labels) (ann : MetricAnnotations)
    : Threshold :=
  getThreshold r (lget lbls LabelName) (MetricKey lbls ann (agentID r)).

(** ** Snapshots for the user interface *)
Definition SourceConfig : string := "config".
Definition SourceBleemeo : string := "bleemeo".

(** The bounds and delays of an [Entry] are those of the rule. *)
Record Entry := mkEntry {
  enMetricName : string;
  enLabelsText : string;
  enSource : string;
  enThreshold : Threshold;
}.

Definition AllThresholds (r : Registry) : list Entry :=
  ((λ kt, mkEntry kt.1 "" SourceConfig kt.2)
     <$> filter (λ kt, ThresholdIsZero kt.2 = false) (map_to_list (thresholdsAllItem r)))
  ++ ((λ kt, mkEntry (nameOfText kt.1) kt.1 SourceBleemeo kt.2)
     <$> filter (λ kt, ThresholdIsZero kt.2 = false) (map_to_list (thresholds r))).

Definition AllStates (r : Registry) : list (string * string * statusState) :=
  (λ kv, (kv.1, nameOfText kv.1, kv.2)) <$> map_to_list (states r).

(** ** Saving and cleaning *)
Definition getAsJSONList (r : Registry) : list jsonState := map_to_list (states r).

Definition cleanExpired (r : Registry) (now : Z) : Registry :=
  setStates r (filter (λ kv, ¬ statesTTL < Time.Sub now (LastUpdate kv.2)) (states r)).

(** [run]: the registry and, when [save] is set, what is written to the
    persistent state. *)
Definition runOnce (r : Registry) (save : bool) (now : Z)
    : Registry * option (list jsonState) :=
  let r := cleanExpired r now in
  (r, if save then Some (getAsJSONList r) else None).

(** ** Applying thresholds *)
Definition percToAlt : gmap string string :=
  {[ "kubernetes_certificate_left_perc" := "kubernetes_certificate_day_left" ]}.

Definition zeroUnit : Unit := mkUnit 0 "".

(** The alternative metric of a point: its key and the input point that
    carries it. *)
Definition alternative (r : Registry) (inputPoints : list MetricPoint)
    (point : MetricPoint) : string * option MetricPoint :=
  match percToAlt !! lget (mpLabels point) LabelName with
  | Some altName =>
      let labelsMapAlt := <[LabelName := altName]> (mpLabels point) in
      (MetricKey labelsMapAlt (mpAnnotations point) (agentID r),
       snd <$> list_find (λ pts, mpLabels pts = labelsMapAlt) inputPoints)
  | None => ("", None)
  end.

(** The bound named in the description. *)
Definition thresholdLimit (t : Threshold) (high : bool) (s : Status.t) : float64 :=
  match high, s with
  | true, StatusCritical => HighCritical t
  | true, StatusWarning => HighWarning t
  | false, StatusCritical => LowCritical t
  | false, StatusWarning => LowWarning t
  | _, _ => Float.NaN
  end.

Definition describe (r : Registry) (inputPoints : list MetricPoint)
    (point : MetricPoint) (t : Threshold) (metricKey : string) (high : bool)
    (current : Status.t) : string :=
  let '(metricKeyAlt, pointAlt) := alternative r inputPoints point in
  let unit := default zeroUnit (units r !! metricKey) in
  let unitAlt := default zeroUnit (units r !! metricKeyAlt) in
  let description :=
    match pointAlt with
    | Some alt =>
        if bool_decide (metricKeyAlt ≠ "") then
          "Current value: " +:+ FormatValueAlt (mpValue point) unit (mpValue alt) unitAlt
        else "Current value: " +:+ FormatValue (mpValue point) unit
    | None => "Current value: " +:+ FormatValue (mpValue point) unit
    end in
  if bool_decide (current ≠ StatusOk) then
    let limit := FormatValue (thresholdLimit t high current) unit in
    if bool_decide (current = StatusWarning) && (0 <? WarningDelay t) then
      description +:+ " threshold (" +:+ limit +:+ ") exceeded over last "
        +:+ formatDuration (WarningDelay t)
    else if bool_decide (current = StatusCritical) && (0 <? CriticalDelay t) then
      description +:+ " threshold (" +:+ limit +:+ ") exceeded over last "
        +:+ formatDuration (CriticalDelay t)
    else description +:+ " threshold (" +:+ limit +:+ ") exceeded"
  else description.

Definition withValue (s : statusState) (v : float64) : statusState :=
  mkState (CurrentStatus s) (CriticalSince s) (WarningSince s) (LastUpdate s) v.

Definition addPointWithThreshold (r : Registry) (now : Z)
    (inputPoints : list MetricPoint) (point : MetricPoint) (t : Threshold)
    (metricKey : string) : Registry * MetricPoint * MetricPoint :=
  let '(softStatus, highThreshold) := thresholdStatus t (mpValue point) in
  let previousState := default zeroState (states r !! metricKey) in
  let newState :=
    withValue (Update previousState softStatus (WarningDelay t) (CriticalDelay t) now)
      (mpValue point) in
  let r' := setStates r (<[metricKey := newState]> (states r)) in
  let status :=
    mkStatusDescription (CurrentStatus newState)
      (describe r inputPoints point t metricKey highThreshold (CurrentStatus newState)) in
  let annotationsCopy := set_status (mpAnnotations point) status in
  let newPoint := mkMetricPoint (mpPoint point) (mpLabels point) annotationsCopy in
  let labelsCopy :=
    <[LabelName := lget (mpLabels point) LabelName +:+ statusMetricSuffix]>
      (mpLabels point) in
  let newStatusPoint :=
    mkMetricPoint
      (mkPoint (mpTime point) (Float.of_Z (NagiosCode (CurrentStatus newState))))
      labelsCopy
      (set_status_of annotationsCopy (lget (mpLabels point) LabelName)) in
  (r', newPoint, newStatusPoint).

(** The loop of [ApplyThresholds] over the points left; [clock i] is the
    reading of [nowFunc] for the point at position [i]. *)
Fixpoint ApplyThresholds_loop (clock : nat → Z) (i : nat) (r : Registry)
    (points todo : list MetricPoint)
    : Registry * list MetricPoint * list MetricPoint :=
  match todo with
  | [] => (r, [], [])
  | point :: todo' =>
      let metricKey := MetricKey (mpLabels point) (mpAnnotations point) (agentID r) in
      let t := getThreshold r (lget (mpLabels point) LabelName) metricKey in
      if negb (IsSet (sdCurrentStatus (AnnStatus (mpAnnotations point))))
         && negb (ThresholdIsZero t) && negb (Float.IsNaN (mpValue point)) then
        let '(r, newPoint, newStatusPoint) :=
          addPointWithThreshold r (clock i) points point t metricKey in
        let '(r, newPoints, statusPoints) :=
          ApplyThresholds_loop clock (S i) r points todo' in
        (r, newPoint :: newPoints, newStatusPoint :: statusPoints)
      else
        let '(r, newPoints, statusPoints) :=
          ApplyThresholds_loop clock (S i) r points todo' in
        (r, point :: newPoints, statusPoints)
  end.

Definition ApplyThresholds (clock : nat → Z) (r : Registry)
    (points : list MetricPoint) : Registry * list MetricPoint * list MetricPoint :=
  ApplyThresholds_loop clock 0 r points points.

(** * Theorems *)

(** ** The soft period, against the history of a series

    A history is the list of the soft statuses a series went through with the
    time of each evaluation, newest first. *)
Definition history : Type := list (Status.t * Z).

Definition isCritical (s : Status.t) : bool := bool_decide (s = StatusCritical).
Definition isAbnormal (s : Status.t) : bool :=
  bool_decide (s = StatusCritical) || bool_decide (s = StatusWarning).

(** What a threshold evaluates to. *)
Definition soft (s : Status.t) : Prop :=
  s = StatusOk ∨ s = StatusWarning ∨ s = StatusCritical.

(** When the run of evaluations satisfying [P] that is still going on started;
    0 when the newest one does not satisfy [P]. *)
Fixpoint runStart (P : Status.t → bool) (h : history) : Z :=
  match h with
  | [] => 0
  | (s, t) :: h' =>
      if P s then (if runStart P h' =? 0 then t else runStart P h') else 0
  end.

(** Times never go back and are after the zero time. *)
Fixpoint chronological (h : history) : Prop :=
  match h with
  | [] => True
  | (_, t) :: h' =>
      0 < t ∧ (match h' with (_, t') :: _ => t' ≤ t | [] => True end) ∧ chronological h'
  end.

Definition lastTime (h : history) : Z := match h with [] => 0 | (_, t) :: _ => t end.

Lemma runStart_bounds (P : Status.t → bool) (h : history) :
  chronological h → 0 ≤ runStart P h ≤ lastTime h.
Proof.
  induction h as [|[s t] h IH]; simpl; [lia|]. intros (Ht & Hle & Hh).
  specialize (IH Hh). destruct (P s); [|lia].
  destruct (Z.eqb_spec (runStart P h) 0); [lia|].
  destruct h as [|[s' t'] h]; simpl in *; lia.
Qed.

Section SoftPeriod.
Context (wd cd : Z) (Hwd : 0 ≤ wd ≤ Int.maxInt64) (Hcd : 0 ≤ cd ≤ Int.maxInt64).

(** The state after a history, from a fresh series with status [s0]. *)
Fixpoint observe (s0 : Status.t) (h : history) : statusState :=
  match h with
  | [] => mkState s0 0 0 0 Float.zero
  | (s, t) :: h' => Update (observe s0 h') s wd cd t
  end.

Lemma observe_since (s0 : Status.t) (h : history) :
  chronological h → Forall (λ st, soft st.1) h →
  CriticalSince (observe s0 h) = runStart isCritical h
  ∧ WarningSince (observe s0 h) = runStart isAbnormal h.
Proof.
  induction h as [|[s t] h IH]; intros Hc Hs; [done|].
  apply Forall_cons in Hs as [Hsoft Hs]. simpl in Hsoft.
  destruct Hc as (Ht & Hle & Hc). destruct (IH Hc Hs) as [IH1 IH2].
  pose proof (runStart_bounds isCritical h Hc) as Hb1.
  pose proof (runStart_bounds isAbnormal h Hc) as Hb2.
  assert (lastTime h ≤ t) as Hlt by (destruct h as [|[??]?]; simpl in *; lia).
  simpl. unfold Update. rewrite IH1, IH2. unfold Time.After.
  rewrite (proj2 (Z.ltb_ge _ _)) by lia. rewrite (proj2 (Z.ltb_ge _ _)) by lia.
  destruct Hsoft as [->|[->| ->]]; done.
Qed.

(** One evaluation, with the durations read from the history. *)
Lemma observe_status (s0 s : Status.t) (t : Z) (h : history) :
  chronological ((s, t) :: h) → Forall (λ st, soft st.1) ((s, t) :: h) →
  let prev := if bool_decide (CurrentStatus (observe s0 h) = StatusUnset) then s
              else CurrentStatus (observe s0 h) in
  let crit := t - runStart isCritical ((s, t) :: h) in
  let warn := t - runStart isAbnormal ((s, t) :: h) in
  CurrentStatus (observe s0 ((s, t) :: h)) =
    match s with
    | StatusCritical =>
        if cd <=? crit then StatusCritical
        else if negb (warn =? 0) && (wd <=? warn) then StatusWarning
        else prev
    | StatusWarning =>
        if wd <=? warn then StatusWarning
        else if bool_decide (prev = StatusCritical) then StatusWarning else prev
    | _ => StatusOk
    end.
Proof.
  intros Hc Hs. pose proof (observe_since s0 _ Hc Hs) as [HC HW].
  pose proof (runStart_bounds isCritical _ Hc) as Hb1.
  pose proof (runStart_bounds isAbnormal _ Hc) as Hb2. simpl lastTime in *.
  set (rc := runStart isCritical ((s, t) :: h)) in *.
  set (rw := runStart isAbnormal ((s, t) :: h)) in *.
  assert (∀ u d, 0 ≤ u ≤ t → 0 ≤ d ≤ Int.maxInt64 →
    (d <=? Time.Sub t u) = (d <=? t - u)) as HS1.
  { intros u d Hu Hd. unfold Time.Sub, Int.minInt64, Int.maxInt64 in *. lia. }
  assert (∀ u, 0 ≤ u ≤ t → (Time.Sub t u =? 0) = (t - u =? 0)) as HS2.
  { intros u Hu. unfold Time.Sub, Int.minInt64, Int.maxInt64 in *. lia. }
  apply Forall_cons in Hs as [Hsoft _]. simpl in Hsoft.
  cbn [observe] in *. unfold Update in *.
  destruct Hsoft as [->|[->| ->]]; simpl in *; [done| |].
  - rewrite HW, HS1 by lia. unfold rw.
    by rewrite orb_true_r, andb_true_r.
  - rewrite HC, HW, !HS1, !HS2 by lia. rewrite orb_true_r, orb_false_r. simpl.
    by rewrite andb_false_r.
Qed.

Lemma observe_soft (s0 s : Status.t) (t : Z) (h : history) :
  s0 = StatusUnset ∨ s0 = StatusOk → Forall (λ st, soft st.1) ((s, t) :: h) → chronological ((s, t) :: h) →
  soft (CurrentStatus (observe s0 ((s, t) :: h))).
Proof.
  intros H0. revert s t. induction h as [|[s' t'] h IH]; intros s t Hs Hc; rewrite observe_status by done.
  - apply Forall_cons in Hs as [Hs _]. cbn [observe CurrentStatus fst] in *. destruct H0 as [->| ->]; unfold soft in *; destruct s; go_cases; tauto.
  - assert (soft (CurrentStatus (observe s0 ((s', t') :: h)))) as Hsoft
      by (apply Forall_cons in Hs as [_ Hs]; destruct Hc as (_ & _ & Hc); auto).
    rewrite (bool_decide_eq_false_2 (_ = StatusUnset)) by (intros Hu; rewrite Hu in Hsoft; by destruct Hsoft as [?|[?|?]]).
    unfold soft in *. destruct s; go_cases; tauto.
Qed.

Lemma runStart_tail (P : Status.t → bool) (s : Status.t) (t : Z) (h : history) :
  P s = true → runStart P h ≠ 0 → runStart P ((s, t) :: h) = runStart P h.
Proof. intros Hp Hr. simpl. rewrite Hp. by rewrite (proj2 (Z.eqb_neq _ _) Hr). Qed.

Lemma runStart_head (P : Status.t → bool) (s : Status.t) (t : Z) (h : history) :
  chronological ((s, t) :: h) → P s = true → 0 < runStart P ((s, t) :: h).
Proof.
  intros (Ht & _ & Hc) Hp. pose proof (runStart_bounds P h Hc). simpl.
  rewrite Hp. destruct (Z.eqb_spec (runStart P h) 0); lia.
Qed.

Lemma runStart_critical_abnormal (h : history) :
  chronological h → runStart isCritical h ≠ 0 →
  runStart isAbnormal h ≠ 0 ∧ runStart isAbnormal h ≤ runStart isCritical h.
Proof.
  induction h as [|[s t] h IH]; intros Hc Hr; [done|].
  pose proof (runStart_bounds isAbnormal _ Hc) as Hb.
  destruct Hc as (Ht & Hle & Hc). specialize (IH Hc).
  pose proof (runStart_bounds isAbnormal h Hc) as Hb'.
  simpl in Hr, Hb |- *. destruct s; try done. simpl in *.
  destruct (Z.eqb_spec (runStart isCritical h) 0),
    (Z.eqb_spec (runStart isAbnormal h) 0);
    destruct h as [|[??]?]; simpl lastTime in *; lia.
Qed.

(** The induction step on plain values: [prev] is the status after the tail of
    the history, [rc'], [ra'] its run starts; [fc] and [fa] say that the runs reach back to the first evaluation of the series. *)
Lemma soft_period_step (s prev after : Status.t) (t t' rc ra rc' ra' : Z) (fc fa : Prop) :
  soft s → t' ≤ t → ra ≤ t →
  after = match s with
    | StatusCritical =>
        if cd <=? t - rc then StatusCritical
        else if negb (t - ra =? 0) && (wd <=? t - ra) then StatusWarning
        else prev
    | StatusWarning =>
        if wd <=? t - ra then StatusWarning
        else if bool_decide (prev = StatusCritical) then StatusWarning else prev
    | _ => StatusOk
    end →
  (s = StatusCritical → ra ≤ rc) →
  (prev = StatusCritical →
     (cd ≤ t' - rc' ∧ ra' ≤ rc' ∧ (isAbnormal s = true → ra = ra') ∧ (s = StatusCritical → rc = rc')) ∨
     ((s = StatusCritical → fc) ∧ (isAbnormal s = true → fa))) →
  (prev ≠ StatusOk →
     (Z.min wd cd ≤ t' - ra' ∧ (isAbnormal s = true → ra = ra')) ∨ (isAbnormal s = true → fa)) →
  (fc → s = StatusCritical → t - ra = 0 ∨ t - ra < wd → prev = StatusCritical) → (fa → isAbnormal s = true → prev ≠ StatusOk) →
  (after = StatusCritical ↔ s = StatusCritical ∧ (cd ≤ t - rc ∨ fc ∧ (t - ra = 0 ∨ t - ra < wd)))
  ∧ (after ≠ StatusOk → isAbnormal s = true ∧ (Z.min wd cd ≤ t - ra ∨ fa))
  ∧ (isAbnormal s = true → (0 < t - ra ∧ wd ≤ t - ra) ∨ fa → after ≠ StatusOk).
Proof.
  intros Hs Hle Hra -> Hrc HC HW Hfc Hfa.
  destruct Hs as [->|[->| ->]].
  - split_and!; [split; [done|intros [? _]; done]|done|done].
  - assert (isAbnormal StatusWarning = true) as Ha by done.
    destruct (Z.leb_spec wd (t - ra)).
    { split_and!; [split; [done|intros [? _]; done]|intros; split; [done|left; lia]|done]. }
    case_bool_decide as Hp.
    { split_and!; [split; [done|intros [? _]; done]| |done]. intros _. split; [done|].
      destruct (HC Hp) as [(? & ? & Heq & _)|[_ Hf]]; [left; rewrite (Heq Ha) in *; lia|right; auto]. }
    split_and!; [split; [done|intros [? _]; done]| |].
    + intros Hne. split; [done|]. destruct (HW Hne) as [[? Heq]|Hf]; [left; rewrite (Heq Ha) in *; lia|right; auto].
    + intros _ [[_ ?]|Hf]; [lia|auto].
  - assert (isAbnormal StatusCritical = true) as Ha by done.
    specialize (Hrc eq_refl).
    destruct (Z.leb_spec cd (t - rc)).
    { split_and!; [split; [by split; [|left]|done]|intros; split; [done|left; lia]|done]. }
    destruct (decide (0 < t - ra ∧ wd ≤ t - ra)) as [[H1 H2]|Hno].
    { rewrite (proj2 (Z.eqb_neq _ _)), (proj2 (Z.leb_le _ _)) by lia. simpl.
      split_and!; [split; [done|intros [_ [?|[_ [?|?]]]]; lia]|intros; split; [done|left; lia]|done]. }
    assert (negb (t - ra =? 0) && (wd <=? t - ra) = false) as -> by (destruct (Z.eqb_spec (t - ra) 0); simpl; lia).
    split_and!; [split| |].
    + intros Hp. split; [done|]. destruct (HC Hp) as [(? & ? & _ & Heq)|[Hf _]]; [rewrite (Heq eq_refl) in *; lia|right; split; [auto|lia]].
    + intros [_ [?|[Hf Hw]]]; [lia|]. by apply Hfc.
    + intros Hne. split; [done|]. destruct (HW Hne) as [[? Heq]|Hf]; [left; rewrite (Heq Ha) in *; lia|right; auto].
    + intros _ [?|Hf]; [lia|auto].
Qed.

(** A run that reaches back to the first evaluation of a series without a status. *)
Definition sinceFirst (s0 : Status.t) (P : Status.t → bool) (h : history) : Prop := s0 = StatusUnset ∧ Forall (λ st, P st.1 = true) h.

(** C24. The soft period, for a series that is new or whose thresholds were changed ([StatusUnset]), or that is Ok, evaluated at times that
    never go back.  The engine reports Critical exactly when the newest evaluation ends a run of critical
    ones that lasted the critical delay, or that began with the first evaluation of a series without a status and lasted less than the warning delay (the
    first status is reported at once); it leaves Ok only after a run of
    abnormal evaluations that lasted the shorter delay or began with that first evaluation; and a run of abnormal evaluations that
    lasted the warning delay, or began with that first evaluation, is always reported. *)
Theorem soft_period (s0 s : Status.t) (t : Z) (h : history) :
  s0 = StatusUnset ∨ s0 = StatusOk → chronological ((s, t) :: h) → Forall (λ st, soft st.1) ((s, t) :: h) →
  let after := CurrentStatus (observe s0 ((s, t) :: h)) in
  let crit := t - runStart isCritical ((s, t) :: h) in
  let abnormal := t - runStart isAbnormal ((s, t) :: h) in
  (after = StatusCritical ↔
     s = StatusCritical ∧ (cd ≤ crit ∨ sinceFirst s0 isCritical ((s, t) :: h) ∧ (abnormal = 0 ∨ abnormal < wd)))
  ∧ (after ≠ StatusOk → isAbnormal s = true ∧ (Z.min wd cd ≤ abnormal ∨ sinceFirst s0 isAbnormal ((s, t) :: h)))
  ∧ (isAbnormal s = true → (0 < abnormal ∧ wd ≤ abnormal) ∨ sinceFirst s0 isAbnormal ((s, t) :: h) → after ≠ StatusOk).
Proof.
  intros H0. revert s t. induction h as [|[s' t'] h IH]; intros s t Hc Hs.
  - pose proof (runStart_bounds isAbnormal _ Hc).
    pose proof (runStart_critical_abnormal _ Hc).
    pose proof (runStart_head isCritical _ _ _ Hc).
    assert (soft s) as Hsoft by by inversion Hs.
    apply (soft_period_step s (if bool_decide (s0 = StatusUnset) then s else s0) _ t 0 _ _ 0 0); simpl lastTime in *; try done.
    + destruct Hc; simpl; lia.
    + lia.
    + by apply observe_status.
    + intros ->. specialize (H2 eq_refl). lia.
    + intros Hp. right. destruct H0 as [->| ->]; [|done]. rewrite bool_decide_true in Hp by done. subst s. split; intros _; (split; [done|by repeat constructor]).
    + intros Hp. right. destruct H0 as [->| ->]; [|done]. intros Ha. split; [done|]. by repeat constructor.
    + intros [-> _] -> _. by rewrite bool_decide_true.
    + intros [-> _] Ha. rewrite bool_decide_true by done. by intros ->.
  - assert (chronological ((s', t') :: h)) as Hc' by apply Hc.
    assert (t' ≤ t) as Hle by apply Hc.
    assert (Forall (λ st, soft st.1) ((s', t') :: h)) as Hs' by (by inversion Hs).
    pose proof (observe_soft s0 s' t' h H0 Hs' Hc') as Hprev.
    pose proof (runStart_bounds isAbnormal _ Hc') as Hb'. simpl lastTime in Hb'.
    destruct (IH s' t' Hc' Hs') as (IH1 & IH2 & IH3).
    assert (∀ P, P s' = true → P s = true → runStart P ((s, t) :: (s', t') :: h) = runStart P ((s', t') :: h)) as Htail.
    { intros P Hp' Hp. apply runStart_tail; [done|]. pose proof (runStart_head P _ _ _ Hc' Hp'). lia. }
    assert (∀ P, sinceFirst s0 P ((s', t') :: h) → P s = true → sinceFirst s0 P ((s, t) :: (s', t') :: h)) as Hext by (intros P [? ?] ?; split; [done|by constructor]).
    apply (soft_period_step s (CurrentStatus (observe s0 ((s', t') :: h))) _
             t t' _ _ (runStart isCritical ((s', t') :: h))
             (runStart isAbnormal ((s', t') :: h))); [by inversion Hs|done|..].
    + apply (runStart_bounds isAbnormal _ Hc).
    + rewrite (observe_status s0 s t _ Hc Hs).
      rewrite (bool_decide_eq_false_2 (_ = StatusUnset)); [done|].
      intros Hu. rewrite Hu in Hprev. by destruct Hprev as [?|[?|?]].
    + intros ->. pose proof (runStart_head isCritical _ _ _ Hc eq_refl).
      apply runStart_critical_abnormal; [done|lia].
    + intros Hp. apply IH1 in Hp as [-> [Hcd'|[Hf _]]].
      * left. pose proof (runStart_head isCritical _ _ _ Hc' eq_refl).
        split_and!; [done|apply runStart_critical_abnormal; [done|lia]|..]; intros Ha; apply Htail; (done || by subst s).
      * right. split; [intros ->; by apply Hext|]. intros Ha. apply Hext; [|done]. destruct Hf as [? Hf]. split; [done|]. eapply Forall_impl; [exact Hf|]. by intros [[] ?].
    + intros Hp. apply IH2 in Hp as [Ha' [Hmin|Hf]]; [left|right; intros Ha; by apply Hext]. split; [done|]. intros Ha. by apply Htail.
    + intros [Hu Hf] -> Hw. apply Forall_cons in Hf as [_ Hf]. assert (s' = StatusCritical) as -> by (apply Forall_cons in Hf as [Hf _]; by destruct s').
      apply IH1. split; [done|]. right. split; [done|]. rewrite (Htail isAbnormal eq_refl eq_refl) in Hw. lia.
    + intros [Hu Hf] Ha. apply Forall_cons in Hf as [_ Hf]. apply IH3; [by apply Forall_cons in Hf as [Hf _]|by right].
Qed.

End SoftPeriod.

Definition sample_history : history :=
  [ (StatusCritical, 700 * Time.second); (StatusCritical, 400 * Time.second);
    (StatusCritical, 100 * Time.second); (StatusOk, 50 * Time.second) ].

Lemma soft_period_witness :
  CurrentStatus (observe (300 * Time.second) (300 * Time.second) StatusUnset sample_history)
  = StatusCritical.
Proof.
  refine (proj2 (proj1 (soft_period (300 * Time.second) (300 * Time.second) _ _
    StatusUnset StatusCritical (700 * Time.second) (tail sample_history) _ _ _)) _).
  - by vm_compute.
  - by vm_compute.
  - by left.
  - by vm_compute.
  - repeat constructor; unfold soft; simpl; tauto.
  - split; [done|]. left. by vm_compute.
Defined.

(** ** Threshold rules *)
Definition severity (s : Status.t) : Z :=
  match s with StatusCritical => 2 | StatusWarning => 1 | _ => 0 end.

Definition mergedLow (mine other : float64) : float64 :=
  if takeLow mine other then other else mine.
Definition mergedHigh (mine other : float64) : float64 :=
  if takeHigh mine other then other else mine.

Lemma ltb_mergedLow (v a b : float64) :
  Float.ltb v (mergedLow a b) = Float.ltb v a || Float.ltb v b.
Proof.
  unfold mergedLow, takeLow, Float.gtb, Float.ltb.
  destruct (Float.IsNaN a) eqn:Ha, (Float.IsNaN b) eqn:Hb, (Float.IsNaN v) eqn:Hv;
    destruct (Z.ltb_spec (Float.key a) (Float.key b)); simpl;
    rewrite ?Ha, ?Hb; simpl; lia.
Qed.

Lemma gtb_mergedHigh (v a b : float64) :
  Float.gtb v (mergedHigh a b) = Float.gtb v a || Float.gtb v b.
Proof.
  unfold mergedHigh, takeHigh, Float.gtb, Float.ltb.
  destruct (Float.IsNaN a) eqn:Ha, (Float.IsNaN b) eqn:Hb, (Float.IsNaN v) eqn:Hv;
    destruct (Z.ltb_spec (Float.key b) (Float.key a)); simpl;
    rewrite ?Ha, ?Hb; simpl; lia.
Qed.

Lemma ThresholdMerge_bounds (t o : Threshold) :
  LowCritical (ThresholdMerge t o) = mergedLow (LowCritical t) (LowCritical o)
  ∧ LowWarning (ThresholdMerge t o) = mergedLow (LowWarning t) (LowWarning o)
  ∧ HighWarning (ThresholdMerge t o) = mergedHigh (HighWarning t) (HighWarning o)
  ∧ HighCritical (ThresholdMerge t o) = mergedHigh (HighCritical t) (HighCritical o).
Proof.
  unfold ThresholdMerge, mergedLow, mergedHigh.
  destruct (takeLow (LowWarning t) _), (takeLow (LowCritical t) _),
    (takeHigh (HighWarning t) _), (takeHigh (HighCritical t) _); done.
Qed.

(** The NaN guards of [CurrentStatus] are implied by its comparisons. *)
Lemma thresholdStatus_tests (t : Threshold) (v : float64) :
  thresholdStatus t v =
  if Float.ltb v (LowCritical t) then (StatusCritical, false)
  else if Float.ltb v (LowWarning t) then (StatusWarning, false)
  else if Float.gtb v (HighCritical t) then (StatusCritical, true)
  else if Float.gtb v (HighWarning t) then (StatusWarning, true)
  else (StatusOk, false).
Proof.
  assert (∀ a b, negb (Float.IsNaN b) && Float.ltb a b = Float.ltb a b) as H1.
  { intros a b. unfold Float.ltb. by destruct (Float.IsNaN b), (Float.IsNaN a). }
  assert (∀ a b, negb (Float.IsNaN b) && Float.gtb a b = Float.gtb a b) as H2.
  { intros a b. unfold Float.gtb, Float.ltb. by destruct (Float.IsNaN b), (Float.IsNaN a). }
  unfold thresholdStatus. by rewrite !H1, !H2.
Qed.

(** The severity of the first test that holds, and that of the tests of two thresholds taken together. *)
Definition testedSeverity (lc lw hc hw : bool) : Z :=
  severity (if lc then (StatusCritical, false) else if lw then (StatusWarning, false) else if hc then (StatusCritical, true)
            else if hw then (StatusWarning, true) else (StatusOk, false)).1.

Lemma testedSeverity_or (lc lc' lw lw' hc hc' hw hw' : bool) :
  let merged := testedSeverity (lc || lc') (lw || lw') (hc || hc') (hw || hw') in
  (merged = 0 ↔ testedSeverity lc lw hc hw = 0 ∧ testedSeverity lc' lw' hc' hw' = 0) ∧
  ((lw || lw') && (hc || hc') = false → merged = Z.max (testedSeverity lc lw hc hw) (testedSeverity lc' lw' hc' hw')).
Proof.
  destruct lc, lc', lw, lw', hc, hc', hw, hw'; vm_compute;
    (split; [split; [intros ?; by split|by intros [? ?]]|done]).
Qed.

(** Merging two thresholds keeps the stricter conditions: a value is
    reported abnormal by the merged rule exactly when one of the two rules
    reports it; and, unless the merged low-warning bound passed the merged
    high-critical one, with the worse of the two severities. *)
Theorem ThresholdMerge_stricter (t o : Threshold) (v : float64) :
  let sev r := severity (thresholdStatus r v).1 in
  (sev (ThresholdMerge t o) = 0 ↔ sev t = 0 ∧ sev o = 0)
  ∧ (Float.ltb (HighCritical (ThresholdMerge t o)) (LowWarning (ThresholdMerge t o)) = false →
     sev (ThresholdMerge t o) = Z.max (sev t) (sev o)).
Proof.
  intros sev. unfold sev. rewrite !thresholdStatus_tests.
  destruct (ThresholdMerge_bounds t o) as (H1 & H2 & H3 & H4).
  assert (Float.ltb v (LowWarning (ThresholdMerge t o)) = true →
          Float.gtb v (HighCritical (ThresholdMerge t o)) = true →
          Float.ltb (HighCritical (ThresholdMerge t o)) (LowWarning (ThresholdMerge t o)) = true)
    as Hcross by (intros Ha Hb; by apply (ltb_trans _ v)).
  rewrite H1, H2, H3, H4 in *.
  rewrite !ltb_mergedLow, !gtb_mergedHigh in *.
  destruct (testedSeverity_or (Float.ltb v (LowCritical t)) (Float.ltb v (LowCritical o)) (Float.ltb v (LowWarning t))
    (Float.ltb v (LowWarning o)) (Float.gtb v (HighCritical t)) (Float.gtb v (HighCritical o)) (Float.gtb v (HighWarning t))
    (Float.gtb v (HighWarning o))) as [Hz Hm].
  split; [exact Hz|]. intros Hc. apply Hm. apply not_true_is_false. intros [Ha Hb]%andb_true_iff. by rewrite Hcross in Hc.
Qed.

Definition sample_threshold : Threshold :=
  mkThreshold Float.NaN Float.NaN (300 * Time.second)
    (Float.of_Z 80) (Float.of_Z 90) (300 * Time.second).
Definition sample_threshold2 : Threshold :=
  mkThreshold (Float.of_Z 5) (Float.of_Z 10) 0 Float.NaN (Float.of_Z 85) 0.

Lemma ThresholdMerge_stricter_witness :
  severity (thresholdStatus (ThresholdMerge sample_threshold sample_threshold2)
              (Float.of_Z 88)).1 = 2.
Proof.
  rewrite (proj2 (ThresholdMerge_stricter sample_threshold sample_threshold2 (Float.of_Z 88)));
    by vm_compute.
Defined.

(** ** Configuration changes *)
Definition sameBound (a b : float64) : bool :=
  Float.eqb a b || (Float.IsNaN a && Float.IsNaN b).

Lemma sameBound_refl (a : float64) : sameBound a a = true.
Proof.
  unfold sameBound, Float.eqb. rewrite Z.eqb_refl. by destruct (Float.IsNaN a).
Qed.

Lemma boundDiffers_same (a b : float64) : boundDiffers a b = negb (sameBound a b).
Proof.
  unfold boundDiffers, sameBound. destruct (Float.eqb a b); simpl; [done|].
  by rewrite negb_andb.
Qed.

(** Two rules are equal for the engine when their bounds are, unset bounds
    included; the delays do not take part. *)
Lemma ThresholdEqual_bounds (t o : Threshold) :
  ThresholdEqual t o =
  sameBound (LowCritical t) (LowCritical o) && sameBound (LowWarning t) (LowWarning o)
  && sameBound (HighWarning t) (HighWarning o)
  && sameBound (HighCritical t) (HighCritical o).
Proof.
  unfold ThresholdEqual. rewrite !boundDiffers_same.
  destruct (structEq t o) eqn:He.
  - unfold structEq in He. rewrite !andb_true_iff in He.
    destruct He as [[[[[H1 H2] _] H3] H4] _]. unfold sameBound. by rewrite H1, H2, H3, H4.
  - by destruct (sameBound (LowCritical t) _), (sameBound (LowWarning t) _),
      (sameBound (HighWarning t) _), (sameBound (HighCritical t) _).
Qed.

Lemma ThresholdEqual_refl (t : Threshold) : ThresholdEqual t t = true.
Proof. by rewrite ThresholdEqual_bounds, !sameBound_refl. Qed.

Lemma changedKeys_elem (old new : gmap string Threshold) (k : string) :
  k ∈ changedKeys old new ↔
  ∃ o n, old !! k = Some o ∧ new !! k = Some n ∧ ThresholdEqual n o = false.
Proof.
  unfold changedKeys. rewrite elem_of_dom. unfold is_Some.
  setoid_rewrite map_lookup_filter_Some. unfold isChanged. simpl.
  split.
  - intros [n [Hn Hc]]. destruct (old !! k) as [o|]; [|done].
    apply negb_true_iff in Hc. eauto.
  - intros (o & n & Ho & Hn & Hne). exists n. rewrite Ho, Hne. done.
Qed.

Lemma changedKeys_same (m : gmap string Threshold) : changedKeys m m = ∅.
Proof.
  apply set_eq. intros k. rewrite changedKeys_elem. split; [|set_solver].
  intros (o & n & Ho & Hn & Hne). simplify_eq. by rewrite ThresholdEqual_refl in Hne.
Qed.

(** What a configuration change does to the soft-period states: a series
    whose own threshold is removed loses its state, a series for which the
    rule by item or the rule by name changed restarts from the unset status
    (so the new rule applies at once), and every other series keeps its state;
    in particular setting the same thresholds again disturbs nothing, even
    with unset (NaN) bounds. *)
Theorem SetThresholds_states (r : Registry) (agent : string)
    (withItem allItem : gmap string Threshold) (k : string) (s : statusState) :
  states r !! k = Some s →
  let r' := SetThresholds r agent withItem allItem in
  let changed := k ∈ changedKeys (thresholds r) withItem
                 ∨ nameOfText k ∈ changedKeys (thresholdsAllItem r) allItem in
  (k ∈ dom (thresholds r) → k ∉ dom withItem → states r' !! k = None)
  ∧ (k ∉ dom (thresholds r) ∨ k ∈ dom withItem → changed →
     states r' !! k = Some (resetState s))
  ∧ (k ∉ dom (thresholds r) ∨ k ∈ dom withItem → ¬ changed →
     states r' !! k = Some s)
  ∧ states (SetThresholds r agent (thresholds r) (thresholdsAllItem r)) = states r.
Proof.
  intros Hs r' changed. unfold r', changed. simpl.
  rewrite !map_lookup_imap, Hs. simpl. split_and!.
  - intros H1 H2. rewrite bool_decide_eq_true_2 by set_solver. done.
  - intros H1 H2. rewrite bool_decide_eq_false_2 by set_solver.
    destruct H2; [rewrite (bool_decide_eq_true_2 (k ∈ _)) by done; done|].
    rewrite (bool_decide_eq_true_2 (nameOfText k ∈ _)) by done. by rewrite orb_true_r.
  - intros H1 H2. rewrite bool_decide_eq_false_2 by set_solver.
    rewrite !bool_decide_eq_false_2 by tauto. done.
  - apply map_eq. intros i. rewrite map_lookup_imap, !changedKeys_same.
    rewrite bool_decide_eq_false_2 by set_solver.
    rewrite !bool_decide_eq_false_2 by set_solver. by destruct (states r !! i).
Qed.

Definition cpu_key : string := MetricKey {[ LabelName := "cpu_used" ]} zeroAnnotations "agent-1".

Definition sample_registry : Registry :=
  mkRegistry "agent-1"
    {[ cpu_key := mkState StatusCritical 100 100 700 (Float.of_Z 95) ]}
    ∅ ∅ {[ "cpu_used" := sample_threshold ]}.

Lemma SetThresholds_states_witness :
  states (SetThresholds sample_registry "agent-1" ∅ {[ "cpu_used" := sample_threshold2 ]})
    !! cpu_key = Some (mkState StatusUnset 0 0 700 (Float.of_Z 95)).
Proof.
  refine (proj1 (proj2 (SetThresholds_states sample_registry "agent-1" ∅
    {[ "cpu_used" := sample_threshold2 ]} cpu_key
    (mkState StatusCritical 100 100 700 (Float.of_Z 95)) _)) _ _).
  - by vm_compute.
  - left. by vm_compute.
  - right. apply changedKeys_elem. exists sample_threshold, sample_threshold2. by vm_compute.
Defined.

(** ** Persistence *)
Lemma foldl_insert_list_to_map {A} (l : list (string * A)) :
  NoDup l.*1 → foldl (λ m v, <[v.1 := v.2]> m) (∅ : gmap string A) l = list_to_map l.
Proof.
  assert (∀ m : gmap string A, (∀ k, k ∈ l.*1 → m !! k = None) → NoDup l.*1 →
    foldl (λ m v, <[v.1 := v.2]> m) m l = list_to_map l ∪ m) as Hgen.
  { induction l as [|[k v] l IH]; intros m Hm Hnd; simpl in *.
    - by rewrite map_empty_union.
    - apply NoDup_cons in Hnd as [Hni Hnd]. rewrite IH; [|..|done].
      + rewrite <-insert_union_r; [|by apply not_elem_of_list_to_map].
        by rewrite insert_union_l.
      + intros k' Hk'. rewrite lookup_insert_ne by set_solver. apply Hm. set_solver. }
  intros Hnd. rewrite Hgen by (set_solver || done). by rewrite map_union_empty.
Qed.

(** Saving and reloading: the states written by the periodic run are read
    back exactly by the next start, and are those not older than the TTL. *)
Theorem saved_states_roundtrip (r : Registry) (now : Z) :
  match runOnce r true now with
  | (r', Some saved) =>
      states (NewRegistry (Some saved)) = states r'
      ∧ ∀ k, states r' !! k =
             (s ← states r !! k;
              if statesTTL <? Time.Sub now (LastUpdate s) then None else Some s)
  | (_, None) => False
  end.
Proof.
  unfold runOnce, getAsJSONList, NewRegistry. simpl. split.
  - rewrite foldl_insert_list_to_map by apply NoDup_fst_map_to_list.
    apply list_to_map_to_list.
  - intros k. rewrite map_lookup_filter. destruct (states r !! k) as [s|]; [|done].
    simpl. destruct (Z.ltb_spec statesTTL (Time.Sub now (LastUpdate s)));
      case_guard; simpl in *; (done || lia).
Qed.

(** ** Applying thresholds *)
Definition pointKey (r : Registry) (p : MetricPoint) : string :=
  MetricKey (mpLabels p) (mpAnnotations p) (agentID r).

(** A point the engine evaluates: no status yet, a rule, a number. *)
Definition eligible (r : Registry) (p : MetricPoint) : bool :=
  negb (IsSet (sdCurrentStatus (AnnStatus (mpAnnotations p))))
  && negb (ThresholdIsZero (getThreshold r (lget (mpLabels p) LabelName) (pointKey r p)))
  && negb (Float.IsNaN (mpValue p)).

(** What the points of one input point must look like. *)
Definition pointResult (r : Registry) (p : MetricPoint)
    (out : MetricPoint * option MetricPoint) : Prop :=
  let '(q, statusPoint) := out in
  if eligible r p then
    mpPoint q = mpPoint p ∧ mpLabels q = mpLabels p
    ∧ annChanged (mpAnnotations p) (mpAnnotations q) = false
    ∧ IsSet (sdCurrentStatus (AnnStatus (mpAnnotations q))) = true
    ∧ ∃ s, statusPoint = Some s
      ∧ mpTime s = mpTime p
      ∧ mpValue s = Float.of_Z (NagiosCode (sdCurrentStatus (AnnStatus (mpAnnotations q))))
      ∧ mpLabels s = <[LabelName := lget (mpLabels p) LabelName +:+ "_status"]> (mpLabels p)
      ∧ StatusOf (mpAnnotations s) = lget (mpLabels p) LabelName
      ∧ AnnStatus (mpAnnotations s) = AnnStatus (mpAnnotations q)
  else q = p ∧ statusPoint = None.

Definition sameRules (r r' : Registry) : Prop :=
  agentID r' = agentID r ∧ units r' = units r ∧ thresholds r' = thresholds r
  ∧ thresholdsAllItem r' = thresholdsAllItem r.

Lemma sameRules_eligible (r r' : Registry) (p : MetricPoint) :
  sameRules r r' → eligible r' p = eligible r p ∧ pointKey r' p = pointKey r p.
Proof.
  intros (H1 & _ & H3 & H4). unfold eligible, pointKey, getThreshold.
  by rewrite H1, H3, H4.
Qed.

Lemma annChanged_refl (a b : MetricAnnotations) :
  ContainerID a = ContainerID b → ServiceName a = ServiceName b →
  ServiceInstance a = ServiceInstance b → StatusOf a = StatusOf b →
  SNMPTarget a = SNMPTarget b → BleemeoAgentID a = BleemeoAgentID b →
  annChanged a b = false.
Proof.
  intros. unfold annChanged.
  by rewrite !bool_decide_eq_false_2 by (intros Hn; by apply Hn).
Qed.

(** An evaluation never leaves a series unset. *)
Lemma Update_set (s : statusState) (newStatus : Status.t) (wd cd now : Z) :
  newStatus ≠ StatusUnset → CurrentStatus (Update s newStatus wd cd now) ≠ StatusUnset.
Proof.
  intros Hn. unfold Update, setNewStatus.
  set (current := if bool_decide (CurrentStatus s = StatusUnset) then _ else _).
  assert (current ≠ StatusUnset) as Hc by (unfold current; by case_bool_decide).
  clearbody current. destruct newStatus; simpl; try done; by repeat (split_if; simpl).
Qed.

Lemma thresholdStatus_soft (t : Threshold) (v : float64) : soft (thresholdStatus t v).1.
Proof. unfold soft. rewrite thresholdStatus_tests. repeat split_if; simpl; tauto. Qed.

Lemma addPoint_result (r : Registry) (now : Z) (input : list MetricPoint) (p : MetricPoint) :
  eligible r p = true →
  let t := getThreshold r (lget (mpLabels p) LabelName) (pointKey r p) in
  let '(r', q, s) := addPointWithThreshold r now input p t (pointKey r p) in
  sameRules r r' ∧ pointResult r p (q, Some s)
  ∧ states r' = <[pointKey r p :=
      withValue (Update (default zeroState (states r !! pointKey r p))
                   (thresholdStatus t (mpValue p)).1 (WarningDelay t) (CriticalDelay t) now)
        (mpValue p)]> (states r)
  ∧ sdCurrentStatus (AnnStatus (mpAnnotations q))
    = CurrentStatus (default zeroState (states r' !! pointKey r p)).
Proof.
  intros He t. unfold addPointWithThreshold, pointResult. rewrite He.
  pose proof (thresholdStatus_soft t (mpValue p)) as Hsoft.
  destruct (thresholdStatus t (mpValue p)) as [soft high]. simpl in *.
  split_and!; try done; [by apply annChanged_refl| |eauto 10|by rewrite lookup_insert_eq].
  unfold IsSet. apply bool_decide_eq_true_2. apply Update_set.
  by destruct Hsoft as [->|[->| ->]].
Qed.

Lemma sameRules_trans (r1 r2 r3 : Registry) :
  sameRules r1 r2 → sameRules r2 r3 → sameRules r1 r3.
Proof. unfold sameRules. intros (?&?&?&?) (?&?&?&?). split_and!; congruence. Qed.

Lemma ApplyThresholds_loop_result (clock : nat → Z) (points todo : list MetricPoint)
    (i : nat) (r : Registry) :
  let '(r', newPoints, statusPoints) := ApplyThresholds_loop clock i r points todo in
  sameRules r r'
  ∧ (∃ outs, newPoints = outs.*1 ∧ statusPoints = omap snd outs
             ∧ Forall2 (pointResult r) todo outs)
  ∧ (∀ k, (∀ p, p ∈ todo → eligible r p = true → pointKey r p ≠ k) →
          states r' !! k = states r !! k).
Proof.
  revert i r. induction todo as [|p todo IH]; intros i r; simpl.
  { split_and!; try done. exists []. by split_and!; [..|constructor]. }
  fold (pointKey r p). fold (eligible r p).
  destruct (eligible r p) eqn:He.
  - pose proof (addPoint_result r (clock i) points p He) as Hadd. simpl in Hadd.
    destruct (addPointWithThreshold _ _ _ _ _ _) as [[r1 q] s].
    destruct Hadd as (Hr1 & Hq & Hst & _).
    specialize (IH (S i) r1).
    destruct (ApplyThresholds_loop _ _ _ _ _) as [[r2 newPoints] statusPoints].
    destruct IH as (Hr2 & (outs & -> & -> & Houts) & Hk).
    split_and!; [by eapply sameRules_trans| |].
    + exists ((q, Some s) :: outs). split_and!; [done..|]. constructor; [done|].
      eapply Forall2_impl; [exact Houts|]. intros x [y o]. unfold pointResult.
      by rewrite (proj1 (sameRules_eligible r r1 x Hr1)).
    + intros k Hno. rewrite Hk, Hst.
      * apply lookup_insert_ne. apply Hno; [by left|done].
      * intros x Hx. destruct (sameRules_eligible r r1 x Hr1) as [-> ->].
        apply Hno. by right.
  - specialize (IH (S i) r).
    destruct (ApplyThresholds_loop _ _ _ _ _) as [[r2 newPoints] statusPoints].
    destruct IH as (Hr2 & (outs & -> & -> & Houts) & Hk).
    split_and!; [done| |].
    + exists ((p, None) :: outs). split_and!; [done..|]. constructor; [|done].
      unfold pointResult. by rewrite He.
    + intros k Hno. apply Hk. intros x Hx. apply Hno. by right.
Qed.

(** Applying thresholds to a batch keeps its points, in order, with their
    time, value, labels and annotations, and only sets the status of those the
    engine evaluates; each of these, and no other, yields one status point, at
    the same time, named after it, whose value is the Nagios code of the status
    set; rules are untouched and so is the state of every series the batch has
    no evaluated point for. *)
Theorem ApplyThresholds_spec (clock : nat → Z) (r : Registry) (points : list MetricPoint) :
  let '(r', newPoints, statusPoints) := ApplyThresholds clock r points in
  sameRules r r'
  ∧ (∃ outs, newPoints = outs.*1 ∧ statusPoints = omap snd outs
             ∧ Forall2 (pointResult r) points outs)
  ∧ (∀ k, (∀ p, p ∈ points → eligible r p = true → pointKey r p ≠ k) →
          states r' !! k = states r !! k).
Proof. apply ApplyThresholds_loop_result. Qed.

(** Rule lookup: a rule set for the item always wins, whatever its bounds; a
    rule for the metric name applies otherwise; and a series without a usable
    rule gets the rule with every bound unset, which never reports anything. *)
Theorem getThreshold_precedence (r : Registry) (name k : string) (v : float64) :
  (∀ t, thresholds r !! k = Some t → getThreshold r name k = t)
  ∧ (∀ t, thresholds r !! k = None → thresholdsAllItem r !! name = Some t →
     ThresholdIsZero t = false → getThreshold r name k = t)
  ∧ (thresholds r !! k = None →
     (∀ t, thresholdsAllItem r !! name = Some t → ThresholdIsZero t = true) →
     ThresholdIsZero (getThreshold r name k) = true
     ∧ thresholdStatus (getThreshold r name k) v = (StatusOk, false)).
Proof.
  unfold getThreshold. split_and!.
  - by intros t ->.
  - intros t -> -> Hz. simpl. by rewrite Hz.
  - intros -> H. destruct (thresholdsAllItem r !! name) as [t|] eqn:Ht; simpl.
    + by rewrite (H t eq_refl).
    + by split.
Qed.
