(* ===== verification/Slots.v ===== *)
(** Allocation of small integer identifiers, the loop shared by the store's
    AddNotifiee (store/store.go) and the task registry's AddTask
    (task/registry.go): the first identifier, from 1, that the map does not
    hold. *)
From S2P Require Import Prelude.

Section Slots.
Context {A : Type}.
Implicit Types m : gmap Z A.

(** The loop, started at [id]; it runs at most once per entry of the map
    plus one ([firstFree_fuel]).  [None] is the exhaustion of the fuel. *)
Fixpoint firstFree (fuel : nat) (m : gmap Z A) (id : Z) : option Z :=
  match fuel with
  | O => None
  | S fuel' =>
      match m !! id with
      | None => Some id
      | Some _ => firstFree fuel' m (id + 1)
      end
  end.

Definition nextSlot (m : gmap Z A) : option Z := firstFree (S (size m)) m 1.

Lemma firstFree_sound (fuel : nat) m (id res : Z) :
  firstFree fuel m id = Some res →
  id ≤ res ∧ m !! res = None ∧ ∀ i, id ≤ i < res → is_Some (m !! i).
Proof.
  revert id. induction fuel as [|fuel IH]; intros id H; simpl in H; [done|].
  destruct (m !! id) as [a|] eqn:Hm; simplify_eq.
  - apply IH in H as (Hle & Hnone & Hall). split_and!; [lia|done|].
    intros i Hi. destruct (decide (i = id)) as [->|]; [eauto|]. apply Hall. lia.
  - split_and!; [lia|done|]. intros; lia.
Qed.

(** The keys [id, id+1, ...] of a failed search. *)
Lemma firstFree_None (fuel : nat) m (id : Z) :
  firstFree fuel m id = None → ∀ i, id ≤ i < id + Z.of_nat fuel → is_Some (m !! i).
Proof.
  revert id. induction fuel as [|fuel IH]; intros id H i Hi; simpl in *; [lia|].
  destruct (m !! id) as [a|] eqn:Hm; [|done].
  destruct (decide (i = id)) as [->|]; [eauto|]. apply (IH (id + 1)); [done|lia].
Qed.

Lemma firstFree_fuel (fuel : nat) m (id : Z) :
  (size m < fuel)%nat → is_Some (firstFree fuel m id).
Proof.
  intros Hsz. destruct (firstFree fuel m id) eqn:Hf; [eauto|]. exfalso.
  pose proof (firstFree_None _ _ _ Hf) as Hall.
  assert (list_to_set (seqZ id (Z.of_nat fuel)) ⊆ dom m) as Hsub.
  { intros i Hi. apply elem_of_list_to_set, elem_of_seqZ in Hi.
    apply elem_of_dom, Hall. lia. }
  apply subseteq_size in Hsub. rewrite size_list_to_set, length_seqZ, size_dom in Hsub
    by apply NoDup_seqZ. lia.
Qed.

Lemma nextSlot_spec m :
  ∃ id, nextSlot m = Some id ∧ 1 ≤ id ∧ m !! id = None
        ∧ ∀ i, 1 ≤ i < id → is_Some (m !! i).
Proof.
  destruct (firstFree_fuel (S (size m)) m 1) as [id Hid]; [lia|].
  exists id. split; [done|]. by apply firstFree_sound in Hid.
Qed.
End Slots.
