(* ===== verification/FieldCache.v ===== *)
(** The metrics that an input stopped sending (collector/collector.go, [inactiveMarkerAccumulator];
    inputs/types.go, [FixedTimeAccumulator]): what the inputs add goes to the accumulator and is
    remembered, and what was remembered and not added again gets the stale marker.

    [V] is the type of the values of the fields and [stale] the marker ([value.StaleNaN] as a float);
    [annotated] tells whether the accumulator takes annotations; [range] is the order in which Go
    visits a map. *)
From S2P Require Import Prelude Labels.

#[local] Open Scope string_scope.
#[local] Open Scope Z_scope.

Definition keepMetricBecauseOfGatherErrorGraceDelay : Z := 5 * Time.minute.

(** The methods of the accumulator that take no annotations. *)
Inductive addKind : Set := KFields | KGauge | KCounter | KSummary | KHistogram.

Record fieldCache := mkFieldCache { fcAnnotations : MetricAnnotations; fcCallback : option addKind }.

(** measurement, field, text of the tags *)
Notation caches := (gmap string (gmap string (gmap string fieldCache))).

Section Cache.
Context {V : Type}.
Variable stale : V.
Variable annotated : bool.
Variable range : ∀ {A : Type}, gmap string A → list (string * A).

(** What the accumulator receives. *)
Inductive accCall :=
  | callAdd (kind : addKind) (measurement : string) (fields : gmap string V) (tags : Labels) (time : Z)
  | callAnnotated (measurement : string) (fields : gmap string V) (tags : Labels) (annotations : MetricAnnotations) (time : Z)
  | callMissingMethod.

(** What an input calls. *)
Inductive inputCall :=
  | addPlain (kind : addKind) (measurement : string) (fields : gmap string V) (tags : Labels)
  | addAnnotated (measurement : string) (fields : gmap string V) (tags : Labels) (annotations : MetricAnnotations).

(** The methods of [FixedTimeAccumulator]. *)
Definition fixedAdd (time : Z) (kind : addKind) (measurement : string) (fields : gmap string V) (tags : Labels) : list accCall :=
  [callAdd kind measurement fields tags time].

Definition fixedAddFieldsWithAnnotations (time : Z) (measurement : string) (fields : gmap string V) (tags : Labels)
    (annotations : MetricAnnotations) : list accCall :=
  if annotated then [callAnnotated measurement fields tags annotations time]
  else [callAdd KGauge measurement fields tags time; callMissingMethod].

(** One field of the loop of doAdd. *)
Definition addField (strTags : string) (cache : fieldCache) (m : gmap string (gmap string fieldCache)) (field : string) :
    gmap string (gmap string fieldCache) :=
  <[field := <[strTags := cache]> (default ∅ (m !! field))]> m.

Definition doAdd (time : Z) (accCb : option addKind) (measurement : string) (fields : gmap string V) (tags : Labels)
    (annotations : option MetricAnnotations) (latestValues : caches) : caches * list accCall :=
  let m := default ∅ (latestValues !! measurement) in
  let strTags := LabelsToText tags in
  let cache := mkFieldCache (default zeroAnnotations annotations) accCb in
  let m := foldl (addField strTags cache) m (range fields).*1 in
  (<[measurement := m]> latestValues,
   match accCb, annotations with
   | Some kind, _ => fixedAdd time kind measurement fields tags
   | None, Some annotations => fixedAddFieldsWithAnnotations time measurement fields tags annotations
   | None, None => []
   end).

(** The methods of the accumulator given to the input. *)
Definition addCall (time : Z) (st : caches * list accCall) (call : inputCall) : caches * list accCall :=
  let (latestValues, calls) :=
    match call with
    | addPlain kind measurement fields tags => doAdd time (Some kind) measurement fields tags None st.1
    | addAnnotated measurement fields tags annotations => doAdd time None measurement fields tags (Some annotations) st.1
    end in
  (latestValues, (st.2 ++ calls)%list).

Definition seen (latestValues : caches) (measurement field tag : string) : bool :=
  match latestValues !! measurement with
  | None => false
  | Some fields =>
      match fields !! field with
      | None => false
      | Some tags => match tags !! tag with None => false | Some _ => true end
      end
  end.

(** The stale marker of one series. *)
Definition staleCall (time : Z) (measurement field tag : string) (cache : fieldCache) : list accCall :=
  let fieldsMap := {[ field := stale ]} in
  let tagsMap := default ∅ (TextToLabels tag) in
  match fcCallback cache with
  | Some kind => fixedAdd time kind measurement fieldsMap tagsMap
  | None => fixedAddFieldsWithAnnotations time measurement fieldsMap tagsMap (fcAnnotations cache)
  end.

(** The series of [fieldCaches] that were not seen, in the order of the loops. *)
Definition unseen (latestValues fieldCaches : caches) : list (string * string * string * fieldCache) :=
  '(measurement, fields) ← range fieldCaches;
  '(field, tags) ← range fields;
  '(tag, cache) ← range tags;
  if seen latestValues measurement field tag then [] else [(measurement, field, tag, cache)].

(** The update of the cache with one measurement. *)
Definition copyField (current : gmap string (gmap string fieldCache)) (entry : string * gmap string fieldCache) :
    gmap string (gmap string fieldCache) :=
  <[entry.1 := entry.2 ∪ default ∅ (current !! entry.1)]> current.

Definition copyMeasurement (fieldCaches : caches) (entry : string * gmap string (gmap string fieldCache)) : caches :=
  <[entry.1 := foldl copyField (default ∅ (fieldCaches !! entry.1)) (range entry.2)]> fieldCaches.

Definition deactivateUnseenMetrics (time : Z) (skipDeactivation : bool) (latestValues fieldCaches : caches) :
    caches * list accCall :=
  let calls := if skipDeactivation then []
    else '(measurement, field, tag, cache) ← unseen latestValues fieldCaches; staleCall time measurement field tag cache in
  let fieldCaches := if skipDeactivation then fieldCaches else ∅ in
  (foldl copyMeasurement fieldCaches (range latestValues), calls).

(** Whether an input in error keeps its metrics. *)
Definition skipsDeactivation (t0 : Z) (lastSuccess : option Z) (failed : bool) : bool :=
  failed &&
  match lastSuccess with
  | None => true
  | Some lastSuccess => Time.Sub t0 lastSuccess <? keepMetricBecauseOfGatherErrorGraceDelay
  end.

(** The body of the goroutine of one input: what it called, whether it returned an error. *)
Definition gatherInput (t0 : Z) (lastSuccess : option Z) (fieldCaches : caches) (calls : list inputCall) (failed : bool) :
    caches * list accCall :=
  let (latestValues, sent) := foldl (addCall t0) (∅, []) calls in
  let (fieldCaches, marks) := deactivateUnseenMetrics t0 (skipsDeactivation t0 lastSuccess failed) latestValues fieldCaches in
  (fieldCaches, (sent ++ marks)%list).
End Cache.

#[global] Arguments accCall : clear implicits.
#[global] Arguments inputCall : clear implicits.

(** * Series *)
Definition series : Type := string * string * string.

Definition at3 (c : caches) (k : series) : option fieldCache :=
  fields ← c !! k.1.1; tags ← fields !! k.1.2; tags !! k.2.

Definition at2 (c : gmap string (gmap string fieldCache)) (field tag : string) : option fieldCache :=
  tags ← c !! field; tags !! tag.

Lemma seen_at3 (c : caches) (m f t : string) : seen c m f t = bool_decide (is_Some (at3 c (m, f, t))).
Proof.
  unfold seen, at3. cbn. destruct (c !! m) as [fields|]; [|done]. cbn. destruct (fields !! f) as [tags|]; [|done]. cbn.
  by destruct (tags !! t).
Qed.

Section Laws.
Context {V : Type}.
Variable stale : V.
Variable annotated : bool.
Variable range : ∀ {A : Type}, gmap string A → list (string * A).
Hypothesis range_perm : ∀ (A : Type) (m : gmap string A), range m ≡ₚ map_to_list m.

#[local] Notation doAdd := (doAdd annotated (@range)).
#[local] Notation addCall := (addCall annotated (@range)).

Lemma range_elem {A : Type} (m : gmap string A) (k : string) (x : A) : (k, x) ∈ range m ↔ m !! k = Some x.
Proof. rewrite range_perm. apply elem_of_map_to_list. Qed.

Lemma range_NoDup {A : Type} (m : gmap string A) : NoDup (range m).*1.
Proof. rewrite range_perm. apply NoDup_fst_map_to_list. Qed.

Lemma range_dom {A : Type} (m : gmap string A) (k : string) : k ∈ (range m).*1 ↔ is_Some (m !! k).
Proof.
  rewrite list_elem_of_fmap. split.
  - intros ([k' x] & -> & Hin). apply range_elem in Hin. by exists x.
  - intros [x Hx]. exists (k, x). split; [done|]. by apply range_elem.
Qed.

Lemma addField_lookup (strTags : string) (cache : fieldCache) (l : list string) (m : gmap string (gmap string fieldCache)) (f t : string) :
  at2 (foldl (addField strTags cache) m l) f t = if decide (f ∈ l ∧ t = strTags) then Some cache else at2 m f t.
Proof.
  revert m. induction l as [|field l IH]; intros m.
  { by rewrite decide_False by (by intros [?%not_elem_of_nil _]). }
  cbn [foldl]. rewrite IH. clear IH. destruct (decide (f ∈ l ∧ t = strTags)) as [[Hl ->]|Hn].
  { by rewrite decide_True by (split; [by right|done]). }
  unfold at2, addField. destruct (decide (f = field)) as [->|Hne].
  - rewrite lookup_insert_eq. cbn. destruct (decide (t = strTags)) as [->|Ht].
    + by rewrite lookup_insert_eq, decide_True by (split; [left|done]).
    + rewrite lookup_insert_ne by done. rewrite decide_False by (by intros [_ ?]). by destruct (m !! field).
  - rewrite lookup_insert_ne by done. by rewrite decide_False by (rewrite elem_of_cons; naive_solver).
Qed.

(** The series that a call adds, with what is remembered of them. *)
Definition addedBy (call : inputCall V) (k : series) : option fieldCache :=
  match call with
  | addPlain kind measurement fields tags =>
      if decide (k.1.1 = measurement ∧ is_Some (fields !! k.1.2) ∧ k.2 = LabelsToText tags)
      then Some (mkFieldCache zeroAnnotations (Some kind)) else None
  | addAnnotated measurement fields tags annotations =>
      if decide (k.1.1 = measurement ∧ is_Some (fields !! k.1.2) ∧ k.2 = LabelsToText tags)
      then Some (mkFieldCache annotations None) else None
  end.

Lemma doAdd_at3 (time : Z) (accCb : option addKind) (measurement : string) (fields : gmap string V) (tags : Labels)
    (annotations : option MetricAnnotations) (latest : caches) (k : series) :
  at3 (doAdd time accCb measurement fields tags annotations latest).1 k =
  if decide (k.1.1 = measurement ∧ is_Some (fields !! k.1.2) ∧ k.2 = LabelsToText tags)
  then Some (mkFieldCache (default zeroAnnotations annotations) accCb) else at3 latest k.
Proof.
  destruct k as [[m f] t]. unfold at3, FieldCache.doAdd. cbn [fst snd]. destruct (decide (m = measurement)) as [->|Hne].
  - rewrite lookup_insert_eq. cbn. fold (at2 (foldl (addField (LabelsToText tags) (mkFieldCache (default zeroAnnotations annotations) accCb))
      (default ∅ (latest !! measurement)) (range fields).*1) f t). rewrite addField_lookup.
    destruct (decide (f ∈ (range fields).*1 ∧ t = LabelsToText tags)) as [[Hd%range_dom ->]|H]; [by rewrite decide_True|].
    rewrite decide_False by (rewrite <-range_dom; tauto). unfold at2. by destruct (latest !! measurement).
  - rewrite lookup_insert_ne by done. by rewrite decide_False by (by intros [? _]).
Qed.

Lemma addCall_at3 (time : Z) (st : caches * list (accCall V)) (call : inputCall V) (k : series) :
  at3 (addCall time st call).1 k = match addedBy call k with Some cache => Some cache | None => at3 st.1 k end.
Proof.
  unfold FieldCache.addCall. destruct call as [kind m fields tags|m fields tags annotations].
  - pose proof (doAdd_at3 time (Some kind) m fields tags None st.1 k) as H.
    destruct (doAdd time (Some kind) m fields tags None st.1) as [latest calls]. cbn [fst] in *. rewrite H. cbn [addedBy default].
    by destruct (decide _).
  - pose proof (doAdd_at3 time None m fields tags (Some annotations) st.1 k) as H.
    destruct (doAdd time None m fields tags (Some annotations) st.1) as [latest calls]. cbn [fst] in *. rewrite H. cbn [addedBy default].
    by destruct (decide _).
Qed.

Lemma copyField_lookup (l : list (string * gmap string fieldCache)) (m : gmap string (gmap string fieldCache)) (f t : string) :
  NoDup l.*1 →
  at2 (foldl copyField m l) f t =
  match at2 (list_to_map l) f t with Some cache => Some cache | None => at2 m f t end.
Proof.
  revert m. induction l as [|[field tags] l IH]; intros m; [done|]. cbn [foldl fmap list_fmap fst snd]. intros [Hn Hnd]%NoDup_cons.
  rewrite IH by done. apply not_elem_of_list_to_map_1 in Hn. unfold at2, copyField. cbn [list_to_map foldr fst snd].
  destruct (decide (f = field)) as [->|Hne].
  - rewrite Hn, !lookup_insert_eq. cbn. rewrite lookup_union. destruct (tags !! t), (m !! field) as [x|]; cbn; try done; [by destruct (x !! t)|].
    by rewrite (left_id_L None (∪)).
  - by rewrite !lookup_insert_ne.
Qed.

Lemma copyMeasurement_lookup (l : list (string * gmap string (gmap string fieldCache))) (c : caches) (k : series) :
  NoDup l.*1 →
  at3 (foldl (copyMeasurement (@range)) c l) k =
  match at3 (list_to_map l) k with Some cache => Some cache | None => at3 c k end.
Proof.
  destruct k as [[m f] t]. revert c. induction l as [|[measurement fields] l IH]; intros c; [done|].
  cbn [foldl fmap list_fmap fst snd]. intros [Hn Hnd]%NoDup_cons.
  rewrite IH by done. apply not_elem_of_list_to_map_1 in Hn. unfold at3, copyMeasurement. cbn [list_to_map foldr fst snd].
  destruct (decide (m = measurement)) as [->|Hne].
  - rewrite Hn, !lookup_insert_eq. cbn. pose proof (copyField_lookup (range fields) (default ∅ (c !! measurement)) f t (range_NoDup _)) as H.
    unfold at2 in H. rewrite H, (list_to_map_proper (range fields) (map_to_list fields)), list_to_map_to_list by (apply range_NoDup || apply range_perm).
    by destruct (c !! measurement).
  - by rewrite !lookup_insert_ne.
Qed.

(** * One gather *)
Definition latestOf (calls : list (inputCall V)) (k : series) : option fieldCache :=
  foldl (λ o call, match addedBy call k with Some cache => Some cache | None => o end) None calls.

Lemma addCalls_at3 (time : Z) (calls : list (inputCall V)) (k : series) :
  at3 (foldl (addCall time) (∅, []) calls).1 k = latestOf calls k.
Proof.
  unfold latestOf. change None with (at3 ((∅, []) : caches * list (accCall V)).1 k). generalize ((∅, []) : caches * list (accCall V)).
  induction calls as [|call calls IH]; intros st; [done|]. cbn [foldl]. by rewrite IH, addCall_at3.
Qed.

Lemma unseen_elem (latest fc : caches) (k : series) (cache : fieldCache) :
  (k, cache) ∈ unseen (@range) latest fc ↔ at3 fc k = Some cache ∧ at3 latest k = None.
Proof.
  destruct k as [[m f] t]. unfold unseen. rewrite list_elem_of_bind. split.
  - intros ([m' fields] & Hin & Hm%range_elem). apply list_elem_of_bind in Hin as ([f' tags] & Hin & Hf%range_elem).
    apply list_elem_of_bind in Hin as ([t' cache'] & Hin & Ht%range_elem). rewrite seen_at3 in Hin. case_bool_decide as Hs; [by apply not_elem_of_nil in Hin|].
    apply list_elem_of_singleton in Hin. injection Hin as -> -> -> ->. split; [|by apply eq_None_not_Some].
    unfold at3. cbn. rewrite Hm. cbn. rewrite Hf. exact Ht.
  - intros [Hc Hl]. unfold at3 in Hc. cbn in Hc. destruct (fc !! m) as [fields|] eqn:Hm; [|done]. cbn in Hc.
    destruct (fields !! f) as [tags|] eqn:Hf; [|done]. cbn in Hc. exists (m, fields). split; [|by apply range_elem].
    apply list_elem_of_bind. exists (f, tags). split; [|by apply range_elem].
    apply list_elem_of_bind. exists (t, cache). split; [|by apply range_elem].
    rewrite seen_at3, bool_decide_false; [by left|]. rewrite Hl. by intros [].
Qed.

Lemma bind_NoDup_key {A B K : Type} (key : B → K) (l : list (K * A)) (f : K * A → list B) :
  NoDup l.*1 → (∀ x y, x ∈ l → y ∈ f x → key y = x.1) → (∀ x, x ∈ l → NoDup (f x)) → NoDup (l ≫= f).
Proof.
  intros Hnd Hkey Hf. apply NoDup_bind; [|done|exact (NoDup_fmap_1 _ _ Hnd)].
  intros [k1 x1] [k2 x2] y H1 H2 Hy1 Hy2. pose proof (Hkey _ _ H1 Hy1) as E1. pose proof (Hkey _ _ H2 Hy2) as E2. cbn in E1, E2.
  assert (k1 = k2) as -> by congruence. f_equal.
  apply list_elem_of_lookup in H1 as [i Hi], H2 as [j Hj].
  assert (i = j) as ->; [|congruence].
  apply (NoDup_lookup l.*1 i j k2); [done|by rewrite list_lookup_fmap, Hi|by rewrite list_lookup_fmap, Hj].
Qed.

Lemma unseen_NoDup (latest fc : caches) : NoDup (unseen (@range) latest fc).*1.
Proof.
  assert (∀ m f t (cache : fieldCache) y, y ∈ (if seen latest m f t then [] else [(m, f, t, cache)]) → y = (m, f, t, cache)) as Hleaf.
  { intros m f t cache y H. destruct (seen latest m f t); [by apply not_elem_of_nil in H|by apply list_elem_of_singleton in H]. }
  apply NoDup_fmap_2_strong.
  { intros [k1 c1] [k2 c2] [H1 _]%unseen_elem [H2 _]%unseen_elem. cbn. intros ->. congruence. }
  unfold unseen. apply (bind_NoDup_key (λ y, y.1.1.1)); [apply range_NoDup| |].
  { intros [m fields] y _ ([f tags] & ([t cache] & ->%Hleaf & _)%list_elem_of_bind & _)%list_elem_of_bind. done. }
  intros [m fields] _. apply (bind_NoDup_key (λ y, y.1.1.2)); [apply range_NoDup| |].
  { intros [f tags] y _ ([t cache] & ->%Hleaf & _)%list_elem_of_bind. done. }
  intros [f tags] _. apply (bind_NoDup_key (λ y, y.1.2)); [apply range_NoDup| |].
  { intros [t cache] y _ ->%Hleaf. done. }
  intros [t cache] _. destruct (seen latest m f t); [constructor|apply NoDup_singleton].
Qed.

(** What the accumulator gets from the calls of an input. *)
Definition forward (time : Z) (call : inputCall V) : list (accCall V) :=
  match call with
  | addPlain kind measurement fields tags => [callAdd kind measurement fields tags time]
  | addAnnotated measurement fields tags annotations =>
      if annotated then [callAnnotated measurement fields tags annotations time]
      else [callAdd KGauge measurement fields tags time; callMissingMethod]
  end.

Lemma addCalls_forward (time : Z) (calls : list (inputCall V)) (st : caches * list (accCall V)) :
  (foldl (addCall time) st calls).2 = (st.2 ++ (calls ≫= forward time))%list.
Proof.
  revert st. induction calls as [|call calls IH]; intros st; [cbn; by rewrite app_nil_r|]. cbn [foldl]. rewrite IH. cbn [mbind list_bind].
  rewrite app_assoc. f_equal. unfold FieldCache.addCall. by destruct call.
Qed.

Lemma gatherInput_spec (t0 : Z) (last : option Z) (fc : caches) (calls : list (inputCall V)) (failed : bool) :
  let skip := skipsDeactivation t0 last failed in
  let result := gatherInput stale annotated (@range) t0 last fc calls failed in
  (∀ k, at3 result.1 k = match latestOf calls k with Some cache => Some cache | None => if skip then at3 fc k else None end) ∧
  ∃ dead : list (series * fieldCache),
    result.2 = ((calls ≫= forward t0) ++ (dead ≫= λ '(k, cache), staleCall stale annotated t0 k.1.1 k.1.2 k.2 cache))%list ∧
    NoDup dead.*1 ∧
    ∀ k cache, (k, cache) ∈ dead ↔ at3 fc k = Some cache ∧ latestOf calls k = None ∧ skip = false.
Proof.
  cbv zeta. unfold gatherInput. pose proof (addCalls_forward t0 calls (∅, [])) as Hsent. pose proof (addCalls_at3 t0 calls) as Hlatest.
  destruct (foldl (addCall t0) (∅, []) calls) as [latest sent]. cbn [fst snd] in *. rewrite Hsent. clear sent Hsent.
  unfold deactivateUnseenMetrics. cbn [fst snd]. split.
  - intros k. rewrite copyMeasurement_lookup by apply range_NoDup.
    rewrite (list_to_map_proper (range latest) (map_to_list latest)), list_to_map_to_list, Hlatest by (apply range_NoDup || apply range_perm).
    destruct (latestOf calls k); [done|]. by destruct (skipsDeactivation t0 last failed).
  - destruct (skipsDeactivation t0 last failed).
    + exists []. split; [done|]. split; [constructor|]. intros k cache. split; [by intros ?%not_elem_of_nil|by intros (_ & _ & ?)].
    + exists (unseen (@range) latest fc). split; [|split; [apply unseen_NoDup|]].
      * f_equal. apply list_bind_ext; [|done]. by intros [[[m f] t] cache].
      * intros k cache. rewrite unseen_elem, Hlatest. naive_solver.
Qed.

(** * The gathers of an input *)
Record gather := mkGather { gaTime : Z; gaCalls : list (inputCall V); gaFailed : bool }.

(** The goroutine of an input that no one removes meanwhile: the cache, and the entry of [lastSuccessfulGather]. *)
Definition runGather (st : caches * option Z) (g : gather) : (caches * option Z) * list (accCall V) :=
  let (fc, sent) := gatherInput stale annotated (@range) (gaTime g) st.2 st.1 (gaCalls g) (gaFailed g) in
  ((fc, Some (gaTime g)), sent).

Definition afterGathers (h : list gather) : caches * option Z := foldl (λ st g, (runGather st g).1) (∅, None) h.

(** A gather that fails less than the grace delay after the previous one, whether that one failed or not, or without a previous one. *)
Definition skipped (previous : option gather) (g : gather) : bool :=
  gaFailed g && match previous with Some p => Time.Sub (gaTime g) (gaTime p) <? keepMetricBecauseOfGatherErrorGraceDelay | None => true end.

(** What is known of a series: it is known when it was sent at the last gather, or was known and the last gather
    was skipped.  The last gather goes with it. *)
Definition stepKnown (k : series) (st : option gather * option fieldCache) (g : gather) : option gather * option fieldCache :=
  (Some g, match latestOf (gaCalls g) k with Some cache => Some cache | None => if skipped st.1 g then st.2 else None end).
Definition known (h : list gather) (k : series) : option fieldCache := (foldl (stepKnown k) (None, None) h).2.

Lemma stepKnown_last (h : list gather) (k : series) : (foldl (stepKnown k) (None, None) h).1 = last h.
Proof. induction h as [|g h _] using rev_ind; [done|]. by rewrite foldl_app, last_snoc. Qed.

Lemma afterGathers_last (h : list gather) : (afterGathers h).2 = gaTime <$> last h.
Proof. induction h as [|g h _] using rev_ind; [done|]. unfold afterGathers. rewrite foldl_app, last_snoc. cbn [foldl]. unfold runGather. by destruct (gatherInput _ _ _ _ _ _ _ _). Qed.

Lemma skipsDeactivation_skipped (h : list gather) (g : gather) : skipsDeactivation (gaTime g) (afterGathers h).2 (gaFailed g) = skipped (last h) g.
Proof. rewrite afterGathers_last. unfold skipsDeactivation, skipped. by destruct (last h), (gaFailed g). Qed.

Lemma afterGathers_known (h : list gather) (k : series) : known h k = at3 (afterGathers h).1 k.
Proof.
  induction h as [|g h IH] using rev_ind; [done|]. pose proof (stepKnown_last h k) as Hl. unfold known in *. unfold afterGathers. rewrite !foldl_app. cbn [foldl].
  fold (afterGathers h). unfold stepKnown at 1. rewrite Hl, IH. cbn [snd]. rewrite <- skipsDeactivation_skipped. unfold runGather.
  destruct (gatherInput_spec (gaTime g) (afterGathers h).2 (afterGathers h).1 (gaCalls g) (gaFailed g)) as [Hat _].
  destruct (gatherInput _ _ _ _ _ _ _ _) as [fc sent]. cbn [fst snd] in *. by rewrite Hat.
Qed.

(** C27. Whatever the gathers of an input before it, a gather hands over the calls of the input, each once and
    with the time of the gather, and then marks as stale exactly the series that were known and are no longer
    sent, each once, unless it fails and is less than five minutes after the previous gather, which may have failed too, or is the first
    one.  A series is known when the last gather sent it, or when it was known and the last gather was such a failure.  The mark
    goes through the same method, with the tags of the series (those with an empty value are left out). *)
Theorem stale_markers (h : list gather) (g : gather) :
  ∃ dead : list (series * fieldCache),
    (runGather (afterGathers h) g).2 =
      ((gaCalls g ≫= forward (gaTime g)) ++
       (dead ≫= λ '(k, cache), staleCall stale annotated (gaTime g) k.1.1 k.1.2 k.2 cache))%list ∧
    NoDup dead.*1 ∧
    (∀ k cache, (k, cache) ∈ dead ↔
       known h k = Some cache ∧ latestOf (gaCalls g) k = None ∧ skipped (last h) g = false) ∧
    (∀ m f tags cache, (∀ name v, tags !! name = Some v → good_key name) →
       staleCall stale annotated (gaTime g) m f (LabelsToText tags) cache =
       forward (gaTime g)
         match fcCallback cache with
         | Some kind => addPlain kind m {[ f := stale ]} (filter (λ kv, kv.2 ≠ "") tags)
         | None => addAnnotated m {[ f := stale ]} (filter (λ kv, kv.2 ≠ "") tags) (fcAnnotations cache)
         end).
Proof.
  destruct (gatherInput_spec (gaTime g) (afterGathers h).2 (afterGathers h).1 (gaCalls g) (gaFailed g)) as [_ (dead & Hout & Hnd & Hdead)].
  exists dead. split; [|split; [done|split]].
  - unfold runGather. destruct (gatherInput _ _ _ _ _ _ _ _) as [fc sent]. exact Hout.
  - intros k cache. by rewrite Hdead, afterGathers_known, <- skipsDeactivation_skipped.
  - intros m f tags cache Hgood. unfold staleCall. rewrite TextToLabels_LabelsToText by done. by destruct (fcCallback cache).
Qed.

(** The outputs of gathers one after the other. *)
Fixpoint outputs (st : caches * option Z) (h : list gather) : list (list (accCall V)) :=
  match h with
  | [] => []
  | g :: h => let (st, sent) := runGather st g in sent :: outputs st h
  end.

(** Gathers that all fail, each less than the grace delay after the one before. *)
Fixpoint failing (t0 : Z) (h : list gather) : Prop :=
  match h with
  | [] => True
  | g :: h => gaFailed g = true ∧ Time.Sub (gaTime g) t0 < keepMetricBecauseOfGatherErrorGraceDelay ∧ failing (gaTime g) h
  end.

(** C39. The grace delay of an input in error never ends as long as each gather is less than five minutes after the one before: a gather that fails
    renews the time of the last success, so that, however long the input fails, none of its metrics is
    marked as stale and all those known before stay known. *)
Theorem failing_never_stale (fc : caches) (t0 : Z) (h : list gather) :
  failing t0 h →
  outputs (fc, Some t0) h = (λ g, gaCalls g ≫= forward (gaTime g)) <$> h ∧
  ∀ k, is_Some (at3 fc k) → is_Some (at3 (foldl (λ st g, (runGather st g).1) (fc, Some t0) h).1 k).
Proof.
  revert fc t0. induction h as [|g h IH]; intros fc t0; [done|]. intros (Hf & Ht & Hh).
  destruct (gatherInput_spec (gaTime g) (Some t0) fc (gaCalls g) (gaFailed g)) as [Hat (dead & Hout & _ & Hdead)].
  assert (skipsDeactivation (gaTime g) (Some t0) (gaFailed g) = true) as Hskip.
  { unfold skipsDeactivation. rewrite Hf. by apply Z.ltb_lt. }
  rewrite Hskip in *. assert (dead = []) as ->.
  { destruct dead as [|[k cache] dead]; [done|]. destruct (proj1 (Hdead k cache) ltac:(left)) as (_ & _ & ?). done. }
  cbn [outputs foldl fmap list_fmap]. unfold runGather at 1 3. cbn [fst snd].
  destruct (gatherInput _ _ _ _ _ _ _ _) as [fc' sent]. cbn [fst snd] in *. rewrite app_nil_r in Hout.
  destruct (IH fc' (gaTime g) Hh) as [Houts Hkeep]. split; [by rewrite Hout, Houts|].
  intros k Hk. apply Hkeep. rewrite Hat. by destruct (latestOf (gaCalls g) k).
Qed.
End Laws.

(** * Witnesses *)
Definition allOf (A : Type) (m : gmap string A) : list (string * A) := map_to_list m.
Lemma allOf_perm (A : Type) (m : gmap string A) : allOf A m ≡ₚ map_to_list m.
Proof. done. Qed.

Definition sampleCall : inputCall Z := addPlain KGauge "cpu" {[ "used" := 1 ]} ∅.
Definition sampleGathers : list (@gather Z) :=
  [mkGather 0 [sampleCall] false; mkGather (4 * Time.minute) [] true; mkGather (8 * Time.minute) [] true].

Lemma stale_markers_witness :
  ∃ dead : list (series * fieldCache),
    (runGather (-1) true allOf (afterGathers (-1) true allOf sampleGathers) (mkGather (9 * Time.minute) [] false)).2 =
      ([] ++ (dead ≫= λ '(k, cache), staleCall (-1) true (9 * Time.minute) k.1.1 k.1.2 k.2 cache))%list ∧
    NoDup dead.*1 ∧ (("cpu", "used", ""), mkFieldCache zeroAnnotations (Some KGauge)) ∈ dead.
Proof.
  destruct (stale_markers (-1) true allOf allOf_perm sampleGathers (mkGather (9 * Time.minute) [] false)) as (dead & H & Hnd & Hd & _).
  exists dead. split; [exact H|]. split; [exact Hnd|]. apply Hd. split; [by vm_compute|]. split; by vm_compute.
Defined.

Lemma failing_never_stale_witness :
  outputs (-1) true allOf ({[ "cpu" := {[ "used" := {[ "" := mkFieldCache zeroAnnotations (Some KGauge) ]} ]} ]}, Some 0)
    [mkGather (4 * Time.minute) [] true; mkGather (8 * Time.minute) [] true; mkGather (12 * Time.minute) [] true] = [[]; []; []].
Proof.
  rewrite (proj1 (failing_never_stale (-1) true allOf allOf_perm
    {[ "cpu" := {[ "used" := {[ "" := mkFieldCache zeroAnnotations (Some KGauge) ]} ]} ]} 0
    [mkGather (4 * Time.minute) [] true; mkGather (8 * Time.minute) [] true; mkGather (12 * Time.minute) [] true] ltac:(by vm_compute))).
  reflexivity.
Defined.
