(* ===== verification/Accumulator.v ===== *)
(** What becomes of the fields an input sends (inputs/internal/accumulator.go, inputs/types.go): they are
    renamed, the counters are turned into rates between two gathers, the others into floats, and
    points are made of them.

    The functions an input sets on its accumulator ([RenameGlobal], [ShouldDifferentiateMetrics],
    [TransformMetrics], [RenameMetrics], [RenameCallbacks]) are the fields of [hooks]; [range] is the
    order in which Go visits a map. *)
From S2P Require Import Prelude Labels Float64 FloatOrder Points FieldCache.

#[local] Open Scope string_scope.
#[local] Open Scope Z_scope.

(** A value of type [any]: the types ConvertToFloat knows; a [float32] is kept as the [float64] it converts to. *)
Inductive anyValue :=
  | vFloat64 (f : float64) | vFloat32 (f : float64)
  | vInt (z : Z) | vInt8 (z : Z) | vInt16 (z : Z) | vInt32 (z : Z) | vInt64 (z : Z)
  | vUint (z : Z) | vUint8 (z : Z) | vUint16 (z : Z) | vUint32 (z : Z) | vUint64 (z : Z)
  | vBool (b : bool)
  | vString (s : string)
  | vNil
  | vOther (typeName : string).

(** The error names the type. *)
Definition ConvertToFloat (value : anyValue) : float64 + string :=
  match value with
  | vFloat64 f | vFloat32 f => inl f
  | vInt z | vInt8 z | vInt16 z | vInt32 z | vInt64 z => inl (Float.of_Z z)
  | vUint z | vUint8 z | vUint16 z | vUint32 z | vUint64 z => inl (Float.of_Z z)
  | vBool b => inl (if b then Float.of_Z 1 else Float.zero)
  | vString _ => inr "string"
  | vNil => inr "<nil>"
  | vOther typeName => inr typeName
  end.

Record metricPoint := mkMetricPoint' { pValue : anyValue; pTime : Z }.

(** The value before the division. *)
Definition deltaAsFloat (past current : anyValue) : float64 + string :=
  match past with
  | vUint64 pastValue =>
      let currentValue := match current with vUint64 v => v | _ => 0 end in
      inl (if currentValue <? pastValue then Float.neg (Float.of_Z (pastValue - currentValue))
           else Float.of_Z (currentValue - pastValue))
  | vInt pastValue =>
      let currentValue := match current with vInt v => v | _ => 0 end in
      inl (Float.of_Z (Int.int64 (currentValue - pastValue)))
  | vInt64 pastValue =>
      let currentValue := match current with vInt64 v => v | _ => 0 end in
      inl (Float.of_Z (Int.int64 (currentValue - pastValue)))
  | _ =>
      match ConvertToFloat past, ConvertToFloat current with
      | inr err, _ => inr err
      | _, inr err => inr err
      | inl pastValueFloat, inl currentValue => inl (Float.sub currentValue pastValueFloat)
      end
  end.

Definition rateAsFloat (pastPoint currentPoint : metricPoint) : float64 + string :=
  match deltaAsFloat (pValue pastPoint) (pValue currentPoint) with
  | inr err => inr err
  | inl value => inl (Float.div value (Float.of_Z (Int.int64 (Time.Unix (pTime currentPoint) - Time.Unix (pTime pastPoint)))))
  end.

(** The value, or the error if any. *)
Definition getDerivativeValue (pastPoint currentPoint : metricPoint) : option float64 * option string :=
  match rateAsFloat pastPoint currentPoint with
  | inl valueFloat => (if Float.geb valueFloat Float.zero then Some valueFloat else None, None)
  | inr err => (None, Some err)
  end.

Record GatherContext := mkContext {
  Measurement : string;
  OriginalMeasurement : string;
  OriginalTags : Labels;
  ctxTags : Labels;
  ctxAnnotations : MetricAnnotations;
  OriginalFields : gmap string anyValue
}.

(** The functions of an Accumulator. *)
Record hooks := mkHooks {
  RenameGlobal : option (GatherContext → GatherContext * bool);
  DifferentiatedMetrics : list string;
  ShouldDifferentiateMetrics : option (GatherContext → string → bool);
  TransformMetrics : option (GatherContext → gmap string float64 → gmap string anyValue → gmap string float64);
  RenameMetrics : option (GatherContext → string → string * string);
  RenameCallbacks : list (Labels → MetricAnnotations → Labels * MetricAnnotations)
}.

#[local] Notation values := (gmap string (gmap string metricPoint)).

Record Accumulator := mkAccumulator { currentValues : values; pastValues : values; accNow : Z }.

Definition PrepareGather (now : Z) (a : Accumulator) : Accumulator := mkAccumulator ∅ (currentValues a) now.

Section Accumulator.
Variable h : hooks.
Variable range : ∀ {A : Type}, gmap string A → list (string * A).

Definition flattenTag (tags : Labels) : string :=
  let l := merge_sort String.le ((λ kv, kv.1 +:+ "=" +:+ kv.2) <$> range tags) in
  String.concat "," l.

(** The state of the loop over the fields: the values, the result and the errors. *)
Record convertState := mkConvertState { csCurrent : values; csResult : gmap string float64; csErrors : list string }.

Definition doDifferentiate (past : values) (st : convertState) (flatTag metricName : string) (value : anyValue) (metricTime : Z) : convertState :=
  let currentPoint := mkMetricPoint' value metricTime in
  let ofTag := default ∅ (csCurrent st !! flatTag) in
  let current := <[flatTag := <[metricName := currentPoint]> ofTag]> (csCurrent st) in
  match past !! flatTag ≫= (.!! metricName) with
  | None => mkConvertState current (csResult st) (csErrors st)
  | Some pastPoint =>
      let (value, err) := getDerivativeValue pastPoint currentPoint in
      mkConvertState current
        (match value with Some tmp => <[metricName := tmp]> (csResult st) | None => csResult st end)
        (csErrors st ++ option_list err)%list
  end.

(** Whether a field is a counter. *)
Definition differentiated (ctx : GatherContext) (metricName : string) : bool :=
  bool_decide (metricName ∈ DifferentiatedMetrics h) ||
  match ShouldDifferentiateMetrics h with Some f => f ctx metricName | None => false end.

Definition flatKey (ctx : GatherContext) : string := Measurement ctx +:+ String (Ascii.ascii_of_nat 0) (flattenTag (ctxTags ctx)).

(** One field. *)
Definition convertField (past : values) (ctx : GatherContext) (metricTime : Z) (st : convertState) (field : string * anyValue) : convertState :=
  let (metricName, value) := field in
  match value with
  | vNil => st
  | vString _ => st
  | _ =>
      if differentiated ctx metricName then doDifferentiate past st (flatKey ctx) metricName value metricTime
      else
        match ConvertToFloat value with
        | inl valueFloat => mkConvertState (csCurrent st) (<[metricName := valueFloat]> (csResult st)) (csErrors st)
        | inr err => mkConvertState (csCurrent st) (csResult st) (csErrors st ++ [("convert " +:+ metricName +:+ " to float: " +:+ err)%string])%list
        end
  end.

Definition convertToFloatFields (a : Accumulator) (ctx : GatherContext) (fields : gmap string anyValue) (metricTime : Z) : convertState :=
  foldl (convertField (pastValues a) ctx metricTime) (mkConvertState (currentValues a) ∅ []) (range fields).

(** The fields by measurement after RenameMetrics. *)
Definition renameMetric (rename : GatherContext → string → string * string) (ctx : GatherContext)
    (m : gmap string (gmap string float64)) (field : string * float64) : gmap string (gmap string float64) :=
  let (newMeasurement, newMetricName) := rename ctx field.1 in
  <[newMeasurement := <[newMetricName := field.2]> (default ∅ (m !! newMeasurement))]> m.

Definition fieldsPerMeasurements (ctx : GatherContext) (floatFields : gmap string float64) : gmap string (gmap string float64) :=
  match RenameMetrics h with
  | Some rename => foldl (renameMetric rename ctx) ∅ (range floatFields)
  | None => {[ Measurement ctx := floatFields ]}
  end.

(** The method wrapAdd returns. *)
Definition wrapAdd (annotated : bool) (kind : addKind) (measurement : string) (fields : gmap string float64) (tags : Labels)
    (annotations : MetricAnnotations) (t : Z) : accCall float64 :=
  if annotated then callAnnotated measurement fields tags annotations t else callAdd kind measurement fields tags t.

(** processMetrics: the calls of the method of the backend, and the errors. *)
Definition processMetrics (annotated : bool) (kind : addKind) (measurement : string) (fields : gmap string anyValue) (tags : Labels)
    (t : list Z) (a : Accumulator) : Accumulator * list (accCall float64) * list string :=
  let ctx := mkContext measurement measurement ∅ tags zeroAnnotations fields in
  let (ctx, drop) := match RenameGlobal h with Some f => f ctx | None => (ctx, false) end in
  if drop then (a, [], [])
  else
    let metricTime := match t with [t] => t | _ => accNow a end in
    let st := convertToFloatFields a ctx fields metricTime in
    let floatFields := match TransformMetrics h with Some f => f ctx (csResult st) fields | None => csResult st end in
    let perMeasurement := fieldsPerMeasurements ctx floatFields in
    let (tags, annotations) := foldl (λ ta f, f ta.1 ta.2) (ctxTags ctx, ctxAnnotations ctx) (RenameCallbacks h) in
    (mkAccumulator (csCurrent st) (pastValues a) (accNow a),
     (λ mf, wrapAdd annotated kind mf.1 mf.2 tags annotations metricTime) <$> range perMeasurement, csErrors st).
End Accumulator.

(** The types of a telegraf.Metric. *)
Inductive valueType : Set := tCounter | tGauge | tUntyped | tSummary | tHistogram | tUnknown.

(** The method AddMetric dispatches to; [None] is the reported error. *)
Definition AddMetric (t : valueType) : option addKind :=
  match t with
  | tCounter => Some KCounter
  | tGauge => Some KGauge
  | tSummary => Some KSummary
  | tHistogram => Some KHistogram
  | tUntyped => Some KFields
  | tUnknown => None
  end.

(** addMetrics of inputs/types.go: the points of the fields. *)
Definition addMetrics (measurement : string) (fields : list (string * anyValue)) (tags : Labels) (annotations : MetricAnnotations) (ts : Z) :
    list MetricPoint :=
  omap (λ '(name, valueRaw),
    let labels := <[LabelName := if bool_decide (measurement = "") then name else measurement +:+ "_" +:+ name]> tags in
    match ConvertToFloat valueRaw with
    | inr _ => None
    | inl value => Some (mkMetricPoint (mkPoint ts value) labels annotations)
    end) fields.

(** * Rates *)
(** A value of the range of its type. *)
Definition typed (v : anyValue) : Prop := match v with vUint64 z => 0 ≤ z < 2 ^ 64 | _ => True end.

(** How much a 64-bit integer grew: exactly for unsigned ones, modulo 2^64 for signed ones.  A value of another type counts as zero. *)
Definition growth (past current : anyValue) : option Z :=
  match past with
  | vUint64 p => Some ((match current with vUint64 c => c | _ => 0 end) - p)
  | vInt p => Some (Int.int64 ((match current with vInt c => c | _ => 0 end) - p))
  | vInt64 p => Some (Int.int64 ((match current with vInt64 c => c | _ => 0 end) - p))
  | _ => None
  end.

(** The rate of a counter over the whole number of seconds between two points.  That of a 64-bit integer is the quotient of the
    integers, when it is not negative: the counter did not decrease, or the clock went back and it did not increase; over no second, the
    counter must have increased.  That of other numbers is computed on floats. *)
Definition rate (past current : metricPoint) : option float64 :=
  let seconds := Int.int64 (Time.Unix (pTime current) - Time.Unix (pTime past)) in
  match growth (pValue past) (pValue current) with
  | Some d => if if seconds =? 0 then 0 <? d else 0 <=? d * seconds then Some (Float.div (Float.of_Z d) (Float.of_Z seconds)) else None
  | None =>
      match ConvertToFloat (pValue past), ConvertToFloat (pValue current) with
      | inl p, inl c => let r := Float.div (Float.sub c p) (Float.of_Z seconds) in if Float.geb r Float.zero then Some r else None
      | _, _ => None
      end
  end.

Lemma deltaAsFloat_growth (past current : anyValue) (d : Z) :
  typed past → typed current → growth past current = Some d → deltaAsFloat past current = inl (Float.of_Z d) ∧ - 2 ^ 65 < d < 2 ^ 65.
Proof.
  assert (∀ z, - 2 ^ 65 < Int.int64 z < 2 ^ 65) as Hint by (intros z; pose proof (Int.wrapS_range 64 z); unfold Int.int64; lia).
  destruct past; try done; cbn [typed growth deltaAsFloat]; intros Hp Hc; [by intros [= <-]..|].
  assert (0 ≤ match current with vUint64 v => v | _ => 0 end < 2 ^ 64) as Hr by (destruct current; cbn [typed] in Hc; lia).
  set (c := match current with vUint64 v => v | _ => 0 end) in *. intros [= <-]. split; [|lia]. destruct (Z.ltb_spec c z); [|done].
  rewrite of_Z_opp by lia. do 2 f_equal. lia.
Qed.

Lemma getDerivativeValue_rate (past current : metricPoint) :
  typed (pValue past) → typed (pValue current) → (getDerivativeValue past current).1 = rate past current.
Proof.
  intros Hp Hc. unfold getDerivativeValue, rateAsFloat, rate. set (seconds := Int.int64 _).
  destruct (growth (pValue past) (pValue current)) as [d|] eqn:Hg.
  - destruct (deltaAsFloat_growth _ _ d Hp Hc Hg) as [-> Hd]. cbn [fst]. rewrite div_of_Z_geb; [done|done|].
    pose proof (Int.wrapS_range 64 (Time.Unix (pTime current) - Time.Unix (pTime past))). unfold seconds, Int.int64. lia.
  - assert (deltaAsFloat (pValue past) (pValue current) = match ConvertToFloat (pValue past), ConvertToFloat (pValue current) with
      | inr err, _ => inr err | _, inr err => inr err | inl p, inl c => inl (Float.sub c p) end) as -> by (by destruct (pValue past)).
    by destruct (ConvertToFloat (pValue past)), (ConvertToFloat (pValue current)).
Qed.

(** * The text of the tags *)
Fixpoint hasNo (c : Ascii.ascii) (s : string) : bool :=
  match s with EmptyString => true | String d s => negb (Ascii.eqb c d) && hasNo c s end.

Lemma split_first (c : Ascii.ascii) (a a' b b' : string) :
  hasNo c a = true → hasNo c a' = true → a +:+ String c b = a' +:+ String c b' → a = a' ∧ b = b'.
Proof.
  revert a'. induction a as [|d a IH]; intros [|d' a'] Ha Ha' Heq; cbn in *; [by injection Heq| | |].
  - injection Heq as -> _. by rewrite Ascii.eqb_refl in Ha'.
  - injection Heq as -> _. by rewrite Ascii.eqb_refl in Ha.
  - injection Heq as -> Heq. apply andb_prop in Ha as [_ Ha]. apply andb_prop in Ha' as [_ Ha'].
    by destruct (IH a' Ha Ha' Heq) as [-> ->].
Qed.

Lemma hasNo_app (c : Ascii.ascii) (a b : string) : hasNo c (a +:+ b) = hasNo c a && hasNo c b.
Proof. induction a as [|d a IH]; cbn; [done|]. by rewrite IH, andb_assoc. Qed.

Lemma concat_inj (l l' : list string) :
  Forall (λ s, s ≠ "" ∧ hasNo "," s = true) l → Forall (λ s, s ≠ "" ∧ hasNo "," s = true) l' →
  String.concat "," l = String.concat "," l' → l = l'.
Proof.
  assert (∀ a b l, hasNo "," a = true → a ≠ b +:+ String "," l) as Hno.
  { intros a b l1 Ha ->. rewrite hasNo_app in Ha. cbn in Ha. by rewrite andb_false_r in Ha. }
  intros Hl. revert l'. induction Hl as [|s l [Hs Hc] Hl IH]; intros l' Hl'; destruct Hl' as [|s' l' [Hs' Hc'] Hl']; [done|..].
  - destruct l'; cbn; [by intros <-|]. by destruct s'.
  - destruct l; cbn; [by intros ->|]. by destruct s.
  - destruct l as [|t l], l' as [|t' l']; cbn [String.concat]; [by intros ->| | |].
    + intros Heq. by apply Hno in Heq.
    + intros Heq. symmetry in Heq. by apply Hno in Heq.
    + intros [-> Heq]%split_first; [|done..]. f_equal. by apply IH.
Qed.

(** Tags that their text tells apart: the names hold neither a comma nor an equal sign, and the values no comma. *)
Definition plainTags (tags : Labels) : Prop :=
  map_Forall (λ name v, hasNo "=" name = true ∧ hasNo "," name = true ∧ hasNo "," v = true) tags.

Definition plainContext (ctx : GatherContext) : Prop := hasNo (Ascii.ascii_of_nat 0) (Measurement ctx) = true ∧ plainTags (ctxTags ctx).

(** * Conversion, whatever the order *)
Section Laws.
Variable h : hooks.
Variable range : ∀ {A : Type}, gmap string A → list (string * A).
Hypothesis range_perm : ∀ (A : Type) (m : gmap string A), range m ≡ₚ map_to_list m.

#[local] Notation flatKey := (flatKey (@range)).
#[local] Notation convertField := (convertField h (@range)).
#[local] Notation values := (gmap string (gmap string metricPoint)).

(** Whether a field is looked at. *)
Definition numeric (v : anyValue) : bool := match v with vNil | vString _ => false | _ => true end.

(** The float of a field, given the point of the same counter in the gather before. *)
Definition floatOf (past : option metricPoint) (counter : bool) (metricTime : Z) (v : anyValue) : option float64 :=
  if negb (numeric v) then None
  else if counter then p ← past; (getDerivativeValue p (mkMetricPoint' v metricTime)).1
  else match ConvertToFloat v with inl f => Some f | inr _ => None end.

Definition floatFields (past : string → option metricPoint) (ctx : GatherContext) (metricTime : Z) (fields : gmap string anyValue) :
    gmap string float64 :=
  map_imap (λ name v, floatOf (past name) (differentiated h ctx name) metricTime v) fields.

(** The point a field leaves for the next gather. *)
Definition recordOf (ctx : GatherContext) (metricTime : Z) (name : string) (v : anyValue) : option metricPoint :=
  if numeric v && differentiated h ctx name then Some (mkMetricPoint' v metricTime) else None.

Definition at2v (m : values) (tag name : string) : option metricPoint := ofTag ← m !! tag; ofTag !! name.

Lemma convertField_spec (past : values) (ctx : GatherContext) (metricTime : Z) (st : convertState) (name : string) (v : anyValue) :
  let st' := convertField past ctx metricTime st (name, v) in
  csResult st' = match floatOf (at2v past (flatKey ctx) name) (differentiated h ctx name) metricTime v with
                 | Some f => <[name := f]> (csResult st) | None => csResult st end ∧
  ∀ tag x, at2v (csCurrent st') tag x =
    if decide (tag = flatKey ctx ∧ x = name ∧ is_Some (recordOf ctx metricTime name v)) then recordOf ctx metricTime name v
    else at2v (csCurrent st) tag x.
Proof.
  cbv zeta. unfold Accumulator.convertField, floatOf, recordOf.
  destruct (numeric v) eqn:Hn; cbn [negb andb].
  2:{ destruct v; try done; (split; [done|]); intros tag x; rewrite decide_False; by try intros (_ & _ & []). }
  assert (∀ st1, match v with vNil | vString _ => st | _ => st1 end = st1) as Hv by by destruct v.
  rewrite Hv. destruct (differentiated h ctx name).
  2:{ split; [by destruct (ConvertToFloat v)|]. intros tag x. rewrite decide_False by (by intros (_ & _ & [])). by destruct (ConvertToFloat v). }
  unfold doDifferentiate. fold (at2v past (flatKey ctx) name). set (current := <[flatKey ctx := _]> _).
  assert (∀ tag x, at2v current tag x =
    if decide (tag = flatKey ctx ∧ x = name ∧ is_Some (Some (mkMetricPoint' v metricTime))) then Some (mkMetricPoint' v metricTime)
    else at2v (csCurrent st) tag x) as Hcur.
  { intros tag x. unfold at2v, current. destruct (decide (tag = flatKey ctx)) as [->|Hne].
    - rewrite lookup_insert_eq. cbn. destruct (decide (x = name)) as [->|Hx].
      + rewrite lookup_insert_eq. rewrite decide_True; [done|]. split_and!; [done|done|by eexists].
      + rewrite lookup_insert_ne, decide_False by (done || by intros (_ & ? & _)). by destruct (csCurrent st !! flatKey ctx).
    - rewrite lookup_insert_ne, decide_False by (done || by intros (? & _)). done. }
  unfold at2v at 1 in Hcur. change (past !! flatKey ctx ≫= _) with (at2v past (flatKey ctx) name).
  destruct (at2v past (flatKey ctx) name) as [p|]; cbn [mbind option_bind].
  - destruct (getDerivativeValue p (mkMetricPoint' v metricTime)) as [value err]. cbn. by destruct value.
  - done.
Qed.

Definition orElse {A : Type} (o o' : option A) : option A := match o with Some x => Some x | None => o' end.

Lemma convertFields_spec (past : values) (ctx : GatherContext) (metricTime : Z) (l : list (string * anyValue)) (st : convertState) :
  NoDup l.*1 →
  let st' := foldl (convertField past ctx metricTime) st l in
  (∀ x, csResult st' !! x =
     orElse (v ← (list_to_map l : gmap string anyValue) !! x; floatOf (at2v past (flatKey ctx) x) (differentiated h ctx x) metricTime v)
       (csResult st !! x)) ∧
  (∀ tag x, at2v (csCurrent st') tag x =
     orElse (if decide (tag = flatKey ctx) then v ← (list_to_map l : gmap string anyValue) !! x; recordOf ctx metricTime x v else None)
       (at2v (csCurrent st) tag x)).
Proof.
  revert st. induction l as [|[name v] l IH]; intros st; cbn [foldl fmap list_fmap fst].
  { intros _. split; [done|]. intros tag x. by destruct (decide (tag = flatKey ctx)). }
  intros [Hn Hnd]%NoDup_cons. apply not_elem_of_list_to_map_1 in Hn.
  destruct (convertField_spec past ctx metricTime st name v) as [Hres Hcur]. specialize (IH (convertField past ctx metricTime st (name, v)) Hnd).
  cbv zeta in IH. destruct IH as [IHr IHc]. cbn [list_to_map foldr fst snd]. split.
  - intros x. rewrite IHr, Hres. destruct (decide (x = name)) as [->|Hne].
    + rewrite Hn, lookup_insert_eq. cbn. destruct (floatOf _ _ _ v); cbn; [by rewrite lookup_insert_eq|done].
    + rewrite (lookup_insert_ne (list_to_map l)) by done. f_equal. destruct (floatOf _ _ _ v); [by rewrite lookup_insert_ne|done].
  - intros tag x. rewrite IHc, Hcur. destruct (decide (tag = flatKey ctx)) as [->|Ht].
    + destruct (decide (x = name)) as [->|Hne].
      * rewrite Hn, lookup_insert_eq. cbn. destruct (recordOf ctx metricTime name v) eqn:Hrec.
        -- by rewrite decide_True by (split_and!; [done|done|by eexists]).
        -- by rewrite decide_False by (by intros (_ & _ & [])).
      * rewrite (lookup_insert_ne (list_to_map l)) by done. f_equal. by rewrite decide_False by (by intros (_ & ? & _)).
    + cbn. by rewrite decide_False by (by intros (? & _)).
Qed.

Lemma convertToFloatFields_spec (a : Accumulator) (ctx : GatherContext) (fields : gmap string anyValue) (metricTime : Z) :
  let st := convertToFloatFields h (@range) a ctx fields metricTime in
  csResult st = floatFields (at2v (pastValues a) (flatKey ctx)) ctx metricTime fields ∧
  ∀ tag x, at2v (csCurrent st) tag x =
    orElse (if decide (tag = flatKey ctx) then v ← fields !! x; recordOf ctx metricTime x v else None) (at2v (currentValues a) tag x).
Proof.
  cbv zeta. unfold convertToFloatFields. assert (NoDup (range fields).*1) as Hnd by (rewrite range_perm; apply NoDup_fst_map_to_list).
  destruct (convertFields_spec (pastValues a) ctx metricTime (range fields) (mkConvertState (currentValues a) ∅ []) Hnd) as [Hr Hc].
  rewrite (list_to_map_proper (range fields) (map_to_list fields)), list_to_map_to_list in * by (done || apply range_perm).
  split; [|exact Hc]. apply map_eq. intros x. rewrite Hr. unfold floatFields. rewrite map_lookup_imap. cbn [csResult].
  rewrite lookup_empty. by destruct (fields !! x ≫= _).
Qed.

(** * Gathers *)
Variable annotated : bool.

(** A call of an Add method by the input. *)
Record inCall := mkInCall { icKind : addKind; icMeasurement : string; icFields : gmap string anyValue; icTags : Labels; icTime : list Z }.

#[local] Notation process call := (processMetrics h (@range) annotated (icKind call) (icMeasurement call) (icFields call) (icTags call) (icTime call)).

Definition gatherWith (now : Z) (calls : list inCall) (a : Accumulator) : Accumulator :=
  foldl (λ a call, (process call a).1.1) (PrepareGather now a) calls.

(** The context of a call that is not dropped, and the time of its points. *)
Definition contextOf (call : inCall) : option GatherContext :=
  let ctx := mkContext (icMeasurement call) (icMeasurement call) ∅ (icTags call) zeroAnnotations (icFields call) in
  let (ctx, drop) := match RenameGlobal h with Some f => f ctx | None => (ctx, false) end in
  if drop then None else Some ctx.
Definition timeOf (now : Z) (call : inCall) : Z := match icTime call with [t] => t | _ => now end.

(** The point of a counter in a call, and the last one of a gather. *)
Definition recordedBy (now : Z) (call : inCall) (tag name : string) : option metricPoint :=
  ctx ← contextOf call;
  if decide (tag = flatKey ctx) then v ← icFields call !! name; recordOf ctx (timeOf now call) name v else None.
Definition lastRecorded (now : Z) (calls : list inCall) (tag name : string) : option metricPoint :=
  foldl (λ o call, orElse (recordedBy now call tag name) o) None calls.

Definition transform (ctx : GatherContext) (fields : gmap string float64) (original : gmap string anyValue) : gmap string float64 :=
  match TransformMetrics h with Some f => f ctx fields original | None => fields end.

Lemma process_spec (call : inCall) (a : Accumulator) :
  pastValues (process call a).1.1 = pastValues a ∧ accNow (process call a).1.1 = accNow a ∧
  (∀ tag x, at2v (currentValues (process call a).1.1) tag x = orElse (recordedBy (accNow a) call tag x) (at2v (currentValues a) tag x)) ∧
  (process call a).1.2 =
  match contextOf call with
  | None => []
  | Some ctx =>
      let t := timeOf (accNow a) call in
      let fields := transform ctx (floatFields (at2v (pastValues a) (flatKey ctx)) ctx t (icFields call)) (icFields call) in
      let (tags, annotations) := foldl (λ ta f, f ta.1 ta.2) (ctxTags ctx, ctxAnnotations ctx) (RenameCallbacks h) in
      (λ mf, wrapAdd annotated (icKind call) mf.1 mf.2 tags annotations t) <$> range (fieldsPerMeasurements h (@range) ctx fields)
  end.
Proof.
  unfold processMetrics, recordedBy, contextOf.
  destruct (match RenameGlobal h with Some f => _ | None => _ end) as [ctx drop]. destruct drop; [done|].
  destruct (convertToFloatFields_spec a ctx (icFields call) (timeOf (accNow a) call)) as [Hres Hcur]. unfold timeOf in *.
  destruct (foldl _ _ (RenameCallbacks h)) as [tags annotations]. cbn [fst snd pastValues accNow currentValues].
  split; [done|]. split; [done|]. split; [exact Hcur|]. unfold transform. cbv zeta. by rewrite Hres.
Qed.

Lemma gatherWith_spec (now : Z) (calls : list inCall) (a : Accumulator) :
  pastValues (gatherWith now calls a) = currentValues a ∧ accNow (gatherWith now calls a) = now ∧
  ∀ tag x, at2v (currentValues (gatherWith now calls a)) tag x = lastRecorded now calls tag x.
Proof.
  induction calls as [|call calls IH] using rev_ind; [done|]. unfold gatherWith, lastRecorded. rewrite foldl_app. cbn [foldl].
  fold (gatherWith now calls a). destruct IH as (Hp & Hn & Hc). destruct (process_spec call (gatherWith now calls a)) as (Hp' & Hn' & Hc' & _).
  split; [congruence|]. split; [congruence|]. intros tag x. rewrite Hc', Hn, Hc, foldl_app. done.
Qed.

(** Different plain tags have different texts. *)
Lemma flattenTag_pairs (tags tags' : Labels) : plainTags tags → plainTags tags' → flattenTag (@range) tags = flattenTag (@range) tags' → tags ⊆ tags'.
Proof.
  intros Hp Hp' Heq. set (pair := λ kv : string * string, kv.1 +:+ "=" +:+ kv.2).
  assert (∀ t, plainTags t → Forall (λ s, s ≠ "" ∧ hasNo "," s = true) (merge_sort String.le (pair <$> range t))) as Hf.
  { intros t Ht. rewrite merge_sort_Permutation, range_perm, Forall_fmap, Forall_forall. intros [k v] Hin%elem_of_map_to_list.
    destruct (Ht k v Hin) as (_ & Hk & Hv). unfold pair. cbn. split; [by destruct k|]. by rewrite hasNo_app, Hk; cbn. }
  apply concat_inj in Heq; [|by apply Hf..]. fold pair in Heq. apply map_subseteq_spec. intros k v Hkv.
  assert (pair (k, v) ∈ pair <$> range tags) as Hin by (apply list_elem_of_fmap_2; by rewrite range_perm, elem_of_map_to_list).
  rewrite <- (merge_sort_Permutation String.le), Heq, merge_sort_Permutation in Hin.
  apply list_elem_of_fmap in Hin as ([k' v'] & Hpair & Hin). rewrite range_perm, elem_of_map_to_list in Hin.
  apply split_first in Hpair as [Hk Hv]; [|by eapply Hp|by eapply Hp']. by cbn in Hk, Hv; subst.
Qed.

Lemma flatKey_inj (ctx ctx' : GatherContext) : plainContext ctx → plainContext ctx' →
  flatKey ctx = flatKey ctx' ↔ Measurement ctx = Measurement ctx' ∧ ctxTags ctx = ctxTags ctx'.
Proof.
  intros [Hm Ht] [Hm' Ht']. unfold Accumulator.flatKey. split; [|by intros [-> ->]].
  intros [-> Heq]%split_first; [|done..]. split; [done|]. apply (anti_symm (⊆)); by apply flattenTag_pairs.
Qed.

(** The point of a counter of a measurement with these tags in a call, and the last one in a gather. *)
Definition sentBy (now : Z) (call : inCall) (measurement : string) (tags : Labels) (name : string) : option metricPoint :=
  ctx ← contextOf call;
  if decide (measurement = Measurement ctx ∧ tags = ctxTags ctx) then v ← icFields call !! name; recordOf ctx (timeOf now call) name v else None.
Definition lastSent (now : Z) (calls : list inCall) (measurement : string) (tags : Labels) (name : string) : option metricPoint :=
  foldl (λ o call, orElse (sentBy now call measurement tags name) o) None calls.

(** The float the backend gets for a field, given the point of the same counter in the gather before. *)
Definition sentValue (past : option metricPoint) (counter : bool) (metricTime : Z) (v : anyValue) : option float64 :=
  if negb (numeric v) then None
  else if counter then p ← past; rate p (mkMetricPoint' v metricTime)
  else match ConvertToFloat v with inl f => Some f | inr _ => None end.

(** A call whose tags their text tells apart, with values of the range of their types. *)
Definition plainCall (call : inCall) : Prop :=
  (∀ ctx, contextOf call = Some ctx → plainContext ctx) ∧ map_Forall (λ _ v, typed v) (icFields call).

Lemma lastRecorded_sent (now : Z) (calls : list inCall) (ctx : GatherContext) (name : string) :
  plainContext ctx → (∀ call, call ∈ calls → plainCall call) →
  lastRecorded now calls (flatKey ctx) name = lastSent now calls (Measurement ctx) (ctxTags ctx) name ∧
  ∀ p, lastRecorded now calls (flatKey ctx) name = Some p → typed (pValue p).
Proof.
  intros Hctx. induction calls as [|call calls IH] using rev_ind; [done|]. intros Hcalls. unfold lastRecorded, lastSent. rewrite !foldl_app. cbn [foldl].
  fold (lastRecorded now calls (flatKey ctx) name) (lastSent now calls (Measurement ctx) (ctxTags ctx) name).
  destruct IH as [<- Htyped]; [intros c Hc; apply Hcalls; set_solver|]. destruct (Hcalls call) as [Hplain Hfields]; [set_solver|].
  unfold recordedBy, sentBy. destruct (contextOf call) as [ctx'|]; [|done]. cbn [mbind option_bind].
  rewrite (decide_ext _ _ _ _ (flatKey_inj ctx ctx' Hctx (Hplain ctx' eq_refl))). case_decide; [|done].
  split; [done|]. destruct (icFields call !! name) as [v|] eqn:Hv; [|done]. cbn [mbind option_bind]. unfold recordOf.
  destruct (_ && _); [|done]. intros p [= <-]. by apply (Hfields name).
Qed.

Lemma floatFields_sent (now : Z) (calls : list inCall) (ctx : GatherContext) (metricTime : Z) (fields : gmap string anyValue) :
  plainContext ctx → (∀ call, call ∈ calls → plainCall call) → map_Forall (λ _ v, typed v) fields →
  floatFields (lastRecorded now calls (flatKey ctx)) ctx metricTime fields =
  map_imap (λ name v, sentValue (lastSent now calls (Measurement ctx) (ctxTags ctx) name) (differentiated h ctx name) metricTime v) fields.
Proof.
  intros Hctx Hcalls Hfields. apply map_eq. intros name. unfold floatFields. rewrite !map_lookup_imap.
  destruct (fields !! name) as [v|] eqn:Hv; [|done]. cbn [mbind option_bind]. specialize (Hfields name v Hv).
  destruct (lastRecorded_sent now calls ctx name Hctx Hcalls) as [<- Htyped]. unfold floatOf, sentValue.
  destruct (negb (numeric v)); [done|]. destruct (differentiated h ctx name); [|done].
  destruct (lastRecorded now calls (flatKey ctx) name) as [p|]; [|done]. cbn [mbind option_bind].
  apply getDerivativeValue_rate; [by apply Htyped|done].
Qed.

(** C32. The rates of a gather are taken between the points of the same counter in this gather and in the one before, whatever
    the state before, the order of the maps and the other calls of this gather: what the backend receives for a call is made of the floats of its
    plain fields and, for each counter, of its growth since the last point that the previous gather had for the same
    measurement and the same tags, over the whole seconds between the two points.  A counter is left out when the
    previous gather had no such point, when it decreased while the clock went forward, when it did not grow within the
    same second, or when its value is not a number.  The growth of a 64-bit integer is that of the integers.  The tags and measurements are
    those that their text tells apart (no comma in tags, no equal sign in their names, no zero byte in the measurement) and the
    values are in the range of their types. *)
Theorem rates_between_gathers (a : Accumulator) (now1 now2 : Z) (calls1 calls2 : list inCall) (call : inCall) :
  (∀ c, c ∈ call :: calls1 → plainCall c) →
  (process call (gatherWith now2 calls2 (gatherWith now1 calls1 a))).1.2 =
  match contextOf call with
  | None => []
  | Some ctx =>
      let t := timeOf now2 call in
      let floats := map_imap (λ name v,
        sentValue (lastSent now1 calls1 (Measurement ctx) (ctxTags ctx) name) (differentiated h ctx name) t v) (icFields call) in
      let fields := transform ctx floats (icFields call) in
      let (tags, annotations) := foldl (λ ta f, f ta.1 ta.2) (ctxTags ctx, ctxAnnotations ctx) (RenameCallbacks h) in
      (λ mf, wrapAdd annotated (icKind call) mf.1 mf.2 tags annotations t) <$> range (fieldsPerMeasurements h (@range) ctx fields)
  end.
Proof.
  intros Hplain. destruct (gatherWith_spec now1 calls1 a) as (_ & _ & Hcur).
  destruct (gatherWith_spec now2 calls2 (gatherWith now1 calls1 a)) as (Hpast & Hnow & _).
  destruct (process_spec call (gatherWith now2 calls2 (gatherWith now1 calls1 a))) as (_ & _ & _ & ->).
  destruct (Hplain call) as [Hctx Hfields]; [by left|].
  destruct (contextOf call) as [ctx|]; [|done]. cbv zeta. rewrite Hpast, Hnow.
  rewrite <- floatFields_sent; [|by apply Hctx|intros c ?; apply Hplain; by right|done].
  assert (floatFields (at2v (currentValues (gatherWith now1 calls1 a)) (flatKey ctx)) ctx (timeOf now2 call) (icFields call) =
          floatFields (lastRecorded now1 calls1 (flatKey ctx)) ctx (timeOf now2 call) (icFields call)) as ->; [|done].
  unfold floatFields. apply map_eq. intros x. rewrite !map_lookup_imap. by destruct (icFields call !! x); cbn; rewrite ?Hcur.
Qed.

(** The order in which the tags are visited does not matter. *)
Lemma flattenTag_order (tags : Labels) : flattenTag (@range) tags = flattenTag allOf tags.
Proof.
  unfold flattenTag. f_equal. apply (StronglySorted_unique String.le); [apply StronglySorted_merge_sort; apply _..|].
  rewrite !merge_sort_Permutation. apply fmap_Permutation. by rewrite range_perm.
Qed.
End Laws.

(** * Witness and examples *)
Definition sampleHooks : hooks := mkHooks None ["requests"] None None None [].
Definition sampleInCall (requests : Z) : inCall :=
  mkInCall KFields "nginx" {[ "requests" := vUint64 requests; "active" := vInt 3; "version" := vString "1.2" ]} {[ "item" := "a" ]} [].

Lemma sampleInCall_plain (requests : Z) : 0 ≤ requests < 2 ^ 64 → plainCall sampleHooks (sampleInCall requests).
Proof.
  intros Hr. split; [intros ctx [= <-]; split; [done|]|].
  - intros k v. cbn [ctxTags]. by intros [<- <-]%lookup_singleton_Some.
  - intros k v. cbn [icFields sampleInCall]. rewrite !lookup_insert_Some, lookup_singleton_Some. by intros [[_ <-]|[_ [[_ <-]|[_ [_ <-]]]]].
Qed.

Lemma rates_between_gathers_witness :
  (processMetrics sampleHooks allOf true KFields "nginx" (icFields (sampleInCall 1500)) {[ "item" := "a" ]} []
     (gatherWith sampleHooks allOf true (20 * Time.second) []
        (gatherWith sampleHooks allOf true (10 * Time.second) [sampleInCall 1000] (mkAccumulator ∅ ∅ 0)))).1.2 =
  [callAnnotated "nginx" {[ "requests" := Float.of_Z 50; "active" := Float.of_Z 3 ]} {[ "item" := "a" ]} zeroAnnotations (20 * Time.second)].
Proof.
  assert (∀ c, c ∈ [sampleInCall 1500; sampleInCall 1000] → plainCall sampleHooks c) as Hplain.
  { intros c [->|[->|?%not_elem_of_nil]%elem_of_cons]%elem_of_cons; [apply sampleInCall_plain; done..|done]. }
  etransitivity; [exact (rates_between_gathers sampleHooks allOf allOf_perm true (mkAccumulator ∅ ∅ 0) (10 * Time.second) (20 * Time.second)
    [sampleInCall 1000] [] (sampleInCall 1500) Hplain)|by vm_compute].
Defined.

(** Two gathers in the same second: an increase divided by zero is an infinite rate, and is sent. *)
Example rate_same_second :
  getDerivativeValue (mkMetricPoint' (vUint64 10) (1000 * Time.millisecond)) (mkMetricPoint' (vUint64 20) (1900 * Time.millisecond)) =
  (Some (F64 0x7FF0000000000000), None).
Proof. by vm_compute. Qed.

(** Different tags with the same flat text: the counters of one are taken for those of the other. *)
Example flattenTag_collision :
  flattenTag allOf {[ "a" := "1,b=2" ]} = flattenTag allOf {[ "a" := "1"; "b" := "2" ]}.
Proof. by vm_compute. Qed.

(** A counter that changes its type is read as zero, and its rate is left out. *)
Example rate_type_change :
  getDerivativeValue (mkMetricPoint' (vUint64 10) 0) (mkMetricPoint' (vInt64 20) (10 * Time.second)) = (None, None).
Proof. by vm_compute. Qed.
