(* ===== verification/Collector.v ===== *)
(** The collector of inputs (collector/collector.go): the inputs added, removed and gathered by
    concurrent goroutines.

    An input, its [WaitGroup] and the map of its field caches are created together by AddInput and
    are one reference, so that a goroutine keeps those of its input even when the identifier is
    given to another one.  Each action below is a part of the code that runs under the lock of the
    collector or touches nothing shared.  [range] is the order in which Go visits the inputs. *)
From S2P Require Import Prelude Labels Slots FieldCache.

#[local] Open Scope Z_scope.

(** A reference: whether the input is a ServiceInput, the counter of its WaitGroup, its field caches. *)
Record inputRef := mkInputRef { irService : bool; irWG : nat; irCache : caches }.

(** Where a gathering goroutine is: before Gather, in it, and after it before the deferred calls. *)
Inductive phase : Set := waiting | running | finished.

(** A goroutine of runOnce, with what it captured under the lock. *)
Record goroutine := mkGoroutine {
  goID : Z; goInput : nat; goWG : nat; goCache : nat; goTime : Z; goLast : option Z; goPhase : phase }.

(** Calls of the methods of the inputs, in order. *)
Inductive event := evStart (r : nat) | evBegin (r : nat) | evEnd (r : nat) | evStop (r : nat).

#[global] Instance event_eq_dec : EqDecision event.
Proof. solve_decision. Defined.

Record Collector := mkCollector {
  inputs : gmap Z nat;
  gatherWG : gmap Z nat;
  fieldCaches : gmap Z nat;
  lastSuccessfulGather : gmap Z Z;
  refs : gmap nat inputRef;
  goroutines : gmap nat goroutine;
  (** the goroutines of stopInputAsync *)
  stoppers : list nat;
  next : nat;
  log : list event
}.

Definition New : Collector := mkCollector ∅ ∅ ∅ ∅ ∅ ∅ [] 0 [].

Section Collector.
Context {V : Type}.
Variable stale : V.
Variable annotated : bool.
Variable range : ∀ {A : Type}, gmap string A → list (string * A).
Variable rangeInputs : gmap Z nat → list (Z * nat).

(** AddInput: [initFails] and [startFails] are the errors of Init and Start. *)
Definition AddInput (service initFails startFails : bool) (c : Collector) : option Collector :=
  if initFails then Some c
  else
    id ← nextSlot (inputs c);
    let r := next c in
    let refs := <[r := mkInputRef service 0 ∅]> (refs c) in
    if service && startFails then
      Some (mkCollector (delete id (inputs c)) (delete id (gatherWG c)) (delete id (fieldCaches c)) (lastSuccessfulGather c)
        refs (goroutines c) (stoppers c) (S (next c)) (log c))
    else
      Some (mkCollector (<[id := r]> (inputs c)) (<[id := r]> (gatherWG c)) (<[id := r]> (fieldCaches c)) (lastSuccessfulGather c)
        refs (goroutines c) (stoppers c) (S (next c)) (if service then log c ++ [evStart r] else log c)%list).

Definition isService (c : Collector) (r : nat) : bool :=
  match refs c !! r with Some i => irService i | None => false end.

(** stopInputAsync, for each of the inputs. *)
Definition stopInputsAsync (c : Collector) (rs : list nat) : list nat :=
  (stoppers c ++ base.filter (λ r, isService c r = true) rs)%list.

Definition RemoveInput (id : Z) (c : Collector) : Collector :=
  mkCollector (delete id (inputs c)) (delete id (gatherWG c)) (delete id (fieldCaches c)) (delete id (lastSuccessfulGather c))
    (refs c) (goroutines c) (stopInputsAsync c (option_list (inputs c !! id))) (next c) (log c).

Definition Close (c : Collector) : Collector :=
  mkCollector ∅ ∅ (fieldCaches c) (lastSuccessfulGather c) (refs c) (goroutines c)
    (stopInputsAsync c (rangeInputs (inputs c)).*2) (next c) (log c).

Definition setWG (f : nat → nat) (r : nat) (m : gmap nat inputRef) : gmap nat inputRef :=
  alter (λ i, mkInputRef (irService i) (f (irWG i)) (irCache i)) r m.

(** One turn of the loop of runOnce; [None] is the nil WaitGroup. *)
Definition spawn (t0 : Z) (c : Collector) (entry : Z * nat) : option Collector :=
  let (id, r) := entry in
  wg ← gatherWG c !! id;
  cache ← fieldCaches c !! id;
  let g := mkGoroutine id r wg cache t0 (lastSuccessfulGather c !! id) waiting in
  Some (mkCollector (inputs c) (gatherWG c) (fieldCaches c) (lastSuccessfulGather c) (setWG S wg (refs c))
    (<[next c := g]> (goroutines c)) (stoppers c) (S (next c)) (log c)).

Definition runOnce (t0 : Z) (c : Collector) : option Collector :=
  foldl (λ o entry, c ← o; spawn t0 c entry) (Some c) (rangeInputs (inputs c)).

Definition setPhase (g : goroutine) (p : phase) : goroutine :=
  mkGoroutine (goID g) (goInput g) (goWG g) (goCache g) (goTime g) (goLast g) p.

(** The input's Gather is called, unless the gate of the secrets returned an error. *)
Definition beginGather (n : nat) (gateError : bool) (c : Collector) : option Collector :=
  g ← goroutines c !! n;
  match goPhase g with
  | waiting =>
      let (p, log) := if gateError then (finished, log c) else (running, log c ++ [evBegin (goInput g)])%list in
      Some (mkCollector (inputs c) (gatherWG c) (fieldCaches c) (lastSuccessfulGather c) (refs c)
        (<[n := setPhase g p]> (goroutines c)) (stoppers c) (next c) log)
  | _ => None
  end.

(** Gather returns; the metrics are marked and the time of the gather is noted. *)
Definition endGather (n : nat) (calls : list (inputCall V)) (failed : bool) (c : Collector) : option (Collector * list (accCall V)) :=
  g ← goroutines c !! n;
  match goPhase g with
  | running =>
      i ← refs c !! goCache g;
      let (cache, sent) := gatherInput stale annotated (@range) (goTime g) (goLast g) (irCache i) calls failed in
      Some (mkCollector (inputs c) (gatherWG c) (fieldCaches c) (<[goID g := goTime g]> (lastSuccessfulGather c))
        (<[goCache g := mkInputRef (irService i) (irWG i) cache]> (refs c))
        (<[n := setPhase g finished]> (goroutines c)) (stoppers c) (next c) (log c ++ [evEnd (goInput g)])%list, sent)
  | _ => None
  end.

(** inputWG.Done(); [None] is the negative counter. *)
Definition doneGather (n : nat) (c : Collector) : option Collector :=
  g ← goroutines c !! n;
  match goPhase g with
  | finished =>
      i ← refs c !! goWG g;
      if (irWG i =? 0)%nat then None
      else Some (mkCollector (inputs c) (gatherWG c) (fieldCaches c) (lastSuccessfulGather c) (setWG pred (goWG g) (refs c))
        (delete n (goroutines c)) (stoppers c) (next c) (log c))
  | _ => None
  end.

(** wg.Wait() returns and Stop is called, by the stopper at an index. *)
Definition stopInput (i : nat) (c : Collector) : option Collector :=
  r ← stoppers c !! i;
  ir ← refs c !! r;
  if (irWG ir =? 0)%nat then
    Some (mkCollector (inputs c) (gatherWG c) (fieldCaches c) (lastSuccessfulGather c) (refs c) (goroutines c)
      (delete i (stoppers c)) (next c) (log c ++ [evStop r])%list)
  else None.

Inductive action :=
  | actAdd (service initFails startFails : bool)
  | actRemove (id : Z)
  | actClose
  | actRun (t0 : Z)
  | actBegin (n : nat) (gateError : bool)
  | actEnd (n : nat) (calls : list (inputCall V)) (failed : bool)
  | actDone (n : nat)
  | actStop (i : nat).

(** [None]: the action is not possible in this state, or panics. *)
Definition act (c : Collector) (a : action) : option Collector :=
  match a with
  | actAdd service initFails startFails => AddInput service initFails startFails c
  | actRemove id => Some (RemoveInput id c)
  | actClose => Some (Close c)
  | actRun t0 => runOnce t0 c
  | actBegin n gateError => beginGather n gateError c
  | actEnd n calls failed => fst <$> endGather n calls failed c
  | actDone n => doneGather n c
  | actStop i => stopInput i c
  end.

Inductive reachable : Collector → Prop :=
  | reachable_new : reachable New
  | reachable_act (c c' : Collector) (a : action) : reachable c → act c a = Some c' → reachable c'.
End Collector.

(** * Counting goroutines *)
Definition countG (p : goroutine → bool) (m : gmap nat goroutine) : nat :=
  size (base.filter (λ kv : nat * goroutine, p kv.2 = true) m).

Lemma countG_insert (p : goroutine → bool) (m : gmap nat goroutine) (n : nat) (g : goroutine) :
  m !! n = None → countG p (<[n := g]> m) = (Nat.b2n (p g) + countG p m)%nat.
Proof.
  intros Hn. unfold countG. destruct (p g) eqn:Hp.
  - rewrite map_filter_insert_True by done. rewrite map_size_insert_None; [done|]. apply map_lookup_filter_None. by left.
  - by rewrite map_filter_insert_not' by (cbn; intros; congruence).
Qed.

Lemma countG_delete (p : goroutine → bool) (m : gmap nat goroutine) (n : nat) (g : goroutine) :
  m !! n = Some g → (Nat.b2n (p g) + countG p (delete n m) = countG p m)%nat.
Proof. intros Hn. rewrite <-(insert_delete_id m n g) at 2 by done. by rewrite countG_insert by apply lookup_delete_eq. Qed.

Lemma countG_update (p : goroutine → bool) (m : gmap nat goroutine) (n : nat) (g g' : goroutine) :
  m !! n = Some g → (Nat.b2n (p g) + countG p (<[n := g']> m) = Nat.b2n (p g') + countG p m)%nat.
Proof.
  intros Hn. rewrite <-insert_delete_eq, countG_insert by apply lookup_delete_eq.
  pose proof (countG_delete p m n g Hn). lia.
Qed.

Lemma countG_zero (p : goroutine → bool) (m : gmap nat goroutine) (n : nat) (g : goroutine) :
  countG p m = 0%nat → m !! n = Some g → p g = false.
Proof. intros H Hn. pose proof (countG_delete p m n g Hn) as Hd. destruct (p g); [cbn in Hd; lia|done]. Qed.

(** The goroutines of an input, and those that are in its Gather. *)
Definition onInput (r : nat) (g : goroutine) : bool := bool_decide (goInput g = r).
Definition gathering (r : nat) (g : goroutine) : bool := onInput r g && match goPhase g with running => true | _ => false end.

Definition countE (e : event) (l : list event) : nat := length (base.filter (λ e', e' = e) l).

Lemma countE_app (e : event) (l1 l2 : list event) : countE e (l1 ++ l2) = (countE e l1 + countE e l2)%nat.
Proof. unfold countE. by rewrite filter_app, length_app. Qed.

Lemma countE_cons (e e' : event) (l : list event) : countE e (e' :: l) = (Nat.b2n (bool_decide (e' = e)) + countE e l)%nat.
Proof. unfold countE. rewrite filter_cons. case_decide as H; [by rewrite bool_decide_true|by rewrite bool_decide_false]. Qed.

Lemma countE_snoc (e e' : event) (l : list event) : countE e (l ++ [e']) = (Nat.b2n (bool_decide (e' = e)) + countE e l)%nat.
Proof. rewrite countE_app, countE_cons. unfold countE at 2. cbn. lia. Qed.

(** * Invariant *)
(** What Stop relies on: it comes after a Start, when every Gather that began has ended, and nothing is called after it. *)
Definition stopsSafely (l : list event) : Prop :=
  ∀ l1 r l2, l = (l1 ++ evStop r :: l2)%list →
  evStart r ∈ l1 ∧ countE (evBegin r) l1 = countE (evEnd r) l1 ∧
  evBegin r ∉ l2 ∧ evEnd r ∉ l2 ∧ evStop r ∉ l1 ∧ evStop r ∉ l2.

Definition registered (c : Collector) (r : nat) : Prop := ∃ id, inputs c !! id = Some r.

Record Inv (c : Collector) : Prop := mkInv {
  inv_wg : gatherWG c = inputs c;
  inv_cache : ∀ id r, inputs c !! id = Some r → fieldCaches c !! id = Some r;
  inv_inj : ∀ i j r, inputs c !! i = Some r → inputs c !! j = Some r → i = j;
  inv_next : ∀ r, is_Some (refs c !! r) → (r < next c)%nat;
  inv_refs : ∀ r, registered c r ∨ r ∈ stoppers c → is_Some (refs c !! r);
  inv_g : ∀ n g, goroutines c !! n = Some g →
    (n < next c)%nat ∧ goWG g = goInput g ∧ goCache g = goInput g ∧ is_Some (refs c !! goInput g);
  inv_count : ∀ r i, refs c !! r = Some i → irWG i = countG (onInput r) (goroutines c);
  inv_stoppers : NoDup (stoppers c) ∧ ∀ r, r ∈ stoppers c → ¬ registered c r ∧ evStart r ∈ log c;
  inv_stopped : ∀ r, evStop r ∈ log c →
    ¬ registered c r ∧ r ∉ stoppers c ∧ countG (onInput r) (goroutines c) = 0%nat;
  inv_started : ∀ r, evStart r ∈ log c ↔
    isService c r = true ∧ (registered c r ∨ r ∈ stoppers c ∨ evStop r ∈ log c);
  inv_gathering : ∀ r, countE (evBegin r) (log c) = (countE (evEnd r) (log c) + countG (gathering r) (goroutines c))%nat;
  inv_safe : stopsSafely (log c)
}.

Lemma New_inv : Inv New.
Proof.
  split; try done.
  - by intros r [].
  - intros r [[id Hid]|Hin]; [done|]. by apply not_elem_of_nil in Hin.
  - split; [constructor|]. by intros r ?%not_elem_of_nil.
  - by intros r ?%not_elem_of_nil.
  - intros r. split; [by intros ?%not_elem_of_nil|]. by intros [? _].
  - intros l1 r l2 H. by destruct l1.
Qed.

(** Appending a call that is not a Stop, on an input that is not stopped. *)
Lemma stopsSafely_snoc (l : list event) (e : event) :
  stopsSafely l → (∀ r, (e = evBegin r ∨ e = evEnd r) → evStop r ∉ l) → (∀ r, e ≠ evStop r) → stopsSafely (l ++ [e]).
Proof.
  intros Hl He Hns l1 r l2 H. destruct l2 as [|x l2 _] using rev_ind.
  { apply app_inj_tail in H as [_ ->]. by destruct (Hns r). }
  rewrite app_comm_cons, app_assoc in H. apply app_inj_tail in H as [-> ->].
  destruct (Hl l1 r l2 eq_refl) as (H1 & H2 & H3 & H4 & H5 & H6).
  assert (evStop r ∈ (l1 ++ evStop r :: l2)%list) as Hin by (apply elem_of_app; right; left).
  split_and!; try done; rewrite elem_of_app, list_elem_of_singleton; intros [?|?]; try done; subst.
  - by apply (He r); [left|].
  - by apply (He r); [right|].
  - by apply (Hns r).
Qed.

Lemma stopsSafely_stop (l : list event) (r : nat) :
  stopsSafely l → evStart r ∈ l → countE (evBegin r) l = countE (evEnd r) l → evStop r ∉ l → stopsSafely (l ++ [evStop r]).
Proof.
  intros Hl Hs Hc Hn l1 r' l2 H. destruct l2 as [|x l2 _] using rev_ind.
  { apply app_inj_tail in H as [<- [= ->]]. split_and!; try done; apply not_elem_of_nil. }
  rewrite app_comm_cons, app_assoc in H. apply app_inj_tail in H as [-> <-].
  destruct (Hl l1 r' l2 eq_refl) as (H1 & H2 & H3 & H4 & H5 & H6).
  split_and!; try done; rewrite elem_of_app, list_elem_of_singleton; intros [?|[= ->]]; try done.
  apply Hn, elem_of_app. right. left.
Qed.

(** * Preservation *)
Lemma countG_none (p : goroutine → bool) (m : gmap nat goroutine) :
  (∀ n g, m !! n = Some g → p g = false) → countG p m = 0%nat.
Proof.
  intros H. unfold countG. apply map_size_empty_iff, map_empty. intros n. apply map_lookup_filter_None. right. intros g Hn. cbn. by rewrite (H n g Hn).
Qed.

Section Preservation.
Variable c : Collector.
Hypothesis Hinv : Inv c.

Lemma fresh_ref : refs c !! next c = None.
Proof. destruct (refs c !! next c) eqn:H; [|done]. pose proof (inv_next c Hinv (next c) ltac:(by eexists)). lia. Qed.

Lemma unknown_ref (r : nat) :
  refs c !! r = None →
  ¬ registered c r ∧ r ∉ stoppers c ∧ evStart r ∉ log c ∧ evStop r ∉ log c ∧ countG (onInput r) (goroutines c) = 0%nat.
Proof.
  intros Hr. assert (¬ is_Some (refs c !! r)) as Hn by (rewrite Hr; by intros []).
  assert (∀ e, e = evStart r → e ∉ log c) as Hstart.
  { intros e -> H. apply (inv_started c Hinv) in H as [H _]. unfold isService in H. by rewrite Hr in H. }
  split_and!.
  - intros H. apply Hn, (inv_refs c Hinv). by left.
  - intros H. apply Hn, (inv_refs c Hinv). by right.
  - by apply Hstart.
  - intros H. destruct (list_elem_of_split _ _ H) as (l1 & l2 & Hl). destruct (inv_safe c Hinv l1 r l2 Hl) as [Hs _].
    apply (Hstart (evStart r) eq_refl). rewrite Hl. apply elem_of_app. by left.
  - apply countG_none. intros n g Hg. destruct (inv_g c Hinv n g Hg) as (_ & _ & _ & Hs). unfold onInput.
    apply bool_decide_eq_false. intros <-. done.
Qed.

(** The state with a new reference that nothing uses yet. *)
Lemma add_ref_inv (service : bool) (m : gmap Z nat) (l : gmap Z Z) :
  (∀ id r, inputs c !! id = Some r → m !! id = Some r) →
  Inv (mkCollector (inputs c) (gatherWG c) m l (<[next c := mkInputRef service 0 ∅]> (refs c)) (goroutines c) (stoppers c) (S (next c)) (log c)).
Proof.
  intros Hm. pose proof fresh_ref as Hf. destruct (unknown_ref _ Hf) as (Hr & Hs & Hstart & Hstop & Hcount).
  split; unfold registered, isService in *; cbn; try apply Hinv; try done.
  - intros r [x Hx]. apply lookup_insert_Some in Hx as [[<- _]|[_ Hx]]; [lia|]. pose proof (inv_next c Hinv r ltac:(by eexists)). lia.
  - intros r H. destruct (inv_refs c Hinv r H) as [x Hx]. exists x. rewrite lookup_insert_ne; [done|]. intros He. congruence.
  - intros n g Hg. destruct (inv_g c Hinv n g Hg) as (Hn & Hw & Hc & [x Hx]). split_and!; [lia|done|done|].
    exists x. rewrite lookup_insert_ne; [done|]. intros He. congruence.
  - intros r i Hi. apply lookup_insert_Some in Hi as [[<- <-]|[_ Hi]]; [done|]. by apply (inv_count c Hinv).
  - intros r. destruct (decide (r = next c)) as [->|Hne].
    + rewrite lookup_insert_eq. tauto.
    + rewrite lookup_insert_ne by done. apply (inv_started c Hinv).
Qed.

(** The calls that are added to the log by a Start. *)
Definition startLog (service : bool) (r : nat) (l : list event) : list event := if service then (l ++ [evStart r])%list else l.

Lemma startLog_elem (service : bool) (r : nat) (l : list event) (e : event) :
  e ∈ startLog service r l ↔ e ∈ l ∨ (service = true ∧ e = evStart r).
Proof.
  unfold startLog. destruct service; [rewrite elem_of_app, list_elem_of_singleton; tauto|]. split; [by left|]. by intros [?|[? _]].
Qed.

Lemma registered_insert (id : Z) (r x : nat) (cc : Collector) :
  inputs cc = <[id := r]> (inputs c) → inputs c !! id = None → registered cc x ↔ x = r ∨ registered c x.
Proof.
  unfold registered. intros -> Hfree. split.
  - intros [id' H]. apply lookup_insert_Some in H as [[_ <-]|[_ H]]; [by left|]. right. by exists id'.
  - intros [->|[id' H]]; [exists id; by rewrite lookup_insert_eq|]. exists id'. rewrite lookup_insert_ne; [done|]. intros ->. congruence.
Qed.

Lemma register_inv (service : bool) (id : Z) :
  inputs c !! id = None →
  let r := next c in
  Inv (mkCollector (<[id := r]> (inputs c)) (<[id := r]> (gatherWG c)) (<[id := r]> (fieldCaches c)) (lastSuccessfulGather c)
    (<[r := mkInputRef service 0 ∅]> (refs c)) (goroutines c) (stoppers c) (S (next c)) (startLog service r (log c))).
Proof.
  intros Hfree r. set (cc := mkCollector _ _ _ _ _ _ _ _ _). destruct (unknown_ref _ fresh_ref) as (Hr & Hs & Hstart & Hstop & Hcount).
  pose proof (add_ref_inv service (fieldCaches c) (lastSuccessfulGather c) (inv_cache c Hinv)) as Hadd.
  assert (∀ x, registered cc x ↔ x = r ∨ registered c x) as Hreg by (intros x; by apply (registered_insert id)).
  assert (∀ x, isService cc x = if decide (x = r) then service else isService c x) as Hsv.
  { intros x. unfold isService, cc. cbn. destruct (decide (x = r)) as [->|Hne]; [by rewrite lookup_insert_eq|by rewrite lookup_insert_ne]. }
  split.
  - cbn. by rewrite (inv_wg c Hinv).
  - cbn. intros id' r' H. apply lookup_insert_Some in H as [[<- <-]|[Hne H]]; [by rewrite lookup_insert_eq|].
    rewrite lookup_insert_ne by done. by apply (inv_cache c Hinv).
  - cbn. intros i j r' Hi Hj. apply lookup_insert_Some in Hi as [[<- <-]|[Hi0 Hi]], Hj as [[<- Hjr]|[Hj0 Hj]]; [done| | |by apply (inv_inj c Hinv _ _ r')].
    + destruct Hr. by exists j.
    + destruct Hr. exists i. by rewrite <-Hjr in Hi.
  - apply (inv_next _ Hadd).
  - intros x. rewrite Hreg. intros [[->|H]|H]; [unfold cc, r; cbn; rewrite lookup_insert_eq; by eexists|apply (inv_refs _ Hadd); by left|apply (inv_refs _ Hadd); by right].
  - apply (inv_g _ Hadd).
  - apply (inv_count _ Hadd).
  - split; [apply (inv_stoppers c Hinv)|]. intros x Hx. destruct (proj2 (inv_stoppers c Hinv) x Hx) as [Hnr Hst]. rewrite Hreg. cbn.
    split; [|rewrite startLog_elem; by left]. intros [->|H]; done.
  - intros x Hx. apply startLog_elem in Hx as [Hx|[_ ?]]; [|done]. destruct (inv_stopped c Hinv x Hx) as (Hnr & Hns & Hc). rewrite Hreg.
    split_and!; [|done|done]. intros [->|H]; [by apply Hstop|done].
  - intros x. cbn [log stoppers cc]. rewrite !startLog_elem, Hreg, Hsv. pose proof (inv_started c Hinv x) as Hst. destruct (decide (x = r)) as [->|Hne].
    + split; [intros [?|[-> _]]; [done|tauto]|]. intros [-> _]. by right.
    + rewrite Hst. naive_solver.
  - intros x. change (log cc) with (startLog service r (log c)). unfold startLog. destruct service; [|apply (inv_gathering c Hinv)].
    rewrite !countE_snoc, !bool_decide_false by done. apply (inv_gathering c Hinv).
  - cbn. unfold startLog. destruct service; [|apply (inv_safe c Hinv)].
    apply stopsSafely_snoc; [apply (inv_safe c Hinv)|by intros ? [?|?]|done].
Qed.

Lemma AddInput_inv (service initFails startFails : bool) (c' : Collector) :
  AddInput service initFails startFails c = Some c' → Inv c'.
Proof.
  unfold AddInput. destruct initFails; [by intros [= <-]|]. intros H. apply bind_Some in H as (id & Hid & H).
  assert (inputs c !! id = None) as Hfree by by apply firstFree_sound in Hid as (_ & ? & _).
  destruct (service && startFails).
  { injection H as <-. rewrite (inv_wg c Hinv), delete_id by done. rewrite <-(inv_wg c Hinv) at 2. apply add_ref_inv.
    intros id' r Hr. rewrite lookup_delete_ne by (intros ->; congruence). by apply (inv_cache c Hinv). }
  injection H as <-. by apply register_inv.
Qed.

(** Inputs are taken out of the maps, and those that are services given to stoppers. *)
Lemma unregister_inv (m' fc' : gmap Z nat) (last' : gmap Z Z) (rs : list nat) :
  m' ⊆ inputs c → (∀ id r, m' !! id = Some r → fc' !! id = Some r) → NoDup rs →
  (∀ r, r ∈ rs ↔ registered c r ∧ ∀ id, m' !! id ≠ Some r) →
  Inv (mkCollector m' m' fc' last' (refs c) (goroutines c) (stopInputsAsync c rs) (next c) (log c)).
Proof.
  intros Hsub Hfc Hnd Hrs. set (cc := mkCollector _ _ _ _ _ _ _ _ _).
  assert (∀ x, registered cc x → registered c x) as Hreg by (intros x [id Hid]; exists id; by apply (lookup_weaken m')).
  assert (∀ x, x ∈ stoppers cc ↔ x ∈ stoppers c ∨ (isService c x = true ∧ x ∈ rs)) as Hst.
  { intros x. cbn. unfold stopInputsAsync. by rewrite elem_of_app, list_elem_of_filter. }
  split; try apply Hinv; try done.
  - cbn. intros i j r Hi Hj. apply (inv_inj c Hinv i j r); by apply (lookup_weaken m').
  - intros x. rewrite Hst. intros [H|[H|[_ H%Hrs]]]; apply (inv_refs c Hinv); [left; by apply Hreg|by right|left; apply H].
  - split.
    + cbn. apply NoDup_app. split_and!; [apply (inv_stoppers c Hinv)| |by apply NoDup_filter].
      intros x Hx [_ Hin]%list_elem_of_filter. apply Hrs in Hin as [Hin _]. by destruct (proj2 (inv_stoppers c Hinv) x Hx).
    + intros x. rewrite Hst. intros [H|[Hsv Hin]].
      * destruct (proj2 (inv_stoppers c Hinv) x H) as [Hn Hl]. split; [|done]. intros H'. by apply Hn, Hreg.
      * apply Hrs in Hin as [Hx Hno]. split; [intros [id Hid]; by apply (Hno id)|]. apply (inv_started c Hinv). tauto.
  - intros x Hx. destruct (inv_stopped c Hinv x Hx) as (Hn & Hs & Hc). rewrite Hst. split_and!; [|intros [?|[_ ?%Hrs]]; tauto|done].
    intros H. by apply Hn, Hreg.
  - intros x. rewrite Hst. change (isService cc x) with (isService c x). change (log cc) with (log c). rewrite (inv_started c Hinv x).
    split; [|intros (Hsv & [H|[[H|[_ H%Hrs]]|H]]); (split; [done|]); [left; by apply Hreg|right; by left|left; apply H|right; by right]].
    intros [Hsv [[id Hid]|H]]; [|tauto]. destruct (m' !! id) as [y|] eqn:Hm.
    + split; [done|]. left. exists id. rewrite (lookup_weaken _ _ _ _ Hm Hsub) in Hid. cbn. congruence.
    + split; [done|]. right. left. right. split; [done|]. apply Hrs. split; [by exists id|]. intros id' Hid'.
      assert (id = id') as ->; [|congruence]. apply (inv_inj c Hinv id id' x); [done|]. by apply (lookup_weaken m').
Qed.

Lemma RemoveInput_inv (id : Z) : Inv (RemoveInput id c).
Proof.
  unfold RemoveInput. rewrite (inv_wg c Hinv). apply unregister_inv; [apply delete_subseteq| | |].
  - intros id' r H. apply lookup_delete_Some in H as [Hne H]. rewrite lookup_delete_ne by done. by apply (inv_cache c Hinv).
  - destruct (inputs c !! id); [apply NoDup_singleton|constructor].
  - intros r. destruct (inputs c !! id) as [r'|] eqn:Hid; cbn.
    + rewrite list_elem_of_singleton. split.
      * intros ->. split; [by exists id|]. intros id' H. apply lookup_delete_Some in H as [Hne H]. apply Hne. by apply (inv_inj c Hinv _ _ r').
      * intros [[id' H] Hno]. destruct (decide (id' = id)) as [->|Hne]; [congruence|]. destruct (Hno id'). by rewrite lookup_delete_ne.
    + split; [by intros ?%not_elem_of_nil|]. intros [[id' H] Hno]. destruct (Hno id'). rewrite lookup_delete_ne; [done|]. intros <-. congruence.
Qed.

Lemma Close_inv (rangeInputs : gmap Z nat → list (Z * nat)) :
  (∀ m, rangeInputs m ≡ₚ map_to_list m) → Inv (Close rangeInputs c).
Proof.
  intros Hrange. unfold Close. pose proof (unregister_inv ∅ (fieldCaches c) (lastSuccessfulGather c) (rangeInputs (inputs c)).*2) as H. apply H.
  - apply map_empty_subseteq.
  - done.
  - rewrite Hrange. apply NoDup_fmap_2_strong; [|apply NoDup_map_to_list].
    intros [i r] [j s] Hi%elem_of_map_to_list Hj%elem_of_map_to_list. cbn. intros ->. f_equal. by apply (inv_inj c Hinv _ _ s).
  - intros r. rewrite Hrange, list_elem_of_fmap. split.
    + intros ([id r'] & -> & Hin%elem_of_map_to_list). split; [by exists id|]. intros id'. cbn. by rewrite lookup_empty.
    + intros [[id Hid] _]. exists (id, r). split; [done|]. by apply elem_of_map_to_list.
Qed.

Lemma stopped_no_goroutine (n : nat) (g : goroutine) : goroutines c !! n = Some g → evStop (goInput g) ∉ log c.
Proof.
  intros Hg H. destruct (inv_stopped c Hinv _ H) as (_ & _ & H0). pose proof (countG_zero _ _ n g H0 Hg) as Hf.
  unfold onInput in Hf. by apply bool_decide_eq_false in Hf.
Qed.

Definition shape (i : inputRef) : bool * nat := (irService i, irWG i).

(** A goroutine of an input moves to its next phase. *)
Lemma phase_inv (n : nat) (g : goroutine) (p : phase) (refs' : gmap nat inputRef) (last' : gmap Z Z) (log' : list event) :
  goroutines c !! n = Some g → (∀ x, shape <$> refs' !! x = shape <$> refs c !! x) →
  (log' = log c ∧ goPhase g = waiting ∧ p = finished) ∨
  (log' = (log c ++ [evBegin (goInput g)])%list ∧ goPhase g = waiting ∧ p = running) ∨
  (log' = (log c ++ [evEnd (goInput g)])%list ∧ goPhase g = running ∧ p = finished) →
  Inv (mkCollector (inputs c) (gatherWG c) (fieldCaches c) last' refs' (<[n := setPhase g p]> (goroutines c)) (stoppers c) (next c) log').
Proof.
  intros Hg Href Hp. set (cc := mkCollector _ _ _ _ _ _ _ _ _).
  assert (∀ x, is_Some (refs' !! x) ↔ is_Some (refs c !! x)) as Hsome.
  { intros x. specialize (Href x). destruct (refs' !! x), (refs c !! x); try done; split; intros [? ?]; done || by eexists. }
  assert (∀ x, isService cc x = isService c x) as Hsv.
  { intros x. unfold isService. cbn. specialize (Href x). destruct (refs' !! x), (refs c !! x); try done. by injection Href. }
  assert (∀ x, countG (onInput x) (goroutines cc) = countG (onInput x) (goroutines c)) as Hcount.
  { intros x. pose proof (countG_update (onInput x) (goroutines c) n g (setPhase g p) Hg) as H.
    change (onInput x (setPhase g p)) with (onInput x g) in H. cbn [goroutines cc]. lia. }
  assert (∀ e, e ∈ log' ↔ e ∈ log c ∨ (e ∈ log' ∧ (e = evBegin (goInput g) ∨ e = evEnd (goInput g)))) as Hlog.
  { intros e. destruct Hp as [(-> & _)|[(-> & _)|(-> & _)]]; rewrite ?elem_of_app, ?list_elem_of_singleton; tauto. }
  assert (∀ r, (evStart r ∈ log' ↔ evStart r ∈ log c) ∧ (evStop r ∈ log' ↔ evStop r ∈ log c)) as Hlog'.
  { intros r. split; rewrite Hlog; naive_solver. }
  split; try apply Hinv; cbn [log stoppers cc].
  - intros r. cbn. rewrite Hsome. apply (inv_next c Hinv).
  - intros r H. apply Hsome, (inv_refs c Hinv). exact H.
  - intros n' g' H. cbn in H |- *. rewrite Hsome. apply lookup_insert_Some in H as [[<- <-]|[_ H]]; [apply (inv_g c Hinv n g Hg)|by apply (inv_g c Hinv)].
  - intros r i Hi. rewrite Hcount. cbn in Hi. specialize (Href r). rewrite Hi in Href. destruct (refs c !! r) as [i'|] eqn:Hi'; [|done].
    injection Href as _ ->. by apply (inv_count c Hinv).
  - split; [apply (inv_stoppers c Hinv)|]. intros r Hr. destruct (proj2 (inv_stoppers c Hinv) r Hr) as [? ?]. split; [done|]. by apply Hlog'.
  - intros r Hr%Hlog'. rewrite Hcount. by apply (inv_stopped c Hinv).
  - intros r. destruct (Hlog' r) as [-> ->]. rewrite Hsv. apply (inv_started c Hinv).
  - intros r. pose proof (countG_update (gathering r) (goroutines c) n g (setPhase g p) Hg) as H. pose proof (inv_gathering c Hinv r) as Hr.
    cbn [goroutines cc]. unfold gathering at 1 3 in H. change (onInput r (setPhase g p)) with (onInput r g) in H.
    assert (∀ x, bool_decide (evBegin x = evBegin r) = bool_decide (x = r) ∧ bool_decide (evEnd x = evEnd r) = bool_decide (x = r)) as Hb.
    { intros x. split; apply bool_decide_ext; naive_solver. }
    destruct Hp as [(-> & Hph & ->)|[(-> & Hph & ->)|(-> & Hph & ->)]]; rewrite Hph in H; cbn [goPhase setPhase] in H;
      rewrite ?countE_snoc, ?(proj1 (Hb _)), ?(proj2 (Hb _)), ?(bool_decide_false (evBegin _ = evEnd _)), ?(bool_decide_false (evEnd _ = evBegin _)) by done;
      unfold onInput in H; destruct (bool_decide (goInput g = r)); cbn in *; lia.
  - pose proof (stopped_no_goroutine n g Hg) as Hns.
    destruct Hp as [(-> & _)|[(-> & _)|(-> & _)]]; [apply (inv_safe c Hinv)|apply stopsSafely_snoc; [apply (inv_safe c Hinv)| |done]..];
      intros r [[= Hr]|[= Hr]]; by rewrite <-Hr.
Qed.

Lemma setWG_lookup (f : nat → nat) (r x : nat) (m : gmap nat inputRef) :
  setWG f r m !! x = (λ i, if decide (x = r) then mkInputRef (irService i) (f (irWG i)) (irCache i) else i) <$> m !! x.
Proof.
  unfold setWG. destruct (decide (x = r)) as [->|Hne]; [by rewrite lookup_alter_eq|]. rewrite lookup_alter_ne by done. by destruct (m !! x).
Qed.

Lemma setWG_some (f : nat → nat) (r x : nat) (m : gmap nat inputRef) : is_Some (setWG f r m !! x) ↔ is_Some (m !! x).
Proof. rewrite setWG_lookup. apply fmap_is_Some. Qed.

(** The goroutines of an input and its counter change together. *)
Lemma count_inv (gs : gmap nat goroutine) (f : nat → nat) (r nx : nat) :
  (next c ≤ nx)%nat →
  (∀ n g, gs !! n = Some g → (n < nx)%nat ∧ goWG g = goInput g ∧ goCache g = goInput g ∧ is_Some (refs c !! goInput g)) →
  (∀ x, countG (onInput x) gs = if decide (x = r) then f (countG (onInput x) (goroutines c)) else countG (onInput x) (goroutines c)) →
  (∀ x, countG (gathering x) gs = countG (gathering x) (goroutines c)) →
  evStop r ∉ log c →
  Inv (mkCollector (inputs c) (gatherWG c) (fieldCaches c) (lastSuccessfulGather c) (setWG f r (refs c)) gs (stoppers c) nx (log c)).
Proof.
  intros Hnx Hgs Hon Hgath Hns. set (cc := mkCollector _ _ _ _ _ _ _ _ _).
  assert (∀ x, isService cc x = isService c x) as Hsv.
  { intros x. unfold isService. cbn. rewrite setWG_lookup. destruct (refs c !! x); [|done]. cbn. by destruct (decide (x = r)). }
  split; try apply Hinv; cbn [log stoppers goroutines refs next cc].
  - intros x. rewrite setWG_some. intros H%(inv_next c Hinv). lia.
  - intros x H. apply setWG_some, (inv_refs c Hinv). exact H.
  - intros n g H. rewrite setWG_some. by apply Hgs.
  - intros x i Hi. rewrite setWG_lookup in Hi. apply fmap_Some in Hi as (i' & Hi' & ->). rewrite Hon, <-(inv_count c Hinv x i' Hi').
    by destruct (decide (x = r)).
  - intros x Hx. destruct (inv_stopped c Hinv x Hx) as (H1 & H2 & H3). split_and!; [done..|]. rewrite Hon, decide_False; [done|].
    intros ->. done.
  - intros x. rewrite Hsv. apply (inv_started c Hinv).
  - intros x. rewrite Hgath. apply (inv_gathering c Hinv).
Qed.

Lemma spawn_inv (t0 : Z) (id : Z) (r : nat) :
  inputs c !! id = Some r → ∃ c', spawn t0 c (id, r) = Some c' ∧ Inv c' ∧ inputs c' = inputs c.
Proof.
  intros Hid. assert (gatherWG c !! id = Some r) as Hwg by by rewrite (inv_wg c Hinv).
  unfold spawn. rewrite Hwg. cbn. rewrite (inv_cache c Hinv id r Hid). cbn. eexists. split; [done|].
  split; [|done]. assert (goroutines c !! next c = None) as Hnew.
  { destruct (goroutines c !! next c) eqn:H; [|done]. destruct (inv_g c Hinv _ _ H). lia. }
  apply count_inv; [lia| | | |].
  - intros n g H. apply lookup_insert_Some in H as [[<- <-]|[_ H]]; cbn.
    + split_and!; [lia|done|done|]. apply (inv_refs c Hinv). left. by exists id.
    + destruct (inv_g c Hinv n g H) as (? & ? & ? & ?). split_and!; [lia|done..].
  - intros x. rewrite countG_insert by done. unfold onInput at 1. cbn. case_bool_decide; destruct (decide (x = r)); subst; done.
  - intros x. rewrite countG_insert by done. unfold gathering at 1. cbn. by rewrite andb_false_r.
  - intros H. destruct (inv_stopped c Hinv r H) as [[] _]. by exists id.
Qed.

Lemma doneGather_inv (n : nat) (c' : Collector) : doneGather n c = Some c' → Inv c'.
Proof.
  unfold doneGather. intros H. apply bind_Some in H as (g & Hg & H). destruct (goPhase g) eqn:Hp; try done.
  apply bind_Some in H as (i & Hi & H). destruct (irWG i =? 0)%nat; [done|]. injection H as <-.
  destruct (inv_g c Hinv n g Hg) as (Hn & Hw & _ & _). rewrite Hw. apply count_inv; [done| | | |].
  - intros n' g' H. apply lookup_delete_Some in H as [_ H]. by apply (inv_g c Hinv).
  - intros x. pose proof (countG_delete (onInput x) (goroutines c) n g Hg) as H. unfold onInput at 1 in H. revert H.
    case_bool_decide as Hx; destruct (decide (x = goInput g)); subst; cbn; intros; try done; lia.
  - intros x. pose proof (countG_delete (gathering x) (goroutines c) n g Hg) as H. unfold gathering at 1 in H.
    rewrite Hp, andb_false_r in H. exact H.
  - by apply (stopped_no_goroutine n).
Qed.

Lemma stopInput_inv (i : nat) (c' : Collector) : stopInput i c = Some c' → Inv c'.
Proof.
  unfold stopInput. intros H. apply bind_Some in H as (r & Hr & H). apply bind_Some in H as (ir & Hir & H).
  destruct (irWG ir =? 0)%nat eqn:H0; [|done]. injection H as <-. apply Nat.eqb_eq in H0. rewrite (inv_count c Hinv r ir Hir) in H0.
  set (cc := mkCollector _ _ _ _ _ _ _ _ _). destruct (inv_stoppers c Hinv) as [Hnd Hst].
  pose proof (list_elem_of_lookup_2 _ _ _ Hr) as Hin. destruct (Hst r Hin) as [Hnr Hstart].
  assert (stoppers c ≡ₚ r :: stoppers cc) as Hperm by (by apply delete_Permutation).
  assert (r ∉ stoppers cc) as Hnin by (rewrite Hperm in Hnd; by apply NoDup_cons in Hnd as [? _]).
  assert (∀ x, x ∈ stoppers c ↔ x = r ∨ x ∈ stoppers cc) as Hel by (intros x; by rewrite Hperm, elem_of_cons).
  assert (evStop r ∉ log c) as Hns by (intros H; by destruct (inv_stopped c Hinv r H) as (_ & ? & _)).
  assert (∀ x, (evStart x ∈ log cc ↔ evStart x ∈ log c) ∧ (evStop x ∈ log cc ↔ evStop x ∈ log c ∨ x = r)) as Hlog.
  { intros x. cbn. rewrite !elem_of_app, !list_elem_of_singleton. naive_solver. }
  assert (countG (gathering r) (goroutines c) = 0%nat) as Hg0.
  { apply countG_none. intros n g Hg. unfold gathering. by rewrite (countG_zero _ _ n g H0 Hg). }
  split; try apply Hinv.
  - intros x H. apply (inv_refs c Hinv). rewrite Hel. change (registered cc x) with (registered c x) in H. tauto.
  - split; [rewrite Hperm in Hnd; by apply NoDup_cons in Hnd as [_ Hnd]|]. intros x Hx. destruct (Hst x) as [Ha Hb]; [apply Hel; by right|].
    split; [done|]. by apply Hlog.
  - intros x Hx. apply Hlog in Hx as [Hx| ->]; [|done]. destruct (inv_stopped c Hinv x Hx) as (Ha & Hx' & Hb). rewrite Hel in Hx'. tauto.
  - intros x. destruct (Hlog x) as [-> ->]. rewrite (inv_started c Hinv x), Hel. change (registered cc x) with (registered c x).
    change (isService cc x) with (isService c x). tauto.
  - intros x. change (goroutines cc) with (goroutines c). change (log cc) with (log c ++ [evStop r])%list.
    rewrite !countE_snoc, !bool_decide_false by done. apply (inv_gathering c Hinv).
  - cbn. apply stopsSafely_stop; [apply (inv_safe c Hinv)|done| |done]. rewrite (inv_gathering c Hinv r), Hg0. lia.
Qed.
End Preservation.

Section Laws.
Context {V : Type}.
Variable stale : V.
Variable annotated : bool.
Variable range : ∀ {A : Type}, gmap string A → list (string * A).
Variable rangeInputs : gmap Z nat → list (Z * nat).
Hypothesis range_perm : ∀ m, rangeInputs m ≡ₚ map_to_list m.

#[local] Notation act := (act stale annotated (@range) rangeInputs).
#[local] Notation reachable := (reachable stale annotated (@range) rangeInputs).

Lemma runOnce_inv (t0 : Z) (c : Collector) : Inv c → ∃ c', runOnce rangeInputs t0 c = Some c' ∧ Inv c' ∧ inputs c' = inputs c.
Proof.
  intros Hinv. unfold runOnce. assert (∀ id r, (id, r) ∈ rangeInputs (inputs c) → inputs c !! id = Some r) as Hin.
  { intros id r. rewrite range_perm. apply elem_of_map_to_list. }
  revert Hin. generalize (rangeInputs (inputs c)) as l. intros l. revert c Hinv.
  induction l as [|[id r] l IH]; intros c Hinv Hin; [by exists c|]. cbn [foldl mbind option_bind].
  destruct (spawn_inv c Hinv t0 id r) as (c1 & Hs & Hinv1 & Heq); [by apply Hin; left|]. rewrite Hs.
  destruct (IH c1 Hinv1) as (c' & H & Hinv' & Heq'); [intros id' r' H; rewrite Heq; apply Hin; by right|].
  exists c'. split; [done|]. split; [done|]. congruence.
Qed.

Lemma act_inv (c c' : Collector) (a : action) : Inv c → act c a = Some c' → Inv c'.
Proof.
  intros Hinv. destruct a as [service i s|id| |t0|n gateError|n calls failed|n|i]; cbn.
  - by apply AddInput_inv.
  - intros [= <-]. by apply RemoveInput_inv.
  - intros [= <-]. by apply Close_inv.
  - intros H. destruct (runOnce_inv t0 c Hinv) as (c1 & H1 & ? & _). congruence.
  - unfold beginGather. intros H. apply bind_Some in H as (g & Hg & H). destruct (goPhase g) eqn:Hp; try done.
    destruct gateError; injection H as <-; apply phase_inv; auto.
  - intros H. apply fmap_Some in H as ([c1 sent] & H & ->). unfold endGather in H. apply bind_Some in H as (g & Hg & H).
    destruct (goPhase g) eqn:Hp; try done. apply bind_Some in H as (i & Hi & H).
    destruct (gatherInput _ _ _ _ _ _ _ _) as [cache out]. injection H as <- _. apply phase_inv; auto.
    intros x. destruct (decide (x = goCache g)) as [->|Hne]; [by rewrite lookup_insert_eq, Hi|by rewrite lookup_insert_ne].
  - by apply doneGather_inv.
  - by apply stopInput_inv.
Qed.

Lemma collector_inv (c : Collector) : reachable c → Inv c.
Proof. induction 1 as [|c c' a _ IH H]; [apply New_inv|by apply (act_inv c c' a)]. Qed.

(** C25. On every interleaving of additions, removals, closes and gathers, an input is stopped at most
    once, after it was started, when every Gather that began on it has ended, and neither Gather nor
    Stop is called on it afterwards. *)
Theorem stop_after_gathers (c : Collector) : reachable c → stopsSafely (log c).
Proof. intros H. apply inv_safe. by apply collector_inv. Qed.

(** The actions of the goroutines themselves. *)
Definition internal (a : action (V := V)) : bool :=
  match a with actBegin _ _ | actEnd _ _ _ | actDone _ | actStop _ => true | _ => false end.

Definition inPhase (p : phase) (g : goroutine) : bool :=
  match p, goPhase g with waiting, waiting | running, running | finished, finished => true | _, _ => false end.

(** What is left to do. *)
Definition weight (c : Collector) : nat :=
  (3 * countG (inPhase waiting) (goroutines c) + 2 * countG (inPhase running) (goroutines c) +
   countG (inPhase finished) (goroutines c) + length (stoppers c))%nat.

Definition phaseWeight (g : goroutine) : nat := match goPhase g with waiting => 3 | running => 2 | finished => 1 end.

Lemma weight_update (c : Collector) (n : nat) (g g' : goroutine) :
  goroutines c !! n = Some g →
  let count p := countG (inPhase p) (<[n := g']> (goroutines c)) in
  (phaseWeight g + (3 * count waiting + 2 * count running + count finished + length (stoppers c)) = phaseWeight g' + weight c)%nat.
Proof.
  intros Hg count. unfold weight, count, phaseWeight.
  pose proof (countG_update (inPhase waiting) _ n g g' Hg) as H1. pose proof (countG_update (inPhase running) _ n g g' Hg) as H2.
  pose proof (countG_update (inPhase finished) _ n g g' Hg) as H3.
  unfold inPhase at 1 3 in H1. unfold inPhase at 1 3 in H2. unfold inPhase at 1 3 in H3.
  destruct (goPhase g), (goPhase g'); cbn [Nat.b2n] in *; lia.
Qed.

Lemma weight_delete (c : Collector) (n : nat) (g : goroutine) :
  goroutines c !! n = Some g →
  let count p := countG (inPhase p) (delete n (goroutines c)) in
  (phaseWeight g + (3 * count waiting + 2 * count running + count finished + length (stoppers c)) = weight c)%nat.
Proof.
  intros Hg count. unfold weight, count, phaseWeight.
  pose proof (countG_delete (inPhase waiting) _ n g Hg) as H1. pose proof (countG_delete (inPhase running) _ n g Hg) as H2.
  pose proof (countG_delete (inPhase finished) _ n g Hg) as H3.
  unfold inPhase at 1 in H1. unfold inPhase at 1 in H2. unfold inPhase at 1 in H3.
  destruct (goPhase g); cbn [Nat.b2n] in *; lia.
Qed.

Lemma internal_decreases (c c' : Collector) (a : action) : internal a = true → act c a = Some c' → (weight c' < weight c)%nat.
Proof.
  intros Hi. destruct a as [| | | |n gateError|n calls failed|n|i]; try done; cbn -[weight]; intros H.
  - unfold beginGather in H. apply bind_Some in H as (g & Hg & H). destruct (goPhase g) eqn:Hp; try done.
    destruct gateError; injection H as <-; unfold weight at 1; cbn [goroutines stoppers];
      match goal with |- context [setPhase g ?p] => pose proof (weight_update c n g (setPhase g p) Hg) as Hw end;
      unfold phaseWeight in Hw; rewrite Hp in Hw; cbn [goPhase setPhase] in Hw; lia.
  - apply fmap_Some in H as ([c1 sent] & H & ->). unfold endGather in H. apply bind_Some in H as (g & Hg & H).
    destruct (goPhase g) eqn:Hp; try done. apply bind_Some in H as (i & _ & H).
    destruct (gatherInput _ _ _ _ _ _ _ _). injection H as <- _. unfold weight at 1; cbn [goroutines stoppers fst].
    pose proof (weight_update c n g (setPhase g finished) Hg) as Hw. unfold phaseWeight in Hw. rewrite Hp in Hw. cbn [goPhase setPhase] in Hw. lia.
  - unfold doneGather in H. apply bind_Some in H as (g & Hg & H). destruct (goPhase g) eqn:Hp; try done.
    apply bind_Some in H as (i & _ & H). destruct (irWG i =? 0)%nat; [done|]. injection H as <-. unfold weight at 1; cbn [goroutines stoppers].
    pose proof (weight_delete c n g Hg) as Hw. unfold phaseWeight in Hw. rewrite Hp in Hw. lia.
  - unfold stopInput in H. apply bind_Some in H as (r & Hr & H). apply bind_Some in H as (ir & _ & H).
    destruct (irWG ir =? 0)%nat; [|done]. injection H as <-. unfold weight; cbn [goroutines stoppers].
    rewrite length_delete by by eexists. pose proof (lookup_lt_Some _ _ _ Hr). lia.
Qed.

(** A goroutine that gathers can always go on. *)
Lemma goroutine_enabled (c : Collector) (n : nat) (g : goroutine) :
  Inv c → goroutines c !! n = Some g → ∃ a, internal a = true ∧ is_Some (act c a).
Proof.
  intros Hinv Hg. destruct (inv_g c Hinv n g Hg) as (_ & Hw & Hc & [i Hi]). destruct (goPhase g) eqn:Hp.
  - exists (actBegin n false). split; [done|]. cbn. unfold beginGather. rewrite Hg. cbn. rewrite Hp. by eexists.
  - exists (actEnd n [] false). split; [done|]. cbn. unfold endGather. rewrite Hg. cbn. rewrite Hp, Hc, Hi. by eexists.
  - exists (actDone n). split; [done|]. cbn. unfold doneGather. rewrite Hg. cbn. rewrite Hp, Hw, Hi. cbn.
    rewrite (inv_count c Hinv _ _ Hi). pose proof (countG_delete (onInput (goInput g)) _ n g Hg) as H.
    unfold onInput at 1 in H. rewrite bool_decide_true in H by done. cbn in H.
    destruct (countG (onInput (goInput g)) (goroutines c)); [lia|]. by eexists.
Qed.

(** C26. Every input that was removed is stopped in the end: the goroutines take finitely many steps, and
    when none of them can take one, no gather and no stop is pending and each input that was started
    is either still registered or was stopped.  No run of the collector finds a nil WaitGroup. *)
Theorem removed_are_stopped (c : Collector) :
  reachable c →
  (∀ a c', internal a = true → act c a = Some c' → (weight c' < weight c)%nat) ∧
  ((∀ a, internal a = true → act c a = None) →
   goroutines c = ∅ ∧ stoppers c = [] ∧ ∀ r, evStart r ∈ log c → registered c r ∨ evStop r ∈ log c) ∧
  (∀ t0, is_Some (act c (actRun t0))) ∧ (∀ service i s, is_Some (act c (actAdd service i s))).
Proof.
  intros Hreach%collector_inv. split; [|split; [|split]].
  - intros a c'. apply internal_decreases.
  - intros Hnone. assert (goroutines c = ∅) as Hg.
    { apply map_empty. intros n. destruct (goroutines c !! n) as [g|] eqn:Hg; [|done].
      destruct (goroutine_enabled c n g Hreach Hg) as (a & Ha & [c' Hc]). by rewrite (Hnone a Ha) in Hc. }
    assert (stoppers c = []) as Hs.
    { destruct (stoppers c) as [|r l] eqn:Hs; [done|]. destruct (inv_refs c Hreach r) as [i Hi]; [right; rewrite Hs; left|].
      specialize (Hnone (actStop 0) eq_refl). cbn in Hnone. unfold stopInput in Hnone. rewrite Hs in Hnone. cbn in Hnone. rewrite Hi in Hnone.
      cbn in Hnone. by rewrite (inv_count c Hreach r i Hi), Hg in Hnone. }
    split; [done|]. split; [done|]. intros r Hr. apply (inv_started c Hreach) in Hr as [_ [H|[H|H]]]; [by left| |by right].
    rewrite Hs in H. by apply not_elem_of_nil in H.
  - intros t0. cbn. destruct (runOnce_inv t0 c Hreach) as (c' & -> & _). by eexists.
  - intros service i s. cbn. unfold AddInput. destruct i; [by eexists|]. destruct (nextSlot_spec (inputs c)) as (id & -> & _). cbn.
    destruct (service && s); by eexists.
Qed.
End Laws.

(** * Witnesses *)
Fixpoint runActions (c : Collector) (l : list (action (V := Z))) : option Collector :=
  match l with
  | [] => Some c
  | a :: l => c ← act (-1) true allOf map_to_list c a; runActions c l
  end.

Lemma runActions_reachable (l : list action) (c c' : Collector) :
  reachable (-1) true allOf map_to_list c → runActions c l = Some c' → reachable (-1) true allOf map_to_list c'.
Proof.
  revert c. induction l as [|a l IH]; intros c Hc; cbn [runActions]; [by intros [= <-]|].
  intros H. apply bind_Some in H as (c1 & H1 & H). apply (IH c1); [|done]. by apply (reachable_act _ _ _ _ c c1 a).
Qed.

(** An input is removed while it gathers, and its identifier is given to another one. *)
Definition sampleActions : list action :=
  [actAdd true false false; actRun 5; actBegin 1 false; actRemove 1; actAdd true false false; actEnd 1 [sampleCall] false; actDone 1; actStop 0].
Definition sampleCollector : Collector := default New (runActions New sampleActions).

Lemma sampleCollector_reachable : reachable (-1) true allOf map_to_list sampleCollector.
Proof. apply (runActions_reachable sampleActions New); [constructor|]. by vm_compute. Qed.

Lemma stop_after_gathers_witness :
  stopsSafely (log sampleCollector) ∧ log sampleCollector = [evStart 0; evBegin 0; evStart 2; evEnd 0; evStop 0].
Proof.
  split; [|by vm_compute].
  apply (stop_after_gathers (-1) true allOf map_to_list (λ _, reflexivity _)), sampleCollector_reachable.
Defined.

Lemma removed_are_stopped_witness :
  goroutines sampleCollector = ∅ ∧ stoppers sampleCollector = [] ∧ is_Some (act (-1) true allOf map_to_list sampleCollector (actRun 7)).
Proof.
  destruct (removed_are_stopped (-1) true allOf map_to_list (λ _, reflexivity _) sampleCollector sampleCollector_reachable)
    as (_ & Hquiet & Hrun & _).
  destruct Hquiet as (Hg & Hs & _); [|by split; [|split; [|apply Hrun]]].
  intros [| | | |n b|n calls failed|n|i]; done || intros _; (destruct n || destruct i); by vm_compute.
Defined.
