(* ===== verification/Store.v ===== *)
(** The in-memory store of metrics and points (store/store.go,
    store/encoded_points.go).

    The points of a metric are kept in a Prometheus XOR chunk, which is third
    party code: it is the interface [XORChunk], with the laws the store relies
    on.  So is the hash of a label set, the argument [hash]. *)
From S2P Require Import Prelude Labels Float64 Points Slots.

Local Open Scope list_scope.
Local Open Scope Z_scope.

(** ** The chunk (github.com/prometheus/prometheus/tsdb/chunkenc)

    [iter] is the iteration over the samples, with whether it ended on an
    error; [appender] tells whether [Appender()] succeeds.  The sample count is
    a 16-bit header, so the laws on [append] are stated below that bound. *)
Definition maxSamples : nat := Z.to_nat 65535.

Class XORChunk (chunk : Type) := {
  newXORChunk : chunk;
  append : chunk → Z → float64 → chunk;
  iter : chunk → list (Z * float64) * bool;
  numSamples : chunk → nat;
  appender : chunk → bool;
}.

Class XORChunkLaws (chunk : Type) `{!XORChunk chunk} := {
  iter_new : iter newXORChunk = ([], false);
  appender_new : appender newXORChunk = true;
  iter_append : ∀ c t v, (length (iter c).1 < maxSamples)%nat → (iter c).2 = false →
    iter (append c t v) = ((iter c).1 ++ [(t, v)], false);
  numSamples_iter : ∀ c, numSamples c = length (iter c).1;
}.

Section Store.
Context {chunk : Type} `{!XORChunk chunk}.
Context (hash : Labels → Z).

(** ** Encoded points (store/encoded_points.go) *)
Record pointsData := mkPointsData {
  pdChunk : chunk;
  pdOldest : Z;
  pdYoungest : Z;
}.

Definition pdCount (d : pointsData) : nat := numSamples (pdChunk d).
Definition timeBounds (d : pointsData) : Z * Z := (pdOldest d, pdYoungest d).

Abbreviation encodedPoints := (gmap Z pointsData).

Definition epCount (epts : encodedPoints) (metricID : Z) : nat :=
  match epts !! metricID with
  | Some data => pdCount data
  | None => 0%nat
  end.

Definition decodePoint (tv : Z * float64) : Point :=
  mkPoint (Time.FromUnixMilli tv.1) tv.2.

Definition zeroPoint : Point := mkPoint 0 Float.zero.

Definition getPoint (epts : encodedPoints) (metricID : Z) (idx : nat) : Point :=
  match epts !! metricID with
  | None => zeroPoint
  | Some data =>
      match (iter (pdChunk data)).1 !! idx with
      | Some tv => decodePoint tv
      | None => zeroPoint
      end
  end.

(** The points and whether decoding failed. *)
Definition getPoints (epts : encodedPoints) (metricID : Z) : list Point * bool :=
  match epts !! metricID with
  | None => ([], false)
  | Some data =>
      let '(tvs, err) := iter (pdChunk data) in (decodePoint <$> tvs, err)
  end.

Definition oldestOf (oldest t : Z) : Z :=
  if Time.IsZero oldest || Time.Before t oldest then t else oldest.
Definition youngestOf (youngest t : Z) : Z :=
  if Time.IsZero youngest || Time.After t youngest then t else youngest.

(** The new points and whether an error was returned. *)
Definition pushPoint (epts : encodedPoints) (metricID : Z) (point : Point)
    : encodedPoints * bool :=
  let data :=
    match epts !! metricID with
    | Some data => Some data
    | None => if appender newXORChunk then Some (mkPointsData newXORChunk 0 0) else None
    end in
  match data with
  | None => (epts, true)
  | Some data =>
      let data :=
        mkPointsData
          (append (pdChunk data) (Time.UnixMilli (ptTime point)) (ptValue point))
          (oldestOf (pdOldest data) (ptTime point))
          (youngestOf (pdYoungest data) (ptTime point)) in
      (<[metricID := data]> epts, false)
  end.

Definition dropPoints (epts : encodedPoints) (metricID : Z) : encodedPoints :=
  delete metricID epts.

Definition appendPoint (d : pointsData) (p : Point) : pointsData :=
  mkPointsData (append (pdChunk d) (Time.UnixMilli (ptTime p)) (ptValue p))
    (oldestOf (pdOldest d) (ptTime p)) (youngestOf (pdYoungest d) (ptTime p)).

Definition setPoints (epts : encodedPoints) (metricID : Z) (points : list Point)
    : encodedPoints * bool :=
  let epts := dropPoints epts metricID in
  match points with
  | [] => (epts, false)
  | _ =>
      if appender newXORChunk then
        (<[metricID := foldl appendPoint (mkPointsData newXORChunk 0 0) points]> epts, false)
      else (epts, true)
  end.

(** ** The store (store/store.go) *)
Record metric := mkMetric {
  mLabels : Labels;
  mAnnotations : MetricAnnotations;
  mMetricID : Z;
  mCreateAt : Z;
  mLastPoint : Z;
}.

(** A callback is named by the identifier of its receiver. *)
Record store := mkStore {
  metrics : gmap Z metric;
  points : encodedPoints;
  notifyCallbacks : gmap Z Z;
  newMetricCallback : option Z;
  maxPointsAge : Z;
  maxMetricsAge : Z;
  lastAnnotationChange : Z;
}.

Definition NewStore (pointsAge metricsAge : Z) : store :=
  mkStore ∅ ∅ ∅ None pointsAge metricsAge 0.

Definition setMetrics (s : store) (m : gmap Z metric) (p : encodedPoints) : store :=
  mkStore m p (notifyCallbacks s) (newMetricCallback s) (maxPointsAge s)
    (maxMetricsAge s) (lastAnnotationChange s).

Definition setAnnotationChange (s : store) (t : Z) : store :=
  mkStore (metrics s) (points s) (notifyCallbacks s) (newMetricCallback s)
    (maxPointsAge s) (maxMetricsAge s) t.

Definition setCallbacks (s : store) (cbs : gmap Z Z) : store :=
  mkStore (metrics s) (points s) cbs (newMetricCallback s) (maxPointsAge s)
    (maxMetricsAge s) (lastAnnotationChange s).

(** The identifier of the new callback; [None] would be the loop's panic. *)
Definition AddNotifiee (s : store) (cb : Z) : option (store * Z) :=
  id ← nextSlot (notifyCallbacks s);
  Some (setCallbacks s (<[id := cb]> (notifyCallbacks s)), id).

Definition RemoveNotifiee (s : store) (id : Z) : store :=
  setCallbacks s (delete id (notifyCallbacks s)).

Definition SetNewMetricCallback (s : store) (fc : option Z) : store :=
  mkStore (metrics s) (points s) (notifyCallbacks s) fc (maxPointsAge s)
    (maxMetricsAge s) (lastAnnotationChange s).

(** The keys of the metrics whose label set is one of [labelsList]. *)
Definition matching (s : store) (labelsList : list Labels) : gset Z :=
  dom (filter (λ im, mLabels im.2 ∈ labelsList) (metrics s)).

Definition DropMetrics (s : store) (labelsList : list Labels) : store :=
  let dropped := matching s labelsList in
  setMetrics s
    (filter (λ im, im.1 ∉ dropped) (metrics s))
    (filter (λ ip, ip.1 ∉ dropped) (points s)).

Definition DropAllMetrics (s : store) : store := setMetrics s ∅ ∅.

Definition labelsMatch (labels filter : Labels) (exact : bool) : bool :=
  if exact && bool_decide (size labels ≠ size filter) then false
  else forallb (λ '(k, v), bool_decide (labels !! k = Some v)) (map_to_list filter).

Definition Metrics (s : store) (filters : Labels) : list metric :=
  snd <$> filter (λ im, labelsMatch (mLabels im.2) filters false = true)
            (map_to_list (metrics s)).

Definition MetricsCount (s : store) : nat := size (metrics s).

(** [Points] of a metric handle obtained earlier: [None] is the error of a
    deleted metric, or of a chunk that does not decode. *)
Definition metricPoints (s : store) (m : metric) (start end_ : Z) : option (list Point) :=
  let createAt := match metrics s !! mMetricID m with
                  | Some m' => mCreateAt m'
                  | None => 0
                  end in
  if negb (Time.Equal createAt (mCreateAt m)) then None
  else
    let '(pts, err) := getPoints (points s) (mMetricID m) in
    if err then None
    else Some (filter (λ p,
           Time.Before (ptTime p) (Time.Truncate start Time.millisecond) = false
           ∧ Time.After (ptTime p) end_ = false) pts).

(** *** Retention *)
Definition keptPoints (s : store) (now : Z) (pts : list Point) : list Point :=
  filter (λ p, Time.Sub now (ptTime p) < maxPointsAge s) pts.

(** One metric of the loop of [run]: the points after it and the metrics to
    delete. *)
Definition runMetric (s : store) (now : Z) (st : encodedPoints * list Z)
    (im : Z * metric) : encodedPoints * list Z :=
  let '(epts, toDelete) := st in
  let '(pts, err) := getPoints epts im.1 in
  if err then st
  else
    let newPoints := keptPoints s now pts in
    if bool_decide (newPoints = []) && (maxMetricsAge s <=? Time.Sub now (mLastPoint im.2))
    then (epts, toDelete ++ [im.1])
    else ((setPoints epts im.1 newPoints).1, toDelete).

Definition run (s : store) (now : Z) : store :=
  let '(epts, toDelete) :=
    foldl (runMetric s now) (points s, []) (map_to_list (metrics s)) in
  setMetrics s
    (foldl (λ m id, delete id m) (metrics s) toDelete)
    (foldl dropPoints epts toDelete).

(** *** Pushing points *)
(** The metric of a label set, whether it exists and whether its annotations
    changed; the stored metric gets the new annotations. *)
Definition metricGet (s : store) (now : Z) (lbls : Labels)
    (annotations : MetricAnnotations) : store * metric * bool * bool :=
  let h := hash lbls in
  match metrics s !! h with
  | Some m =>
      let changed := annChanged (mAnnotations m) annotations in
      let m := mkMetric (mLabels m) annotations (mMetricID m) (mCreateAt m) (mLastPoint m) in
      (setMetrics s (<[h := m]> (metrics s)) (points s), m, true, changed)
  | None => (s, mkMetric lbls annotations h now 0, false, true)
  end.

Definition StaleNaN : Z := 0x7ff0000000000002.

(** One iteration of the loop of [PushPoints], at the clock reading [now]:
    the store, the new metrics and the points to notify. *)
Definition pushOne (now : Z)
    (st : store * list LabelsAndAnnotation * list MetricPoint) (point : MetricPoint)
    : store * list LabelsAndAnnotation * list MetricPoint :=
  let '(s, newMetrics, dedup) := st in
  let '(s, metric, found, changed) :=
    metricGet s now (mpLabels point) (mpAnnotations point) in
  let length := epCount (points s) (mMetricID metric) in
  if (bool_decide (0 < length)%nat
      && Time.Equal (ptTime (getPoint (points s) (mMetricID metric) (length - 1)))
           (mpTime point))
  then (s, newMetrics, dedup)
  else if bits (mpValue point) =? StaleNaN then
    (setMetrics s (delete (mMetricID metric) (metrics s))
       (dropPoints (points s) (mMetricID metric)), newMetrics, dedup)
  else
    let newMetrics :=
      if found then newMetrics
      else newMetrics ++ [mkLabelsAndAnnotation (mpLabels point) (mpAnnotations point)] in
    let s := if found && changed then setAnnotationChange s now else s in
    let metric := mkMetric (mLabels metric) (mAnnotations metric) (mMetricID metric)
                    (mCreateAt metric) now in
    let s := setMetrics s (<[mMetricID metric := metric]> (metrics s))
               (pushPoint (points s) (mMetricID metric) (mpPoint point)).1 in
    (s, newMetrics, dedup ++ [point]).

(** What a push does outside the store: the call of the new-metric callback
    and the calls of the notifiees. *)
Record pushCalls := mkPushCalls {
  newMetricCall : option (Z * list LabelsAndAnnotation);
  notifyCalls : list (Z * list MetricPoint);
}.

(** The loop, each point with the clock reading of its turn. *)
Definition pushAll (st : store * list LabelsAndAnnotation * list MetricPoint)
    (pts : list (Z * MetricPoint)) : store * list LabelsAndAnnotation * list MetricPoint :=
  foldl (λ st np, pushOne np.1 st np.2) st pts.

Definition PushPoints (s : store) (pts : list (Z * MetricPoint)) : store * pushCalls :=
  let '(s, newMetrics, dedup) := pushAll (s, [], []) pts in
  (s, mkPushCalls
        (match newMetrics, newMetricCallback s with
         | _ :: _, Some cb => Some (cb, newMetrics)
         | _, _ => None
         end)
        ((λ kc, (kc.2, dedup)) <$> map_to_list (notifyCallbacks s))).
End Store.

Arguments pointsData : clear implicits.
Arguments store : clear implicits.

(** * Theorems *)
Section StoreTheorems.
Context {chunk : Type} `{!XORChunk chunk} `{!XORChunkLaws chunk}.
Context (hash : Labels → Z).
Implicit Types s : store chunk.

(** The samples of a metric: a millisecond timestamp and a value. *)
Definition samples (d : pointsData chunk) : list (Z * float64) := (iter (pdChunk d)).1.

Definition inInt64 (z : Z) : Prop := Int.minInt64 ≤ z ≤ Int.maxInt64.

Lemma UnixMilli_inInt64 (t : Z) : inInt64 (Time.UnixMilli t).
Proof.
  unfold inInt64, Time.UnixMilli, Int.int64, Int.minInt64, Int.maxInt64.
  pose proof (Int.wrapS_range 64 ((t - Time.unixEpoch) / Time.millisecond)). simpl in *. lia.
Qed.

Lemma UnixMilli_FromUnixMilli (ms : Z) :
  inInt64 ms → Time.UnixMilli (Time.FromUnixMilli ms) = ms.
Proof.
  intros H. unfold Time.UnixMilli, Time.FromUnixMilli.
  replace (Time.unixEpoch + ms * Time.millisecond - Time.unixEpoch)
    with (ms * Time.millisecond) by lia.
  rewrite Z.div_mul by done. by apply Int.int64_id.
Qed.

(** ** Well-formed stores *)
Record wf (s : store chunk) : Prop := {
  wf_id : ∀ id m, metrics s !! id = Some m → mMetricID m = id;
  wf_points : ∀ id d, points s !! id = Some d →
    is_Some (metrics s !! id) ∧ (iter (pdChunk d)).2 = false ∧ samples d ≠ []
    ∧ (length (samples d) ≤ maxSamples)%nat
    ∧ Forall (λ tv, inInt64 tv.1) (samples d);
}.

(** The abstract store: which metrics are known and the samples of each. *)
Record spec := mkSpec {
  known : gset Z;
  content : gmap Z (list (Z * float64));
}.

Definition abs (s : store chunk) : spec :=
  mkSpec (dom (metrics s)) (samples <$> points s).

(** What a push must do to one point: [accepted] are the points notified and
    [news] the metrics announced. *)
Definition specPush (st : spec * list LabelsAndAnnotation * list MetricPoint)
    (p : MetricPoint) : spec * list LabelsAndAnnotation * list MetricPoint :=
  let '(a, news, accepted) := st in
  let h := hash (mpLabels p) in
  let old := default [] (content a !! h) in
  if bool_decide ((Time.FromUnixMilli <$> (fst <$> last old)) = Some (mpTime p)) then st
  else if bits (mpValue p) =? StaleNaN then
    (mkSpec (known a ∖ {[h]}) (delete h (content a)), news, accepted)
  else
    (mkSpec ({[h]} ∪ known a)
       (<[h := old ++ [(Time.UnixMilli (mpTime p), mpValue p)]]> (content a)),
     (if bool_decide (h ∈ known a) then news
      else news ++ [mkLabelsAndAnnotation (mpLabels p) (mpAnnotations p)]),
     accepted ++ [p]).

Lemma epCount_content s (id : Z) :
  epCount (points s) id = length (default [] (content (abs s) !! id)).
Proof.
  unfold epCount, pdCount. simpl. rewrite lookup_fmap.
  destruct (points s !! id) as [d|]; [|done]. simpl. apply numSamples_iter.
Qed.

Lemma getPoint_last s (id : Z) :
  (0 < epCount (points s) id)%nat →
  Some (ptTime (getPoint (points s) id (epCount (points s) id - 1)))
  = Time.FromUnixMilli <$> (fst <$> last (default [] (content (abs s) !! id))).
Proof.
  intros H. unfold getPoint. unfold epCount, pdCount in *. simpl. rewrite lookup_fmap.
  destruct (points s !! id) as [d|]; [|lia]. rewrite numSamples_iter in *. simpl.
  unfold samples. rewrite last_lookup. replace (pred _) with (length (iter (pdChunk d)).1 - 1)%nat by lia.
  by destruct (lookup_lt_is_Some_2 (iter (pdChunk d)).1 (length (iter (pdChunk d)).1 - 1)) as [tv ->];
    [lia|].
Qed.

Lemma duplicate_test s (id t : Z) :
  bool_decide (0 < epCount (points s) id)%nat
  && Time.Equal (ptTime (getPoint (points s) id (epCount (points s) id - 1))) t
  = bool_decide ((Time.FromUnixMilli <$> (fst <$> last (default [] (content (abs s) !! id))))
                 = Some t).
Proof.
  case_bool_decide as Hn.
  - rewrite andb_true_l, <-(getPoint_last s id Hn). unfold Time.Equal.
    case_bool_decide as He; [simplify_eq; apply Z.eqb_refl|]. apply Z.eqb_neq. congruence.
  - rewrite andb_false_l. rewrite epCount_content in Hn.
    destruct (default [] (content (abs s) !! id)); simpl in *; [done|lia].
Qed.

(** Pushing on one metric's samples. *)
Lemma pushPoint_samples (epts : gmap Z (pointsData chunk)) (id : Z) (p : Point) :
  (∀ d, epts !! id = Some d → (iter (pdChunk d)).2 = false) →
  (epCount epts id < maxSamples)%nat →
  ∃ d, (pushPoint epts id p).1 = <[id := d]> epts
  ∧ (iter (pdChunk d)).2 = false
  ∧ samples d = default [] (samples <$> epts !! id)
                ++ [(Time.UnixMilli (ptTime p), ptValue p)].
Proof.
  intros Herr Hroom. unfold pushPoint, epCount, pdCount in *.
  destruct (epts !! id) as [d|] eqn:Hd; simpl.
  - rewrite numSamples_iter in Hroom. eexists. split; [done|].
    unfold samples. simpl. rewrite iter_append by (done || by eapply Herr). done.
  - rewrite appender_new. simpl. eexists. split; [done|].
    unfold samples. simpl. rewrite iter_append, iter_new by (rewrite iter_new; (done || (unfold maxSamples; simpl; lia))).
    done.
Qed.

Lemma metricGet_abs s (now : Z) (lbls : Labels) (ann : MetricAnnotations) :
  wf s →
  let '(s', m, found, changed) := metricGet hash s now lbls ann in
  wf s' ∧ abs s' = abs s ∧ points s' = points s ∧ mMetricID m = hash lbls
  ∧ found = bool_decide (hash lbls ∈ known (abs s)).
Proof.
  intros [Hid Hpts]. unfold metricGet.
  destruct (metrics s !! hash lbls) as [m|] eqn:Hm; simpl.
  - split_and!; [split| |done|by eapply Hid|].
    + simpl. intros id m'. destruct (decide (id = hash lbls)) as [->|].
      * rewrite lookup_insert_eq. intros ?; simplify_eq/=. eauto.
      * rewrite lookup_insert_ne by done. eauto.
    + simpl. intros id d Hd. destruct (Hpts id d Hd) as (Hm' & ?). split; [|done].
      destruct (decide (id = hash lbls)) as [->|];
        [rewrite lookup_insert_eq|rewrite lookup_insert_ne by done]; eauto.
    + unfold abs. simpl. f_equal. apply dom_insert_lookup_L. eauto.
    + symmetry. apply bool_decide_eq_true_2, elem_of_dom. eauto.
  - split_and!; try done. symmetry. apply bool_decide_eq_false_2, not_elem_of_dom. done.
Qed.

(** The three ways a push ends for a point keep the store well formed. *)
Lemma wf_delete s (id : Z) :
  wf s → wf (setMetrics s (delete id (metrics s)) (dropPoints (points s) id)).
Proof.
  intros [Hid Hpts]. unfold dropPoints. split; simpl.
  - intros i m [_ H]%lookup_delete_Some. eauto.
  - intros i d [Hne H]%lookup_delete_Some. rewrite lookup_delete_ne by done. eauto.
Qed.

Lemma wf_push s (m : metric) (p : Point) (t : Z) (b : bool) :
  wf s → (epCount (points s) (mMetricID m) < maxSamples)%nat →
  let s0 := if b then setAnnotationChange s t else s in
  wf (setMetrics s0 (<[mMetricID m := m]> (metrics s0))
        (pushPoint (points s0) (mMetricID m) p).1).
Proof.
  intros [Hid Hpts] Hroom s0.
  assert (metrics s0 = metrics s ∧ points s0 = points s) as [-> ->] by by destruct b.
  destruct (pushPoint_samples (points s) (mMetricID m) p) as (d & Hd & Herr & Hs);
    [intros d' Hd'; by apply (Hpts _ _ Hd')|done|].
  split; simpl.
  - intros i m'. destruct (decide (i = mMetricID m)) as [->|].
    + rewrite lookup_insert_eq. by intros [= <-].
    + rewrite lookup_insert_ne by done. eauto.
  - intros i d'. rewrite Hd. destruct (decide (i = mMetricID m)) as [->|].
    + rewrite !lookup_insert_eq. intros [= <-]. split_and!; [eauto|done|..].
      * rewrite Hs. by destruct (default [] _).
      * unfold epCount, pdCount in Hroom. rewrite Hs, length_app. simpl.
        destruct (points s !! mMetricID m) as [d0|]; simpl in *; [|lia].
        rewrite numSamples_iter in Hroom. unfold samples. lia.
      * rewrite Hs. apply Forall_app. split; [|by repeat constructor; apply UnixMilli_inInt64].
        destruct (points s !! mMetricID m) as [d0|] eqn:H0; simpl; [|constructor].
        by apply (Hpts _ _ H0).
    + rewrite !lookup_insert_ne by done. eauto.
Qed.

Lemma pushOne_sim s (now : Z) (p : MetricPoint) (news : list LabelsAndAnnotation)
    (acc : list MetricPoint) :
  wf s → (epCount (points s) (hash (mpLabels p)) < maxSamples)%nat →
  let '(s', news', acc') := pushOne hash now (s, news, acc) p in
  wf s' ∧ specPush (abs s, news, acc) p = (abs s', news', acc').
Proof.
  intros Hwf Hroom. unfold pushOne, specPush.
  pose proof (metricGet_abs s now (mpLabels p) (mpAnnotations p) Hwf) as Hget.
  destruct (metricGet _ _ _ _ _) as [[[s1 m] found] changed].
  destruct Hget as (Hwf1 & Habs & Hpts & Hmid & ->).
  rewrite duplicate_test, Hmid, Habs.
  case_bool_decide as Hdup; [by rewrite <-Habs|].
  destruct (bits (mpValue p) =? StaleNaN).
  { split; [by apply wf_delete|]. rewrite <-Habs. unfold abs, dropPoints. simpl.
    by rewrite dom_delete_L, fmap_delete. }
  rewrite <-Hpts in Hroom.
  set (m' := mkMetric (mLabels m) (mAnnotations m) (hash (mpLabels p)) (mCreateAt m) now).
  split.
  { by apply (wf_push s1 m' (mpPoint p) now). }
  destruct (pushPoint_samples (points s1) (hash (mpLabels p)) (mpPoint p))
    as (d & Hd & _ & Hs); [intros d' Hd'; by apply (wf_points _ Hwf1 _ _ Hd')|done|].
  assert (∀ b, metrics (if b : bool then setAnnotationChange s1 now else s1) = metrics s1
    ∧ points (if b : bool then setAnnotationChange s1 now else s1) = points s1) as Hsame
    by by intros [].
  f_equal. f_equal. generalize (bool_decide (hash (mpLabels p) ∈ known (abs s)) && changed).
  intros b. destruct (Hsame b) as [Hm1 Hp1].
  rewrite <-Habs. unfold abs. simpl. rewrite Hm1, Hp1, Hd.
  f_equal; [by rewrite dom_insert_L|].
  by rewrite fmap_insert, Hs, lookup_fmap.
Qed.

Lemma specPush_length (a : spec) (news : list LabelsAndAnnotation) (acc : list MetricPoint)
    (p : MetricPoint) (id : Z) :
  (length (default [] (content (specPush (a, news, acc) p).1.1 !! id))
   ≤ S (length (default [] (content a !! id))))%nat.
Proof.
  unfold specPush. case_bool_decide; [simpl; lia|].
  destruct (bits (mpValue p) =? StaleNaN); simpl.
  - destruct (decide (id = hash (mpLabels p))) as [->|];
      [rewrite lookup_delete_eq|rewrite lookup_delete_ne by done]; simpl; lia.
  - destruct (decide (id = hash (mpLabels p))) as [->|];
      [rewrite lookup_insert_eq|rewrite lookup_insert_ne by done]; simpl; [|lia].
    rewrite length_app. simpl. lia.
Qed.

Lemma pushAll_sim (pts : list (Z * MetricPoint)) s
    (news : list LabelsAndAnnotation) (acc : list MetricPoint) :
  wf s → (∀ id, epCount (points s) id + length pts ≤ maxSamples)%nat →
  let '(s', news', acc') := pushAll hash (s, news, acc) pts in
  wf s' ∧ foldl specPush (abs s, news, acc) pts.*2 = (abs s', news', acc').
Proof.
  revert s news acc. unfold pushAll.
  induction pts as [|[now p] pts IH]; intros s news acc Hwf Hroom; [done|].
  rewrite fmap_cons. cbn [foldl length fst snd] in *.
  pose proof (pushOne_sim s now p news acc Hwf) as Hone.
  destruct (pushOne hash now (s, news, acc) p) as [[s1 news1] acc1].
  destruct Hone as [Hwf1 Hspec]; [specialize (Hroom (hash (mpLabels p))); lia|].
  rewrite Hspec. apply IH; [done|]. intros id.
  pose proof (specPush_length (abs s) news acc p id) as Hlen.
  rewrite Hspec in Hlen. simpl in Hlen. specialize (Hroom id).
  rewrite epCount_content in *. simpl in *. lia.
Qed.

(** C3. Pushing a batch refines the abstract store: for each point in turn, a
    repeat of the last timestamp of its metric is ignored, a stale marker
    forgets the metric with its points, and any other point is appended (at
    millisecond precision) and makes the metric known; the notifiees all get
    exactly the appended points, in order, and the new-metric callback the
    metrics that were not known.  The store stays well formed. *)
Theorem PushPoints_refines s (pts : list (Z * MetricPoint)) :
  wf s → (∀ id, epCount (points s) id + length pts ≤ maxSamples)%nat →
  let '(s', calls) := PushPoints hash s pts in
  ∃ news accepted,
    foldl specPush (abs s, [], []) pts.*2 = (abs s', news, accepted)
    ∧ wf s'
    ∧ (∀ cb l, (cb, l) ∈ notifyCalls calls → l = accepted)
    ∧ (notifyCalls calls).*1 = snd <$> map_to_list (notifyCallbacks s')
    ∧ newMetricCall calls =
        (if bool_decide (news = []) then None
         else (λ cb, (cb, news)) <$> newMetricCallback s').
Proof.
  intros Hwf Hroom. unfold PushPoints.
  pose proof (pushAll_sim pts s [] [] Hwf Hroom) as Hsim.
  destruct (pushAll hash (s, [], []) pts) as [[s' news] acc].
  destruct Hsim as [Hwf' Hspec]. exists news, acc. split_and!; simpl; try done.
  - intros cb l [[k c] [Heq _]]%list_elem_of_fmap. by simplify_eq/=.
  - by rewrite <-list_fmap_compose.
  - by destruct news, (newMetricCallback s').
Qed.

(** ** Retention *)
Definition encodeSample (p : Point) : Z * float64 := (Time.UnixMilli (ptTime p), ptValue p).

Lemma encode_decode (tvs : list (Z * float64)) :
  Forall (λ tv, inInt64 tv.1) tvs → encodeSample <$> (decodePoint <$> tvs) = tvs.
Proof.
  induction 1 as [|[t v] tvs Ht _ IH]; [done|]. rewrite !fmap_cons, IH. f_equal.
  unfold encodeSample, decodePoint. simpl. by rewrite UnixMilli_FromUnixMilli.
Qed.

Lemma appendPoint_samples (pts : list Point) (d : pointsData chunk) :
  (iter (pdChunk d)).2 = false → (length (samples d) + length pts ≤ maxSamples)%nat →
  (iter (pdChunk (foldl appendPoint d pts))).2 = false
  ∧ samples (foldl appendPoint d pts) = samples d ++ (encodeSample <$> pts).
Proof.
  revert d. induction pts as [|p pts IH]; intros d Herr Hlen; simpl; [by rewrite app_nil_r|].
  assert (iter (pdChunk (appendPoint d p)) = (samples d ++ [encodeSample p], false)) as Hi.
  { apply iter_append; [|done]. unfold samples in Hlen. simpl in *. lia. }
  destruct (IH (appendPoint d p)) as [Herr' Hs].
  - by rewrite Hi.
  - unfold samples in *. rewrite Hi. simpl in *. rewrite length_app. simpl. lia.
  - split; [done|]. rewrite Hs. unfold samples at 1. rewrite Hi. simpl.
    by rewrite <-app_assoc.
Qed.

Lemma setPoints_lookup_ne (epts : gmap Z (pointsData chunk)) (id id' : Z) (pts : list Point) :
  id ≠ id' → (setPoints epts id pts).1 !! id' = epts !! id'.
Proof.
  intros Hne. unfold setPoints, dropPoints. destruct pts as [|p pts]; simpl.
  - by rewrite lookup_delete_ne.
  - rewrite appender_new. simpl. by rewrite lookup_insert_ne, lookup_delete_ne.
Qed.

Lemma setPoints_lookup_eq (epts : gmap Z (pointsData chunk)) (id : Z) (pts : list Point) :
  (length pts ≤ maxSamples)%nat →
  match (setPoints epts id pts).1 !! id with
  | None => pts = []
  | Some d => pts ≠ [] ∧ (iter (pdChunk d)).2 = false ∧ samples d = encodeSample <$> pts
  end.
Proof.
  intros Hlen. unfold setPoints, dropPoints. destruct pts as [|p pts].
  - simpl. by rewrite lookup_delete_eq.
  - rewrite appender_new. cbn [fst]. rewrite lookup_insert_eq.
    assert (samples (mkPointsData newXORChunk 0 0) = []) as Hnil
      by by unfold samples; simpl; rewrite iter_new.
    destruct (appendPoint_samples (p :: pts) (mkPointsData newXORChunk 0 0)) as [? Hs].
    + simpl. by rewrite iter_new.
    + rewrite Hnil. simpl in *. lia.
    + by rewrite Hs, Hnil.
Qed.

(** Whether a metric with these samples has outlived its points. *)
Definition keptSamples s (now : Z) (tvs : list (Z * float64)) : list (Z * float64) :=
  filter (λ tv, Time.Sub now (Time.FromUnixMilli tv.1) < maxPointsAge s) tvs.
Definition outlived s (now : Z) (m : metric) (tvs : list (Z * float64)) : bool :=
  bool_decide (keptSamples s now tvs = [])
  && (maxMetricsAge s <=? Time.Sub now (mLastPoint m)).

Lemma keptPoints_decode s (now : Z) (tvs : list (Z * float64)) :
  keptPoints s now (decodePoint <$> tvs) = decodePoint <$> keptSamples s now tvs.
Proof.
  unfold keptPoints, keptSamples. induction tvs as [|tv tvs IH]; [done|].
  rewrite fmap_cons, !filter_cons. simpl. rewrite IH. by case_decide.
Qed.

(** What [wf] says of the data of one metric. *)
Definition goodData (o : option (pointsData chunk)) : Prop :=
  match o with
  | None => True
  | Some d => (iter (pdChunk d)).2 = false ∧ samples d ≠ []
      ∧ (length (samples d) ≤ maxSamples)%nat ∧ Forall (λ tv, inInt64 tv.1) (samples d)
  end.

Lemma goodData_decode (epts : gmap Z (pointsData chunk)) (id : Z) :
  goodData (epts !! id) →
  getPoints epts id = (decodePoint <$> default [] (samples <$> epts !! id), false).
Proof.
  unfold getPoints. destruct (epts !! id) as [d|]; simpl; [|done]. intros (Herr & _).
  unfold samples. destruct (iter (pdChunk d)). simpl in *. by subst.
Qed.

Lemma runMetric_own s (now : Z) (epts : gmap Z (pointsData chunk)) (del : list Z)
    (id : Z) (m : metric) :
  goodData (epts !! id) →
  let tvs := default [] (samples <$> epts !! id) in
  let '(epts', del') := runMetric s now (epts, del) (id, m) in
  del' = del ++ (if outlived s now m tvs then [id] else [])
  ∧ (∀ id', id' ≠ id → epts' !! id' = epts !! id')
  ∧ (outlived s now m tvs = false →
     goodData (epts' !! id)
     ∧ default [] (samples <$> epts' !! id) = keptSamples s now tvs).
Proof.
  intros Hgood tvs. unfold runMetric. cbn [fst snd].
  rewrite (goodData_decode epts id Hgood), keptPoints_decode. fold tvs.
  assert ((length tvs ≤ maxSamples)%nat ∧ Forall (λ tv, inInt64 tv.1) tvs) as [Hlen Hin].
  { unfold tvs. destruct (epts !! id); simpl in *; [tauto|]. split; [lia|constructor]. }
  assert (bool_decide (decodePoint <$> keptSamples s now tvs = [])
          = bool_decide (keptSamples s now tvs = [])) as ->
    by (apply bool_decide_ext; apply fmap_nil_iff).
  fold (outlived s now m tvs). destruct (outlived s now m tvs).
  { split_and!; [done|done|discriminate]. }
  split_and!; [by rewrite app_nil_r|intros; by apply setPoints_lookup_ne|intros _].
  assert (length (keptSamples s now tvs) ≤ length tvs)%nat by apply length_filter.
  assert (Forall (λ tv, inInt64 tv.1) (keptSamples s now tvs)) as Hk
    by by apply Forall_filter.
  pose proof (setPoints_lookup_eq epts id (decodePoint <$> keptSamples s now tvs)) as Hset.
  rewrite length_fmap, encode_decode in Hset by done.
  destruct ((setPoints epts id _).1 !! id) as [d|]; simpl.
  - destruct Hset as (Hne & Herr & Hs); [lia|]. rewrite fmap_nil_iff in Hne.
    rewrite Hs. split_and!; try done. lia.
  - split; [done|]. symmetry. apply (fmap_nil_iff decodePoint), Hset. lia.
Qed.

Lemma run_fold s (now : Z) (l : list (Z * metric)) (epts : gmap Z (pointsData chunk))
    (del : list Z) :
  NoDup l.*1 → (∀ id, goodData (epts !! id)) →
  let '(epts', del') := foldl (runMetric s now) (epts, del) l in
  let out id m := outlived s now m (default [] (samples <$> epts !! id)) in
  (∀ id, id ∈ del' ↔ id ∈ del ∨ ∃ m, (id, m) ∈ l ∧ out id m = true)
  ∧ (∀ id, id ∉ l.*1 → epts' !! id = epts !! id)
  ∧ (∀ id m, (id, m) ∈ l → out id m = false → goodData (epts' !! id)
     ∧ default [] (samples <$> epts' !! id)
       = keptSamples s now (default [] (samples <$> epts !! id))).
Proof.
  intros Hnd Hgood. assert (∀ id, id ∈ l.*1 → goodData (epts !! id)) as Hg by auto.
  clear Hgood. revert epts del Hnd Hg.
  induction l as [|[id m] l IH]; intros epts del Hnd Hg; [set_solver|].
  rewrite fmap_cons in Hnd. apply NoDup_cons in Hnd as [Hnotin Hnd]. cbn [foldl].
  pose proof (runMetric_own s now epts del id m) as Hown. cbn zeta in Hown.
  destruct (runMetric s now (epts, del) (id, m)) as [epts1 del1].
  destruct Hown as (-> & Hother & Hkept); [apply Hg; set_solver|].
  assert (∀ id', id' ∈ l.*1 → epts1 !! id' = epts !! id') as Hsame
    by (intros id' Hin; apply Hother; set_solver).
  specialize (IH epts1 (del ++ if outlived s now m (default [] (samples <$> epts !! id))
                               then [id] else []) Hnd).
  destruct (foldl _ (epts1, _) l) as [epts' del'].
  destruct IH as (Hdel & Hout & Hin); [intros id' H; rewrite Hsame by done; set_solver|].
  assert (∀ id' m', (id', m') ∈ l → epts1 !! id' = epts !! id') as Hsame'.
  { intros id' m' H. apply Hsame, list_elem_of_fmap. by exists (id', m'). }
  assert (∀ m', (id, m') ∉ l) as Hno.
  { intros m' H. apply Hnotin, list_elem_of_fmap. by exists (id, m'). }
  cbn zeta in *. split_and!.
  - intros id'. rewrite Hdel, elem_of_app. setoid_rewrite elem_of_cons. split.
    + intros [[?|Hi]|(m' & Hm' & Ho)]; [by left|right|right].
      * destruct (outlived _ _ _ _) eqn:Ho in Hi; [|set_solver].
        apply list_elem_of_singleton in Hi as ->. eauto.
      * rewrite (Hsame' _ _ Hm') in Ho. eauto.
    + intros [?|(m' & [Heq|Hm'] & Ho)]; [by left; left| |].
      * simplify_eq. left. right. rewrite Ho. set_solver.
      * right. exists m'. by rewrite (Hsame' _ _ Hm').
  - intros id' Hn. rewrite fmap_cons in Hn. rewrite Hout by set_solver. apply Hother. set_solver.
  - intros id' m' [Heq|Hm']%elem_of_cons Ho.
    + simplify_eq. rewrite (Hout id) by done. auto.
    + rewrite <-(Hsame' _ _ Hm') in *. eauto.
Qed.

Lemma run_lookup s (now : Z) :
  wf s →
  ∀ id, match metrics s !! id with
  | None => metrics (run s now) !! id = None ∧ points (run s now) !! id = None
  | Some m =>
      let tvs := default [] (content (abs s) !! id) in
      if outlived s now m tvs
      then metrics (run s now) !! id = None ∧ points (run s now) !! id = None
      else metrics (run s now) !! id = Some m ∧ goodData (points (run s now) !! id)
           ∧ default [] (content (abs (run s now)) !! id) = keptSamples s now tvs
  end.
Proof.
  intros [Hid Hpts] id. unfold run.
  pose proof (run_fold s now (map_to_list (metrics s)) (points s) []
                (NoDup_fst_map_to_list _)) as Hfold.
  destruct (foldl (runMetric s now) _ _) as [epts del].
  destruct Hfold as (Hdel & Hout & Hin).
  { intros id'. destruct (points s !! id') as [d|] eqn:Hd; [|done]. by apply (Hpts id' d Hd). }
  unfold abs, dropPoints. cbn [setMetrics metrics points content known].
  rewrite !lookup_fmap, !lookup_foldl_delete.
  destruct (metrics s !! id) as [m|] eqn:Hm; cbn zeta in *.
  - assert ((id, m) ∈ map_to_list (metrics s)) as Hel by by apply elem_of_map_to_list.
    destruct (outlived s now m _) eqn:Ho.
    + rewrite bool_decide_eq_true_2; [done|]. apply Hdel. right. eauto.
    + rewrite bool_decide_eq_false_2; [split; [done|]; eauto|].
      rewrite Hdel. intros [?|(m' & Hm' & Ho')]; [set_solver|].
      apply elem_of_map_to_list in Hm'. simplify_eq. congruence.
  - rewrite Hout.
    + destruct (points s !! id) as [d|] eqn:Hd; [|by case_bool_decide].
      destruct (Hpts id d Hd) as [[m Hm'] _]. congruence.
    + intros [[i m] [-> Hel]]%list_elem_of_fmap. apply elem_of_map_to_list in Hel. simpl in *. congruence.
Qed.

Lemma run_wf s (now : Z) : wf s → wf (run s now).
Proof.
  intros Hwf. pose proof (run_lookup s now Hwf) as Hl. split.
  - intros id m Hm. specialize (Hl id). destruct (metrics s !! id) as [m'|] eqn:Hm'.
    + cbn zeta in Hl. destruct (outlived _ _ _ _); destruct Hl; simplify_eq.
      by apply (wf_id _ Hwf).
    + destruct Hl. congruence.
  - intros id d Hd. specialize (Hl id). destruct (metrics s !! id) as [m'|].
    + cbn zeta in Hl. destruct (outlived _ _ _ _); [destruct Hl; congruence|].
      destruct Hl as (Hm & Hg & _). rewrite Hd in Hg. split; [eauto|done].
    + destruct Hl. congruence.
Qed.

(** A retention pass keeps, of each metric, exactly the points younger
    than the retention period, in order, and forgets a metric only when no
    point is left and its last point is older than the metric retention
    period; nothing is added, and the store stays well formed. *)
Theorem run_retention s (now : Z) :
  wf s →
  wf (run s now)
  ∧ ∀ id,
    let tvs := default [] (content (abs s) !! id) in
    let kept := filter (λ tv, Time.Sub now (Time.FromUnixMilli tv.1) < maxPointsAge s) tvs in
    match metrics s !! id with
    | None => metrics (run s now) !! id = None ∧ content (abs (run s now)) !! id = None
    | Some m =>
        if bool_decide (kept = []) && (maxMetricsAge s <=? Time.Sub now (mLastPoint m))
        then metrics (run s now) !! id = None ∧ content (abs (run s now)) !! id = None
        else metrics (run s now) !! id = Some m
             ∧ default [] (content (abs (run s now)) !! id) = kept
    end.
Proof.
  intros Hwf. split; [by apply run_wf|]. intros id. cbn zeta.
  pose proof (run_lookup s now Hwf id) as Hl.
  destruct (metrics s !! id) as [m|].
  - cbn zeta in Hl. unfold outlived, keptSamples in Hl.
    destruct (_ && _); [|tauto]. destruct Hl as [Hm Hp]. split; [done|].
    simpl. by rewrite lookup_fmap, Hp.
  - destruct Hl as [Hm Hp]. split; [done|]. simpl. by rewrite lookup_fmap, Hp.
Qed.
End StoreTheorems.

Lemma wf_NewStore {chunk : Type} `{!XORChunk chunk} (pa ma : Z) : wf (NewStore (chunk := chunk) pa ma).
Proof. by split. Qed.

(** ** A concrete instance *)
(** A chunk as the list of its samples. *)
#[local] Instance listChunk : XORChunk (list (Z * float64)) := {|
  newXORChunk := [];
  appender c := true;
  append c t v := c ++ [(t, v)];
  numSamples c := length c;
  iter c := (c, false);
|}.

#[local] Instance listChunk_laws : XORChunkLaws (list (Z * float64)).
Proof. by split. Qed.

Definition hashByCode (l : Labels) : Z := Z.pos (encode l).

Definition samplePoint (name : string) (t v : Z) : MetricPoint :=
  mkMetricPoint (mkPoint t (F64 v)) {[LabelName := name]}
    zeroAnnotations.

(** A known point, a repeat of it, a second metric, and a stale marker. *)
Definition sampleBatch : list (Z * MetricPoint) :=
  pair (Time.FromUnixMilli 3000) <$>
  [samplePoint "cpu_used" (Time.FromUnixMilli 1000) 0;
   samplePoint "cpu_used" (Time.FromUnixMilli 1000) 1;
   samplePoint "mem_used" (Time.FromUnixMilli 1000) 2;
   samplePoint "mem_used" (Time.FromUnixMilli 2000) StaleNaN].

Definition sampleStore : store (list (Z * float64)) :=
  (pushAll hashByCode (NewStore Time.hour Time.hour, [], []) sampleBatch).1.1.

Lemma sampleBatch_room (id : Z) :
  (epCount (chunk := list (Z * float64)) (points (NewStore Time.hour Time.hour)) id
   + length sampleBatch ≤ maxSamples)%nat.
Proof.
  replace (epCount _ id) with 0%nat by done. change (length sampleBatch) with 4%nat.
  unfold maxSamples. lia.
Qed.

Lemma PushPoints_refines_witness :
  let s := NewStore (chunk := list (Z * float64)) Time.hour Time.hour in
  wf s ∧ (∀ id, epCount (points s) id + length sampleBatch ≤ maxSamples)%nat
  ∧ ∃ news accepted s',
      foldl (specPush hashByCode) (abs s, [], []) sampleBatch.*2 = (abs s', news, accepted)
      ∧ length accepted = 2%nat.
Proof.
  split; [apply wf_NewStore|split; [exact sampleBatch_room|]].
  pose proof (PushPoints_refines hashByCode
                (NewStore Time.hour Time.hour) sampleBatch (wf_NewStore _ _)
                sampleBatch_room) as H.
  destruct (PushPoints hashByCode _ sampleBatch) as [s' calls].
  destruct H as (news & accepted & Hspec & _).
  exists news, accepted, s'. split; [exact Hspec|].
  change accepted with (abs s', news, accepted).2. rewrite <-Hspec. vm_compute. reflexivity.
Defined.

Lemma sampleStore_wf : wf sampleStore.
Proof.
  pose proof (pushAll_sim hashByCode sampleBatch
                (NewStore Time.hour Time.hour) [] [] (wf_NewStore _ _)) as H.
  unfold sampleStore. destruct (pushAll _ _ _) as [[s' ?] ?].
  apply H, sampleBatch_room.
Qed.

Lemma run_retention_witness :
  wf sampleStore ∧ wf (run sampleStore (Time.FromUnixMilli 4000)).
Proof.
  split; [apply sampleStore_wf|].
  exact (proj1 (run_retention sampleStore (Time.FromUnixMilli 4000) sampleStore_wf)).
Defined.
