(* ===== verification/PastPoints.v ===== *)
(** The filter of past points (prometheus/registry/past_point_filter.go): a gatherer
    that must not emit a point older than the latest one it emitted for the same
    labels.

    The families of a gathering are objects that the filter updates where they are,
    in a slice it cuts; [None] is a nil pointer.  The signature of a label set, a
    64-bit hash of Prometheus, is the parameter [signature]. *)
From S2P Require Import Prelude Labels.

#[local] Open Scope Z_scope.

(** * Data *)
Record point := mkPoint { timestampMs : Z; recordedAt : Z }.

(** What is read of a dto.Metric: its labels and its timestamp; its value is of any type. *)
Record ppMetric (V : Type) := mkPPMetric { ppLabel : list (string * string); ppTimestampMs : Z; ppValue : V }.
Arguments mkPPMetric {V} _ _ _.
Arguments ppLabel {V} _.
Arguments ppTimestampMs {V} _.
Arguments ppValue {V} _.

Record ppFamily (V : Type) := mkPPFamily { ppName : string; ppMetrics : list (option (ppMetric V)) }.
Arguments mkPPFamily {V} _ _.
Arguments ppName {V} _.
Arguments ppMetrics {V} _.

Notation latestPoints := (gmap Z point).

Record pastPointFilter := mkPastPointFilter {
  latestPointByLabelsByMetric : gmap string latestPoints;
  purgeInterval : Z;
  lastPurgeAt : Z
}.

Definition WithPastPointFilter (interval now : Z) : pastPointFilter := mkPastPointFilter ∅ interval now.

Section Filter.
Context {V : Type}.
Variable signature : Labels → Z.

(** * Operations *)
Definition labelPairsToSignature (labelPairs : list (string * string)) : Z :=
  signature (foldl (λ labels lp, <[lp.1 := lp.2]> labels) (∅ : Labels) labelPairs).

Definition isPast (latest : latestPoints) (metric : ppMetric V) : bool :=
  match latest !! labelPairsToSignature (ppLabel metric) with
  | Some latestPoint => ppTimestampMs metric <? timestampMs latestPoint
  | None => false
  end.

Definition record (now : Z) (latest : latestPoints) (metric : ppMetric V) : latestPoints :=
  <[labelPairsToSignature (ppLabel metric) := mkPoint (ppTimestampMs metric) now]> latest.

(** The loop over [mf.Metric], from index [mi]; [m] metrics are kept so far. *)
Fixpoint filterMetrics (now : Z) (fuel mi m : nat) (metrics : list (option (ppMetric V))) (latest : latestPoints) :
    list (option (ppMetric V)) * nat * latestPoints :=
  match fuel with
  | O => (metrics, m, latest)
  | S fuel =>
      match metrics !! mi with
      | None => (metrics, m, latest)
      | Some None => filterMetrics now fuel (S mi) m metrics latest
      | Some (Some metric) =>
          if isPast latest metric then filterMetrics now fuel (S mi) m metrics latest
          else filterMetrics now fuel (S mi) (S m) (<[m := Some metric]> metrics) (record now latest metric)
      end
  end.

(** One turn of the loop over the families: the family after it, and whether it counts. *)
Definition filterFamily (now : Z) (latest : gmap string latestPoints) (mf : ppFamily V) :
    ppFamily V * bool * gmap string latestPoints :=
  let points := default ∅ (latest !! ppName mf) in
  let '(metrics, m, points) := filterMetrics now (length (ppMetrics mf)) 0 0 (ppMetrics mf) points in
  let latest := <[ppName mf := points]> latest in
  if (m =? 0)%nat then (mkPPFamily (ppName mf) metrics, false, latest)
  else (mkPPFamily (ppName mf) (take m metrics), true, latest).

(** The slice of families after the loop, the number [f] of those kept. *)
Fixpoint filterFamilies (now : Z) (latest : gmap string latestPoints) (mfs : list (option (ppFamily V))) :
    list (option (ppFamily V)) * nat * gmap string latestPoints :=
  match mfs with
  | [] => ([], O, latest)
  | None :: mfs =>
      let '(mfs, f, latest) := filterFamilies now latest mfs in
      (None :: mfs, f, latest)
  | Some mf :: mfs =>
      let '(mf, kept, latest) := filterFamily now latest mf in
      let '(mfs, f, latest) := filterFamilies now latest mfs in
      (Some mf :: mfs, if kept then S f else f, latest)
  end.

(** The loops of the purge only delete, each entry on its own. *)
Definition purge (interval now : Z) (latest : gmap string latestPoints) : gmap string latestPoints :=
  omap (λ points : latestPoints,
    let points := base.filter (λ sp : Z * point, ¬ interval < Time.Sub now (recordedAt sp.2)) points in
    if (size points =? 0)%nat then None else Some points) latest.

Definition runPurge (ppf : pastPointFilter) (now : Z) : pastPointFilter :=
  if Time.Sub now (lastPurgeAt ppf) <? purgeInterval ppf then ppf
  else mkPastPointFilter (purge (purgeInterval ppf) now (latestPointByLabelsByMetric ppf)) (purgeInterval ppf) now.

(** [filter], on the families and the error of the gatherer, at the time [clock]. *)
Definition filter {E : Type} (ppf : pastPointFilter) (clock : Z) (mfs : list (option (ppFamily V))) (err : option E) :
    list (option (ppFamily V)) * option E * pastPointFilter :=
  match err with
  | Some _ => (mfs, err, ppf)
  | None =>
      let now := Time.Truncate clock Time.second in
      let '(mfs, f, latest) := filterFamilies now (latestPointByLabelsByMetric ppf) mfs in
      (take f mfs, None, runPurge (mkPastPointFilter latest (purgeInterval ppf) (lastPurgeAt ppf)) now)
  end.

(** * What is accepted *)
(** The metrics of a family that are not past, in order, with what is recorded. *)
Fixpoint accepted (now : Z) (latest : latestPoints) (metrics : list (option (ppMetric V))) :
    list (ppMetric V) * latestPoints :=
  match metrics with
  | [] => ([], latest)
  | None :: metrics => accepted now latest metrics
  | Some metric :: metrics =>
      if isPast latest metric then accepted now latest metrics
      else let (l, latest) := accepted now (record now latest metric) metrics in (metric :: l, latest)
  end.

Lemma filterMetrics_spec (now : Z) (fuel mi m : nat) (metrics : list (option (ppMetric V))) (latest : latestPoints) :
  (m ≤ mi)%nat → (length metrics ≤ mi + fuel)%nat →
  let (l, latest') := accepted now latest (drop mi metrics) in
  ∃ metrics', filterMetrics now fuel mi m metrics latest = (metrics', (m + length l)%nat, latest') ∧
    take (m + length l) metrics' = (take m metrics ++ (Some <$> l))%list ∧ (l = [] → metrics' = metrics).
Proof.
  revert mi m metrics latest. induction fuel as [|fuel IH]; intros mi m metrics latest Hm Hl.
  { rewrite drop_ge by lia. exists metrics. cbn. by rewrite Nat.add_0_r, app_nil_r. }
  cbn [filterMetrics]. destruct (metrics !! mi) as [[metric|]|] eqn:Hx.
  - pose proof (lookup_lt_Some _ _ _ Hx). rewrite (drop_S _ _ _ Hx). cbn [accepted].
    destruct (isPast latest metric); [by apply IH; lia|].
    specialize (IH (S mi) (S m) (<[m:=Some metric]> metrics) (record now latest metric)).
    rewrite length_insert, drop_insert_lt in IH by lia. specialize (IH ltac:(lia) ltac:(lia)).
    destruct (accepted now (record now latest metric) (drop (S mi) metrics)) as [l latest'].
    destruct IH as (metrics' & Hf & Ht & _). exists metrics'. cbn [length].
    rewrite <-plus_n_Sm. split; [done|]. split; [|done]. rewrite <-plus_Sn_m, Ht.
    rewrite (take_S_r _ m (Some metric)) by (apply list_lookup_insert_eq; lia).
    rewrite take_insert_ge, <-app_assoc by lia. done.
  - rewrite (drop_S _ _ _ Hx). cbn [accepted]. apply IH; [lia|].
    pose proof (lookup_lt_Some _ _ _ Hx). lia.
  - apply lookup_ge_None in Hx. rewrite drop_ge by lia. exists metrics. cbn. by rewrite Nat.add_0_r, app_nil_r.
Qed.

(** The family after the turn: its accepted metrics, or itself when none is accepted. *)
Lemma filterFamily_spec (now : Z) (latest : gmap string latestPoints) (mf : ppFamily V) :
  let (l, points) := accepted now (default ∅ (latest !! ppName mf)) (ppMetrics mf) in
  filterFamily now latest mf =
    (if decide (l = []) then mf else mkPPFamily (ppName mf) (Some <$> l), bool_decide (l ≠ []),
     <[ppName mf := points]> latest).
Proof.
  unfold filterFamily. pose proof (filterMetrics_spec now (length (ppMetrics mf)) 0 0 (ppMetrics mf)
    (default ∅ (latest !! ppName mf)) ltac:(lia) ltac:(lia)) as H. rewrite drop_0 in H.
  destruct (accepted _ _ _) as [l points]. destruct H as (metrics' & -> & Ht & Hn). rewrite take_0, app_nil_l in Ht.
  destruct l as [|metric l].
  - rewrite Hn by done. by destruct mf.
  - change (0 + length (metric :: l))%nat with (S (length l)) in *. cbn [Nat.eqb].
    rewrite Ht, decide_False, bool_decide_true by done. done.
Qed.

(** * What is emitted *)
(** A point: the time of the gathering, its family, its signature and its timestamp. *)
Record event := mkEvent { evNow : Z; evName : string; evSig : Z; evTs : Z }.

Definition eventOf (now : Z) (name : string) (metric : ppMetric V) : event :=
  mkEvent now name (labelPairsToSignature (ppLabel metric)) (ppTimestampMs metric).

Fixpoint acceptedEvents (now : Z) (latest : gmap string latestPoints) (mfs : list (option (ppFamily V))) :
    list event * gmap string latestPoints :=
  match mfs with
  | [] => ([], latest)
  | None :: mfs => acceptedEvents now latest mfs
  | Some mf :: mfs =>
      let (l, points) := accepted now (default ∅ (latest !! ppName mf)) (ppMetrics mf) in
      let (events, latest) := acceptedEvents now (<[ppName mf := points]> latest) mfs in
      ((eventOf now (ppName mf) <$> l) ++ events, latest)%list
  end.

(** No pointer is nil and every family keeps a point. *)
Fixpoint allKept (now : Z) (latest : gmap string latestPoints) (mfs : list (option (ppFamily V))) : bool :=
  match mfs with
  | [] => true
  | None :: _ => false
  | Some mf :: mfs =>
      let (l, points) := accepted now (default ∅ (latest !! ppName mf)) (ppMetrics mf) in
      negb (length l =? 0)%nat && allKept now (<[ppName mf := points]> latest) mfs
  end.

(** The points of the families that a gathering returns. *)
Definition emitted (now : Z) (mfs : list (option (ppFamily V))) : list event :=
  mjoin ((λ mf, eventOf now (ppName mf) <$> omap id (ppMetrics mf)) <$> omap id mfs).

Lemma omap_Some {A : Type} (l : list A) : omap id (Some <$> l) = l.
Proof. induction l as [|x l IH]; [done|]. cbn. by rewrite IH. Qed.

Lemma filterFamilies_spec (now : Z) (latest : gmap string latestPoints) (mfs : list (option (ppFamily V))) :
  let '(mfs', f, latest') := filterFamilies now latest mfs in
  latest' = (acceptedEvents now latest mfs).2 ∧ length mfs' = length mfs ∧
  (allKept now latest mfs = true → f = length mfs ∧ emitted now mfs' = (acceptedEvents now latest mfs).1).
Proof.
  revert latest. induction mfs as [|[mf|] mfs IH]; intros latest; [done| |].
  - cbn [filterFamilies acceptedEvents allKept]. pose proof (filterFamily_spec now latest mf) as Hf.
    destruct (accepted _ _ _) as [l points]. rewrite Hf. specialize (IH (<[ppName mf:=points]> latest)).
    destruct (filterFamilies now _ mfs) as [[mfs' f] latest']. destruct (acceptedEvents now _ mfs) as [events latest2].
    destruct IH as (-> & Hlen & IH). split; [done|]. split; [cbn; by rewrite Hlen|].
    intros [Hl Hk]%andb_true_iff. destruct (IH Hk) as [-> He]. apply negb_true_iff, Nat.eqb_neq in Hl.
    assert (l ≠ []) as Hne by (by intros ->). rewrite decide_False, bool_decide_true by done. split; [done|].
    unfold emitted in *. cbn [omap list_omap id fmap list_fmap mjoin list_join ppName ppMetrics].
    rewrite omap_Some. cbn [fst] in *. by f_equal.
  - cbn [filterFamilies acceptedEvents allKept]. specialize (IH latest).
    destruct (filterFamilies now latest mfs) as [[mfs' f] latest']. destruct IH as (-> & Hlen & _).
    split; [done|]. split; [cbn; by rewrite Hlen|done].
Qed.

(** * The order of the accepted points *)
Variable interval : Z.
Hypothesis interval_range : 0 ≤ interval < Int.maxInt64.

Definition lookup2 (latest : gmap string latestPoints) (name : string) (sig : Z) : option point :=
  points ← latest !! name; points !! sig.

(** Later points of the same labels are not older, within the purge interval. *)
Definition ordered (log : list event) : Prop :=
  ∀ i j e1 e2, (i < j)%nat → log !! i = Some e1 → log !! j = Some e2 →
  evName e1 = evName e2 → evSig e1 = evSig e2 → evNow e2 - evNow e1 ≤ interval → evTs e1 ≤ evTs e2.

(** What is recorded covers the log, at the time [t]. *)
Definition covers (look : string → Z → option point) (t : Z) (log : list event) : Prop :=
  ∀ e, e ∈ log → evNow e ≤ t ∧
  (t - evNow e ≤ interval →
   ∃ p, look (evName e) (evSig e) = Some p ∧ evTs e ≤ timestampMs p ∧ evNow e ≤ recordedAt p).

Lemma ordered_snoc (log : list event) (e : event) :
  ordered log →
  (∀ e', e' ∈ log → evName e' = evName e → evSig e' = evSig e → evNow e - evNow e' ≤ interval → evTs e' ≤ evTs e) →
  ordered (log ++ [e])%list.
Proof.
  intros Ho He i j e1 e2 Hij H1 H2 Hn Hs Ht. apply lookup_app_Some in H2 as [H2|[Hj H2]].
  - rewrite lookup_app_l in H1 by (apply lookup_lt_Some in H2; lia). eauto.
  - apply list_lookup_singleton_Some in H2 as [Hj2 <-]. rewrite lookup_app_l in H1 by lia.
    apply He; try done. by eapply list_elem_of_lookup_2.
Qed.

Lemma covers_ext (look look' : string → Z → option point) (t : Z) (log : list event) :
  (∀ name sig, look' name sig = look name sig) → covers look t log → covers look' t log.
Proof. intros H Hc e He. destruct (Hc e He) as [Hn Hp]. split; [done|]. by rewrite H. Qed.

(** One accepted metric. *)
Lemma record_step (latest : gmap string latestPoints) (points : latestPoints) (name : string) (now : Z)
    (metric : ppMetric V) (log : list event) :
  covers (lookup2 (<[name := points]> latest)) now log → ordered log → isPast points metric = false →
  covers (lookup2 (<[name := record now points metric]> latest)) now (log ++ [eventOf now name metric])%list ∧
  ordered (log ++ [eventOf now name metric])%list.
Proof.
  intros Hc Ho Hp. set (sig := labelPairsToSignature (ppLabel metric)).
  assert (∀ e, e ∈ log → evName e = name → evSig e = sig → now - evNow e ≤ interval → evTs e ≤ ppTimestampMs metric) as Hle.
  { intros e He Hn Hs Ht. destruct (Hc e He) as [_ (p & Hl & Hts & _)]; [done|].
    unfold lookup2 in Hl. rewrite Hn, Hs, lookup_insert_eq in Hl. cbn in Hl.
    unfold isPast in Hp. fold sig in Hp. rewrite Hl in Hp. apply Z.ltb_ge in Hp. lia. }
  split.
  - intros e [He| ->%list_elem_of_singleton]%elem_of_app.
    + destruct (Hc e He) as [Hn Hcov]. split; [done|]. intros Ht.
      destruct (decide (evName e = name ∧ evSig e = sig)) as [[Hname Hsig]|Hne].
      * exists (mkPoint (ppTimestampMs metric) now). unfold lookup2. rewrite Hname, lookup_insert_eq, Hsig. cbn [mbind option_bind].
        unfold record. fold sig. rewrite lookup_insert_eq. auto.
      * destruct (Hcov Ht) as (p & Hl & Hp'). exists p. split; [|done]. unfold lookup2 in *.
        destruct (decide (evName e = name)) as [Hname|Hname]; [|by rewrite lookup_insert_ne in * by done].
        rewrite Hname, lookup_insert_eq in *. cbn [mbind option_bind] in *. unfold record. fold sig.
        rewrite lookup_insert_ne by naive_solver. done.
    + cbn. split; [lia|]. intros _. exists (mkPoint (ppTimestampMs metric) now). unfold lookup2. rewrite lookup_insert_eq.
      cbn [mbind option_bind]. unfold record. rewrite lookup_insert_eq. cbn. split; [done|lia].
  - apply ordered_snoc; [done|]. intros e He Hn Hs Ht. by apply Hle.
Qed.

Lemma accepted_step (metrics : list (option (ppMetric V))) (latest : gmap string latestPoints) (points : latestPoints)
    (name : string) (now : Z) (log : list event) :
  covers (lookup2 (<[name := points]> latest)) now log → ordered log →
  let (l, points') := accepted now points metrics in
  covers (lookup2 (<[name := points']> latest)) now (log ++ (eventOf now name <$> l))%list ∧
  ordered (log ++ (eventOf now name <$> l))%list.
Proof.
  revert points log. induction metrics as [|[metric|] metrics IH]; intros points log Hc Ho; cbn [accepted].
  - cbn. by rewrite app_nil_r.
  - destruct (isPast points metric) eqn:Hp; [by apply IH|].
    destruct (record_step _ _ _ _ _ _ Hc Ho Hp) as [Hc' Ho']. specialize (IH _ _ Hc' Ho').
    destruct (accepted now (record now points metric) metrics) as [l points']. by rewrite <-app_assoc in IH.
  - by apply IH.
Qed.

Lemma acceptedEvents_step (mfs : list (option (ppFamily V))) (latest : gmap string latestPoints) (now : Z) (log : list event) :
  covers (lookup2 latest) now log → ordered log →
  let (events, latest') := acceptedEvents now latest mfs in
  covers (lookup2 latest') now (log ++ events)%list ∧ ordered (log ++ events)%list.
Proof.
  revert latest log. induction mfs as [|[mf|] mfs IH]; intros latest log Hc Ho; cbn [acceptedEvents].
  - by rewrite app_nil_r.
  - pose proof (accepted_step (ppMetrics mf) latest (default ∅ (latest !! ppName mf)) (ppName mf) now log) as Hs.
    destruct (accepted _ _ _) as [l points]. destruct Hs as [Hc' Ho']; [|done|].
    { eapply covers_ext; [|exact Hc]. intros name sig. unfold lookup2. destruct (decide (name = ppName mf)) as [->|Hne].
      - rewrite lookup_insert_eq. by destruct (latest !! ppName mf).
      - by rewrite lookup_insert_ne. }
    specialize (IH _ _ Hc' Ho'). destruct (acceptedEvents now _ mfs) as [events latest']. by rewrite <-app_assoc in IH.
  - by apply IH.
Qed.

Lemma purge_covers (latest : gmap string latestPoints) (now : Z) (log : list event) :
  covers (lookup2 latest) now log → covers (lookup2 (purge interval now latest)) now log.
Proof.
  intros Hc e He. destruct (Hc e He) as [Hn Hcov]. split; [done|]. intros Ht. destruct (Hcov Ht) as (p & Hl & Hts & Hr).
  exists p. split; [|done]. unfold lookup2 in *. apply bind_Some in Hl as (points & Hm & Hp). unfold purge.
  rewrite lookup_omap, Hm. cbn [mbind option_bind].
  assert (base.filter (λ sp : Z * point, ¬ interval < Time.Sub now (recordedAt sp.2)) points !! evSig e = Some p) as Hf.
  { apply map_lookup_filter_Some. split; [done|]. cbn. unfold Time.Sub, Int.minInt64, Int.maxInt64 in *. lia. }
  destruct (size _ =? 0)%nat eqn:Hs; [|done].
  apply Nat.eqb_eq, map_size_empty_iff in Hs. by rewrite Hs, lookup_empty in Hf.
Qed.

(** * Successive gatherings *)
(** The points emitted by successive gatherings without error, and whether each family of each
    one kept a point. *)
Fixpoint outputs (ppf : pastPointFilter) (calls : list (Z * list (option (ppFamily V)))) : list event :=
  match calls with
  | [] => []
  | (clock, mfs) :: calls =>
      let '(out, _, ppf) := filter (E := unit) ppf clock mfs None in
      (emitted (Time.Truncate clock Time.second) out ++ outputs ppf calls)%list
  end.

Fixpoint allCallsKept (ppf : pastPointFilter) (calls : list (Z * list (option (ppFamily V)))) : bool :=
  match calls with
  | [] => true
  | (clock, mfs) :: calls =>
      allKept (Time.Truncate clock Time.second) (latestPointByLabelsByMetric ppf) mfs &&
      allCallsKept (filter (E := unit) ppf clock mfs None).2 calls
  end.

Lemma Truncate_mono (t u : Z) : t ≤ u → Time.Truncate t Time.second ≤ Time.Truncate u Time.second.
Proof.
  intros H. unfold Time.Truncate, Time.second. cbn [Z.leb Z.compare].
  pose proof (Z.div_mod t 1000000000). pose proof (Z.div_mod u 1000000000).
  pose proof (Z.div_le_mono t u 1000000000). lia.
Qed.

Lemma covers_later (look : string → Z → option point) (t t' : Z) (log : list event) :
  t ≤ t' → covers look t log → covers look t' log.
Proof. intros Ht Hc e He. destruct (Hc e He) as [Hn Hp]. split; [lia|]. intros. apply Hp. lia. Qed.

Lemma runPurge_covers (ppf : pastPointFilter) (now : Z) (log : list event) :
  purgeInterval ppf = interval → covers (lookup2 (latestPointByLabelsByMetric ppf)) now log →
  covers (lookup2 (latestPointByLabelsByMetric (runPurge ppf now))) now log ∧ purgeInterval (runPurge ppf now) = interval.
Proof.
  intros Hi Hc. unfold runPurge. destruct (_ <? _); [done|]. cbn. rewrite Hi. split; [by apply purge_covers|done].
Qed.

Lemma outputs_ordered (calls : list (Z * list (option (ppFamily V)))) (ppf : pastPointFilter) (t : Z) (log : list event) :
  purgeInterval ppf = interval → covers (lookup2 (latestPointByLabelsByMetric ppf)) (Time.Truncate t Time.second) log →
  ordered log → StronglySorted Z.le (t :: calls.*1) → allCallsKept ppf calls = true →
  ordered (log ++ outputs ppf calls)%list.
Proof.
  revert ppf t log. induction calls as [|[clock mfs] calls IH]; intros ppf t log Hi Hc Ho Hs Hk; [by rewrite app_nil_r|].
  cbn [outputs allCallsKept fmap list_fmap fst] in *. apply andb_true_iff in Hk as [Hkept Hk]. unfold filter in *.
  apply StronglySorted_inv in Hs as [Hs Hlt]. apply Forall_cons in Hlt as [Hlt _].
  apply (covers_later _ _ (Time.Truncate clock Time.second)) in Hc; [|by apply Truncate_mono].
  pose proof (filterFamilies_spec (Time.Truncate clock Time.second) (latestPointByLabelsByMetric ppf) mfs) as Hf.
  pose proof (acceptedEvents_step mfs _ _ _ Hc Ho) as Ha.
  destruct (filterFamilies _ _ mfs) as [[mfs' f] latest']. destruct (acceptedEvents _ _ mfs) as [events latest2].
  destruct Hf as (-> & Hlen & Hf). destruct (Hf Hkept) as [-> He]. destruct Ha as [Hc' Ho'].
  cbn [fst snd] in *. rewrite take_ge by lia. rewrite He, app_assoc.
  pose proof (runPurge_covers (mkPastPointFilter latest2 (purgeInterval ppf) (lastPurgeAt ppf)) _ _ Hi Hc') as [Hc2 Hi2].
  by eapply (IH _ clock).
Qed.
End Filter.

(** C37. The points emitted by successive gatherings, at non-decreasing times and without an error, for the same name
    and labels have non-decreasing timestamps, when at most the purge interval (in whole seconds of the clock) separates the
    two gatherings, as long as no gathering has a nil family or a family left without an acceptable point
    ([past_family_emitted] shows what happens then). *)
Theorem emitted_in_order {V : Type} (signature : Labels → Z) (interval start : Z)
    (calls : list (Z * list (option (ppFamily V)))) :
  0 ≤ interval < Int.maxInt64 → StronglySorted Z.le (start :: calls.*1) →
  allCallsKept signature (WithPastPointFilter interval start) calls = true →
  ordered interval (outputs signature (WithPastPointFilter interval start) calls).
Proof.
  intros Hi Hs Hk. apply (outputs_ordered signature interval Hi calls (WithPastPointFilter interval start) start []); try done.
  by intros e ?%not_elem_of_nil.
Qed.

(** When every point of a family is past and the next family has an acceptable one, the gathering
    returns the family of past points as it was, and not the other one: the slice is cut to the
    number of families kept, which are left at their own index. *)
Theorem past_family_emitted {V E : Type} (signature : Labels → Z) (ppf : pastPointFilter) (clock : Z) (past fresh : ppFamily V) :
  let now := Time.Truncate clock Time.second in
  let latest := latestPointByLabelsByMetric ppf in
  (accepted signature now (default ∅ (latest !! ppName past)) (ppMetrics past)).1 = [] →
  ppName past ≠ ppName fresh →
  (accepted signature now (default ∅ (latest !! ppName fresh)) (ppMetrics fresh)).1 ≠ [] →
  (filter signature (E := E) ppf clock [Some past; Some fresh] None).1.1 = [Some past].
Proof.
  intros now latest Hp Hne Hf. unfold filter. cbn [filterFamilies]. fold now latest.
  pose proof (filterFamily_spec signature now latest past) as H1.
  destruct (accepted signature now _ (ppMetrics past)) as [l1 points1]. cbn in Hp. subst l1. rewrite H1.
  pose proof (filterFamily_spec signature now (<[ppName past := points1]> latest) fresh) as H2.
  rewrite lookup_insert_ne in H2 by done.
  destruct (accepted signature now _ (ppMetrics fresh)) as [l2 points2]. cbn [fst] in Hf. rewrite H2.
  rewrite decide_True, (decide_False (P := l2 = [])), bool_decide_false, bool_decide_true by (done || naive_solver). done.
Qed.

(** * Witnesses *)
Definition sampleSignature (lbls : Labels) : Z := Z.of_nat (size lbls).
Definition sampleMetric (ts : Z) : option (ppMetric unit) := Some (mkPPMetric [("item", "a")] ts tt).
Definition sampleCalls : list (Z * list (option (ppFamily unit))) :=
  [(10, [Some (mkPPFamily "cpu" [sampleMetric 5; sampleMetric 3])]); (20, [Some (mkPPFamily "cpu" [sampleMetric 4; sampleMetric 7])])].

Lemma emitted_in_order_witness :
  outputs sampleSignature (WithPastPointFilter 60 0) sampleCalls = [mkEvent 0 "cpu" 1 5; mkEvent 0 "cpu" 1 7] ∧
  ordered 60 (outputs sampleSignature (WithPastPointFilter 60 0) sampleCalls).
Proof.
  split; [by vm_compute|].
  apply (emitted_in_order sampleSignature 60 0 sampleCalls); [unfold Int.maxInt64; lia| |reflexivity].
  cbn. repeat first [apply SSorted_nil|apply Forall_nil|apply SSorted_cons|apply Forall_cons; split|lia].
Defined.

Definition sampleState : pastPointFilter := mkPastPointFilter {[ "mem" := {[ 1 := mkPoint 9 0 ]} ]} 60 0.

Lemma past_family_emitted_witness :
  (filter sampleSignature (E := unit) sampleState 10
     [Some (mkPPFamily "mem" [sampleMetric 8]); Some (mkPPFamily "cpu" [sampleMetric 12])] None).1.1 =
  [Some (mkPPFamily "mem" [sampleMetric 8])].
Proof. apply (past_family_emitted sampleSignature sampleState 10); [reflexivity|done|done]. Defined.
