(* ===== verification/Fifo.v ===== *)
(** The bounded queue that feeds the MQTT publisher (mqtt/client/fifo.go).

    The ring buffer is a record updated by the bodies of [Get], [Put] and
    [PutNoWait].  The goroutines are a labelled transition system: a critical
    section under the mutex is one step, [sync.Cond] is the phase of each
    waiting goroutine, and the [watchForDone] goroutine of an operation is its
    watcher.  The theorems: the queue is first in first out on every run
    ([fifo_order]), no index is out of range, no wake-up is lost
    ([no_lost_wakeup]), and the system always settles ([settles]). *)
From S2P Require Import Prelude.

#[local] Open Scope nat_scope.

Section Fifo.
Context {T : Type} (zero : T).
Implicit Types v : T.

(** ** The ring buffer *)
Record fifo := mkFifo {
  fSize : nat;
  fQueue : list T;
  readIdx : nat;
  writeIdx : nat;
  writeReadDiff : nat;
  fClosed : bool;
}.
Implicit Types f : fifo.

Definition newFifo (size : nat) : fifo := mkFifo size (replicate size zero) 0 0 0 false.

Definition Len (f : fifo) : nat := writeReadDiff f.

Definition closeFifo (f : fifo) : fifo :=
  mkFifo (fSize f) (fQueue f) (readIdx f) (writeIdx f) (writeReadDiff f) true.

(** The end of [Get]: the oldest element leaves its slot. [None] is the panic
    of an index out of range. *)
Definition getBody (f : fifo) : option (T * fifo) :=
  let r := if readIdx f =? fSize f then 0 else readIdx f in
  v ← fQueue f !! r;
  Some (v, mkFifo (fSize f) (<[r := zero]> (fQueue f)) (S r) (writeIdx f)
             (writeReadDiff f - 1) (fClosed f)).

(** The end of [Put] and of [PutNoWait]. *)
Definition putBody (f : fifo) v : option fifo :=
  let w := if writeIdx f =? fSize f then 0 else writeIdx f in
  _ ← fQueue f !! w;
  Some (mkFifo (fSize f) (<[w := v]> (fQueue f)) (readIdx f) (S w)
          (S (writeReadDiff f)) (fClosed f)).

(** ** The critical sections *)
Inductive op :=
  | OGet (ctx : Z)
  | OPut (ctx : Z) (v : T)
  | OPutNoWait (v : T)
  | OClose.

Inductive cond := notEmpty | notFull.

#[global] Instance cond_eq_dec : EqDecision cond.
Proof. solve_decision. Defined.

Inductive result := RValue (v : T) | RClosed | RPut | ROk (ok : bool) | RUnit.

Inductive event := EGet (v : T) | EPut (v : T).

(** What a goroutine does when it holds the mutex: it leaves with a result, a
    new queue, what happened to the elements and the condition it signals; or
    it waits; or it goes on to notify after closing; or it panics. *)
Inductive outcome :=
  | Leave (r : result) (f : fifo) (ev : list event) (signal : option cond)
  | Block
  | Notify (f : fifo)
  | Panic.

(** The test at the entry and the test after a wake-up are the same. *)
Definition critical (f : fifo) (o : op) (ctxDone : bool) : outcome :=
  match o with
  | OGet _ =>
      if fClosed f || ctxDone then Leave RClosed f [] None
      else if writeReadDiff f <=? 0 then Block
      else match getBody f with
           | Some (v, f') => Leave (RValue v) f' [EGet v] (Some notFull)
           | None => Panic
           end
  | OPut _ v =>
      if fClosed f || ctxDone then Leave RUnit f [] None
      else if fSize f <=? writeReadDiff f then Block
      else match putBody f v with
           | Some f' => Leave RPut f' [EPut v] (Some notEmpty)
           | None => Panic
           end
  | OPutNoWait v =>
      if fClosed f then Leave (ROk false) f [] None
      else if fSize f <=? writeReadDiff f then Leave (ROk false) f [] None
      else match putBody f v with
           | Some f' => Leave (ROk true) f' [EPut v] (Some notEmpty)
           | None => Panic
           end
  | OClose => Notify (closeFifo f)
  end.

(** ** The goroutines *)
(** Where a goroutine is: before the mutex, in [Wait], notified and on its way
    back to the mutex, in [Close] before the broadcast on [notFull] or between
    the two broadcasts, or gone. *)
Inductive phase :=
  | Entry | Waiting | Woken | NotifyFull | NotifyEmpty | Finished (r : result).

(** The [watchForDone] goroutine of an operation: ended, waiting for the
    context, or about to broadcast because the context was cancelled. *)
Inductive watcher := Ended | Watching | MustBroadcast.

#[global] Instance watcher_eq_dec : EqDecision watcher.
Proof. solve_decision. Defined.

Record thread := mkThread { tOp : op; tPhase : phase; tWatcher : watcher }.

Definition ctxOf (o : op) : option Z :=
  match o with OGet c | OPut c _ => Some c | _ => None end.

(** The condition an operation waits on. *)
Definition condOf (o : op) : option cond :=
  match o with OGet _ => Some notEmpty | OPut _ _ => Some notFull | _ => None end.

Record cfg := mkCfg {
  data : fifo;
  threads : gmap Z thread;
  cancelled : gset Z;
}.

Definition isWaiting (c : cond) (th : thread) : bool :=
  match tPhase th, condOf (tOp th), c with
  | Waiting, Some notEmpty, notEmpty | Waiting, Some notFull, notFull => true
  | _, _, _ => false
  end.

Definition wake (th : thread) : thread := mkThread (tOp th) Woken (tWatcher th).

Definition broadcast (c : cond) (ths : gmap Z thread) : gmap Z thread :=
  (λ th, if isWaiting c th then wake th else th) <$> ths.

(** [Signal] wakes a goroutine that waits, [w], if there is any; it does
    nothing otherwise. *)
Definition signal (c : cond) (ths : gmap Z thread) (w : option Z) : option (gmap Z thread) :=
  match w with
  | None => if bool_decide (filter (λ it, isWaiting c it.2 = true) ths = ∅)
            then Some ths else None
  | Some t => th ← ths !! t; if isWaiting c th then Some (<[t := wake th]> ths) else None
  end.

Definition signalOpt (c : option cond) (ths : gmap Z thread) (w : option Z)
    : option (gmap Z thread) :=
  match c with Some c => signal c ths w | None => Some ths end.

Definition ctxDone (c : cfg) (o : op) : bool :=
  match ctxOf o with Some x => bool_decide (x ∈ cancelled c) | None => false end.

Definition startThread (c : cfg) (o : op) : thread :=
  mkThread o Entry
    (match ctxOf o with
     | Some x => if bool_decide (x ∈ cancelled c) then MustBroadcast else Watching
     | None => Ended
     end).

Definition cancelThread (x : Z) (th : thread) : thread :=
  match ctxOf (tOp th), tWatcher th with
  | Some y, Watching => if (x =? y)%Z then mkThread (tOp th) (tPhase th) MustBroadcast else th
  | _, _ => th
  end.

(** When the operation returns first, the watcher ends without a broadcast. *)
Definition endWatcher (w : watcher) : watcher :=
  match w with MustBroadcast => MustBroadcast | _ => Ended end.

Definition finish (th : thread) (r : result) : thread :=
  mkThread (tOp th) (Finished r) (endWatcher (tWatcher th)).

Definition runnable (th : thread) : bool :=
  match tPhase th with Entry | Woken => true | _ => false end.

(** A goroutine takes the mutex; [w] is the goroutine its signal wakes. *)
Definition runThread (c : cfg) (t : Z) (w : option Z) : option (list event * cfg) :=
  th ← threads c !! t;
  if runnable th then
    match critical (data c) (tOp th) (ctxDone c (tOp th)) with
    | Leave r f ev sig =>
        ths ← signalOpt sig (<[t := finish th r]> (threads c)) w;
        Some (ev, mkCfg f ths (cancelled c))
    | Block =>
        Some ([], mkCfg (data c) (<[t := mkThread (tOp th) Waiting (tWatcher th)]> (threads c))
                    (cancelled c))
    | Notify f =>
        Some ([], mkCfg f (<[t := mkThread (tOp th) NotifyFull (tWatcher th)]> (threads c))
                    (cancelled c))
    | Panic => None
    end
  else None.

(** The two broadcasts of [Close]. *)
Definition notifyThread (c : cfg) (t : Z) : option cfg :=
  th ← threads c !! t;
  match tPhase th with
  | NotifyFull =>
      Some (mkCfg (data c)
              (broadcast notFull (<[t := mkThread (tOp th) NotifyEmpty (tWatcher th)]> (threads c)))
              (cancelled c))
  | NotifyEmpty =>
      Some (mkCfg (data c)
              (broadcast notEmpty (<[t := finish th RUnit]> (threads c))) (cancelled c))
  | _ => None
  end.

(** The broadcast of a [watchForDone] whose context was cancelled. *)
Definition fireWatcher (c : cfg) (t : Z) : option cfg :=
  th ← threads c !! t;
  match tWatcher th, condOf (tOp th) with
  | MustBroadcast, Some cd =>
      Some (mkCfg (data c)
              (broadcast cd (<[t := mkThread (tOp th) (tPhase th) Ended]> (threads c)))
              (cancelled c))
  | _, _ => None
  end.

(** What the goroutines and their watchers do by themselves. *)
Inductive internal : cfg → list event → cfg → Prop :=
  | i_run c t w ev c' : runThread c t w = Some (ev, c') → internal c ev c'
  | i_notify c t c' : notifyThread c t = Some c' → internal c [] c'
  | i_fire c t c' : fireWatcher c t = Some c' → internal c [] c'.

(** What the callers do: start an operation in a new goroutine, or cancel a
    context. *)
Inductive step : cfg → list event → cfg → Prop :=
  | s_internal c ev c' : internal c ev c' → step c ev c'
  | s_start c t o : threads c !! t = None →
      step c [] (mkCfg (data c) (<[t := startThread c o]> (threads c)) (cancelled c))
  | s_cancel c x :
      step c [] (mkCfg (data c) (cancelThread x <$> threads c) ({[x]} ∪ cancelled c)).

Inductive reachable (size : nat) : list event → cfg → Prop :=
  | r_init : reachable size [] (mkCfg (newFifo size) ∅ ∅)
  | r_step tr c ev c' : reachable size tr c → step c ev c' → reachable size (tr ++ ev) c'.

(** * Theorems *)
(** ** The ring buffer is a bounded list *)
(** The queue holds [l], oldest first. *)
Record repr f (l : list T) : Prop := {
  repr_slots : length (fQueue f) = fSize f;
  repr_read : readIdx f ≤ fSize f;
  repr_write : writeIdx f ≤ fSize f;
  repr_diff : writeReadDiff f = length l;
  repr_room : length l ≤ fSize f;
  repr_gap : fSize f ≠ 0 → writeIdx f mod fSize f = (readIdx f + length l) mod fSize f;
  repr_elems : ∀ i v, l !! i = Some v → fQueue f !! ((readIdx f + i) mod fSize f) = Some v;
}.

Lemma wrap_mod (x n : nat) : x ≤ n → n ≠ 0 → (if x =? n then 0 else x) = x mod n.
Proof.
  intros Hx Hn. destruct (Nat.eqb_spec x n) as [->|].
  - by rewrite Nat.Div0.mod_same.
  - rewrite Nat.mod_small; lia.
Qed.

Lemma mod_shift_ne (a k n : nat) : 0 < k < n → (a + k) mod n ≠ a mod n.
Proof.
  intros Hk Heq. assert (n ≠ 0) as Hn by lia.
  pose proof (Nat.div_mod (a + k) n Hn) as H1. pose proof (Nat.div_mod a n Hn) as H2.
  rewrite Heq in H1. generalize dependent ((a + k) / n). generalize dependent (a / n).
  intros q2 H2 q1 H1. destruct (Nat.le_gt_cases q1 q2) as [H|H]; [nia|].
  assert (n * S q2 ≤ n * q1) by (apply Nat.mul_le_mono_l; lia). lia.
Qed.

Lemma repr_new (size : nat) : repr (newFifo size) [].
Proof.
  split; simpl; try lia.
  - apply length_replicate.
  - done.
Qed.

Lemma getBody_repr f v (l : list T) :
  repr f (v :: l) → ∃ f', getBody f = Some (v, f') ∧ repr f' l
    ∧ fSize f' = fSize f ∧ fClosed f' = fClosed f.
Proof.
  intros [Hs Hr Hw Hd Hroom Hgap Hel]. simpl in *. unfold getBody.
  rewrite wrap_mod by lia. set (n := fSize f) in *.
  pose proof (Hel 0 v eq_refl) as H0. rewrite Nat.add_0_r in H0. rewrite H0. simpl.
  assert (readIdx f mod n < n) by (apply Nat.mod_upper_bound; lia).
  eexists. split; [done|]. split; [|done].
  split; simpl; fold n; try lia.
  - by rewrite length_insert.
  - intros Hn. rewrite Hgap by done. rewrite <-Nat.add_succ_r, Nat.Div0.add_mod_idemp_l. done.
  - intros i u Hi. rewrite <-Nat.add_succ_r, Nat.Div0.add_mod_idemp_l.
    rewrite list_lookup_insert_ne; [by apply Hel|].
    apply not_eq_sym, mod_shift_ne. apply lookup_lt_Some in Hi. lia.
Qed.

Lemma putBody_repr f v (l : list T) :
  repr f l → length l < fSize f → ∃ f', putBody f v = Some f' ∧ repr f' (l ++ [v])
    ∧ fSize f' = fSize f ∧ fClosed f' = fClosed f.
Proof.
  intros [Hs Hr Hw Hd Hroom Hgap Hel] Hlt. unfold putBody.
  rewrite wrap_mod, Hgap by lia. set (n := fSize f) in *.
  assert ((readIdx f + length l) mod n < n) by (apply Nat.mod_upper_bound; lia).
  destruct (lookup_lt_is_Some_2 (fQueue f) ((readIdx f + length l) mod n)) as [x ->]; [lia|].
  eexists. split; [done|]. split; [|done].
  split; simpl; fold n; rewrite ?length_app; simpl; try lia.
  - by rewrite length_insert.
  - intros Hn. rewrite <-Nat.add_1_r, Nat.Div0.add_mod_idemp_l. f_equal. lia.
  - intros i u [Hi|[Hi Heq]]%lookup_app_Some.
    + rewrite list_lookup_insert_ne; [by apply Hel|]. apply lookup_lt_Some in Hi.
      replace (readIdx f + length l) with (readIdx f + i + (length l - i)) by lia.
      apply mod_shift_ne. lia.
    + apply list_lookup_singleton_Some in Heq as [Hi0 <-].
      replace i with (length l) by lia. rewrite list_lookup_insert_eq; [done|lia].
Qed.

Definition puts (tr : list event) : list T :=
  omap (λ ev, match ev with EPut v => Some v | EGet _ => None end) tr.
Definition gets (tr : list event) : list T :=
  omap (λ ev, match ev with EGet v => Some v | EPut _ => None end) tr.

(** The effect of events on the content. *)
Definition applies (ev : list event) (l l' : list T) : Prop := l ++ puts ev = gets ev ++ l'.

(** A critical section never indexes out of range and acts on the content as
    its events say. *)
Lemma critical_repr f (l : list T) (o : op) (d : bool) :
  repr f l →
  match critical f o d with
  | Leave _ f' ev _ => ∃ l', repr f' l' ∧ applies ev l l' ∧ fSize f' = fSize f
                             ∧ fClosed f' = fClosed f
  | Block => True
  | Notify f' => repr f' l ∧ fSize f' = fSize f ∧ fClosed f' = true
  | Panic => False
  end.
Proof.
  intros Hf. pose proof (repr_diff _ _ Hf) as Hd.
  assert (applies [] l l) as Hnil by (unfold applies; simpl; by rewrite app_nil_r).
  assert (∃ l', repr f l' ∧ applies [] l l' ∧ fSize f = fSize f ∧ fClosed f = fClosed f) as Hsame
    by eauto.
  assert (∀ v, (fSize f <=? writeReadDiff f) = false →
    ∃ f', putBody f v = Some f' ∧ ∃ l', repr f' l' ∧ applies [EPut v] l l'
      ∧ fSize f' = fSize f ∧ fClosed f' = fClosed f) as Hput.
  { intros v Hlt%Nat.leb_gt. destruct (putBody_repr f v l Hf) as (f' & ? & ? & ? & ?); [lia|].
    exists f'. split; [done|]. exists (l ++ [v]). done. }
  destruct o as [x|x v|v|]; simpl.
  - destruct (fClosed f || d); [done|]. destruct (Nat.leb_spec (writeReadDiff f) 0); [done|].
    destruct l as [|v l]; simpl in *; [lia|].
    destruct (getBody_repr f v l Hf) as (f' & -> & ? & ? & ?). exists l. done.
  - destruct (fClosed f || d); [done|]. destruct (fSize f <=? writeReadDiff f) eqn:Hlt; [done|].
    by destruct (Hput v eq_refl) as (f' & -> & ?).
  - case_eq (fClosed f); intros Hc; [by rewrite Hc in *|].
    destruct (fSize f <=? writeReadDiff f) eqn:Hlt; [by rewrite Hc in *|]. rewrite <-Hc.
    by destruct (Hput v eq_refl) as (f' & -> & ?).
  - split; [|done]. by destruct Hf; split.
Qed.

Lemma puts_app (tr tr' : list event) : puts (tr ++ tr') = puts tr ++ puts tr'.
Proof. apply omap_app. Qed.
Lemma gets_app (tr tr' : list event) : gets (tr ++ tr') = gets tr ++ gets tr'.
Proof. apply omap_app. Qed.

Lemma step_repr (c c' : cfg) (ev : list event) (l : list T) :
  step c ev c' → repr (data c) l → ∃ l', repr (data c') l' ∧ applies ev l l'
    ∧ fSize (data c') = fSize (data c).
Proof.
  assert (applies [] l l) as Hnil by (unfold applies; simpl; by rewrite app_nil_r).
  intros Hstep Hf. destruct Hstep as [c ev c' Hi| |]; [|by eauto..].
  destruct Hi as [c t w ev c' H|c t c' H|c t c' H].
  - unfold runThread in H. destruct (threads c !! t) as [th|]; simpl in H; [|done].
    destruct (runnable th); [|done].
    pose proof (critical_repr (data c) l (tOp th) (ctxDone c (tOp th)) Hf) as Hc.
    destruct (critical _ _ _) as [r f ev' sig| |f|]; [| | |done].
    + apply bind_Some in H as (ths & _ & [= <- <-]). destruct Hc as (l' & ? & ? & ? & ?). eauto.
    + injection H as <- <-. eauto.
    + injection H as <- <-. destruct Hc as (? & ? & ?). eauto.
  - unfold notifyThread in H. destruct (threads c !! t) as [th|]; simpl in H; [|done].
    destruct (tPhase th); try done; injection H as <-; eauto.
  - unfold fireWatcher in H. destruct (threads c !! t) as [th|]; simpl in H; [|done].
    destruct (tWatcher th), (condOf (tOp th)); try done. injection H as <-. eauto.
Qed.

Lemma reachable_repr (size : nat) (tr : list event) (c : cfg) :
  reachable size tr c →
  ∃ l, repr (data c) l ∧ puts tr = gets tr ++ l ∧ fSize (data c) = size.
Proof.
  induction 1 as [|tr c ev c' _ (l & Hf & Htr & Hs) Hstep].
  - exists []. split_and!; [apply repr_new|done|done].
  - destruct (step_repr c c' ev l Hstep Hf) as (l' & Hf' & Happ & Hs').
    exists l'. split_and!; [done| |by rewrite Hs'].
    unfold applies in Happ. rewrite puts_app, gets_app, Htr, <-!app_assoc. by rewrite Happ.
Qed.

(** C1. On every run of any number of goroutines calling [Get], [Put],
    [PutNoWait] and [Close], with contexts cancelled at any time: the elements
    taken out are a prefix of the elements put in, in the same order; the
    elements in between are the ones the ring buffer holds, at most its size;
    and no goroutine about to run its critical section panics on an index. *)
Theorem fifo_order (size : nat) (tr : list event) (c : cfg) :
  reachable size tr c →
  ∃ held, puts tr = gets tr ++ held ∧ Len (data c) = length held ∧ length held ≤ size
    ∧ (∀ i v, held !! i = Some v →
         fQueue (data c) !! ((readIdx (data c) + i) mod size) = Some v)
    ∧ (∀ t th, threads c !! t = Some th →
         critical (data c) (tOp th) (ctxDone c (tOp th)) ≠ Panic).
Proof.
  intros (l & Hf & Htr & Hs)%reachable_repr. exists l. split; [done|].
  pose proof (repr_diff _ _ Hf). pose proof (repr_room _ _ Hf). rewrite <-Hs.
  split_and!; [done|done|apply Hf|]. intros t th _ Hp.
  pose proof (critical_repr _ l (tOp th) (ctxDone c (tOp th)) Hf) as Hc.
  by rewrite Hp in Hc.
Qed.

(** ** No wake-up is lost *)
Definition count (P : thread → bool) (ths : gmap Z thread) : nat :=
  size (filter (λ it, P it.2 = true) ths).

Lemma count_insert_new P (ths : gmap Z thread) (t : Z) (x : thread) :
  ths !! t = None → count P (<[t := x]> ths) = Nat.b2n (P x) + count P ths.
Proof.
  intros Ht. unfold count. destruct (P x) eqn:HP.
  - rewrite map_filter_insert_True by done. simpl. rewrite map_size_insert_None; [done|].
    apply map_lookup_filter_None. by left.
  - rewrite map_filter_insert_False by (simpl; congruence). by rewrite delete_id.
Qed.

Lemma count_insert P (ths : gmap Z thread) (t : Z) (x y : thread) :
  ths !! t = Some x →
  count P (<[t := y]> ths) + Nat.b2n (P x) = count P ths + Nat.b2n (P y).
Proof.
  intros Hx. rewrite <-(insert_delete_id ths t x Hx) at 2.
  rewrite <-insert_delete_eq, !count_insert_new by apply lookup_delete_eq. lia.
Qed.

Lemma count_fmap_same P (g : thread → thread) (ths : gmap Z thread) :
  (∀ t th, ths !! t = Some th → P (g th) = P th) → count P (g <$> ths) = count P ths.
Proof.
  intros H. unfold count. rewrite map_filter_fmap, map_size_fmap. f_equal.
  apply map_filter_ext. intros t th Ht. simpl. by rewrite (H t th Ht).
Qed.

Definition waitsIn (ths : gmap Z thread) (cd : cond) : Prop :=
  ∃ t th, ths !! t = Some th ∧ isWaiting cd th = true.

(** Some watcher is about to broadcast on [cd]. *)
Definition mustIn (ths : gmap Z thread) (cd : cond) : Prop :=
  ∃ t th, ths !! t = Some th ∧ condOf (tOp th) = Some cd ∧ tWatcher th = MustBroadcast.

Definition onCond (cd : cond) (o : op) : bool :=
  match condOf o, cd with
  | Some notEmpty, notEmpty | Some notFull, notFull => true
  | _, _ => false
  end.

(** A goroutine on its way back to use what [cd] announces. *)
Definition live (cd : cond) (th : thread) : bool :=
  match tPhase th, tWatcher th with
  | Woken, Watching => onCond cd (tOp th)
  | _, _ => false
  end.

(** How many goroutines waiting on [cd] the queue could serve. *)
Definition avail f (cd : cond) : nat :=
  match cd with notEmpty => writeReadDiff f | notFull => fSize f - writeReadDiff f end.

Definition served f (ths : gmap Z thread) : Prop :=
  ∀ cd, waitsIn ths cd → mustIn ths cd ∨ avail f cd ≤ count (live cd) ths.

Definition closing (ths : gmap Z thread) (cd : cond) : Prop :=
  ∃ t th, ths !! t = Some th ∧
    (tPhase th = NotifyFull ∨ cd = notEmpty ∧ tPhase th = NotifyEmpty).

(** What the phase and the watcher of a goroutine say of its operation. *)
Definition coherent f (cancelled : gset Z) (th : thread) : Prop :=
  (tPhase th = Waiting ∨ tPhase th = Woken → is_Some (condOf (tOp th)))
  ∧ (tPhase th = NotifyFull ∨ tPhase th = NotifyEmpty → fClosed f = true)
  ∧ (tWatcher th = MustBroadcast → is_Some (condOf (tOp th)))
  ∧ (∀ x, ctxOf (tOp th) = Some x → (∀ r, tPhase th ≠ Finished r) →
     match tWatcher th with
     | Watching => x ∉ cancelled
     | MustBroadcast => x ∈ cancelled
     | Ended => x ∈ cancelled ∧ tPhase th ≠ Waiting
     end).

Record inv (c : cfg) : Prop := {
  inv_coherent : ∀ t th, threads c !! t = Some th → coherent (data c) (cancelled c) th;
  inv_closed : fClosed (data c) = true → ∀ cd, waitsIn (threads c) cd → closing (threads c) cd;
  inv_served : fClosed (data c) = false → served (data c) (threads c);
}.

Lemma isWaiting_iff (cd : cond) (th : thread) :
  isWaiting cd th = true ↔ tPhase th = Waiting ∧ condOf (tOp th) = Some cd.
Proof.
  unfold isWaiting. destruct (tPhase th), (condOf (tOp th)) as [[]|], cd; naive_solver.
Qed.

Lemma onCond_iff (cd : cond) (o : op) : onCond cd o = true ↔ condOf o = Some cd.
Proof. unfold onCond. destruct (condOf o) as [[]|], cd; naive_solver. Qed.

Lemma waitsIn_insert (ths : gmap Z thread) (t : Z) (th : thread) (cd : cond) :
  isWaiting cd th = false → waitsIn (<[t := th]> ths) cd → waitsIn ths cd.
Proof.
  intros Hn (t' & th' & [[<- <-]|[_ Hl]]%lookup_insert_Some & Hw); [congruence|].
  by exists t', th'.
Qed.

Lemma mustIn_insert (ths : gmap Z thread) (t : Z) (th th' : thread) (cd : cond) :
  ths !! t = Some th → tOp th' = tOp th →
  (tWatcher th = MustBroadcast → tWatcher th' = MustBroadcast) →
  mustIn ths cd → mustIn (<[t := th']> ths) cd.
Proof.
  intros Ht Hop Hw (t' & th1 & Hl & Hc & Hm). destruct (decide (t' = t)) as [->|].
  - exists t, th'. rewrite lookup_insert_eq. simplify_eq. rewrite Hop. auto.
  - exists t', th1. by rewrite lookup_insert_ne.
Qed.

Lemma broadcast_lookup (cd : cond) (ths : gmap Z thread) (t : Z) (th : thread) :
  broadcast cd ths !! t = Some th →
  ∃ th0, ths !! t = Some th0 ∧ th = if isWaiting cd th0 then wake th0 else th0.
Proof. unfold broadcast. rewrite lookup_fmap_Some. naive_solver. Qed.

Lemma broadcast_waits (cd cd' : cond) (ths : gmap Z thread) :
  waitsIn (broadcast cd ths) cd' → cd' ≠ cd ∧ waitsIn ths cd'.
Proof.
  intros (t & th & (th0 & Hl & ->)%broadcast_lookup & Hw).
  destruct (isWaiting cd th0) eqn:H0; [done|].
  split; [congruence|]. by exists t, th0.
Qed.

Lemma broadcast_must (cd cd' : cond) (ths : gmap Z thread) :
  mustIn ths cd' → mustIn (broadcast cd ths) cd'.
Proof.
  intros (t & th & Hl & Hc & Hm). exists t, (if isWaiting cd th then wake th else th).
  unfold broadcast. rewrite lookup_fmap, Hl. simpl. by destruct (isWaiting cd th).
Qed.

Lemma broadcast_live (cd cd' : cond) (ths : gmap Z thread) :
  cd' ≠ cd → count (live cd') (broadcast cd ths) = count (live cd') ths.
Proof.
  intros Hne. apply count_fmap_same. intros t th _.
  destruct (isWaiting cd th) eqn:Hw; [|done]. apply isWaiting_iff in Hw as [Hp Hc].
  unfold live, wake, onCond. simpl. rewrite Hp, Hc. by destruct (tWatcher th), cd, cd'.
Qed.

Lemma coherent_wake f (xs : gset Z) (cd : cond) (th : thread) :
  isWaiting cd th = true → coherent f xs th → coherent f xs (wake th).
Proof.
  intros [Hp Hc]%isWaiting_iff (_ & _ & H3 & H4). unfold coherent, wake. simpl.
  split_and!; [by rewrite Hc|by intros [?|?]|done|]. intros x Hx _.
  specialize (H4 x Hx). rewrite Hp in H4. destruct (tWatcher th); naive_solver.
Qed.

Lemma broadcast_coherent f (xs : gset Z) (cd : cond) (ths : gmap Z thread) :
  (∀ t th, ths !! t = Some th → coherent f xs th) →
  ∀ t th, broadcast cd ths !! t = Some th → coherent f xs th.
Proof.
  intros H t th (th0 & Hl & ->)%broadcast_lookup. specialize (H _ _ Hl).
  destruct (isWaiting cd th0) eqn:Hw; [|done]. by eapply coherent_wake.
Qed.

Lemma coherent_data f f' (xs : gset Z) (th : thread) :
  (fClosed f = true → fClosed f' = true) → coherent f xs th → coherent f' xs th.
Proof. unfold coherent. naive_solver. Qed.

(** Inserting a coherent goroutine. *)
Lemma coherent_insert f (xs : gset Z) (ths : gmap Z thread) (t : Z) (th : thread) :
  coherent f xs th → (∀ t th, ths !! t = Some th → coherent f xs th) →
  ∀ t' th', <[t := th]> ths !! t' = Some th' → coherent f xs th'.
Proof. intros Hth H t' th' [[_ <-]|[_ Hl]]%lookup_insert_Some; eauto. Qed.

Lemma signal_cases (cd : cond) (ths ths' : gmap Z thread) (w : option Z) :
  signal cd ths w = Some ths' →
  (ths' = ths ∧ ¬ waitsIn ths cd)
  ∨ ∃ t th, ths !! t = Some th ∧ isWaiting cd th = true ∧ ths' = <[t := wake th]> ths.
Proof.
  unfold signal. destruct w as [t|].
  - intros (th & Hl & H)%bind_Some. destruct (isWaiting cd th) eqn:Hw; [|done].
    injection H as <-. right. eauto.
  - case_bool_decide as He; [|done]. intros [= <-]. left. split; [done|].
    intros (t & th & Hl & Hw). pose proof (map_filter_empty_not_lookup _ _ t th He Hw). done.
Qed.

Lemma signal_total (cd : cond) (ths : gmap Z thread) : ∃ w ths', signal cd ths w = Some ths'.
Proof.
  destruct (decide (filter (λ it, isWaiting cd it.2 = true) ths = ∅)) as [He|He].
  - exists None, ths. simpl. by rewrite bool_decide_eq_true_2.
  - apply map_choose in He as (t & th & [Hl Hw]%map_lookup_filter_Some).
    exists (Some t), (<[t := wake th]> ths). simpl in *. by rewrite Hl; simpl; rewrite Hw.
Qed.

(** A signal keeps the waiting goroutines served when one more of them can
    be. *)
Lemma signal_served f f' (xs : gset Z) (cd : cond) (ths ths' : gmap Z thread) (w : option Z) :
  (∀ t th, ths !! t = Some th → coherent f xs th) →
  (∀ cd', waitsIn ths cd' → mustIn ths cd'
     ∨ avail f' cd' ≤ Nat.b2n (bool_decide (cd' = cd)) + count (live cd') ths) →
  signal cd ths w = Some ths' → served f' ths'.
Proof.
  intros Hco Hpre Hsig cd' Hw'. apply signal_cases in Hsig as [[-> Hno]|(t & th & Hl & Hw & ->)].
  - destruct (Hpre cd' Hw') as [|Hle]; [by left|right].
    rewrite bool_decide_eq_false_2 in Hle; [done|congruence].
  - apply isWaiting_iff in Hw as Hwp. destruct Hwp as [Hp Hc].
    apply waitsIn_insert in Hw'; [|by destruct cd'].
    destruct (Hpre cd' Hw') as [|Hle]; [left; by eapply mustIn_insert|].
    pose proof (count_insert (live cd') ths t th (wake th) Hl) as Hcnt.
    replace (live cd' th) with false in Hcnt by (unfold live; by rewrite Hp).
    case_bool_decide as Heq; [subst cd'|]; simpl in Hle; [|right; simpl in Hcnt; lia].
    destruct (tWatcher th) eqn:Hwa.
    + destruct (Hco t th Hl) as (_ & _ & _ & Hctx). rewrite Hwa in Hctx.
      destruct (tOp th) as [x|x v| |]; try done;
        destruct (Hctx x) as [_ Hn]; try done; by rewrite Hp.
    + right. replace (live cd (wake th)) with true in Hcnt; [simpl in Hcnt; lia|].
      unfold live. simpl. rewrite Hwa. symmetry. by apply onCond_iff.
    + left. exists t, (wake th). by rewrite lookup_insert_eq.
Qed.

(** What leaving a critical section does to the room of the queue. *)
Lemma critical_avail f f' (o : op) (d : bool) (r : result) (ev : list event)
    (sig : option cond) :
  critical f o d = Leave r f' ev sig → fClosed f = false →
  match sig with
  | None => f' = f ∧ (d = true ∨ condOf o = None)
  | Some cd => onCond cd o = false
      ∧ ∀ cd', avail f' cd' ≤ if bool_decide (cd' = cd) then S (avail f cd')
                              else avail f cd' - 1
  end.
Proof.
  intros H Hc. unfold critical in H. rewrite Hc in H.
  destruct o as [x|x v|v|]; simpl in H; [| | |done].
  1, 2: destruct d; [simplify_eq; eauto|].
  - destruct (writeReadDiff f <=? 0); [done|]. unfold getBody in H.
    destruct (fQueue f !! _); simplify_eq/=. split; [done|]. intros []; simpl; lia.
  - destruct (fSize f <=? writeReadDiff f) eqn:Hlt; [done|]. unfold putBody in H.
    destruct (fQueue f !! _); simplify_eq/=. split; [done|]. intros []; simpl; lia.
  - destruct (fSize f <=? writeReadDiff f) eqn:Hlt; [simplify_eq; eauto|]. unfold putBody in H.
    destruct (fQueue f !! _); simplify_eq/=. split; [done|]. intros []; simpl; lia.
Qed.

Lemma critical_block f (o : op) (d : bool) :
  critical f o d = Block →
  fClosed f = false ∧ d = false ∧ ∃ cd, condOf o = Some cd ∧ avail f cd = 0.
Proof.
  unfold critical. destruct o as [x|x v|v|]; simpl; [| | |done].
  - destruct (fClosed f), d; try done. simpl.
    destruct (Nat.leb_spec (writeReadDiff f) 0); [|by destruct (getBody f) as [[]|]].
    intros _. split_and!; [done|done|]. exists notEmpty. simpl. split; [done|lia].
  - destruct (fClosed f), d; try done. simpl.
    destruct (Nat.leb_spec (fSize f) (writeReadDiff f)); [|by destruct (putBody f v)].
    intros _. split_and!; [done|done|]. exists notFull. simpl. split; [done|lia].
  - destruct (fClosed f); [done|]. destruct (fSize f <=? writeReadDiff f); [done|].
    by destruct (putBody f v).
Qed.

Lemma onCond_ne (cd cd' : cond) (o : op) :
  condOf o = Some cd → cd' ≠ cd → onCond cd' o = false.
Proof. intros Hc Hne. apply not_true_iff_false. rewrite onCond_iff. congruence. Qed.

Lemma live_off (cd : cond) (th : thread) : onCond cd (tOp th) = false → live cd th = false.
Proof. unfold live. destruct (tPhase th), (tWatcher th); done. Qed.

Lemma inv_init (size : nat) : inv (mkCfg (newFifo size) ∅ ∅).
Proof. split; simpl; [done|done|]. intros _ cd (t & th & Hl & _). done. Qed.

Lemma inv_start (c : cfg) (t : Z) (o : op) :
  threads c !! t = None → inv c →
  inv (mkCfg (data c) (<[t := startThread c o]> (threads c)) (cancelled c)).
Proof.
  intros Ht [Hco Hcl Hse].
  assert (∀ cd, waitsIn (<[t := startThread c o]> (threads c)) cd → waitsIn (threads c) cd)
    as Hw by (intros cd; apply waitsIn_insert; by destruct cd).
  assert (∀ t' th, threads c !! t' = Some th →
    <[t := startThread c o]> (threads c) !! t' = Some th) as Hkeep.
  { intros t' th Hl. rewrite lookup_insert_ne; congruence. }
  split; simpl.
  - apply coherent_insert; [|done]. unfold coherent, startThread. simpl.
    split_and!; [by intros [?|?]..| |].
    + destruct o; simpl; try done; by case_bool_decide.
    + intros x -> _. by case_bool_decide.
  - intros Hc cd Hwt. destruct (Hcl Hc cd (Hw cd Hwt)) as (t' & th & Hl & Hp).
    exists t', th. eauto.
  - intros Hc cd Hwt. rewrite count_insert_new by done.
    destruct (Hse Hc cd (Hw cd Hwt)) as [(t' & th & Hl & Hm)|Hle]; [left|right; lia].
    exists t', th. eauto.
Qed.

Lemma cancelThread_same (x : Z) (th : thread) :
  tOp (cancelThread x th) = tOp th ∧ tPhase (cancelThread x th) = tPhase th
  ∧ (tWatcher th = MustBroadcast → tWatcher (cancelThread x th) = MustBroadcast).
Proof.
  unfold cancelThread. destruct (ctxOf (tOp th)); [|done].
  destruct (tWatcher th) eqn:Hw; rewrite ?Hw; try done. by destruct (x =? z)%Z.
Qed.

Lemma cancelThread_watcher (x : Z) (th : thread) :
  tWatcher (cancelThread x th)
  = match tWatcher th with
    | Watching => if bool_decide (ctxOf (tOp th) = Some x) then MustBroadcast else Watching
    | w => w
    end.
Proof.
  unfold cancelThread. destruct (ctxOf (tOp th)) as [y|].
  - destruct (tWatcher th) eqn:Hw; rewrite ?Hw; try done.
    destruct (Z.eqb_spec x y) as [->|]; [by rewrite bool_decide_eq_true_2|].
    rewrite bool_decide_eq_false_2, ?Hw; [done|congruence].
  - by destruct (tWatcher th) eqn:Hw.
Qed.

Lemma coherent_cancel f (xs : gset Z) (x : Z) (th : thread) :
  coherent f xs th → coherent f ({[x]} ∪ xs) (cancelThread x th).
Proof.
  destruct (cancelThread_same x th) as (Ho & Hp & _).
  intros (H1 & H2 & H3 & H4). unfold coherent. rewrite Ho, Hp, cancelThread_watcher.
  split_and!; [done|done| |].
  - destruct (tWatcher th); try done. case_bool_decide as Hx; [|done].
    intros _. by destruct (tOp th).
  - intros y Hy Hf. specialize (H4 y Hy Hf). destruct (tWatcher th); [set_solver| |set_solver].
    case_bool_decide as Hx; [simplify_eq; set_solver|].
    assert (x ≠ y) by congruence. set_solver.
Qed.

Lemma inv_cancel (c : cfg) (x : Z) :
  inv c → inv (mkCfg (data c) (cancelThread x <$> threads c) ({[x]} ∪ cancelled c)).
Proof.
  intros [Hco Hcl Hse].
  assert (∀ cd, waitsIn (cancelThread x <$> threads c) cd → waitsIn (threads c) cd) as Hw.
  { intros cd (t & th & (th0 & <- & Hl)%lookup_fmap_Some & Hwt). exists t, th0. split; [done|].
    destruct (cancelThread_same x th0) as (Ho & Hp & _).
    apply isWaiting_iff. apply isWaiting_iff in Hwt. by rewrite Ho, Hp in Hwt. }
  split; simpl.
  - intros t th (th0 & <- & Hl)%lookup_fmap_Some. by eapply coherent_cancel, Hco.
  - intros Hc cd Hwt. destruct (Hcl Hc cd (Hw cd Hwt)) as (t & th & Hl & Hp).
    exists t, (cancelThread x th). rewrite lookup_fmap, Hl.
    destruct (cancelThread_same x th) as (_ & -> & _). done.
  - intros Hc cd Hwt.
    destruct (decide (filter (λ it, tWatcher it.2 = Watching ∧ ctxOf (tOp it.2) = Some x
                        ∧ condOf (tOp it.2) = Some cd) (threads c) = ∅)) as [He|Hne].
    + destruct (Hse Hc cd (Hw cd Hwt)) as [(t & th & Hl & Hm & Hb)|Hle]; [left|right].
      * exists t, (cancelThread x th). rewrite lookup_fmap, Hl.
        destruct (cancelThread_same x th) as (-> & _ & ?). eauto.
      * rewrite count_fmap_same; [done|]. intros t th Hl.
        destruct (cancelThread_same x th) as (Ho & Hp & _).
        unfold live. rewrite Ho, Hp, cancelThread_watcher.
        destruct (tPhase th), (tWatcher th) eqn:Hwa; try done.
        case_bool_decide as Hx; [|done]. destruct (onCond cd (tOp th)) eqn:Hon; [|done].
        apply onCond_iff in Hon. by destruct (map_filter_empty_not_lookup _ _ t th He).
    + left. apply map_choose in Hne as (t & th & (Hl & Hwa & Hx & Hcd)%map_lookup_filter_Some).
      simpl in *. exists t, (cancelThread x th). rewrite lookup_fmap, Hl.
      destruct (cancelThread_same x th) as (-> & _ & _).
      rewrite cancelThread_watcher, Hwa, bool_decide_eq_true_2; done.
Qed.

Lemma coherent_finish f (xs : gset Z) (th : thread) (r : result) :
  coherent f xs th → coherent f xs (finish th r).
Proof.
  intros (_ & _ & H3 & _). unfold coherent, finish. simpl.
  split_and!; [by intros [?|?]..| |].
  - by destruct (tWatcher th).
  - intros x _ Hf. by destruct (Hf r).
Qed.

Lemma live_done (c : cfg) (cd : cond) (th : thread) :
  coherent (data c) (cancelled c) th →
  ctxDone c (tOp th) = true ∨ condOf (tOp th) = None → live cd th = false.
Proof.
  intros (_ & _ & _ & H4) Hd. unfold live.
  destruct (tPhase th) eqn:Hp; try done. destruct (tWatcher th); try done.
  unfold ctxDone in Hd. destruct (tOp th) as [x|x v| |]; simpl in *; try done;
    (destruct Hd as [Hd|]; [|done]); apply bool_decide_eq_true in Hd;
    by specialize (H4 x eq_refl ltac:(by intros ?)).
Qed.

(** A goroutine that leaves its critical section. *)
Lemma inv_leave (c : cfg) (t : Z) (th : thread) (w : option Z) (r : result) f
    (ev : list event) (sig : option cond) (ths : gmap Z thread) :
  inv c → threads c !! t = Some th → runnable th = true →
  critical (data c) (tOp th) (ctxDone c (tOp th)) = Leave r f ev sig →
  fClosed f = fClosed (data c) →
  signalOpt sig (<[t := finish th r]> (threads c)) w = Some ths →
  inv (mkCfg f ths (cancelled c)).
Proof.
  intros [Hco Hcl Hse] Ht Hrun Hcrit Hclosed Hsig.
  set (ths1 := <[t := finish th r]> (threads c)) in *.
  assert (∀ t' th', ths1 !! t' = Some th' → coherent f (cancelled c) th') as Hco1.
  { apply coherent_insert.
    - eapply coherent_finish, coherent_data, Hco; [by rewrite Hclosed|done].
    - intros t' th' Hl. eapply coherent_data, Hco; [by rewrite Hclosed|done]. }
  assert (∀ cd, waitsIn ths1 cd → waitsIn (threads c) cd) as Hw1
    by (intros cd; by apply waitsIn_insert).
  assert (∀ cd, mustIn (threads c) cd → mustIn ths1 cd) as Hm1.
  { intros cd. apply (mustIn_insert _ _ th); [done..|]. simpl. by intros ->. }
  assert (∀ cd, count (live cd) ths1 + Nat.b2n (live cd th) = count (live cd) (threads c))
    as Hcount.
  { intros cd. unfold ths1. rewrite (count_insert _ _ t th) by done. simpl. lia. }
  assert (∀ cd, closing (threads c) cd → closing ths1 cd) as Hclo1.
  { intros cd (t' & th' & Hl & Hp). exists t', th'. split; [|done]. unfold ths1.
    rewrite lookup_insert_ne; [done|]. intros <-. simplify_eq.
    unfold runnable in Hrun. destruct Hp as [Hp|[_ Hp]]; by rewrite Hp in Hrun. }
  assert (fClosed f = false → ∀ cd, waitsIn ths1 cd → mustIn ths1 cd ∨
    avail f cd ≤ Nat.b2n (bool_decide (sig = Some cd)) + count (live cd) ths1) as Hpre.
  { intros Hf cd Hwt. rewrite Hclosed in Hf.
    destruct (Hse Hf cd (Hw1 cd Hwt)) as [|Hle]; [left; auto|right].
    pose proof (critical_avail _ _ _ _ _ _ _ Hcrit Hf) as Hav. specialize (Hcount cd).
    destruct sig as [cd0|].
    - destruct Hav as [Hoff Hav]. specialize (Hav cd).
      destruct (decide (cd = cd0)) as [->|Hne].
      + rewrite bool_decide_eq_true_2 in Hav |- * by done.
        rewrite (live_off cd0 th Hoff) in Hcount. simpl in *. lia.
      + rewrite bool_decide_eq_false_2 in Hav by done.
        destruct (live cd th); simpl in Hcount; lia.
    - destruct Hav as [-> Hd]. rewrite (live_done c cd th) in Hcount by eauto. simpl in *. lia. }
  destruct sig as [cd0|]; simpl in Hsig.
  - split; simpl.
    + apply signal_cases in Hsig as [[-> _]|(t' & th' & Hl & Hw & ->)]; [done|].
      apply coherent_insert; [|done]. eapply coherent_wake; eauto.
    + intros Hf cd Hwt. exfalso. rewrite Hclosed in Hf. unfold critical in Hcrit.
      rewrite Hf in Hcrit. by destruct (tOp th).
    + intros Hf. eapply signal_served; [done| |done]. intros cd Hwt.
      destruct (Hpre Hf cd Hwt) as [|Hle]; [by left|right].
      erewrite (bool_decide_ext (cd = cd0)); [exact Hle|]. naive_solver.
  - injection Hsig as <-. split; simpl; [done| |].
    + rewrite Hclosed. eauto.
    + intros Hf cd Hwt. destruct (Hpre Hf cd Hwt) as [|Hle]; [by left|right]. done.
Qed.

Lemma inv_block (c : cfg) (t : Z) (th : thread) :
  inv c → threads c !! t = Some th → runnable th = true →
  critical (data c) (tOp th) (ctxDone c (tOp th)) = Block →
  inv (mkCfg (data c) (<[t := mkThread (tOp th) Waiting (tWatcher th)]> (threads c))
         (cancelled c)).
Proof.
  intros [Hco Hcl Hse] Ht Hrun (Hf & Hd & cd0 & Hc0 & Hav)%critical_block.
  set (th' := mkThread (tOp th) Waiting (tWatcher th)). split; simpl.
  - apply coherent_insert; [|done]. destruct (Hco t th Ht) as (_ & _ & H3 & H4).
    unfold coherent, th'. simpl. split_and!; [by rewrite Hc0|by intros [?|?]|done|].
    intros x Hx _. unfold ctxDone in Hd. rewrite Hx in Hd. apply bool_decide_eq_false in Hd.
    specialize (H4 x Hx). unfold runnable in Hrun.
    destruct (tWatcher th), (tPhase th); naive_solver.
  - congruence.
  - intros _ cd Hwt. destruct (decide (cd = cd0)) as [->|Hne]; [right; rewrite Hav; lia|].
    apply waitsIn_insert in Hwt.
    2:{ apply not_true_iff_false. rewrite isWaiting_iff. simpl. naive_solver. }
    destruct (Hse Hf cd Hwt) as [|Hle]; [left; by eapply mustIn_insert|right].
    pose proof (count_insert (live cd) (threads c) t th th' Ht) as Hcount.
    rewrite (live_off cd th), (live_off cd th') in Hcount by (by eapply onCond_ne).
    simpl in *. lia.
Qed.

Lemma inv_notify_start (c : cfg) (t : Z) (th : thread) f :
  inv c → threads c !! t = Some th → runnable th = true →
  critical (data c) (tOp th) (ctxDone c (tOp th)) = Notify f →
  inv (mkCfg f (<[t := mkThread (tOp th) NotifyFull (tWatcher th)]> (threads c)) (cancelled c)).
Proof.
  intros [Hco Hcl Hse] Ht Hrun Hcrit.
  assert (f = closeFifo (data c) ∧ tOp th = OClose) as [-> Ho].
  { unfold critical in Hcrit. destruct (tOp th); simplify_eq; [..|done]; exfalso;
      repeat case_match; congruence. }
  split; simpl; [|intros _ cd _|done].
  - apply coherent_insert; [|intros t' th' Hl; eapply coherent_data, Hco; eauto].
    destruct (Hco t th Ht) as (_ & _ & H3 & _).
    unfold coherent. simpl. rewrite Ho in *. split_and!; [by intros [?|?]|done|done|done].
  - eexists t, _. rewrite lookup_insert_eq. eauto.
Qed.

Lemma inv_notify (c c' : cfg) (t : Z) : notifyThread c t = Some c' → inv c → inv c'.
Proof.
  intros (th & Ht & H)%bind_Some [Hco Hcl Hse]. destruct (Hco t th Ht) as (H1 & H2 & H3 & H4).
  destruct (tPhase th) eqn:Hp; try done; injection H as <-;
    (assert (fClosed (data c) = true) as Hc by auto); (split; simpl; [|intros _|congruence]).
  - apply broadcast_coherent, coherent_insert; [|done]. unfold coherent. simpl.
    split_and!; [by intros [?|?]|done|done|]. intros x Hx _. specialize (H4 x Hx).
    destruct (tWatcher th); naive_solver.
  - intros cd [Hne Hwt]%broadcast_waits. exists t, (mkThread (tOp th) NotifyEmpty (tWatcher th)).
    unfold broadcast. rewrite lookup_fmap, lookup_insert_eq. split; [done|].
    destruct cd; [auto|done].
  - apply broadcast_coherent, coherent_insert; [eapply coherent_finish, Hco, Ht|done].
  - intros cd [Hne Hwt]%broadcast_waits. apply waitsIn_insert in Hwt; [|done].
    destruct (Hcl Hc cd Hwt) as (t' & th' & Hl & [Hp'|[-> _]]); [|done].
    exists t', th'. unfold broadcast. rewrite lookup_fmap, lookup_insert_ne, Hl by congruence.
    split; [|by left]. simpl. unfold isWaiting. by rewrite Hp'.
Qed.

Lemma inv_fire (c c' : cfg) (t : Z) : fireWatcher c t = Some c' → inv c → inv c'.
Proof.
  intros (th & Ht & H)%bind_Some [Hco Hcl Hse]. destruct (tWatcher th) eqn:Hwa; try done.
  destruct (condOf (tOp th)) as [cd0|] eqn:Hc0; [|done]. injection H as <-.
  set (th' := mkThread (tOp th) (tPhase th) Ended).
  assert (∀ cd, cd ≠ cd0 → waitsIn (<[t := th']> (threads c)) cd → waitsIn (threads c) cd) as Hw.
  { intros cd Hne. apply waitsIn_insert. apply not_true_iff_false.
    rewrite isWaiting_iff. simpl. naive_solver. }
  split; simpl.
  - intros t1 th1 (th0 & Hl & ->)%broadcast_lookup.
    apply lookup_insert_Some in Hl as [[<- <-]|[Hne Hl]].
    + destruct (Hco t th Ht) as (H1 & H2 & H3 & H4).
      destruct (isWaiting cd0 th') eqn:Hi; unfold coherent; simpl.
      * split_and!; [by rewrite Hc0|by intros [?|?]|done|]. intros x Hx _. specialize (H4 x Hx).
        apply isWaiting_iff in Hi as [Hi _]. simpl in Hi. rewrite Hwa, Hi in H4. naive_solver.
      * split_and!; [done|done|done|]. intros x Hx Hnf. specialize (H4 x Hx Hnf).
        rewrite Hwa in H4. split; [done|]. intros Hp. apply not_true_iff_false in Hi. apply Hi.
        by apply isWaiting_iff.
    + destruct (isWaiting cd0 th0) eqn:Hi; [eapply coherent_wake; eauto|eauto].
  - intros Hc cd [Hne Hwt]%broadcast_waits.
    destruct (Hcl Hc cd (Hw cd Hne Hwt)) as (t1 & th1 & Hl & Hp).
    destruct (decide (t1 = t)) as [->|Hne1].
    + simplify_eq. exists t, th'. unfold broadcast. rewrite lookup_fmap, lookup_insert_eq.
      split; [|done]. simpl. unfold isWaiting. simpl. by destruct Hp as [->|[_ ->]].
    + exists t1, th1. unfold broadcast. rewrite lookup_fmap, lookup_insert_ne, Hl by done.
      split; [|done]. simpl. unfold isWaiting. by destruct Hp as [->|[_ ->]].
  - intros Hc cd [Hne Hwt]%broadcast_waits. rewrite broadcast_live by done.
    pose proof (count_insert (live cd) (threads c) t th th' Ht) as Hcount.
    rewrite (live_off cd th), (live_off cd th') in Hcount by (by eapply onCond_ne).
    destruct (Hse Hc cd (Hw cd Hne Hwt)) as [(t1 & th1 & Hl & Hcd & Hm)|Hle];
      [left|right; simpl in *; lia].
    apply broadcast_must. exists t1, th1. rewrite lookup_insert_ne; [done|congruence].
Qed.

Lemma step_inv (c c' : cfg) (ev : list event) (l : list T) :
  step c ev c' → repr (data c) l → inv c → inv c'.
Proof.
  intros [c0 ev0 c0' Hi|c0 t o Ht|c0 x] Hf Hinv; [|by apply inv_start|by apply inv_cancel].
  clear c c' ev. destruct Hi as [c t w ev c' (th & Ht & H)%bind_Some|c t c' H|c t c' H];
    [|by eapply inv_notify|by eapply inv_fire].
  destruct (runnable th) eqn:Hrun; [|done].
  pose proof (critical_repr (data c) l (tOp th) (ctxDone c (tOp th)) Hf) as Hcr.
  destruct (critical _ _ _) as [r f ev' sig| |f|] eqn:Hcrit; [| | |done].
  - apply bind_Some in H as (ths & Hsig & [= <- <-]). destruct Hcr as (l' & _ & _ & _ & Hc).
    by eapply inv_leave.
  - injection H as <- <-. by apply inv_block.
  - injection H as <- <-. by apply inv_notify_start.
Qed.

Lemma reachable_inv (size : nat) (tr : list event) (c : cfg) : reachable size tr c → inv c.
Proof.
  induction 1 as [|tr c ev c' Hr IH Hstep]; [apply inv_init|].
  apply reachable_repr in Hr as (l & Hf & _). by eapply step_inv.
Qed.

(** Nothing is left to do for the goroutines by themselves. *)
Definition settled (c : cfg) : Prop := ∀ ev c', ¬ internal c ev c'.

Lemma settled_run (c : cfg) (t : Z) (th : thread) (l : list T) :
  settled c → repr (data c) l → threads c !! t = Some th → runnable th = false.
Proof.
  intros Hset Hf Ht. apply not_true_iff_false. intros Hrun.
  pose proof (critical_repr (data c) l (tOp th) (ctxDone c (tOp th)) Hf) as Hcr.
  destruct (critical (data c) (tOp th) (ctxDone c (tOp th))) as [r f ev sig| |f|] eqn:Hcrit;
    [| | |done].
  - assert (∃ w ths, signalOpt sig (<[t := finish th r]> (threads c)) w = Some ths)
      as (w & ths & Hsig) by (destruct sig; [apply signal_total|by exists None; eauto]).
    eapply Hset, (i_run _ t w). unfold runThread. rewrite Ht. simpl. rewrite Hrun, Hcrit, Hsig.
    done.
  - eapply Hset, (i_run _ t None). unfold runThread. rewrite Ht. simpl. by rewrite Hrun, Hcrit.
  - eapply Hset, (i_run _ t None). unfold runThread. rewrite Ht. simpl. by rewrite Hrun, Hcrit.
Qed.

Lemma settled_watch (c : cfg) (t : Z) (th : thread) :
  settled c → threads c !! t = Some th → is_Some (condOf (tOp th)) →
  tWatcher th ≠ MustBroadcast.
Proof.
  intros Hset Ht [cd Hcd] Hwa. eapply Hset, (i_fire _ t). unfold fireWatcher.
  rewrite Ht. simpl. by rewrite Hwa, Hcd.
Qed.

Lemma settled_closing (c : cfg) (cd : cond) : settled c → ¬ closing (threads c) cd.
Proof.
  intros Hset (t & th & Ht & Hp).
  destruct Hp as [Hp|[_ Hp]]; eapply Hset, (i_notify _ t); unfold notifyThread;
    rewrite Ht; simpl; by rewrite Hp.
Qed.

(** C2. No wake-up is lost.  When the goroutines have nothing left to do by
    themselves, one that still waits has every reason to: the queue is open,
    its context is not cancelled, and the queue is empty if it waits in [Get],
    full if it waits in [Put].  This holds although [Signal] wakes one
    goroutine only, which may leave on its cancelled context without taking
    the element it was woken for. *)
Theorem no_lost_wakeup (size : nat) (tr : list event) (c : cfg) (t : Z) (th : thread) :
  reachable size tr c → settled c → threads c !! t = Some th → tPhase th = Waiting →
  fClosed (data c) = false
  ∧ match tOp th with
    | OGet x => x ∉ cancelled c ∧ Len (data c) = 0
    | OPut x _ => x ∉ cancelled c ∧ Len (data c) = size
    | _ => False
    end.
Proof.
  intros Hr Hset Ht Hp. apply reachable_repr in Hr as Hl. destruct Hl as (l & Hf & _ & Hs).
  destruct (reachable_inv _ _ _ Hr) as [Hco Hcl Hse].
  destruct (Hco t th Ht) as (H1 & _ & _ & H4).
  destruct (H1 (or_introl Hp)) as [cd Hcd].
  assert (waitsIn (threads c) cd) as Hw by (exists t, th; by rewrite isWaiting_iff).
  assert (fClosed (data c) = false) as Hopen.
  { apply not_true_iff_false. intros Hc. by eapply settled_closing, Hcl. }
  split; [done|].
  assert (avail (data c) cd = 0) as Hav.
  { destruct (Hse Hopen cd Hw) as [(t' & th' & Ht' & Hc' & Hm)|Hle].
    - by destruct (settled_watch c t' th' Hset Ht' ltac:(eauto)).
    - destruct (decide (filter (λ it, live cd it.2 = true) (threads c) = ∅)) as [He|Hne].
      + unfold count in Hle. rewrite He, map_size_empty in Hle. lia.
      + apply map_choose in Hne as (t' & th' & [Ht' Hlv]%map_lookup_filter_Some).
        pose proof (settled_run c t' th' l Hset Hf Ht') as Hrun.
        unfold live, runnable in *. simpl in Hlv. by destruct (tPhase th'). }
  pose proof (settled_watch c t th Hset Ht ltac:(eauto)) as Hnm.
  pose proof (repr_diff _ _ Hf). pose proof (repr_room _ _ Hf). unfold Len.
  assert (∀ r, tPhase th ≠ Finished r) as Hnf by (by rewrite Hp).
  destruct (tOp th) as [x|x v| |]; simplify_eq/=; specialize (H4 x eq_refl Hnf);
    destruct (tWatcher th); try done; try (by destruct H4); (split; [done|lia]).
Qed.

(** ** The goroutines settle *)
(** How far a goroutine is from its end, and whether its watcher is to
    broadcast. *)
Definition rank (th : thread) : nat :=
  match tPhase th with
  | Entry | Waiting | Woken => 3 | NotifyFull => 2 | NotifyEmpty => 1 | Finished _ => 0
  end.
Definition must (th : thread) : bool :=
  match tWatcher th with MustBroadcast => true | _ => false end.

Definition big (ths : gmap Z thread) : nat :=
  count (λ th, 1 <=? rank th) ths + count (λ th, 2 <=? rank th) ths
  + count (λ th, 3 <=? rank th) ths + count must ths.

Definition measure (c : cfg) : nat :=
  S (size (threads c)) * big (threads c) + count runnable (threads c).

Definition bigOf (th : thread) : nat := rank th + Nat.b2n (must th).

Lemma big_insert (ths : gmap Z thread) (t : Z) (x y : thread) :
  ths !! t = Some x → big (<[t := y]> ths) + bigOf x = big ths + bigOf y.
Proof.
  intros Hx. unfold big, bigOf.
  pose proof (count_insert (λ th, 1 <=? rank th) ths t x y Hx).
  pose proof (count_insert (λ th, 2 <=? rank th) ths t x y Hx).
  pose proof (count_insert (λ th, 3 <=? rank th) ths t x y Hx).
  pose proof (count_insert must ths t x y Hx).
  assert (∀ th, Nat.b2n (1 <=? rank th) + Nat.b2n (2 <=? rank th) + Nat.b2n (3 <=? rank th)
    = rank th) as Hr by (intros th; unfold rank; by destruct (tPhase th)).
  rewrite <-(Hr x), <-(Hr y). lia.
Qed.

Lemma big_broadcast (cd : cond) (ths : gmap Z thread) : big (broadcast cd ths) = big ths.
Proof.
  assert (∀ th, rank (if isWaiting cd th then wake th else th) = rank th) as Hr.
  { intros th. destruct (isWaiting cd th) eqn:Hw; [|done].
    apply isWaiting_iff in Hw as [Hp _]. unfold rank. simpl. by rewrite Hp. }
  unfold big, broadcast. rewrite !count_fmap_same; [done|..]; intros t th _;
    rewrite ?Hr; [|done..]. by destruct (isWaiting cd th).
Qed.

Lemma size_broadcast (cd : cond) (ths : gmap Z thread) : size (broadcast cd ths) = size ths.
Proof. apply map_size_fmap. Qed.

Lemma big_signal (sig : option cond) (ths ths' : gmap Z thread) (w : option Z) :
  signalOpt sig ths w = Some ths' → big ths' = big ths ∧ size ths' = size ths.
Proof.
  destruct sig as [cd|]; simpl; [|by intros [= <-]].
  intros [[-> _]|(t & th & Hl & Hw & ->)]%signal_cases; [done|].
  pose proof (big_insert ths t th (wake th) Hl) as Hb.
  apply isWaiting_iff in Hw as [Hp _].
  unfold bigOf, rank in Hb. simpl in Hb. rewrite Hp in Hb. unfold must in Hb. simpl in Hb.
  split; [lia|]. by rewrite map_size_insert_Some by eauto.
Qed.

Lemma count_le P (ths : gmap Z thread) : count P ths ≤ size ths.
Proof. apply map_subseteq_size, map_filter_subseteq. Qed.

Lemma measure_drop (c c' : cfg) :
  size (threads c') = size (threads c) → big (threads c') < big (threads c) →
  measure c' < measure c.
Proof.
  intros Hs Hb. unfold measure. rewrite Hs.
  pose proof (count_le runnable (threads c')). nia.
Qed.

Lemma internal_measure (c c' : cfg) (ev : list event) :
  internal c ev c' → measure c' < measure c.
Proof.
  intros [c0 t w ev' c0' (th & Ht & H)%bind_Some|c0 t c0' (th & Ht & H)%bind_Some
         |c0 t c0' (th & Ht & H)%bind_Some].
  - destruct (runnable th) eqn:Hrun; [|done].
    assert (rank th = 3) as Hrk by (unfold rank, runnable in *; by destruct (tPhase th)).
    destruct (critical _ _ _) as [r f ev1 sig| |f|]; [| | |done].
    + apply bind_Some in H as (ths & [Hb Hs]%big_signal & [= _ <-]).
      pose proof (big_insert (threads c0) t th (finish th r) Ht) as Hi.
      unfold bigOf in Hi. rewrite Hrk in Hi. unfold must in Hi.
      apply measure_drop; simpl.
      * by rewrite Hs, map_size_insert_Some by eauto.
      * rewrite Hb. simpl in Hi. destruct (tWatcher th); simpl in Hi; lia.
    + injection H as _ <-. set (th' := mkThread (tOp th) Waiting (tWatcher th)).
      pose proof (big_insert (threads c0) t th th' Ht) as Hi.
      pose proof (count_insert runnable (threads c0) t th th' Ht) as Hc.
      unfold bigOf in Hi. rewrite Hrk in Hi. rewrite Hrun in Hc. unfold measure. simpl in *.
      rewrite map_size_insert_Some by eauto. unfold must in Hi. simpl in Hi.
      replace (big (<[t := th']> (threads c0))) with (big (threads c0)) by lia. lia.
    + injection H as _ <-.
      pose proof (big_insert (threads c0) t th (mkThread (tOp th) NotifyFull (tWatcher th)) Ht) as Hi.
      unfold bigOf in Hi. rewrite Hrk in Hi. unfold must in Hi. simpl in Hi.
      apply measure_drop; simpl; [by rewrite map_size_insert_Some by eauto|lia].
  - destruct (tPhase th) eqn:Hp; try done; injection H as <-; apply measure_drop; simpl;
      try (by rewrite size_broadcast, map_size_insert_Some by eauto); rewrite big_broadcast.
    + pose proof (big_insert (threads c0) t th (mkThread (tOp th) NotifyEmpty (tWatcher th)) Ht) as Hi.
      unfold bigOf, rank, must in Hi. rewrite Hp in Hi. simpl in Hi. lia.
    + pose proof (big_insert (threads c0) t th (finish th RUnit) Ht) as Hi.
      unfold bigOf, rank, must in Hi. rewrite Hp in Hi. simpl in Hi.
      destruct (tWatcher th); simpl in Hi; lia.
  - destruct (tWatcher th) eqn:Hwa; try done. destruct (condOf (tOp th)); [|done].
    injection H as <-. apply measure_drop; simpl.
    + by rewrite size_broadcast, map_size_insert_Some by eauto.
    + rewrite big_broadcast.
      pose proof (big_insert (threads c0) t th (mkThread (tOp th) (tPhase th) Ended) Ht) as Hi.
      unfold bigOf, rank, must in Hi. rewrite Hwa in Hi. simpl in Hi. lia.
Qed.

(** Left to themselves the goroutines always settle: from any
    configuration every sequence of internal steps is finite, whichever
    goroutine runs and whichever one a signal wakes.  No goroutine spins on
    wake-ups, and [Close] or a cancelled context reaches everyone it should. *)
Theorem settles (c : cfg) : Acc (λ c' c, ∃ ev, internal c ev c') c.
Proof.
  induction c as [c IH] using (well_founded_induction (well_founded_ltof _ measure)).
  constructor. intros c' [ev Hi]. apply IH. by eapply internal_measure.
Qed.

(** A sufficient condition, to be evaluated. *)
Definition idle (c : cfg) : bool :=
  forallb (λ it, match tPhase it.2 with Waiting | Finished _ => negb (must it.2) | _ => false end)
    (map_to_list (threads c)).

Lemma idle_settled (c : cfg) : idle c = true → settled c.
Proof.
  unfold idle. rewrite forallb_forall. intros H ev c' Hi.
  assert (∀ t th, threads c !! t = Some th →
    match tPhase th with Waiting | Finished _ => must th = false | _ => False end) as Hth.
  { intros t th Ht. apply elem_of_map_to_list, list_elem_of_In in Ht. specialize (H _ Ht).
    simpl in H. destruct (tPhase th); try done; by apply negb_true_iff. }
  destruct Hi as [c t w ev c' (th & Ht & Hs)%bind_Some|c t c' (th & Ht & Hs)%bind_Some
                 |c t c' (th & Ht & Hs)%bind_Some]; specialize (Hth t th Ht).
  - unfold runnable in Hs. by destruct (tPhase th).
  - by destruct (tPhase th).
  - unfold must in Hth. destruct (tWatcher th); try done. by destruct (tPhase th).
Qed.
End Fifo.

(** ** Witnesses *)
(** One goroutine waits in [Get]; another puts an element, which wakes it. *)
Definition waitingCfg : cfg (T := Z) :=
  mkCfg (newFifo 0%Z 2) {[ 1%Z := mkThread (OGet 0%Z) Waiting Watching ]} ∅.

Lemma waiting_reachable : reachable 0%Z 2 [] waitingCfg.
Proof.
  change (reachable 0%Z 2 (([] ++ []) ++ []) waitingCfg).
  eapply r_step; [eapply r_step; [apply r_init|]|].
  - by apply (s_start _ _ 1%Z (OGet 0%Z)).
  - apply s_internal, (i_run _ _ 1%Z None). vm_compute. reflexivity.
Qed.

Lemma no_lost_wakeup_witness :
  settled 0%Z waitingCfg
  ∧ fClosed (data waitingCfg) = false ∧ (0%Z ∉ cancelled waitingCfg ∧ Len (data waitingCfg) = 0).
Proof.
  assert (settled 0%Z waitingCfg) as Hset by (apply idle_settled; vm_compute; reflexivity).
  split; [exact Hset|].
  exact (no_lost_wakeup 0%Z 2 [] waitingCfg 1%Z (mkThread (OGet 0%Z) Waiting Watching)
           waiting_reachable Hset eq_refl eq_refl).
Defined.

Definition servedCfg : cfg (T := Z) :=
  mkCfg (mkFifo 2 [0; 0]%Z 1 1 0 false)
    {[ 1%Z := mkThread (OGet 0%Z) (Finished (RValue 7%Z)) Ended;
       2%Z := mkThread (OPutNoWait 7%Z) (Finished (ROk true)) Ended ]} ∅.

Lemma served_reachable : reachable 0%Z 2 [EPut 7%Z; EGet 7%Z] servedCfg.
Proof.
  change (reachable 0%Z 2 ((([] ++ []) ++ [EPut 7%Z]) ++ [EGet 7%Z]) servedCfg).
  eapply r_step; [eapply r_step; [eapply r_step; [apply waiting_reachable|]|]|].
  - by apply (s_start _ _ 2%Z (OPutNoWait 7%Z)).
  - apply s_internal, (i_run _ _ 2%Z (Some 1%Z)). vm_compute. reflexivity.
  - apply s_internal, (i_run _ _ 1%Z None). vm_compute. reflexivity.
Qed.

Lemma fifo_order_witness :
  ∃ held, puts [EPut 7%Z; EGet 7%Z] = gets [EPut 7%Z; EGet 7%Z] ++ held
          ∧ Len (data servedCfg) = length held.
Proof.
  destruct (fifo_order 0%Z 2 _ servedCfg served_reachable) as (held & H1 & H2 & _).
  exists held. split; [exact H1|exact H2].
Defined.
