(* ===== verification/RingCounter.v ===== *)
(** The sliding-window counter of the log pipeline
    (otel/logsource/ringcounter.go): per-second buckets in a ring, emptied as
    the clock advances.  The theorem [Total_window] says that [Total] is the
    sum of what was added in the window, also when the clock steps back, with
    [int] arithmetic that wraps. *)
From S2P Require Import Prelude.

(** ** The counter *)
Record RingCounter := mkRingCounter {
  rcSize : Z;
  rcT0 : Z;
  rcBuckets : list Z;
  rcLastUpdateAt : Z;
}.

Definition setBuckets (rc : RingCounter) (b : list Z) : RingCounter :=
  mkRingCounter (rcSize rc) (rcT0 rc) b (rcLastUpdateAt rc).

(** [None] is the panic on a size below 1. *)
Definition NewRingCounter (size : Z) : option RingCounter :=
  if size <? 1 then None else Some (mkRingCounter size 0 (replicate (Z.to_nat size) 0) 0).

(** [for i := from; i <= to; i++ { buckets[i] = 0 }]; [None] is an index out
    of range. *)
Fixpoint zeroLoop (fuel : nat) (i to : Z) (b : list Z) : option (list Z) :=
  match fuel with
  | O => Some b
  | S fuel =>
      if to <? i then Some b
      else if (i <? 0) || (Z.of_nat (length b) <=? i) then None
      else zeroLoop fuel (i + 1) to (<[Z.to_nat i := 0]> b)
  end.

Definition zeroRange (from to : Z) (b : list Z) : option (list Z) :=
  zeroLoop (Z.to_nat (to - from + 1)) from to b.

(** The two recursive calls of [resetRange] are in range order, so that they
    are the loop. *)
Definition resetRange (rc : RingCounter) (from to : Z) : option RingCounter :=
  setBuckets rc <$>
    (if to <? from
     then b ← zeroRange from (rcSize rc - 1) (rcBuckets rc); zeroRange 0 to b
     else zeroRange from to (rcBuckets rc)).

Definition rebaseIfClockWentBackwards (rc : RingCounter) (now : Z) : option RingCounter :=
  if negb (rcT0 rc =? 0) && (now <? rcT0 rc) then
    rc ← resetRange rc 0 (rcSize rc - 1);
    Some (mkRingCounter (rcSize rc) now (rcBuckets rc) now)
  else Some rc.

(** [int(a - b) % size]: Go's remainder has the sign of the dividend. *)
Definition slot (rc : RingCounter) (t : Z) : Z :=
  Z.rem (Int.int64 (t - rcT0 rc)) (rcSize rc).

Definition discardOutdatedValues (rc : RingCounter) (now : Z) : option RingCounter :=
  if now <=? rcLastUpdateAt rc then Some rc
  else
    let idx := slot rc now in
    let lastIdx := slot rc (rcLastUpdateAt rc) in
    rc ← (if rcSize rc <=? Int.int64 (now - rcLastUpdateAt rc)
          then resetRange rc 0 (rcSize rc - 1)
          else if negb (idx =? lastIdx)
          then resetRange rc (Z.rem (lastIdx + 1) (rcSize rc)) idx
          else Some rc);
    Some (mkRingCounter (rcSize rc) (rcT0 rc) (rcBuckets rc) now).

(** [now] is the reading of the clock, in seconds. *)
Definition Add (rc : RingCounter) (now delta : Z) : option RingCounter :=
  let rc := if rcT0 rc =? 0
            then mkRingCounter (rcSize rc) now (rcBuckets rc) now else rc in
  rc ← rebaseIfClockWentBackwards rc now;
  rc ← discardOutdatedValues rc now;
  let idx := slot rc now in
  if idx <? 0 then None
  else
    old ← rcBuckets rc !! Z.to_nat idx;
    Some (setBuckets rc (<[Z.to_nat idx := Int.int64 (old + delta)]> (rcBuckets rc))).

Definition Total (rc : RingCounter) (now : Z) : option (Z * RingCounter) :=
  rc ← rebaseIfClockWentBackwards rc now;
  rc ← discardOutdatedValues rc now;
  Some (foldl (λ total b, Int.int64 (total + b)) 0 (rcBuckets rc), rc).

(** A caller's sequence: [Some delta] is an [Add], [None] a [Total]. *)
Definition callOne (rc : RingCounter) (call : Z * option Z) : option RingCounter :=
  match call.2 with
  | Some delta => Add rc call.1 delta
  | None => snd <$> Total rc call.1
  end.

Definition calls (rc : RingCounter) (cs : list (Z * option Z)) : option RingCounter :=
  foldl (λ orc call, rc ← orc; callOne rc call) (Some rc) cs.

(** * Theorems *)
(** ** Zeroing a cyclic range *)
Lemma zeroLoop_spec (fuel : nat) (from to : Z) (b : list Z) :
  0 ≤ from → to < Z.of_nat (length b) → to - from + 1 ≤ Z.of_nat fuel →
  ∃ b', zeroLoop fuel from to b = Some b' ∧ length b' = length b
    ∧ ∀ j : nat, b' !! j = if bool_decide (from ≤ Z.of_nat j ≤ to ∧ (j < length b)%nat) then Some 0 else b !! j.
Proof.
  revert from b. induction fuel as [|fuel IH]; intros from b Hf Ht Hn; simpl.
  { exists b. split_and!; [done|done|]. intros j. rewrite bool_decide_eq_false_2; [done|lia]. }
  destruct (Z.ltb_spec to from).
  { exists b. split_and!; [done|done|]. intros j. rewrite bool_decide_eq_false_2; [done|lia]. }
  destruct (Z.ltb_spec from 0); [lia|]. destruct (Z.leb_spec (Z.of_nat (length b)) from); [lia|].
  simpl. destruct (IH (from + 1) (<[Z.to_nat from := 0]> b)) as (b' & -> & Hl & Hb);
    rewrite ?length_insert in *; try lia.
  exists b'. split_and!; [done|done|]. intros j. rewrite Hb.
  destruct (decide (Z.of_nat j = from)) as [<-|Hne].
  - rewrite (bool_decide_eq_false_2 (_ + 1 ≤ _ ≤ _ ∧ _)), bool_decide_eq_true_2 by lia.
    rewrite Nat2Z.id, list_lookup_insert_eq by lia. done.
  - rewrite list_lookup_insert_ne by lia. erewrite bool_decide_ext; [done|lia].
Qed.

Lemma zeroRange_spec (from to : Z) (b : list Z) :
  0 ≤ from → to < Z.of_nat (length b) →
  ∃ b', zeroRange from to b = Some b' ∧ length b' = length b
    ∧ ∀ j : nat, b' !! j = if bool_decide (from ≤ Z.of_nat j ≤ to ∧ (j < length b)%nat) then Some 0 else b !! j.
Proof. intros. apply zeroLoop_spec; lia. Qed.

(** Whether the cyclic range from [from] to [to] contains [j]. *)
Definition inCycle (from to j : Z) : bool :=
  if to <? from then (from <=? j) || (j <=? to) else (from <=? j) && (j <=? to).

Lemma resetRange_spec (rc : RingCounter) (from to : Z) :
  Z.of_nat (length (rcBuckets rc)) = rcSize rc →
  0 ≤ from < rcSize rc → 0 ≤ to < rcSize rc →
  ∃ b', resetRange rc from to = Some (setBuckets rc b') ∧ length b' = length (rcBuckets rc)
    ∧ ∀ j : nat, (j < length b')%nat →
      b' !! j = if inCycle from to (Z.of_nat j)
                then Some 0 else rcBuckets rc !! j.
Proof.
  intros Hlen Hf Ht. unfold resetRange, inCycle. destruct (Z.ltb_spec to from).
  - destruct (zeroRange_spec from (rcSize rc - 1) (rcBuckets rc)) as (b1 & -> & Hl1 & H1); [lia..|].
    simpl. destruct (zeroRange_spec 0 to b1) as (b2 & -> & Hl2 & H2); [lia..|].
    exists b2. split_and!; [done|lia|]. intros j Hj. rewrite H2, H1.
    destruct (Z.leb_spec from (Z.of_nat j)), (Z.leb_spec (Z.of_nat j) to); simpl;
      repeat case_bool_decide; try done; lia.
  - destruct (zeroRange_spec from to (rcBuckets rc)) as (b1 & -> & Hl1 & H1); [lia..|].
    exists b1. split_and!; [done|lia|]. intros j Hj. rewrite H1.
    destruct (Z.leb_spec from (Z.of_nat j)), (Z.leb_spec (Z.of_nat j) to); simpl;
      case_bool_decide; try done; lia.
Qed.

(** ** The specification: a history of additions *)
(** The second the slots are counted from (0 before the first addition), the
    latest reading of the clock, and the additions with their second. *)
Record history := mkHistory { origin : Z; latest : Z; adds : list (Z * Z) }.

Definition sumIf (P : Z → bool) (h : list (Z * Z)) : Z :=
  foldr (λ td acc, if P td.1 then td.2 + acc else acc) 0 h.

(** A clock that goes back before the origin forgets the history; otherwise
    the latest reading only grows. *)
Definition tick (h : history) (now : Z) : history :=
  if negb (origin h =? 0) && (now <? origin h) then mkHistory now now []
  else mkHistory (origin h) (Z.max (latest h) now) (adds h).

(** The second an addition counts for: its own, unless it is a whole window or more behind the latest reading, when it counts
    for the second of the window that is a whole number of windows later. *)
Definition placed (size latest now : Z) : Z := if latest - size <? now then now else latest - (latest - now) mod size.

Definition record (size : Z) (h : history) (call : Z * option Z) : history :=
  match call.2 with
  | None => tick h call.1
  | Some delta =>
      let h := if origin h =? 0 then mkHistory call.1 call.1 (adds h) else h in
      let h := tick h call.1 in
      mkHistory (origin h) (latest h) (adds h ++ [(placed size (latest h) call.1, delta)])
  end.

(** What is counted: the additions of the last [size] seconds. *)
Definition windowSum (size : Z) (h : history) : Z :=
  sumIf (λ t, latest h - size <? t) (adds h).

(** A reading of the clock in seconds since 1970, at most the largest integer. *)
Definition reading (now : Z) : Prop := 0 < now ≤ Int.maxInt64.

Definition inSlot (size : Z) (h : history) (j t : Z) : bool :=
  (latest h - size <? t) && ((t - origin h) mod size =? j).

Record ring_inv (rc : RingCounter) (h : history) : Prop := {
  ri_size : 1 ≤ rcSize rc;
  ri_len : Z.of_nat (length (rcBuckets rc)) = rcSize rc;
  ri_t0 : rcT0 rc = origin h;
  ri_last : rcLastUpdateAt rc = latest h;
  ri_time : 0 ≤ origin h ≤ latest h ∧ latest h ≤ Int.maxInt64;
  ri_hist : ∀ t d, (t, d) ∈ adds h → origin h ≠ 0 ∧ origin h ≤ t ≤ latest h;
  ri_buckets : ∀ j : nat, (j < length (rcBuckets rc))%nat →
    rcBuckets rc !! j = Some (Int.int64 (sumIf (inSlot (rcSize rc) h (Z.of_nat j)) (adds h)));
}.

Lemma sumIf_cons (P : Z → bool) (t d : Z) (h : list (Z * Z)) :
  sumIf P ((t, d) :: h) = (if P t then d else 0) + sumIf P h.
Proof. simpl. by destruct (P t). Qed.

Lemma sumIf_ext (P Q : Z → bool) (h : list (Z * Z)) :
  (∀ t d, (t, d) ∈ h → P t = Q t) → sumIf P h = sumIf Q h.
Proof.
  induction h as [|[t d] h IH]; intros H; [done|]. simpl.
  rewrite (H t d), IH; [done| |by left]. intros t' d' Hin. apply (H t' d'). by right.
Qed.

Lemma sumIf_none (P : Z → bool) (h : list (Z * Z)) :
  (∀ t d, (t, d) ∈ h → P t = false) → sumIf P h = 0.
Proof.
  intros H. rewrite (sumIf_ext P (λ _, false)) by done. clear H.
  by induction h as [|[t d] h IH].
Qed.

Lemma sumIf_snoc (P : Z → bool) (h : list (Z * Z)) (t d : Z) :
  sumIf P (h ++ [(t, d)]) = sumIf P h + (if P t then d else 0).
Proof.
  induction h as [|[t' d'] h IH]; simpl; [destruct (P t); lia|].
  rewrite IH. destruct (P t'), (P t); lia.
Qed.

Lemma placed_spec (size latest origin now : Z) :
  1 ≤ size → now ≤ latest → now ≤ placed size latest now ≤ latest ∧ latest - size < placed size latest now ∧ (placed size latest now - origin) mod size = (now - origin) mod size.
Proof.
  intros Hs Hle. unfold placed. destruct (Z.ltb_spec (latest - size) now) as [|Hfar]; [done|]. pose proof (Z.mod_pos_bound (latest - now) size ltac:(lia)). pose proof (Z.mod_le (latest - now) size ltac:(lia) ltac:(lia)).
  split_and!; [lia|lia|lia|]. rewrite (Z.mod_eq (latest - now) size) by lia. replace (latest - (latest - now - size * ((latest - now) / size)) - origin) with (now - origin + (latest - now) / size * size) by lia. apply Z.mod_add. lia.
Qed.

Lemma slot_mod (rc : RingCounter) (h : history) (t : Z) :
  ring_inv rc h → origin h ≤ t ≤ Int.maxInt64 → slot rc t = (t - origin h) mod rcSize rc.
Proof.
  intros [Hs _ Ht0 _ Htime _ _] Ht. unfold slot. rewrite Ht0.
  rewrite Int.int64_id by (unfold Int.minInt64; lia). apply Z.rem_mod_nonneg; lia.
Qed.

Lemma mod_step (a k n : Z) :
  0 < n → 0 ≤ k < n →
  (a + k) mod n = if a mod n + k <? n then a mod n + k else a mod n + k - n.
Proof.
  intros Hn Hk. pose proof (Z.mod_pos_bound a n Hn). rewrite <-Zplus_mod_idemp_l.
  destruct (Z.ltb_spec (a mod n + k) n); [by apply Z.mod_small; lia|].
  symmetry. apply (Z.mod_unique _ _ 1); lia.
Qed.

(** The range that is emptied holds exactly the slots of the seconds that
    elapsed. *)
Lemma inCycle_elapsed (a d n j : Z) :
  0 < d < n → 0 ≤ j < n →
  inCycle ((a mod n + 1) mod n) ((a + d) mod n) j = true
  ↔ ∃ k, 0 < k ≤ d ∧ (a + k) mod n = j.
Proof.
  intros Hd Hj. pose proof (Z.mod_pos_bound a n ltac:(lia)) as Hl.
  assert ((a mod n + 1) mod n = if a mod n + 1 <? n then a mod n + 1 else 0) as ->.
  { rewrite mod_step, Z.mod_mod by lia. destruct (Z.ltb_spec (a mod n + 1) n); lia. }
  rewrite mod_step by lia. set (l := a mod n) in *. unfold inCycle.
  assert ((∃ k, 0 < k ≤ d ∧ (a + k) mod n = j) ↔ (l < j ≤ l + d ∨ l < j + n ≤ l + d)) as ->.
  { split.
    - intros (k & Hk & <-). rewrite mod_step by lia. fold l. destruct (Z.ltb_spec (l + k) n); lia.
    - intros [H|H]; [exists (j - l)|exists (j + n - l)]; (split; [lia|]);
        rewrite mod_step by lia; fold l; case_match; lia. }
  destruct (Z.ltb_spec (l + 1) n), (Z.ltb_spec (l + d) n);
    (case_match; [rewrite orb_true_iff|rewrite andb_true_iff]); rewrite ?Z.leb_le; lia.
Qed.

(** Emptied slots hold nothing of the new window, the others hold the same. *)
Lemma inSlot_advance (size : Z) (h : history) (now j : Z) :
  let h' := mkHistory (origin h) now (adds h) in
  0 < now - latest h < size → 0 ≤ j < size →
  (∀ t d, (t, d) ∈ adds h → t ≤ latest h) →
  sumIf (inSlot size h' j) (adds h)
  = if inCycle (((latest h - origin h) mod size + 1) mod size) ((now - origin h) mod size) j
    then 0 else sumIf (inSlot size h j) (adds h).
Proof.
  intros h' Hd Hj Hle. unfold inSlot, h'. simpl.
  replace (now - origin h) with (latest h - origin h + (now - latest h)) by lia.
  pose proof (inCycle_elapsed (latest h - origin h) (now - latest h) size j Hd Hj) as Hcyc.
  destruct (inCycle _ _ _).
  - destruct Hcyc as [(k & Hk & Hjk) _]; [done|]. apply sumIf_none. intros t d Hin.
    apply Hle in Hin. apply andb_false_iff. rewrite Z.ltb_ge, Z.eqb_neq.
    destruct (Z.le_gt_cases t (now - size)); [by left|right]. intros Ht.
    rewrite <-Hjk in Ht. apply Z.cong_iff_0, Z.mod_divide in Ht as [q Hq]; [|lia].
    assert (q < 0) by nia. assert (-1 < q) by nia. lia.
  - apply sumIf_ext. intros t d Hin. apply Hle in Hin.
    destruct (Z.eqb_spec ((t - origin h) mod size) j) as [Ht|]; [|by rewrite !andb_false_r].
    rewrite !andb_true_r. destruct (Z.ltb_spec (latest h - size) t); [|apply Z.ltb_ge; lia].
    apply Z.ltb_lt. destruct (Z.le_gt_cases t (now - size)); [|lia].
    destruct Hcyc as [_ Hcyc]. discriminate Hcyc. exists (t + size - latest h). split; [lia|].
    replace (latest h - origin h + (t + size - latest h)) with (t - origin h + 1 * size) by lia.
    by rewrite Z.mod_add by lia.
Qed.

Lemma resetAll_spec (rc : RingCounter) :
  1 ≤ rcSize rc → Z.of_nat (length (rcBuckets rc)) = rcSize rc →
  ∃ b, resetRange rc 0 (rcSize rc - 1) = Some (setBuckets rc b)
    ∧ length b = length (rcBuckets rc) ∧ ∀ j : nat, (j < length b)%nat → b !! j = Some 0.
Proof.
  intros Hs Hl. destruct (resetRange_spec rc 0 (rcSize rc - 1)) as (b & -> & Hlen & Hb); [lia..|].
  exists b. split_and!; [done|done|]. intros j Hj. rewrite Hb by done. unfold inCycle.
  destruct (Z.ltb_spec (rcSize rc - 1) 0); [lia|].
  destruct (Z.leb_spec 0 (Z.of_nat j)), (Z.leb_spec (Z.of_nat j) (rcSize rc - 1)); simpl; done || lia.
Qed.

Lemma discard_inv (rc : RingCounter) (h : history) (now : Z) :
  ring_inv rc h → origin h ≤ now ≤ Int.maxInt64 →
  ∃ rc', discardOutdatedValues rc now = Some rc'
    ∧ ring_inv rc' (mkHistory (origin h) (Z.max (latest h) now) (adds h)) ∧ rcSize rc' = rcSize rc.
Proof.
  intros Hinv Hnow. pose proof Hinv as [Hs Hl Ht0 Hlast Htime Hhist Hb].
  unfold discardOutdatedValues. rewrite Hlast. destruct (Z.leb_spec now (latest h)).
  { exists rc. split_and!; [done| |done]. replace (Z.max (latest h) now) with (latest h) by lia.
    by destruct h. }
  replace (Z.max (latest h) now) with now by lia.
  rewrite (slot_mod _ h), (slot_mod _ h) by (done || lia).
  rewrite Int.int64_id by (unfold Int.minInt64; lia).
  assert (∀ b, length b = length (rcBuckets rc) →
    (∀ j : nat, (j < length b)%nat → b !! j =
       Some (Int.int64 (sumIf (inSlot (rcSize rc) (mkHistory (origin h) now (adds h)) (Z.of_nat j)) (adds h)))) →
    ring_inv (mkRingCounter (rcSize rc) (rcT0 rc) b now) (mkHistory (origin h) now (adds h)))
    as Hnew.
  { intros b Hlb Hbj. split; simpl; try done; [lia|lia|].
    intros t d Hin. apply Hhist in Hin. lia. }
  destruct (Z.leb_spec (rcSize rc) (now - latest h)).
  { destruct (resetAll_spec rc Hs Hl) as (b & -> & Hlb & Hz). simpl. eexists. split; [done|].
    split; [|done]. apply Hnew; [done|]. intros j Hj. rewrite Hz by done.
    rewrite sumIf_none; [done|]. intros t d Hin. apply Hhist in Hin. unfold inSlot. simpl.
    destruct (Z.ltb_spec (now - rcSize rc) t); [lia|done]. }
  pose proof (Z.mod_pos_bound (now - origin h) (rcSize rc)).
  pose proof (Z.mod_pos_bound (latest h - origin h) (rcSize rc)).
  rewrite (proj2 (Z.eqb_neq _ _)).
  2:{ intros Heq. replace (now - origin h) with (latest h - origin h + (now - latest h)) in Heq by lia.
      rewrite mod_step in Heq by lia. case_match; lia. }
  rewrite Z.rem_mod_nonneg by lia. simpl.
  pose proof (Z.mod_pos_bound ((latest h - origin h) mod rcSize rc + 1) (rcSize rc)).
  destruct (resetRange_spec rc (((latest h - origin h) mod rcSize rc + 1) mod rcSize rc)
    ((now - origin h) mod rcSize rc)) as (b & -> & Hlb & Hz); [lia..|].
  simpl. eexists. split; [done|]. split; [|done]. apply Hnew; [done|]. intros j Hj.
  rewrite Hz, inSlot_advance by (lia || (intros t d Hin; apply Hhist in Hin; lia)).
  destruct (inCycle _ _ _); [done|]. apply Hb. lia.
Qed.

Lemma rebase_inv (rc : RingCounter) (h : history) (now : Z) :
  ring_inv rc h → 0 < now ≤ Int.maxInt64 →
  ∃ rc' h', rebaseIfClockWentBackwards rc now = Some rc' ∧ ring_inv rc' h'
    ∧ origin h' ≤ now ∧ tick h now = mkHistory (origin h') (Z.max (latest h') now) (adds h')
    ∧ rcSize rc' = rcSize rc.
Proof.
  intros Hinv Hnow. pose proof Hinv as [Hs Hl Ht0 Hlast Htime Hhist Hb].
  unfold rebaseIfClockWentBackwards, tick. rewrite Ht0.
  destruct (Z.eqb_spec (origin h) 0); simpl; [exists rc, h; split_and!; try done; lia|].
  destruct (Z.ltb_spec now (origin h)); [|exists rc, h; split_and!; try done; lia].
  destruct (resetAll_spec rc Hs Hl) as (b & -> & Hlb & Hz).
  eexists _, (mkHistory now now []). split; [done|]. simpl.
  split_and!; [|lia|by rewrite Z.max_id|done]. split; simpl; try done; try lia.
  intros t d Hin. by apply not_elem_of_nil in Hin.
Qed.

Lemma Total_inv (rc : RingCounter) (h : history) (now : Z) :
  ring_inv rc h → 0 < now ≤ Int.maxInt64 →
  ∃ rc', Total rc now = Some (foldl (λ total b, Int.int64 (total + b)) 0 (rcBuckets rc'), rc')
    ∧ ring_inv rc' (tick h now) ∧ rcSize rc' = rcSize rc.
Proof.
  intros Hinv Hnow. unfold Total.
  destruct (rebase_inv rc h now Hinv Hnow) as (rc1 & h1 & -> & Hinv1 & Ho & Htick & Hs1). simpl.
  destruct (discard_inv rc1 h1 now Hinv1) as (rc2 & -> & Hinv2 & Hs2); [lia|].
  exists rc2. simpl. rewrite Htick. split_and!; [done|done|congruence].
Qed.

Lemma Add_inv (rc : RingCounter) (h : history) (now delta : Z) :
  ring_inv rc h → reading now →
  ∃ rc', Add rc now delta = Some rc' ∧ ring_inv rc' (record (rcSize rc) h (now, Some delta))
    ∧ rcSize rc' = rcSize rc.
Proof.
  intros Hinv Hnow. unfold reading in Hnow. unfold Add, record. simpl.
  set (rc0 := if rcT0 rc =? 0 then _ else rc).
  set (h0 := if origin h =? 0 then mkHistory now now (adds h) else h).
  assert (ring_inv rc0 h0 ∧ rcSize rc0 = rcSize rc ∧ 0 < origin h0) as (Hinv0 & Hs0 & Ho0).
  { pose proof Hinv as [Hs Hl Ht0 Hlast Htime Hhist Hb]. unfold rc0, h0. rewrite Ht0.
    destruct (Z.eqb_spec (origin h) 0) as [H0|H0]; [|split_and!; try done; lia].
    assert (adds h = []) as Hnil.
    { destruct (adds h) as [|[t d] l]; [done|]. destruct (Hhist t d); [by left|done]. }
    split_and!; simpl; [|done|lia]. rewrite Hnil in *.
    split; simpl; try done; [lia|]. intros t d Hin. by apply not_elem_of_nil in Hin. }
  destruct (rebase_inv rc0 h0 now Hinv0 Hnow) as (rc1 & h1 & -> & Hinv1 & Ho & Htick & Hs1). simpl.
  destruct (discard_inv rc1 h1 now Hinv1) as (rc2 & -> & Hinv2 & Hs2); [lia|]. simpl.
  rewrite <-Htick in Hinv2.
  assert (origin (tick h0 now) ≤ now ∧ 0 < origin (tick h0 now) ∧ now ≤ latest (tick h0 now)) as (Ho' & Ho'' & Hmax).
  { unfold tick. destruct (Z.eqb_spec (origin h0) 0); [lia|]. simpl.
    destruct (Z.ltb_spec now (origin h0)); simpl; lia. }
  set (h2 := tick h0 now) in *. pose proof Hinv2 as [Hsz Hl Ht0 Hlast Htime Hhist Hb].
  assert (rcSize rc2 = rcSize rc) as Hs by congruence.
  destruct (placed_spec (rcSize rc2) (latest h2) (origin h2) now Hsz Hmax) as (Hp & Hwin & Hcong).
  rewrite (slot_mod _ h2) by (done || lia).
  pose proof (Z.mod_pos_bound (now - origin h2) (rcSize rc2)) as Hmod.
  destruct (Z.ltb_spec ((now - origin h2) mod rcSize rc2) 0); [lia|].
  rewrite Hb by lia. simpl. eexists. split; [done|]. split; [|done]. rewrite <-Hs.
  split; simpl; rewrite ?length_insert; try done.
  - intros t d [Hin|Heq%list_elem_of_singleton]%elem_of_app; [eauto|]. simplify_eq. lia.
  - intros j Hj. rewrite sumIf_snoc.
    change (inSlot _ (mkHistory _ _ _)) with (inSlot (rcSize rc2) h2).
    assert (inSlot (rcSize rc2) h2 (Z.of_nat j) (placed (rcSize rc2) (latest h2) now)
            = ((now - origin h2) mod rcSize rc2 =? Z.of_nat j)) as ->.
    { unfold inSlot. rewrite Hcong. by rewrite (proj2 (Z.ltb_lt _ _) Hwin). }
    destruct (Z.eqb_spec ((now - origin h2) mod rcSize rc2) (Z.of_nat j)) as [Heq|Hne]; simpl.
    + rewrite Heq, Nat2Z.id, list_lookup_insert_eq by done. f_equal. apply Int.wrapS_add_l.
    + rewrite list_lookup_insert_ne by lia. rewrite Z.add_0_r. by apply Hb.
Qed.

(** ** Summing the buckets *)
Definition sumZ (l : list Z) : Z := foldr Z.add 0 l.

Lemma sumZ_cons (x : Z) (l : list Z) : sumZ (x :: l) = x + sumZ l.
Proof. done. Qed.

Lemma foldl_wrap (l : list Z) (a : Z) :
  foldl (λ total b, Int.int64 (total + b)) (Int.int64 a) (Int.int64 <$> l)
  = Int.int64 (a + sumZ l).
Proof.
  revert a. induction l as [|x l IH]; intros a; simpl; [by rewrite Z.add_0_r|].
  replace (Int.int64 (Int.int64 a + Int.int64 x)) with (Int.int64 (a + x)).
  - rewrite IH. f_equal. lia.
  - unfold Int.int64. by rewrite Int.wrapS_add_l, Int.wrapS_add_r.
Qed.

Lemma sumZ_add {A : Type} (f g : A → Z) (l : list A) :
  sumZ ((λ x, f x + g x) <$> l) = sumZ (f <$> l) + sumZ (g <$> l).
Proof. induction l as [|x l IH]; [done|]. rewrite !fmap_cons, !sumZ_cons, IH. lia. Qed.

Lemma sumZ_single (n i : nat) (r d : Z) :
  sumZ ((λ j : nat, if r =? Z.of_nat j then d else 0) <$> seq i n)
  = if (Z.of_nat i <=? r) && (r <? Z.of_nat (i + n)) then d else 0.
Proof.
  revert i. induction n as [|n IH]; intros i.
  - rewrite Nat.add_0_r. simpl. destruct (Z.leb_spec (Z.of_nat i) r), (Z.ltb_spec r (Z.of_nat i)); simpl; lia.
  - cbn [seq]. rewrite fmap_cons, sumZ_cons, IH, <-Nat.add_succ_comm. simpl Nat.add.
    destruct (Z.eqb_spec r (Z.of_nat i)), (Z.leb_spec (Z.of_nat (S i)) r),
      (Z.leb_spec (Z.of_nat i) r), (Z.ltb_spec r (Z.of_nat (S (i + n)))); simpl; lia.
Qed.

Lemma sumZ_slots (size : Z) (h : history) (l : list (Z * Z)) :
  1 ≤ size →
  sumZ ((λ j : nat, sumIf (inSlot size h (Z.of_nat j)) l) <$> seq 0 (Z.to_nat size))
  = sumIf (λ t, latest h - size <? t) l.
Proof.
  intros Hs. induction l as [|[t d] l IH].
  { generalize (seq 0 (Z.to_nat size)). by induction l. }
  pose proof (Z.mod_pos_bound (t - origin h) size ltac:(lia)) as Hr.
  transitivity (sumZ ((λ j : nat, (if (t - origin h) mod size =? Z.of_nat j
      then if latest h - size <? t then d else 0 else 0)
      + sumIf (inSlot size h (Z.of_nat j)) l) <$> seq 0 (Z.to_nat size))).
  - f_equal. apply list_fmap_ext. intros _ j _. rewrite sumIf_cons.
    unfold inSlot at 1. destruct (latest h - size <? t), (_ =? Z.of_nat j); simpl; lia.
  - rewrite sumZ_add, IH, sumZ_single, sumIf_cons. rewrite (proj2 (Z.leb_le _ _)), (proj2 (Z.ltb_lt _ _)) by lia.
    simpl. destruct (latest h - size <? t); lia.
Qed.

Lemma total_window (rc : RingCounter) (h : history) :
  ring_inv rc h →
  foldl (λ total b, Int.int64 (total + b)) 0 (rcBuckets rc) = Int.int64 (windowSum (rcSize rc) h).
Proof.
  intros [Hs Hl _ _ _ _ Hb].
  assert (rcBuckets rc = Int.int64 <$>
    ((λ j : nat, sumIf (inSlot (rcSize rc) h (Z.of_nat j)) (adds h)) <$> seq 0 (Z.to_nat (rcSize rc))))
    as ->.
  { apply list_eq. intros j. rewrite !list_lookup_fmap.
    destruct (decide (j < length (rcBuckets rc))%nat) as [Hj|Hj].
    - rewrite Hb, lookup_seq_lt by lia. done.
    - rewrite lookup_ge_None_2, lookup_seq_ge by lia. done. }
  change 0 with (Int.int64 0) at 1. rewrite foldl_wrap, sumZ_slots by done. done.
Qed.

Lemma calls_inv (cs : list (Z * option Z)) (rc : RingCounter) (h : history) :
  ring_inv rc h → Forall (λ call, reading call.1) cs →
  ∃ rc', calls rc cs = Some rc' ∧ ring_inv rc' (foldl (record (rcSize rc)) h cs) ∧ rcSize rc' = rcSize rc.
Proof.
  unfold calls. revert rc h. induction cs as [|[now [d|]] cs IH]; intros rc h Hinv Hr.
  - exists rc. done.
  - apply Forall_cons in Hr as [Hnow Hr]. cbn [foldl mbind option_bind fst] in *.
    destruct (Add_inv rc h now d Hinv Hnow) as (rc1 & H1 & Hinv1 & Hs1).
    change (callOne rc (now, Some d)) with (Add rc now d). rewrite H1, <-Hs1.
    destruct (IH rc1 _ Hinv1 Hr) as (rc' & ? & ? & ?). exists rc'. rewrite Hs1 in *. split_and!; [done|done|congruence].
  - apply Forall_cons in Hr as [Hnow Hr]. cbn [foldl mbind option_bind fst] in *.
    destruct (Total_inv rc h now Hinv Hnow) as (rc1 & H1 & Hinv1 & Hs1).
    change (callOne rc (now, None)) with (snd <$> Total rc now). rewrite H1, <-Hs1.
    destruct (IH rc1 _ Hinv1 Hr) as (rc' & ? & ? & ?). exists rc'. split_and!; [done|done|congruence].
Qed.

Lemma new_inv (size : Z) (rc : RingCounter) :
  NewRingCounter size = Some rc → ring_inv rc (mkHistory 0 0 []) ∧ rcSize rc = size.
Proof.
  unfold NewRingCounter. destruct (Z.ltb_spec size 1); [done|]. intros [= <-].
  split; [|done]. split; simpl; try lia.
  - rewrite length_replicate. lia.
  - unfold Int.maxInt64. lia.
  - intros t d Hin. by apply not_elem_of_nil in Hin.
  - intros j Hj. rewrite length_replicate in Hj. by rewrite lookup_replicate_2.
Qed.

(** C23. Whatever the readings of the clock, a counter of [size] seconds never panics and its [Total] is the sum, as
    a 64-bit integer, of exactly the deltas that count for the last [size] seconds before the latest reading.  The clock may stand
    still, jump ahead by any amount or step back; when it goes back before the second of the first addition the history restarts.  A delta counts
    for the second of its addition, but one that is added a whole window or more behind the latest reading counts
    for a later second, within the window ([placed]). *)
Theorem Total_window (size : Z) (rc : RingCounter) (cs : list (Z * option Z)) (now : Z) :
  NewRingCounter size = Some rc → Forall (λ call, reading call.1) cs → reading now →
  ∃ rc' rc'',
    calls rc cs = Some rc'
    ∧ Total rc' now
      = Some (Int.int64 (windowSum size (tick (foldl (record size) (mkHistory 0 0 []) cs) now)), rc'').
Proof.
  intros [Hinv Hs]%new_inv Hr Hnow.
  destruct (calls_inv cs rc _ Hinv Hr) as (rc' & Hc & Hinv' & Hs'). rewrite Hs in Hinv'.
  destruct (Total_inv rc' _ now Hinv' Hnow) as (rc'' & Ht & Hinv'' & Hs'').
  exists rc', rc''. split; [done|]. rewrite Ht. do 2 f_equal.
  rewrite (total_window rc'' _ Hinv''). congruence.
Qed.

(** Three additions, one of them after the clock stepped back; the first is
    out of the window when the total is asked. *)
Lemma Total_window_witness :
  let cs := [(100, Some 1); (104, Some 10); (103, Some 100); (105, None)] in
  ∃ rc rc' rc'', NewRingCounter 5 = Some rc ∧ calls rc cs = Some rc'
    ∧ Total rc' 106 = Some (110, rc'').
Proof.
  intros cs.
  assert (Forall (λ call, reading call.1) cs) as Hr.
  { repeat (apply Forall_cons_2; [vm_compute; split; [reflexivity|discriminate]|]). apply Forall_nil_2. }
  destruct (Total_window 5 (mkRingCounter 5 0 [0; 0; 0; 0; 0] 0) cs 106
              eq_refl Hr ltac:(vm_compute; split; [reflexivity|discriminate]))
    as (rc' & rc'' & Hc & Ht).
  eexists _, rc', rc''. split; [reflexivity|split; [exact Hc|exact Ht]].
Defined.

(** The clock is set back by more than the window: what is added an hour ago counts until the clock has caught up. *)
Example added_behind_window :
  let cs := [(1000, Some 1); (5000, None); (1400, Some 10)] in
  (λ rc, fst <$> Total rc 5004) <$> (rc ← NewRingCounter 60; calls rc cs) = Some (Some 10) ∧ placed 60 5000 1400 = 5000.
Proof. vm_compute. split; reflexivity. Qed.
