(* ===== verification/LogChunks.v ===== *)
(** The chunks of log records sent to the cloud (otel/logprocessing/chunker.go): a
    batch that is too large is split in two until each part fits.

    A batch (plog.Logs) is the list of its resources, each with its scopes, each with
    its records.  The size and the encoding of a batch belong to the OpenTelemetry
    library: they are the parameters [logsSize] and [marshalLogs]; [pushLogsFn] acts on
    a state of any type. *)
From S2P Require Import Prelude.

(** * Data *)
Section Logs.
Context {Res Scope Rec : Type}.

Record ScopeLogs := mkScopeLogs { slScope : Scope; slSchemaUrl : string; slLogRecords : list Rec }.
Record ResourceLogs := mkResourceLogs { rlResource : Res; rlSchemaUrl : string; rlScopeLogs : list ScopeLogs }.
Notation Logs := (list ResourceLogs).

Definition LogRecordCount (ld : Logs) : nat :=
  sum_list ((λ rl, sum_list ((λ sl, length (slLogRecords sl)) <$> rlScopeLogs rl)) <$> ld).

(** * Operations *)
(** [f] applied to the last element: what a reference to the element appended last writes to. *)
Definition alterLast {A : Type} (f : A → A) (l : list A) : list A := alter f (length l - 1)%nat l.

(** One record copied to a half; [newRes] and [newScope] are whether the resource and the scope
    have to be appended first. *)
Definition copyRecord (newRes newScope : bool) (res : Res) (scope : Scope) (record : Rec) (half : Logs) : Logs :=
  let half := if newRes then half ++ [mkResourceLogs res "" []] else half in
  let half := if newScope
    then alterLast (λ rl, mkResourceLogs (rlResource rl) (rlSchemaUrl rl) (rlScopeLogs rl ++ [mkScopeLogs scope "" []])) half
    else half in
  alterLast (λ rl, mkResourceLogs (rlResource rl) (rlSchemaUrl rl)
    (alterLast (λ sl, mkScopeLogs (slScope sl) (slSchemaUrl sl) (slLogRecords sl ++ [record])) (rlScopeLogs rl))) half.

(** The state of the loops: the halves, the number of records seen, and whether the current
    resource and scope are still to be copied to each half. *)
Record splitState := mkSplitState {
  firstHalf : Logs; secondHalf : Logs; recordIdx : nat;
  newRes1 : bool; newRes2 : bool; newScope1 : bool; newScope2 : bool
}.

Definition splitRecord (recordsMid : nat) (res : Res) (scope : Scope) (s : splitState) (record : Rec) : splitState :=
  if (recordIdx s <? recordsMid)%nat then
    mkSplitState (copyRecord (newRes1 s) (newScope1 s) res scope record (firstHalf s)) (secondHalf s) (S (recordIdx s))
      false (newRes2 s) false (newScope2 s)
  else
    mkSplitState (firstHalf s) (copyRecord (newRes2 s) (newScope2 s) res scope record (secondHalf s)) (S (recordIdx s))
      (newRes1 s) false (newScope1 s) false.

Definition splitScope (recordsMid : nat) (res : Res) (s : splitState) (sl : ScopeLogs) : splitState :=
  foldl (splitRecord recordsMid res (slScope sl))
    (mkSplitState (firstHalf s) (secondHalf s) (recordIdx s) (newRes1 s) (newRes2 s) true true) (slLogRecords sl).

Definition splitResource (recordsMid : nat) (s : splitState) (rl : ResourceLogs) : splitState :=
  foldl (splitScope recordsMid (rlResource rl))
    (mkSplitState (firstHalf s) (secondHalf s) (recordIdx s) true true true true) (rlScopeLogs rl).

Definition split (ld : Logs) : Logs * Logs :=
  let recordsMid := (LogRecordCount ld / 2)%nat in
  let s := foldl (splitResource recordsMid) (mkSplitState [] [] 0 true true true true) ld in
  (firstHalf s, secondHalf s).

Section Push.
Context {Bytes World Err : Type}.
Variable maxChunkSize : Z.
Variable logsSize : Logs → Z.
Variable marshalLogs : Logs → Bytes + Err.
Variable pushLogsFn : World → Bytes → World * option Err.

(** The encoding and the push of one chunk. *)
Definition pushChunk (w : World) (ld : Logs) : World * list Err :=
  match marshalLogs ld with
  | inr err => (w, [err])
  | inl b => let (w, err) := pushLogsFn w b in (w, option_list err)
  end.

(** The errors are those that errors.Join joins.  [None] is the lack of fuel. *)
Fixpoint push (fuel : nat) (w : World) (ld : Logs) : option (World * list Err) :=
  if (1 <? LogRecordCount ld)%nat && (maxChunkSize <? logsSize ld) then
    match fuel with
    | O => None
    | S fuel =>
        let (half1, half2) := split ld in
        r1 ← push fuel w half1;
        r2 ← push fuel r1.1 half2;
        Some (r2.1, r1.2 ++ r2.2)
    end
  else Some (pushChunk w ld).
End Push.

(** * Records *)
(** The records of a batch, each with its scope and its resource. *)
Definition scopeRecords (res : Res) (sl : ScopeLogs) : list (Res * Scope * Rec) :=
  (λ record, (res, slScope sl, record)) <$> slLogRecords sl.
Definition resourceRecords (rl : ResourceLogs) : list (Res * Scope * Rec) :=
  mjoin (scopeRecords (rlResource rl) <$> rlScopeLogs rl).
Definition records (ld : Logs) : list (Res * Scope * Rec) := mjoin (resourceRecords <$> ld).

Lemma length_mjoin {A : Type} (l : list (list A)) : length (mjoin l) = sum_list (length <$> l).
Proof.
  induction l as [|x l IH]; [done|]. change (length (x ++ mjoin l) = (length x + sum_list (length <$> l))%nat).
  by rewrite length_app, IH.
Qed.

Lemma LogRecordCount_records (ld : Logs) : LogRecordCount ld = length (records ld).
Proof.
  unfold LogRecordCount, records. rewrite length_mjoin, <-list_fmap_compose. f_equal. apply list_fmap_ext.
  intros _ rl _. unfold compose, resourceRecords. rewrite length_mjoin, <-list_fmap_compose. f_equal.
  apply list_fmap_ext. intros _ sl _. unfold compose, scopeRecords. by rewrite length_fmap.
Qed.

Lemma mjoin_snoc {A : Type} (l : list (list A)) (x : list A) : mjoin (l ++ [x]) = mjoin l ++ x.
Proof. rewrite join_app. cbn. by rewrite app_nil_r. Qed.

Lemma alterLast_snoc {A : Type} (f : A → A) (l : list A) (x : A) : alterLast f (l ++ [x]) = l ++ [f x].
Proof.
  unfold alterLast. rewrite length_app. cbn. replace (length l + 1 - 1)%nat with (length l + 0)%nat by lia.
  by rewrite alter_app_r.
Qed.

(** What a half is ready for: the last resource and the last scope are the current ones, unless
    they are still to be appended. *)
Definition ready (newRes newScope : bool) (res : Res) (scope : Scope) (half : Logs) : Prop :=
  (newRes = true → newScope = true) ∧
  (newRes = false → ∃ half' url scopes, half = half' ++ [mkResourceLogs res url scopes] ∧
     (newScope = false → ∃ scopes' surl recs, scopes = scopes' ++ [mkScopeLogs scope surl recs])).

Lemma copyRecord_spec (newRes newScope : bool) (res : Res) (scope : Scope) (record : Rec) (half : Logs) :
  ready newRes newScope res scope half →
  records (copyRecord newRes newScope res scope record half) = records half ++ [(res, scope, record)] ∧
  ready false false res scope (copyRecord newRes newScope res scope record half).
Proof.
  intros [Himp Hlast].
  assert (∃ half' url scopes, (if newRes then half ++ [mkResourceLogs res "" []] else half) =
    half' ++ [mkResourceLogs res url scopes] ∧ records half = records (half' ++ [mkResourceLogs res url scopes]) ∧
    (newScope = false → ∃ scopes' surl recs, scopes = scopes' ++ [mkScopeLogs scope surl recs])) as (half' & url & scopes & Hh & Hr & Hs).
  { destruct newRes.
    - exists half, "", []. split; [done|]. split; [|rewrite Himp by done; done].
      unfold records. rewrite fmap_app, join_app. cbn. by rewrite app_nil_r.
    - destruct Hlast as (half' & url & scopes & -> & Hs); [done|]. by exists half', url, scopes. }
  unfold copyRecord. rewrite Hh, Hr.
  assert (∃ scopes' surl recs, (if newScope then scopes ++ [mkScopeLogs scope "" []] else scopes) =
    scopes' ++ [mkScopeLogs scope surl recs] ∧
    mjoin (scopeRecords res <$> scopes) = mjoin (scopeRecords res <$> scopes' ++ [mkScopeLogs scope surl recs]))
    as (scopes' & surl & recs & Hsc & Hsr).
  { destruct newScope.
    - exists scopes, "", []. split; [done|]. rewrite fmap_app, join_app. cbn. by rewrite app_nil_r.
    - destruct Hs as (scopes' & surl & recs & ->); [done|]. by exists scopes', surl, recs. }
  assert ((if newScope then alterLast (λ rl, mkResourceLogs (rlResource rl) (rlSchemaUrl rl)
      (rlScopeLogs rl ++ [mkScopeLogs scope "" []])) (half' ++ [mkResourceLogs res url scopes])
    else half' ++ [mkResourceLogs res url scopes]) = half' ++ [mkResourceLogs res url (scopes' ++ [mkScopeLogs scope surl recs])]) as ->.
  { destruct newScope; [rewrite alterLast_snoc; cbn|]; by rewrite Hsc. }
  rewrite alterLast_snoc. cbn [rlResource rlSchemaUrl rlScopeLogs]. rewrite alterLast_snoc. cbn [slScope slSchemaUrl slLogRecords].
  split.
  - unfold records. rewrite !fmap_app, !join_app. cbn [fmap list_fmap mjoin list_join]. rewrite !app_nil_r, <-app_assoc. f_equal.
    unfold resourceRecords. cbn [rlResource rlScopeLogs]. rewrite Hsr, !fmap_app, !join_app, <-app_assoc. f_equal.
    unfold scopeRecords. cbn. by rewrite !app_nil_r, fmap_app.
  - split; [done|]. intros _. eexists half', url, _. split; [done|]. intros _. by exists scopes', surl, (recs ++ [record]).
Qed.

(** * Splitting *)
(** After the records [seen], the first half has the first [mid] ones and the second the others. *)
Definition splitInv (mid : nat) (seen : list (Res * Scope * Rec)) (s : splitState) : Prop :=
  recordIdx s = length seen ∧ records (firstHalf s) = take mid seen ∧ records (secondHalf s) = drop mid seen.

Definition bothReady (res : Res) (scope : Scope) (s : splitState) : Prop :=
  ready (newRes1 s) (newScope1 s) res scope (firstHalf s) ∧ ready (newRes2 s) (newScope2 s) res scope (secondHalf s).

Lemma splitRecord_inv (mid : nat) (seen : list (Res * Scope * Rec)) (res : Res) (scope : Scope) (s : splitState) (record : Rec) :
  splitInv mid seen s → bothReady res scope s →
  splitInv mid (seen ++ [(res, scope, record)]) (splitRecord mid res scope s record) ∧
  bothReady res scope (splitRecord mid res scope s record).
Proof.
  intros (Hi & H1 & H2) [Hr1 Hr2]. unfold splitRecord. rewrite Hi. destruct (length seen <? mid)%nat eqn:Hm.
  - apply Nat.ltb_lt in Hm. destruct (copyRecord_spec _ _ _ _ record _ Hr1) as [Hc Hr]. split; [|done].
    split; [cbn; rewrite length_app; cbn; lia|]. cbn [firstHalf secondHalf]. rewrite Hc, H1, H2. split.
    + rewrite !take_ge by (rewrite ?length_app; cbn; lia). done.
    + rewrite !drop_ge by (rewrite ?length_app; cbn; lia). done.
  - apply Nat.ltb_ge in Hm. destruct (copyRecord_spec _ _ _ _ record _ Hr2) as [Hc Hr]. split; [|done].
    split; [cbn; rewrite length_app; cbn; lia|]. cbn [firstHalf secondHalf]. rewrite Hc, H1, H2.
    by rewrite take_app_le, drop_app_le by done.
Qed.

Lemma splitScope_inv (mid : nat) (seen : list (Res * Scope * Rec)) (res : Res) (scope : Scope) (s : splitState) (sl : ScopeLogs) :
  splitInv mid seen s → bothReady res scope s →
  splitInv mid (seen ++ scopeRecords res sl) (splitScope mid res s sl) ∧
  bothReady res (slScope sl) (splitScope mid res s sl).
Proof.
  intros Hi Hr. unfold splitScope, scopeRecords. set (s0 := mkSplitState _ _ _ _ _ _ _).
  assert (splitInv mid seen s0 ∧ bothReady res (slScope sl) s0) as [Hi0 Hr0].
  { split; [exact Hi|]. destruct Hr as [[_ Hr1] [_ Hr2]].
    split; (split; [done|]); intros Hn; [destruct (Hr1 Hn) as (h & u & sc & Heq & _)|destruct (Hr2 Hn) as (h & u & sc & Heq & _)];
      exists h, u, sc; (split; [exact Heq|done]). }
  clearbody s0. clear Hi Hr. revert seen s0 Hi0 Hr0. induction (slLogRecords sl) as [|record l IH]; intros seen s0 Hi0 Hr0.
  - cbn. by rewrite app_nil_r.
  - destruct (splitRecord_inv _ _ _ _ _ record Hi0 Hr0) as [Hi1 Hr1]. rewrite fmap_cons, cons_middle, app_assoc.
    cbn [foldl]. by apply IH.
Qed.

Lemma splitResource_inv (mid : nat) (seen : list (Res * Scope * Rec)) (s : splitState) (rl : ResourceLogs) :
  splitInv mid seen s → splitInv mid (seen ++ resourceRecords rl) (splitResource mid s rl).
Proof.
  intros Hi. unfold splitResource, resourceRecords. set (s0 := mkSplitState _ _ _ _ _ _ _).
  assert (splitInv mid seen s0 ∧ (Scope → ∃ scope, bothReady (rlResource rl) scope s0)) as [Hi0 Hr0].
  { split; [exact Hi|]. intros scope. exists scope. split; split; done. }
  clearbody s0. clear Hi. revert seen s0 Hi0 Hr0. induction (rlScopeLogs rl) as [|sl l IH]; intros seen s0 Hi0 Hr0.
  - cbn. by rewrite app_nil_r.
  - destruct (Hr0 (slScope sl)) as [scope Hr].
    destruct (splitScope_inv mid seen (rlResource rl) scope s0 sl Hi0 Hr) as [Hi1 Hr1].
    rewrite fmap_cons. change (mjoin (?x :: ?y)) with (x ++ mjoin y). rewrite app_assoc. cbn [foldl].
    apply IH; [done|]. intros _. by exists (slScope sl).
Qed.

(** Splitting keeps the records, their scopes, their resources and their order. *)
Lemma split_records (ld : Logs) :
  records (split ld).1 = take (LogRecordCount ld / 2) (records ld) ∧
  records (split ld).2 = drop (LogRecordCount ld / 2) (records ld).
Proof.
  unfold split. generalize (LogRecordCount ld / 2)%nat. intros mid. cbn [fst snd]. set (s0 := mkSplitState _ _ _ _ _ _ _).
  assert (splitInv mid [] s0) as Hi by (unfold splitInv; by rewrite take_nil, drop_nil).
  assert (∀ seen s, splitInv mid seen s → splitInv mid (seen ++ records ld) (foldl (splitResource mid) s ld)) as H.
  { clear. induction ld as [|rl ld IH]; intros seen s Hs.
    - cbn. by rewrite app_nil_r.
    - unfold records. rewrite fmap_cons. change (mjoin (?x :: ?y)) with (x ++ mjoin y). rewrite app_assoc.
      by apply IH, splitResource_inv. }
  by destruct (H [] s0 Hi) as (_ & ? & ?).
Qed.

Section PushLaws.
Context {Bytes World Err : Type}.
Variable maxChunkSize : Z.
Variable logsSize : Logs → Z.
Variable marshalLogs : Logs → Bytes + Err.
Variable pushLogsFn : World → Bytes → World * option Err.

#[local] Notation pushOf := (push maxChunkSize logsSize marshalLogs pushLogsFn).
#[local] Notation pushChunk := (pushChunk marshalLogs pushLogsFn).

(** The chunks pushed one after the other, whether or not some fail. *)
Definition pushAll (w : World) (chunks : list Logs) : World * list Err :=
  foldl (λ r chunk, let (w, errs) := pushChunk r.1 chunk in (w, r.2 ++ errs)) (w, []) chunks.

Lemma foldl_pushChunk (w : World) (errs : list Err) (chunks : list Logs) :
  foldl (λ r chunk, let (w, errs) := pushChunk r.1 chunk in (w, r.2 ++ errs)) (w, errs) chunks =
  ((pushAll w chunks).1, errs ++ (pushAll w chunks).2).
Proof.
  unfold pushAll. revert w errs. induction chunks as [|chunk chunks IH]; intros w errs; [cbn; by rewrite app_nil_r|].
  cbn [foldl fst snd]. destruct (pushChunk w chunk) as [w' errs']. rewrite (IH w' (errs ++ errs')), (IH w' ([] ++ errs')).
  cbn [fst snd app]. by rewrite app_assoc.
Qed.

Lemma pushAll_app (w : World) (c1 c2 : list Logs) :
  pushAll w (c1 ++ c2) = ((pushAll (pushAll w c1).1 c2).1, (pushAll w c1).2 ++ (pushAll (pushAll w c1).1 c2).2).
Proof.
  unfold pushAll at 1. rewrite foldl_app. fold (pushAll w c1). destruct (pushAll w c1) as [w' errs].
  by rewrite foldl_pushChunk.
Qed.

(** A chunk that may be sent: it fits, or it is a single record. *)
Definition fits (ld : Logs) : Prop := (LogRecordCount ld ≤ 1)%nat ∨ logsSize ld ≤ maxChunkSize.

(** C36. A batch is sent as chunks that each fit, or hold a single record, whose records, with their
    scopes and resources, are those of the batch in the same order.  The splitting always ends: one
    level less than the number of records is enough.  Every chunk is pushed, in order, whether or not
    others fail, and the errors are those of the chunks. *)
Theorem push_chunks (fuel : nat) (w : World) (ld : Logs) :
  (LogRecordCount ld ≤ S fuel)%nat →
  ∃ chunks, pushOf fuel w ld = Some (pushAll w chunks) ∧ Forall fits chunks ∧ mjoin (records <$> chunks) = records ld.
Proof.
  revert w ld. induction fuel as [|fuel IH]; intros w ld Hc; cbn [push].
  - exists [ld]. replace (1 <? LogRecordCount ld)%nat with false by (symmetry; apply Nat.ltb_ge; lia). cbn [andb].
    unfold pushAll. cbn. destruct (pushChunk w ld). rewrite app_nil_r. split; [done|]. split; [|done].
    apply Forall_singleton. left. lia.
  - destruct ((1 <? LogRecordCount ld)%nat && (maxChunkSize <? logsSize ld)) eqn:Hb.
    + apply andb_true_iff in Hb as [Hn%Nat.ltb_lt _]. destruct (split_records ld) as [H1 H2].
      pose proof (LogRecordCount_records ld) as Hl. destruct (split ld) as [half1 half2]. cbn [fst snd] in *.
      assert (LogRecordCount ld / 2 < LogRecordCount ld ∧ 0 < LogRecordCount ld / 2)%nat as [Hlt Hpos].
      { split; [apply Nat.div_lt; lia|apply Nat.div_str_pos; lia]. }
      destruct (IH w half1) as (c1 & -> & Hf1 & Hr1).
      { rewrite LogRecordCount_records, H1, length_take. lia. }
      cbn [mbind option_bind]. destruct (IH (pushAll w c1).1 half2) as (c2 & -> & Hf2 & Hr2).
      { rewrite LogRecordCount_records, H2, length_drop. lia. }
      exists (c1 ++ c2). cbn [mbind option_bind]. rewrite pushAll_app. split; [done|]. split; [by apply Forall_app|].
      by rewrite fmap_app, join_app, Hr1, Hr2, H1, H2, take_drop.
    + exists [ld]. unfold pushAll. cbn. destruct (pushChunk w ld). rewrite app_nil_r. split; [done|]. split; [|done].
      apply Forall_singleton. apply andb_false_iff in Hb as [Hb%Nat.ltb_ge|Hb%Z.ltb_ge]; [by left|by right].
Qed.
End PushLaws.
End Logs.

Arguments ScopeLogs : clear implicits.
Arguments ResourceLogs : clear implicits.
Arguments mkScopeLogs {_ _} _ _ _.
Arguments mkResourceLogs {_ _ _} _ _ _.

(** * Witness *)
(** Two resources with two records each, where a chunk holds at most one of them. *)
Definition sampleLogs : list (ResourceLogs string string Z) :=
  [mkResourceLogs "host" "" [mkScopeLogs "app" "" [1; 2]]; mkResourceLogs "db" "" [mkScopeLogs "sql" "" [3; 4]]].

Definition samplePush (w : list (list (ResourceLogs string string Z))) (b : list (ResourceLogs string string Z)) :
    list (list (ResourceLogs string string Z)) * option unit := (w ++ [b], None).

Lemma push_chunks_witness :
  ∃ chunks, push 1 (λ ld, Z.of_nat (LogRecordCount ld)) inl samplePush 3 [] sampleLogs = Some (pushAll inl samplePush [] chunks) ∧
    Forall (fits 1 (λ ld, Z.of_nat (LogRecordCount ld))) chunks ∧ mjoin (records <$> chunks) = records sampleLogs.
Proof. apply (push_chunks 1 (λ ld, Z.of_nat (LogRecordCount ld)) inl samplePush 3 [] sampleLogs). vm_compute. lia. Defined.

(** The two resources are not in the same chunk. *)
Example sample_chunks :
  (push 3 (λ ld, Z.of_nat (LogRecordCount ld)) inl samplePush 3 [] sampleLogs) =
  Some ([[mkResourceLogs "host" "" [mkScopeLogs "app" "" [1; 2]]]; [mkResourceLogs "db" "" [mkScopeLogs "sql" "" [3; 4]]]], []).
Proof. by vm_compute. Qed.
