(* ===== verification/LogBuffer.v ===== *)
(** The buffer of recent logs (logger/buffer.go): the first lines, and the last ones in
    six compressed tails that are used in turn.

    A compressed stream is the bytes written to it: a flush makes them all readable, and
    compress/flate writes to a bytes.Buffer without error.  The text of the time is the
    argument [ts] of [write].  A nil dereference is [None]. *)
From S2P Require Import Prelude.

#[local] Open Scope Z_scope.
#[local] Open Scope list_scope.

Notation line := (list Z) (only parsing).

(** * Data *)
Definition defaultHeadSize : Z := 5000.
Definition defaultTailSize : Z := 5000.
Definition tailsCount : nat := 6.

Inductive bufferState : Set := stateUninitilized | stateWriteHead | stateWritingTail.

(** Where the writer writes: nil, the head, or a tail. *)
Inductive writerTarget : Set := noWriter | headWriter | tailWriter (i : nat).

Record buffer := mkBuffer {
  head : list Z;
  tails : list (list Z);
  tailIndex : Z;
  writer : writerTarget;
  writerSize : Z;
  state : bufferState;
  droppedFirstTail : bool;
  headMaxSize : Z;
  tailMaxSize : Z
}.

Definition zeroBuffer : buffer := mkBuffer [] [] 0 noWriter 0 stateUninitilized false 0 0.

(** * Operations *)
Definition SetCapacity (b : buffer) (headSizeBytes tailSizeBytes : Z) : buffer :=
  if (headSizeBytes <=? 0) || (tailSizeBytes <=? 0) then b
  else mkBuffer (head b) (tails b) (tailIndex b) (writer b) (writerSize b) (state b) (droppedFirstTail b)
         headSizeBytes (Z.quot tailSizeBytes (Z.of_nat tailsCount)).

(** [reset], and the head and the writer of a buffer that is written for the first time. *)
Definition start (b : buffer) : buffer :=
  mkBuffer [] (replicate tailsCount []) (-1) headWriter 0 stateWriteHead false (headMaxSize b) (tailMaxSize b).

(** [b.writer.Write(l)] and [b.writerSize += n] *)
Definition writeLine (b : buffer) (l : line) : option buffer :=
  let size := writerSize b + Z.of_nat (length l) in
  match writer b with
  | noWriter => None
  | headWriter => Some (mkBuffer (head b ++ l) (tails b) (tailIndex b) (writer b) size (state b) (droppedFirstTail b)
                          (headMaxSize b) (tailMaxSize b))
  | tailWriter i => Some (mkBuffer (head b) (alter (λ t, t ++ l) i (tails b)) (tailIndex b) (writer b) size (state b)
                            (droppedFirstTail b) (headMaxSize b) (tailMaxSize b))
  end.

Definition newTails (b : buffer) : option buffer :=
  match writer b with
  | noWriter => None
  | _ =>
      let idx := Z.to_nat (Z.rem (tailIndex b + 1) (Z.of_nat (length (tails b)))) in
      _ ← tails b !! idx;
      let dropped := if tailIndex b =? Z.of_nat (length (tails b)) - 1 then true else droppedFirstTail b in
      Some (mkBuffer (head b) (<[idx := []]> (tails b)) (Z.of_nat idx) (tailWriter idx) 0 (state b) dropped
              (headMaxSize b) (tailMaxSize b))
  end.

Definition setState (b : buffer) (s : bufferState) : buffer :=
  mkBuffer (head b) (tails b) (tailIndex b) (writer b) (writerSize b) s (droppedFirstTail b) (headMaxSize b) (tailMaxSize b).

Definition setDefaults (b : buffer) : buffer :=
  mkBuffer (head b) (tails b) (tailIndex b) (writer b) (writerSize b) (state b) (droppedFirstTail b)
    (if headMaxSize b =? 0 then defaultHeadSize else headMaxSize b)
    (if tailMaxSize b =? 0 then defaultTailSize else tailMaxSize b).

Definition writeTail (b : buffer) (l : line) : option buffer :=
  b ← (if tailMaxSize b <? writerSize b then newTails b else Some b);
  writeLine b l.

Definition writeHead (b : buffer) (l : line) : option buffer :=
  if writerSize b <? headMaxSize b then writeLine b l
  else b ← newTails b; writeTail (setState b stateWritingTail) l.

(** The buffer and the number of bytes of the input. *)
Definition write (b : buffer) (ts input : list Z) : option (buffer * Z) :=
  let l := ts ++ input in
  let prefixSize := Z.of_nat (length l) - Z.of_nat (length input) in
  let b := setDefaults b in
  b ← match state b with
      | stateUninitilized => writeHead (start b) l
      | stateWriteHead => writeHead b l
      | stateWritingTail => writeTail b l
      end;
  Some (b, Z.of_nat (length l) - prefixSize).

(** "[...]" and a newline *)
Definition ellipsis : list Z := [91; 46; 46; 46; 93; 10].

Definition Content (b : buffer) : option (list Z) :=
  match writer b with
  | noWriter => None
  | _ =>
      match state b with
      | stateWriteHead => Some (head b)
      | stateWritingTail =>
          let ntails := length (tails b) in
          parts ← mapM (λ n : nat, tails b !! Z.to_nat (Z.rem (tailIndex b + Z.of_nat n) (Z.of_nat ntails))) (seq 1 ntails);
          Some (head b ++ (if droppedFirstTail b then ellipsis else []) ++ mjoin parts)
      | stateUninitilized => Some []
      end
  end.

(** * Invariant *)
Definition flat (lines : list line) : list Z := mjoin lines.

Lemma flat_app (l1 l2 : list line) : flat (l1 ++ l2) = flat l1 ++ flat l2.
Proof. apply join_app. Qed.

Lemma flat_snoc (ls : list line) (l : line) : flat (ls ++ [l]) = flat ls ++ l.
Proof. rewrite flat_app. f_equal. apply app_nil_r. Qed.

(** What the tails hold, the six before the first being empty. *)
Definition padded (groups : list (list line)) : list (list Z) := replicate tailsCount [] ++ (flat <$> groups).

(** The buffer holds the lines [hd] in its head, and [groups] are the lines of each tail since the
    first one, of which the last six are kept. *)
Record holds (b : buffer) (hd : list line) (groups : list (list line)) : Prop := mkHolds {
  holds_head : head b = flat hd;
  holds_length : length (tails b) = tailsCount;
  holds_index : tailIndex b = if decide (groups = []) then -1 else Z.of_nat ((length groups - 1) mod tailsCount);
  holds_writer : writer b = if decide (groups = []) then headWriter else tailWriter ((length groups - 1) mod tailsCount);
  holds_state : state b = if decide (groups = []) then stateWriteHead else stateWritingTail;
  holds_dropped : droppedFirstTail b = bool_decide (tailsCount < length groups)%nat;
  holds_size : writerSize b = Z.of_nat (length (flat (if decide (groups = []) then hd else default [] (last groups))));
  holds_tails : ∀ j, (length groups ≤ j < length groups + tailsCount)%nat →
                tails b !! (j mod tailsCount)%nat = padded groups !! j
}.

(** Changing the sizes does not matter. *)
Lemma holds_sizes (b b' : buffer) (hd : list line) (groups : list (list line)) :
  head b' = head b → tails b' = tails b → tailIndex b' = tailIndex b → writer b' = writer b →
  writerSize b' = writerSize b → state b' = state b → droppedFirstTail b' = droppedFirstTail b →
  holds b hd groups → holds b' hd groups.
Proof. intros ??????? []. by constructor; congruence || (intros; rewrite H0; auto). Qed.

Lemma mod_neq (j m : nat) : (m < j < m + 6)%nat → (j mod 6)%nat ≠ (m mod 6)%nat.
Proof. intros H Heq. pose proof (Nat.div_mod_eq j 6). pose proof (Nat.div_mod_eq m 6). lia. Qed.

Lemma mod_index (m : nat) : ((if decide (m = 0)%nat then -1 else Z.of_nat ((m - 1) mod 6)) + 1) `rem` 6 = Z.of_nat (m mod 6).
Proof.
  case_decide as Hm; [by subst|]. rewrite Z.rem_mod_nonneg by lia.
  pose proof (Nat.div_mod_eq (m - 1) 6). pose proof (Nat.div_mod_eq m 6).
  pose proof (Nat.mod_upper_bound (m - 1) 6 ltac:(lia)). pose proof (Nat.mod_upper_bound m 6 ltac:(lia)).
  generalize dependent (m / 6)%nat. generalize dependent ((m - 1) / 6)%nat.
  generalize dependent (m mod 6)%nat. generalize dependent ((m - 1) mod 6)%nat. intros r1 Hr1 r2 Hr2 q1 Hq1 q2 Hq2.
  symmetry. apply (Z.mod_unique _ _ (Z.of_nat q2 - Z.of_nat q1)); [left; lia|lia].
Qed.

Lemma dropped_index (m : nat) :
  (if (if decide (m = 0)%nat then -1 else Z.of_nat ((m - 1) mod 6)) =? Z.of_nat 6 - 1 then true else bool_decide (6 < m)%nat) =
  bool_decide (6 < S m)%nat.
Proof.
  pose proof (Nat.div_mod_eq (m - 1) 6) as Hd. pose proof (Nat.mod_upper_bound (m - 1) 6 ltac:(lia)) as Hr.
  destruct (Z.eqb_spec (if decide (m = 0)%nat then -1 else Z.of_nat ((m - 1) mod 6)) (Z.of_nat 6 - 1)) as [H|H].
  - case_decide; [lia|]. symmetry. apply bool_decide_true. lia.
  - apply bool_decide_ext. destruct (decide (m = 6)%nat) as [->|]; [by destruct H|lia].
Qed.

Lemma newTails_holds (b : buffer) (hd : list line) (groups : list (list line)) :
  holds b hd groups →
  ∃ b', newTails b = Some b' ∧ holds (setState b' stateWritingTail) hd (groups ++ [[]]) ∧
    state b' = state b ∧ headMaxSize b' = headMaxSize b ∧ tailMaxSize b' = tailMaxSize b.
Proof.
  intros [Hh Hl Hi Hw Hs Hd Hz Ht]. set (m := length groups). assert (groups = [] ↔ m = 0%nat) as Hm.
  { subst m. destruct groups; naive_solver. }
  assert (Z.to_nat (Z.rem (tailIndex b + 1) (Z.of_nat (length (tails b)))) = (m mod 6)%nat) as Hidx.
  { rewrite Hl, Hi. unfold tailsCount. rewrite (decide_ext (groups = []) (m = 0%nat)) by done.
    change (Z.of_nat 6) with 6. by rewrite mod_index, Nat2Z.id. }
  pose proof (Nat.mod_upper_bound m 6 ltac:(lia)). unfold newTails. rewrite Hidx.
  destruct (lookup_lt_is_Some_2 (tails b) (m mod 6)) as [t0 Ht0]; [rewrite Hl; unfold tailsCount; lia|].
  rewrite Ht0. cbn [mbind option_bind]. eexists. split; [by rewrite Hw; case_decide|]. split; [|done].
  assert (groups ++ [[]] ≠ []) as Hne by (by destruct groups).
  assert (length (groups ++ [[]]) = S m) as Hlen by (rewrite length_app; cbn; lia).
  constructor; cbn [setState head tails tailIndex writer writerSize state droppedFirstTail];
    rewrite ?Hlen, ?(decide_False (P := groups ++ [[]] = [])) by done;
    [done|by rewrite length_insert|by rewrite Nat.sub_succ, Nat.sub_0_r|by rewrite Nat.sub_succ, Nat.sub_0_r|done| |by rewrite last_snoc|].
  - rewrite Hl, Hi, Hd. unfold tailsCount. fold m. rewrite (decide_ext (groups = []) (m = 0%nat)) by done.
    apply dropped_index.
  - intros j Hj. unfold padded. rewrite fmap_app, app_assoc. fold (padded groups). unfold tailsCount in *.
    destruct (decide (j = m + 6)%nat) as [->|Hj'].
    + replace ((m + 6) mod 6)%nat with (m mod 6)%nat by (rewrite <-Nat.Div0.add_mod_idemp_r, Nat.Div0.mod_same; f_equal; lia).
      rewrite list_lookup_insert_eq by lia. rewrite lookup_app_r by (unfold padded; rewrite length_app, length_replicate, length_fmap; unfold tailsCount; fold m; lia).
      unfold padded. rewrite length_app, length_replicate, length_fmap. unfold tailsCount. fold m.
      by replace (m + 6 - (6 + m))%nat with 0%nat by lia.
    + rewrite list_lookup_insert_ne by (apply not_eq_sym, mod_neq; lia). rewrite Ht by lia.
      rewrite lookup_app_l; [done|]. unfold padded. rewrite length_app, length_replicate, length_fmap. unfold tailsCount. fold m. lia.
Qed.

Definition sameSizes (b b' : buffer) : Prop := headMaxSize b' = headMaxSize b ∧ tailMaxSize b' = tailMaxSize b.

Lemma writeLine_head (b : buffer) (hd : list line) (l : line) :
  holds b hd [] → ∃ b', writeLine b l = Some b' ∧ holds b' (hd ++ [l]) [] ∧ sameSizes b b'.
Proof.
  intros [Hh Hl Hi Hw Hs Hd Hz Ht]. unfold writeLine. rewrite Hw. cbn. eexists. split; [done|]. split; [|done].
  constructor; cbn [head tails tailIndex writer writerSize state droppedFirstTail]; try done.
  - by rewrite flat_snoc, Hh.
  - rewrite Hz. cbn [decide_rel decide]. rewrite !decide_True, flat_snoc, length_app by done. lia.
Qed.

Lemma padded_length (groups : list (list line)) : length (padded groups) = (6 + length groups)%nat.
Proof. unfold padded. by rewrite length_app, length_replicate, length_fmap. Qed.

Lemma padded_snoc (gs : list (list line)) (g : list line) : padded (gs ++ [g]) = padded gs ++ [flat g].
Proof. unfold padded. by rewrite fmap_app, app_assoc. Qed.

Lemma writeLine_tail (b : buffer) (hd : list line) (gs : list (list line)) (g : list line) (l : line) :
  holds b hd (gs ++ [g]) → ∃ b', writeLine b l = Some b' ∧ holds b' hd (gs ++ [g ++ [l]]) ∧ sameSizes b b'.
Proof.
  intros [Hh Hl Hi Hw Hs Hd Hz Ht]. set (m := length gs).
  assert (∀ g, length (gs ++ [g]) = S m) as Hlen by (intros; rewrite length_app; cbn; lia).
  assert (∀ g, gs ++ [g] ≠ []) as Hne by (by destruct gs).
  rewrite decide_False in Hi by apply Hne. rewrite decide_False in Hw by apply Hne.
  rewrite decide_False in Hs by apply Hne. rewrite decide_False in Hz by apply Hne.
  rewrite Hlen in Hi, Hw, Hd, Ht. replace (S m - 1)%nat with m in * by lia.
  rewrite last_snoc in Hz. unfold writeLine. rewrite Hw. eexists. split; [done|]. split; [|done].
  constructor; cbn [head tails tailIndex writer writerSize state droppedFirstTail];
    rewrite ?Hlen, ?decide_False by apply Hne; replace (S m - 1)%nat with m by lia; try done.
  - by rewrite length_alter.
  - rewrite last_snoc, Hz. cbn [from_option id]. rewrite flat_snoc, length_app. lia.
  - intros j Hj. unfold tailsCount in *. pose proof (padded_length gs) as Hp. fold m in Hp. rewrite padded_snoc.
    destruct (decide (j = 6 + m)%nat) as [->|Hne'].
    + assert (((6 + m) mod 6)%nat = (m mod 6)%nat) as Hmod.
      { rewrite <-Nat.Div0.add_mod_idemp_l, Nat.Div0.mod_same. done. }
      specialize (Ht (6 + m)%nat ltac:(lia)). rewrite padded_snoc in Ht.
      rewrite Hmod, list_lookup_alter_eq, <-Hmod, Ht.
      rewrite !lookup_app_r, Hp by lia. rewrite Nat.sub_diag. cbn. by rewrite flat_snoc.
    + rewrite list_lookup_alter_ne by (apply not_eq_sym, mod_neq; lia). rewrite Ht, padded_snoc by lia.
      by rewrite !lookup_app_l by lia.
Qed.

(** The sizes that a write uses. *)
Definition headSize (b : buffer) : Z := headMaxSize (setDefaults b).
Definition tailSize (b : buffer) : Z := tailMaxSize (setDefaults b).

(** What a write does to the lines: it extends the head, opens a tail, or extends the last one. *)
Inductive extends (hmax tmax : Z) (l : line) : list line → list (list line) → list line → list (list line) → Prop :=
| extends_head hd : Z.of_nat (length (flat hd)) < hmax → extends hmax tmax l hd [] (hd ++ [l]) []
| opens_first hd : hmax ≤ Z.of_nat (length (flat hd)) → extends hmax tmax l hd [] hd [[l]]
| opens_tail hd gs g : tmax < Z.of_nat (length (flat g)) → extends hmax tmax l hd (gs ++ [g]) hd (gs ++ [g; [l]])
| extends_tail hd gs g : Z.of_nat (length (flat g)) ≤ tmax → extends hmax tmax l hd (gs ++ [g]) hd (gs ++ [g ++ [l]]).

Lemma writeTail_holds (b : buffer) (hd : list line) (gs : list (list line)) (g : list line) (l : line) :
  holds b hd (gs ++ [g]) →
  ∃ b' groups', writeTail b l = Some b' ∧ holds b' hd groups' ∧ sameSizes b b' ∧
    groups' = (if tailMaxSize b <? Z.of_nat (length (flat g)) then gs ++ [g; [l]] else gs ++ [g ++ [l]]).
Proof.
  intros Hb. unfold writeTail. pose proof (holds_size _ _ _ Hb) as Hz.
  rewrite decide_False, last_snoc in Hz by (by destruct gs). cbn [from_option id] in Hz. rewrite Hz.
  destruct (tailMaxSize b <? _) eqn:Hs.
  - destruct (newTails_holds _ _ _ Hb) as (b1 & -> & Hb1 & Hst & Hh & Ht). cbn [mbind option_bind].
    pose proof (holds_state _ _ _ Hb) as Hsb. rewrite decide_False in Hsb by (by destruct gs).
    assert (holds b1 hd ((gs ++ [g]) ++ [[]])) as Hb1'.
    { eapply holds_sizes; [..|exact Hb1]; try done. cbn. congruence. }
    destruct (writeLine_tail _ _ _ _ l Hb1') as (b' & Hw & Hb' & Hss). exists b', (gs ++ [g; [l]]). rewrite Hw.
    rewrite <-app_assoc in Hb'. split; [done|]. split; [done|]. split; [|done]. destruct Hss. split; congruence.
  - cbn [mbind option_bind]. destruct (writeLine_tail _ _ _ _ l Hb) as (b' & Hw & Hb' & Hss). by exists b', (gs ++ [g ++ [l]]).
Qed.

Lemma writeHead_holds (b : buffer) (hd : list line) (l : line) :
  0 ≤ tailMaxSize b → holds b hd [] →
  ∃ b' hd' groups', writeHead b l = Some b' ∧ holds b' hd' groups' ∧ sameSizes b b' ∧
    extends (headMaxSize b) (tailMaxSize b) l hd [] hd' groups'.
Proof.
  intros Hpos Hb. unfold writeHead. rewrite (holds_size _ _ _ Hb). cbn [decide].
  rewrite decide_True by done. destruct (_ <? headMaxSize b) eqn:Hs.
  - destruct (writeLine_head _ _ l Hb) as (b' & Hw & Hb' & Hss). exists b', (hd ++ [l]), [].
    apply Z.ltb_lt in Hs. split; [done|]. split; [done|]. split; [done|]. by apply extends_head.
  - apply Z.ltb_ge in Hs. destruct (newTails_holds _ _ _ Hb) as (b1 & -> & Hb1 & Hst & Hh & Ht). cbn [mbind option_bind].
    destruct (writeTail_holds _ _ [] [] l Hb1) as (b' & groups' & Hw & Hb' & Hss & Hg).
    exists b', hd, groups'. rewrite Hw. cbn [setState tailMaxSize] in Hg. rewrite Ht in Hg. cbn in Hg.
    destruct (Z.ltb_spec (tailMaxSize b) (Z.of_nat 0)); [lia|]. subst groups'.
    destruct Hss as [Hs1 Hs2]. cbn in Hs1, Hs2. split; [done|]. split; [done|].
    split; [split; congruence|by apply opens_first].
Qed.

Lemma write_initialised (b : buffer) (hd : list line) (groups : list (list line)) (ts input : list Z) :
  0 ≤ tailMaxSize b → holds b hd groups →
  ∃ b' hd' groups', write b ts input = Some (b', Z.of_nat (length input)) ∧ holds b' hd' groups' ∧
    sameSizes (setDefaults b) b' ∧ extends (headSize b) (tailSize b) (ts ++ input) hd groups hd' groups'.
Proof.
  intros Hpos Hb. unfold write, headSize, tailSize. set (b0 := setDefaults b).
  assert (0 ≤ tailMaxSize b0) as Hpos0 by (subst b0; cbn; destruct (_ =? 0); unfold defaultTailSize; lia).
  assert (holds b0 hd groups) as Hb0 by (by eapply holds_sizes; [..|exact Hb]).
  rewrite (holds_state _ _ _ Hb0).
  replace (Z.of_nat (length (ts ++ input)) - (Z.of_nat (length (ts ++ input)) - Z.of_nat (length input)))
    with (Z.of_nat (length input)) by lia.
  destruct groups as [|g gs _] using rev_ind.
  - rewrite decide_True by done. destruct (writeHead_holds b0 hd (ts ++ input) Hpos0 Hb0) as (b' & hd' & groups' & -> & H).
    cbn [mbind option_bind]. by exists b', hd', groups'.
  - rewrite decide_False by (by destruct gs).
    destruct (writeTail_holds b0 hd gs g (ts ++ input) Hb0) as (b' & groups' & -> & Hb' & Hss & Hg).
    exists b', hd, groups'. cbn [mbind option_bind]. split; [done|]. split; [done|]. split; [done|].
    subst groups'. destruct (Z.ltb_spec (tailMaxSize b0) (Z.of_nat (length (flat g)))); [by apply opens_tail|by apply extends_tail].
Qed.

(** The first write. *)
Lemma write_first (b : buffer) (ts input : list Z) :
  0 ≤ headMaxSize b → 0 ≤ tailMaxSize b → state b = stateUninitilized →
  ∃ b', write b ts input = Some (b', Z.of_nat (length input)) ∧ holds b' [ts ++ input] [] ∧ sameSizes (setDefaults b) b'.
Proof.
  intros Hh Ht Hst. unfold write. cbn [state setDefaults]. rewrite Hst.
  set (b0 := start _). assert (holds b0 [] []) as Hb0.
  { constructor; try done. intros j Hj. unfold tailsCount in *. cbn in Hj. cbn [tails b0 start]. unfold padded.
    rewrite lookup_app_l by (rewrite length_replicate; unfold tailsCount; lia).
    rewrite !lookup_replicate_2 by (unfold tailsCount; try lia; apply Nat.mod_upper_bound; lia). done. }
  assert (0 < headMaxSize b0 ∧ 0 < tailMaxSize b0) as [Hh0 Ht0].
  { subst b0. cbn. destruct (Z.eqb_spec (headMaxSize b) 0), (Z.eqb_spec (tailMaxSize b) 0); unfold defaultHeadSize, defaultTailSize; lia. }
  destruct (writeHead_holds b0 [] (ts ++ input)) as (b' & hd' & groups' & -> & Hb' & Hss & Hext); [lia|done|].
  cbn [mbind option_bind]. exists b'. split; [repeat f_equal; lia|]. inversion Hext; subst; [done|cbn in *; lia|by destruct gs..].
Qed.

(** * Content *)
Lemma flat_fmap (gs : list (list line)) : mjoin (flat <$> gs) = flat (mjoin gs).
Proof.
  induction gs as [|g gs IH]; [done|]. change (flat g ++ mjoin (flat <$> gs) = flat (g ++ mjoin gs)). by rewrite flat_app, IH.
Qed.

Lemma mjoin_replicate_nil {A : Type} (n : nat) : mjoin (replicate n ([] : list A)) = [].
Proof. by induction n. Qed.

Lemma padded_kept (groups : list (list line)) :
  mjoin (drop (length groups) (padded groups)) = flat (mjoin (drop (length groups - 6) groups)).
Proof.
  unfold padded, tailsCount. rewrite <-flat_fmap, fmap_drop. destruct (decide (length groups ≤ 6)%nat) as [H|H].
  - rewrite drop_app_le, drop_replicate by (rewrite length_replicate; lia).
    replace (length groups - 6)%nat with 0%nat by lia. by rewrite join_app, mjoin_replicate_nil, drop_0.
  - rewrite drop_app_ge by (rewrite length_replicate; lia). by rewrite length_replicate.
Qed.

Lemma Content_holds (b : buffer) (hd : list line) (groups : list (list line)) :
  holds b hd groups →
  Content b = Some (flat hd ++ (if bool_decide (6 < length groups)%nat then ellipsis else []) ++
                    flat (mjoin (drop (length groups - 6) groups))).
Proof.
  intros [Hh Hl Hi Hw Hs Hd Hz Ht]. unfold Content. rewrite Hw, Hs. destruct (decide (groups = [])) as [->|Hne].
  { cbn. by rewrite Hh, !app_nil_r. }
  rewrite Hl, Hi, Hh, Hd. unfold tailsCount in *. set (m := length groups).
  assert (0 < m)%nat as Hm by (subst m; destruct groups; [done|cbn; lia]).
  erewrite (proj2 (mapM_Some _ _ (drop m (padded groups)))).
  - cbn [mbind option_bind]. pose proof (padded_kept groups) as Hk. fold m in Hk. by rewrite Hk.
  - apply Forall2_same_length_lookup_2; [rewrite length_drop, padded_length, length_seq; lia|].
    intros i n part Hn Hp. apply lookup_seq in Hn as [-> Hi6]. rewrite lookup_drop in Hp.
    rewrite <-Hp, <-Ht by (subst m; lia). f_equal.
    rewrite Z.rem_mod_nonneg, <-Nat2Z.inj_add by lia. change 6%Z with (Z.of_nat 6). rewrite <-Nat2Z.inj_mod, Nat2Z.id.
    rewrite Nat.Div0.add_mod_idemp_l. f_equal. lia.
Qed.

(** * Sequences of operations *)
Inductive bufferOp :=
| opWrite (ts input : list Z)
| opSetCapacity (headSizeBytes tailSizeBytes : Z).

Definition applyOp (b : buffer) (op : bufferOp) : option buffer :=
  match op with
  | opWrite ts input => fst <$> write b ts input
  | opSetCapacity h t => Some (SetCapacity b h t)
  end.

Definition runOps (b : buffer) (ops : list bufferOp) : option buffer :=
  foldl (λ b op, b ← b; applyOp b op) (Some b) ops.

Definition linesOf (ops : list bufferOp) : list line :=
  omap (λ op, match op with opWrite ts input => Some (ts ++ input) | opSetCapacity _ _ => None end) ops.

(** The buffer after the lines [lines]: not used yet, or holding them. *)
Definition reached (b : buffer) (lines : list line) : Prop :=
  0 ≤ headMaxSize b ∧ 0 ≤ tailMaxSize b ∧
  ((lines = [] ∧ state b = stateUninitilized) ∨
   ∃ hd groups, holds b hd groups ∧ lines = hd ++ mjoin groups ∧ lines ≠ [] ∧ Forall (λ g, g ≠ []) groups).

Lemma extends_lines (hmax tmax : Z) (l : line) (hd hd' : list line) (groups groups' : list (list line)) :
  extends hmax tmax l hd groups hd' groups' →
  hd' ++ mjoin groups' = (hd ++ mjoin groups) ++ [l] ∧
  (Forall (λ g, g ≠ []) groups → Forall (λ g, g ≠ []) groups').
Proof.
  assert (∀ (gs : list (list line)) g, mjoin (gs ++ [g]) = mjoin gs ++ g) as Hj.
  { intros gs g. rewrite join_app. f_equal. apply app_nil_r. }
  destruct 1 as [hd Hs|hd Hs|hd gs g Hs|hd gs g Hs].
  - cbn. by rewrite !app_nil_r.
  - cbn. rewrite app_nil_r. by rewrite Forall_singleton.
  - change [g; [l]] with ([g] ++ [[l]]). rewrite app_assoc, !Hj, <-!app_assoc. split; [done|].
    rewrite !Forall_app, !Forall_singleton. naive_solver.
  - rewrite !Hj, <-!app_assoc. split; [done|]. rewrite !Forall_app, !Forall_singleton.
    intros [? _]. split; [done|]. by destruct g.
Qed.

Lemma setDefaults_sizes (b b' : buffer) :
  0 ≤ headMaxSize b → 0 ≤ tailMaxSize b → sameSizes (setDefaults b) b' → 0 ≤ headMaxSize b' ∧ 0 ≤ tailMaxSize b'.
Proof.
  intros Hh Ht [H1 H2]. cbn in H1, H2. rewrite H1, H2.
  destruct (_ =? 0), (_ =? 0); unfold defaultHeadSize, defaultTailSize; lia.
Qed.

Lemma applyOp_reached (b : buffer) (lines : list line) (op : bufferOp) :
  reached b lines → ∃ b', applyOp b op = Some b' ∧ reached b' (lines ++ linesOf [op]).
Proof.
  intros (Hh & Ht & Hr). destruct op as [ts input|h t]; cbn [applyOp linesOf omap list_omap].
  - destruct Hr as [[-> Hs]|(hd & groups & Hb & -> & Hne & Hg)].
    + destruct (write_first b ts input Hh Ht Hs) as (b' & -> & Hb' & Hss). exists b'. split; [done|].
      pose proof (setDefaults_sizes _ _ Hh Ht Hss). unfold reached. split; [tauto|]. split; [tauto|]. right.
      exists [ts ++ input], []. split; [done|]. split; [done|]. split; [done|constructor].
    + destruct (write_initialised b hd groups ts input Ht Hb) as (b' & hd' & groups' & -> & Hb' & Hss & Hext). exists b'.
      split; [done|]. pose proof (setDefaults_sizes _ _ Hh Ht Hss). unfold reached. split; [tauto|]. split; [tauto|]. right.
      exists hd', groups'. destruct (extends_lines _ _ _ _ _ _ _ Hext) as [Hl Hg'].
      split; [done|]. split; [done|]. split; [by destruct (hd ++ mjoin groups)|auto].
  - exists (SetCapacity b h t). split; [done|]. rewrite app_nil_r. unfold SetCapacity.
    destruct ((h <=? 0) || (t <=? 0)) eqn:Hc; [done|]. apply orb_false_iff in Hc as [Hc1%Z.leb_gt Hc2%Z.leb_gt].
    unfold reached. cbn. split; [lia|]. split; [apply Z.quot_pos; unfold tailsCount; lia|]. destruct Hr as [Hr|(hd & groups & Hb & Hr)]; [by left|].
    right. exists hd, groups. split; [|done]. by eapply holds_sizes; [..|exact Hb].
Qed.

Lemma runOps_reached (b : buffer) (lines : list line) (ops : list bufferOp) :
  reached b lines → ∃ b', runOps b ops = Some b' ∧ reached b' (lines ++ linesOf ops).
Proof.
  unfold runOps. revert b lines. induction ops as [|op ops IH]; intros b lines Hb.
  - exists b. cbn. by rewrite app_nil_r.
  - destruct (applyOp_reached b lines op Hb) as (b' & Ha & Hb'). cbn [foldl mbind option_bind]. rewrite Ha.
    destruct (IH b' _ Hb') as (b2 & Hr & Hb2). exists b2. split; [done|]. rewrite <-app_assoc in Hb2.
    replace (linesOf (op :: ops)) with (linesOf [op] ++ linesOf ops); [done|]. unfold linesOf. cbn. by destruct op.
Qed.

Lemma reached_zero : reached zeroBuffer [].
Proof. repeat split; [done|done|by left]. Qed.

(** The lines kept: the first ones, and the last ones from the sixth tail before the end. *)
Lemma Content_reached (hd : list line) (groups : list (list line)) (b : buffer) :
  holds b hd groups → Forall (λ g, g ≠ []) groups → hd ++ mjoin groups ≠ [] →
  let lines := hd ++ mjoin groups in
  ∃ k j, (k ≤ j)%nat ∧ (k = length lines ∨ j < length lines)%nat ∧
    take k lines = hd ∧ drop j lines = mjoin (drop (length groups - 6) groups) ∧
    (k < j ↔ 6 < length groups)%nat ∧
    Content b = Some (flat (take k lines) ++ (if (k <? j)%nat then ellipsis else []) ++ flat (drop j lines)).
Proof.
  intros Hb Hg Hne lines. set (old := take (length groups - 6) groups).
  assert (groups = old ++ drop (length groups - 6) groups) as Hsplit by (symmetry; apply take_drop).
  set (kept := drop (length groups - 6) groups) in *.
  assert (mjoin groups = mjoin old ++ mjoin kept) as Hj by (rewrite Hsplit at 1; apply join_app).
  exists (length hd), (length hd + length (mjoin old))%nat.
  assert (take (length hd) lines = hd) as Htk by apply take_app_length.
  assert (drop (length hd + length (mjoin old)) lines = mjoin kept) as Hdr.
  { subst lines. rewrite Hj. rewrite drop_app_ge by lia.
    replace (length hd + length (mjoin old) - length hd)%nat with (length (mjoin old)) by lia. apply drop_app_length. }
  assert (mjoin old = [] ↔ old = []) as Hold.
  { split; [|by intros ->]. intros H%join_nil. destruct old as [|g old'] eqn:Ho; [done|].
    rewrite Hsplit, Forall_app, Forall_cons in Hg. apply Forall_cons in H. naive_solver. }
  assert (old = [] ↔ (length groups ≤ 6)%nat) as Hlen.
  { subst old. rewrite <-length_zero_iff_nil, length_take. lia. }
  assert ((length hd < length hd + length (mjoin old))%nat ↔ (6 < length groups)%nat) as Hlt.
  { destruct (mjoin old) eqn:Ho; cbn; split; intros; try lia; [exfalso|].
    - assert (old = []) as H0 by (by apply Hold). apply Hlen in H0. lia.
    - destruct (decide (length groups ≤ 6)%nat) as [H6|H6]; [|lia]. apply Hlen, Hold in H6. done. }
  split; [lia|]. split; [|split; [done|split; [done|split; [done|]]]].
  - subst lines. rewrite Hj, !length_app. destruct (mjoin kept) as [|l ls] eqn:Hk; [|cbn; right; lia].
    left. assert (kept = []) as Hkn.
    { apply join_nil in Hk. destruct kept as [|g kept'] eqn:Hkk; [done|].
      rewrite Hsplit, Forall_app, (Forall_cons _ g) in Hg. apply Forall_cons in Hk. naive_solver. }
    assert (groups = []) as ->; [|cbn; lia]. destruct groups as [|g gs] eqn:Hgr; [done|].
    assert (length kept = 0%nat) as Hk0 by (by rewrite Hkn). subst kept. rewrite length_drop in Hk0. cbn in Hk0. lia.
  - rewrite Htk, Hdr, (Content_holds b hd groups Hb). do 3 f_equal.
    destruct (Nat.ltb_spec (length hd) (length hd + length (mjoin old))) as [H|H].
    + by rewrite bool_decide_true by (by apply Hlt).
    + rewrite bool_decide_false; [done|]. intros H6. apply Hlt in H6. lia.
Qed.

(** After any writes and changes of capacity, with at least one write, the content of the
    buffer is the first lines and the last lines, whole and in order; when lines are missing it is
    between the two, where the content has an ellipsis, and the last line is always there.  No
    operation fails. *)
Theorem Content_lines (ops : list bufferOp) :
  linesOf ops ≠ [] →
  ∃ b k j, runOps zeroBuffer ops = Some b ∧ (k ≤ j)%nat ∧ (k = length (linesOf ops) ∨ j < length (linesOf ops))%nat ∧
    Content b = Some (flat (take k (linesOf ops)) ++ (if (k <? j)%nat then ellipsis else []) ++ flat (drop j (linesOf ops))).
Proof.
  intros Hne. destruct (runOps_reached zeroBuffer [] ops reached_zero) as (b & Hr & _ & _ & Hb).
  destruct Hb as [[H _]|(hd & groups & Hb & Hl & _ & Hg)]; [done|]. cbn [app] in Hl. rewrite Hl in Hne |- *.
  destruct (Content_reached hd groups b Hb Hg Hne) as (k & j & Hkj & Hlast & _ & _ & _ & Hc).
  exists b, k, j. done.
Qed.

(** * Bounds *)
#[local] Notation size ls := (Z.of_nat (length (flat ls))) (only parsing).

(** With heads of [h] bytes, tails of [t] bytes and lines of at most [L]. *)
Definition bounded (h t L : Z) (hd : list line) (groups : list (list line)) : Prop :=
  size hd ≤ h - 1 + L ∧ (groups ≠ [] → h ≤ size hd) ∧ Forall (λ g, size g ≤ t + L) groups ∧
  ∀ gs g, groups = gs ++ [g] → Forall (λ g, t < size g) gs.

Lemma size_snoc (ls : list line) (l : line) : size (ls ++ [l]) = size ls + Z.of_nat (length l).
Proof. rewrite flat_snoc, length_app. lia. Qed.

Lemma size_single (l : line) : size [l] = Z.of_nat (length l).
Proof. exact (size_snoc [] l). Qed.

Lemma extends_bounded (h t L : Z) (l : line) (hd hd' : list line) (groups groups' : list (list line)) :
  0 ≤ t → Z.of_nat (length l) ≤ L → extends h t l hd groups hd' groups' →
  bounded h t L hd groups → bounded h t L hd' groups'.
Proof.
  intros Ht Hl Hext (Hh & Hhd & Hg & Hc). destruct Hext as [hd Hs|hd Hs|hd gs g Hs|hd gs g Hs].
  - unfold bounded. rewrite size_snoc. split; [lia|]. split; [done|]. split; [done|]. by intros [] ?.
  - split; [done|]. split; [done|]. split; [apply Forall_singleton; rewrite size_single; lia|].
    intros gs g Heq. change [[l]] with ([] ++ [[l]]) in Heq. apply app_inj_2 in Heq as [<- _]; [constructor|done].
  - split; [done|]. split; [intros _; apply Hhd; by destruct gs|]. rewrite Forall_app in Hg. destruct Hg as [Hg1 Hg2].
    split.
    + apply Forall_app. split; [done|]. rewrite Forall_singleton in Hg2.
      apply Forall_cons. split; [done|]. apply Forall_singleton. rewrite size_single. lia.
    + intros gs' g' Heq. change [g; [l]] with ([g] ++ [[l]]) in Heq. rewrite app_assoc in Heq.
      apply app_inj_2 in Heq as [<- _]; [|done]. apply Forall_app. split; [by eapply Hc|]. by apply Forall_singleton.
  - split; [done|]. split; [intros _; apply Hhd; by destruct gs|]. rewrite Forall_app in Hg. destruct Hg as [Hg1 Hg2].
    split.
    + apply Forall_app. split; [done|]. apply Forall_singleton. rewrite size_snoc. lia.
    + intros gs' g' Heq. apply app_inj_2 in Heq as [<- _]; [|done]. by eapply Hc.
Qed.

Definition writes (ws : list (list Z * list Z)) : list bufferOp := (λ w, opWrite w.1 w.2) <$> ws.

Lemma headSize_fix (b b' : buffer) : 0 ≤ headMaxSize b → 0 ≤ tailMaxSize b → sameSizes (setDefaults b) b' →
  headSize b' = headSize b ∧ tailSize b' = tailSize b ∧ 0 < headSize b ∧ 0 < tailSize b.
Proof.
  intros Hh Ht [H1 H2]. unfold headSize, tailSize in *. cbn in *. rewrite H1, H2.
  destruct (Z.eqb_spec (headMaxSize b) 0), (Z.eqb_spec (tailMaxSize b) 0); unfold defaultHeadSize, defaultTailSize;
    cbn; repeat (split; [lia||(destruct (Z.eqb_spec (headMaxSize b) 0); lia)||(destruct (Z.eqb_spec (tailMaxSize b) 0); lia)|]);
    try lia.
Qed.

Lemma writes_bounded (L : Z) (ws : list (list Z * list Z)) (b : buffer) (hd : list line) (groups : list (list line)) :
  0 ≤ headMaxSize b → 0 ≤ tailMaxSize b → Forall (λ w, Z.of_nat (length (w.1 ++ w.2)) ≤ L) ws →
  holds b hd groups → bounded (headSize b) (tailSize b) L hd groups → Forall (λ g, g ≠ []) groups →
  ∃ b' hd' groups', runOps b (writes ws) = Some b' ∧ holds b' hd' groups' ∧
    bounded (headSize b) (tailSize b) L hd' groups' ∧ Forall (λ g, g ≠ []) groups' ∧
    hd' ++ mjoin groups' = (hd ++ mjoin groups) ++ linesOf (writes ws).
Proof.
  unfold runOps. revert b hd groups. induction ws as [|[ts input] ws IH]; intros b hd groups Hh Ht HL Hb Hbd Hg.
  { exists b, hd, groups. cbn. by rewrite app_nil_r. }
  apply Forall_cons in HL as [HL1 HL]. cbn [fst snd] in HL1.
  destruct (write_initialised b hd groups ts input Ht Hb) as (b1 & hd1 & groups1 & Hw & Hb1 & Hss & Hext).
  destruct (headSize_fix b b1 Hh Ht Hss) as (Hfh & Hft & Hhp & Htp).
  destruct (extends_lines _ _ _ _ _ _ _ Hext) as [Hl1 Hg1]. pose proof (extends_bounded (headSize b) (tailSize b) L _ _ _ _ _ ltac:(lia) HL1 Hext Hbd) as Hbd1.
  destruct (setDefaults_sizes b b1 Hh Ht Hss) as [Hh1 Ht1].
  destruct (IH b1 hd1 groups1 Hh1 Ht1 HL Hb1) as (b' & hd' & groups' & Hr & Hb' & Hbd' & Hg' & Hl').
  - by rewrite Hfh, Hft.
  - auto.
  - exists b', hd', groups'. cbn [writes fmap list_fmap foldl mbind option_bind applyOp fst snd]. rewrite Hw. split; [exact Hr|].
    split; [done|]. rewrite <-Hfh, <-Hft. split; [done|]. split; [done|]. rewrite Hl', Hl1, <-!app_assoc. done.
Qed.

Lemma Forall_size_upper (c : Z) (gs : list (list line)) :
  Forall (λ g, size g ≤ c) gs → size (mjoin gs) ≤ Z.of_nat (length gs) * c.
Proof.
  induction 1 as [|g gs Hg _ IH]; [done|]. change (mjoin (g :: gs)) with (g ++ mjoin gs).
  rewrite flat_app, length_app. cbn [length]. lia.
Qed.

Lemma Forall_size_lower (c : Z) (gs : list (list line)) :
  Forall (λ g, c < size g) gs → Z.of_nat (length gs) * c ≤ size (mjoin gs).
Proof.
  induction 1 as [|g gs Hg _ IH]; [done|]. change (mjoin (g :: gs)) with (g ++ mjoin gs).
  rewrite flat_app, length_app. cbn [length]. lia.
Qed.

(** The six tails kept: their size, and that of the first five when lines were dropped. *)
Lemma bounded_kept (h t L : Z) (hd : list line) (groups : list (list line)) :
  0 ≤ t → 0 ≤ L → bounded h t L hd groups →
  size (mjoin (drop (length groups - 6) groups)) ≤ 6 * (t + L) ∧
  ((6 < length groups)%nat → 5 * t ≤ size (mjoin (drop (length groups - 6) groups))).
Proof.
  intros Ht HL (_ & _ & Hup & Hlow). split.
  - pose proof (Forall_size_upper (t + L) (drop (length groups - 6) groups) (Forall_drop _ _ _ Hup)) as H.
    rewrite length_drop in H. nia.
  - intros H6. destruct groups as [|g gs _] using rev_ind; [cbn in H6; lia|]. specialize (Hlow gs g eq_refl).
    rewrite length_app in *. cbn [length] in *. rewrite drop_app_le, join_app, flat_app, length_app by lia.
    pose proof (Forall_size_lower t (drop (length gs + 1 - 6) gs) (Forall_drop _ _ _ Hlow)) as H.
    rewrite length_drop in H. replace (length gs - (length gs + 1 - 6))%nat with 5%nat in H by lia. lia.
Qed.

(** The content is bounded: with lines of at most [L] bytes, less than the size of the head plus
    six tails, a line more for each of them, and the ellipsis.  Lines are only dropped when the head
    is full, and then the last lines make five tails at least. *)
Theorem Content_bounded (h0 t0 L : Z) (ws : list (list Z * list Z)) :
  ws ≠ [] → Forall (λ w, Z.of_nat (length (w.1 ++ w.2)) ≤ L) ws →
  let b0 := SetCapacity zeroBuffer h0 t0 in
  let lines := linesOf (writes ws) in
  ∃ b k j content, runOps b0 (writes ws) = Some b ∧ Content b = Some content ∧
    content = flat (take k lines) ++ (if (k <? j)%nat then ellipsis else []) ++ flat (drop j lines) ∧
    Z.of_nat (length content) < headSize b0 + L + 6 * (tailSize b0 + L) + 6 ∧
    ((k < j)%nat → headSize b0 ≤ size (take k lines) ∧ 5 * tailSize b0 ≤ size (drop j lines)).
Proof.
  intros Hne HL b0 lines. destruct ws as [|[ts input] ws]; [done|]. apply Forall_cons in HL as [HL1 HL]. cbn [fst snd] in HL1.
  destruct (applyOp_reached _ _ (opSetCapacity h0 t0) reached_zero) as (b & [= <-] & Hh & Ht & Hst).
  fold b0 in Hh, Ht, Hst. assert (state b0 = stateUninitilized) as Hs by (subst b0; unfold SetCapacity; by destruct (_ || _)).
  destruct (write_first b0 ts input Hh Ht Hs) as (b1 & Hw & Hb1 & Hss).
  destruct (headSize_fix b0 b1 Hh Ht Hss) as (Hfh & Hft & Hhp & Htp). destruct (setDefaults_sizes b0 b1 Hh Ht Hss) as [Hh1 Ht1].
  destruct (writes_bounded L ws b1 [ts ++ input] [] Hh1 Ht1 HL Hb1) as (b' & hd & groups & Hr & Hb' & Hbd & Hg & Hl).
  { split; [rewrite size_single; lia|]. split; [done|]. split; [constructor|by intros [] ?]. }
  { constructor. }
  assert (hd ++ mjoin groups = lines) as Hlines by (by rewrite Hl).
  destruct (Content_reached hd groups b' Hb' Hg) as (k & j & Hkj & _ & Htk & Hdr & Hlt & Hc); [by rewrite Hlines|].
  rewrite Hlines in Htk, Hdr, Hc. eexists b', k, j, _. split; [|split; [exact Hc|split; [done|]]].
  { unfold runOps. cbn [writes fmap list_fmap foldl mbind option_bind applyOp fst snd]. by rewrite Hw. }
  destruct (bounded_kept (headSize b1) (tailSize b1) L hd groups ltac:(lia) ltac:(lia) Hbd) as [Hup Hlow]. rewrite <-Hdr in Hup, Hlow.
  destruct Hbd as (Hhd & Hfull & _ & _). rewrite <-Htk in Hhd, Hfull. rewrite Hfh, Hft in *. split.
  - rewrite !length_app. assert (length (if (k <? j)%nat then ellipsis else []) ≤ 6)%nat by (destruct (k <? j)%nat; cbn; lia). lia.
  - intros H. apply Hlt in H. split; [apply Hfull; intros ->; cbn in H; lia|by apply Hlow].
Qed.

(** * Witnesses *)
Definition sampleOps : list bufferOp := [opSetCapacity 2 6; opWrite [1] [2; 3]; opWrite [4] [5]; opWrite [6] []].

Lemma Content_lines_witness :
  ∃ b k j, runOps zeroBuffer sampleOps = Some b ∧ (k ≤ j)%nat ∧ (k = length (linesOf sampleOps) ∨ j < length (linesOf sampleOps))%nat ∧
    Content b = Some (flat (take k (linesOf sampleOps)) ++ (if (k <? j)%nat then ellipsis else []) ++ flat (drop j (linesOf sampleOps))).
Proof. apply (Content_lines sampleOps). done. Defined.

Lemma Content_bounded_witness :
  let b0 := SetCapacity zeroBuffer 2 6 in
  let lines := linesOf (writes [([1], [2])]) in
  ∃ b k j content, runOps b0 (writes [([1], [2])]) = Some b ∧ Content b = Some content ∧
    content = flat (take k lines) ++ (if (k <? j)%nat then ellipsis else []) ++ flat (drop j lines) ∧
    Z.of_nat (length content) < headSize b0 + 2 + 6 * (tailSize b0 + 2) + 6 ∧
    ((k < j)%nat → headSize b0 ≤ size (take k lines) ∧ 5 * tailSize b0 ≤ size (drop j lines)).
Proof. apply (Content_bounded 2 6 2 [([1], [2])]); [done|]. repeat constructor. cbn. lia. Defined.

(** Content of a buffer that was never written calls a method of a nil writer. *)
Example Content_unwritten : Content zeroBuffer = None.
Proof. done. Qed.
