(* ===== verification/Bytes.v ===== *)
(** Byte strings shared by the network servers: big- and little-endian
    integers (encoding/binary), [copy] into a slice, reads from a connection
    that delivers its data in segments, and the IEEE CRC-32 (hash/crc32). *)
From S2P Require Import Prelude.

(** A byte is an integer between 0 and 255; a Go string or [[]byte] is a list
    of bytes. *)
Abbreviation bytes := (list Z).

Definition isByte (b : Z) : Prop := 0 ≤ b < 256.
Definition areBytes (l : bytes) : Prop := Forall isByte l.

Definition str (s : string) : bytes := (λ c, Z.of_N (N_of_ascii c)) <$> String.list_ascii_of_string s.
Definition unstr (l : bytes) : string :=
  String.string_of_list_ascii ((λ b, ascii_of_N (Z.to_N b)) <$> l).

(** ** Integers *)
Definition be (n : nat) (z : Z) : bytes :=
  (λ i : nat, (z / 256 ^ Z.of_nat i) mod 256) <$> reverse (seq 0 n).
Definition le (n : nat) (z : Z) : bytes :=
  (λ i : nat, (z / 256 ^ Z.of_nat i) mod 256) <$> seq 0 n.

Definition of_be (l : bytes) : Z := foldl (λ acc b, acc * 256 + b) 0 l.
Definition of_le (l : bytes) : Z := foldr (λ b acc, acc * 256 + b) 0 l.

(** ** Slices *)
(** [copy(dst[off:], src)]. *)
Definition copyAt (dst : bytes) (off : nat) (src : bytes) : bytes :=
  take off dst ++ take (length dst - off) src ++ drop (off + length src) dst.

(** ** Connections *)
(** [r.Read(p)] with [len(p) = n > 0], on a connection whose data arrives in
    the given segments: the bytes read and what is left, [None] at the end of
    the stream. *)
Fixpoint read (n : nat) (segs : list bytes) : option (bytes * list bytes) :=
  match segs with
  | [] => None
  | [] :: segs => read n segs
  | seg :: segs =>
      Some (take n seg, match drop n seg with [] => segs | rest => rest :: segs end)
  end.

(** The slice [p] after the read: what was not filled stays zero. *)
Definition filled (n : nat) (l : bytes) : bytes := l ++ replicate (n - length l) 0.

(** ** CRC-32 *)
Definition crcPoly : Z := 0xEDB88320.

Definition crcShift (c : Z) : Z :=
  Z.lxor (Z.shiftr c 1) (if Z.odd c then crcPoly else 0).

Definition crcByte (c b : Z) : Z := Nat.iter 8 crcShift (Z.lxor c b).

Definition ChecksumIEEE (l : bytes) : Z :=
  Z.lxor (foldl crcByte 0xFFFFFFFF l) 0xFFFFFFFF.

(** The check value of the CRC-32 catalogue. *)
Example ChecksumIEEE_check : ChecksumIEEE (str "123456789") = 0xCBF43926.
Proof. vm_compute. reflexivity. Qed.

(** * Lemmas *)
Lemma str_areBytes (s : string) : areBytes (str s).
Proof.
  apply Forall_fmap, Forall_forall. intros [b0 b1 b2 b3 b4 b5 b6 b7] _.
  unfold isByte. simpl. by destruct b0, b1, b2, b3, b4, b5, b6, b7.
Qed.

Lemma str_unstr (l : bytes) : areBytes l → str (unstr l) = l.
Proof.
  intros H. unfold str, unstr. rewrite String.list_ascii_of_string_of_list_ascii.
  induction H as [|b l Hb Hl IH]; [done|]. rewrite !fmap_cons, IH. f_equal.
  rewrite N_ascii_embedding by (unfold isByte in Hb; lia). unfold isByte in Hb. lia.
Qed.

Lemma unstr_str (s : string) : unstr (str s) = s.
Proof.
  unfold unstr, str. rewrite <-list_fmap_compose.
  rewrite (list_fmap_ext _ id); [by rewrite list_fmap_id, String.string_of_list_ascii_of_string|].
  intros i c _. simpl. by rewrite N2Z.id, ascii_N_embedding.
Qed.

Lemma str_inj (a b : string) : str a = str b → a = b.
Proof. intros H. by rewrite <-(unstr_str a), H, unstr_str. Qed.

Lemma be_length (n : nat) (z : Z) : length (be n z) = n.
Proof. unfold be. by rewrite length_fmap, length_reverse, length_seq. Qed.

Lemma le_length (n : nat) (z : Z) : length (le n z) = n.
Proof. unfold le. by rewrite length_fmap, length_seq. Qed.

Lemma of_be_snoc (l : bytes) (b : Z) : of_be (l ++ [b]) = of_be l * 256 + b.
Proof. unfold of_be. by rewrite foldl_app. Qed.

Lemma of_be_split (a c : bytes) (b : Z) :
  of_be (a ++ b :: c)
  = (of_be a * 256 + b) * 256 ^ Z.of_nat (length c) + of_be c.
Proof.
  induction c as [|x c IH] using rev_ind.
  - rewrite of_be_snoc. simpl. unfold of_be at 3. simpl. lia.
  - rewrite app_comm_cons, app_assoc, !of_be_snoc, IH, length_app. simpl (length [x]).
    rewrite Nat2Z.inj_add, Z.pow_add_r by lia. simpl (256 ^ Z.of_nat 1). lia.
Qed.

Lemma be_S (n : nat) (z : Z) : be (S n) z = be n (z / 256) ++ [z mod 256].
Proof.
  unfold be. rewrite <-cons_seq, reverse_cons, fmap_app. simpl. f_equal; [|by rewrite Z.div_1_r].
  rewrite <-fmap_S_seq, <-fmap_reverse, <-list_fmap_compose. apply list_fmap_ext.
  intros _ i _. simpl. rewrite Z.div_div by lia. do 2 f_equal.
  rewrite Nat2Z.inj_succ, Z.pow_succ_r; lia.
Qed.

Lemma of_be_be (n : nat) (z : Z) : of_be (be n z) = z mod 256 ^ Z.of_nat n.
Proof.
  revert z. induction n as [|n IH]; intros z.
  - simpl. by rewrite Z.mod_1_r.
  - rewrite be_S, of_be_snoc, IH, Nat2Z.inj_succ, Z.pow_succ_r by lia.
    pose proof (Z.pow_pos_nonneg 256 (Z.of_nat n) ltac:(lia) ltac:(lia)).
    rewrite Z.rem_mul_r by lia. lia.
Qed.

Lemma le_S (n : nat) (z : Z) : le (S n) z = z mod 256 :: le n (z / 256).
Proof.
  unfold le. rewrite <-cons_seq, fmap_cons. simpl. f_equal; [by rewrite Z.div_1_r|].
  rewrite <-fmap_S_seq, <-list_fmap_compose. apply list_fmap_ext.
  intros _ i _. simpl. rewrite Z.div_div by lia. do 2 f_equal.
  rewrite Nat2Z.inj_succ, Z.pow_succ_r; lia.
Qed.

Lemma of_le_le (n : nat) (z : Z) : of_le (le n z) = z mod 256 ^ Z.of_nat n.
Proof.
  revert z. induction n as [|n IH]; intros z.
  - simpl. by rewrite Z.mod_1_r.
  - rewrite le_S. simpl. unfold of_le in IH. rewrite IH, Nat2Z.inj_succ, Z.pow_succ_r by lia.
    pose proof (Z.pow_pos_nonneg 256 (Z.of_nat n) ltac:(lia) ltac:(lia)).
    rewrite Z.rem_mul_r by lia. lia.
Qed.

Lemma be_areBytes (n : nat) (z : Z) : areBytes (be n z).
Proof.
  apply Forall_fmap, Forall_forall. intros i _. unfold isByte. simpl.
  pose proof (Z.mod_pos_bound (z / 256 ^ Z.of_nat i) 256). lia.
Qed.

Lemma copyAt_length (dst : bytes) (off : nat) (src : bytes) :
  (off + length src ≤ length dst)%nat → length (copyAt dst off src) = length dst.
Proof. intros. unfold copyAt. rewrite !length_app, !length_take, length_drop. lia. Qed.

(** Writing the slice in the middle of a known layout. *)
Lemma copyAt_app (a b b' c : bytes) (off : nat) :
  off = length a → length b' = length b → copyAt (a ++ b ++ c) off b' = a ++ b' ++ c.
Proof.
  intros -> Hl. unfold copyAt. rewrite take_app_length, !length_app.
  rewrite (take_ge b') by lia. do 2 f_equal. rewrite drop_app_add', drop_app_length' by lia. done.
Qed.

Lemma copyAt_split (dst a b b' c : bytes) (off : nat) :
  dst = a ++ b ++ c → off = length a → length b' = length b →
  copyAt dst off b' = a ++ b' ++ c.
Proof. intros -> ? ?. by apply copyAt_app. Qed.

(** ** Properties of the CRC *)
Definition is32 (c : Z) : Prop := 0 ≤ c < 2 ^ 32.

Lemma is32_high (c : Z) (i : Z) : is32 c → 32 ≤ i → Z.testbit c i = false.
Proof.
  intros [H0 H] Hi. destruct (Z.eq_dec c 0) as [->|]; [apply Z.testbit_0_l|].
  apply Z.bits_above_log2; [lia|]. apply Z.log2_lt_pow2; [lia|].
  eapply Z.lt_le_trans; [exact H|]. apply Z.pow_le_mono_r; lia.
Qed.

Lemma crcShift_high (c i : Z) : is32 c → 32 ≤ i → Z.testbit (crcShift c) i = false.
Proof.
  intros Hc Hi. unfold crcShift. rewrite Z.lxor_spec, Z.shiftr_spec, is32_high by (done || lia).
  simpl. destruct (Z.odd c); [|apply Z.testbit_0_l].
  apply is32_high; [split; vm_compute; congruence|lia].
Qed.

Lemma is32_bits (c : Z) : 0 ≤ c → (∀ i, 32 ≤ i → Z.testbit c i = false) → is32 c.
Proof.
  intros H0 Hb. split; [done|].
  replace c with (Z.land c (Z.ones 32)).
  - rewrite Z.land_ones by lia. apply Z.mod_pos_bound. lia.
  - apply Z.bits_inj_iff'. intros i Hi. rewrite Z.land_spec.
    destruct (Z.lt_ge_cases i 32); [rewrite Z.ones_spec_low by lia; apply andb_true_r|].
    rewrite Hb by lia. done.
Qed.

Lemma crcShift_is32 (c : Z) : is32 c → is32 (crcShift c).
Proof.
  intros Hc. apply is32_bits; [|intros; by apply crcShift_high].
  unfold crcShift. apply Z.lxor_nonneg. split; intros _.
  - destruct (Z.odd c); vm_compute; congruence.
  - apply Z.shiftr_nonneg. apply Hc.
Qed.

(** The bit shifted out can be read in the result: the step is injective. *)
Lemma crcShift_inj (c c' : Z) : is32 c → is32 c' → crcShift c = crcShift c' → c = c'.
Proof.
  intros Hc Hc' Heq.
  assert (∀ x, is32 x → Z.testbit (crcShift x) 31 = Z.odd x) as Hodd.
  { intros x Hx. unfold crcShift. rewrite Z.lxor_spec, Z.shiftr_spec, is32_high by (done || lia).
    by destruct (Z.odd x). }
  pose proof (Hodd c Hc) as H1. rewrite Heq, Hodd in H1 by done.
  unfold crcShift in Heq. rewrite H1 in Heq. apply Z.bits_inj_iff'. intros i Hi.
  destruct (Z.eq_dec i 0) as [->|]; [by rewrite !Z.bit0_odd|].
  assert (Z.shiftr c 1 = Z.shiftr c' 1) as Hs.
  { apply (f_equal (λ x, Z.lxor x (if Z.odd c then crcPoly else 0))) in Heq.
    by rewrite !Z.lxor_assoc, !Z.lxor_nilpotent, !Z.lxor_0_r in Heq. }
  replace i with (i - 1 + 1) by lia. rewrite <-!Z.shiftr_spec by lia. by rewrite Hs.
Qed.

Lemma lxor_is32 (a b : Z) : is32 a → is32 b → is32 (Z.lxor a b).
Proof.
  intros Ha Hb. apply is32_bits; [apply Z.lxor_nonneg; destruct Ha, Hb; lia|].
  intros i Hi. rewrite Z.lxor_spec, !is32_high by done. done.
Qed.

Lemma lxor_inj_r (a b c : Z) : Z.lxor a c = Z.lxor b c → a = b.
Proof.
  intros H. apply (f_equal (λ x, Z.lxor x c)) in H.
  by rewrite !Z.lxor_assoc, !Z.lxor_nilpotent, !Z.lxor_0_r in H.
Qed.

Lemma crcIter_inj (n : nat) (c c' : Z) :
  is32 c → is32 c' →
  (is32 (Nat.iter n crcShift c)) ∧ (Nat.iter n crcShift c = Nat.iter n crcShift c' → c = c').
Proof.
  intros Hc Hc'. assert (∀ m x, is32 x → is32 (Nat.iter m crcShift x)) as Hi.
  { intros m x Hx. induction m as [|m IH]; [done|]. simpl. by apply crcShift_is32. }
  split; [by apply Hi|]. induction n as [|n IH]; [done|]. simpl. intros H.
  apply crcShift_inj in H; auto.
Qed.

Lemma isByte_is32 (b : Z) : isByte b → is32 b.
Proof. unfold isByte, is32. lia. Qed.

Lemma crcByte_iter (c b : Z) : crcByte c b = Nat.iter 8 crcShift (Z.lxor c b).
Proof. done. Qed.

Lemma crcByte_is32 (c b : Z) : is32 c → isByte b → is32 (crcByte c b).
Proof. intros Hc Hb%isByte_is32. apply (crcIter_inj 8 _ 0); [by apply lxor_is32|by split]. Qed.

(** The checksum state is injective in the state and in the byte. *)
Lemma crcByte_inj (c c' b b' : Z) :
  is32 c → is32 c' → isByte b → isByte b' → crcByte c b = crcByte c' b' →
  (c = c' ↔ b = b').
Proof.
  intros Hc Hc' Hb%isByte_is32 Hb'%isByte_is32 H.
  rewrite !crcByte_iter in H. destruct (crcIter_inj 8 (Z.lxor c b) (Z.lxor c' b')) as [_ Hinj];
    [by apply lxor_is32..|]. apply Hinj in H. split; intros ->.
  - rewrite !(Z.lxor_comm c') in H. by apply lxor_inj_r in H.
  - by apply lxor_inj_r in H.
Qed.

Lemma crcFold_is32 (l : bytes) (c : Z) : is32 c → areBytes l → is32 (foldl crcByte c l).
Proof.
  intros Hc Hl. revert c Hc. induction Hl as [|b l Hb _ IH]; intros c Hc; [done|].
  simpl. by apply IH, crcByte_is32.
Qed.

Lemma crcFold_inj (l : bytes) (c c' : Z) :
  is32 c → is32 c' → areBytes l → foldl crcByte c l = foldl crcByte c' l → c = c'.
Proof.
  intros Hc Hc' Hl. revert c c' Hc Hc'. induction Hl as [|b l Hb _ IH]; intros c c' Hc Hc' H; [done|].
  simpl in H. apply IH in H; [|by apply crcByte_is32..].
  by apply (crcByte_inj c c' b b).
Qed.

(** Altering one byte alters the checksum. *)
Lemma ChecksumIEEE_altered (a c : bytes) (b b' : Z) :
  areBytes a → areBytes c → isByte b → isByte b' → b ≠ b' →
  ChecksumIEEE (a ++ b :: c) ≠ ChecksumIEEE (a ++ b' :: c).
Proof.
  intros Ha Hc Hb Hb' Hne H. unfold ChecksumIEEE in H. apply lxor_inj_r in H.
  rewrite !foldl_app in H. simpl in H.
  assert (is32 (foldl crcByte 0xFFFFFFFF a)) as Hs by (apply crcFold_is32; [by split|done]).
  apply crcFold_inj in H; [|by apply crcByte_is32..|done].
  apply Hne. by apply (crcByte_inj _ _ b b' Hs Hs Hb Hb' H).
Qed.
