(* ===== verification/Nrpe.v ===== *)
(** The NRPE server (nrpe/server.go): decoding a query, encoding the answer
    in version 2 and version 3 packets, and one connection from end to end.
    The theorems are the round trips, what short version 2 commands decode to,
    the answer a client gets, and the detection of an altered byte. *)
From S2P Require Import Prelude Bytes.

Definition maxBufferLength : Z := 64 * 1024.

Record reducedPacket := mkPacket {
  packetVersion : Z;
  packetType : Z;
  resultCode : Z;
  buffer : bytes;
}.

Inductive nrpeError := EEOF | EInvalidBufferLength | EWrongValue | EMissingNullByte.

Definition slice (l : bytes) (off n : nat) : bytes := take n (drop off l).

Definition int16At (l : bytes) (off : nat) : Z := Int.wrapS 16 (of_be (slice l off 2)).
Definition int32At (l : bytes) (off : nat) : Z := Int.wrapS 32 (of_be (slice l off 4)).

(** The length of the buffer that follows the first 16 bytes. *)
Definition bufferLength (packetHead : bytes) : Z :=
  if int16At packetHead 0 =? 3 then int32At packetHead 12
  else if int16At packetHead 0 =? 2 then 1017
  else 0.

(** The packet as it was when its checksum was computed. *)
Definition completePacket (packetHead packetBuffer : bytes) : bytes :=
  copyAt (packetHead ++ packetBuffer) 4 [0; 0; 0; 0].

(** [bytes.IndexByte(b, 0)]. *)
Fixpoint indexNull (b : bytes) : option nat :=
  match b with
  | [] => None
  | x :: b => if x =? 0 then Some O else S <$> indexNull b
  end.

(** The end of [decode], once both reads are done. *)
Definition decodePacket (packetHead packetBuffer : bytes) : reducedPacket + nrpeError :=
  let packetVersion := int16At packetHead 0 in
  let packetType := int16At packetHead 2 in
  let crc32value := of_be (slice packetHead 4 4) in
  let resultCode := if packetType =? 1 then 0 else int16At packetHead 8 in
  if negb (ChecksumIEEE (completePacket packetHead packetBuffer) =? crc32value)
  then inr EWrongValue
  else match indexNull packetBuffer with
       | None => inr EMissingNullByte
       | Some i =>
           inl (mkPacket packetVersion packetType resultCode
             (if packetVersion =? 3 then take i packetBuffer
              else if packetVersion =? 2 then drop 10 packetHead ++ take i packetBuffer
              else []))
       end.

Definition decode (r : list bytes) : reducedPacket + nrpeError :=
  match read 16 r with
  | None => inr EEOF
  | Some (h, r) =>
      let packetHead := filled 16 h in
      let bufferlength := bufferLength packetHead in
      if (bufferlength <? 0) || (maxBufferLength <? bufferlength)
      then inr EInvalidBufferLength
      else
        let n := Z.to_nat (bufferlength + 3) in
        match read n r with
        | None => inr EEOF
        | Some (b, _) => decodePacket packetHead (filled n b)
        end
  end.

(** The checksum is written over the bytes 4 to 7, zero until then. *)
Definition sealPacket (encodedPacket : bytes) : bytes :=
  copyAt encodedPacket 4 (be 4 (ChecksumIEEE encodedPacket)).

Definition encodeV2 (p : reducedPacket) (randBytes : Z * Z) : bytes :=
  let encodedPacket := <[1%nat := 2]> (replicate 1036 0) in
  let encodedPacket := copyAt encodedPacket 2 (be 2 2) in
  let encodedPacket := copyAt encodedPacket 8 (be 2 (resultCode p)) in
  let encodedPacket := copyAt encodedPacket 10
    (if bool_decide (1023 < length (buffer p))%nat then take 1023 (buffer p) else buffer p) in
  let encodedPacket := <[1034%nat := randBytes.1]> encodedPacket in
  let encodedPacket := <[1035%nat := randBytes.2]> encodedPacket in
  sealPacket encodedPacket.

Definition encodeV3 (p : reducedPacket) : bytes :=
  let bufferLength := Int.wrapS 32 (Z.of_nat (length (buffer p))) in
  let encodedPacket := replicate (19 + length (buffer p)) 0 in
  let encodedPacket := copyAt encodedPacket 0 (be 2 (packetVersion p)) in
  let encodedPacket := copyAt encodedPacket 2 (be 2 2) in
  let encodedPacket := copyAt encodedPacket 12 (be 4 bufferLength) in
  let encodedPacket := copyAt encodedPacket 8 (be 2 (resultCode p)) in
  let encodedPacket := copyAt encodedPacket 16 (buffer p) in
  sealPacket encodedPacket.

(** What a command produces: a text and a code, or an error message. *)
Abbreviation callback := (bytes → bytes * Z + bytes).

(** The text and the code of the answer to a command. *)
Definition answerOf (version : bytes) (cb : callback) (command : bytes) : bytes * Z :=
  if bool_decide (command = str "_NRPE_CHECK")
  then (str "NRPE v3 (Glouton " ++ version ++ str ")", 0)
  else match cb command with
       | inl answer => answer
       | inr message => (message, 3)
       end.

(** The bytes written before the connection is closed, if any. *)
Definition handleConnection (version : bytes) (c : list bytes) (cb : callback)
    (rndBytes : Z * Z) : option bytes :=
  match decode c with
  | inr _ => None
  | inl request =>
      let '(text, code) := answerOf version cb (buffer request) in
      let answer := mkPacket (packetVersion request) 0 code text in
      Some (if packetVersion request =? 3 then encodeV3 answer else encodeV2 answer rndBytes)
  end.

(** ** Packets captured from check_nrpe (nrpe/data_nrpe_test.go) *)
Example decode_checkLoad :
  decode [[0; 3; 0; 1; 149; 93; 217; 255; 0; 0; 0; 0; 0; 0; 3; 249]
          ++ str "check_load" ++ replicate 1010 0]
  = inl (mkPacket 3 1 0 (str "check_load")).
Proof. vm_compute. reflexivity. Qed.

Example decode_checkLoadV2 :
  decode [[0; 2; 0; 1; 163; 17; 206; 110; 64; 67] ++ str "check_load"
          ++ replicate 1014 0 ++ [87; 95]]
  = inl (mkPacket 2 1 0 (str "check_load")).
Proof. vm_compute. reflexivity. Qed.

Example reply_doesNotExists :
  encodeV3 (mkPacket 3 2 3 (str "NRPE: Command 'does_not_exists' not defined"))
  = [0; 3; 0; 2; 10; 100; 137; 92; 0; 3; 0; 0; 0; 0; 0; 43]
    ++ str "NRPE: Command 'does_not_exists' not defined" ++ [0; 0; 0].
Proof. vm_compute. reflexivity. Qed.

(** * Theorems *)
Definition inInt16 (z : Z) : Prop := - 2 ^ 15 ≤ z < 2 ^ 15.
Definition nullFree (l : bytes) : Prop := Forall (λ b, b ≠ 0) l.

(** ** Layouts *)
(** A packet with a given checksum field. *)
Definition layout (v t crc : bytes) (rest : bytes) : bytes := v ++ t ++ crc ++ rest.

Lemma sealPacket_layout (v t rest : bytes) :
  length v = 2%nat → length t = 2%nat →
  sealPacket (layout v t [0; 0; 0; 0] rest)
  = layout v t (be 4 (ChecksumIEEE (layout v t [0; 0; 0; 0] rest))) rest.
Proof.
  intros Hv Ht. unfold sealPacket, layout. set (crc := ChecksumIEEE _).
  rewrite !(app_assoc v t). apply copyAt_app; [by rewrite length_app, Hv, Ht|by rewrite be_length].
Qed.

Lemma encodeV3_layout (p : reducedPacket) :
  encodeV3 p = sealPacket (layout (be 2 (packetVersion p)) (be 2 2) [0; 0; 0; 0]
    (be 2 (resultCode p) ++ [0; 0]
     ++ be 4 (Int.wrapS 32 (Z.of_nat (length (buffer p)))) ++ buffer p ++ [0; 0; 0])).
Proof.
  unfold encodeV3, layout. f_equal. set (bl := Int.wrapS 32 _). set (n := length (buffer p)).
  assert (replicate (19 + n) 0 = [0; 0] ++ [0; 0] ++ [0; 0; 0; 0] ++ [0; 0] ++ [0; 0]
    ++ [0; 0; 0; 0] ++ replicate n 0 ++ [0; 0; 0]) as ->.
  { replace (19 + n)%nat with (16 + (n + 3))%nat by lia. by rewrite !replicate_add. }
  set (v := be 2 (packetVersion p)). set (t := be 2 2). set (rc := be 2 (resultCode p)).
  set (lb := be 4 bl).
  assert (length v = 2%nat ∧ length t = 2%nat ∧ length rc = 2%nat ∧ length lb = 4%nat)
    as (Hv & Ht & Hrc & Hlb) by (split_and!; apply be_length).
  rewrite (copyAt_split _ [] [0; 0] v ([0; 0] ++ [0; 0; 0; 0] ++ [0; 0] ++ [0; 0]
    ++ [0; 0; 0; 0] ++ replicate n 0 ++ [0; 0; 0])) by done.
  rewrite (copyAt_split _ v [0; 0] t ([0; 0; 0; 0] ++ [0; 0] ++ [0; 0]
    ++ [0; 0; 0; 0] ++ replicate n 0 ++ [0; 0; 0])) by done.
  rewrite (copyAt_split _ (v ++ t ++ [0; 0; 0; 0; 0; 0; 0; 0]) [0; 0; 0; 0] lb
    (replicate n 0 ++ [0; 0; 0])) by (by rewrite ?length_app, ?Hv, ?Ht, <-?app_assoc).
  rewrite (copyAt_split _ (v ++ t ++ [0; 0; 0; 0]) [0; 0] rc
    ([0; 0] ++ lb ++ replicate n 0 ++ [0; 0; 0]))
    by (by rewrite ?length_app, ?Hv, ?Ht, <-?app_assoc).
  rewrite (copyAt_split _ (v ++ t ++ [0; 0; 0; 0] ++ rc ++ [0; 0] ++ lb) (replicate n 0) (buffer p)
    [0; 0; 0]) by (by rewrite ?length_app, ?Hv, ?Ht, ?Hrc, ?Hlb, ?length_replicate, <-?app_assoc).
  by rewrite <-!app_assoc.
Qed.

Lemma encodeV2_layout (p : reducedPacket) (rnd : Z * Z) :
  let text := take 1023 (buffer p) in
  encodeV2 p rnd = sealPacket (layout [0; 2] (be 2 2) [0; 0; 0; 0]
    (be 2 (resultCode p) ++ text ++ replicate (1024 - length text) 0 ++ [rnd.1; rnd.2])).
Proof.
  intros text. unfold encodeV2, layout. f_equal.
  replace (if bool_decide _ then _ else _) with text.
  2:{ unfold text. case_bool_decide; [done|]. by rewrite take_ge by lia. }
  assert (length text ≤ 1023)%nat as Hl by (unfold text; rewrite length_take; lia).
  set (m := (1024 - length text)%nat).
  assert (<[1%nat := 2]> (replicate 1036 0) = [0; 2] ++ [0; 0] ++ [0; 0; 0; 0] ++ [0; 0]
    ++ replicate (length text) 0 ++ replicate m 0 ++ [0; 0]) as ->.
  { replace 1036%nat with (10 + (length text + (m + 2)))%nat by lia.
    by rewrite !(replicate_add _ _ 0). }
  set (t := be 2 2). set (rc := be 2 (resultCode p)).
  assert (length t = 2%nat ∧ length rc = 2%nat) as (Ht & Hrc) by (split_and!; apply be_length).
  rewrite (copyAt_split _ [0; 2] [0; 0] t ([0; 0; 0; 0] ++ [0; 0]
    ++ replicate (length text) 0 ++ replicate m 0 ++ [0; 0])) by done.
  rewrite (copyAt_split _ ([0; 2] ++ t ++ [0; 0; 0; 0]) [0; 0] rc
    (replicate (length text) 0 ++ replicate m 0 ++ [0; 0]))
    by (by rewrite ?length_app, ?Ht, <-?app_assoc).
  rewrite (copyAt_split _ ([0; 2] ++ t ++ [0; 0; 0; 0] ++ rc) (replicate (length text) 0) text
    (replicate m 0 ++ [0; 0]))
    by (by rewrite ?length_app, ?Ht, ?Hrc, ?length_replicate, <-?app_assoc).
  set (pre := [0; 2] ++ t ++ [0; 0; 0; 0] ++ rc ++ text ++ replicate m 0).
  assert (length pre = 1034%nat) as Hpre
    by (unfold pre; rewrite !length_app, length_replicate, Ht, Hrc; simpl; lia).
  replace (([0; 2] ++ t ++ [0; 0; 0; 0] ++ rc) ++ text ++ replicate m 0 ++ [0; 0])
    with (pre ++ [0; 0]) by (unfold pre; by rewrite <-!app_assoc).
  rewrite !insert_app_r_alt by (rewrite Hpre; lia). rewrite Hpre. simpl.
  unfold pre. by rewrite <-!app_assoc.
Qed.

(** ** Decoding a sealed packet *)
Lemma slice_split (l a b c : bytes) (off n : nat) :
  l = a ++ b ++ c → off = length a → n = length b → slice l off n = b.
Proof. intros -> -> ->. unfold slice. by rewrite drop_app_length, take_app_length. Qed.

Lemma indexNull_app (a c : bytes) : nullFree a → indexNull (a ++ 0 :: c) = Some (length a).
Proof.
  induction 1 as [|b a Hb _ IH]; [done|]. simpl. rewrite (proj2 (Z.eqb_neq _ _)) by done.
  by rewrite IH.
Qed.

Lemma int16_be (z : Z) : inInt16 z → Int.wrapS 16 (of_be (be 2 z)) = z.
Proof.
  intros Hz. rewrite of_be_be. change (256 ^ Z.of_nat 2) with (2 ^ 16).
  rewrite <-(Z.add_0_r (z mod 2 ^ 16)). unfold Int.wrapS.
  rewrite Z.add_0_r, Zplus_mod_idemp_l. by apply (Int.wrapS_id 16).
Qed.

Lemma ChecksumIEEE_is32 (l : bytes) : areBytes l → is32 (ChecksumIEEE l).
Proof. intros Hl. apply lxor_is32; [apply crcFold_is32; [by split|done]|by split]. Qed.

(** The checksum of a sealed packet is accepted. *)
Lemma sealed_checksum (v t rest head buf : bytes) :
  length v = 2%nat → length t = 2%nat → areBytes (layout v t [0; 0; 0; 0] rest) →
  (16 ≤ length head)%nat → head ++ buf = sealPacket (layout v t [0; 0; 0; 0] rest) →
  (ChecksumIEEE (completePacket head buf) =? of_be (slice head 4 4)) = true.
Proof.
  intros Hv Ht Hb Hlen Heq. apply Z.eqb_eq. unfold completePacket.
  assert (slice head 4 4 = slice (head ++ buf) 4 4) as ->.
  { unfold slice. rewrite drop_app_le by lia. rewrite take_app_le; [done|].
    rewrite length_drop. lia. }
  rewrite Heq, sealPacket_layout by done.
  set (crc := ChecksumIEEE (layout v t [0; 0; 0; 0] rest)).
  rewrite (slice_split _ (v ++ t) (be 4 crc) rest).
  - unfold layout. rewrite (copyAt_split _ (v ++ t) (be 4 crc) [0; 0; 0; 0] rest).
    + rewrite of_be_be, Z.mod_small by (by apply ChecksumIEEE_is32).
      unfold crc, layout. by rewrite <-app_assoc.
    + by rewrite <-app_assoc.
    + by rewrite length_app, Hv, Ht.
    + by rewrite be_length.
  - unfold layout. by rewrite <-app_assoc.
  - by rewrite length_app, Hv, Ht.
  - by rewrite be_length.
Qed.

(** One segment, the header complete. *)
Lemma decode_segment (head buf : bytes) :
  length head = 16%nat → buf ≠ [] →
  0 ≤ bufferLength head ≤ maxBufferLength →
  length buf = Z.to_nat (bufferLength head + 3) →
  decode [head ++ buf] = decodePacket head buf.
Proof.
  intros Hh Hb Hl Hlen. unfold decode.
  assert (read 16 [head ++ buf] = Some (head, [buf])) as ->.
  { simpl. destruct (head ++ buf) eqn:Heq; [by destruct head|]. rewrite <-Heq, <-Hh.
    rewrite take_app_length, drop_app_length. by destruct buf. }
  unfold filled. rewrite Hh, Nat.sub_diag, app_nil_r.
  destruct (Z.ltb_spec (bufferLength head) 0); [lia|].
  destruct (Z.ltb_spec maxBufferLength (bufferLength head)); [lia|]. cbn [orb].
  rewrite <-Hlen. replace (read (length buf) [buf]) with (Some (buf, @nil bytes)).
  - by rewrite Nat.sub_diag, app_nil_r.
  - simpl. destruct buf as [|b buf]; [done|]. by rewrite firstn_all, drop_all.
Qed.

Lemma areBytes_app (a b : bytes) : areBytes (a ++ b) ↔ areBytes a ∧ areBytes b.
Proof. apply Forall_app. Qed.

Lemma zeros_areBytes (n : nat) : areBytes (replicate n 0).
Proof. apply Forall_replicate. unfold isByte. lia. Qed.

Lemma head_fields (v t crc rc tail : bytes) :
  length v = 2%nat → length t = 2%nat → length crc = 4%nat → length rc = 2%nat →
  let head := v ++ t ++ crc ++ rc ++ tail in
  int16At head 0 = Int.wrapS 16 (of_be v) ∧ int16At head 2 = Int.wrapS 16 (of_be t)
  ∧ int16At head 8 = Int.wrapS 16 (of_be rc) ∧ drop 10 head = tail.
Proof.
  intros Hv Ht Hc Hr head. unfold int16At.
  rewrite (slice_split head [] v (t ++ crc ++ rc ++ tail)) by done.
  rewrite (slice_split head v t (crc ++ rc ++ tail)) by done.
  rewrite (slice_split head (v ++ t ++ crc) rc tail).
  - split_and!; try done. unfold head. rewrite !app_assoc.
    by rewrite drop_app_length' by (rewrite !length_app, Hv, Ht, Hc, Hr; done).
  - unfold head. by rewrite <-!app_assoc.
  - by rewrite !length_app, Hv, Ht, Hc.
  - done.
Qed.

(** What a sealed packet in one segment decodes to. *)
Lemma decode_sealed (v t rc tail buf : bytes) (i : nat) :
  length v = 2%nat → length t = 2%nat → length rc = 2%nat → length tail = 6%nat →
  Forall areBytes [v; t; rc; tail; buf] →
  let version := Int.wrapS 16 (of_be v) in
  Z.of_nat (length buf) =
    (if version =? 3 then Int.wrapS 32 (of_be (drop 2 tail)) else if version =? 2 then 1017 else 0) + 3 →
  3 ≤ Z.of_nat (length buf) ≤ maxBufferLength + 3 → indexNull buf = Some i →
  decode [sealPacket (layout v t [0; 0; 0; 0] (rc ++ tail ++ buf))]
  = inl (mkPacket version (Int.wrapS 16 (of_be t))
      (if Int.wrapS 16 (of_be t) =? 1 then 0 else Int.wrapS 16 (of_be rc))
      (if version =? 3 then take i buf else if version =? 2 then tail ++ take i buf else [])).
Proof.
  intros Hv Ht Hr Htl Hb version Hlen Hmax Hi. rewrite !Forall_cons in Hb.
  destruct Hb as (Hbv & Hbt & Hbr & Hbtl & Hbb & _).
  set (pkt := sealPacket _). set (crc := be 4 (ChecksumIEEE (layout v t [0; 0; 0; 0] (rc ++ tail ++ buf)))).
  set (head := v ++ t ++ crc ++ rc ++ tail).
  assert (length crc = 4%nat) as Hc by apply be_length.
  assert (pkt = head ++ buf) as Hpkt.
  { unfold pkt, head. rewrite sealPacket_layout by done. unfold layout. by rewrite <-!app_assoc. }
  assert (length head = 16%nat) as Hhead
    by (unfold head; rewrite !length_app, Hv, Ht, Hc, Hr, Htl; done).
  destruct (head_fields v t crc rc tail Hv Ht Hc Hr) as (H0 & H2 & H8 & H10).
  fold head in H0, H2, H8, H10.
  assert (Z.of_nat (length buf) = bufferLength head + 3) as Hbl.
  { rewrite Hlen. unfold bufferLength. rewrite H0. fold version. f_equal.
    destruct (version =? 3); [|done]. unfold int32At, slice. do 2 f_equal.
    change 12%nat with (10 + 2)%nat. rewrite <-drop_drop, H10.
    rewrite take_ge; [done|]. rewrite length_drop. lia. }
  rewrite Hpkt, decode_segment; [|done|by intros ->|lia|lia].
  unfold decodePacket.
  rewrite (sealed_checksum v t (rc ++ tail ++ buf) head); [|done|done| |lia|done].
  - cbn [negb]. by rewrite Hi, H0, H2, H8, H10.
  - unfold layout. rewrite !areBytes_app. split_and!; try done. apply (zeros_areBytes 4).
Qed.

Lemma encodeV3_decodes (p : reducedPacket) :
  packetVersion p = 3 → inInt16 (resultCode p) → areBytes (buffer p) → nullFree (buffer p) →
  Z.of_nat (length (buffer p)) ≤ maxBufferLength →
  decode [encodeV3 p] = inl (mkPacket 3 2 (resultCode p) (buffer p)).
Proof.
  intros Hv Hrc Hbytes Hnull Hlen. rewrite encodeV3_layout, Hv. unfold maxBufferLength in Hlen.
  rewrite (Int.wrapS_id 32) by lia. set (bl := Z.of_nat (length (buffer p))).
  rewrite (app_assoc [0; 0]).
  rewrite (decode_sealed _ _ _ _ _ (length (buffer p))).
  - rewrite !int16_be by done. simpl. by rewrite take_app_length.
  - apply be_length.
  - apply be_length.
  - apply be_length.
  - by rewrite length_app, be_length.
  - rewrite !Forall_cons, Forall_nil. split_and!; try apply be_areBytes; [| |done].
    + apply areBytes_app. split; [apply (zeros_areBytes 2)|apply be_areBytes].
    + apply areBytes_app. split; [done|apply (zeros_areBytes 3)].
  - rewrite int16_be by done. change (drop 2 ([0; 0] ++ be 4 bl)) with (be 4 bl).
    rewrite of_be_be.
    change (256 ^ Z.of_nat 4) with (2 ^ 32).
    rewrite Z.mod_small, (Int.wrapS_id 32), length_app by lia. simpl. lia.
  - rewrite length_app. unfold maxBufferLength. simpl. lia.
  - by apply indexNull_app.
Qed.

(** The text of a version 2 packet has at most 1023 bytes, and at least the 6
    bytes that are in the header. *)
Definition textV2 (b : bytes) : bytes :=
  let text := take 1023 b in text ++ replicate (6 - length text) 0.

Lemma sealedV2_decodes (t rc b : bytes) (r1 r2 : Z) :
  length t = 2%nat → length rc = 2%nat → areBytes t → areBytes rc → areBytes b → nullFree b →
  isByte r1 → isByte r2 →
  let text := take 1023 b in
  decode [sealPacket (layout [0; 2] t [0; 0; 0; 0]
    (rc ++ text ++ replicate (1024 - length text) 0 ++ [r1; r2]))]
  = inl (mkPacket 2 (Int.wrapS 16 (of_be t))
      (if Int.wrapS 16 (of_be t) =? 1 then 0 else Int.wrapS 16 (of_be rc)) (textV2 b)).
Proof.
  intros Ht Hrc Hbt Hbrc Hbytes Hnull Hr1 Hr2 text. unfold textV2. cbv zeta. fold text.
  set (m := (1024 - length text)%nat).
  assert (length text ≤ 1023)%nat as Hl by (unfold text; rewrite length_take; lia).
  assert (areBytes text ∧ nullFree text) as [Htb Htn] by (split; by apply Forall_take).
  set (body := text ++ replicate m 0).
  assert (length body = 1024%nat) as Hbody by (unfold body; rewrite length_app, length_replicate; lia).
  assert (areBytes body) as Hbb by (apply areBytes_app; split; [done|apply zeros_areBytes]).
  replace (text ++ replicate m 0 ++ [r1; r2]) with (take 6 body ++ drop 6 body ++ [r1; r2])
    by (by rewrite app_assoc, take_drop; unfold body; rewrite <-app_assoc).
  assert (drop 6 body = drop 6 text ++ 0 :: replicate (m - (6 - length text) - 1) 0) as Hdrop.
  { unfold body. rewrite drop_app, drop_replicate. f_equal.
    by replace (m - (6 - length text))%nat with (S (m - (6 - length text) - 1)) at 1 by lia. }
  rewrite (decode_sealed _ _ _ _ _ (length (drop 6 text))); try done.
  - simpl. do 2 f_equal. rewrite take_app_le by (rewrite !length_drop; lia).
    rewrite Hdrop, take_app_length. unfold body. rewrite take_app, take_replicate.
    destruct (Nat.le_gt_cases (length text) 6).
    + rewrite (take_ge text) by lia. rewrite (drop_ge text) by lia. rewrite app_nil_r.
      f_equal. f_equal. lia.
    + replace (6 - length text)%nat with 0%nat by lia. simpl (replicate _ _).
      by rewrite !app_nil_r, take_drop.
  - rewrite length_take. lia.
  - rewrite !Forall_cons, Forall_nil. split_and!; try done.
    + apply (be_areBytes 2 2).
    + by apply Forall_take.
    + apply areBytes_app. split; [by apply Forall_drop|].
      apply Forall_cons_2; [done|by apply Forall_singleton].
  - change (Int.wrapS 16 (of_be [0; 2])) with 2. simpl (_ =? _).
    rewrite length_app, length_drop, Hbody. done.
  - rewrite length_app, length_drop, Hbody. unfold maxBufferLength. simpl. lia.
  - rewrite Hdrop, <-app_assoc. by apply indexNull_app, Forall_drop.
Qed.

(** C33. Every query that decodes is answered, and the answer survives the
    wire: what the client decodes is an answer packet with the code of the
    command and its text, whole in version 3, cut at 1023 bytes in version 2
    (where a text shorter than 6 bytes gets trailing NULs).  The command is run
    unless it is the version request, and an error becomes the code 3 with the
    error message. *)
Theorem handleConnection_reply (version : bytes) (c : list bytes) (cb : callback)
    (rnd : Z * Z) (req : reducedPacket) (text : bytes) (code : Z) :
  decode c = inl req → answerOf version cb (buffer req) = (text, code) →
  areBytes text → nullFree text → Z.of_nat (length text) ≤ maxBufferLength → inInt16 code →
  isByte rnd.1 → isByte rnd.2 →
  ∃ reply,
    handleConnection version c cb rnd = Some reply
    ∧ decode [reply]
      = inl (if packetVersion req =? 3 then mkPacket 3 2 code text
             else mkPacket 2 2 code (textV2 text)).
Proof.
  intros Hd Ha Hb Hn Hl Hcode H1 H2. unfold handleConnection. rewrite Hd, Ha.
  eexists. split; [reflexivity|]. destruct (Z.eqb_spec (packetVersion req) 3) as [Hv|].
  - by rewrite encodeV3_decodes.
  - rewrite encodeV2_layout, sealedV2_decodes by (done || apply be_length || apply be_areBytes).
    rewrite !int16_be by done. done.
Qed.

(** The query of a version 2 client. *)
Definition queryV2 (command : bytes) (r1 r2 : Z) : bytes :=
  sealPacket (layout [0; 2] [0; 1] [0; 0; 0; 0]
    ([0; 0] ++ command ++ replicate (1024 - length command) 0 ++ [r1; r2])).

(** What a version 2 query asks for: the command is decoded as sent when
    it has at least 6 bytes, but a shorter one comes with the NUL bytes that
    pad it in the header, so that it is not the command the client named. *)
Theorem decode_queryV2 (command : bytes) (r1 r2 : Z) :
  areBytes command → nullFree command → (length command ≤ 1023)%nat → isByte r1 → isByte r2 →
  decode [queryV2 command r1 r2]
  = inl (mkPacket 2 1 0 (command ++ replicate (6 - length command) 0)).
Proof.
  intros Hb Hn Hl H1 H2. unfold queryV2.
  pose proof (sealedV2_decodes [0; 1] [0; 0] command r1 r2 eq_refl eq_refl
    (be_areBytes 2 1) (be_areBytes 2 0) Hb Hn H1 H2) as H.
  unfold textV2 in H. cbv zeta in H. by rewrite take_ge in H by lia.
Qed.

(** ** Altered packets *)
Lemma decode_whole (pkt : bytes) :
  (16 < length pkt)%nat →
  decode [pkt] =
    let head := take 16 pkt in
    if (bufferLength head <? 0) || (maxBufferLength <? bufferLength head)
    then inr EInvalidBufferLength
    else let n := Z.to_nat (bufferLength head + 3) in
         decodePacket head (filled n (take n (drop 16 pkt))).
Proof.
  intros Hl. unfold decode.
  assert (read 16 [pkt] = Some (take 16 pkt, [drop 16 pkt])) as ->.
  { simpl. destruct pkt as [|x pkt]; [simpl in Hl; lia|].
    destruct (drop 16 (x :: pkt)) eqn:Hd; [|done].
    apply (f_equal length) in Hd. rewrite length_drop in Hd. simpl in *. lia. }
  assert (filled 16 (take 16 pkt) = take 16 pkt) as ->.
  { unfold filled. rewrite length_take, Nat.min_l, Nat.sub_diag by lia. apply app_nil_r. }
  cbv zeta. destruct ((bufferLength (take 16 pkt) <? 0) || _); [done|].
  destruct (drop 16 pkt) as [|y l] eqn:Hd; [|done].
  apply (f_equal length) in Hd. rewrite length_drop in Hd. simpl in *. lia.
Qed.

Lemma decode_short (pkt : bytes) : (length pkt ≤ 16)%nat → ∀ p, decode [pkt] ≠ inl p.
Proof.
  intros Hl p. unfold decode. destruct pkt as [|x pkt]; [done|].
  change (read 16 [x :: pkt]) with (Some (take 16 (x :: pkt),
    match drop 16 (x :: pkt) with [] => [] | rest => [rest] end)).
  rewrite (drop_ge (x :: pkt) 16) by done.
  by destruct (_ || _).
Qed.

Lemma slice_insert_ne (l : bytes) (i off n : nat) (b : Z) :
  (i < off ∨ off + n ≤ i)%nat → slice (<[i := b]> l) off n = slice l off n.
Proof.
  intros Hi. unfold slice. destruct Hi as [Hi|Hi].
  - by rewrite drop_insert_lt.
  - rewrite drop_insert_ge, take_insert_ge by lia. done.
Qed.

Lemma insert_split (l : bytes) (i : nat) (b b' : Z) :
  l !! i = Some b → ∃ a c, l = a ++ b :: c ∧ <[i := b']> l = a ++ b' :: c ∧ length a = i.
Proof.
  intros Hi. exists (take i l), (drop (S i) l). pose proof (lookup_lt_Some _ _ _ Hi).
  split_and!; [by rewrite take_drop_middle| |rewrite length_take; lia].
  by rewrite insert_take_drop by done.
Qed.

(** Reading the altered packet alters the bytes that were read. *)
Lemma filled_insert (n j : nat) (l : bytes) (b : Z) :
  (j < length l)%nat → (j < n)%nat →
  filled n (take n (<[j := b]> l)) = <[j := b]> (filled n (take n l)).
Proof.
  intros Hj Hn. unfold filled. rewrite take_insert_lt by done.
  rewrite length_insert, insert_app_l by (rewrite length_take; lia). done.
Qed.

Lemma completePacket_insert (head buf : bytes) (i : nat) (b : Z) :
  (8 ≤ length (head ++ buf))%nat →
  copyAt (<[i := b]> (head ++ buf)) 4 [0; 0; 0; 0]
  = if bool_decide (4 ≤ i < 8)%nat then completePacket head buf
    else <[i := b]> (completePacket head buf).
Proof.
  intros Hl. unfold completePacket, copyAt. rewrite length_insert. set (l := head ++ buf) in *.
  change (length [0; 0; 0; 0]) with 4%nat. rewrite (take_ge [0; 0; 0; 0]) by (simpl; lia).
  case_bool_decide as Hi.
  - rewrite take_insert_ge, drop_insert_lt by lia. done.
  - destruct (Nat.lt_ge_cases i 4).
    + rewrite take_insert_lt, drop_insert_lt by lia.
      by rewrite insert_app_l by (rewrite length_take; lia).
    + rewrite take_insert_ge, drop_insert_ge by lia.
      assert (length (take 4 l ++ [0; 0; 0; 0]) = 8%nat) as H8
        by (rewrite length_app, length_take; change (length [0; 0; 0; 0]) with 4%nat; lia).
      by rewrite app_assoc, (app_assoc (take 4 l)), insert_app_r_alt, H8 by (rewrite H8; lia).
Qed.

Lemma completePacket_lookup (head buf : bytes) (i : nat) :
  (8 ≤ length (head ++ buf))%nat → ¬ (4 ≤ i < 8)%nat →
  completePacket head buf !! i = (head ++ buf) !! i.
Proof.
  intros Hl Hi. unfold completePacket, copyAt. set (l := head ++ buf) in *.
  change (length [0; 0; 0; 0]) with 4%nat. rewrite (take_ge [0; 0; 0; 0]) by (simpl; lia).
  destruct (Nat.lt_ge_cases i 4).
  - rewrite lookup_app_l by (rewrite length_take; lia). by rewrite lookup_take_lt.
  - rewrite !lookup_app_r; rewrite ?length_take; change (length [0; 0; 0; 0]) with 4%nat; try lia.
    rewrite lookup_drop. f_equal. lia.
Qed.

Lemma completePacket_areBytes (head buf : bytes) :
  areBytes (head ++ buf) → areBytes (completePacket head buf).
Proof.
  intros H. unfold completePacket, copyAt. rewrite !areBytes_app.
  split_and!; [by apply Forall_take|apply Forall_take, (zeros_areBytes 4)|by apply Forall_drop].
Qed.

Lemma of_be_altered (l : bytes) (i : nat) (b b' : Z) :
  l !! i = Some b → b ≠ b' → of_be (<[i := b']> l) ≠ of_be l.
Proof.
  intros Hi Hne H. destruct (insert_split l i b b' Hi) as (a & c & Ha & Ha' & _).
  rewrite Ha' in H. rewrite Ha in H. rewrite !of_be_split in H.
  pose proof (Z.pow_pos_nonneg 256 (Z.of_nat (length c)) ltac:(lia) ltac:(lia)). nia.
Qed.

Lemma ChecksumIEEE_insert (l : bytes) (i : nat) (b b' : Z) :
  areBytes l → isByte b' → l !! i = Some b → b ≠ b' →
  ChecksumIEEE (<[i := b']> l) ≠ ChecksumIEEE l.
Proof.
  intros Hl Hb' Hi Hne. destruct (insert_split l i b b' Hi) as (a & c & Ha & -> & _).
  rewrite Ha in *. apply areBytes_app in Hl as [Hba Hbc].
  apply Forall_cons in Hbc as [Hb Hbc]. apply ChecksumIEEE_altered; congruence || done.
Qed.

(** The checksum test fails once one byte is altered. *)
Lemma checksum_altered (head buf head' buf' : bytes) (i : nat) (b b' : Z) :
  length head = 16%nat → length head' = 16%nat → areBytes (head ++ buf) → isByte b' → b ≠ b' →
  (head ++ buf) !! i = Some b → head' ++ buf' = <[i := b']> (head ++ buf) →
  ChecksumIEEE (completePacket head buf) = of_be (slice head 4 4) →
  ChecksumIEEE (completePacket head' buf') ≠ of_be (slice head' 4 4).
Proof.
  intros Hh Hh' Hby Hb' Hne Hi Heq Hcrc.
  assert (∀ h u, length h = 16%nat → slice h 4 4 = slice (h ++ u) 4 4) as Hsl.
  { intros h u Hl. unfold slice. rewrite drop_app_le by lia. rewrite take_app_le; [done|].
    rewrite length_drop. lia. }
  assert (8 ≤ length (head ++ buf))%nat as Hlen by (rewrite length_app; lia).
  rewrite (Hsl head' buf'), (Hsl head buf) in * by done. unfold completePacket at 1.
  rewrite Heq, completePacket_insert by done. case_bool_decide as Hr.
  - rewrite Hcrc. unfold slice. rewrite drop_insert_ge, take_insert_lt by lia.
    apply not_eq_sym, (of_be_altered _ _ b); [|done].
    rewrite lookup_take_lt, lookup_drop by lia. rewrite <-Hi. f_equal. lia.
  - rewrite slice_insert_ne by lia. rewrite <-Hcrc.
    apply (ChecksumIEEE_insert _ i b); try done; [by apply completePacket_areBytes|].
    by rewrite completePacket_lookup.
Qed.

Lemma bufferLength_insert (head : bytes) (i : nat) (b : Z) :
  (2 ≤ i)%nat → (int16At head 0 = 3 → ¬ (12 ≤ i < 16)%nat) →
  bufferLength (<[i := b]> head) = bufferLength head.
Proof.
  intros Hi H3. unfold bufferLength, int16At, int32At in *.
  rewrite (slice_insert_ne head i 0) by lia.
  destruct (Z.eqb_spec (Int.wrapS 16 (of_be (slice head 0 2))) 3) as [Hv|]; [|done].
  rewrite slice_insert_ne; [done|]. specialize (H3 Hv). lia.
Qed.

Lemma decodePacket_checksum (head buf : bytes) :
  if ChecksumIEEE (completePacket head buf) =? of_be (slice head 4 4)
  then decodePacket head buf ≠ inr EWrongValue
  else decodePacket head buf = inr EWrongValue.
Proof. unfold decodePacket. destruct (_ =? _); simpl; [by destruct (indexNull buf)|done]. Qed.

(** An altered packet is rejected: change any one byte of an accepted
    packet, other than its version and (in version 3) its length, and decoding
    reports a wrong checksum. *)
Theorem decode_altered (pkt : bytes) (i : nat) (b b' : Z) (p : reducedPacket) :
  areBytes pkt → decode [pkt] = inl p → pkt !! i = Some b → isByte b' → b ≠ b' →
  (2 ≤ i)%nat → (packetVersion p = 3 → ¬ (12 ≤ i < 16)%nat) →
  Z.of_nat i < 19 + bufferLength (take 16 pkt) →
  decode [<[i := b']> pkt] = inr EWrongValue.
Proof.
  intros Hby Hd Hi Hb' Hne H2 H12 Hend.
  destruct (Nat.le_gt_cases (length pkt) 16) as [Hs|Hl]; [by destruct (decode_short pkt Hs p)|].
  rewrite decode_whole in Hd by done. rewrite decode_whole by (by rewrite length_insert).
  cbv zeta in *. set (head := take 16 pkt) in *.
  destruct (_ || _) eqn:Hrange in Hd; [done|]. apply orb_false_iff in Hrange as Hpos.
  destruct Hpos as [Hpos%Z.ltb_ge _].
  set (n := Z.to_nat (bufferLength head + 3)) in *. set (buf := filled n (take n (drop 16 pkt))) in *.
  assert (length head = 16%nat) as Hh by (unfold head; rewrite length_take; lia).
  assert (int16At head 0 = 3 → ¬ (12 ≤ i < 16)%nat) as H12'.
  { intros Hv. apply H12. unfold decodePacket in Hd. destruct (negb _); [done|].
    destruct (indexNull buf); [|done]. by injection Hd as <-. }
  pose proof (lookup_lt_Some _ _ _ Hi) as Hil.
  set (head' := take 16 (<[i := b']> pkt)).
  assert (bufferLength head' = bufferLength head) as Hbl.
  { unfold head'. destruct (Nat.lt_ge_cases i 16).
    - rewrite take_insert_lt by done. by apply bufferLength_insert.
    - by rewrite take_insert_ge. }
  rewrite Hbl, Hrange. fold n. set (buf' := filled n (take n (drop 16 (<[i := b']> pkt)))).
  assert (head' ++ buf' = <[i := b']> (head ++ buf)) as Heq.
  { unfold head', buf', buf, head. destruct (Nat.lt_ge_cases i 16).
    - rewrite take_insert_lt, drop_insert_lt by lia. by rewrite insert_app_l by (rewrite length_take; lia).
    - rewrite take_insert_ge, drop_insert_ge, filled_insert by (rewrite ?length_drop; lia).
      rewrite insert_app_r_alt by (rewrite length_take; lia).
      by replace (length (take 16 pkt)) with 16%nat by (rewrite length_take; lia). }
  assert ((head ++ buf) !! i = Some b) as Hi'.
  { rewrite <-Hi, <-(take_drop 16 pkt). unfold buf, filled, head.
    destruct (Nat.lt_ge_cases i 16); [by rewrite !lookup_app_l by (rewrite length_take; lia)|].
    rewrite !(lookup_app_r (take 16 pkt)) by (rewrite length_take; lia). rewrite length_take.
    rewrite lookup_app_l by (rewrite length_take, length_drop; lia).
    rewrite lookup_take_lt by lia. done. }
  pose proof (decodePacket_checksum head buf) as Hok.
  pose proof (decodePacket_checksum head' buf') as Hbad.
  destruct (Z.eqb_spec (ChecksumIEEE (completePacket head buf)) (of_be (slice head 4 4))) as [Hcrc|];
    [|congruence].
  rewrite (proj2 (Z.eqb_neq _ _)) in Hbad; [done|].
  eapply (checksum_altered head buf head' buf' i b b'); try done.
  - unfold head'. rewrite length_take, length_insert. lia.
  - apply areBytes_app. split; [by apply Forall_take|]. unfold buf, filled.
    apply areBytes_app. split; [by apply Forall_take, Forall_drop|apply zeros_areBytes].
Qed.

(** ** Witnesses *)
#[global] Instance isByte_dec (b : Z) : Decision (isByte b).
Proof. unfold isByte. apply _. Defined.

Definition sampleQuery : bytes := encodeV3 (mkPacket 3 0 0 (str "check_load")).
Definition sampleCallback : callback :=
  λ command, if bool_decide (command = str "check_load") then inl (str "OK", 0)
             else inr (str "not defined").

Lemma handleConnection_reply_witness :
  ∃ reply,
    handleConnection (str "1.0") [sampleQuery] sampleCallback (1, 2) = Some reply
    ∧ decode [reply] = inl (mkPacket 3 2 0 (str "OK")).
Proof.
  apply (handleConnection_reply (str "1.0") [sampleQuery] sampleCallback (1, 2)
           (mkPacket 3 2 0 (str "check_load")) (str "OK") 0).
  - vm_compute. reflexivity.
  - vm_compute. reflexivity.
  - apply str_areBytes.
  - apply (bool_decide_unpack _). vm_compute. reflexivity.
  - vm_compute. discriminate.
  - split; vm_compute; congruence.
  - split; vm_compute; congruence.
  - split; vm_compute; congruence.
Defined.

Lemma decode_queryV2_witness :
  decode [queryV2 (str "load") 7 8] = inl (mkPacket 2 1 0 (str "load" ++ [0; 0])).
Proof.
  apply (decode_queryV2 (str "load") 7 8).
  - apply str_areBytes.
  - apply (bool_decide_unpack _). vm_compute. reflexivity.
  - vm_compute. lia.
  - split; vm_compute; congruence.
  - split; vm_compute; congruence.
Defined.

Lemma decode_altered_witness : decode [<[16%nat := 100]> sampleQuery] = inr EWrongValue.
Proof.
  apply (decode_altered sampleQuery 16 99 100 (mkPacket 3 2 0 (str "check_load"))).
  - apply (bool_decide_unpack _). vm_compute. reflexivity.
  - vm_compute. reflexivity.
  - vm_compute. reflexivity.
  - split; vm_compute; congruence.
  - discriminate.
  - lia.
  - lia.
  - vm_compute. reflexivity.
Defined.
