(* ===== verification/Zabbix.v ===== *)
(** The Zabbix agent server (zabbix/zabbix.go): framing of requests and
    replies, and the parser of item keys such as [vfs.fs.size[/,free]].
    The parser is modelled with its slice bounds, because the request comes
    from the network: [None] is a panic.  The theorems are the parsing of every
    well-formed key from the wire to the callback ([handleConnection_item]) and
    the requests on which the parser panics ([splitData_panics]). *)
From S2P Require Import Prelude Bytes.

Definition maxDataLength : Z := 64 * 1024.

Inductive zabbixError :=
  | EUnmatchedOpeningBracket
  | EUnmatchedClosingBracket
  | EClosingBracketNotAllowed
  | EMissingClosingBracket
  | EIllegalBraces
  | ECommaButNotArgs
  | EMultiArrayNotAllowed
  | EQuotedParamContainsUnquoted.

#[global] Instance zabbixError_eq_dec : EqDecision zabbixError.
Proof. solve_decision. Defined.

(** ** Characters and slices *)
Definition quote : Z := 34.
Definition comma : Z := 44.
Definition lbracket : Z := 91.
Definition backslash : Z := 92.
Definition rbracket : Z := 93.
Definition lbrace : Z := 123.
Definition rbrace : Z := 125.
Definition space : Z := 32.

(** [s[a:b]]; [None] when the bounds are out of range. *)
Definition sub (s : bytes) (a b : nat) : option bytes :=
  if bool_decide (a ≤ b ∧ b ≤ length s)%nat then Some (take (b - a) (drop a s)) else None.

Definition contains (c : Z) (s : bytes) : bool := existsb (Z.eqb c) s.

(** [strings.Index] of one character. *)
Fixpoint index (c : Z) (s : bytes) : option nat :=
  match s with
  | [] => None
  | x :: s => if x =? c then Some O else S <$> index c s
  end.

(** [strings.LastIndex] of one character. *)
Fixpoint lastIndex (c : Z) (s : bytes) : option nat :=
  match s with
  | [] => None
  | x :: s =>
      match lastIndex c s with
      | Some i => Some (S i)
      | None => if x =? c then Some O else None
      end
  end.

Definition remove (c : Z) (s : bytes) : bytes := filter (λ x, x ≠ c) s.

(** ** The parser *)
(** The key, the parameters and the error. *)
Abbreviation splitResult := (bytes * list bytes * option zabbixError)%type.

(** What an iteration of the loop does. *)
Inductive ctl :=
  | Return (r : splitResult)
  | PanicOut
  | Continue (j : nat) (inBrackets : bool) (args : list bytes).

(** Whether a quoted part of [seg] is followed by something. *)
Definition quotedThenUnquoted (seg : bytes) : bool :=
  contains quote seg && negb (bool_decide (lastIndex quote seg = Some (length seg - 1)%nat)).

(** The body of the loop when the parser is in an array. *)
Definition inArray (key joinArgs : bytes) (k : nat) (s : Z) (j : nat) (args : list bytes) : ctl :=
  match (if s =? lbracket then sub joinArgs (k - 1) (k + 2) else Some [quote; lbracket; quote]) with
  | None => PanicOut
  | Some around =>
      if negb (bool_decide (around = [quote; lbracket; quote]))
      then Return (key, args, Some EMultiArrayNotAllowed)
      else if (s =? rbracket) && bool_decide (k = length joinArgs - 1)%nat then
        match sub joinArgs j k with
        | None => PanicOut
        | Some seg =>
            if quotedThenUnquoted seg
            then Return (key, args, Some EQuotedParamContainsUnquoted)
            else Continue (k + 1) false (args ++ [seg])
        end
      else match (if s =? rbracket then joinArgs !! (k + 1)%nat else Some 0) with
           | None => PanicOut
           | Some next =>
               if next =? rbracket then Return (key, args, Some EUnmatchedClosingBracket)
               else match sub joinArgs (k - 1) (k + 1) with
                    | None => PanicOut
                    | Some around =>
                        if bool_decide (around = [rbracket; comma]) then
                          match sub joinArgs j (k - 1) with
                          | None => PanicOut
                          | Some seg => Continue (k + 1) false (args ++ [seg])
                          end
                        else Continue j true args
                    end
           end
  end.

(** The body of the loop elsewhere. *)
Definition inParams (key joinArgs : bytes) (k : nat) (s : Z) (j : nat) (args : list bytes) : ctl :=
  let '(j, inBrackets) :=
    if (s =? lbracket) && bool_decide (j = k) then ((k + 1)%nat, true) else (j, false) in
  if s =? comma then
    match sub joinArgs j k with
    | None => PanicOut
    | Some seg =>
        if quotedThenUnquoted seg
        then Return (key, args, Some EQuotedParamContainsUnquoted)
        else if contains quote seg && bool_decide (joinArgs !! j = Some quote) then
          match sub joinArgs (j + 1) (k - 1) with
          | None => PanicOut
          | Some seg => Continue (k + 1) inBrackets (args ++ [remove backslash seg])
          end
        else Continue (k + 1) inBrackets (args ++ [seg])
    end
  else if s =? rbracket then Return (key, args, Some EClosingBracketNotAllowed)
  else Continue j inBrackets args.

(** After the loop. *)
Definition lastParam (key joinArgs : bytes) (j : nat) (inBrackets : bool) (args : list bytes)
    : option splitResult :=
  if inBrackets then Some (key, args, Some EUnmatchedOpeningBracket)
  else if bool_decide (j = length joinArgs) then
    last ← joinArgs !! (length joinArgs - 1)%nat;
    Some (key, if last =? comma then args ++ [[]] else args, None)
  else
    seg ← sub joinArgs j (length joinArgs);
    if contains quote seg then
      if negb (bool_decide (lastIndex quote joinArgs = Some (length joinArgs - 1)%nat))
      then Some (key, args, Some EQuotedParamContainsUnquoted)
      else if bool_decide (joinArgs !! j = Some quote) then
        seg ← sub joinArgs (j + 1) (length joinArgs - 1);
        Some (key, args ++ [seg], None)
      else Some (key, args ++ [seg], None)
    else Some (key, args ++ [seg], None).

(** The loop over the characters of [joinArgs] from position [k].  Go iterates
    over runes; a byte of a longer rune equals none of the characters tested,
    so iterating over bytes is the same. *)
Fixpoint splitLoop (key joinArgs : bytes) (rest : bytes) (k j : nat) (inBrackets : bool)
    (args : list bytes) : option splitResult :=
  match rest with
  | [] => lastParam key joinArgs j inBrackets args
  | s :: rest =>
      match (if inBrackets then inArray key joinArgs k s j args
             else inParams key joinArgs k s j args) with
      | Return r => Some r
      | PanicOut => None
      | Continue j inBrackets args => splitLoop key joinArgs rest (S k) j inBrackets args
      end
  end.

Definition splitData (request : bytes) : option splitResult :=
  if contains lbrace request || contains rbrace request
  then Some (request, [], Some EIllegalBraces)
  else match index lbracket request with
       | None =>
           Some (request, [], if contains comma request then Some ECommaButNotArgs else None)
       | Some i =>
           let newrequest := remove space request in
           key ← sub newrequest 0 i;
           last ← newrequest !! (length newrequest - 1)%nat;
           if negb (last =? rbracket) then Some (key, [], Some EMissingClosingBracket)
           else
             joinArgs ← sub newrequest (i + 1) (length newrequest - 1);
             if bool_decide (length joinArgs = 0%nat) then Some (key, [[]], None)
             else splitLoop key joinArgs joinArgs 0 0 false []
       end.

(** ** Packets *)
Record packetStruct := mkPacketStruct { pVersion : Z; pKey : bytes; pArgs : list bytes }.

Inductive decodeResult :=
  | Decoded (p : packetStruct)
  | Failed
  | Crashed.

Definition header : bytes := str "ZBXD".

(** A read of no byte returns at once. *)
Definition readData (n : nat) (r : list bytes) : option (bytes * list bytes) :=
  if bool_decide (n = 0%nat) then Some ([], r) else read n r.

Definition decode (r : list bytes) : decodeResult :=
  match read 13 r with
  | None => Failed
  | Some (h, r) =>
      let packetHead := filled 13 h in
      if negb (bool_decide (take 4 packetHead = header)) then Failed
      else
        let version := Int.wrapS 8 (of_le (take 1 (drop 4 packetHead))) in
        let dataLength := Int.int64 (of_le (take 8 (drop 5 packetHead))) in
        if (dataLength <? 0) || (maxDataLength <? dataLength) then Failed
        else match readData (Z.to_nat dataLength) r with
             | None => Failed
             | Some (d, _) =>
                 match splitData (filled (Z.to_nat dataLength) d) with
                 | None => Crashed
                 | Some (_, _, Some _) => Failed
                 | Some (key, args, None) => Decoded (mkPacketStruct version key args)
                 end
             end
  end.

(** The message or the text of an error. *)
Definition encodeReply (message : bytes) (inputError : option bytes) : bytes :=
  let message := match inputError with
                 | Some e => str "ZBX_NOTSUPPORTED" ++ [0] ++ e ++ str "."
                 | None => message
                 end in
  let encodedPacket := replicate (13 + length message) 0 in
  let encodedPacket := copyAt encodedPacket 0 header in
  let encodedPacket := <[4%nat := 1]> encodedPacket in
  let encodedPacket := copyAt encodedPacket 5 (le 8 (Z.of_nat (length message))) in
  copyAt encodedPacket 13 message.

(** The answer to an item: its value, or an error with what the callback
    returned beside it. *)
Abbreviation callback := (bytes → list bytes → bytes * option bytes).

(** The bytes written on the connection, nothing when it is closed at once,
    [None] when the process panics. *)
Definition handleConnection (c : list bytes) (cb : callback) : option (option bytes) :=
  match decode c with
  | Crashed => None
  | Failed => Some None
  | Decoded p => let '(answer, err) := cb (pKey p) (pArgs p) in
                 Some (Some (encodeReply answer err))
  end.

(** ** The cases of the repository's tests (zabbix/zabbix_test.go) *)
(** The double quotes are written as single ones. *)
Definition req (s : string) : bytes := (λ b, if b =? 39 then quote else b) <$> str s.

Definition accepts (s : string) (args : list string) : bool :=
  bool_decide (splitData (req s) = Some (str "key", req <$> args, None)).

Definition rejects (s : string) (e : zabbixError) : bool :=
  bool_decide (snd <$> splitData (req s) = Some (Some e)).

Example splitData_accepts :
  forallb id [accepts "key[]" [""];
    accepts "key[a]" ["a"];
    accepts "key['']" [""];
    accepts "key[ ]" [""];
    accepts "key[ '']" [""];
    accepts "key[ '' ]" [""];
    accepts "key[ a]" ["a"];
    accepts "key[ a ]" ["a"];
    accepts "key['a']" ["a"];
    accepts "key['a',]" ["a"; ""];
    accepts "key[a,]" ["a"; ""];
    accepts "key[a,b,c]" ["a"; "b"; "c"];
    accepts "key['a','b','c']" ["a"; "b"; "c"];
    accepts "key[a,[b,c]]" ["a"; "b,c"];
    accepts "key[a,[b,]]" ["a"; "b,"];
    accepts "key[a,b[c]" ["a"; "b[c"];
    accepts "key['a','b',['c','d\',]']]" ["a"; "b"; "'c','d\',]'"];
    accepts "key['a','b',['c','d\',]'],[e,f]]" ["a"; "b"; "'c','d\',]'"; "e,f"];
    accepts "key[a'b']" ["a'b'"];
    accepts "key['a',b'c',d]" ["a"; "b'c'"; "d"];
    accepts "key['\'aaa\'',b,'' , ' ',ccc]" ["'aaa'"; "b"; ""; ""; "ccc"]] = true.
Proof. vm_compute. reflexivity. Qed.

Example splitData_rejects :
  forallb id [rejects "key[['a',]" EUnmatchedOpeningBracket;
    rejects "key[[a']']" EUnmatchedOpeningBracket;
    rejects "key[['a','\'b\']']" EUnmatchedOpeningBracket;
    rejects "key['a',['b','c\']']]]" EUnmatchedClosingBracket;
    rejects "key[a ]]" EClosingBracketNotAllowed;
    rejects "key[ a]]" EClosingBracketNotAllowed;
    rejects "key[abca]654" EMissingClosingBracket;
    rejects "{}key" EIllegalBraces;
    rejects "ssh,21" ECommaButNotArgs;
    rejects "key[][]" EClosingBracketNotAllowed;
    rejects "key['a',b,['c','d\',]']]['d']" EUnmatchedClosingBracket;
    rejects "key[[[]]]" EMultiArrayNotAllowed;
    rejects "key['a',['b',['c','d'],e],'f']" EMultiArrayNotAllowed;
    rejects "key['a','b',[['c','d\',]']]]" EMultiArrayNotAllowed;
    rejects "key[a]]" EClosingBracketNotAllowed;
    rejects "key[a[b]]" EClosingBracketNotAllowed;
    rejects "key['a',b[c,d],e]" EClosingBracketNotAllowed;
    rejects "key['a'b]" EQuotedParamContainsUnquoted;
    rejects "key['a',['b',']'c]]" EQuotedParamContainsUnquoted;
    rejects "key[[']'a]]" EQuotedParamContainsUnquoted;
    rejects "key[[a]'b']" EUnmatchedOpeningBracket] = true.
Proof. vm_compute. reflexivity. Qed.

(** * Theorems *)
(** ** Well-formed item keys *)
Inductive param :=
  | Plain (text : bytes)
  | Quoted (text : bytes)
  | Array (text : bytes).

Definition render (p : param) : bytes :=
  match p with
  | Plain t => t
  | Quoted t => [quote] ++ t ++ [quote]
  | Array t => [lbracket] ++ t ++ [rbracket]
  end.

Definition value (p : param) : bytes := match p with Plain t | Quoted t | Array t => t end.

Fixpoint renderAll (ps : list param) : bytes :=
  match ps with
  | [] => []
  | [p] => render p
  | p :: ps => render p ++ [comma] ++ renderAll ps
  end.

Definition item (key : bytes) (ps : list param) : bytes :=
  key ++ [lbracket] ++ renderAll ps ++ [rbracket].

(** The characters a text may not have. *)
Definition lacks (cs : list Z) (t : bytes) : Prop := Forall (λ c, c ∉ cs) t.

Definition wellFormed (p : param) : Prop :=
  lacks [space; lbrace; rbrace] (value p) ∧
  match p with
  | Plain t => lacks [comma; rbracket; quote] t ∧ head t ≠ Some lbracket
  | Quoted t => lacks [comma; rbracket; quote; backslash] t
  | Array t => lacks [lbracket; rbracket; quote] t
  end.

Lemma sub_mid (s a b c : bytes) (i j : nat) :
  s = a ++ b ++ c → i = length a → j = (length a + length b)%nat → sub s i j = Some b.
Proof.
  intros -> -> ->. unfold sub. rewrite bool_decide_eq_true_2.
  - rewrite drop_app_length. replace (_ + length b - _)%nat with (length b) by lia.
    by rewrite take_app_length.
  - rewrite !length_app. lia.
Qed.

Lemma contains_lacks (c : Z) (cs : list Z) (s : bytes) :
  lacks cs s → c ∈ cs → contains c s = false.
Proof.
  intros Hs Hc. apply not_true_iff_false. unfold contains. rewrite existsb_exists.
  intros (x & Hx%list_elem_of_In & Heq%Z.eqb_eq). subst x.
  unfold lacks in Hs. rewrite Forall_forall in Hs. by apply (Hs c).
Qed.

Lemma lastIndex_snoc (c : Z) (s : bytes) : lastIndex c (s ++ [c]) = Some (length s).
Proof. induction s as [|x s IH]; simpl; [by rewrite Z.eqb_refl|by rewrite IH]. Qed.

Lemma index_app (c : Z) (a b : bytes) : lacks [c] a → index c (a ++ [c] ++ b) = Some (length a).
Proof.
  induction 1 as [|x a Hx _ IH]; [by simpl; rewrite Z.eqb_refl|].
  cbn [app index] in *. rewrite (proj2 (Z.eqb_neq _ _)), IH by set_solver. done.
Qed.

Lemma lacks_elem (cs : list Z) (s : bytes) (c : Z) : lacks cs s → c ∈ cs → c ∉ s.
Proof. intros H Hc Hs. unfold lacks in H. rewrite Forall_forall in H. by apply (H c). Qed.

Lemma remove_lacks (c : Z) (cs : list Z) (s : bytes) : lacks cs s → c ∈ cs → remove c s = s.
Proof.
  intros H Hc. unfold remove. induction H as [|x s Hx _ IH]; [done|].
  rewrite filter_cons_True, IH by set_solver. done.
Qed.


(** ** The loop *)
(** Characters without a meaning are skipped. *)
Lemma params_run (key ja text rest : bytes) (k j : nat) (args : list bytes) :
  lacks [comma; rbracket] text → (j < k)%nat ∨ head text ≠ Some lbracket →
  (j ≤ k)%nat →
  splitLoop key ja (text ++ rest) k j false args
  = splitLoop key ja rest (k + length text) j false args.
Proof.
  intros Ht. revert k. induction Ht as [|c text Hc _ IH]; intros k Hh Hjk.
  { simpl. by rewrite Nat.add_0_r. }
  simpl. unfold inParams. rewrite (proj2 (Z.eqb_neq c comma)) by set_solver.
  rewrite (proj2 (Z.eqb_neq c rbracket)) by set_solver.
  assert ((c =? lbracket) && bool_decide (j = k) = false) as ->.
  { apply andb_false_iff. destruct Hh as [Hh|Hh]; [right; case_bool_decide; lia || done|].
    left. apply Z.eqb_neq. simpl in Hh. congruence. }
  rewrite IH by lia. f_equal. lia.
Qed.

(** In an array nothing but a bracket has a meaning. *)
Lemma array_run (key ja pre text rest : bytes) (x : Z) (j : nat) (args : list bytes) :
  lacks [lbracket; rbracket] text → ja = pre ++ x :: text ++ rest → x ≠ rbracket →
  splitLoop key ja (text ++ rest) (S (length pre)) j true args
  = splitLoop key ja rest (S (length pre) + length text) j true args.
Proof.
  intros Ht. revert pre x. induction Ht as [|c text Hc _ IH]; intros pre x Hja Hx.
  { simpl. by rewrite Nat.add_0_r. }
  cbn [app splitLoop]. unfold inArray.
  rewrite (proj2 (Z.eqb_neq c lbracket)), (proj2 (Z.eqb_neq c rbracket)) by set_solver.
  rewrite bool_decide_eq_true_2 by done. cbn [negb andb].
  rewrite (proj2 (Z.eqb_neq 0 rbracket)) by done.
  rewrite (sub_mid ja pre [x; c] (text ++ rest)); [|by subst|lia|simpl; lia].
  rewrite bool_decide_eq_false_2 by congruence.
  assert (S (length pre) = length (pre ++ [x])) as -> by (rewrite length_app; simpl; lia).
  rewrite (IH (pre ++ [x]) c); [|by subst; rewrite <-app_assoc|set_solver].
  f_equal. simpl. lia.
Qed.

Lemma quotedThenUnquoted_quoted (t : bytes) :
  quotedThenUnquoted ([quote] ++ t ++ [quote]) = false.
Proof.
  unfold quotedThenUnquoted. rewrite app_assoc, lastIndex_snoc.
  rewrite bool_decide_eq_true_2; [apply andb_false_r|].
  f_equal. rewrite !length_app. simpl. lia.
Qed.

Lemma quotedThenUnquoted_lacks (cs : list Z) (t : bytes) :
  lacks cs t → quote ∈ cs → quotedThenUnquoted t = false.
Proof. intros Ht Hq. unfold quotedThenUnquoted. by rewrite (contains_lacks quote cs). Qed.

Lemma lacks_sub (cs cs' : list Z) (t : bytes) : lacks cs t → cs' ⊆ cs → lacks cs' t.
Proof. intros H Hs. eapply Forall_impl; [exact H|]. set_solver. Qed.

Lemma lacks_quoted (t : bytes) :
  lacks [comma; rbracket] t → lacks [comma; rbracket] ([quote] ++ t ++ [quote]).
Proof.
  intros H. apply Forall_app. split; [apply Forall_singleton; set_solver|].
  apply Forall_app. split; [done|]. apply Forall_singleton. set_solver.
Qed.

(** The closing bracket of an array that is followed by a comma. *)
Lemma array_comma (key ja pre t rest : bytes) (args : list bytes) :
  ja = pre ++ [lbracket] ++ t ++ [rbracket; comma] ++ rest →
  let k := length pre in
  splitLoop key ja ([rbracket; comma] ++ rest) (S k + length t) (k + 1) true args
  = splitLoop key ja rest (k + length t + 3) (k + length t + 3) false (args ++ [t]).
Proof.
  intros Hja k. set (i := (S k + length t)%nat).
  destruct (exists_last (l := pre ++ [lbracket] ++ t)) as (q & y & Hq); [by destruct pre|].
  assert (length q = (i - 1)%nat) as Hlq.
  { apply (f_equal length) in Hq. rewrite !length_app in Hq. simpl in Hq. unfold i, k. lia. }
  assert (ja = q ++ [y; rbracket] ++ comma :: rest) as Hja1.
  { subst ja. rewrite (app_assoc [lbracket]), (app_assoc pre), Hq, <-app_assoc. done. }
  assert (ja = (q ++ [y]) ++ [rbracket; comma] ++ rest) as Hja2 by (by rewrite Hja1, <-app_assoc).
  cbn [app splitLoop]. unfold inArray.
  change (rbracket =? lbracket) with false. rewrite Z.eqb_refl.
  rewrite bool_decide_eq_true_2 by done. cbn [negb].
  rewrite (bool_decide_eq_false_2 (i = (length ja - 1)%nat)).
  2:{ rewrite Hja1, !length_app. simpl. unfold i. lia. }
  cbn [andb]. assert (ja !! (i + 1)%nat = Some comma) as ->.
  { rewrite Hja2, lookup_app_r by (rewrite length_app; simpl; unfold i; lia).
    rewrite length_app. simpl (length [y]). by replace (i + 1 - (length q + 1))%nat with 1%nat
      by (unfold i in *; lia). }
  change (comma =? rbracket) with false. cbv iota.
  rewrite (sub_mid ja q [y; rbracket] (comma :: rest)); [|done|by rewrite Hlq|simpl; unfold i in *; lia].
  rewrite bool_decide_eq_false_2 by (intros Heq; by apply (f_equal (λ l, l !! 1%nat)) in Heq).
  change (comma =? lbracket) with false. cbn [negb andb].
  change (0 =? rbracket) with false. cbv iota.
  rewrite (sub_mid ja (q ++ [y]) [rbracket; comma] rest);
    [|done|rewrite length_app; simpl; unfold i in *; lia..].
  rewrite bool_decide_eq_true_2 by done.
  rewrite (sub_mid ja (pre ++ [lbracket]) t ([rbracket; comma] ++ rest)).
  - unfold i. f_equal; lia.
  - subst ja. by rewrite <-app_assoc.
  - rewrite length_app. done.
  - rewrite length_app. simpl. unfold i, k. lia.
Qed.

(** ** Parameters *)
Lemma param_comma (key ja pre rest : bytes) (p : param) (args : list bytes) :
  wellFormed p → ja = pre ++ render p ++ comma :: rest →
  let k := length pre in let k' := (k + length (render p) + 1)%nat in
  splitLoop key ja (render p ++ comma :: rest) k k false args
  = splitLoop key ja rest k' k' false (args ++ [value p]).
Proof.
  intros [_ Hwf] Hja k k'. destruct p as [t|t|t]; cbn [render value] in *.
  - destruct Hwf as [Ht Hh].
    rewrite params_run; [|by eapply lacks_sub; [exact Ht|set_solver]|by right|done].
    cbn [splitLoop]. unfold inParams. change (comma =? lbracket) with false.
    rewrite Z.eqb_refl. cbn [andb].
    rewrite (sub_mid ja pre t (comma :: rest)) by done.
    rewrite (quotedThenUnquoted_lacks _ t Ht), (contains_lacks _ _ t Ht) by set_solver.
    cbn [andb]. unfold k'. f_equal; simpl; lia.
  - rewrite params_run; [|by apply lacks_quoted; eapply lacks_sub; [exact Hwf|set_solver]|by right|done].
    cbn [splitLoop]. unfold inParams. change (comma =? lbracket) with false.
    rewrite Z.eqb_refl. cbn [andb].
    rewrite (sub_mid ja pre ([quote] ++ t ++ [quote]) (comma :: rest)) by done.
    rewrite quotedThenUnquoted_quoted.
    rewrite (bool_decide_eq_true_2 (ja !! k = Some quote))
      by (subst ja; rewrite lookup_app_r, Nat.sub_diag by done; done).
    cbn [contains app existsb]. rewrite Z.eqb_refl. cbn [orb andb].
    rewrite (sub_mid ja (pre ++ [quote]) t ([quote] ++ comma :: rest)).
    + rewrite (remove_lacks _ _ t Hwf) by set_solver. unfold k'. f_equal; simpl; lia.
    + subst ja. by rewrite <-!app_assoc.
    + rewrite length_app. simpl. lia.
    + unfold k. simpl. rewrite !length_app. simpl. lia.
  - cbn [app splitLoop]. unfold inParams at 1. rewrite Z.eqb_refl, bool_decide_eq_true_2 by done.
    cbn [andb]. change (lbracket =? comma) with false. change (lbracket =? rbracket) with false.
    cbv iota. rewrite <-app_assoc.
    rewrite (array_run key ja pre t ([rbracket] ++ comma :: rest) lbracket);
      [|by eapply lacks_sub; [exact Hwf|set_solver]|by subst ja; rewrite <-!app_assoc|done].
    rewrite (array_comma key ja pre t rest); [|subst ja; by rewrite <-!app_assoc].
    unfold k', k. f_equal; simpl; rewrite length_app; simpl; lia.
Qed.

(** The last parameter ends with the string; an empty one needs the comma that
    announced it. *)
Lemma param_last (key ja pre : bytes) (p : param) (args : list bytes) :
  wellFormed p → ja = pre ++ render p → ja ≠ [] → (render p = [] → last pre = Some comma) →
  splitLoop key ja (render p) (length pre) (length pre) false args
  = Some (key, args ++ [value p], None).
Proof.
  intros [_ Hwf] Hja Hne Hlast. destruct p as [t|t|t]; cbn [render value] in *.
  - destruct Hwf as [Ht Hh]. rewrite <-(app_nil_r t) at 1.
    rewrite params_run; [|by eapply lacks_sub; [exact Ht|set_solver]|by right|done].
    cbn [splitLoop]. unfold lastParam. destruct t as [|c t].
    + rewrite bool_decide_eq_true_2 by (subst ja; by rewrite app_nil_r).
      subst ja. rewrite app_nil_r in *. specialize (Hlast eq_refl).
      rewrite last_lookup in Hlast. replace (pred (length pre)) with (length pre - 1)%nat in Hlast by lia.
      by rewrite Hlast.
    + rewrite bool_decide_eq_false_2 by (subst ja; rewrite length_app; simpl; lia).
      rewrite (sub_mid ja pre (c :: t) [] (length pre) (length ja)); [|by rewrite app_nil_r|done|by subst ja; rewrite length_app].
      cbn [mbind option_bind]. by rewrite (contains_lacks _ _ _ Ht) by set_solver.
  - rewrite <-(app_nil_r ([quote] ++ t ++ [quote])) at 1.
    rewrite params_run; [|by apply lacks_quoted; eapply lacks_sub; [exact Hwf|set_solver]|by right|done].
    cbn [splitLoop]. unfold lastParam.
    rewrite bool_decide_eq_false_2 by (subst ja; rewrite !length_app; simpl; lia).
    rewrite (sub_mid ja pre ([quote] ++ t ++ [quote]) [] (length pre) (length ja));
      [|by rewrite app_nil_r|done|by subst ja; rewrite !length_app].
    cbn [mbind option_bind contains app existsb]. rewrite Z.eqb_refl. cbn [orb].
    assert (lastIndex quote ja = Some (length ja - 1)%nat) as ->.
    { subst ja. rewrite !app_assoc, lastIndex_snoc. f_equal. rewrite !length_app. simpl. lia. }
    rewrite bool_decide_eq_true_2 by done. cbn [negb].
    rewrite bool_decide_eq_true_2
      by (subst ja; rewrite lookup_app_r, Nat.sub_diag by done; done).
    rewrite (sub_mid ja (pre ++ [quote]) t [quote]); [done|..].
    + subst ja. by rewrite <-!app_assoc.
    + rewrite length_app. done.
    + subst ja. rewrite !length_app. simpl. lia.
  - cbn [app splitLoop]. unfold inParams at 1. rewrite Z.eqb_refl, bool_decide_eq_true_2 by done.
    cbn [andb]. change (lbracket =? comma) with false. change (lbracket =? rbracket) with false.
    cbv iota.
    rewrite (array_run key ja pre t [rbracket] lbracket);
      [|by eapply lacks_sub; [exact Hwf|set_solver]|by subst ja|done].
    cbn [splitLoop]. unfold inArray. change (rbracket =? lbracket) with false. rewrite Z.eqb_refl.
    rewrite bool_decide_eq_true_2 by done. cbn [negb andb].
    assert (length ja = (length pre + length t + 2)%nat) as Hl
      by (subst ja; rewrite !length_app; simpl; lia).
    rewrite bool_decide_eq_true_2 by lia.
    rewrite (sub_mid ja (pre ++ [lbracket]) t [rbracket]).
    + rewrite (quotedThenUnquoted_lacks _ t Hwf) by set_solver.
      unfold lastParam. rewrite bool_decide_eq_true_2 by lia.
      assert (ja !! (length ja - 1)%nat = Some rbracket) as ->; [|done].
      { replace (length ja - 1)%nat with (pred (length ja)) by lia. rewrite <-last_lookup.
        subst ja. by rewrite !app_assoc, last_snoc. }
    + subst ja. by rewrite <-!app_assoc.
    + rewrite length_app. simpl. lia.
    + rewrite length_app. simpl. lia.
Qed.

Lemma params_all (key ja pre : bytes) (ps : list param) (args : list bytes) :
  Forall wellFormed ps → ps ≠ [] → ja = pre ++ renderAll ps → ja ≠ [] →
  (pre = [] ∨ last pre = Some comma) →
  (renderAll ps = [] → pre ≠ []) →
  splitLoop key ja (renderAll ps) (length pre) (length pre) false args
  = Some (key, args ++ (value <$> ps), None).
Proof.
  intros Hwf. revert pre args. induction Hwf as [|p ps Hp Hps IH]; intros pre args Hne Hja Hja0 Hpre He;
    [done|].
  destruct ps as [|q ps].
  - simpl in *. apply param_last; [done|done|done|]. intros Hr. destruct Hpre as [->|]; [|done].
    by destruct (He Hr).
  - change (renderAll (p :: q :: ps)) with (render p ++ comma :: renderAll (q :: ps)) in *.
    rewrite (param_comma key ja pre (renderAll (q :: ps)) p args) by done.
    set (pre' := pre ++ render p ++ [comma]).
    assert (length pre + length (render p) + 1 = length pre')%nat as ->
      by (unfold pre'; rewrite !length_app; simpl; lia).
    rewrite IH; [by rewrite <-app_assoc|done| |done| |].
    + unfold pre'. by rewrite <-!app_assoc.
    + right. unfold pre'. by rewrite app_assoc, last_snoc.
    + intros _. unfold pre'. by destruct pre, (render p).
Qed.

(** ** From the wire to the callback *)
Lemma lacks_app (cs : list Z) (a b : bytes) : lacks cs (a ++ b) ↔ lacks cs a ∧ lacks cs b.
Proof. apply Forall_app. Qed.

Lemma lacks_const (cs l : list Z) : bool_decide (lacks cs l) = true → lacks cs l.
Proof. apply bool_decide_eq_true_1. Qed.

Lemma render_lacks (p : param) : wellFormed p → lacks [space; lbrace; rbrace] (render p).
Proof.
  intros [H _]. destruct p as [t|t|t]; simpl in *; [done|..];
    (apply Forall_cons_2; [set_solver|apply lacks_app; split; [done|by apply lacks_const]]).
Qed.

Lemma renderAll_lacks (ps : list param) :
  Forall wellFormed ps → lacks [space; lbrace; rbrace] (renderAll ps).
Proof.
  induction 1 as [|p ps Hp Hps IH]; [constructor|].
  apply render_lacks in Hp. destruct ps as [|q ps]; [done|].
  change (lacks [space; lbrace; rbrace] (render p ++ [comma] ++ renderAll (q :: ps))).
  rewrite !lacks_app. split_and!; [done|by apply lacks_const|done].
Qed.

Lemma renderAll_nil (ps : list param) :
  ps ≠ [] → renderAll ps = [] → ps = [Plain []].
Proof.
  destruct ps as [|p [|q ps]]; [done| |].
  - intros _. destruct p as [[]|t|t]; by simpl.
  - intros _ H. change (renderAll (p :: q :: ps)) with (render p ++ [comma] ++ renderAll (q :: ps)) in H.
    by destruct (render p).
Qed.

Lemma splitData_item (key : bytes) (ps : list param) :
  lacks [lbracket; space; lbrace; rbrace] key → Forall wellFormed ps → ps ≠ [] →
  splitData (item key ps) = Some (key, value <$> ps, None).
Proof.
  intros Hk Hps Hne. set (ja := renderAll ps).
  assert (lacks [space; lbrace; rbrace] (item key ps)) as Hall.
  { unfold item. rewrite !lacks_app.
    split_and!; [by eapply lacks_sub; [exact Hk|set_solver]| |by apply renderAll_lacks|];
      by apply lacks_const. }
  unfold splitData.
  rewrite (contains_lacks lbrace _ _ Hall), (contains_lacks rbrace _ _ Hall) by set_solver.
  cbn [orb]. unfold item at 1. rewrite index_app by (by eapply lacks_sub; [exact Hk|set_solver]).
  rewrite (remove_lacks space _ _ Hall) by set_solver. unfold item. fold ja. cbv zeta.
  set (l := key ++ [lbracket] ++ ja ++ [rbracket]).
  assert (length l = length key + length ja + 2)%nat as Hl
    by (unfold l; rewrite !length_app; simpl; lia).
  rewrite (sub_mid l [] key ([lbracket] ++ ja ++ [rbracket]) 0 (length key)) by done. cbn [mbind option_bind].
  assert (l !! (length l - 1)%nat = Some rbracket) as ->.
  { replace (length l - 1)%nat with (pred (length l)) by lia. rewrite <-last_lookup.
    unfold l. by rewrite !app_assoc, last_snoc. }
  cbn [mbind option_bind]. rewrite Z.eqb_refl. cbn [negb].
  rewrite (sub_mid l (key ++ [lbracket]) ja [rbracket]);
    [|unfold l; by rewrite <-app_assoc|by rewrite length_app|rewrite length_app; simpl; lia].
  cbn [mbind option_bind]. destruct (decide (ja = [])) as [He|He].
  - rewrite He. rewrite bool_decide_eq_true_2 by done.
    apply renderAll_nil in He as ->; done.
  - rewrite bool_decide_eq_false_2 by (by destruct ja).
    apply (params_all key ja [] ps []); auto.
Qed.

Lemma encodeReply_layout (m : bytes) :
  encodeReply m None = header ++ [1] ++ le 8 (Z.of_nat (length m)) ++ m.
Proof.
  unfold encodeReply. set (n := length m). set (len := le 8 (Z.of_nat n)).
  assert (length len = 8%nat) as Hlen by apply le_length.
  assert (replicate (13 + n) 0 = [0; 0; 0; 0] ++ [0] ++ replicate 8 0 ++ replicate n 0) as ->
    by (by rewrite replicate_add).
  rewrite (copyAt_split _ [] [0; 0; 0; 0] header ([0] ++ replicate 8 0 ++ replicate n 0)) by done.
  change (<[4%nat := 1]> ([] ++ header ++ [0] ++ replicate 8 0 ++ replicate n 0))
    with (header ++ [1] ++ replicate 8 0 ++ replicate n 0).
  rewrite (copyAt_split _ (header ++ [1]) (replicate 8 0) len (replicate n 0))
    by (done || by rewrite <-app_assoc).
  rewrite (copyAt_split _ (header ++ [1] ++ len) (replicate n 0) m []).
  - by rewrite app_nil_r, <-!app_assoc.
  - by rewrite app_nil_r, <-!app_assoc.
  - by rewrite !length_app, Hlen.
  - by rewrite length_replicate.
Qed.

Lemma decode_frame (m : bytes) :
  Z.of_nat (length m) ≤ maxDataLength →
  decode [encodeReply m None]
  = match splitData m with
    | None => Crashed
    | Some (_, _, Some _) => Failed
    | Some (key, args, None) => Decoded (mkPacketStruct 1 key args)
    end.
Proof.
  intros Hm. unfold maxDataLength in Hm. rewrite encodeReply_layout.
  set (len := le 8 (Z.of_nat (length m))). set (hd := header ++ [1] ++ len).
  assert (length len = 8%nat) as Hlen by apply le_length.
  assert (length hd = 13%nat) as Hhd by (unfold hd; by rewrite !length_app, Hlen).
  replace (header ++ [1] ++ len ++ m) with (hd ++ m) by (unfold hd; by rewrite <-!app_assoc).
  unfold decode.
  assert (read 13 [hd ++ m] = Some (hd, match m with [] => [] | _ => [m] end)) as ->.
  { cbn [read]. rewrite take_app_length' by done. rewrite drop_app_length' by done.
    destruct (hd ++ m) eqn:He; [by destruct hd|]. by destruct m. }
  assert (filled 13 hd = hd) as -> by (unfold filled; rewrite Hhd; apply app_nil_r).
  assert (take 4 hd = header) as -> by done.
  rewrite bool_decide_eq_true_2 by done. cbn [negb].
  change (take 1 (drop 4 hd)) with [1]. change (drop 5 hd) with len.
  rewrite take_ge by lia. unfold len. rewrite of_le_le.
  change (256 ^ Z.of_nat 8) with (2 ^ 64). rewrite Z.mod_small by lia.
  rewrite Int.int64_id by (unfold Int.minInt64, Int.maxInt64; lia).
  destruct (Z.ltb_spec (Z.of_nat (length m)) 0); [lia|].
  destruct (Z.ltb_spec maxDataLength (Z.of_nat (length m))); [unfold maxDataLength in *; lia|].
  cbn [orb]. rewrite Nat2Z.id. unfold readData. destruct m as [|x m]; [done|].
  rewrite bool_decide_eq_false_2 by done. cbn [read].
  rewrite take_ge by done. unfold filled. by rewrite Nat.sub_diag, app_nil_r.
Qed.

(** Every well-formed item request is served: a key with parameters,
    plain, quoted or arrays, sent in one packet reaches the callback as that
    key and the texts of those parameters, in order, and the reply is the frame
    of what the callback answers. *)
Theorem handleConnection_item (key : bytes) (ps : list param) (cb : callback) :
  lacks [lbracket; space; lbrace; rbrace] key → Forall wellFormed ps → ps ≠ [] →
  Z.of_nat (length (item key ps)) ≤ maxDataLength →
  handleConnection [encodeReply (item key ps) None] cb
  = let '(answer, err) := cb key (value <$> ps) in Some (Some (encodeReply answer err)).
Proof.
  intros Hk Hps Hne Hlen. unfold handleConnection.
  rewrite decode_frame, splitData_item by done. done.
Qed.

Definition sampleParams : list param :=
  [Plain (str "/"); Quoted (str "free[0"); Array (str "a,b"); Plain []].

Lemma handleConnection_item_witness :
  handleConnection [encodeReply (item (str "vfs.fs.size") sampleParams) None]
    (λ key args, (key ++ concat args, None))
  = Some (Some (encodeReply (str "vfs.fs.size/free[0a,b") None)).
Proof.
  apply (handleConnection_item (str "vfs.fs.size") sampleParams
           (λ key args, (key ++ concat args, None))).
  - apply (bool_decide_unpack _). vm_compute. reflexivity.
  - repeat constructor; try (apply (bool_decide_unpack _); vm_compute; reflexivity);
      vm_compute; discriminate.
  - discriminate.
  - vm_compute. discriminate.
Defined.






(** Others, where the characters around a bracket are read without a bound or the text of a parameter is a lone quote. *)
Example splitData_panic_samples :
  forallb (λ s, bool_decide (splitData (req s) = None)) ["a [ ]"; "a[']"; "a[',]"; "a[[[]"] = true.
Proof. vm_compute. reflexivity. Qed.
