(* ===== verification/Json.v ===== *)
(** JSON as encoding/json writes it: strings with their escapes, booleans,
    integers and objects.  Used by the registration status, whose size limits
    are on encoded rows. *)
From stdpp Require Export pretty.
From S2P Require Import Prelude Bytes.

#[local] Open Scope list_scope.

Definition hexDigit (n : Z) : Z := if n <? 10 then 48 + n else 87 + n.

(** The bytes of the rune a string starts with, [None] when they are not valid
    UTF-8 (utf8.DecodeRuneInString). *)
Definition between (lo hi b : Z) : bool := (lo <=? b) && (b <=? hi).

Definition runeSize (l : bytes) : option nat :=
  match l with
  | [] => None
  | a :: l =>
      if a <? 128 then Some 1%nat
      else match l with
      | [] => None
      | b :: l =>
          if between 0xC2 0xDF a then if between 0x80 0xBF b then Some 2%nat else None
          else match l with
          | [] => None
          | c :: l =>
              if between 0xE0 0xEF a then
                if between (if a =? 0xE0 then 0xA0 else 0x80) (if a =? 0xED then 0x9F else 0xBF) b
                   && between 0x80 0xBF c
                then Some 3%nat else None
              else match l with
              | [] => None
              | d :: _ =>
                  if between 0xF0 0xF4 a
                     && between (if a =? 0xF0 then 0x90 else 0x80) (if a =? 0xF4 then 0x8F else 0xBF) b
                     && between 0x80 0xBF c && between 0x80 0xBF d
                  then Some 4%nat else None
              end
          end
      end
  end.

Definition escapeByte (b : Z) : bytes :=
  if (b =? 92) || (b =? 34) then [92; b]
  else if b =? 8 then [92; 98]
  else if b =? 12 then [92; 102]
  else if b =? 10 then [92; 110]
  else if b =? 13 then [92; 114]
  else if b =? 9 then [92; 116]
  else if (b <? 32) || (b =? 60) || (b =? 62) || (b =? 38)
  then [92] ++ str "u00" ++ [hexDigit (b / 16); hexDigit (b mod 16)]
  else [b].

(** [fuel] is the number of bytes; each step consumes at least one. *)
Fixpoint jsonChars (fuel : nat) (l : bytes) : bytes :=
  match fuel, l with
  | S fuel, b :: rest =>
      match runeSize l with
      | None => [92] ++ str "ufffd" ++ jsonChars fuel rest
      | Some 1%nat => escapeByte b ++ jsonChars fuel rest
      | Some n =>
          (if bool_decide (take 3 l = [0xE2; 0x80; 0xA8]) then [92] ++ str "u2028"
           else if bool_decide (take 3 l = [0xE2; 0x80; 0xA9]) then [92] ++ str "u2029"
           else take n l) ++ jsonChars fuel (drop n l)
      end
  | _, _ => []
  end.

Definition jsonString (s : string) : bytes :=
  [34] ++ jsonChars (String.length s) (str s) ++ [34].

Definition jsonBool (b : bool) : bytes := if b then str "true" else str "false".

Definition jsonInt (z : Z) : bytes := str (pretty z).

(** Values separated by commas. *)
Fixpoint jsonJoin (vs : list bytes) : bytes :=
  match vs with
  | [] => []
  | [v] => v
  | v :: vs => v ++ [44] ++ jsonJoin vs
  end.

Definition jsonField (f : string * bytes) : bytes := jsonString f.1 ++ [58] ++ f.2.

Definition jsonObject (fs : list (string * bytes)) : bytes :=
  [123] ++ jsonJoin (jsonField <$> fs) ++ [125].

Definition jsonArray (rows : list bytes) : bytes := [91] ++ jsonJoin rows ++ [93].

Example jsonObject_sample :
  jsonObject [("a", jsonString "x<y"); ("b", jsonBool true); ("c", jsonInt (-12))]
  = [123; 34; 97; 34; 58; 34; 120; 92] ++ str "u003c" ++ [121; 34; 44; 34; 98; 34; 58]
    ++ str "true" ++ [44; 34; 99; 34; 58] ++ str "-12" ++ [125].
Proof. vm_compute. reflexivity. Qed.

(** * Sizes *)
Lemma jsonString_length (s : string) : (2 ≤ length (jsonString s))%nat.
Proof. unfold jsonString. rewrite !length_app. simpl. lia. Qed.

Lemma jsonBool_length (b : bool) : (4 ≤ length (jsonBool b))%nat.
Proof. destruct b; vm_compute; lia. Qed.

(** ** Decimal numbers *)
Definition isDigit (b : Z) : Prop := 48 ≤ b ≤ 57.

Lemma str_cons (c : Ascii.ascii) (s : string) : str (String c s) = Z.of_N (N_of_ascii c) :: str s.
Proof. done. Qed.

Lemma pretty_N_char_digit (x : N) : isDigit (Z.of_N (N_of_ascii (pretty_N_char x))).
Proof. unfold pretty_N_char, isDigit. destruct x as [|[[[[]|[]|]|[[]|[]|]|]|[[[]|[]|]|[[]|[]|]|]|]]; vm_compute; split; done. Qed.

Lemma pretty_N_go_digits (x : N) (s : string) :
  Forall isDigit (str s) →
  Forall isDigit (str (pretty_N_go x s)) ∧ (x ≠ 0%N → str (pretty_N_go x s) ≠ []) ∧ (str s ≠ [] → str (pretty_N_go x s) ≠ []).
Proof.
  revert s. induction (N.lt_wf_0 x) as [x _ IH]. intros s Hs.
  destruct (decide (x = 0%N)) as [->|Hx]; [by rewrite pretty_N_go_0|].
  rewrite pretty_N_go_step by lia.
  assert (Forall isDigit (str (String (pretty_N_char (x `mod` 10)) s))) as Hs'
    by (rewrite str_cons; constructor; [apply pretty_N_char_digit|done]).
  destruct (IH (x `div` 10)%N (N.div_lt x 10 ltac:(lia) ltac:(lia)) _ Hs') as (H1 & _ & H3).
  split_and!; [done|intros _; by apply H3|intros _; by apply H3].
Qed.

Lemma pretty_N_digits (x : N) : Forall isDigit (str (pretty x)) ∧ str (pretty x) ≠ [].
Proof.
  unfold pretty, pretty_N. destruct (decide (x = 0%N)) as [->|Hx].
  - split; [by repeat constructor|done].
  - destruct (pretty_N_go_digits x "" ltac:(constructor)) as (? & ? & _). auto.
Qed.

(** A sign and digits. *)
Lemma jsonInt_chars (z : Z) : Forall (λ b, b = 45 ∨ isDigit b) (jsonInt z) ∧ jsonInt z ≠ [].
Proof.
  unfold jsonInt. destruct z as [|p|p]; unfold pretty, pretty_Z.
  - split; [|done]. constructor; [right; unfold isDigit; vm_compute; done|constructor].
  - destruct (pretty_N_digits (Npos p)) as [H1 H2]. split; [|done]. eapply Forall_impl; [exact H1|]. auto.
  - destruct (pretty_N_digits (Npos p)) as [H1 H2].
    change (str ("-" +:+ pretty p)) with (45 :: str (pretty (N.pos p))). split; [|done].
    constructor; [by left|]. eapply Forall_impl; [exact H1|]. auto.
Qed.

Lemma jsonInt_length (z : Z) : (1 ≤ length (jsonInt z))%nat.
Proof. destruct (jsonInt_chars z) as [_ H]. destruct (jsonInt z); [done|simpl; lia]. Qed.

Definition sumLength (vs : list bytes) : nat := sum_list_with length vs.

Lemma sumLength_cons (v : bytes) (vs : list bytes) :
  sumLength (v :: vs) = (length v + sumLength vs)%nat.
Proof. done. Qed.

Lemma jsonJoin_length (vs : list bytes) :
  length (jsonJoin vs) = (sumLength vs + (length vs - 1))%nat.
Proof.
  induction vs as [|v vs IH]; [done|]. destruct vs as [|w vs]; [simpl; lia|].
  change (jsonJoin (v :: w :: vs)) with (v ++ [44] ++ jsonJoin (w :: vs)).
  rewrite !length_app, IH. unfold sumLength. simpl. lia.
Qed.

Lemma jsonArray_length (rows : list bytes) :
  length (jsonArray rows) = (2 + sumLength rows + (length rows - 1))%nat.
Proof. unfold jsonArray. rewrite !length_app, jsonJoin_length. simpl. lia. Qed.

(** An object with the same names is at least as long as its values make it. *)
Lemma jsonObject_length (names : list string) (vs : list bytes) :
  length names = length vs →
  length (jsonObject (zip names vs))
  = (2 + sumLength (jsonString <$> names) + length names + sumLength vs + (length names - 1))%nat.
Proof.
  intros Hl. unfold jsonObject. rewrite !length_app, jsonJoin_length, length_fmap, length_zip_with.
  rewrite Hl, Nat.min_id.
  assert (sumLength (jsonField <$> zip names vs)
    = (sumLength (jsonString <$> names) + length vs + sumLength vs)%nat) as ->.
  { revert vs Hl. induction names as [|n names IH]; intros [|v vs] Hl; try done.
    injection Hl as Hl. change (zip (n :: names) (v :: vs)) with ((n, v) :: zip names vs).
    rewrite !fmap_cons, !sumLength_cons, (IH vs Hl). unfold jsonField. rewrite !length_app.
    simpl. lia. }
  simpl. lia.
Qed.

(** * JSON text has no control character *)
Create HintDb json.

Definition printable (l : bytes) : Prop := Forall (λ b, 32 ≤ b) l.

Lemma str_printable (s : string) : forallb (λ b, 32 <=? b) (str s) = true → printable (str s).
Proof. intros H. apply Forall_forall. intros b Hb. apply Z.leb_le. rewrite forallb_forall in H. by apply H, list_elem_of_In. Qed.

Lemma runeSize_multi (l : bytes) (n : nat) :
  runeSize l = Some n → n ≠ 1%nat → Forall (λ b, 128 ≤ b) (take n l).
Proof.
  intros H Hn. unfold runeSize in H. repeat case_match; simplify_eq;
    repeat match goal with H : _ && _ = true |- _ => apply andb_true_iff in H as [? ?] end.
  all: unfold between in *; simpl; repeat constructor; repeat case_match; lia.
Qed.

Lemma escapeByte_printable (b : Z) : 0 ≤ b → printable (escapeByte b).
Proof.
  intros Hb. unfold escapeByte, printable. pose proof (Z.div_pos b 16). pose proof (Z.mod_pos_bound b 16).
  repeat case_match; repeat apply Forall_app_2; repeat constructor; try lia; try (vm_compute; discriminate);
    unfold hexDigit; case_match; lia.
Qed.

Lemma jsonChars_printable (fuel : nat) (l : bytes) : areBytes l → printable (jsonChars fuel l).
Proof.
  revert l. induction fuel as [|fuel IH]; intros [|b l] Hl; try constructor.
  cbn [jsonChars]. pose proof Hl as [Hb Hl']%Forall_cons. unfold isByte in Hb.
  destruct (runeSize (b :: l)) as [n|] eqn:Hn; [destruct (decide (n = 1%nat)) as [->|Hne]|].
  - apply Forall_app_2; [apply escapeByte_printable; lia|by apply IH].
  - assert (printable ((if bool_decide (take 3 (b :: l) = [0xE2; 0x80; 0xA8]) then [92] ++ str "u2028"
        else if bool_decide (take 3 (b :: l) = [0xE2; 0x80; 0xA9]) then [92] ++ str "u2029"
        else take n (b :: l)) ++ jsonChars fuel (drop n (b :: l)))) as Hp.
    { apply Forall_app_2; [|by apply IH, Forall_drop].
      repeat case_match; [by repeat constructor|by repeat constructor|].
      eapply Forall_impl; [by apply (runeSize_multi _ _ Hn)|]. intros ?; simpl; lia. }
    destruct n as [|[|n]]; [exact Hp|done|exact Hp].
  - repeat apply Forall_app_2; [repeat constructor; lia|by apply str_printable|by apply IH].
Qed.

Lemma jsonString_printable (s : string) : printable (jsonString s).
Proof.
  unfold jsonString. repeat apply Forall_app_2; [repeat constructor; lia| |repeat constructor; lia].
  apply jsonChars_printable, str_areBytes.
Qed.

Lemma jsonBool_printable (b : bool) : printable (jsonBool b).
Proof. destruct b; by apply str_printable. Qed.

Lemma jsonInt_printable (z : Z) : printable (jsonInt z).
Proof. eapply Forall_impl; [apply jsonInt_chars|]. unfold isDigit. intros b [->|?]; lia. Qed.

Lemma jsonJoin_printable (vs : list bytes) : Forall printable vs → printable (jsonJoin vs).
Proof.
  induction 1 as [|v vs Hv Hvs IH]; [constructor|]. destruct vs as [|w vs]; [done|].
  change (printable (v ++ [44] ++ jsonJoin (w :: vs))). repeat apply Forall_app_2; [done|repeat constructor; lia|done].
Qed.

Lemma jsonObject_printable (fs : list (string * bytes)) :
  Forall (λ f, printable f.2) fs → printable (jsonObject fs).
Proof.
  intros H. unfold jsonObject. repeat apply Forall_app_2; [repeat constructor; lia| |repeat constructor; lia].
  apply jsonJoin_printable, Forall_fmap. eapply Forall_impl; [exact H|]. intros [n v] Hv.
  apply Forall_app_2; [apply jsonString_printable|]. apply Forall_app_2; [repeat constructor; lia|done].
Qed.

#[export] Hint Resolve jsonString_printable jsonBool_printable jsonInt_printable : json.
