(* ===== verification/Services.v ===== *)
(** The services of the discovery: what is known of one
    (discovery/common.go [Service], config/types.go [Service]), and the
    comparisons the discovery makes between two versions of the same one
    (discovery/metrics.go [serviceNeedUpdate], discovery/discovery.go
    [usePreviousNetstat]). *)
From S2P Require Import Prelude Labels Float64 Strings.
From stdpp Require Import pretty.

#[local] Open Scope string_scope.
#[local] Open Scope Z_scope.

(** A Go slice: [None] is nil, which [reflect.DeepEqual] tells from an empty one. *)
Notation slice A := (option (list A)) (only parsing).
Definition elems {A : Type} (s : slice A) : list A := default [] s.

(** * Data *)
Record NameInstance := mkNameInstance { niName : string; niInstance : string }.

#[global] Instance NameInstance_eq_dec : EqDecision NameInstance.
Proof. solve_decision. Defined.
#[global] Instance NameInstance_countable : Countable NameInstance.
Proof.
  refine (inj_countable' (λ k, (niName k, niInstance k)) (λ '(n, i), mkNameInstance n i) _).
  by intros [].
Defined.

Definition CustomService : string := "__custom__".
Definition MetricServiceStatus : string := "service_status".

Record JmxMetric := mkJmxMetric {
  jmName : string; jmMBean : string; jmAttribute : string; jmPath : string; jmScale : float64;
  jmDerive : bool; jmSum : bool; jmTypeNames : slice string; jmRatio : string
}.

Record ServiceLogFile := mkServiceLogFile { lfFilePath : string; lfLogFormat : string; lfLogFilter : string }.

(** config.Service *)
Record config := mkConfig {
  cfgType : string; cfgVariant : string; cfgInstance : string;
  cfgPort : Z; cfgIgnorePorts : slice Z; cfgAddress : string; cfgTags : slice string;
  cfgInterval : Z; cfgCheckType : string; cfgHTTPPath : string; cfgHTTPStatusCode : Z;
  cfgHTTPHost : string; cfgMatchProcess : string; cfgCheckCommand : string;
  cfgNagiosNRPEName : string; cfgMetricsUnixSocket : string; cfgUsername : string;
  cfgPassword : string; cfgStatsURL : string; cfgStatsPort : Z; cfgStatsProtocol : string;
  cfgDetailedItems : slice string; cfgJMXPort : Z; cfgJMXUsername : string;
  cfgJMXPassword : string; cfgJMXMetrics : slice JmxMetric;
  cfgSSL : bool; cfgSSLInsecure : bool; cfgStartTLS : bool;
  cfgCAFile : string; cfgCertFile : string; cfgKeyFile : string;
  cfgIncludedItems : slice string; cfgExcludedItems : slice string;
  cfgLogFiles : slice ServiceLogFile; cfgLogFormat : string; cfgLogFilter : string
}.

Definition zeroConfig : config :=
  mkConfig "" "" "" 0 None "" None 0 "" "" 0 "" "" "" "" "" "" "" "" 0 "" None 0 "" "" None
    false false false "" "" "" None None None "" "".

#[global] Instance JmxMetric_eq_dec : EqDecision JmxMetric.
Proof. solve_decision. Defined.
#[global] Instance ServiceLogFile_eq_dec : EqDecision ServiceLogFile.
Proof. solve_decision. Defined.
#[global] Instance config_eq_dec : EqDecision config.
Proof. solve_decision. Defined.

(** facts.ListenAddress *)
Record ListenAddress := mkListenAddress { laNetworkFamily : string; laAddress : string; laPort : Z }.

#[global] Instance ListenAddress_eq_dec : EqDecision ListenAddress.
Proof. solve_decision. Defined.

Definition Network (l : ListenAddress) : string := laNetworkFamily l.

Definition addressString (l : ListenAddress) : string :=
  if bool_decide (laNetworkFamily l = "unix") then laAddress l
  else JoinHostPort (laAddress l) (pretty (laPort l)).

(** facts.ContainerState *)
Inductive ContainerState : Set :=
| ContainerUnknown | ContainerCreated | ContainerRunning | ContainerRestarting | ContainerStopped.

#[global] Instance ContainerState_eq_dec : EqDecision ContainerState.
Proof. solve_decision. Defined.

(** What the discovery reads of a facts.Container. *)
Record Container := mkContainer { ctState : ContainerState; ctPID : Z; ctStoppedAndReplaced : bool }.

Record Service := mkService {
  svConfig : config;
  svName : string;
  svInstance : string;
  svServiceType : string;
  svContainerID : string;
  svContainerName : string;
  svIPAddress : string;
  svListenAddresses : list ListenAddress;
  svExePath : string;
  svActive : bool;
  svCheckIgnored : bool;
  svMetricsIgnored : bool;
  svHasNetstatInfo : bool;
  svLastNetstatInfo : Z;
  svContainer : option Container;
  svLastTimeSeen : Z
}.

Definition keyOf (s : Service) : NameInstance := mkNameInstance (svName s) (svInstance s).

(** * Comparing two versions of a service *)
(** [reflect.DeepEqual] on the numbers of a JMX metric is [==]: a NaN differs
    from itself. *)
Definition jmxDeepEqual (a b : JmxMetric) : bool :=
  Float.eqb (jmScale a) (jmScale b) &&
  bool_decide ((jmName a, jmMBean a, jmAttribute a, jmPath a, jmDerive a, jmSum a, jmTypeNames a, jmRatio a) =
               (jmName b, jmMBean b, jmAttribute b, jmPath b, jmDerive b, jmSum b, jmTypeNames b, jmRatio b)).

Fixpoint allEqual {A : Type} (eq : A → A → bool) (a b : list A) : bool :=
  match a, b with
  | [], [] => true
  | x :: a, y :: b => eq x y && allEqual eq a b
  | _, _ => false
  end.

Definition jmxMetricsEqual (a b : slice JmxMetric) : bool :=
  match a, b with
  | None, None => true
  | Some a, Some b => allEqual jmxDeepEqual a b
  | _, _ => false
  end.

Definition withJMXMetrics (c : config) (m : slice JmxMetric) : config :=
  mkConfig (cfgType c) (cfgVariant c) (cfgInstance c) (cfgPort c) (cfgIgnorePorts c) (cfgAddress c)
    (cfgTags c) (cfgInterval c) (cfgCheckType c) (cfgHTTPPath c) (cfgHTTPStatusCode c) (cfgHTTPHost c)
    (cfgMatchProcess c) (cfgCheckCommand c) (cfgNagiosNRPEName c) (cfgMetricsUnixSocket c)
    (cfgUsername c) (cfgPassword c) (cfgStatsURL c) (cfgStatsPort c) (cfgStatsProtocol c)
    (cfgDetailedItems c) (cfgJMXPort c) (cfgJMXUsername c) (cfgJMXPassword c) m
    (cfgSSL c) (cfgSSLInsecure c) (cfgStartTLS c) (cfgCAFile c) (cfgCertFile c) (cfgKeyFile c)
    (cfgIncludedItems c) (cfgExcludedItems c) (cfgLogFiles c) (cfgLogFormat c) (cfgLogFilter c).

Definition DeepEqual (a b : config) : bool :=
  bool_decide (withJMXMetrics a None = withJMXMetrics b None) &&
  jmxMetricsEqual (cfgJMXMetrics a) (cfgJMXMetrics b).

Definition containerPID (s : Service) : Z :=
  match svContainer s with None => 0 | Some c => ctPID c end.

Definition addressEqual (old new : ListenAddress) : bool :=
  bool_decide (Network old = Network new) && bool_decide (addressString old = addressString new).

Definition serviceNeedUpdate (old new : Service) (oldState newState : ContainerState) : bool :=
  negb (bool_decide (svName old = svName new))
  || negb (bool_decide (svInstance old = svInstance new))
  || negb (bool_decide (svServiceType old = svServiceType new))
  || negb (bool_decide (svContainerID old = svContainerID new))
  || negb (bool_decide (svContainerName old = svContainerName new))
  || negb (bool_decide (svIPAddress old = svIPAddress new))
  || negb (bool_decide (svExePath old = svExePath new))
  || negb (eqb (svActive old) (svActive new))
  || negb (eqb (svCheckIgnored old) (svCheckIgnored new))
  || negb (eqb (svMetricsIgnored old) (svMetricsIgnored new))
  || negb (bool_decide (oldState = newState))
  || negb (containerPID old =? containerPID new)
  || negb (DeepEqual (svConfig old) (svConfig new))
  || negb (bool_decide (length (svListenAddresses old) = length (svListenAddresses new)))
  || negb (allEqual addressEqual (svListenAddresses old) (svListenAddresses new)).

(** The state of the service's container, running when it has none. *)
Definition stateOf (s : Service) : ContainerState :=
  match svContainer s with None => ContainerRunning | Some c => ctState c end.

Definition usePreviousNetstat (now : Z) (previous new : Service) : bool :=
  if svHasNetstatInfo new || negb (svHasNetstatInfo previous) then false
  else if negb (bool_decide (svContainerID new = "")) && negb (bool_decide (svIPAddress new = svIPAddress previous))
  then false
  else negb (Time.hour <? Time.Sub now (svLastNetstatInfo previous)).
