(* ===== verification/MetricRegister.v ===== *)
(** The registration of metrics with the API (bleemeo/internal/synchronizer/metrics.go,
    [metricRegisterer]; bleemeo/types/bleemeo.go): passes over the metrics of the store, the failures that
    are remembered and when they are tried again, the deactivation of the metrics that have no more points.

    The API is a parameter: each call takes the state of the world and gives the next one with its answer.
    The clock and the cancellation of the context are read from that state.  [range] is the order in which Go
    visits a map.  Of the objects of the API only the fields the code reads are kept; the sleeps between two
    attempts are left to the clock. *)
From S2P Require Import Prelude Labels Services.

#[local] Open Scope string_scope.
#[local] Open Scope Z_scope.

Definition gracePeriod : Z := 6 * Time.minute.
Definition failedRegistrationExpiration : Z := 24 * Time.hour.
Definition agentStatusName : string := "agent_status".

(** * Data *)
Record Metric := mkMetric {
  mID : string; mAgentID : string; mLabelsText : string; mServiceID : string; mContainerID : string; mStatusOf : string;
  mDeactivatedAt : Z; mFirstSeenAt : Z }.

(** MetricPayload: a Metric with its name and item. *)
Record MetricPayload := mkPayload { plMetric : Metric; plName : string; plItem : string }.

Inductive FailureKind : Set := FailureUnknown | FailureAllowList | FailureTooManyCustomMetrics | FailureTooManyStandardMetrics.

#[global] Instance FailureKind_eq_dec : EqDecision FailureKind.
Proof. solve_decision. Defined.

Definition IsPermanentFailure (kind : FailureKind) : bool :=
  match kind with
  | FailureAllowList | FailureTooManyStandardMetrics | FailureTooManyCustomMetrics => true
  | FailureUnknown => false
  end.

Record MetricRegistration := mkRegistration { rgLabelsText : string; rgLastFailAt : Z; rgFailCounter : Z; rgLastFailKind : FailureKind }.

Definition zeroRegistration : MetricRegistration := mkRegistration "" 0 0 FailureUnknown.

(** [time.Duration(math.Pow(2, float64(n)))], for n not negative: the power is exact; beyond the range of an int64
    the conversion is that of amd64. *)
Definition durationPow2 (n : Z) : Z := if n <? 63 then 2 ^ n else Int.minInt64.

Definition retryDelay (failCounter : Z) : Z :=
  Z.min (Int.int64 (15 * Time.second * durationPow2 failCounter)) (45 * Time.minute).

Definition RetryAfter (mr : MetricRegistration) : Z := rgLastFailAt mr + retryDelay (rgFailCounter mr).

(** A metric of the store: [lmPoints] is [Points], the times of the points between two times. *)
Record localMetric := mkLocalMetric {
  lmLabels : Labels; lmAnnotations : MetricAnnotations; lmPoints : Z → Z → option (list Z); lmLastPointReceivedAt : Z }.

(** * Errors *)
Inductive callError := apiError (statusCode : Z) (response : string) | otherError (text : string).

Definition IsNotFound (e : callError) : bool := match e with apiError code _ => code =? 404 | otherError _ => false end.
Definition IsServerError (e : callError) : bool := match e with apiError code _ => 500 <=? code | otherError _ => false end.
Definition IsBadRequest (e : callError) : bool := match e with apiError code _ => code =? 400 | otherError _ => false end.
Definition APIErrorContent (e : callError) : string := match e with apiError _ response => response | otherError _ => "" end.

(** The errors of metricRegisterAndUpdateOne. *)
Inductive regError := errRetryLater | errAttemptToSpoof | errNeedRegister (remoteMetric : Metric) | errCall (e : callError).

(** [strings.Contains] *)
Fixpoint contains (s sub : string) : bool :=
  String.prefix sub s || match s with EmptyString => false | String _ s => contains s sub end.

Definition httpResponseToMetricFailureKind (content : string) : FailureKind :=
  if contains content "metric is not whitelisted" then FailureAllowList
  else if contains content "metric is not in allow-list" then FailureAllowList
  else if contains content "Too many non standard metrics" then FailureTooManyCustomMetrics
  else if contains content "Too many metrics" then FailureTooManyStandardMetrics
  else FailureUnknown.

(** * What the synchronizer and its cache give *)
Record registerEnv := mkEnv {
  eAgentID : string;
  (** DockerIntegration of the account configuration, if it is known *)
  eConfig : option bool;
  eContainers : gmap string string;
  eServices : gmap NameInstance string;
  eMonitors : list string;
  eAgents : gmap string string;
  eScraperName : string
}.

Definition MetricLookupFromList (registeredMetrics : list Metric) : gmap string Metric :=
  foldl (λ byKey v,
    match byKey !! mLabelsText v with
    | Some existing => if Time.IsZero (mDeactivatedAt existing) then byKey else <[mLabelsText v := v]> byKey
    | None => <[mLabelsText v := v]> byKey
    end) ∅ registeredMetrics.

Definition MetricsByUUID (metrics : list Metric) : gmap string Metric :=
  foldl (λ byUUID v, <[mID v := v]> byUUID) ∅ metrics.

Definition LabelScraperUUID : string := "scraper_uuid".
Definition LabelScraper : string := "scraper".

Definition IgnoreContainer (dockerIntegration : bool) (labels : Labels) : bool :=
  if dockerIntegration then false else bool_decide (lget labels LabelName = MetricServiceStatus).

(** The parameters of a search: the agent, and either the text of the labels or the name and the item. *)
Record listParams := mkListParams { lpAgent : string; lpLabels : string + string * string }.

Record registerer := mkRegisterer {
  byUUID : gmap string Metric;
  byKey : gmap string Metric;
  failedByKey : gmap string MetricRegistration;
  needReregister : list localMetric;
  retryMetrics : list localMetric;
  regCountBeforeUpdate : Z;
  registerFailCount : Z;
  unexpectedErrorCount : Z;
  pendingErr : option regError;
  doneAtLeastOne : bool;
  (** the cache and the synchronizer *)
  cacheMetrics : list Metric;
  cacheFails : list MetricRegistration;
  retryable : FailureKind → bool
}.

Section Register.
Context {W : Type}.
Variable env : registerEnv.
Variable registerMetric : W → MetricPayload → W * (MetricPayload + callError).
Variable setMetricActive : W → string → bool → W * option callError.
Variable listMetricsBy : W → listParams → W * (list (string * Metric) + callError).
Variable now : W → Z.
Variable cancelled : W → option regError.
Variable range : gmap string Metric → list (string * Metric).
Variable rangeFails : gmap string MetricRegistration → list (string * MetricRegistration).

Definition metricKey (m : localMetric) : string := MetricKey (lmLabels m) (lmAnnotations m) (eAgentID env).

Definition metricFromAPI (w : W) (mp : MetricPayload) (lastTime : Z) : Metric :=
  let m := plMetric mp in
  let labelsText :=
    if bool_decide (mLabelsText m = "") then
      let labels : Labels := {[ LabelName := plName mp; LabelInstanceUUID := mAgentID m ]} in
      LabelsToText (if bool_decide (plItem mp ≠ "") then <[LabelItem := plItem mp]> labels else labels)
    else mLabelsText m in
  let firstSeen := if negb (Time.IsZero lastTime) then lastTime else Time.Truncate (now w) Time.second in
  mkMetric (mID m) (mAgentID m) labelsText (mServiceID m) (mContainerID m) (mStatusOf m) (mDeactivatedAt m) firstSeen.

Definition setAgent (p : MetricPayload) (agentID : string) : MetricPayload :=
  let m := plMetric p in
  mkPayload (mkMetric (mID m) agentID (mLabelsText m) (mServiceID m) (mContainerID m) (mStatusOf m) (mDeactivatedAt m) (mFirstSeenAt m))
    (plName p) (plItem p).

(** The result: a payload, nothing ([errIgnore]) or an error. *)
Definition prepareMetricPayloadOtherAgent (payload : MetricPayload) (agentID : string) (labels : Labels) : option MetricPayload + regError :=
  let scraperID := lget labels LabelScraperUUID in
  if bool_decide (scraperID ≠ "") && bool_decide (scraperID ≠ eAgentID env) then inr errAttemptToSpoof
  else if bool_decide (agentID ∈ eMonitors env) then inl (Some (setAgent payload agentID))
  else match eAgents env !! agentID with
       | Some id => inl (Some (setAgent payload id))
       | None => inl None
       end.

Definition prepareMetricPayload (m : localMetric) (registered : gmap string Metric) : option MetricPayload + regError :=
  let labels := lmLabels m in
  let annotations := lmAnnotations m in
  let agentID := if bool_decide (BleemeoAgentID annotations ≠ "") then BleemeoAgentID annotations else eAgentID env in
  let onlyItem := MetricOnlyHasItem labels agentID in
  let labelsText := if onlyItem then "" else metricKey m in
  let item := if onlyItem then lget labels LabelItem else "" in
  let statusOf :=
    if bool_decide (StatusOf annotations ≠ "") then
      match registered !! MetricKey (<[LabelName := StatusOf annotations]> labels) annotations (eAgentID env) with
      | None => inr errRetryLater
      | Some parent => inl (mID parent)
      end
    else inl "" in
  match statusOf with
  | inr e => inr e
  | inl statusOf =>
      match eConfig env with
      | None => inr errRetryLater
      | Some docker =>
          let container :=
            if bool_decide (ContainerID annotations ≠ "") && negb (IgnoreContainer docker labels)
            then eContainers env !! ContainerID annotations else Some "" in
          match container with
          | None => inl None
          | Some container =>
              let service :=
                if bool_decide (ServiceName annotations ≠ "")
                then eServices env !! mkNameInstance (ServiceName annotations) (ServiceInstance annotations) else Some "" in
              match service with
              | None => inl None
              | Some service =>
                  let payload := mkPayload (mkMetric "" (eAgentID env) labelsText service container statusOf 0 0)
                    (lget labels LabelName) item in
                  if bool_decide (BleemeoAgentID annotations ≠ "")
                  then prepareMetricPayloadOtherAgent payload (BleemeoAgentID annotations) labels
                  else inl (Some payload)
              end
          end
      end
  end.

Definition maxTime (points : list Z) : Z := foldl Z.max (hd 0 points) points.

Definition reactivated (m : Metric) : Metric :=
  mkMetric (mID m) (mAgentID m) (mLabelsText m) (mServiceID m) (mContainerID m) (mStatusOf m) 0 (mFirstSeenAt m).

Definition metricUpdateOne (w : W) (m : localMetric) (remoteMetric : Metric) : W * (Metric + regError) :=
  if Time.IsZero (mDeactivatedAt remoteMetric) then (w, inl remoteMetric)
  else
    match lmPoints m (now w - 10 * Time.minute) (now w) with
    | None | Some [] => (w, inl remoteMetric)
    | Some points =>
        if mDeactivatedAt remoteMetric + 10 * Time.second <? maxTime points then
          let remoteMetric := reactivated remoteMetric in
          match setMetricActive w (mID remoteMetric) true with
          | (w, None) => (w, inl remoteMetric)
          | (w, Some e) => (w, inr (if IsNotFound e then errNeedRegister remoteMetric else errCall e))
          end
        else (w, inl remoteMetric)
    end.

Definition setRegistered (mr : registerer) (key id : string) (atKey atUUID : Metric) : registerer :=
  mkRegisterer (<[id := atUUID]> (byUUID mr)) (<[key := atKey]> (byKey mr)) (failedByKey mr) (needReregister mr) (retryMetrics mr)
    (regCountBeforeUpdate mr) (registerFailCount mr) (unexpectedErrorCount mr) (pendingErr mr) true (cacheMetrics mr) (cacheFails mr) (retryable mr).

Definition metricRegisterAndUpdateOne (w : W) (mr : registerer) (m : localMetric) : W * registerer * option regError :=
  let key := metricKey m in
  match byKey mr !! key with
  | Some remoteMetric =>
      match metricUpdateOne w m remoteMetric with
      | (w, inr e) => (w, mr, Some e)
      | (w, inl result) => (w, setRegistered mr key (mID result) result result, None)
      end
  | None =>
      match prepareMetricPayload m (byKey mr) with
      | inl None => (w, mr, None)
      | inr e => (w, mr, Some e)
      | inl (Some payload) =>
          match registerMetric w payload with
          | (w, inr e) => (w, mr, Some (errCall e))
          | (w, inl result) =>
              let id := mID (plMetric result) in
              let firstSeen := match byKey mr !! id with Some x => mFirstSeenAt x | None => 0 end in
              let atKey := metricFromAPI w result firstSeen in
              let firstSeen := match (<[key := atKey]> (byKey mr)) !! id with Some x => mFirstSeenAt x | None => 0 end in
              (w, setRegistered mr key id atKey (metricFromAPI w result firstSeen), None)
          end
      end
  end.

Inductive pass : Set := passAgentStatus | passMain | passRecreate | passRetry.
Definition passRank (p : pass) : Z := match p with passAgentStatus => 0 | passMain => 1 | passRecreate => 2 | passRetry => 3 end.

(** Whether a previous failure makes the metric be left alone. *)
Definition skipFailed (w : W) (mr : registerer) (key : string) : bool :=
  match failedByKey mr !! key with
  | None => false
  | Some registration =>
      (IsPermanentFailure (rgLastFailKind registration) && negb (retryable mr (rgLastFailKind registration)))
      || (now w <? RetryAfter registration)
  end.

Definition setRetryable (f : FailureKind → bool) (kind : FailureKind) (b : bool) (k : FailureKind) : bool :=
  if bool_decide (k = kind) then b else f k.

(** A bad request: the failure is recorded. *)
Definition recordFailure (w : W) (mr : registerer) (key : string) (e : callError) : registerer :=
  let registration := default zeroRegistration (failedByKey mr !! key) in
  let kind := httpResponseToMetricFailureKind (APIErrorContent e) in
  let registration := mkRegistration key (now w) (rgFailCounter registration + 1) kind in
  mkRegisterer (byUUID mr) (byKey mr) (<[key := registration]> (failedByKey mr)) (needReregister mr) (retryMetrics mr)
    (regCountBeforeUpdate mr) (registerFailCount mr + 1) (unexpectedErrorCount mr) (pendingErr mr) (doneAtLeastOne mr)
    (cacheMetrics mr) (cacheFails mr) (setRetryable (retryable mr) kind false).

Definition recordUnexpected (mr : registerer) (e : regError) : registerer :=
  mkRegisterer (byUUID mr) (byKey mr) (failedByKey mr) (needReregister mr) (retryMetrics mr)
    (regCountBeforeUpdate mr) (registerFailCount mr) (unexpectedErrorCount mr + 1) (Some e) (doneAtLeastOne mr)
    (cacheMetrics mr) (cacheFails mr) (retryable mr).

Definition addRetry (mr : registerer) (m : localMetric) : registerer :=
  mkRegisterer (byUUID mr) (byKey mr) (failedByKey mr) (needReregister mr) (retryMetrics mr ++ [m])%list
    (regCountBeforeUpdate mr) (registerFailCount mr) (unexpectedErrorCount mr) (pendingErr mr) (doneAtLeastOne mr)
    (cacheMetrics mr) (cacheFails mr) (retryable mr).

Definition addReregister (mr : registerer) (m : localMetric) (remote : Metric) : registerer :=
  mkRegisterer (delete (mID remote) (byUUID mr)) (delete (mLabelsText remote) (byKey mr)) (failedByKey mr)
    (needReregister mr ++ [m])%list (retryMetrics mr)
    (regCountBeforeUpdate mr) (registerFailCount mr) (unexpectedErrorCount mr) (pendingErr mr) (doneAtLeastOne mr)
    (cacheMetrics mr) (cacheFails mr) (retryable mr).

(** A success: the failure is forgotten, and the cache updated from time to time. *)
Definition recordSuccess (mr : registerer) (key : string) : registerer :=
  let failed := delete key (failedByKey mr) in
  let count := regCountBeforeUpdate mr - 1 in
  if count =? 0 then
    mkRegisterer (byUUID mr) (byKey mr) failed (needReregister mr) (retryMetrics mr) 60 (registerFailCount mr) (unexpectedErrorCount mr)
      (pendingErr mr) (doneAtLeastOne mr) (range (byUUID mr)).*2 (rangeFails failed).*2 (retryable mr)
  else
    mkRegisterer (byUUID mr) (byKey mr) failed (needReregister mr) (retryMetrics mr) count (registerFailCount mr) (unexpectedErrorCount mr)
      (pendingErr mr) (doneAtLeastOne mr) (cacheMetrics mr) (cacheFails mr) (retryable mr).

(** Another error: only the first one is kept, and counted. *)
Definition unexpected (w : W) (mr : registerer) (e : regError) : W * registerer * option regError :=
  match pendingErr mr with
  | None => let mr := recordUnexpected mr e in (w, mr, if 10 <? unexpectedErrorCount mr then Some e else None)
  | Some _ => (w, mr, None)
  end.

(** One metric of a pass: the error is one that ends the pass. *)
Definition passOne (p : pass) (w : W) (mr : registerer) (m : localMetric) : W * registerer * option regError :=
  let key := metricKey m in
  if skipFailed w mr key then (w, mr, None)
  else
    let '(w, mr, err) := metricRegisterAndUpdateOne w mr m in
    match err with
    | None => (w, recordSuccess mr key, None)
    | Some e =>
        match e with
        | errRetryLater =>
            if passRank p <? passRank passRetry then (w, addRetry mr m, None)
            else unexpected w mr e
        | errNeedRegister remote =>
            if passRank p <? passRank passRecreate then (w, addReregister mr m remote, None)
            else unexpected w mr e
        | errAttemptToSpoof =>
            unexpected w mr e
        | errCall ce =>
            if IsServerError ce then (w, mr, Some e)
            else if IsBadRequest ce then
              let mr := recordFailure w mr key ce in
              (w, mr, if 100 <? registerFailCount mr then Some e else None)
            else unexpected w mr e
        end
    end.

Fixpoint doOnePass (p : pass) (w : W) (mr : registerer) (currentList : list localMetric) : W * registerer * option regError :=
  match currentList with
  | [] => (w, mr, cancelled w)
  | m :: rest =>
      match cancelled w with
      | Some e => (w, mr, Some e)
      | None =>
          match passOne p w mr m with
          | (w, mr, Some e) => (w, mr, Some e)
          | (w, mr, None) => doOnePass p w mr rest
          end
      end
  end.

Definition setCache (mr : registerer) (metrics : list Metric) : registerer :=
  mkRegisterer (byUUID mr) (byKey mr) (failedByKey mr) (needReregister mr) (retryMetrics mr) (regCountBeforeUpdate mr) (registerFailCount mr)
    (unexpectedErrorCount mr) (pendingErr mr) (doneAtLeastOne mr) metrics (cacheFails mr) (retryable mr).

Definition paramsOf (m : localMetric) : listParams :=
  let agentID := if bool_decide (BleemeoAgentID (lmAnnotations m) ≠ "") then BleemeoAgentID (lmAnnotations m) else eAgentID env in
  mkListParams agentID
    (if MetricOnlyHasItem (lmLabels m) agentID then inr (lget (lmLabels m) LabelName, lget (lmLabels m) LabelItem)
     else inl (LabelsToText (lmLabels m))).

(** Whether a listed metric is of another agent. *)
Definition ofOtherAgent (metric : Metric) : bool :=
  let labels := default ∅ (TextToLabels (mLabelsText metric)) in
  match labels !! LabelScraperUUID with
  | Some agentUUID => bool_decide (agentUUID ≠ eAgentID env)
  | None =>
      match labels !! LabelScraper with
      | Some scraperName => bool_decide (scraperName ≠ eScraperName env)
      | None => false
      end
  end.

(** The search of each metric; the map of the metrics by UUID, or the error. *)
Fixpoint updateList (w : W) (metrics : gmap string Metric) (l : list localMetric) : W * (gmap string Metric + callError) :=
  match l with
  | [] => (w, inl metrics)
  | m :: l =>
      match listMetricsBy w (paramsOf m) with
      | (w, inr e) => (w, inr e)
      | (w, inl listed) =>
          updateList w (foldl (λ ms '(id, metric), if ofOtherAgent metric then ms else <[id := metric]> ms) metrics listed) l
      end
  end.

Definition metricUpdateList (w : W) (mr : registerer) (l : list localMetric) : W * registerer * option regError :=
  match l with
  | [] => (w, mr, None)
  | _ =>
      match updateList w (MetricsByUUID (cacheMetrics mr)) l with
      | (w, inr e) => (w, mr, Some (errCall e))
      | (w, inl metrics) => (w, setCache mr (range metrics).*2, None)
      end
  end.

Definition fakeMetric (w : W) : localMetric :=
  mkLocalMetric {[ LabelName := agentStatusName ]} zeroAnnotations (λ _ _, None) (now w).

(** Before the pass that registers again what was deleted on the API. *)
Definition prepareRecreate (w : W) (mr : registerer) : W * registerer * option regError :=
  match needReregister mr with
  | [] => (w, mr, None)
  | l =>
      match metricUpdateList w (setCache mr (range (byUUID mr)).*2) l with
      | (w, mr, Some e) => (w, mr, Some e)
      | (w, mr, None) =>
          (w, mkRegisterer (MetricsByUUID (cacheMetrics mr)) (MetricLookupFromList (cacheMetrics mr)) (failedByKey mr) (needReregister mr)
             (retryMetrics mr) (regCountBeforeUpdate mr) (registerFailCount mr) (unexpectedErrorCount mr) (pendingErr mr)
             (doneAtLeastOne mr) (cacheMetrics mr) (cacheFails mr) (retryable mr), None)
      end
  end.

Definition andThen (r : W * registerer * option regError) (f : W → registerer → W * registerer * option regError) : W * registerer * option regError :=
  match r with
  | (w, mr, Some e) => (w, mr, Some e)
  | (w, mr, None) => f w mr
  end.

(** The four passes. *)
Definition do (w : W) (mr : registerer) (localMetrics : list localMetric) : W * registerer * option regError :=
  andThen (doOnePass passAgentStatus w mr [fakeMetric w]) (λ w mr,
  andThen (doOnePass passMain w mr localMetrics) (λ w mr,
  andThen (prepareRecreate w mr) (λ w mr,
  andThen (doOnePass passRecreate w mr (needReregister mr)) (λ w mr,
  andThen (doOnePass passRetry w mr (retryMetrics mr)) (λ w mr,
  (w, mr, pendingErr mr)))))).

Definition newMetricRegisterer (metrics : list Metric) (fails : list MetricRegistration) (retryable : FailureKind → bool) : registerer :=
  mkRegisterer (MetricsByUUID metrics) (MetricLookupFromList metrics)
    (foldl (λ m v, <[rgLabelsText v := v]> m) ∅ fails) [] [] 30 0 0 None false metrics fails retryable.

(** What registerMetrics leaves: the registerer with the cache, and the time of the next retry. *)
Definition registerMetrics (w : W) (mr : registerer) (localMetrics : list localMetric) : W * registerer * Z * option regError :=
  let '(w, mr, err) := do w mr localMetrics in
  let t := now w in
  let failed := base.filter (λ kv : string * MetricRegistration, ¬ failedRegistrationExpiration < Time.Sub t (rgLastFailAt kv.2)) (failedByKey mr) in
  let minRetryAt := foldl (λ minRetryAt kv,
      if negb (IsPermanentFailure (rgLastFailKind kv.2)) && (RetryAfter kv.2 <? minRetryAt) then RetryAfter kv.2 else minRetryAt)
    (t + Time.hour) (rangeFails failed) in
  (w, mkRegisterer (byUUID mr) (byKey mr) failed (needReregister mr) (retryMetrics mr) (regCountBeforeUpdate mr) (registerFailCount mr)
        (unexpectedErrorCount mr) (pendingErr mr) (doneAtLeastOne mr) (range (byUUID mr)).*2 (rangeFails failed).*2 (retryable mr),
   minRetryAt, err).
End Register.

(** * Delays *)
(** The delay grows from 15 seconds by factors of two up to 45 minutes, while the product fits an int64. *)
Lemma retryDelay_grows (n : Z) : 0 ≤ n ≤ 29 → retryDelay n = Z.min (15 * Time.second * 2 ^ n) (45 * Time.minute).
Proof.
  intros Hn. unfold retryDelay, durationPow2. rewrite (proj2 (Z.ltb_lt n 63)) by lia. rewrite Int.int64_id; [done|].
  pose proof (Z.pow_le_mono_r 2 n 29). pose proof (Z.pow_pos_nonneg 2 n). unfold Time.second, Int.minInt64, Int.maxInt64. lia.
Qed.

Lemma int64_multiple (k : Z) : Int.int64 (k * 2 ^ 64) = 0.
Proof.
  unfold Int.int64, Int.wrapS. rewrite Z.add_comm, Z_mod_plus_full. by vm_compute.
Qed.

(** The delay before a refused metric is tried again overflows: after 30 failures it is negative, and
    from 55 failures on it is zero, so that the metric is sent again at every synchronization. *)
Theorem retryDelay_overflows (n : Z) : retryDelay 30 < 0 ∧ (55 ≤ n → retryDelay n = 0).
Proof.
  split; [by vm_compute|]. intros Hn. unfold retryDelay, durationPow2. destruct (Z.ltb_spec n 63).
  - replace (15 * Time.second * 2 ^ n) with (15 * 1953125 * 2 ^ (n - 55) * 2 ^ 64); [by rewrite int64_multiple|].
    replace n with (55 + (n - 55)) at 2 by lia. rewrite Z.pow_add_r by lia. unfold Time.second.
    change (2 ^ 64) with (2 ^ 9 * 2 ^ 55). change 1000000000 with (1953125 * 2 ^ 9). ring.
  - replace (15 * Time.second * Int.minInt64) with (-7500000000 * 2 ^ 64) by (by vm_compute). by rewrite int64_multiple.
Qed.

Section Laws.
Context {W : Type}.
Variable env : registerEnv.
Variable registerMetric : W → MetricPayload → W * (MetricPayload + callError).
Variable setMetricActive : W → string → bool → W * option callError.
Variable listMetricsBy : W → listParams → W * (list (string * Metric) + callError).
Variable now : W → Z.
Variable cancelled : W → option regError.
Variable range : gmap string Metric → list (string * Metric).
Variable rangeFails : gmap string MetricRegistration → list (string * MetricRegistration).

#[local] Notation metricKey := (metricKey env).
#[local] Notation updateOne := (metricUpdateOne setMetricActive now).
#[local] Notation registerOne := (metricRegisterAndUpdateOne env registerMetric setMetricActive now).
#[local] Notation passOne := (passOne env registerMetric setMetricActive now range rangeFails).
#[local] Notation doOnePass := (doOnePass env registerMetric setMetricActive now cancelled range rangeFails).
#[local] Notation prepareRecreate := (prepareRecreate env listMetricsBy range).
#[local] Notation do := (do env registerMetric setMetricActive listMetricsBy now cancelled range rangeFails).

(** An invariant kept by each metric and by the update before the recreation; it may be weaker once an error ends the run. *)
Definition keeps (P E : W → registerer → Prop) (r : W * registerer * option regError) : Prop :=
  let '(w, mr, err) := r in match err with None => P w mr | Some _ => E w mr end.

Lemma do_invariant (P E : W → registerer → Prop) (w : W) (mr : registerer) (l : list localMetric) :
  (∀ w mr, P w mr → E w mr) →
  (∀ p w mr m, P w mr → keeps P E (passOne p w mr m)) → (∀ w mr, P w mr → keeps P E (prepareRecreate w mr)) →
  P w mr → let '(w', mr', _) := do w mr l in E w' mr'.
Proof.
  intros HPE Hone Hprep.
  assert (∀ p l w mr, P w mr → keeps P E (doOnePass p w mr l)) as Hpass.
  { intros p l'. induction l' as [|m l' IH]; intros w' mr' H; cbn [MetricRegister.doOnePass].
    - unfold keeps. destruct (cancelled w'); auto.
    - destruct (cancelled w'); [unfold keeps; auto|]. pose proof (Hone p w' mr' m H) as H1.
      destruct (passOne p w' mr' m) as [[w1 mr1] [e|]]; [done|by apply IH]. }
  assert (∀ r f, keeps P E r → (∀ w mr, P w mr → keeps P E (f w mr)) → keeps P E (andThen r f)) as Hthen.
  { intros [[w' mr'] [e|]] f H Hf; [done|by apply Hf]. }
  intros H. assert (keeps P E (do w mr l)) as Hk; [|unfold keeps in Hk; destruct (do w mr l) as [[w' mr'] [e|]]; auto].
  unfold MetricRegister.do. apply Hthen; [by apply Hpass|]. clear w mr H. intros w mr H.
  apply Hthen; [by apply Hpass|]. clear w mr H. intros w mr H. apply Hthen; [by apply Hprep|]. clear w mr H. intros w mr H.
  apply Hthen; [by apply Hpass|]. clear w mr H. intros w mr H. apply Hthen; [by apply Hpass|].
  intros w' mr' H'. unfold keeps. destruct (pendingErr mr'); auto.
Qed.

(** What registerOne leaves unchanged. *)
Lemma registerOne_counters (w : W) (mr : registerer) (m : localMetric) :
  let '(_, mr', _) := registerOne w mr m in
  unexpectedErrorCount mr' = unexpectedErrorCount mr ∧ pendingErr mr' = pendingErr mr ∧ registerFailCount mr' = registerFailCount mr ∧
  failedByKey mr' = failedByKey mr ∧ needReregister mr' = needReregister mr ∧ retryMetrics mr' = retryMetrics mr.
Proof.
  unfold metricRegisterAndUpdateOne. destruct (byKey mr !! metricKey m) as [remote|].
  - destruct (updateOne w m remote) as [w' [result|e]]; done.
  - destruct (prepareMetricPayload env m (byKey mr)) as [[payload|]|e]; try done. destruct (registerMetric w payload) as [w' [result|e]]; done.
Qed.

Lemma recordSuccess_counters (mr : registerer) (key : string) :
  let mr' := recordSuccess range rangeFails mr key in
  unexpectedErrorCount mr' = unexpectedErrorCount mr ∧ pendingErr mr' = pendingErr mr ∧ registerFailCount mr' = registerFailCount mr ∧
  failedByKey mr' = delete key (failedByKey mr) ∧ needReregister mr' = needReregister mr ∧ retryMetrics mr' = retryMetrics mr ∧ byKey mr' = byKey mr.
Proof. cbv zeta. unfold recordSuccess. by destruct (_ =? 0). Qed.

Lemma prepareRecreate_counters (w : W) (mr : registerer) :
  let '(_, mr', _) := prepareRecreate w mr in
  unexpectedErrorCount mr' = unexpectedErrorCount mr ∧ pendingErr mr' = pendingErr mr ∧ registerFailCount mr' = registerFailCount mr.
Proof.
  unfold MetricRegister.prepareRecreate, metricUpdateList. destruct (needReregister mr) as [|m l]; [done|].
  destruct (updateList _ _ _ _ _) as [w' [metrics|e]]; done.
Qed.

(** Only the first unexpected error is counted. *)
Definition countedOnce (mr : registerer) : Prop :=
  unexpectedErrorCount mr = match pendingErr mr with None => 0 | Some _ => 1 end.

Lemma unexpected_counted (w : W) (mr : registerer) (e : regError) :
  countedOnce mr → let '(_, mr', err) := unexpected w mr e in countedOnce mr' ∧ err = None.
Proof.
  unfold unexpected, countedOnce. destruct (pendingErr mr) eqn:Hp; [by rewrite Hp|]. intros H. cbn. rewrite H. by vm_compute.
Qed.

(** The registration is meant to stop after ten unexpected errors, but the error is counted only when
    none is pending: whatever the API answers, the counter never exceeds one, and every metric is tried. *)
Theorem unexpected_errors_unlimited (metrics : list Metric) (fails : list MetricRegistration) (retryable : FailureKind → bool)
    (w : W) (l : list localMetric) :
  let '(_, mr, _) := do w (newMetricRegisterer metrics fails retryable) l in unexpectedErrorCount mr ≤ 1.
Proof.
  pose proof (do_invariant (λ _, countedOnce) (λ _, countedOnce) w (newMetricRegisterer metrics fails retryable) l) as H.
  destruct (do w _ l) as [[w' mr'] err]. assert (countedOnce mr') as Hc; [|unfold countedOnce in Hc; destruct (pendingErr mr'); lia].
  apply H; clear H; [done| |intros w1 mr1 H|done].
  - intros p w1 mr1 m H. unfold MetricRegister.passOne. destruct (skipFailed now w1 mr1 (metricKey m)); [done|].
    pose proof (registerOne_counters w1 mr1 m) as Hc. destruct (registerOne w1 mr1 m) as [[w2 mr2] e]. destruct Hc as (Hu & Hp & _).
    assert (countedOnce mr2) as H2 by (unfold countedOnce in *; by rewrite Hu, Hp).
    assert (∀ e, keeps (λ _, countedOnce) (λ _, countedOnce) (unexpected w2 mr2 e)) as Hx.
    { intros e'. pose proof (unexpected_counted w2 mr2 e' H2) as Hx. unfold keeps. destruct (unexpected w2 mr2 e') as [[? ?] ?]. by destruct Hx as [? ->]. }
    destruct e as [[| |remote|ce]|]; [by destruct (_ <? _)|done|by destruct (_ <? _)| |].
    + destruct (IsServerError ce); [done|]. destruct (IsBadRequest ce); [|done]. unfold keeps. by destruct (_ <? _).
    + destruct (recordSuccess_counters mr2 (metricKey m)) as (Hu' & Hp' & _). unfold keeps, countedOnce in *. by rewrite Hu', Hp'.
  - pose proof (prepareRecreate_counters w1 mr1) as Hc. destruct (prepareRecreate w1 mr1) as [[w2 mr2] e]. destruct Hc as (Hu & Hp & _).
    unfold keeps, countedOnce in *. destruct e; by rewrite Hu, Hp.
Qed.

(** * What the requests leave of the world *)
Section World.
Variable P : W → Prop.
Hypothesis registerMetric_world : ∀ w p, P w → P (registerMetric w p).1.
Hypothesis setMetricActive_world : ∀ w id b, P w → P (setMetricActive w id b).1.
Hypothesis listMetricsBy_world : ∀ w params, P w → P (listMetricsBy w params).1.

Lemma registerOne_world (w : W) (mr : registerer) (m : localMetric) : P w → P (registerOne w mr m).1.1.
Proof.
  intros H. unfold metricRegisterAndUpdateOne, metricUpdateOne. destruct (byKey mr !! metricKey m) as [remote|].
  - destruct (Time.IsZero _); [done|]. destruct (lmPoints m _ _) as [[|t points]|]; [done| |done]. destruct (_ <? _); [|done].
    apply (setMetricActive_world w (mID (reactivated remote)) true) in H. by destruct (setMetricActive w _ true) as [w' [e|]].
  - destruct (prepareMetricPayload env m (byKey mr)) as [[payload|]|e]; [|done..].
    apply (registerMetric_world w payload) in H. by destruct (registerMetric w payload) as [w' [result|e]].
Qed.

Lemma passOne_world (p : pass) (w : W) (mr : registerer) (m : localMetric) : P w → P (passOne p w mr m).1.1.
Proof.
  intros H. unfold MetricRegister.passOne, unexpected. destruct (skipFailed now w mr (metricKey m)); [done|].
  apply (registerOne_world w mr m) in H. destruct (registerOne w mr m) as [[w' mr'] e]. cbn [fst] in H.
  by repeat case_match; simplify_eq.
Qed.

Lemma updateList_world (l : list localMetric) (w : W) (metrics : gmap string Metric) : P w → P (updateList env listMetricsBy w metrics l).1.
Proof.
  revert w metrics. induction l as [|m l IH]; intros w metrics H; [done|]. cbn [updateList].
  apply (listMetricsBy_world w (paramsOf env m)) in H. destruct (listMetricsBy w _) as [w' [listed|e]]; [by apply IH|done].
Qed.

Lemma do_world (w : W) (mr : registerer) (l : list localMetric) : P w → P (do w mr l).1.1.
Proof.
  intros H. pose proof (do_invariant (λ w _, P w) (λ w _, P w) w mr l) as Hd.
  destruct (do w mr l) as [[w' mr'] err]. apply Hd; clear Hd; [done| | |done].
  - intros p w1 mr1 m Hw. apply (passOne_world p w1 mr1 m) in Hw. unfold keeps. by destruct (passOne p w1 mr1 m) as [[w2 mr2] [e|]].
  - intros w1 mr1 Hw. unfold keeps, MetricRegister.prepareRecreate, metricUpdateList. destruct (needReregister mr1) as [|m l']; [done|].
    match goal with |- context [updateList env listMetricsBy w1 ?ms ?l'] => apply (updateList_world l' w1 ms) in Hw;
      by destruct (updateList env listMetricsBy w1 ms l') as [w2 [ms2|e]] end.
Qed.
End World.

(** * Refused metrics *)
Section Refused.
(** The number of requests the API refused. *)
Variable refused : W → Z.

Definition refusal (e : option callError) : Z := match e with Some e => if IsBadRequest e then 1 else 0 | None => 0 end.
Definition errorOf {A : Type} (r : A + callError) : option callError := match r with inl _ => None | inr e => Some e end.

Hypothesis registerMetric_refused : ∀ w p, refused (registerMetric w p).1 = refused w + refusal (errorOf (registerMetric w p).2).
Hypothesis setMetricActive_refused : ∀ w id b, refused (setMetricActive w id b).1 = refused w + refusal (setMetricActive w id b).2.
Hypothesis listMetricsBy_refused : ∀ w params, refused (listMetricsBy w params).1 = refused w.

Lemma prepare_errors (m : localMetric) (registered : gmap string Metric) (e : regError) :
  prepareMetricPayload env m registered = inr e → e = errRetryLater ∨ e = errAttemptToSpoof.
Proof.
  unfold prepareMetricPayload, prepareMetricPayloadOtherAgent. intros H. by repeat (case_match; simplify_eq; auto).
Qed.

Lemma registerOne_refused (w : W) (mr : registerer) (m : localMetric) :
  let '(w', _, err) := registerOne w mr m in
  refused w' = refused w + match err with Some (errCall e) => refusal (Some e) | _ => 0 end.
Proof.
  unfold metricRegisterAndUpdateOne. destruct (byKey mr !! metricKey m) as [remote|].
  - assert (let '(w', r) := updateOne w m remote in
      refused w' = refused w + match r with inr (errCall e) => refusal (Some e) | _ => 0 end) as H;
      [|by destruct (updateOne w m remote) as [w' [result|[]]]].
    unfold metricUpdateOne. destruct (Time.IsZero _); [lia|]. destruct (lmPoints m _ _) as [[|t points]|]; [lia| |lia].
    destruct (_ <? _); [|lia]. pose proof (setMetricActive_refused w (mID (reactivated remote)) true) as Hs.
    destruct (setMetricActive w _ true) as [w' [e|]]; cbn [fst snd] in Hs; [|exact Hs].
    destruct (IsNotFound e) eqn:Hnf; [|exact Hs]. rewrite Hs. unfold refusal, IsBadRequest, IsNotFound in *. destruct e as [code r|]; [|lia].
    apply Z.eqb_eq in Hnf as ->. cbn. lia.
  - destruct (prepareMetricPayload env m (byKey mr)) as [[payload|]|e] eqn:Hp.
    + pose proof (registerMetric_refused w payload) as Hr. destruct (registerMetric w payload) as [w' [result|e]]; exact Hr.
    + lia.
    + destruct (prepare_errors m (byKey mr) e Hp) as [->| ->]; lia.
Qed.

Lemma updateList_refused (l : list localMetric) (w : W) (metrics : gmap string Metric) :
  refused (updateList env listMetricsBy w metrics l).1 = refused w.
Proof.
  revert w metrics. induction l as [|m l IH]; intros w metrics; [done|]. cbn [updateList].
  pose proof (listMetricsBy_refused w (paramsOf env m)) as H. destruct (listMetricsBy w _) as [w' [listed|e]]; [|done]. by rewrite IH.
Qed.

(** However many metrics there are and whatever the API answers, a run of the registration has at most 101
    requests refused: it stops at the first refusal beyond one hundred. *)
Theorem refusals_bounded (metrics : list Metric) (fails : list MetricRegistration) (retryable : FailureKind → bool)
    (w : W) (l : list localMetric) :
  refused (do w (newMetricRegisterer metrics fails retryable) l).1.1 ≤ refused w + 101.
Proof.
  set (counted := λ (bound : Z) w' mr, refused w' = refused w + registerFailCount mr ∧ registerFailCount mr ≤ bound).
  pose proof (do_invariant (counted 100) (counted 101) w (newMetricRegisterer metrics fails retryable) l) as H.
  assert (let '(w', mr', _) := do w (newMetricRegisterer metrics fails retryable) l in counted 101 w' mr') as Hc.
  2:{ destruct (do w _ l) as [[w' mr'] err]. unfold counted in Hc. cbn. lia. }
  apply H; clear H; [|intros p w1 mr1 m H|intros w1 mr1 H|unfold counted; cbn; lia].
  - unfold counted. intros w' mr' ?. lia.
  - assert (∀ w mr (o : option regError), counted 100 w mr → keeps (counted 100) (counted 101) (w, mr, o)) as Hk.
    { unfold keeps, counted. intros ? ? [] ?; lia. }
    unfold MetricRegister.passOne. destruct (skipFailed now w1 mr1 (metricKey m)); [done|].
    pose proof (registerOne_counters w1 mr1 m) as Hc. pose proof (registerOne_refused w1 mr1 m) as Hr.
    destruct (registerOne w1 mr1 m) as [[w2 mr2] e]. destruct Hc as (_ & _ & Hf & _).
    assert (∀ e, refused w2 = refused w1 → keeps (counted 100) (counted 101) (unexpected w2 mr2 e)) as Hx.
    { intros e' Heq. unfold unexpected. destruct (pendingErr mr2); apply Hk; unfold counted in *; cbn; lia. }
    destruct e as [[| |remote|ce]|].
    + destruct (_ <? _); [apply Hk; unfold counted in *; cbn; lia|apply Hx; lia].
    + apply Hx; lia.
    + destruct (_ <? _); [apply Hk; unfold counted in *; cbn; lia|apply Hx; lia].
    + unfold refusal in Hr. destruct (IsServerError ce) eqn:Hs.
      { apply Hk. unfold counted in *. destruct (IsBadRequest ce) eqn:Hb; [|cbn; lia]. unfold IsServerError, IsBadRequest in *. destruct ce; [lia|done]. }
      destruct (IsBadRequest ce); [|apply Hx; lia]. unfold keeps, counted in *. cbn [registerFailCount recordFailure].
      destruct (Z.ltb_spec 100 (registerFailCount mr2 + 1)); cbn; lia.
    + destruct (recordSuccess_counters mr2 (metricKey m)) as (_ & _ & Hf' & _). apply Hk. unfold counted in *. cbn. lia.
  - pose proof (prepareRecreate_counters w1 mr1) as Hc. unfold MetricRegister.prepareRecreate, metricUpdateList in *.
    destruct (needReregister mr1) as [|m l']; [done|]. pose proof (updateList_refused (m :: l') w1 (MetricsByUUID (cacheMetrics (setCache mr1 (range (byUUID mr1)).*2)))) as Hu.
    destruct (updateList _ _ w1 _ _) as [w2 [ms|e]]; unfold keeps, counted in *; cbn in *; lia.
Qed.
End Refused.

(** * Everything gets registered *)
Section Accepted.
(** The container, the service and the agent a metric refers to are known. *)
Definition resolvable (m : localMetric) : bool :=
  let a := lmAnnotations m in
  match eConfig env with
  | None => false
  | Some docker =>
      (bool_decide (ContainerID a = "") || IgnoreContainer docker (lmLabels m) || bool_decide (is_Some (eContainers env !! ContainerID a)))
      && (bool_decide (ServiceName a = "") || bool_decide (is_Some (eServices env !! mkNameInstance (ServiceName a) (ServiceInstance a))))
      && (bool_decide (BleemeoAgentID a = "")
          || (bool_decide (lget (lmLabels m) LabelScraperUUID = "") || bool_decide (lget (lmLabels m) LabelScraperUUID = eAgentID env))
             && (bool_decide (BleemeoAgentID a ∈ eMonitors env) || bool_decide (is_Some (eAgents env !! BleemeoAgentID a))))
  end.

(** The key of the metric whose status a metric is. *)
Definition parentKey (m : localMetric) : string :=
  MetricKey (<[LabelName := StatusOf (lmAnnotations m)]> (lmLabels m)) (lmAnnotations m) (eAgentID env).

Definition ready (mr : registerer) (m : localMetric) : Prop :=
  StatusOf (lmAnnotations m) = "" ∨ is_Some (byKey mr !! parentKey m).

Lemma otherAgent_known (payload : MetricPayload) (agentID : string) (labels : Labels) :
  (bool_decide (lget labels LabelScraperUUID = "") || bool_decide (lget labels LabelScraperUUID = eAgentID env))
    && (bool_decide (agentID ∈ eMonitors env) || bool_decide (is_Some (eAgents env !! agentID))) = true →
  ∃ result, prepareMetricPayloadOtherAgent env payload agentID labels = inl (Some result).
Proof.
  intros [Hs Ha]%andb_prop. unfold prepareMetricPayloadOtherAgent. rewrite !bool_decide_not, <- negb_orb, Hs. cbn [negb].
  destruct (bool_decide (agentID ∈ eMonitors env)); [by eexists|]. apply bool_decide_eq_true in Ha as [id ->]. by eexists.
Qed.

Lemma prepare_ready (m : localMetric) (mr : registerer) :
  resolvable m = true → ready mr m → ∃ payload, prepareMetricPayload env m (byKey mr) = inl (Some payload).
Proof.
  unfold resolvable, prepareMetricPayload. intros Hr Hready. fold (parentKey m).
  destruct (eConfig env) as [docker|]; [|done]. apply andb_prop in Hr as [[Hc Hs]%andb_prop Ha].
  assert (∃ id, (if bool_decide (StatusOf (lmAnnotations m) ≠ "")
    then match byKey mr !! parentKey m with None => inr errRetryLater | Some parent => inl (mID parent) end else inl "") = inl id) as [id ->].
  { destruct Hready as [->|[parent ->]]; [by exists ""|]. destruct (bool_decide (StatusOf _ ≠ "")); [by exists (mID parent)|by exists ""]. }
  assert (∃ id, (if bool_decide (ContainerID (lmAnnotations m) ≠ "") && negb (IgnoreContainer docker (lmLabels m))
    then eContainers env !! ContainerID (lmAnnotations m) else Some "") = Some id) as [container ->].
  { rewrite bool_decide_not, <- negb_orb. destruct (_ || IgnoreContainer _ _); [by exists ""|]. by apply bool_decide_eq_true in Hc. }
  assert (∃ id, (if bool_decide (ServiceName (lmAnnotations m) ≠ "")
    then eServices env !! mkNameInstance (ServiceName (lmAnnotations m)) (ServiceInstance (lmAnnotations m)) else Some "") = Some id) as [service ->].
  { rewrite bool_decide_not. destruct (bool_decide (ServiceName _ = "")); [by exists ""|]. by apply bool_decide_eq_true in Hs. }
  rewrite !bool_decide_not. destruct (bool_decide (BleemeoAgentID _ = "")); [by eexists|]. by apply otherAgent_known.
Qed.

Lemma prepare_not_ready (m : localMetric) (mr : registerer) :
  ¬ ready mr m → prepareMetricPayload env m (byKey mr) = inr errRetryLater.
Proof.
  unfold ready, prepareMetricPayload. intros H. fold (parentKey m). rewrite bool_decide_true by tauto.
  destruct (byKey mr !! parentKey m); [|done]. destruct H. right. by eexists.
Qed.

Hypothesis accepts : ∀ w p, ∃ result, (registerMetric w p).2 = inl result.
Hypothesis activates : ∀ w id, (setMetricActive w id true).2 = None.
Hypothesis not_cancelled : ∀ w, cancelled w = None.

Lemma fakeMetric_resolvable (w : W) : is_Some (eConfig env) → resolvable (fakeMetric now w) = true.
Proof. intros [docker Hd]. unfold resolvable. by rewrite Hd. Qed.

(** The keys of the registrations that failed before. *)
Variable failed : list string.

(** No other registration failed so far, and nothing is to be registered again. *)
Definition calm (mr : registerer) : Prop :=
  (∀ key, is_Some (failedByKey mr !! key) → key ∈ failed) ∧ countedOnce mr ∧ needReregister mr = [].

(** A metric that can be registered once its parent is: what it refers to is known, and its registration did not fail. *)
Definition eligible (m : localMetric) : Prop := resolvable m = true ∧ metricKey m ∉ failed.

Definition grows (mr mr' : registerer) : Prop := ∀ key, is_Some (byKey mr !! key) → is_Some (byKey mr' !! key).

Lemma grows_trans (mr mr1 mr2 : registerer) : grows mr mr1 → grows mr1 mr2 → grows mr mr2.
Proof. intros H1 H2 key ?. auto. Qed.

Lemma ready_grows (mr mr' : registerer) (m : localMetric) : grows mr mr' → ready mr m → ready mr' m.
Proof. intros H [?|?]; [by left|right; auto]. Qed.

(** What processing a metric does: nothing registered or put aside is lost, and when the metric is eligible it is registered, or put
    aside while its parent is not; an error is left only by a metric that is not eligible or has no parent in the last pass. *)
Definition processed (p : pass) (mr mr' : registerer) (m : localMetric) : Prop :=
  grows mr mr' ∧ retryMetrics mr ⊆ retryMetrics mr' ∧ (∀ m', m' ∈ retryMetrics mr' → m' ∈ retryMetrics mr ∨ m' = m) ∧
  (eligible m → is_Some (byKey mr' !! metricKey m) ∨ (¬ ready mr m ∧ (p ≠ passRetry → m ∈ retryMetrics mr'))) ∧
  (eligible m → (p = passRetry → ready mr m) → pendingErr mr = None → pendingErr mr' = None).

Lemma recordSuccess_calm (mr : registerer) (key : string) : calm mr → calm (recordSuccess range rangeFails mr key).
Proof.
  destruct (recordSuccess_counters mr key) as (Hu & Hp & _ & Hf & Hn & _). unfold calm, countedOnce. rewrite Hu, Hp, Hf, Hn.
  intros (H & ? & ?). split; [|done]. intros k. destruct (decide (k = key)) as [->|]; [by rewrite lookup_delete_eq; intros []|].
  rewrite lookup_delete_ne by done. apply H.
Qed.

Lemma setRegistered_processed (p : pass) (mr : registerer) (m : localMetric) (id : string) (atKey atUUID : Metric) :
  calm mr →
  let mr' := recordSuccess range rangeFails (setRegistered mr (metricKey m) id atKey atUUID) (metricKey m) in
  calm mr' ∧ processed p mr mr' m.
Proof.
  intros Hc. split; [by apply recordSuccess_calm|]. unfold processed, grows.
  destruct (recordSuccess_counters (setRegistered mr (metricKey m) id atKey atUUID) (metricKey m)) as (_ & -> & _ & _ & _ & -> & ->).
  cbn [byKey retryMetrics pendingErr setRegistered]. split; [|split; [done|split; [auto|split; [|done]]]].
  - intros k ?. destruct (decide (k = metricKey m)) as [->|]; [by rewrite lookup_insert_eq|by rewrite lookup_insert_ne].
  - intros _. left. by rewrite lookup_insert_eq.
Qed.

(** An unexpected error is noted and does not end the pass. *)
Lemma unexpected_processed (p : pass) (w : W) (mr : registerer) (m : localMetric) (e : regError) :
  calm mr → (eligible m → p = passRetry ∧ ¬ ready mr m) →
  ∃ w' mr', unexpected w mr e = (w', mr', None) ∧ calm mr' ∧ processed p mr mr' m.
Proof.
  intros (Hf & Hu & Hn) Hm. pose proof (unexpected_counted w mr e Hu) as H. unfold unexpected, processed in *.
  destruct (pendingErr mr); [|destruct H as [H ->]]; do 2 eexists; (split; [done|]); (split; [done|]);
    (split; [by intros ?|]); (split; [done|]); (split; [auto|]); (split; [|naive_solver]); intros ?; right; naive_solver.
Qed.

Lemma update_activates (w : W) (m : localMetric) (remote : Metric) : ∃ w' result, updateOne w m remote = (w', inl result).
Proof.
  unfold metricUpdateOne. destruct (Time.IsZero _); [by do 2 eexists|].
  destruct (lmPoints m _ _) as [[|? ?]|]; [by do 2 eexists| |by do 2 eexists]. destruct (_ <? _); [|by do 2 eexists].
  pose proof (activates w (mID (reactivated remote))) as Ha. destruct (setMetricActive w _ true) as [w' ?]. cbn in Ha. subst. by do 2 eexists.
Qed.

Lemma passOne_accepted (p : pass) (w : W) (mr : registerer) (m : localMetric) :
  calm mr → ∃ w' mr', passOne p w mr m = (w', mr', None) ∧ calm mr' ∧ processed p mr mr' m.
Proof.
  intros Hc. unfold MetricRegister.passOne. destruct (skipFailed now w mr (metricKey m)) eqn:Hskip.
  { exists w, mr. split; [done|]. split; [done|]. assert (¬ eligible m) as Hm; [|unfold processed, grows; naive_solver].
    intros [_ Hm]. unfold skipFailed in Hskip. destruct (failedByKey mr !! metricKey m) eqn:Hf; [|done]. apply Hm, Hc. by rewrite Hf. }
  unfold metricRegisterAndUpdateOne. destruct (byKey mr !! metricKey m) as [remote|] eqn:Hk.
  { destruct (update_activates w m remote) as (w' & result & ->). do 2 eexists. split; [done|]. by apply setRegistered_processed. }
  destruct (prepareMetricPayload env m (byKey mr)) as [[payload|]|e] eqn:Hp.
  - destruct (accepts w payload) as [result Ha]. destruct (registerMetric w payload) as [w' ?]. cbn [snd] in Ha. subst.
    do 2 eexists. split; [done|]. by apply setRegistered_processed.
  - do 2 eexists. split; [done|]. split; [by apply recordSuccess_calm|].
    assert (¬ (resolvable m = true ∧ ready mr m)) as Hm by (intros [? ?]; destruct (prepare_ready m mr) as [? Hq]; [done..|by rewrite Hq in Hp]).
    assert (ready mr m) as Hready by (destruct (decide (StatusOf (lmAnnotations m) = "" ∨ is_Some (byKey mr !! parentKey m))) as [|Hr]; [done|];
      apply prepare_not_ready in Hr; by rewrite Hr in Hp).
    unfold processed, grows. destruct (recordSuccess_counters mr (metricKey m)) as (_ & -> & _ & _ & _ & -> & ->). unfold eligible. naive_solver.
  - assert (eligible m → ¬ ready mr m) as Hm by (intros [? _] ?; destruct (prepare_ready m mr) as [? Hq]; [done..|by rewrite Hq in Hp]).
    assert (eligible m → e = errRetryLater) as He by (intros ?%Hm%prepare_not_ready; congruence).
    destruct (prepare_errors m (byKey mr) e Hp) as [->| ->]; [|apply unexpected_processed; [done|naive_solver]].
    destruct (Z.ltb_spec (passRank p) (passRank passRetry)) as [Hlt|]; [|apply unexpected_processed; [done|];
      intros; split; [by destruct p|auto]]. do 2 eexists. split; [done|]. split; [done|].
    unfold processed, grows. cbn [byKey retryMetrics addRetry pendingErr]. set_solver.
Qed.

(** A pass over metrics: none is lost, and those whose parent was already known are registered. *)
Lemma doOnePass_accepted (p : pass) (l : list localMetric) (w : W) (mr : registerer) :
  calm mr →
  ∃ w' mr', doOnePass p w mr l = (w', mr', None) ∧ calm mr' ∧ grows mr mr' ∧ retryMetrics mr ⊆ retryMetrics mr'
    ∧ (∀ m, m ∈ retryMetrics mr' → m ∈ retryMetrics mr ∨ m ∈ l)
    ∧ (∀ m, m ∈ l → eligible m → is_Some (byKey mr' !! metricKey m) ∨ (¬ ready mr m ∧ (p ≠ passRetry → m ∈ retryMetrics mr')))
    ∧ ((∀ m, m ∈ l → eligible m ∧ (p = passRetry → ready mr m)) → pendingErr mr = None → pendingErr mr' = None).
Proof.
  revert w mr. induction l as [|m l IH]; intros w mr Hc; cbn [MetricRegister.doOnePass]; rewrite not_cancelled.
  - exists w, mr. unfold grows. split; [done|]. split; [done|]. split; [done|]. split; [done|]. split; [auto|]. split; [by intros ? ?%not_elem_of_nil|auto].
  - destruct (passOne_accepted p w mr m Hc) as (w1 & mr1 & -> & Hc1 & Hg1 & Hk1 & Hs1 & Hm1 & He1).
    destruct (IH w1 mr1 Hc1) as (w2 & mr2 & -> & Hc2 & Hg2 & Hk2 & Hs2 & Hm2 & He2).
    exists w2, mr2. split; [done|]. split; [done|]. split; [by eapply grows_trans|]. split; [by etransitivity|].
    split; [|split].
    + intros m' [[?| ->]%Hs1|?]%Hs2; [by left|right; by left|right; by right].
    + intros m' [->|Hm']%elem_of_cons He; [destruct (Hm1 He) as [?|[? Hr]]; [left; auto|right; split; [done|auto]]|].
      destruct (Hm2 m' Hm' He) as [?|[Hr ?]]; [by left|right]. split; [|done]. intros ?. apply Hr. by eapply ready_grows.
    + intros Hl He. apply He2; [|by apply He1; [apply Hl; left..|]]. intros m' Hm'. destruct (Hl m') as [? Hr]; [by right|].
      split; [done|]. intros ?. eapply ready_grows; eauto.
Qed.

Lemma newMetricRegisterer_calm (metrics : list Metric) (fails : list MetricRegistration) (retryable : FailureKind → bool) :
  rgLabelsText <$> fails ⊆ failed → calm (newMetricRegisterer metrics fails retryable).
Proof.
  intros Hf. split; [|done]. cbn [failedByKey newMetricRegisterer]. intros key.
  assert (∀ fails (m : gmap string MetricRegistration), is_Some (foldl (λ m v, <[rgLabelsText v := v]> m) m fails !! key) →
    is_Some (m !! key) ∨ key ∈ rgLabelsText <$> fails) as H.
  { induction fails0 as [|v l IH]; intros m; cbn [foldl]; [by left|]. intros [H|H]%IH; [|right; by right].
    destruct (decide (rgLabelsText v = key)) as [<-|]; [right; by left|]. left. by rewrite lookup_insert_ne in H. }
  intros [[? He]|?]%H; [by rewrite lookup_empty in He|auto].
Qed.

(** A status has its parent: registered before, or an eligible metric of the list. *)
Definition hasParent (metrics : list Metric) (l : list localMetric) (m : localMetric) : Prop :=
  StatusOf (lmAnnotations m) = "" ∨ is_Some (MetricLookupFromList metrics !! parentKey m) ∨
  ∃ parent, parent ∈ l ∧ eligible parent ∧ metricKey parent = parentKey m ∧ StatusOf (lmAnnotations parent) = "".

(** When the API accepts what it is asked, one run registers every eligible metric of the list that has its parent, in
    whatever order they come and whatever the others are: a status whose parent comes after it in the list is put aside and
    registered in the last pass.  The run ends without an error when all the metrics and the status of the agent are such. *)
Lemma do_registers (metrics : list Metric) (fails : list MetricRegistration) (retryable : FailureKind → bool) (w : W) (l : list localMetric) :
  rgLabelsText <$> fails ⊆ failed →
  let '(_, mr, err) := do w (newMetricRegisterer metrics fails retryable) l in
  (∀ m, m ∈ l → eligible m → hasParent metrics l m → is_Some (byKey mr !! metricKey m)) ∧
  (eligible (fakeMetric now w) → (∀ m, m ∈ l → eligible m ∧ hasParent metrics l m) → err = None).
Proof.
  intros Hfails. unfold MetricRegister.do. set (mr := newMetricRegisterer metrics fails retryable).
  destruct (doOnePass_accepted passAgentStatus [fakeMetric now w] w mr) as (w1 & mr1 & -> & Hc1 & Hg1 & _ & Hs1 & _ & He1);
    [by apply newMetricRegisterer_calm|].
  cbn [andThen]. destruct (doOnePass_accepted passMain l w1 mr1 Hc1) as (w2 & mr2 & -> & Hc2 & Hg2 & _ & Hs2 & Hin2 & He2).
  assert (∀ m, hasParent metrics l m → ready mr2 m) as Hready.
  { unfold ready. intros m [?|[?|(parent & Hin & He & <- & Hp)]]; [by left|right; by apply Hg2, Hg1|].
    destruct (Hin2 parent Hin He) as [?|[Hn _]]; [by right|destruct Hn; by left]. }
  cbn [andThen]. assert (needReregister mr2 = []) as Hnr by apply Hc2. unfold MetricRegister.prepareRecreate. rewrite Hnr. cbn [andThen].
  rewrite Hnr. cbn [MetricRegister.doOnePass]. rewrite not_cancelled. cbn [andThen].
  destruct (doOnePass_accepted passRetry (retryMetrics mr2) w2 mr2 Hc2) as (w3 & mr3 & -> & _ & Hg3 & _ & _ & Hin3 & He3).
  cbn [andThen]. split.
  - intros m Hm He Hp. destruct (Hin2 m Hm He) as [?|[_ Hr]]; [by apply Hg3|].
    destruct (Hin3 m (Hr ltac:(done)) He) as [?|[Hn _]]; [done|]. destruct Hn. by apply Hready.
  - intros Hfake Hl. apply He3; [|apply He2; [intros m Hm; split; [by apply Hl|done]|apply He1; [|done]]].
    + intros m [[Hm|Hm]%Hs1|Hm]%Hs2; [by apply not_elem_of_nil in Hm| |split; [by apply Hl|intros _; by apply Hready, Hl]].
      apply list_elem_of_singleton in Hm as ->. split; [done|]. intros _. by left.
    + intros m ->%list_elem_of_singleton. by split.
Qed.
End Accepted.
End Laws.

(** * Witnesses *)
Module Sample.
Definition env : registerEnv := mkEnv "agent" (Some true) ∅ ∅ [] ∅ "scraper".
Definition annotations (statusOf : string) : MetricAnnotations := mkAnnotations "" "" "" statusOf "" "" zeroStatusDescription.
Definition sample (name statusOf : string) : localMetric :=
  mkLocalMetric {[ LabelName := name ]} (annotations statusOf) (λ _ _, None) 0.
Fixpoint name (n : nat) : string := match n with O => "m" | S n => String.append "m" (name n) end.
Definition many : list localMetric := (λ n, sample (name n) "") <$> seq 0 150.
(** The state of the API is the number of its answers; an hour passes at each. *)
Definition accept (w : Z) (p : MetricPayload) : Z * (MetricPayload + callError) := (w + 1, inl p).
Definition refuse (w : Z) (p : MetricPayload) : Z * (MetricPayload + callError) := (w + 1, inr (apiError 400 "")).
Definition activate (w : Z) (id : string) (b : bool) : Z * option callError := (w, None).
Definition find (w : Z) (params : listParams) : Z * (list (string * Metric) + callError) := (w, inl []).
Definition now (w : Z) : Z := (w + 1) * Time.hour.
Definition never (w : Z) : option regError := None.
End Sample.

Lemma refusals_bounded_witness :
  (do Sample.env Sample.refuse Sample.activate Sample.find Sample.now Sample.never map_to_list map_to_list 0
    (newMetricRegisterer [] [] (λ _, true)) Sample.many).1.1 ≤ 0 + 101.
Proof.
  apply (refusals_bounded Sample.env Sample.refuse Sample.activate Sample.find Sample.now Sample.never map_to_list map_to_list (λ w, w));
    intros; cbn; lia.
Defined.

(** The bound is reached: of a hundred and fifty metrics, the last fifty are not tried once the status of the agent and the first hundred were refused. *)
Example refusals_reached :
  (do Sample.env Sample.refuse Sample.activate Sample.find Sample.now Sample.never map_to_list map_to_list 0
    (newMetricRegisterer [] [] (λ _, true)) Sample.many).1.1 = 101.
Proof. vm_compute. reflexivity. Qed.

Lemma retryDelay_overflows_witness : retryDelay 60 = 0.
Proof. apply (retryDelay_overflows 60). lia. Defined.
