(* ===== verification/JmxMetrics.v ===== *)
(** The metrics read over JMX (jmxtrans/jmx_metrics.go): the generic ones, those of
    each type of service, and those of the detailed items of the configuration. *)
From S2P Require Import Prelude Labels Float64 Strings Services.

#[local] Open Scope string_scope.
#[local] Open Scope Z_scope.

Definition defaultGenericMetrics : list JmxMetric :=
  [mkJmxMetric "jvm_heap_used" "java.lang:type=Memory" "HeapMemoryUsage" "used" (F64 0) false false None "";
   mkJmxMetric "jvm_non_heap_used" "java.lang:type=Memory" "NonHeapMemoryUsage" "used" (F64 0) false false None "";
   mkJmxMetric "jvm_gc" "java.lang:type=GarbageCollector,name=*" "CollectionCount" "" (F64 0) true true (Some ["name"]) "";
   mkJmxMetric "jvm_gc_utilization" "java.lang:type=GarbageCollector,name=*" "CollectionTime" "" (F64 0x3fb999999999999a) true true (Some ["name"]) ""].

Definition jmxCassandraMetrics : list JmxMetric :=
  [mkJmxMetric "read_requests_sum" "org.apache.cassandra.metrics:type=ClientRequest,scope=Read,name=Latency" "Count" "" (F64 0) true false None "";
   mkJmxMetric "read_time_average" "org.apache.cassandra.metrics:type=ClientRequest,scope=Read,name=TotalLatency" "Count" "" (F64 0x3eb0c6f7a0b5ed8d) true false None "";
   mkJmxMetric "write_requests_sum" "org.apache.cassandra.metrics:type=ClientRequest,scope=Write,name=Latency" "Count" "" (F64 0) true false None "";
   mkJmxMetric "write_time_average" "org.apache.cassandra.metrics:type=ClientRequest,scope=Write,name=TotalLatency" "Count" "" (F64 0x3eb0c6f7a0b5ed8d) true false None "";
   mkJmxMetric "bloom_filter_false_ratio_sum" "org.apache.cassandra.metrics:type=Table,name=BloomFilterFalseRatio" "Value" "" (F64 0x4059000000000000) false false None "";
   mkJmxMetric "sstable_sum" "org.apache.cassandra.metrics:type=Table,name=LiveSSTableCount" "Value" "" (F64 0) false false None ""].

Definition jmxBitBucketMetrics : list JmxMetric :=
  [mkJmxMetric "events" "com.atlassian.bitbucket.thread-pools:name=EventThreadPool" "CompletedTaskCount" "" (F64 0) true false None "";
   mkJmxMetric "io_tasks" "com.atlassian.bitbucket.thread-pools:name=IoPumpThreadPool" "CompletedTaskCount" "" (F64 0) true false None "";
   mkJmxMetric "tasks" "com.atlassian.bitbucket.thread-pools:name=ScheduledThreadPool" "CompletedTaskCount" "" (F64 0) true false None "";
   mkJmxMetric "pulls" "com.atlassian.bitbucket:name=ScmStatistics" "Pulls" "" (F64 0) true false None "";
   mkJmxMetric "pushes" "com.atlassian.bitbucket:name=ScmStatistics" "Pushes" "" (F64 0) true false None "";
   mkJmxMetric "queued_scm_clients" "com.atlassian.bitbucket:name=HostingTickets" "QueuedRequests" "" (F64 0) false false None "";
   mkJmxMetric "queued_scm_commands" "com.atlassian.bitbucket:name=CommandTickets" "QueuedRequests" "" (F64 0) false false None "";
   mkJmxMetric "queued_events" "com.atlassian.bitbucket:name=EventStatistics" "QueueLength" "" (F64 0) false false None "";
   mkJmxMetric "ssh_connections" "com.atlassian.bitbucket:name=SshSessions" "SessionCreatedCount" "" (F64 0) true false None "";
   mkJmxMetric "requests" "Catalina:type=GlobalRequestProcessor,name=*" "requestCount" "" (F64 0) true true (Some ["name"]) "";
   mkJmxMetric "request_time" "Catalina:type=GlobalRequestProcessor,name=*" "processingTime" "" (F64 0x3f50624dd2f1a9fc) true true (Some ["name"]) "requests";
   mkJmxMetric "requests" "Tomcat:type=GlobalRequestProcessor,name=*" "requestCount" "" (F64 0) true true (Some ["name"]) "";
   mkJmxMetric "request_time" "Tomcat:type=GlobalRequestProcessor,name=*" "processingTime" "" (F64 0x3f50624dd2f1a9fc) true true (Some ["name"]) "requests"].

Definition jmxConfluenceMetrics : list JmxMetric :=
  [mkJmxMetric "last_index_time" "Confluence:name=IndexingStatistics" "LastElapsedMilliseconds" "" (F64 0x3f50624dd2f1a9fc) false false None "";
   mkJmxMetric "queued_index_tasks" "Confluence:name=IndexingStatistics" "TaskQueueLength" "" (F64 0) false false None "";
   mkJmxMetric "db_query_time" "Confluence:name=SystemInformation" "DatabaseExampleLatency" "" (F64 0x3f50624dd2f1a9fc) false false None "";
   mkJmxMetric "queued_mails" "Confluence:name=MailTaskQueue" "TasksSize" "" (F64 0) false false None "";
   mkJmxMetric "queued_error_mails" "Confluence:name=MailTaskQueue" "ErrorQueueSize" "" (F64 0) false false None "";
   mkJmxMetric "requests" "Standalone:type=GlobalRequestProcessor,name=*" "requestCount" "" (F64 0) true true (Some ["name"]) "";
   mkJmxMetric "request_time" "Standalone:type=GlobalRequestProcessor,name=*" "processingTime" "" (F64 0x3f50624dd2f1a9fc) true true (Some ["name"]) "requests"].

Definition jmxJIRAMetrics : list JmxMetric :=
  [mkJmxMetric "requests" "Catalina:type=GlobalRequestProcessor,name=*" "requestCount" "" (F64 0) true true (Some ["name"]) "";
   mkJmxMetric "request_time" "Catalina:type=GlobalRequestProcessor,name=*" "processingTime" "" (F64 0x3f50624dd2f1a9fc) true true (Some ["name"]) "requests"].

Definition jmxKafkaMetrics : list JmxMetric :=
  [mkJmxMetric "topics_count" "kafka.controller:type=KafkaController,name=GlobalTopicCount" "Value" "" (F64 0) false false None "";
   mkJmxMetric "produce_requests_sum" "kafka.server:type=BrokerTopicMetrics,name=TotalProduceRequestsPerSec" "Count" "" (F64 0) true false None "";
   mkJmxMetric "fetch_requests_sum" "kafka.server:type=BrokerTopicMetrics,name=TotalFetchRequestsPerSec" "Count" "" (F64 0) true false None "";
   mkJmxMetric "produce_time_average" "kafka.network:type=RequestMetrics,name=TotalTimeMs,request=Produce" "Mean" "" (F64 0x3f50624dd2f1a9fc) false false None "";
   mkJmxMetric "fetch_time_average" "kafka.network:type=RequestMetrics,name=TotalTimeMs,request=FetchConsumer" "Mean" "" (F64 0x3f50624dd2f1a9fc) false false None ""].

Definition cassandraDetailedTableMetrics : list JmxMetric :=
  [mkJmxMetric "bloom_filter_false_ratio" "org.apache.cassandra.metrics:type=Table,keyspace={keyspace},scope={table},name=BloomFilterFalseRatio" "Value" "" (F64 0x4059000000000000) false false (Some ["keyspace"; "scope"]) "";
   mkJmxMetric "sstable" "org.apache.cassandra.metrics:type=Table,keyspace={keyspace},scope={table},name=LiveSSTableCount" "Value" "" (F64 0) false false (Some ["keyspace"; "scope"]) "";
   mkJmxMetric "read_time" "org.apache.cassandra.metrics:type=Table,keyspace={keyspace},scope={table},name=ReadTotalLatency" "Count" "" (F64 0x3eb0c6f7a0b5ed8d) true false (Some ["keyspace"; "scope"]) "";
   mkJmxMetric "read_requests" "org.apache.cassandra.metrics:type=Table,keyspace={keyspace},scope={table},name=ReadLatency" "Count" "" (F64 0) true false (Some ["keyspace"; "scope"]) "";
   mkJmxMetric "write_time" "org.apache.cassandra.metrics:type=Table,keyspace={keyspace},scope={table},name=WriteTotalLatency" "Count" "" (F64 0x3eb0c6f7a0b5ed8d) true false (Some ["keyspace"; "scope"]) "";
   mkJmxMetric "write_requests" "org.apache.cassandra.metrics:type=Table,keyspace={keyspace},scope={table},name=WriteLatency" "Count" "" (F64 0) true false (Some ["keyspace"; "scope"]) ""].

Definition kafkaDetailedTopicMetrics : list JmxMetric :=
  [mkJmxMetric "produce_requests" "kafka.server:type=BrokerTopicMetrics,name=TotalProduceRequestsPerSec,topic={topic}" "Count" "" (F64 0) true false (Some ["topic"]) "";
   mkJmxMetric "fetch_requests" "kafka.server:type=BrokerTopicMetrics,name=TotalFetchRequestsPerSec,topic={topic}" "Count" "" (F64 0) true false (Some ["topic"]) ""].

Definition jmxTables : list (string * list JmxMetric) :=
  [("cassandra", jmxCassandraMetrics);
   ("bitbucket", jmxBitBucketMetrics);
   ("confluence", jmxConfluenceMetrics);
   ("jira", jmxJIRAMetrics);
   ("kafka", jmxKafkaMetrics)].

Definition defaultServiceMetrics (serviceType : string) : list JmxMetric :=
  match list_find (λ entry, entry.1 = serviceType) jmxTables with
  | Some (_, (_, metrics)) => metrics
  | None => []
  end.

(** [metric.MBean = replacer.Replace(metric.MBean)] *)
Definition withMBean (pairs : list (string * string)) (metric : JmxMetric) : JmxMetric :=
  mkJmxMetric (jmName metric) (Replace pairs (jmMBean metric)) (jmAttribute metric) (jmPath metric)
    (jmScale metric) (jmDerive metric) (jmSum metric) (jmTypeNames metric) (jmRatio metric).

Definition isCollected (service : Service) : bool :=
  svActive service && negb (svMetricsIgnored service) &&
  negb (cfgJMXPort (svConfig service) =? 0) && bool_decide (svIPAddress service ≠ "").

Definition cassandraItem (name : string) : list JmxMetric :=
  match Split "."%char name with
  | [keyspace; table] => withMBean [("{keyspace}", keyspace); ("{table}", table)] <$> cassandraDetailedTableMetrics
  | _ => []
  end.

Definition kafkaItem (topic : string) : list JmxMetric :=
  withMBean [("{topic}", topic)] <$> kafkaDetailedTopicMetrics.

Definition GetJMXMetrics (service : Service) : list JmxMetric :=
  if negb (isCollected service) then []
  else
    let metrics := elems (cfgJMXMetrics (svConfig service)) in
    let metrics := (metrics ++ defaultGenericMetrics)%list in
    let metrics := (metrics ++ defaultServiceMetrics (svServiceType service))%list in
    let items := elems (cfgDetailedItems (svConfig service)) in
    if bool_decide (svServiceType service = "cassandra") then (metrics ++ mjoin (cassandraItem <$> items))%list
    else if bool_decide (svServiceType service = "kafka") then (metrics ++ mjoin (kafkaItem <$> items))%list
    else metrics.

(** A collected service has at least the generic metrics; another one has none. *)
Lemma GetJMXMetrics_collected (service : Service) :
  (GetJMXMetrics service = [] ↔ isCollected service = false) ∧
  (isCollected service = true →
   ∀ metric, metric ∈ (elems (cfgJMXMetrics (svConfig service)) ++ defaultGenericMetrics)%list →
   metric ∈ GetJMXMetrics service).
Proof.
  unfold GetJMXMetrics. destruct (isCollected service); cbn [negb]; split; try done.
  - split; [|done]. destruct (elems (cfgJMXMetrics _)); repeat case_bool_decide; done.
  - intros _ metric Hm. repeat case_bool_decide; rewrite !elem_of_app in *; tauto.
Qed.
