(* ===== verification/MetricFilter.v ===== *)
(** The metric filter (agent/metric-filter/metric.go): the allow and deny lists of the
    configuration, of the services, of the thresholds and of the scrapped targets,
    indexed by the matcher of the metric name, and the decision on a metric.

    The maps of the source are finite maps; [range] and [rangeSet] are the orders in
    which Go visits a map or a set, any permutation of their elements.  A nil dereference
    is [None]. *)
From S2P Require Import Prelude Labels Points Float64 Strings Services Matcher MetricTables JmxMetrics.

#[local] Open Scope string_scope.

(** * Data *)
Definition LabelMetaScrapeInstance : string := "__meta_scrape_instance".
Definition LabelMetaScrapeJob : string := "__meta_scrape_job".
Definition LabelScrapeInstance : string := "scrape_instance".
Definition LabelScrapeJob : string := "scrape_job".

Notation matchersMap := (gmap Matcher (list Matchers)).

Record Filter := mkFilter {
  includeDefaultMetrics : bool;
  staticAllowList : list Matchers;
  staticDenyList : list Matchers;
  allowList : matchersMap;
  denyList : matchersMap
}.

(** config.PrometheusTarget and config.Metric, what the filter reads of them. *)
Record PrometheusTarget := mkPrometheusTarget {
  ptURL : string; ptName : string; ptAllowMetrics : list string; ptDenyMetrics : list string }.

Record configMetric := mkConfigMetric {
  AllowMetrics : list string; DenyMetrics : list string; IncludeDefaultMetrics : bool;
  prometheusTargets : list PrometheusTarget }.

(** What is read of a parsed URL (net/url). *)
Record URL := mkURL { urlScheme : string; urlHostname : string; urlPort : string }.

(** scrapper.Target *)
Record Target := mkTarget { tgAllowList : list string; tgDenyList : list string; tgExtraLabels : Labels }.

(** dto.Metric: its labels, and its value of any type; and dto.MetricFamily. *)
Record dtoMetric (V : Type) := mkDtoMetric { dmLabel : list (string * string); dmValue : V }.
Arguments mkDtoMetric {V} _ _.
Arguments dmLabel {V} _.
Arguments dmValue {V} _.

Record MetricFamily (V : Type) := mkFamily { mfName : string; mfMetric : list (dtoMetric V) }.
Arguments mkFamily {V} _ _.
Arguments mfName {V} _.
Arguments mfMetric {V} _.

(** model.DTO2Labels *)
Definition DTO2Labels (name : string) (input : list (string * string)) : Labels :=
  <["__name__" := name]> (foldl (λ lbls lp, <[lp.1 := lp.2]> lbls) (∅ : Labels) input).

(** scrapper.HostPort *)
Definition HostPort (u : URL) : string :=
  if bool_decide (urlScheme u = "file") || bool_decide (urlScheme u = "") then ""
  else urlHostname u +:+ ":" +:+ urlPort u.

(** The loops that filter a slice in place: the elements from [j] are still to be visited,
    [visit] updates each one where it is, and those to keep are moved to [i]. *)
Fixpoint compactFrom {A : Type} (visit : A → A) (keep : A → bool) (fuel j i : nat) (slice : list A) : list A * nat :=
  match fuel with
  | O => (slice, i)
  | S fuel =>
      match slice !! j with
      | None => (slice, i)
      | Some x =>
          let slice := <[j := visit x]> slice in
          if keep (visit x) then compactFrom visit keep fuel (S j) (S i) (<[i := visit x]> slice)
          else compactFrom visit keep fuel (S j) i slice
      end
  end.

Definition compact {A : Type} (visit : A → A) (keep : A → bool) (slice : list A) : list A :=
  let (slice, i) := compactFrom visit keep (length slice) 0 0 slice in take i slice.

(** [runtime.GOOS] is "windows" or not. *)
Definition getDefaultMetrics (windows forBleemeo hasSwap : bool) : list string :=
  let res := (commonDefaultSystemMetrics ++ inputMetrics)%list in
  if forBleemeo then
    let res := (res ++ bleemeoDefaultSystemMetrics)%list in
    if hasSwap then (res ++ bleemeoSwapMetrics)%list else res
  else if windows then (res ++ promWindowsDefaultSystemMetrics)%list
  else
    let res := (res ++ promLinuxDefaultSystemMetrics)%list in
    if hasSwap then (res ++ promLinuxSwapMetrics)%list else res.

Definition mergeMaps (m1 m2 : matchersMap) : matchersMap := m2 ∪ m1.

Definition matchersEqual (m1 m2 : Matchers) : bool :=
  if negb (length m1 =? length m2)%nat then false
  else forallb (λ p, bool_decide (mType p.1 = mType p.2) && bool_decide (mName p.1 = mName p.2) &&
                     bool_decide (mValue p.1 = mValue p.2)) (zip m1 m2).

(** The filter MergeInPlace writes: nothing of the previous one is left. *)
Definition MergeInPlace (f1 f2 : Filter) : Filter :=
  let denied := filter (λ m1, existsb (matchersEqual m1) (staticDenyList f2) = true) (staticDenyList f1) in
  let denyList := filter (λ kv, is_Some (denyList f2 !! kv.1)) (denyList f1) in
  mkFilter (includeDefaultMetrics f1 || includeDefaultMetrics f2)
    (staticAllowList f1 ++ staticAllowList f2)%list denied
    (mergeMaps (allowList f1) (allowList f2)) denyList.

Definition MergeMetricFilters (f1 f2 : Filter) : Filter := MergeInPlace f1 f2.

Section Filtering.
Context {E : Type}.
Variable matchValue : MatchType → string → string → bool.
Variable selector : string → list spec + E.
Variable newMatcherError : MatchType → string → string → option E.
Variable parseURL : string → option URL.
Variable range : matchersMap → list (Matcher * list Matchers).
Variable rangeSet : gset string → list string.
Variable rangeLabels : gmap string Labels → list (string * Labels).

#[local] Notation Matches := (Matches matchValue).
#[local] Notation matcherMatches := (matcherMatches matchValue).
(** An error of NormalizeMetric, with the text, or one of Add. *)
#[local] Notation error := (string * E + E)%type.

(** * Building the lists *)
Fixpoint buildMatchersList (heap : nat) (metrics : list string) : list Matchers * list error * nat :=
  match metrics with
  | [] => ([], [], heap)
  | str :: metrics =>
      let (res, heap) := NormalizeMetric selector heap str in
      let '(metricList, errors, heap) := buildMatchersList heap metrics in
      match res with
      | inl matchers => (matchers :: metricList, errors, heap)
      | inr err => (metricList, inl err :: errors, heap)
      end
  end.

(** One turn of the loop of matchersToMap. *)
Definition addMatchers (m : matchersMap) (matchers : Matchers) : option matchersMap :=
  newName ← Get matchers LabelName;
  if isRegexp (mType newName) then
    match list_find (λ kv, mType kv.1 = mType newName ∧ mValue kv.1 = mValue newName) (range m) with
    | Some (_, (name, _)) => Some (<[name := (default [] (m !! name) ++ [matchers])%list]> m)
    | None => Some (<[newName := [matchers]]> m)
    end
  else Some (<[newName := (default [] (m !! newName) ++ [matchers])%list]> m).

Definition matchersToMap (matchersList : list Matchers) : option matchersMap :=
  foldl (λ m matchers, m ← m; addMatchers m matchers) (Some ∅) matchersList.

(** The matcher of [label] added to a target's selector that has none. *)
Definition addMissing (heap : nat) (matchers : Matchers) (label value : string) : (Matchers + E) * nat :=
  match Get matchers label with
  | Some _ => (inl matchers, heap)
  | None => Add newMatcherError heap matchers label value MatchEqual
  end.

Fixpoint matchersForScrapperTarget (heap : nat) (targetFilterList : list string) (extraLabels : Labels) :
    list Matchers * nat :=
  match targetFilterList with
  | [] => ([], heap)
  | metric :: rest =>
      let (res, heap) := NormalizeMetric selector heap metric in
      match res with
      | inr _ => matchersForScrapperTarget heap rest extraLabels
      | inl matchers =>
          let (res, heap) := addMissing heap matchers LabelScrapeInstance (lget extraLabels LabelMetaScrapeInstance) in
          match res with
          | inr _ => matchersForScrapperTarget heap rest extraLabels
          | inl matchers =>
              let (res, heap) := addMissing heap matchers LabelScrapeJob (lget extraLabels LabelMetaScrapeJob) in
              let (matchersList, heap) := matchersForScrapperTarget heap rest extraLabels in
              (match res with inl matchers => matchers :: matchersList | inr _ => matchersList end, heap)
          end
      end
  end.

(** config.PrometheusConfigToURLs; the warnings are not read by the filter. *)
Definition PrometheusConfigToURLs (configTargets : list PrometheusTarget) : list Target :=
  omap (λ configTarget,
    targetURL ← parseURL (ptURL configTarget);
    Some (mkTarget (ptAllowMetrics configTarget) (ptDenyMetrics configTarget)
      {[ LabelMetaScrapeJob := ptName configTarget; LabelMetaScrapeInstance := HostPort targetURL ]})) configTargets.

Fixpoint scrapperLists (heap : nat) (targets : list Target) : list Matchers * list Matchers * nat :=
  match targets with
  | [] => ([], [], heap)
  | target :: targets =>
      let (allowMatchers, heap) := matchersForScrapperTarget heap (tgAllowList target) (tgExtraLabels target) in
      let (denyMatchers, heap) := matchersForScrapperTarget heap (tgDenyList target) (tgExtraLabels target) in
      let '(allowed, denied, heap) := scrapperLists heap targets in
      (allowMatchers ++ allowed, denyMatchers ++ denied, heap)%list
  end.

Definition staticScrapperLists (heap : nat) (configTargets : list PrometheusTarget) :
    list Matchers * list Matchers * nat :=
  scrapperLists heap (PrometheusConfigToURLs configTargets).

(** The filter, the warnings and the heap; [None] when matchersToMap dereferences nil. *)
Definition New (windows : bool) (heap : nat) (metricCfg : configMetric) (hasSNMP hasSwap forBleemeo : bool) :
    option (Filter * list error * nat) :=
  let rawAllowList := AllowMetrics metricCfg in
  let rawAllowList := (if hasSNMP then rawAllowList ++ snmpMetrics else rawAllowList)%list in
  let rawAllowList :=
    (if IncludeDefaultMetrics metricCfg then rawAllowList ++ getDefaultMetrics windows forBleemeo hasSwap
     else rawAllowList)%list in
  let '(allowed, warnAllow, heap) := buildMatchersList heap rawAllowList in
  let '(denied, warnDeny, heap) := buildMatchersList heap (DenyMetrics metricCfg) in
  let '(scrapperAllowList, scrapperDenyList, heap) := staticScrapperLists heap (prometheusTargets metricCfg) in
  let allowed := (allowed ++ scrapperAllowList)%list in
  let denied := (denied ++ scrapperDenyList)%list in
  allowMap ← matchersToMap allowed;
  denyMap ← matchersToMap denied;
  Some (mkFilter (IncludeDefaultMetrics metricCfg) allowed denied allowMap denyMap,
        (warnAllow ++ warnDeny)%list, heap).

(** * Deciding *)
(** The loop of isDenied and of isAllowed. *)
Definition mapMatches (m : matchersMap) (lbls : Labels) : bool :=
  existsb (λ kv : Matcher * list Matchers,
    if negb (matcherMatches kv.1 (lget lbls LabelName)) then false
    else existsb (λ val, Matches val lbls) kv.2) (range m).

Definition isDenied (m : Filter) (lbls : Labels) : bool :=
  if (size (denyList m) =? 0)%nat then false else mapMatches (denyList m) lbls.

Definition isAllowed (m : Filter) (lbls : Labels) : bool := mapMatches (allowList m) lbls.

Definition isAllowedAndNotDenied (m : Filter) (lbls : Labels) : bool :=
  negb (isDenied m lbls) && isAllowed m lbls.

Definition FilterPoints (m : Filter) (points : list MetricPoint) : list MetricPoint :=
  compact id (λ point, isAllowedAndNotDenied m (mpLabels point)) points.

(** FilterMetrics, for the metrics of any store. *)
Definition FilterMetrics {A : Type} (labelsOf : A → Labels) (m : Filter) (mt : list A) : list A :=
  compact id (λ metric, isAllowedAndNotDenied m (labelsOf metric)) mt.

Definition getMatchersList (l : matchersMap) (labelName : string) : list Matchers :=
  mjoin ((λ kv : Matcher * list Matchers, if matcherMatches kv.1 labelName then kv.2 else []) <$> range l).

Definition allowedMetric (lbls : Labels) (denyVals allowVals : list Matchers) : bool :=
  if MatchesAny matchValue lbls denyVals then false else MatchesAny matchValue lbls allowVals.

Definition filterFamily {V : Type} (m : Filter) (f : MetricFamily V) : MetricFamily V :=
  let denyVals := getMatchersList (denyList m) (mfName f) in
  let allowVals := getMatchersList (allowList m) (mfName f) in
  mkFamily (mfName f)
    (compact id (λ metric, allowedMetric (DTO2Labels (mfName f) (dmLabel metric)) denyVals allowVals) (mfMetric f)).

(** The families are distinct objects, each updated where it is. *)
Definition FilterFamilies {V : Type} (m : Filter) (f : list (MetricFamily V)) : list (MetricFamily V) :=
  compact (filterFamily m) (λ family, negb (length (mfMetric family) =? 0)%nat) f.

(** * The dynamic lists *)
Definition rebuildServicesMetrics (m : Filter) (services : list Service) (allowed : gset string) : gset string :=
  foldl (λ allowed service,
    if negb (svActive service) then allowed
    else
      let allowed := foldl (λ allowed jmxMetric, {[ svName service +:+ "_" +:+ jmName jmxMetric ]} ∪ allowed)
                       allowed (GetJMXMetrics service) in
      if includeDefaultMetrics m
      then foldl (λ allowed metric, {[ metric ]} ∪ allowed) allowed (getServicesMetrics (svServiceType service))
      else allowed) allowed services.

Definition rebuildThresholdsMetrics (m : Filter) (thresholdMetricNames : list string) (allowed : gset string) : gset string :=
  foldl (λ allowed metric,
    if isAllowedAndNotDenied m {[ LabelName := metric ]} then {[ metric +:+ "_status" ]} ∪ allowed else allowed)
    allowed thresholdMetricNames.

Definition addMetaLabels (heap : nat) (metric scrapeInstance scrapeJob : string) : (Matchers + error) * nat :=
  let (res, heap) := NormalizeMetric selector heap metric in
  match res with
  | inr err => (inr (inl err), heap)
  | inl m =>
      let (res, heap) := Add newMatcherError heap m LabelScrapeInstance scrapeInstance MatchEqual in
      match res with
      | inr err => (inr (inr err), heap)
      | inl m =>
          let (res, heap) := Add newMatcherError heap m LabelScrapeJob scrapeJob MatchEqual in
          (match res with inr err => inr (inr err) | inl m => inl m end, heap)
      end
  end.

(** The loop over a list of a container: it stops at the first error. *)
Fixpoint addMetaLabelsAll (heap : nat) (metrics : list string) (scrapeInstance scrapeJob : string) :
    (list Matchers + error) * nat :=
  match metrics with
  | [] => (inl [], heap)
  | metric :: metrics =>
      let (res, heap) := addMetaLabels heap metric scrapeInstance scrapeJob in
      match res with
      | inr err => (inr err, heap)
      | inl m =>
          let (res, heap) := addMetaLabelsAll heap metrics scrapeInstance scrapeJob in
          (match res with inr err => inr err | inl ms => inl (m :: ms) end, heap)
      end
  end.

(** The list of a container's label; none when the label is missing or empty. *)
Definition labelList (containerLabels : Labels) (label : string) : list string :=
  match containerLabels !! label with
  | Some text => if bool_decide (text ≠ "") then Split ","%char text else []
  | None => []
  end.

Definition rebuildDynamicScrapperLists (heap : nat) (containerLabels extraLabels : Labels) :
    (list Matchers * list Matchers + error) * nat :=
  let allowed := labelList containerLabels "glouton.allow_metrics" in
  let denied := labelList containerLabels "glouton.deny_metrics" in
  let scrapeInstance := lget extraLabels LabelMetaScrapeInstance in
  let scrapeJob := lget extraLabels LabelMetaScrapeJob in
  let (res, heap) := addMetaLabelsAll heap allowed scrapeInstance scrapeJob in
  match res with
  | inr err => (inr err, heap)
  | inl allowMatchers =>
      let (res, heap) := addMetaLabelsAll heap denied scrapeInstance scrapeJob in
      (match res with inr err => inr err | inl denyMatchers => inl (allowMatchers, denyMatchers) end, heap)
  end.

(** The loop over the registered targets of the dynamic scrapper. *)
Fixpoint dynamicLists (heap : nat) (containersLabels : gmap string Labels) (registered : list (string * Labels)) :
    list Matchers * list Matchers * list error * nat :=
  match registered with
  | [] => ([], [], [], heap)
  | (key, val) :: registered =>
      let (res, heap) := rebuildDynamicScrapperLists heap (default ∅ (containersLabels !! key)) val in
      let '(allowed, denied, warnings, heap) := dynamicLists heap containersLabels registered in
      match res with
      | inr err => (allowed, denied, err :: warnings, heap)
      | inl (scrapperAllow, scrapperDeny) => (scrapperAllow ++ allowed, scrapperDeny ++ denied, warnings, heap)%list
      end
  end.

(** [scrapper], when not nil, is what GetRegisteredLabels and GetContainersLabels return. *)
Definition RebuildDynamicLists (m : Filter) (heap : nat) (scrapper : option (gmap string Labels * gmap string Labels))
    (services : list Service) (thresholdMetricNames alertMetrics : list string) :
    option (Filter * list error * nat) :=
  let allowed := foldl (λ allowed metric, {[ metric ]} ∪ allowed) (∅ : gset string) alertMetrics in
  let allowed := rebuildServicesMetrics m services allowed in
  let allowed := rebuildThresholdsMetrics m thresholdMetricNames allowed in
  let '(allows, warnings, heap) := buildMatchersList heap (rangeSet allowed) in
  let '(scrapperAllow, scrapperDeny, more, heap) :=
    match scrapper with
    | Some (registeredLabels, containersLabels) => dynamicLists heap containersLabels (rangeLabels registeredLabels)
    | None => ([], [], [], heap)
    end in
  allowMap ← matchersToMap (allows ++ scrapperAllow ++ staticAllowList m)%list;
  denyMap ← matchersToMap (scrapperDeny ++ staticDenyList m)%list;
  Some (mkFilter (includeDefaultMetrics m) (staticAllowList m) (staticDenyList m) allowMap denyMap,
        (warnings ++ more)%list, heap).
End Filtering.

(** * Filtering in place *)
Lemma compactFrom_take {A : Type} (visit : A → A) (keep : A → bool) (fuel j i : nat) (l : list A) :
  (i ≤ j)%nat → (length l ≤ j + fuel)%nat →
  take (compactFrom visit keep fuel j i l).2 (compactFrom visit keep fuel j i l).1 =
  (take i l ++ filter (λ x, keep x = true) (visit <$> drop j l))%list.
Proof.
  revert j i l. induction fuel as [|fuel IH]; intros j i l Hij Hl.
  { rewrite drop_ge by lia. simpl. by rewrite app_nil_r. }
  cbn [compactFrom]. destruct (l !! j) as [x|] eqn:Hx; [|apply lookup_ge_None in Hx; rewrite drop_ge by lia; by rewrite app_nil_r].
  pose proof (lookup_lt_Some _ _ _ Hx) as Hj. rewrite (drop_S _ _ _ Hx). cbn [fmap list_fmap]. rewrite filter_cons.
  destruct (keep (visit x)) eqn:Hk.
  - rewrite decide_True by done. rewrite IH by (rewrite ?length_insert; lia).
    rewrite drop_insert_lt, drop_insert_lt by lia.
    rewrite (take_S_r _ i (visit x)) by (apply list_lookup_insert_eq; rewrite length_insert; lia).
    rewrite take_insert_ge, take_insert_ge by lia. by rewrite <-app_assoc.
  - rewrite decide_False by congruence. rewrite IH by (rewrite ?length_insert; lia).
    by rewrite drop_insert_lt, take_insert_ge by lia.
Qed.

Lemma compact_filter {A : Type} (visit : A → A) (keep : A → bool) (l : list A) :
  compact visit keep l = filter (λ x, keep x = true) (visit <$> l).
Proof.
  pose proof (compactFrom_take visit keep (length l) 0 0 l) as H. unfold compact.
  destruct (compactFrom _ _ _ _ _ _) as [l' i]. by apply H.
Qed.

Lemma existsb_elem {A : Type} (f : A → bool) (l : list A) : existsb f l = true ↔ ∃ x, x ∈ l ∧ f x = true.
Proof. rewrite existsb_exists. by setoid_rewrite list_elem_of_In. Qed.

Lemma join_cons {A : Type} (x : list A) (l : list (list A)) : mjoin (x :: l) = (x ++ mjoin l)%list.
Proof. done. Qed.

(** A loop whose turns each add the names of one element. *)
Lemma foldl_elem {A : Type} (step : gset string → A → gset string) (P : A → Prop) (name : string) :
  (∀ X x, name ∈ step X x ↔ name ∈ X ∨ P x) →
  ∀ l X, name ∈ foldl step X l ↔ name ∈ X ∨ ∃ y, y ∈ l ∧ P y.
Proof.
  intros Hstep. induction l as [|x l IH]; intros X; cbn [foldl].
  - split; [by left|]. intros [H|(y & Hy%not_elem_of_nil & _)]; done.
  - rewrite IH, Hstep. split.
    + intros [[H|H]|(y & Hy & H)]; [by left| |]; right; [exists x|exists y]; split; try done; [left|by right].
    + intros [H|(y & [->|Hy]%elem_of_cons & H)]; [by left; left|by left; right|right; by exists y].
Qed.

Lemma foldl_union_elem {A : Type} (f : A → string) (l : list A) (X : gset string) (name : string) :
  name ∈ foldl (λ X y, {[ f y ]} ∪ X) X l ↔ name ∈ X ∨ ∃ y, y ∈ l ∧ name = f y.
Proof. apply foldl_elem. intros Y x. rewrite elem_of_union, elem_of_singleton. tauto. Qed.

Section Index.
Variable matchValue : MatchType → string → string → bool.
Variable range : matchersMap → list (Matcher * list Matchers).

Hypothesis range_perm : ∀ m, range m ≡ₚ map_to_list m.

#[local] Notation mapMatches := (mapMatches matchValue range).
#[local] Notation decision := (isAllowedAndNotDenied matchValue range).
#[local] Notation MatchesAny := (MatchesAny matchValue).

(** * The index by name *)
(** The selectors of [l], each one under a key that has the type and the value of its
    matcher of the name. *)
Definition indexes (m : matchersMap) (l : list Matchers) : Prop :=
  (∀ k vals ms, m !! k = Some vals → ms ∈ vals →
     ms ∈ l ∧ ∃ n, Get ms LabelName = Some n ∧ mType n = mType k ∧ mValue n = mValue k) ∧
  (∀ ms, ms ∈ l → ∃ k vals, m !! k = Some vals ∧ ms ∈ vals).

Lemma indexes_insert (m : matchersMap) (l : list Matchers) (k n : Matcher) (ms : Matchers) :
  indexes m l → Get ms LabelName = Some n → mType n = mType k → mValue n = mValue k →
  indexes (<[k := (default [] (m !! k) ++ [ms])%list]> m) (l ++ [ms])%list.
Proof.
  intros [Hin Hall] Hget Ht Hv. split.
  - intros k' vals ms' [[<- <-]|[Hne Hk]]%lookup_insert_Some Hms.
    + apply elem_of_app in Hms as [Hms| ->%list_elem_of_singleton].
      * destruct (m !! k) as [vals|] eqn:Hk; [|by apply not_elem_of_nil in Hms].
        destruct (Hin _ _ _ Hk Hms) as [Hl Hn]. split; [apply elem_of_app; by left|done].
      * split; [apply elem_of_app; right; by apply list_elem_of_singleton|by exists n].
    + destruct (Hin _ _ _ Hk Hms) as [Hl Hn]. split; [apply elem_of_app; by left|done].
  - intros ms' [Hl| ->%list_elem_of_singleton]%elem_of_app.
    + destruct (Hall _ Hl) as (k' & vals & Hk & Hms). destruct (decide (k = k')) as [<-|Hne].
      * exists k. eexists. rewrite lookup_insert_eq, Hk. split; [done|]. apply elem_of_app. by left.
      * exists k', vals. by rewrite lookup_insert_ne.
    + exists k. eexists. rewrite lookup_insert_eq. split; [done|]. apply elem_of_app. right. by apply list_elem_of_singleton.
Qed.

Lemma addMatchers_indexes (m m' : matchersMap) (l : list Matchers) (ms : Matchers) :
  indexes m l → addMatchers range m ms = Some m' → indexes m' (l ++ [ms])%list.
Proof.
  intros Hi. unfold addMatchers. destruct (Get ms LabelName) as [n|] eqn:Hget; [|done]. cbn [mbind option_bind].
  destruct (isRegexp (mType n)).
  - destruct (list_find _ _) as [[i [k vals]]|] eqn:Hf; intros [= <-].
    + apply list_find_Some in Hf as (_ & [Ht Hv] & _). by eapply indexes_insert.
    + replace [ms] with (default [] (m !! n) ++ [ms])%list at 1; [by eapply indexes_insert|].
      destruct (m !! n) as [vals|] eqn:Hk; [|done]. apply list_find_None in Hf.
      rewrite Forall_forall in Hf. destruct (Hf (n, vals)); [|done].
      by rewrite range_perm, elem_of_map_to_list.
  - intros [= <-]. by eapply indexes_insert.
Qed.

Lemma addMatchers_None (m : matchersMap) (ms : Matchers) :
  addMatchers range m ms = None ↔ Get ms LabelName = None.
Proof.
  unfold addMatchers. destruct (Get ms LabelName) as [n|]; [|done]. cbn [mbind option_bind].
  destruct (isRegexp _); [|done]. by destruct (list_find _ _) as [[? []]|].
Qed.

Lemma matchersToMap_snoc (l : list Matchers) (ms : Matchers) :
  matchersToMap range (l ++ [ms])%list = m ← matchersToMap range l; addMatchers range m ms.
Proof. unfold matchersToMap. by rewrite foldl_app. Qed.

Lemma matchersToMap_indexes (l : list Matchers) (m : matchersMap) :
  matchersToMap range l = Some m → indexes m l.
Proof.
  revert m. induction l as [|ms l IH] using rev_ind; intros m.
  - intros [= <-]. split; [|by intros ? ?%not_elem_of_nil]. intros k vals ms. by rewrite lookup_empty.
  - rewrite matchersToMap_snoc. intros (m0 & Hm0 & Ha)%bind_Some. eapply addMatchers_indexes; eauto.
Qed.

Lemma matchersToMap_None (l : list Matchers) :
  matchersToMap range l = None ↔ Exists (λ ms, Get ms LabelName = None) l.
Proof.
  induction l as [|ms l IH] using rev_ind; [split; [done|by intros ?%Exists_nil]|].
  rewrite matchersToMap_snoc, Exists_app, Exists_cons, Exists_nil, <-IH.
  destruct (matchersToMap range l) as [m|]; [|naive_solver]. cbn [mbind option_bind].
  rewrite addMatchers_None. naive_solver.
Qed.

Lemma mapMatches_true (m : matchersMap) (lbls : Labels) :
  mapMatches m lbls = true ↔
  ∃ k vals ms, m !! k = Some vals ∧ ms ∈ vals ∧
    matcherMatches matchValue k (lget lbls LabelName) = true ∧ Matches matchValue ms lbls = true.
Proof.
  unfold mapMatches. rewrite existsb_elem. split.
  - intros ([k vals] & Hk & Hm). rewrite range_perm, elem_of_map_to_list in Hk. simpl in Hm.
    destruct (matcherMatches _ k _) eqn:Hkm; [|done]. cbn [negb] in Hm.
    apply existsb_elem in Hm as (ms & Hms & Hm). by exists k, vals, ms.
  - intros (k & vals & ms & Hk & Hms & Hkm & Hm). exists (k, vals). rewrite range_perm, elem_of_map_to_list.
    split; [done|]. simpl. rewrite Hkm. apply existsb_elem. by exists ms.
Qed.

(** The index is only an optimisation. *)
Lemma indexes_matches (m : matchersMap) (l : list Matchers) (lbls : Labels) :
  indexes m l → mapMatches m lbls = MatchesAny lbls l.
Proof.
  intros [Hin Hall]. apply eq_true_iff_eq. rewrite mapMatches_true. unfold Matcher.MatchesAny. rewrite existsb_elem.
  split.
  - intros (k & vals & ms & Hk & Hms & _ & Hm). exists ms. by destruct (Hin _ _ _ Hk Hms).
  - intros (ms & Hms & Hm). destruct (Hall _ Hms) as (k & vals & Hk & Hv). exists k, vals, ms.
    do 2 (split; [done|]). split; [|done]. destruct (Hin _ _ _ Hk Hv) as (_ & n & Hget & Ht & Hval).
    unfold matcherMatches. rewrite <-Ht, <-Hval. by eapply Get_Matches.
Qed.

Lemma isDenied_matches (f : Filter) (lbls : Labels) : isDenied matchValue range f lbls = mapMatches (denyList f) lbls.
Proof.
  unfold isDenied. destruct (size (denyList f) =? 0)%nat eqn:Hs; [|done]. symmetry. apply not_true_iff_false.
  apply Nat.eqb_eq, map_size_empty_iff in Hs. rewrite Hs, mapMatches_true. intros (k & vals & ms & Hk & _).
  by rewrite lookup_empty in Hk.
Qed.

(** * Filtering *)
Lemma getMatchersList_matches (m : matchersMap) (lbls : Labels) (name : string) :
  lget lbls LabelName = name → MatchesAny lbls (getMatchersList matchValue range m name) = mapMatches m lbls.
Proof.
  intros <-. unfold getMatchersList, MetricFilter.mapMatches, Matcher.MatchesAny.
  induction (range m) as [|[k vals] l IH]; [done|]. rewrite fmap_cons. cbn [existsb fst snd].
  rewrite join_cons, existsb_app, IH. by destruct (matcherMatches matchValue k _).
Qed.

Lemma DTO2Labels_name (name : string) (input : list (string * string)) : lget (DTO2Labels name input) LabelName = name.
Proof. unfold lget, DTO2Labels. change "__name__" with LabelName. by rewrite lookup_insert_eq. Qed.

Lemma allowedMetric_decision (f : Filter) (name : string) (input : list (string * string)) :
  allowedMetric matchValue (DTO2Labels name input) (getMatchersList matchValue range (denyList f) name)
    (getMatchersList matchValue range (allowList f) name) = decision f (DTO2Labels name input).
Proof.
  unfold allowedMetric, isAllowedAndNotDenied, isAllowed. rewrite isDenied_matches.
  rewrite !(getMatchersList_matches _ _ name) by apply DTO2Labels_name. by destruct (mapMatches _ _).
Qed.

(** Whether it comes as a point or within a family, a metric is judged by the same
    decision.  The points are those that pass, in order; a family keeps the metrics that
    pass, in order, and is dropped when none is left: the families and points moved within
    their slices are never lost or duplicated. *)
Theorem filters_agree {V : Type} (f : Filter) (families : list (MetricFamily V)) (points : list MetricPoint) :
  FilterFamilies matchValue range f families =
    filter (λ family, mfMetric family ≠ [])
      ((λ family, mkFamily (mfName family)
          (filter (λ metric, decision f (DTO2Labels (mfName family) (dmLabel metric)) = true) (mfMetric family))) <$> families) ∧
  FilterPoints matchValue range f points = filter (λ point, decision f (mpLabels point) = true) points.
Proof.
  split; [|unfold FilterPoints; by rewrite compact_filter, list_fmap_id].
  unfold FilterFamilies. rewrite compact_filter.
  assert (∀ family : MetricFamily V, filterFamily matchValue range f family =
    mkFamily (mfName family)
      (filter (λ metric, decision f (DTO2Labels (mfName family) (dmLabel metric)) = true) (mfMetric family))) as Hf.
  { intros family. unfold filterFamily. rewrite compact_filter, list_fmap_id. f_equal.
    apply list_filter_iff. intros metric. by rewrite allowedMetric_decision. }
  erewrite list_fmap_ext by (intros; apply Hf). apply list_filter_iff. intros [name [|metric metrics]]; simpl; naive_solver.
Qed.

(** * Merging two filters *)
Lemma mapMatches_mergeMaps (m1 m2 : matchersMap) (lbls : Labels) :
  mapMatches (mergeMaps m1 m2) lbls = true ↔
  mapMatches m2 lbls = true ∨ mapMatches (m1 ∖ m2) lbls = true.
Proof.
  rewrite !mapMatches_true. unfold mergeMaps. setoid_rewrite lookup_union_Some_raw. setoid_rewrite lookup_difference_Some.
  split.
  - intros (k & vals & ms & [Hk|[Hn Hk]] & H); [left|right]; by exists k, vals, ms.
  - intros [(k & vals & ms & Hk & H)|(k & vals & ms & [Hk Hn] & H)]; exists k, vals, ms; (split; [|done]); [by left|by right].
Qed.

Lemma mapMatches_subseteq (m1 m2 : matchersMap) (lbls : Labels) :
  (∀ k vals ms, m1 !! k = Some vals → ms ∈ vals → ∃ vals', m2 !! k = Some vals' ∧ ms ∈ vals') →
  mapMatches m1 lbls = true → mapMatches m2 lbls = true.
Proof.
  rewrite !mapMatches_true. intros Hsub (k & vals & ms & Hk & Hms & H).
  destruct (Hsub _ _ _ Hk Hms) as (vals' & Hk' & Hms'). by exists k, vals', ms.
Qed.

(** The filters that MergeInPlace can merge: a key of both has, in the second, the selectors
    of the first, and the deny lists are the same. *)
Definition mergeable (f1 f2 : Filter) : Prop :=
  (∀ k vals1 vals2 ms, allowList f1 !! k = Some vals1 → allowList f2 !! k = Some vals2 → ms ∈ vals1 → ms ∈ vals2) ∧
  denyList f1 = denyList f2.

Lemma merge_denies_same (f1 f2 : Filter) : denyList f1 = denyList f2 → denyList (MergeInPlace f1 f2) = denyList f1.
Proof.
  intros Hd. unfold MergeInPlace. cbn [denyList]. rewrite <-Hd. apply map_filter_id. intros k vals Hk. simpl. by rewrite Hk.
Qed.

(** The merge of two mergeable filters accepts exactly what one of them accepts.  Of any
    two filters, it allows what the second one allows, only what one of them allows, and it
    denies only what the first one denies. *)
Theorem merge_union (f1 f2 : Filter) (lbls : Labels) :
  (isAllowed matchValue range f2 lbls = true → isAllowed matchValue range (MergeInPlace f1 f2) lbls = true) ∧
  (isAllowed matchValue range (MergeInPlace f1 f2) lbls = true →
   isAllowed matchValue range f1 lbls = true ∨ isAllowed matchValue range f2 lbls = true) ∧
  (isDenied matchValue range (MergeInPlace f1 f2) lbls = true → isDenied matchValue range f1 lbls = true) ∧
  (mergeable f1 f2 → decision (MergeInPlace f1 f2) lbls = decision f1 lbls || decision f2 lbls).
Proof.
  assert (mapMatches (allowList f1 ∖ allowList f2) lbls = true → mapMatches (allowList f1) lbls = true) as Hdiff.
  { apply mapMatches_subseteq. intros k vals ms [Hk _]%lookup_difference_Some Hms. by exists vals. }
  unfold isAllowed. cbn [MergeInPlace allowList]. rewrite mapMatches_mergeMaps. split; [by left|]. split; [naive_solver|].
  rewrite !isDenied_matches. split.
  - apply mapMatches_subseteq. intros k vals ms [Hk _]%map_lookup_filter_Some Hms. by exists vals.
  - intros [Ha Hd]. unfold isAllowedAndNotDenied, isAllowed. rewrite !isDenied_matches, merge_denies_same, <-Hd by done.
    rewrite <-andb_orb_distrib_r. f_equal. apply eq_true_iff_eq. cbn [MergeInPlace allowList].
    rewrite mapMatches_mergeMaps, orb_true_iff. split; [naive_solver|]. intros [H|H]; [|by left].
    apply mapMatches_true in H as (k & vals & ms & Hk & Hms & H). rewrite !mapMatches_true.
    setoid_rewrite lookup_difference_Some. destruct (allowList f2 !! k) as [vals2|] eqn:Hk2.
    + left. exists k, vals2, ms. eauto.
    + right. by exists k, vals, ms.
Qed.
End Index.

Section Lists.
Context {E : Type}.
Variable matchValue : MatchType → string → string → bool.
Variable selector : string → list spec + E.
Variable newMatcherError : MatchType → string → string → option E.
Variable range : matchersMap → list (Matcher * list Matchers).
Variable rangeSet : gset string → list string.
Variable rangeLabels : gmap string Labels → list (string * Labels).

Hypothesis range_perm : ∀ m, range m ≡ₚ map_to_list m.

#[local] Notation mapMatches := (mapMatches matchValue range).
#[local] Notation decision := (isAllowedAndNotDenied matchValue range).

(** * What the lists hold *)
(** NewMatcher only fails on a regular expression that does not compile. *)
Hypothesis newMatcher_equal : ∀ label value, newMatcherError MatchEqual label value = None.

#[local] Notation normalized := (normalized selector).

(** The selectors of the entries that are parsed; an entry that is not is a warning. *)
Definition listSpecs (metrics : list string) : list (list spec) := omap normalized metrics.

Definition listWarnings (metrics : list string) : list (string * E + E) :=
  omap (λ metric, match selector (selectorText metric) with
                  | inl _ => None
                  | inr err => Some (inl (selectorText metric, err))
                  end) metrics.

Lemma buildMatchersList_spec (heap : nat) (metrics : list string) :
  let '(l, warnings, _) := buildMatchersList selector heap metrics in
  eraseAll <$> l = listSpecs metrics ∧ warnings = listWarnings metrics.
Proof.
  revert heap. induction metrics as [|metric metrics IH]; intros heap; [done|]. cbn [buildMatchersList].
  unfold NormalizeMetric, listSpecs, listWarnings, Matcher.normalized in *. cbn [omap list_omap].
  destruct (selector (selectorText metric)) as [specs|err].
  - pose proof (allocate_erase heap specs) as Ha. destruct (allocate heap specs) as [ms heap'].
    specialize (IH heap'). destruct (buildMatchersList selector heap' metrics) as [[l w] h].
    destruct IH as [IHl IHw]. cbn [fst] in Ha. split; [|exact IHw]. by rewrite fmap_cons, Ha, IHl.
  - specialize (IH heap). destruct (buildMatchersList selector heap metrics) as [[l w] h].
    destruct IH as [IHl IHw]. split; [exact IHl|]. by rewrite IHw.
Qed.

(** The matcher a static target adds to its selectors. *)
Definition withLabel (label value : string) (specs : list spec) : list spec :=
  if bool_decide (Exists (λ s : spec, s.1.2 = label) specs) then specs
  else (specs ++ [(MatchEqual, label, value)])%list.

Definition targetSpecs (extraLabels : Labels) (metrics : list string) : list (list spec) :=
  (λ specs, withLabel LabelScrapeJob (lget extraLabels LabelMetaScrapeJob)
              (withLabel LabelScrapeInstance (lget extraLabels LabelMetaScrapeInstance) specs)) <$> listSpecs metrics.

Lemma addMissing_spec (heap : nat) (ms : Matchers) (label value : string) :
  ∃ ms' heap', addMissing newMatcherError heap ms label value = (inl ms', heap') ∧
    eraseAll ms' = withLabel label value (eraseAll ms).
Proof.
  unfold addMissing, withLabel. pose proof (Get_erase ms label) as Hg. destruct (Get ms label) as [n|].
  - exists ms, heap. rewrite bool_decide_true by (by apply Hg). done.
  - rewrite bool_decide_false by (intros H; apply Hg in H as [? ?]; done). by apply Add_spec.
Qed.

Lemma matchersForScrapperTarget_spec (heap : nat) (metrics : list string) (extraLabels : Labels) :
  eraseAll <$> (matchersForScrapperTarget selector newMatcherError heap metrics extraLabels).1 =
  targetSpecs extraLabels metrics.
Proof.
  revert heap. induction metrics as [|metric metrics IH]; intros heap; [done|]. cbn [matchersForScrapperTarget].
  pose proof (NormalizeMetric_spec selector heap metric) as Hn.
  destruct (NormalizeMetric selector heap metric) as [[ms|[text err]] h1]; cbn [fst] in Hn.
  - destruct (addMissing_spec h1 ms LabelScrapeInstance (lget extraLabels LabelMetaScrapeInstance)) as (ms2 & h2 & -> & H2).
    destruct (addMissing_spec h2 ms2 LabelScrapeJob (lget extraLabels LabelMetaScrapeJob)) as (ms3 & h3 & -> & H3).
    specialize (IH h3). destruct (matchersForScrapperTarget _ _ h3 _ _) as [l h4].
    unfold targetSpecs, listSpecs in *. cbn [omap list_omap fst] in *. by rewrite Hn, !fmap_cons, IH, H3, H2.
  - destruct Hn as [Hn _]. rewrite IH. unfold targetSpecs, listSpecs. cbn [omap list_omap]. by rewrite Hn.
Qed.

Lemma scrapperLists_spec (heap : nat) (targets : list Target) :
  let '(allowed, denied, _) := scrapperLists selector newMatcherError heap targets in
  eraseAll <$> allowed = mjoin ((λ target, targetSpecs (tgExtraLabels target) (tgAllowList target)) <$> targets) ∧
  eraseAll <$> denied = mjoin ((λ target, targetSpecs (tgExtraLabels target) (tgDenyList target)) <$> targets).
Proof.
  revert heap. induction targets as [|target targets IH]; intros heap; [done|]. cbn [scrapperLists].
  pose proof (matchersForScrapperTarget_spec heap (tgAllowList target) (tgExtraLabels target)) as Ha.
  destruct (matchersForScrapperTarget _ _ heap _ _) as [a h1].
  pose proof (matchersForScrapperTarget_spec h1 (tgDenyList target) (tgExtraLabels target)) as Hd.
  destruct (matchersForScrapperTarget _ _ h1 _ _) as [d h2].
  specialize (IH h2). destruct (scrapperLists _ _ h2 targets) as [[al dl] h3]. destruct IH as [IHa IHd].
  cbn [fst] in *. by rewrite !fmap_app, Ha, Hd, IHa, IHd.
Qed.

(** The entries of the allow list and of the deny list of a configuration. *)
Definition allowEntries (windows : bool) (cfg : configMetric) (hasSNMP hasSwap forBleemeo : bool) : list string :=
  (AllowMetrics cfg ++ (if hasSNMP then snmpMetrics else []) ++
   (if IncludeDefaultMetrics cfg then getDefaultMetrics windows forBleemeo hasSwap else []))%list.

Definition configAllows (parseURL : string → option URL) (windows : bool) (cfg : configMetric) (hasSNMP hasSwap forBleemeo : bool) : list (list spec) :=
  (listSpecs (allowEntries windows cfg hasSNMP hasSwap forBleemeo) ++
   mjoin ((λ target, targetSpecs (tgExtraLabels target) (tgAllowList target)) <$>
          PrometheusConfigToURLs parseURL (prometheusTargets cfg)))%list.

Definition configDenies (parseURL : string → option URL) (cfg : configMetric) : list (list spec) :=
  (listSpecs (DenyMetrics cfg) ++
   mjoin ((λ target, targetSpecs (tgExtraLabels target) (tgDenyList target)) <$>
          PrometheusConfigToURLs parseURL (prometheusTargets cfg)))%list.

(** A selector without a matcher of the metric name. *)
Definition nameless (specs : list spec) : Prop := Forall (λ s : spec, s.1.2 ≠ LabelName) specs.

Lemma matchersToMap_nameless (l : list Matchers) :
  matchersToMap range l = None ↔ Exists nameless (eraseAll <$> l).
Proof.
  assert (∀ ms, Get ms LabelName = None ↔ nameless (eraseAll ms)) as Hg.
  { intros ms. unfold nameless. rewrite eq_None_not_Some, Get_erase. split.
    - apply not_Exists_Forall, _.
    - apply Forall_not_Exists. }
  rewrite matchersToMap_None, Exists_fmap.
  split; intros H; (eapply Exists_impl; [exact H|]); intros ms Hms; by apply Hg.
Qed.

Lemma matchersToMap_matches (l : list Matchers) (m : matchersMap) (lbls : Labels) :
  matchersToMap range l = Some m → mapMatches m lbls = existsb (specsMatch matchValue lbls) (eraseAll <$> l).
Proof. intros Hm. rewrite <-MatchesAny_erase. apply indexes_matches; [done|]. by apply (matchersToMap_indexes range). Qed.

(** What a pair of lists gives: the index of each one, or a nil dereference. *)
Lemma matchersToMap_both {A : Type} (a d : list Matchers) (k : matchersMap → matchersMap → A) :
  match (allowMap ← matchersToMap range a; denyMap ← matchersToMap range d; Some (k allowMap denyMap)) with
  | Some r => ∃ am dm, r = k am dm ∧ matchersToMap range a = Some am ∧ matchersToMap range d = Some dm ∧
                ¬ Exists nameless ((eraseAll <$> a) ++ (eraseAll <$> d))%list
  | None => Exists nameless ((eraseAll <$> a) ++ (eraseAll <$> d))%list
  end.
Proof.
  pose proof (matchersToMap_nameless a) as Ha. pose proof (matchersToMap_nameless d) as Hd.
  destruct (matchersToMap range a) as [am|]; [|apply Exists_app; left; by apply Ha].
  destruct (matchersToMap range d) as [dm|]; [|apply Exists_app; right; by apply Hd]. cbn [mbind option_bind].
  exists am, dm. repeat split. intros [H|H]%Exists_app; [by apply Ha in H|by apply Hd in H].
Qed.

(** C35. The filter of a configuration accepts exactly the metrics that one of the allow
    selectors and none of the deny selectors selects: those of the lists of the
    configuration, of the SNMP and default metrics when asked, and of each Prometheus
    target, limited to its job and its instance unless the selector says otherwise.  The
    index by name changes nothing, nor the order in which the maps are visited.  The
    entries that are not parsed are the warnings, and the program fails on a nil pointer
    exactly when one of the selectors has no matcher of the name. *)
Theorem New_decision (parseURL : string → option URL) (windows : bool) (heap : nat) (cfg : configMetric) (hasSNMP hasSwap forBleemeo : bool) :
  let allows := configAllows parseURL windows cfg hasSNMP hasSwap forBleemeo in
  let denies := configDenies parseURL cfg in
  match New selector newMatcherError parseURL range windows heap cfg hasSNMP hasSwap forBleemeo with
  | Some (f, warnings, _) =>
      (∀ lbls, decision f lbls =
         negb (existsb (specsMatch matchValue lbls) denies) && existsb (specsMatch matchValue lbls) allows) ∧
      warnings = (listWarnings (allowEntries windows cfg hasSNMP hasSwap forBleemeo) ++ listWarnings (DenyMetrics cfg))%list ∧
      ¬ Exists nameless (allows ++ denies)%list
  | None => Exists nameless (allows ++ denies)%list
  end.
Proof.
  intros allows denies. unfold New.
  set (raw := if IncludeDefaultMetrics cfg then _ else _).
  assert (raw = allowEntries windows cfg hasSNMP hasSwap forBleemeo) as ->.
  { subst raw. unfold allowEntries. destruct (IncludeDefaultMetrics cfg), hasSNMP; by rewrite ?app_nil_r, <-?app_assoc. }
  pose proof (buildMatchersList_spec heap (allowEntries windows cfg hasSNMP hasSwap forBleemeo)) as Ha.
  destruct (buildMatchersList _ heap _) as [[a wa] h1]. destruct Ha as [Ha ->].
  pose proof (buildMatchersList_spec h1 (DenyMetrics cfg)) as Hd.
  destruct (buildMatchersList _ h1 _) as [[d wd] h2]. destruct Hd as [Hd ->].
  unfold staticScrapperLists. pose proof (scrapperLists_spec h2 (PrometheusConfigToURLs parseURL (prometheusTargets cfg))) as Hs.
  destruct (scrapperLists _ _ h2 _) as [[sa sd] h3]. destruct Hs as [Hsa Hsd].
  assert (eraseAll <$> (a ++ sa)%list = allows) as Hallows by (by rewrite fmap_app, Ha, Hsa).
  assert (eraseAll <$> (d ++ sd)%list = denies) as Hdenies by (by rewrite fmap_app, Hd, Hsd).
  rewrite <-Hallows, <-Hdenies.
  pose proof (matchersToMap_both (a ++ sa) (d ++ sd) (λ am dm,
    (mkFilter (IncludeDefaultMetrics cfg) (a ++ sa)%list (d ++ sd)%list am dm,
     (listWarnings (allowEntries windows cfg hasSNMP hasSwap forBleemeo) ++ listWarnings (DenyMetrics cfg))%list, h3))) as Hb.
  destruct (m ← _; _) as [[[f w] h]|]; [|done]. destruct Hb as (am & dm & [= -> -> ->] & Ham & Hdm & Hn).
  repeat split; [|done]. intros lbls. unfold isAllowedAndNotDenied, isAllowed. rewrite isDenied_matches by done. simpl.
  by rewrite !(matchersToMap_matches _ _ lbls) by done.
Qed.

(** * The dynamic lists *)
(** The names a rebuild allows: those asked for, those of the active services, and the
    status of the metrics with a threshold that the filter [m] accepted before. *)
Definition requested (m : Filter) (services : list Service) (thresholds alerts : list string) (name : string) : Prop :=
  name ∈ alerts ∨
  (∃ service, service ∈ services ∧ svActive service = true ∧
     ((∃ metric, metric ∈ GetJMXMetrics service ∧ name = svName service +:+ "_" +:+ jmName metric) ∨
      (includeDefaultMetrics m = true ∧ name ∈ getServicesMetrics (svServiceType service)))) ∨
  (∃ metric, metric ∈ thresholds ∧ decision m {[ LabelName := metric ]} = true ∧ name = metric +:+ "_status").

Lemma rebuildServicesMetrics_elem (m : Filter) (services : list Service) (X : gset string) (name : string) :
  name ∈ rebuildServicesMetrics m services X ↔ name ∈ X ∨
  ∃ service, service ∈ services ∧ svActive service = true ∧
    ((∃ metric, metric ∈ GetJMXMetrics service ∧ name = svName service +:+ "_" +:+ jmName metric) ∨
     (includeDefaultMetrics m = true ∧ name ∈ getServicesMetrics (svServiceType service))).
Proof.
  unfold rebuildServicesMetrics. apply foldl_elem. intros Y s.
  destruct (svActive s); cbn [negb]; [|intuition discriminate].
  destruct (includeDefaultMetrics m); [|rewrite foldl_union_elem; intuition discriminate].
  rewrite (foldl_union_elem id), foldl_union_elem. unfold id. split.
  - intros [[H|H]|(y & Hy & ->)]; [by left|right; split; [done|by left]|right; split; [done|by right]].
  - intros [H|(_ & [H|[_ H]])]; [by left; left|by left; right|right; by exists name].
Qed.

Lemma rebuildThresholdsMetrics_elem (m : Filter) (names : list string) (X : gset string) (name : string) :
  name ∈ rebuildThresholdsMetrics matchValue range m names X ↔ name ∈ X ∨
  ∃ metric, metric ∈ names ∧ decision m {[ LabelName := metric ]} = true ∧ name = metric +:+ "_status".
Proof.
  unfold rebuildThresholdsMetrics. apply foldl_elem. intros Y n.
  destruct (decision m _); [|intuition discriminate]. rewrite elem_of_union, elem_of_singleton. tauto.
Qed.

(** The selectors of a container: each one is limited to the job and the instance of the
    target; [None] when one of them is not parsed. *)
Definition metaSpecs (extraLabels : Labels) (metric : string) : option (list spec) :=
  specs ← normalized metric;
  Some (specs ++ [(MatchEqual, LabelScrapeInstance, lget extraLabels LabelMetaScrapeInstance);
                  (MatchEqual, LabelScrapeJob, lget extraLabels LabelMetaScrapeJob)])%list.

Definition containerSpecs (containerLabels extraLabels : Labels) : option (list (list spec) * list (list spec)) :=
  allowed ← mapM (metaSpecs extraLabels) (labelList containerLabels "glouton.allow_metrics");
  denied ← mapM (metaSpecs extraLabels) (labelList containerLabels "glouton.deny_metrics");
  Some (allowed, denied).

Lemma addMetaLabels_spec (heap : nat) (metric : string) (extraLabels : Labels) :
  let (res, _) := addMetaLabels selector newMatcherError heap metric
    (lget extraLabels LabelMetaScrapeInstance) (lget extraLabels LabelMetaScrapeJob) in
  metaSpecs extraLabels metric = match res with inl ms => Some (eraseAll ms) | inr _ => None end.
Proof.
  unfold addMetaLabels, metaSpecs. pose proof (NormalizeMetric_spec selector heap metric) as Hn.
  destruct (NormalizeMetric selector heap metric) as [[ms|[text err]] h1]; cbn [fst] in Hn.
  - destruct (Add_spec newMatcherError h1 ms LabelScrapeInstance (lget extraLabels LabelMetaScrapeInstance) MatchEqual)
      as (ms2 & h2 & -> & H2); [done|].
    destruct (Add_spec newMatcherError h2 ms2 LabelScrapeJob (lget extraLabels LabelMetaScrapeJob) MatchEqual)
      as (ms3 & h3 & -> & H3); [done|].
    rewrite Hn. cbn [mbind option_bind]. by rewrite H3, H2, <-app_assoc.
  - destruct Hn as [-> _]. done.
Qed.

Lemma addMetaLabelsAll_spec (heap : nat) (metrics : list string) (extraLabels : Labels) :
  let (res, _) := addMetaLabelsAll selector newMatcherError heap metrics
    (lget extraLabels LabelMetaScrapeInstance) (lget extraLabels LabelMetaScrapeJob) in
  mapM (metaSpecs extraLabels) metrics = match res with inl l => Some (eraseAll <$> l) | inr _ => None end.
Proof.
  revert heap. induction metrics as [|metric metrics IH]; intros heap; [done|]. cbn [addMetaLabelsAll mapM].
  pose proof (addMetaLabels_spec heap metric extraLabels) as Hm.
  destruct (addMetaLabels _ _ heap _ _ _) as [[ms|err] h1]; rewrite Hm; [|done].
  specialize (IH h1). destruct (addMetaLabelsAll _ _ h1 _ _ _) as [[l|err] h2]; cbn [mbind option_bind]; by rewrite IH.
Qed.

Lemma rebuildDynamicScrapperLists_spec (heap : nat) (containerLabels extraLabels : Labels) :
  let (res, _) := rebuildDynamicScrapperLists selector newMatcherError heap containerLabels extraLabels in
  containerSpecs containerLabels extraLabels =
    match res with inl (a, d) => Some (eraseAll <$> a, eraseAll <$> d) | inr _ => None end.
Proof.
  unfold rebuildDynamicScrapperLists, containerSpecs.
  pose proof (addMetaLabelsAll_spec heap (labelList containerLabels "glouton.allow_metrics") extraLabels) as Ha.
  destruct (addMetaLabelsAll _ _ heap _ _ _) as [[a|err] h1]; rewrite Ha; [|done].
  pose proof (addMetaLabelsAll_spec h1 (labelList containerLabels "glouton.deny_metrics") extraLabels) as Hd.
  destruct (addMetaLabelsAll _ _ h1 _ _ _) as [[d|err] h2]; cbn [mbind option_bind]; by rewrite Hd.
Qed.

Definition parsedContainers (containersLabels : gmap string Labels) (registered : list (string * Labels)) :
    list (list (list spec) * list (list spec)) :=
  omap (λ kv, containerSpecs (default ∅ (containersLabels !! kv.1)) kv.2) registered.

Lemma dynamicLists_spec (heap : nat) (containersLabels : gmap string Labels) (registered : list (string * Labels)) :
  let '(allowed, denied, _, _) := dynamicLists selector newMatcherError heap containersLabels registered in
  eraseAll <$> allowed = mjoin (fst <$> parsedContainers containersLabels registered) ∧
  eraseAll <$> denied = mjoin (snd <$> parsedContainers containersLabels registered).
Proof.
  revert heap. induction registered as [|[key val] registered IH]; intros heap; [done|]. cbn [dynamicLists].
  pose proof (rebuildDynamicScrapperLists_spec heap (default ∅ (containersLabels !! key)) val) as Hr.
  destruct (rebuildDynamicScrapperLists _ _ heap _ _) as [res h1].
  specialize (IH h1). destruct (dynamicLists _ _ h1 _ _) as [[[a d] w] h2]. destruct IH as [IHa IHd].
  unfold parsedContainers in *. cbn [omap list_omap fst snd]. rewrite Hr. destruct res as [[sa sd]|err]; [|done].
  rewrite !fmap_cons, !join_cons, !fmap_app, IHa, IHd. done.
Qed.

Hypothesis rangeSet_perm : ∀ X, rangeSet X ≡ₚ elements X.
Hypothesis rangeLabels_perm : ∀ m, rangeLabels m ≡ₚ map_to_list m.

(** The selectors of a rebuilt allow list and of a rebuilt deny list. *)
Definition ofContainer (scrapper : option (gmap string Labels * gmap string Labels))
    (side : list (list spec) * list (list spec) → list (list spec)) (specs : list spec) : Prop :=
  ∃ registeredLabels containersLabels key val lists, scrapper = Some (registeredLabels, containersLabels) ∧
    registeredLabels !! key = Some val ∧
    containerSpecs (default ∅ (containersLabels !! key)) val = Some lists ∧ specs ∈ side lists.

Definition allowSource (m : Filter) (scrapper : option (gmap string Labels * gmap string Labels))
    (services : list Service) (thresholds alerts : list string) (specs : list spec) : Prop :=
  (∃ name, requested m services thresholds alerts name ∧ normalized name = Some specs) ∨
  ofContainer scrapper fst specs ∨ specs ∈ eraseAll <$> staticAllowList m.

Definition denySource (m : Filter) (scrapper : option (gmap string Labels * gmap string Labels)) (specs : list spec) : Prop :=
  ofContainer scrapper snd specs ∨ specs ∈ eraseAll <$> staticDenyList m.

Lemma parsedContainers_elem (registeredLabels containersLabels : gmap string Labels)
    (side : list (list spec) * list (list spec) → list (list spec)) (specs : list spec) :
  specs ∈ mjoin (side <$> parsedContainers containersLabels (rangeLabels registeredLabels)) ↔
  ofContainer (Some (registeredLabels, containersLabels)) side specs.
Proof.
  unfold parsedContainers, ofContainer. rewrite list_elem_of_join. setoid_rewrite list_elem_of_fmap.
  setoid_rewrite list_elem_of_omap. setoid_rewrite rangeLabels_perm. split.
  - intros (l & Hs & lists & -> & [key val] & Hk & Hc). rewrite elem_of_map_to_list in Hk.
    by exists registeredLabels, containersLabels, key, val, lists.
  - intros (? & ? & key & val & lists & [= <- <-] & Hk & Hc & Hs). exists (side lists). split; [done|].
    exists lists. split; [done|]. exists (key, val). by rewrite elem_of_map_to_list.
Qed.

(** The decision of the filter of two lists of selectors. *)
Lemma lists_decision (inc : bool) (sa sd a d : list Matchers) (allows denies : list spec → Prop)
    (warnings : list (string * E + E)) (heap : nat) :
  (∀ specs, specs ∈ eraseAll <$> a ↔ allows specs) → (∀ specs, specs ∈ eraseAll <$> d ↔ denies specs) →
  match (am ← matchersToMap range a; dm ← matchersToMap range d; Some (mkFilter inc sa sd am dm, warnings, heap)) with
  | Some (f, _, _) =>
      (∀ lbls, decision f lbls = true ↔
         (∃ specs, allows specs ∧ specsMatch matchValue lbls specs = true) ∧
         ¬ (∃ specs, denies specs ∧ specsMatch matchValue lbls specs = true)) ∧
      includeDefaultMetrics f = inc ∧ staticAllowList f = sa ∧ staticDenyList f = sd ∧
      ∀ specs, allows specs ∨ denies specs → ¬ nameless specs
  | None => ∃ specs, (allows specs ∨ denies specs) ∧ nameless specs
  end.
Proof.
  intros Ha Hd. pose proof (matchersToMap_both a d (λ am dm, (mkFilter inc sa sd am dm, warnings, heap))) as Hb.
  destruct (m ← _; _) as [[[f w] h]|].
  - destruct Hb as (am & dm & [= -> -> ->] & Ham & Hdm & Hn). split; [|repeat split].
    + intros lbls. unfold isAllowedAndNotDenied, isAllowed. rewrite isDenied_matches by done. cbn [allowList denyList].
      rewrite !(matchersToMap_matches _ _ lbls) by done. rewrite andb_true_iff, negb_true_iff, <-not_true_iff_false.
      rewrite !existsb_elem. setoid_rewrite Ha. setoid_rewrite Hd. tauto.
    + intros specs Hs Hnl. apply Hn, Exists_exists. exists specs. split; [|done]. by rewrite elem_of_app, Ha, Hd.
  - apply Exists_exists in Hb as (specs & Hs & Hn). exists specs. split; [|done]. by rewrite elem_of_app, Ha, Hd in Hs.
Qed.

Lemma requested_elem (m : Filter) (services : list Service) (thresholds alerts : list string) (name : string) :
  name ∈ rangeSet (rebuildThresholdsMetrics matchValue range m thresholds
    (rebuildServicesMetrics m services (foldl (λ allowed metric, {[ metric ]} ∪ allowed) (∅ : gset string) alerts))) ↔
  requested m services thresholds alerts name.
Proof.
  rewrite rangeSet_perm, elem_of_elements, rebuildThresholdsMetrics_elem, rebuildServicesMetrics_elem, (foldl_union_elem id).
  unfold requested, id. assert ((∃ y, y ∈ alerts ∧ name = y) ↔ name ∈ alerts) as ->.
  { split; [by intros (y & Hy & ->)|by exists name]. }
  pose proof (not_elem_of_empty (C := gset string) name). tauto.
Qed.

Lemma Rebuild_spec (m : Filter) (heap : nat) (scrapper : option (gmap string Labels * gmap string Labels))
    (services : list Service) (thresholds alerts : list string) :
  let allows := allowSource m scrapper services thresholds alerts in
  let denies := denySource m scrapper in
  match RebuildDynamicLists matchValue selector newMatcherError range rangeSet rangeLabels
          m heap scrapper services thresholds alerts with
  | Some (f, _, _) =>
      (∀ lbls, decision f lbls = true ↔
         (∃ specs, allows specs ∧ specsMatch matchValue lbls specs = true) ∧
         ¬ (∃ specs, denies specs ∧ specsMatch matchValue lbls specs = true)) ∧
      includeDefaultMetrics f = includeDefaultMetrics m ∧
      staticAllowList f = staticAllowList m ∧ staticDenyList f = staticDenyList m ∧
      ∀ specs, allows specs ∨ denies specs → ¬ nameless specs
  | None => ∃ specs, (allows specs ∨ denies specs) ∧ nameless specs
  end.
Proof.
  intros allows denies. unfold RebuildDynamicLists.
  pose proof (requested_elem m services thresholds alerts) as Hreq. set (X := rebuildThresholdsMetrics _ _ _ _ _) in *.
  pose proof (buildMatchersList_spec heap (rangeSet X)) as Ha.
  destruct (buildMatchersList _ heap _) as [[a w] h1]. destruct Ha as [Ha _].
  set (dyn := match scrapper with Some _ => _ | None => _ end).
  assert (let '(sa, sd, _, _) := dyn in
    (∀ specs, specs ∈ eraseAll <$> sa ↔ ofContainer scrapper fst specs) ∧
    (∀ specs, specs ∈ eraseAll <$> sd ↔ ofContainer scrapper snd specs)) as Hs.
  { subst dyn. destruct scrapper as [[r c]|].
    - pose proof (dynamicLists_spec h1 c (rangeLabels r)) as Hd. destruct (dynamicLists _ _ _ _ _) as [[[sa sd] w2] h2].
      destruct Hd as [-> ->]. split; intros specs; apply parsedContainers_elem.
    - split; intros specs; (split; [by intros ?%not_elem_of_nil|by intros (? & ? & ? & ? & ? & ? & _)]). }
  destruct dyn as [[[sa sd] w2] h2]. destruct Hs as [Hsa Hsd]. apply lists_decision; intros specs.
  - rewrite !fmap_app, !elem_of_app, Ha, Hsa. unfold allows, allowSource, listSpecs. rewrite list_elem_of_omap.
    by setoid_rewrite Hreq.
  - by rewrite fmap_app, elem_of_app, Hsd.
Qed.

(** A rebuild of the dynamic lists leaves the static ones alone, and its decision is
    given by them, by the selectors of the labels of the containers that are scrapped, and by
    the names that are asked for: the alerts, the JMX and default metrics of the active
    services, and the status of each metric with a threshold.  The last are judged by the
    filter as it was before the rebuild.  A nil pointer is dereferenced exactly when one of
    the selectors has no matcher of the name; a container's label may hold one. *)
Theorem Rebuild_decision (m : Filter) (heap : nat) (scrapper : option (gmap string Labels * gmap string Labels))
    (services : list Service) (thresholds alerts : list string) :
  let allows := allowSource m scrapper services thresholds alerts in
  let denies := denySource m scrapper in
  match RebuildDynamicLists matchValue selector newMatcherError range rangeSet rangeLabels
          m heap scrapper services thresholds alerts with
  | Some (f, _, _) =>
      (∀ lbls, decision f lbls = true ↔
         (∃ specs, allows specs ∧ specsMatch matchValue lbls specs = true) ∧
         ¬ (∃ specs, denies specs ∧ specsMatch matchValue lbls specs = true)) ∧
      includeDefaultMetrics f = includeDefaultMetrics m ∧
      staticAllowList f = staticAllowList m ∧ staticDenyList f = staticDenyList m ∧
      ∀ specs, allows specs ∨ denies specs → ¬ nameless specs
  | None => ∃ specs, (allows specs ∨ denies specs) ∧ nameless specs
  end.
Proof. apply Rebuild_spec. Qed.

(** * Plain names *)
Definition plainByte (c : Ascii.ascii) : bool :=
  let n := Ascii.N_of_ascii c in
  ((48 <=? n) && (n <=? 57) || (65 <=? n) && (n <=? 90) || (97 <=? n) && (n <=? 122) || (n =? 95) || (n =? 58))%N.

Fixpoint plainName (s : string) : bool :=
  match s with EmptyString => true | String c s => plainByte c && plainName s end.

Definition nameSelector (name : string) : string :=
  "{" +:+ LabelName +:+ "=" +:+ String dquote name +:+ String dquote "}".

Lemma plainName_byte (c : Ascii.ascii) (s : string) : plainByte c = false → plainName s = true → byte_in c s = false.
Proof.
  intros Hc. induction s as [|d s IH]; [done|]. cbn. intros [Hd Hs]%andb_true_iff. rewrite IH by done.
  rewrite bool_decide_false; [done|congruence].
Qed.

Lemma selectorText_plain (name : string) : plainName name = true → selectorText name = nameSelector name.
Proof.
  intros Hp. unfold selectorText. rewrite plainName_byte by done. cbn [negb].
  rewrite Replace_id; [by rewrite plainName_byte|].
  repeat constructor; eexists _, ""; (split; [reflexivity|by apply plainName_byte]).
Qed.

(** The parser of PromQL and the matcher of an equality, on a plain name. *)
Hypothesis selector_plain : ∀ name, plainName name = true → selector (nameSelector name) = inl [(MatchEqual, LabelName, name)].
Hypothesis matchValue_equal : ∀ value s, matchValue MatchEqual value s = bool_decide (s = value).

Lemma plain_normalized (name : string) (lbls : Labels) :
  plainName name = true → lget lbls LabelName = name →
  ∃ specs, normalized name = Some specs ∧ specsMatch matchValue lbls specs = true.
Proof.
  intros Hp <-. exists [(MatchEqual, LabelName, lget lbls LabelName)]. unfold Matcher.normalized.
  rewrite selectorText_plain, selector_plain by done. split; [done|].
  cbn. unfold specMatches. cbn. by rewrite matchValue_equal, bool_decide_true.
Qed.

(** Every metric of a plain name that is asked for is accepted after a rebuild, whatever
    its other labels, unless a deny selector selects it. *)
Lemma requested_accepted (m f : Filter) (heap heap' : nat) (scrapper : option (gmap string Labels * gmap string Labels))
    (services : list Service) (thresholds alerts : list string) (warnings : list (string * E + E))
    (name : string) (lbls : Labels) :
  RebuildDynamicLists matchValue selector newMatcherError range rangeSet rangeLabels
    m heap scrapper services thresholds alerts = Some (f, warnings, heap') →
  requested m services thresholds alerts name → plainName name = true → lget lbls LabelName = name →
  decision f lbls = true ↔ ¬ ∃ specs, denySource m scrapper specs ∧ specsMatch matchValue lbls specs = true.
Proof.
  intros Hr Hreq Hp Hname. pose proof (Rebuild_spec m heap scrapper services thresholds alerts) as Hs.
  rewrite Hr in Hs. destruct Hs as [Hd _]. rewrite Hd.
  destruct (plain_normalized name lbls Hp Hname) as (specs & Hn & Hm).
  split; [tauto|]. intros H. split; [|done]. exists specs. split; [|done]. left. by exists name.
Qed.

End Lists.

(** * Examples *)
(** A parser of the selectors of plain names and of two others, and matchers on which a
    regular expression only matches itself. *)
Definition sampleMatch (t : MatchType) (value s : string) : bool :=
  match t with
  | MatchEqual | MatchRegexp => bool_decide (s = value)
  | MatchNotEqual | MatchNotRegexp => negb (bool_decide (s = value))
  end.

Definition sampleSelector (text : string) : list spec + unit :=
  match CutPrefix (quotes "{__name__='") text with
  | Some rest =>
      match cutByte dquote rest with
      | Some (name, "}") => inl [(MatchEqual, LabelName, name)]
      | _ => inr tt
      end
  | None =>
      if bool_decide (text = quotes "disk_used{item='/home'}")
      then inl [(MatchEqual, LabelName, "disk_used"); (MatchEqual, LabelItem, "/home")]
      else if bool_decide (text = quotes "{item='/home'}") then inl [(MatchEqual, LabelItem, "/home")]
      else inr tt
  end.

Definition noMatcherError (_ : MatchType) (_ _ : string) : option unit := None.
Definition noURL (_ : string) : option URL := None.

Lemma sampleSelector_plain (name : string) :
  plainName name = true → sampleSelector (nameSelector name) = inl [(MatchEqual, LabelName, name)].
Proof.
  intros Hp. unfold sampleSelector.
  assert (CutPrefix (quotes "{__name__='") (nameSelector name) = Some (name +:+ String dquote "}")) as ->
    by (by apply CutPrefix_Some).
  rewrite cutByte_append by (by apply plainName_byte). done.
Qed.

Lemma map_to_list_perm (m : matchersMap) : map_to_list m ≡ₚ map_to_list m.
Proof. done. Qed.

Definition sampleNew (cfg : configMetric) (forBleemeo : bool) : option Filter :=
  fst ∘ fst <$> New sampleSelector noMatcherError noURL map_to_list false 0 cfg false true forBleemeo.

Definition sampleRebuild (f : Filter) (services : list Service) (thresholds : list string) : option Filter :=
  fst ∘ fst <$> RebuildDynamicLists sampleMatch sampleSelector noMatcherError map_to_list elements map_to_list
    f 0 None services thresholds [].

Definition sampleAccepts (f : Filter) (lbls : Labels) : bool := isAllowedAndNotDenied sampleMatch map_to_list f lbls.

(** Both filters of the agent for a configuration that also asks for the metrics of one disk. *)
Definition sampleConfig : configMetric := mkConfigMetric [quotes "disk_used{item='/home'}"] [] true [].
Definition rootDisk : Labels := {[ LabelName := "disk_used"; LabelItem := "/" ]}.

(** The merge depends on the order of the filters: the agent merges the Prometheus filter
    with the Bleemeo filter when it starts, and the other way round at each rebuild, which
    loses the default metrics of a name that the configuration also has. *)
Example merge_order_matters :
  (bleemeo ← sampleNew sampleConfig true; prom ← sampleNew sampleConfig false;
   Some (sampleAccepts bleemeo rootDisk, sampleAccepts (MergeMetricFilters prom bleemeo) rootDisk,
         sampleAccepts (MergeInPlace bleemeo prom) rootDisk)) = Some (true, true, false).
Proof. by vm_compute. Qed.

(** A selector without a name is accepted by the parser, and then a nil pointer is dereferenced. *)
Example nameless_panics :
  sampleNew (mkConfigMetric [quotes "{item='/home'}"] [] true []) true = None ∧
  (f ← sampleNew (mkConfigMetric [] [] true []) true;
   Some (bool_decide (is_Some (RebuildDynamicLists sampleMatch sampleSelector noMatcherError map_to_list elements map_to_list f 0
     (Some ({[ "c" := ∅ ]}, {[ "c" := {[ "glouton.allow_metrics" := quotes "{item='/home'}" ]} ]})) [] [] [])))) =
  Some false.
Proof. by vm_compute. Qed.

Definition apacheService : Service :=
  mkService zeroConfig "apache" "" "apache" "" "" "127.0.0.1" [] "" true false false false 0 None 0.

(** The status of a metric with a threshold is only accepted from the rebuild after the one that
    accepts the metric. *)
Example status_one_rebuild_late :
  (f0 ← sampleNew (mkConfigMetric [] [] true []) true;
   f1 ← sampleRebuild f0 [apacheService] ["apache_requests"];
   f2 ← sampleRebuild f1 [apacheService] ["apache_requests"];
   Some (sampleAccepts f1 {[ LabelName := "apache_requests" ]},
         sampleAccepts f1 {[ LabelName := "apache_requests_status" ]},
         sampleAccepts f2 {[ LabelName := "apache_requests_status" ]})) = Some (true, false, true).
Proof. by vm_compute. Qed.

(** * Witnesses *)
Lemma New_decision_witness :
  let allows := configAllows sampleSelector noURL false sampleConfig false true true in
  let denies := configDenies sampleSelector noURL sampleConfig in
  match New sampleSelector noMatcherError noURL map_to_list false 0 sampleConfig false true true with
  | Some (f, warnings, _) =>
      (∀ lbls, sampleAccepts f lbls =
         negb (existsb (specsMatch sampleMatch lbls) denies) && existsb (specsMatch sampleMatch lbls) allows) ∧
      warnings = (listWarnings sampleSelector (allowEntries false sampleConfig false true true) ++
                  listWarnings sampleSelector (DenyMetrics sampleConfig))%list ∧
      ¬ Exists nameless (allows ++ denies)%list
  | None => Exists nameless (allows ++ denies)%list
  end.
Proof.
  exact (New_decision sampleMatch sampleSelector noMatcherError map_to_list map_to_list_perm (λ _ _, eq_refl) noURL
    false 0 sampleConfig false true true).
Defined.

Definition emptyFilter : Filter := mkFilter false [] [] ∅ ∅.
Definition cpuKey : Matcher := mkMatcher MatchEqual LabelName "cpu" None.
Definition cpuFilter : Filter := mkFilter false [[cpuKey]] [] {[ cpuKey := [[cpuKey]] ]} ∅.
Definition sampleFamilies : list (MetricFamily unit) :=
  [mkFamily "cpu" [mkDtoMetric [("item", "0")] tt]; mkFamily "mem" [mkDtoMetric [] tt]].

Lemma filters_agree_witness :
  FilterFamilies sampleMatch map_to_list cpuFilter sampleFamilies =
    filter (λ family, mfMetric family ≠ [])
      ((λ family, mkFamily (mfName family)
          (filter (λ metric, sampleAccepts cpuFilter (DTO2Labels (mfName family) (dmLabel metric)) = true)
             (mfMetric family))) <$> sampleFamilies) ∧
  FilterPoints sampleMatch map_to_list cpuFilter [] = [].
Proof. exact (filters_agree sampleMatch map_to_list map_to_list_perm cpuFilter sampleFamilies []). Defined.

Lemma Rebuild_decision_witness :
  let allows := allowSource sampleMatch sampleSelector map_to_list cpuFilter None [] ["cpu"] ["mem"] in
  let denies := denySource sampleSelector cpuFilter None in
  match RebuildDynamicLists sampleMatch sampleSelector noMatcherError map_to_list elements map_to_list
          cpuFilter 0 None [] ["cpu"] ["mem"] with
  | Some (f, _, _) =>
      (∀ lbls, isAllowedAndNotDenied sampleMatch map_to_list f lbls = true ↔
         (∃ specs, allows specs ∧ specsMatch sampleMatch lbls specs = true) ∧
         ¬ (∃ specs, denies specs ∧ specsMatch sampleMatch lbls specs = true)) ∧
      includeDefaultMetrics f = includeDefaultMetrics cpuFilter ∧
      staticAllowList f = staticAllowList cpuFilter ∧ staticDenyList f = staticDenyList cpuFilter ∧
      ∀ specs, allows specs ∨ denies specs → ¬ nameless specs
  | None => ∃ specs, (allows specs ∨ denies specs) ∧ nameless specs
  end.
Proof.
  exact (Rebuild_decision sampleMatch sampleSelector noMatcherError map_to_list elements map_to_list
    map_to_list_perm (λ _ _, eq_refl) (λ X, Permutation_refl _) (λ X, Permutation_refl _)
    cpuFilter 0 None [] ["cpu"] ["mem"]).
Defined.

Definition cpuStatus : Labels := {[ LabelName := "cpu_status"; LabelItem := "0" ]}.

Lemma requested_accepted_witness :
  match RebuildDynamicLists sampleMatch sampleSelector noMatcherError map_to_list elements map_to_list
          cpuFilter 0 None [] ["cpu"] [] with
  | Some (f, _, _) => sampleAccepts f cpuStatus = true ↔
      ¬ ∃ specs, denySource sampleSelector cpuFilter None specs ∧ specsMatch sampleMatch cpuStatus specs = true
  | None => False
  end.
Proof.
  assert (bool_decide (is_Some (RebuildDynamicLists sampleMatch sampleSelector noMatcherError map_to_list elements
    map_to_list cpuFilter 0 None [] ["cpu"] [])) = true) as Hsome by (vm_compute; reflexivity).
  destruct (RebuildDynamicLists _ _ _ _ _ _ _ _ _ _ _ _) as [[[f warnings] heap]|] eqn:Hr; [|discriminate Hsome].
  apply (requested_accepted sampleMatch sampleSelector noMatcherError map_to_list elements map_to_list
      map_to_list_perm (λ _ _, eq_refl) (λ X, Permutation_refl _) (λ X, Permutation_refl _) sampleSelector_plain
      (λ _ _, eq_refl) cpuFilter f 0 heap None [] ["cpu"] [] warnings "cpu_status" cpuStatus Hr);
      [|reflexivity..].
  right. right. exists "cpu". split; [by left|]. by split.
Defined.

Lemma merge_union_witness :
  sampleAccepts (MergeInPlace cpuFilter emptyFilter) {[ LabelName := "cpu" ]} = true.
Proof.
  rewrite (proj2 (proj2 (proj2 (merge_union sampleMatch map_to_list map_to_list_perm cpuFilter emptyFilter
    {[ LabelName := "cpu" ]})))); [by vm_compute|].
  split; [|done]. intros k v1 v2 ms _ H. change ((∅ : matchersMap) !! k = Some v2) in H. by rewrite lookup_empty in H.
Defined.
