(* ===== verification/ServicesState.v ===== *)
(** The report on each service (discovery/services_state.go): whether Glouton
    collects its metrics, and if not why.  [publishServicesState] builds and
    sorts a snapshot under the discovery's lock, [ServicesState] completes it
    later with the scrape state of each input.  The theorems: the snapshot does
    not depend on the iteration order of the map ([publish_deterministic]), the
    status and the error text agree ([ServicesState_consistent]) and no password
    of the configuration is in the text ([ServicesState_hides_passwords]). *)
From S2P Require Import Prelude Labels Float64 Bytes Json ErrorText Secrets Services.

#[local] Open Scope string_scope.
#[local] Open Scope Z_scope.

(** * Data *)
Inductive ScrapeStatus : Set := ScrapeNotRun | ScrapeSkipped | ScrapeRan.
Inductive ScrapeErrorKind : Set :=
| ScrapeErrorNone | ScrapeErrorUnreachable | ScrapeErrorGatherer | ScrapeErrorInternal.

Record ScrapeState := mkScrapeState {
  ssStatus : ScrapeStatus; ssError : string; ssErrorKind : ScrapeErrorKind; ssRegisteredAt : Z
}.

Inductive inputOutcome : Set :=
| inputRegistered | inputInactive | inputContainerStopped | inputIgnored | inputCheckOnly
| inputUnsupportedType | inputUnsupportedPlatform | inputMissingInfo | inputMissingCommand
| inputCreateFailed.

Inductive InputStatus : Set :=
| InputStatusOK | InputStatusPending | InputStatusUnknown | InputStatusIgnored
| InputStatusUnsupportedType | InputStatusCheckOnly | InputStatusContainerStopped
| InputStatusUnsupportedPlatform | InputStatusMissingInfo | InputStatusMissingCommand
| InputStatusCreateFailed | InputStatusJMXDisabled | InputStatusJMXNoPort | InputStatusJMXNoAddress
| InputStatusUnreachable | InputStatusAnsweredError | InputStatusError | InputStatusInternalError
| InputStatusNotRegistered.

#[global] Instance inputOutcome_eq_dec : EqDecision inputOutcome.
Proof. solve_decision. Defined.
#[global] Instance InputStatus_eq_dec : EqDecision InputStatus.
Proof. solve_decision. Defined.

Definition msgCreateFailed : string := "failed to create the input".
Definition msgMissingInfo : string := msgCreateFailed +:+ ": missing credentials or address".
Definition msgMissingCommand : string := msgCreateFailed +:+ ": required command not found in the container".
Definition msgUnexpectedType : string := msgCreateFailed +:+ ": unexpected input type".
Definition msgUnsupportedPlatform : string := "input not available on this platform".
Definition msgIgnored : string := "metrics disabled by configuration".
Definition msgJMXDisabled : string := "metrics are collected through JMX, which is disabled".
Definition msgJMXNoPort : string := "metrics are collected through JMX: jmx_port is not set for this service".
Definition msgJMXNoAddress : string := "metrics are collected through JMX: no address found for this service".

Record inputResult := mkInputResult { irOutcome : inputOutcome; irMessage : string; irStatus : InputStatus }.

(** [unexpectedType] is [errors.Is(err, inputs.ErrUnexpectedType)]. *)
Definition newInputResult (outcome : inputOutcome) (unexpectedType : bool) : inputResult :=
  match outcome with
  | inputMissingInfo => mkInputResult outcome msgMissingInfo InputStatusMissingInfo
  | inputMissingCommand => mkInputResult outcome msgMissingCommand InputStatusMissingCommand
  | inputUnsupportedPlatform => mkInputResult outcome msgUnsupportedPlatform InputStatusUnsupportedPlatform
  | inputIgnored => mkInputResult outcome msgIgnored InputStatusIgnored
  | inputCreateFailed =>
      mkInputResult outcome (if unexpectedType then msgUnexpectedType else msgCreateFailed) InputStatusCreateFailed
  | inputContainerStopped => mkInputResult outcome "" InputStatusContainerStopped
  | inputCheckOnly => mkInputResult outcome "" InputStatusCheckOnly
  | inputUnsupportedType => mkInputResult outcome "" InputStatusUnsupportedType
  | inputRegistered => mkInputResult outcome "" InputStatusPending
  | inputInactive => mkInputResult outcome "" InputStatusUnknown
  end.

(** Where the state of a collection is read: a registration of the registry,
    jmxtrans or the agent's own gatherers. *)
Inductive provider : Set :=
| registration (id : nat)
| jmxProvider (service : NameInstance)
| gathererProvider (service : NameInstance).

(** A registration, and whether it implements [scrapeStateProvider]. *)
Record collectorDetails := mkCollector { coID : nat; coReports : bool }.

Record ServiceState := mkServiceState {
  stName : string;
  stServiceType : string;
  stInstance : string;
  stContainerName : string;
  stDynamic : bool;
  stInputSupported : bool;
  stError : string;
  stInputStatus : InputStatus;
  stMetricsIgnored : bool;
  stCollectionPending : bool;
  stCollectionSkipped : bool;
  stStaleMetricsBefore : Z
}.

Record pendingScrape := mkPending { peProvider : option provider; peSecrets : list bytes; peClassified : bool }.

Record servicesStateSnapshot := mkSnapshot {
  snStates : list ServiceState; snPending : list pendingScrape; snDiscoveredAt : Z
}.

(** What the report reads of the discovery. *)
Record Discovery := mkDiscovery {
  dDiscoveredServicesMap : gmap NameInstance Service;
  dServicesMap : gmap NameInstance Service;
  dLastDiscoveryUpdate : Z;
  dLastConfigServicesMap : gmap NameInstance Service;
  dActiveCollector : gmap NameInstance collectorDetails;
  dInputResult : gmap NameInstance inputResult;
  dJmxState : bool;                      (* whether JMX is enabled *)
  dAgentGathererTypes : gset string;
  dRemovedDuringUpdate : option (gset NameInstance);   (* nil outside of an update *)
  dSnapshot : servicesStateSnapshot
}.

(** * Which types are supported

    The source's maps are only looked up: the list of their keys is enough. *)
Definition jmxServiceTypes : list string :=
  ["bitbucket"; "cassandra"; "confluence"; "jira"; "kafka"].

Definition inputBuilders : list string :=
    ["activemq"; "apache"; "bind"; "chrony"; "clickhouse"; "consul"; "dovecot"; "elasticsearch";
     "fail2ban"; "haproxy"; "influxdb"; "jenkins"; "mariadb"; "memcached"; "mongodb"; "mysql";
     "nsq"; "nats"; "nfs"; "nginx"; "ntp"; "openbao"; "openldap"; "phpfpm"; "pgbouncer";
     "postgresql"; "rabbitmq"; "redis"; "tomcat"; "upsd"; "uwsgi"; "valkey"; "varnish"; "vault";
     "zookeeper"].

Definition inputsWithoutNetwork : list string := ["fail2ban"; "nfs"; "varnish"].

Definition inputSupported (d : Discovery) (serviceType : string) : bool :=
  bool_decide (serviceType ∈ inputBuilders) || bool_decide (serviceType ∈ jmxServiceTypes)
  || bool_decide (serviceType ∈ dAgentGathererTypes d).

(** * Building the report *)
Section report.
(** [unicode.IsPrint] above ASCII. *)
Context (isPrint : Z → bool).

Definition secretsOf (c : config) : list bytes :=
  serviceSecrets isPrint (str (cfgPassword c)) (str (cfgJMXPassword c)) (str (cfgStatsURL c)).

(** The body of the loop of [buildServicesState] for an active service. *)
Definition buildServiceState (d : Discovery) (key : NameInstance) (service : Service) :
    ServiceState * pendingScrape :=
  let state error status ignored :=
    mkServiceState (svName service) (svServiceType service) (svInstance service) (svContainerName service)
      (bool_decide (is_Some (dDiscoveredServicesMap d !! key))) (inputSupported d (svServiceType service))
      error status ignored false false Time.zero in
  let none := mkPending None [] false in
  let self := mkNameInstance (svName service) (svInstance service) in
  let secrets := secretsOf (svConfig service) in
  match dInputResult d !! key with
  | None => (state "" InputStatusPending false, none)
  | Some input =>
      match irOutcome input with
      | inputRegistered =>
          match dActiveCollector d !! key with
          | Some collector =>
              let classified := negb (bool_decide (svServiceType service ∈ inputsWithoutNetwork)) in
              if coReports collector
              then (state "" (irStatus input) false, mkPending (Some (registration (coID collector))) secrets classified)
              else (state "" InputStatusUnknown false, mkPending None secrets classified)
          | None => (state "" InputStatusUnknown false, none)
          end
      | inputUnsupportedType | inputCheckOnly =>
          if bool_decide (svServiceType service ∈ dAgentGathererTypes d)
          then (state "" (irStatus input) false, mkPending (Some (gathererProvider self)) secrets false)
          else if dJmxState d && negb (cfgJMXPort (svConfig service) =? 0) && bool_decide (svIPAddress service = "")
          then (state msgJMXNoAddress InputStatusJMXNoAddress false, none)
          else if dJmxState d && negb (cfgJMXPort (svConfig service) =? 0)
          then (state "" (irStatus input) false, mkPending (Some (jmxProvider self)) secrets false)
          else if negb (bool_decide (svServiceType service ∈ jmxServiceTypes))
          then (state "" (irStatus input) false, none)
          else if negb (dJmxState d) then (state msgJMXDisabled InputStatusJMXDisabled false, none)
          else (state msgJMXNoPort InputStatusJMXNoPort false, none)
      | _ => (state (irMessage input) (irStatus input) (bool_decide (irOutcome input = inputIgnored)), none)
      end
  end.

(** [buildServicesState], with the entries in the order the map gives them. *)
Definition buildServicesState (d : Discovery) (entries : list (NameInstance * Service)) :
    list (ServiceState * pendingScrape) :=
  omap (λ '(key, service), if svActive service then Some (buildServiceState d key service) else None) entries.

(** [cmp.Compare] on strings. *)
Fixpoint compareBytes (a b : bytes) : comparison :=
  match a, b with
  | [], [] => Eq
  | [], _ => Lt
  | _, [] => Gt
  | x :: a, y :: b => match x ?= y with Eq => compareBytes a b | c => c end
  end.

Definition Compare (a b : string) : comparison := compareBytes (str a) (str b).

(** [cmp.Or]: the first result that is not equality. *)
Definition Or (cs : list comparison) : comparison :=
  foldr (λ c rest, match c with Eq => rest | _ => c end) Eq cs.

Definition compareServiceState (a b : ServiceState) : comparison :=
  Or [Compare (stServiceType a) (stServiceType b); Compare (stName a) (stName b);
      Compare (stInstance a) (stInstance b); Compare (stContainerName a) (stContainerName b)].

Definition stateLe (a b : ServiceState * pendingScrape) : Prop := compareServiceState a.1 b.1 ≠ Gt.

#[global] Instance stateLe_dec : RelDecision stateLe.
Proof. intros a b. unfold stateLe. destruct (compareServiceState a.1 b.1); [left|left|right]; naive_solver. Defined.

Definition withSnapshot (d : Discovery) (s : servicesStateSnapshot) : Discovery :=
  mkDiscovery (dDiscoveredServicesMap d) (dServicesMap d) (dLastDiscoveryUpdate d) (dLastConfigServicesMap d)
    (dActiveCollector d) (dInputResult d) (dJmxState d) (dAgentGathererTypes d)
    (dRemovedDuringUpdate d) s.

Definition snapshotOf (d : Discovery) (rows : list (ServiceState * pendingScrape)) : servicesStateSnapshot :=
  mkSnapshot (fst <$> rows) (snd <$> rows) (dLastDiscoveryUpdate d).

Definition publishServicesState (d : Discovery) : Discovery :=
  withSnapshot d (snapshotOf d (merge_sort stateLe (buildServicesState d (map_to_list (dServicesMap d))))).

(** [enabled]: whether the provider is not nil. *)
Definition SetJMXState (d : Discovery) (enabled : bool) : Discovery :=
  publishServicesState
    (mkDiscovery (dDiscoveredServicesMap d) (dServicesMap d) (dLastDiscoveryUpdate d) (dLastConfigServicesMap d)
       (dActiveCollector d) (dInputResult d) enabled (dAgentGathererTypes d)
       (dRemovedDuringUpdate d) (dSnapshot d)).

Definition SetAgentGathererState (d : Discovery) (ServiceTypes : list string) : Discovery :=
  publishServicesState
    (mkDiscovery (dDiscoveredServicesMap d) (dServicesMap d) (dLastDiscoveryUpdate d) (dLastConfigServicesMap d)
       (dActiveCollector d) (dInputResult d) (dJmxState d) (list_to_set ServiceTypes)
       (dRemovedDuringUpdate d) (dSnapshot d)).

(** * Reading the report *)
Definition scrapeInputStatus (scrape : ScrapeState) (classified : bool) : InputStatus :=
  if bool_decide (ssError scrape = "") then InputStatusOK
  else match ssErrorKind scrape with
       | ScrapeErrorUnreachable => InputStatusUnreachable
       | ScrapeErrorInternal => InputStatusInternalError
       | ScrapeErrorGatherer => if classified then InputStatusAnsweredError else InputStatusError
       | ScrapeErrorNone => InputStatusError
       end.

Definition errorText (error : string) (secrets : list bytes) : string :=
  unstr (truncateError (redactError (stabilizeError (str error)) secrets)).

Definition applyScrapeState (state : ServiceState) (pending : pendingScrape) (scrape : ScrapeState) : ServiceState :=
  let set error status collectionPending skipped stale :=
    mkServiceState (stName state) (stServiceType state) (stInstance state) (stContainerName state)
      (stDynamic state) (stInputSupported state) error status (stMetricsIgnored state)
      collectionPending skipped stale in
  match ssStatus scrape with
  | ScrapeSkipped =>
      set (stError state) InputStatusPending (stCollectionPending state) true (stStaleMetricsBefore state)
  | ScrapeNotRun =>
      set (stError state) InputStatusPending true (stCollectionSkipped state) (stStaleMetricsBefore state)
  | ScrapeRan =>
      set (errorText (ssError scrape) (peSecrets pending)) (scrapeInputStatus scrape (peClassified pending))
        (stCollectionPending state) (stCollectionSkipped state)
        (if bool_decide (ssError scrape = "") then stStaleMetricsBefore state else ssRegisteredAt scrape)
  end.

(** One row of the report; [LastScrapeState] is read when the report is. *)
Definition completeState (LastScrapeState : provider → ScrapeState) (state : ServiceState)
    (pending : pendingScrape) : ServiceState :=
  match peProvider pending with
  | None => state
  | Some p => applyScrapeState state pending (LastScrapeState p)
  end.

Definition ServicesState (d : Discovery) (LastScrapeState : provider → ScrapeState) : list ServiceState :=
  zip_with (completeState LastScrapeState) (snStates (dSnapshot d)) (snPending (dSnapshot d)).

Definition LastDiscoveryAt (d : Discovery) : Z := snDiscoveredAt (dSnapshot d).
End report.

(** * Theorems *)
(** ** The order of the report *)
Lemma compareBytes_eq (a b : bytes) : compareBytes a b = Eq ↔ a = b.
Proof.
  revert b. induction a as [|x a IH]; intros [|y b]; try done. simpl.
  destruct (Z.compare_spec x y) as [->|?|?]; [rewrite IH; naive_solver|split; [done|intros [= -> ->]; lia]..].
Qed.

Lemma compareBytes_opp (a b : bytes) : compareBytes b a = CompOpp (compareBytes a b).
Proof.
  revert b. induction a as [|x a IH]; intros [|y b]; try done. simpl.
  rewrite (Z.compare_antisym x y). destruct (x ?= y); [apply IH|done|done].
Qed.

Lemma compareBytes_trans (a b c : bytes) :
  compareBytes a b = Lt → compareBytes b c = Lt → compareBytes a c = Lt.
Proof.
  revert b c. induction a as [|x a IH]; intros [|y b] [|z c]; try done. simpl.
  destruct (Z.compare_spec x y), (Z.compare_spec y z), (Z.compare_spec x z); try done; try lia.
  apply IH.
Qed.

Lemma Compare_eq (a b : string) : Compare a b = Eq ↔ a = b.
Proof. unfold Compare. rewrite compareBytes_eq. split; [apply str_inj|by intros ->]. Qed.

(** The comparison of two rows is the lexicographic one on their four names. *)
Definition fields (s : ServiceState) : list string :=
  [stServiceType s; stName s; stInstance s; stContainerName s].

Definition compareFields (a b : list string) : comparison := Or (zip_with Compare a b).

Lemma compareServiceState_fields (a b : ServiceState) :
  compareServiceState a b = compareFields (fields a) (fields b).
Proof. done. Qed.

Lemma compareFields_eq (a b : list string) :
  length a = length b → compareFields a b = Eq ↔ a = b.
Proof.
  unfold compareFields. revert b. induction a as [|x a IH]; intros [|y b] H; try done. simpl in *.
  destruct (Compare x y) eqn:Hc.
  - apply Compare_eq in Hc as ->. rewrite IH by lia. naive_solver.
  - split; [done|]. intros [= -> ->]. by rewrite (proj2 (Compare_eq y y)) in Hc.
  - split; [done|]. intros [= -> ->]. by rewrite (proj2 (Compare_eq y y)) in Hc.
Qed.

Lemma compareFields_opp (a b : list string) : compareFields b a = CompOpp (compareFields a b).
Proof.
  unfold compareFields. revert b. induction a as [|x a IH]; intros [|y b]; try done. simpl.
  rewrite (compareBytes_opp (str x) (str y) : Compare y x = CompOpp (Compare x y)).
  destruct (Compare x y); [apply IH|done|done].
Qed.

Lemma compareFields_trans (a b c : list string) :
  length a = length b → length b = length c →
  compareFields a b ≠ Gt → compareFields b c ≠ Gt → compareFields a c ≠ Gt.
Proof.
  unfold compareFields. revert b c. induction a as [|x a IH]; intros [|y b] [|z c] H1 H2; try done.
  simpl in *. destruct (Compare x y) eqn:Hxy; [|destruct (Compare y z) eqn:Hyz|done].
  - apply Compare_eq in Hxy as ->. destruct (Compare y z); [apply IH; lia|done|done].
  - apply Compare_eq in Hyz as ->. by rewrite Hxy.
  - by rewrite (compareBytes_trans _ _ _ Hxy Hyz : Compare x z = Lt).
  - done.
Qed.

#[global] Instance stateLe_trans : Transitive stateLe.
Proof. intros a b c. unfold stateLe. rewrite !compareServiceState_fields. by apply compareFields_trans. Qed.

#[global] Instance stateLe_total : Total stateLe.
Proof.
  intros a b. unfold stateLe. rewrite !compareServiceState_fields, (compareFields_opp (fields a.1) (fields b.1)).
  destruct (compareFields (fields a.1) (fields b.1)); [by left|by left|by right].
Qed.

Lemma stateLe_antisym (a b : ServiceState * pendingScrape) :
  stateLe a b → stateLe b a → fields a.1 = fields b.1.
Proof.
  unfold stateLe. rewrite !compareServiceState_fields, (compareFields_opp (fields a.1) (fields b.1)).
  intros H1 H2. apply compareFields_eq; [done|]. by destruct (compareFields (fields a.1) (fields b.1)).
Qed.

(** ** The snapshot *)
(** A service is stored under its own name and instance. *)
Definition keysOk (m : gmap NameInstance Service) : Prop := map_Forall (λ k s, keyOf s = k) m.

Section theorems.
Context (isPrint : Z → bool).

(** Every branch of the report names the service. *)
Lemma buildServiceState_fields (d : Discovery) (k : NameInstance) (s : Service) :
  fields (buildServiceState isPrint d k s).1 = [svServiceType s; svName s; svInstance s; svContainerName s].
Proof. unfold buildServiceState. repeat case_match; done. Qed.

Lemma buildServicesState_elem (d : Discovery) (entries : list (NameInstance * Service))
    (row : ServiceState * pendingScrape) :
  row ∈ buildServicesState isPrint d entries ↔
  ∃ k s, (k, s) ∈ entries ∧ svActive s = true ∧ row = buildServiceState isPrint d k s.
Proof.
  unfold buildServicesState. rewrite list_elem_of_omap. split.
  - intros ([k s] & Hin & H). exists k, s. case_match; naive_solver.
  - intros (k & s & Hin & Ha & ->). exists (k, s). by rewrite Ha.
Qed.

Lemma buildServicesState_unique (d : Discovery) (entries : list (NameInstance * Service))
    (a b : ServiceState * pendingScrape) :
  keysOk (dServicesMap d) → entries ≡ₚ map_to_list (dServicesMap d) →
  a ∈ buildServicesState isPrint d entries → b ∈ buildServicesState isPrint d entries →
  fields a.1 = fields b.1 → a = b.
Proof.
  intros Hk Hp (k & s & Hin & _ & ->)%buildServicesState_elem (k' & s' & Hin' & _ & ->)%buildServicesState_elem.
  rewrite !buildServiceState_fields. intros [= _ Hn Hi _].
  rewrite Hp, elem_of_map_to_list in Hin, Hin'.
  assert (k = k') as <-; [|congruence].
  rewrite <-(Hk _ _ Hin), <-(Hk _ _ Hin'). unfold keyOf. congruence.
Qed.

(** The published report does not depend on the iteration order of the
    services map nor on how the sort breaks ties: whatever order the map gives
    its entries in, every sorted arrangement of the rows built from them is the
    snapshot that is published, and it has one row per active service. *)
Theorem publish_deterministic (d : Discovery) (entries : list (NameInstance * Service))
    (rows : list (ServiceState * pendingScrape)) :
  keysOk (dServicesMap d) →
  entries ≡ₚ map_to_list (dServicesMap d) →
  rows ≡ₚ buildServicesState isPrint d entries →
  Sorted stateLe rows →
  snapshotOf d rows = dSnapshot (publishServicesState isPrint d) ∧
  length rows = length (filter (λ e, svActive e.2 = true) (map_to_list (dServicesMap d))).
Proof.
  intros Hk He Hr Hs. split.
  - unfold publishServicesState. cbn [dSnapshot withSnapshot]. f_equal.
    set (rows' := merge_sort _ _). assert (rows' ≡ₚ buildServicesState isPrint d entries) as Hr'.
    { unfold rows'. rewrite merge_sort_Permutation. unfold buildServicesState. by rewrite He. }
    eapply (StronglySorted_unique_strong stateLe).
    + intros a b Ha Hb H1 H2. rewrite Hr in Ha. rewrite Hr' in Hb.
      eapply buildServicesState_unique; [done|done|done|done|by apply stateLe_antisym].
    + by apply Sorted_StronglySorted; [apply _|].
    + apply StronglySorted_merge_sort; apply _.
    + by rewrite Hr, Hr'.
  - rewrite Hr. unfold buildServicesState. rewrite He. clear.
    induction (map_to_list (dServicesMap d)) as [|[k s] l IH]; [done|]. simpl.
    rewrite filter_cons. cbn [snd]. destruct (svActive s) eqn:Ha.
    + rewrite decide_True by done. simpl. f_equal. exact IH.
    + rewrite decide_False by done. exact IH.
Qed.

(** ** The completed report *)
Lemma ServicesState_elem (d : Discovery) (L : provider → ScrapeState) (st : ServiceState) :
  st ∈ ServicesState (publishServicesState isPrint d) L →
  ∃ k s, dServicesMap d !! k = Some s ∧ svActive s = true ∧
    st = completeState L (buildServiceState isPrint d k s).1 (buildServiceState isPrint d k s).2.
Proof.
  unfold ServicesState, publishServicesState. cbn [dSnapshot withSnapshot snStates snPending snapshotOf].
  set (rows := merge_sort _ _). intros Hin.
  assert (zip_with (completeState L) (fst <$> rows) (snd <$> rows) = (λ r, completeState L r.1 r.2) <$> rows) as Hz.
  { generalize rows. intros l. induction l as [|r l IH]; [done|]. cbn. f_equal. exact IH. }
  rewrite Hz in Hin. apply list_elem_of_fmap in Hin as (row & -> & Hin). unfold rows in Hin.
  rewrite merge_sort_Permutation, buildServicesState_elem in Hin.
  destruct Hin as (k & s & Hin & Ha & ->). exists k, s. by rewrite elem_of_map_to_list in Hin.
Qed.

(** The statuses that tell of a failure or of a choice of the user, those with a text. *)
Definition hasText (status : InputStatus) : bool :=
  match status with
  | InputStatusOK | InputStatusPending | InputStatusUnknown | InputStatusUnsupportedType
  | InputStatusCheckOnly | InputStatusContainerStopped | InputStatusNotRegistered => false
  | _ => true
  end.

(** The results are those [newInputResult] builds. *)
Definition resultsOk (d : Discovery) : Prop :=
  map_Forall (λ _ r, ∃ u, r = newInputResult (irOutcome r) u) (dInputResult d).

Lemma errorText_empty (secrets : list bytes) : errorText "" secrets = "".
Proof. unfold errorText. by induction secrets as [|s secrets IH]. Qed.

(** What a row before its scrape state satisfies. *)
Definition rowOk (s : Service) (st : ServiceState) (pe : pendingScrape) : Prop :=
  (stError st = "" ∨ hasText (stInputStatus st) = true) ∧
  stMetricsIgnored st = bool_decide (stInputStatus st = InputStatusIgnored) ∧
  stInputStatus st ≠ InputStatusOK ∧ stInputStatus st ≠ InputStatusAnsweredError ∧
  stCollectionPending st = false ∧ stCollectionSkipped st = false ∧ stStaleMetricsBefore st = 0 ∧
  (peProvider pe = None ∨ stError st = "" ∧ stMetricsIgnored st = false) ∧
  (peClassified pe = false ∨ svServiceType s ∉ inputsWithoutNetwork).

Lemma buildServiceState_rowOk (d : Discovery) (k : NameInstance) (s : Service) :
  resultsOk d → rowOk s (buildServiceState isPrint d k s).1 (buildServiceState isPrint d k s).2.
Proof.
  intros Hr. unfold buildServiceState. destruct (dInputResult d !! k) as [r|] eqn:Hk.
  2: { repeat split; simpl; auto. }
  destruct (Hr _ _ Hk) as [u Hu]. rewrite Hu. destruct (irOutcome r); cbn [irOutcome irStatus irMessage newInputResult].
  all: repeat case_match; repeat split; simpl; auto.
  all: case_bool_decide; auto.
Qed.

(** Status, error text and flags of a reported service agree: a text comes
    with a status that tells of a failure or a choice; status ok means no text,
    a collection that ran and nothing stale; metrics are marked ignored exactly
    with status ignored; a skipped or pending collection has no text; and
    answered_error is only given to an input that talks over the network. *)
Theorem ServicesState_consistent (d : Discovery) (L : provider → ScrapeState) (st : ServiceState) :
  resultsOk d → st ∈ ServicesState (publishServicesState isPrint d) L →
  (stError st = "" ∨ hasText (stInputStatus st) = true) ∧
  (stInputStatus st = InputStatusOK →
     stError st = "" ∧ stCollectionPending st = false ∧ stCollectionSkipped st = false ∧ stStaleMetricsBefore st = 0) ∧
  stMetricsIgnored st = bool_decide (stInputStatus st = InputStatusIgnored) ∧
  (stCollectionPending st = true ∨ stCollectionSkipped st = true →
     stInputStatus st = InputStatusPending ∧ stError st = "") ∧
  (stInputStatus st = InputStatusAnsweredError → stServiceType st ∉ inputsWithoutNetwork).
Proof.
  intros Hr (k & s & _ & _ & ->)%ServicesState_elem.
  pose proof (buildServiceState_rowOk d k s Hr) as Hrow. pose proof (buildServiceState_fields d k s) as Hf.
  destruct (buildServiceState isPrint d k s) as [st pe]. simpl in *.
  destruct Hrow as (H1 & H2 & H3 & H4 & H5 & H6 & H7 & H8 & H9). injection Hf as Hty _ _ _. rewrite <-Hty in H9.
  unfold completeState. destruct (peProvider pe) as [p|].
  2: { split_and!; [done|by intros ?|done| |by intros ?]. intros [?|?]; congruence. }
  destruct H8 as [?|[Herr Hig]]; [done|]. unfold applyScrapeState, scrapeInputStatus.
  destruct (L p) as [status error kind reg]. destruct status; simpl.
  - by split_and!; [left|intros ?| | |intros ?].
  - by split_and!; [left|intros ?| | |intros ?].
  - destruct (decide (error = "")) as [->|He].
    + rewrite errorText_empty, !bool_decide_true by done.
      by split_and!; [left| | |intros [?|?]; congruence|intros ?].
    + rewrite !(bool_decide_false (error = "")) by done.
      destruct kind, (peClassified pe); split_and!; simpl; auto; try done;
        try (intros [?|?]; congruence). intros _. by destruct H9.
Qed.

(** The texts that are not an input's error. *)
Definition fixedMessages : list string :=
  ["" ; msgCreateFailed; msgMissingInfo; msgMissingCommand; msgUnexpectedType; msgUnsupportedPlatform;
   msgIgnored; msgJMXDisabled; msgJMXNoPort; msgJMXNoAddress].

Lemma buildServiceState_error (d : Discovery) (k : NameInstance) (s : Service) :
  resultsOk d →
  stError (buildServiceState isPrint d k s).1 ∈ fixedMessages ∧
  (peProvider (buildServiceState isPrint d k s).2 = None ∨
   peSecrets (buildServiceState isPrint d k s).2 = secretsOf isPrint (svConfig s)).
Proof.
  intros Hr. unfold buildServiceState. destruct (dInputResult d !! k) as [r|] eqn:Hk; [|split; [by left|by left]].
  destruct (Hr _ _ Hk) as [u Hu]. rewrite Hu.
  destruct (irOutcome r); cbn [irOutcome irStatus irMessage newInputResult]; repeat case_match; simpl;
    (split; [by apply (bool_decide_unpack _); vm_compute|by auto]).
Qed.

(** The password is in one of the places the secrets are read from. *)
Definition passwordsOf (c : config) : list bytes :=
  [str (cfgPassword c); str (cfgJMXPassword c)] ++ urlSecrets (str (cfgStatsURL c)).

(** C22. No password of a service's configuration is published: each row of the report is the one of a service of the
    map, and its error is one of the fixed messages, or what is left, cut at the limit of length, of a text in which every occurrence of the
    password, of the JMX password or of a secret of the statistics URL overlaps a mask "xxxxx", whatever the input
    reported.  A secret that has neither an "x" nor a full stop, and is not in the truncation notice, does not occur at
    all.  (Secrets of less than three bytes are not hidden.) *)
Theorem ServicesState_hides_passwords (d : Discovery) (L : provider → ScrapeState) (st : ServiceState) :
  resultsOk d → st ∈ ServicesState (publishServicesState isPrint d) L →
  ∃ k s, dServicesMap d !! k = Some s ∧ svName s = stName st ∧ svInstance s = stInstance st ∧
    ∀ password, password ∈ passwordsOf (svConfig s) → (3 ≤ length password)%nat →
    stError st ∈ fixedMessages ∨
    (∃ message, str (stError st) = truncateError message ∧ masked password message) ∧
    (120 ∉ password → 46 ∉ password → ¬ occurs password (str " (truncated)") → ¬ occurs password (str (stError st))).
Proof.
  intros Hr (k & s & Hk & _ & ->)%ServicesState_elem. exists k, s. split; [done|].
  pose proof (buildServiceState_fields d k s) as Hf. destruct (buildServiceState_error d k s Hr) as [Hfix Hsec].
  destruct (buildServiceState isPrint d k s) as [st pe]. simpl in *. injection Hf as _ Hn Hi _.
  assert (stName (completeState L st pe) = stName st ∧ stInstance (completeState L st pe) = stInstance st) as [-> ->]
    by (unfold completeState, applyScrapeState; repeat case_match; done).
  split; [done|]. split; [done|]. intros password Hpw Hlen.
  unfold completeState. destruct (peProvider pe) as [p|]; [|by left]. destruct Hsec as [?|Hsec]; [done|].
  unfold applyScrapeState. destruct (ssStatus (L p)); simpl; [by left|by left|right].
  unfold errorText. rewrite Hsec. unfold secretsOf. rewrite str_unstr.
  - split.
    + eexists. split; [reflexivity|]. apply redactError_masked; [exact (serviceSecrets_nonempty isPrint _ _ _)|]. exact (serviceSecrets_password isPrint _ _ _ _ Hpw Hlen).
    + intros Hx Hdot Htr. apply truncateError_occurs; [intros ->; simpl in Hlen; lia|done|done|]. exact (serviceSecrets_hide isPrint _ _ _ _ _ Hpw Hlen Hx).
  - apply truncateError_bytes, redactError_bytes, stabilizeError_bytes, str_areBytes.
    exact (serviceSecrets_nonempty isPrint _ _ _).
Qed.
End theorems.

(** * Examples *)
Definition sampleConfig : config :=
  mkConfig "redis" "" "" 0 None "" None 0 "" "" 0 "" "" "" "" "" "" "hunter2" "http://u:se/cret@h/" 0 "" None 0 ""
    "" None false false false "" "" "" None None None "" "".

Definition sampleService (name type : string) (c : config) : Service :=
  mkService c name "" type "" "" "127.0.0.1" [] "" true false false false 0 None 0.

Definition redisKey : NameInstance := mkNameInstance "redis" "".
Definition kafkaKey : NameInstance := mkNameInstance "kafka" "".

Definition sampleDiscovery : Discovery :=
  mkDiscovery ∅
    {[ redisKey := sampleService "redis" "redis" sampleConfig; kafkaKey := sampleService "kafka" "kafka" zeroConfig ]}
    0 ∅ {[ redisKey := mkCollector 1 true ]}
    {[ redisKey := newInputResult inputRegistered false; kafkaKey := newInputResult inputUnsupportedType false ]}
    false ∅ None (mkSnapshot [] [] 0).

Definition sampleScrape (_ : provider) : ScrapeState :=
  mkScrapeState ScrapeRan "read tcp 127.0.0.1:5->127.0.0.1:6379: AUTH hunter2 refused" ScrapeErrorGatherer 7.

Definition ascii (r : Z) : bool := false.

Example sample_report :
  (λ st, (stName st, stError st, stInputStatus st)) <$>
    ServicesState (publishServicesState ascii sampleDiscovery) sampleScrape =
  [("kafka", msgJMXDisabled, InputStatusJMXDisabled);
   ("redis", "read tcp 127.0.0.1:6379: AUTH xxxxx refused", InputStatusAnsweredError)].
Proof. vm_compute. reflexivity. Qed.

Lemma sample_keysOk : keysOk (dServicesMap sampleDiscovery).
Proof. apply map_Forall_insert_2; [done|]. by apply map_Forall_singleton. Qed.

Lemma sample_resultsOk : resultsOk sampleDiscovery.
Proof. apply map_Forall_insert_2; [by exists false|]. apply map_Forall_singleton. by exists false. Qed.

Lemma publish_deterministic_witness :
  let entries := reverse (map_to_list (dServicesMap sampleDiscovery)) in
  let rows := merge_sort stateLe (buildServicesState ascii sampleDiscovery entries) in
  snapshotOf sampleDiscovery rows = dSnapshot (publishServicesState ascii sampleDiscovery) ∧
  length rows = length (filter (λ e, svActive e.2 = true) (map_to_list (dServicesMap sampleDiscovery))).
Proof.
  intros entries rows. apply (publish_deterministic ascii sampleDiscovery entries).
  - apply sample_keysOk.
  - apply reverse_Permutation.
  - apply merge_sort_Permutation.
  - apply Sorted_merge_sort, _.
Defined.

Definition redisRow : ServiceState :=
  mkServiceState "redis" "redis" "" "" false true "read tcp 127.0.0.1:6379: AUTH xxxxx refused"
    InputStatusAnsweredError false false false 7.

Lemma redisRow_reported : redisRow ∈ ServicesState (publishServicesState ascii sampleDiscovery) sampleScrape.
Proof. vm_compute. right. left. Qed.

Lemma ServicesState_consistent_witness :
  (stInputStatus redisRow = InputStatusAnsweredError → stServiceType redisRow ∉ inputsWithoutNetwork) ∧
  hasText (stInputStatus redisRow) = true.
Proof.
  pose proof (ServicesState_consistent ascii sampleDiscovery sampleScrape redisRow sample_resultsOk redisRow_reported)
    as (H1 & _ & _ & _ & H5).
  split; [exact H5|]. by destruct H1.
Defined.

Lemma ServicesState_hides_passwords_witness :
  ∃ k s, dServicesMap sampleDiscovery !! k = Some s ∧ svName s = "redis" ∧ svInstance s = "" ∧
    ∀ password, password ∈ passwordsOf (svConfig s) → (3 ≤ length password)%nat →
    stError redisRow ∈ fixedMessages ∨
    (∃ message, str (stError redisRow) = truncateError message ∧ masked password message) ∧
    (120 ∉ password → 46 ∉ password → ¬ occurs password (str " (truncated)") → ¬ occurs password (str (stError redisRow))).
Proof. exact (ServicesState_hides_passwords ascii sampleDiscovery sampleScrape redisRow sample_resultsOk redisRow_reported). Defined.
