(* ===== verification/JmxState.v ===== *)
(** What jmxtrans collects (jmxtrans/state.go): for each service, since when it is
    configured with its current target and when a point was last received, from which
    the state of its collection is reported.

    The clock is an argument of the operations that read it. *)
From S2P Require Import Prelude Labels Float64 Points Strings Services JmxMetrics ServicesState.

#[local] Open Scope string_scope.
#[local] Open Scope Z_scope.

(** * Data *)
Definition stateWindow : Z := 5 * Time.minute.
Definition errMsgNotConnected : string := "jmxtrans is not connected to Glouton".
Definition errMsgNoMetrics : string := "no metrics received through JMX".

Record jmxTarget := mkJmxTarget { host : string; port : Z; username : string; password : string }.

#[global] Instance jmxTarget_eq_dec : EqDecision jmxTarget.
Proof. solve_decision. Defined.

Definition zeroTarget : jmxTarget := mkJmxTarget "" 0 "" "".

Record collectionState := mkCollectionState {
  configuredAt : gmap NameInstance Z;
  targets : gmap NameInstance jmxTarget;
  receivedAt : gmap NameInstance Z;
  connections : Z;
  disconnectedAt : Z
}.

Definition zeroCollection : collectionState := mkCollectionState ∅ ∅ ∅ 0 0.

(** * Operations *)
Definition targetOf (service : Service) : jmxTarget :=
  mkJmxTarget (svIPAddress service) (cfgJMXPort (svConfig service)) (cfgJMXUsername (svConfig service))
    (cfgJMXPassword (svConfig service)).

(** One service of the list; a service that is not collected is passed over. *)
Definition setService (now : Z) (s : collectionState) (service : Service) : collectionState :=
  if negb (isCollected service) then s
  else
    let key := keyOf service in
    let target := targetOf service in
    if bool_decide (configuredAt s !! key = None) || bool_decide (default zeroTarget (targets s !! key) ≠ target) then
      mkCollectionState (<[key := now]> (configuredAt s)) (<[key := target]> (targets s)) (delete key (receivedAt s))
        (connections s) (disconnectedAt s)
    else s.

Definition currentKeys (services : list Service) : gset NameInstance :=
  list_to_set (keyOf <$> base.filter (λ service, isCollected service = true) services).

(** The loop of the deletions is over the keys of [configuredAt]. *)
Definition setServices (now : Z) (services : list Service) (s : collectionState) : collectionState :=
  let s := foldl (setService now) s services in
  let gone := dom (configuredAt s) ∖ currentKeys services in
  mkCollectionState (base.filter (λ kv, kv.1 ∉ gone) (configuredAt s)) (base.filter (λ kv, kv.1 ∉ gone) (targets s))
    (base.filter (λ kv, kv.1 ∉ gone) (receivedAt s)) (connections s) (disconnectedAt s).

Definition pointReceived (now : Z) (point : MetricPoint) (s : collectionState) : collectionState :=
  let key := mkNameInstance (ServiceName (mpAnnotations point)) (ServiceInstance (mpAnnotations point)) in
  match configuredAt s !! key with
  | None => s
  | Some _ => mkCollectionState (configuredAt s) (targets s) (<[key := now]> (receivedAt s)) (connections s) (disconnectedAt s)
  end.

Definition connected (s : collectionState) : collectionState :=
  mkCollectionState (configuredAt s) (targets s) (receivedAt s) (connections s + 1) (disconnectedAt s).

Definition disconnected (now : Z) (s : collectionState) : collectionState :=
  mkCollectionState (configuredAt s) (targets s) (receivedAt s) (connections s - 1) now.

Definition ran (error : string) (registeredAt : Z) : ScrapeState := mkScrapeState ScrapeRan error ScrapeErrorNone registeredAt.
Definition noState : ScrapeState := mkScrapeState ScrapeNotRun "" ScrapeErrorNone 0.

Definition ServiceScrapeState (now : Z) (s : collectionState) (service : NameInstance) : ScrapeState :=
  match configuredAt s !! service with
  | None => noState
  | Some configuredAt =>
      let recent := match receivedAt s !! service with
                    | Some receivedAt => Time.Sub now receivedAt <? stateWindow
                    | None => false
                    end in
      if recent then ran "" configuredAt
      else if Time.Sub now configuredAt <? stateWindow then noState
      else if (connections s =? 0) && (stateWindow <=? Time.Sub now (disconnectedAt s)) then ran errMsgNotConnected configuredAt
      else ran errMsgNoMetrics configuredAt
  end.

(** * Histories *)
Inductive jmxEvent :=
| evServices (now : Z) (services : list Service)
| evPoint (now : Z) (point : MetricPoint)
| evConnected
| evDisconnected (now : Z).

Definition stepJmx (s : collectionState) (e : jmxEvent) : collectionState :=
  match e with
  | evServices now services => setServices now services s
  | evPoint now point => pointReceived now point s
  | evConnected => connected s
  | evDisconnected now => disconnected now s
  end.

Definition runJmx (h : list jmxEvent) : collectionState := foldl stepJmx zeroCollection h.

(** What the history says of a service: the target it was last given with, if the last list has it,
    and when a point of it was last received. *)
Definition given (key : NameInstance) (services : list Service) : list jmxTarget :=
  targetOf <$> base.filter (λ service, isCollected service = true ∧ keyOf service = key) services.

Definition stepTarget (key : NameInstance) (target : option jmxTarget) (e : jmxEvent) : option jmxTarget :=
  match e with evServices _ services => last (given key services) | _ => target end.
Definition lastTarget (key : NameInstance) (h : list jmxEvent) : option jmxTarget := foldl (stepTarget key) None h.

Definition pointKey (point : MetricPoint) : NameInstance :=
  mkNameInstance (ServiceName (mpAnnotations point)) (ServiceInstance (mpAnnotations point)).
Definition stepPoint (key : NameInstance) (received : option Z) (e : jmxEvent) : option Z :=
  match e with evPoint now point => if decide (pointKey point = key) then Some now else received | _ => received end.
Definition lastPoint (key : NameInstance) (h : list jmxEvent) : option Z := foldl (stepPoint key) None h.

Definition stepConnections (c : Z * Z) (e : jmxEvent) : Z * Z :=
  match e with evConnected => (c.1 + 1, c.2) | evDisconnected now => (c.1 - 1, now) | _ => c end.
(** The connections that are open, and the time of the last disconnection. *)
Definition connectionsOf (h : list jmxEvent) : Z * Z := foldl stepConnections (0, 0) h.

(** The service keeps the target. *)
Definition keepsTarget (key : NameInstance) (target : jmxTarget) (e : jmxEvent) : Prop :=
  match e with
  | evServices _ services => given key services ≠ [] ∧ Forall (λ t, t = target) (given key services)
  | _ => True
  end.

(** * Lemmas *)
Definition view (s : collectionState) (key : NameInstance) : option Z * option jmxTarget * option Z :=
  (configuredAt s !! key, targets s !! key, receivedAt s !! key).

Lemma view_eq (s : collectionState) (key : NameInstance) (c r : option Z) (t : option jmxTarget) :
  view s key = (c, t, r) → configuredAt s !! key = c ∧ targets s !! key = t ∧ receivedAt s !! key = r.
Proof. by intros [= -> -> ->]. Qed.

Definition configure (now : Z) (target : jmxTarget) (v : option Z * option jmxTarget * option Z) :=
  if decide (is_Some v.1.1 ∧ v.1.2 = Some target) then v else (Some now, Some target, None).

Lemma collected_target (service : Service) : isCollected service = true → targetOf service ≠ zeroTarget.
Proof.
  unfold isCollected, targetOf, zeroTarget. intros H [= _ Hp _ _]. rewrite !andb_true_iff in H. destruct H as [[_ H] _].
  by apply negb_true_iff, Z.eqb_neq in H.
Qed.

Lemma setService_view (now : Z) (s : collectionState) (service : Service) (key : NameInstance) :
  view (setService now s service) key =
  if decide (isCollected service = true ∧ keyOf service = key) then configure now (targetOf service) (view s key) else view s key.
Proof.
  unfold setService. destruct (isCollected service) eqn:Hc; cbn [negb]; [|by rewrite decide_False by naive_solver].
  pose proof (collected_target service Hc) as Hz. unfold configure, view.
  destruct (decide (keyOf service = key)) as [<-|Hne].
  - rewrite (decide_True (P := _ ∧ _)) by done. cbn [fst snd].
    destruct (configuredAt s !! keyOf service) as [c|] eqn:Hcfg; cbn [orb].
    + rewrite bool_decide_false by done. cbn [orb]. case_bool_decide as Ht.
      * rewrite decide_False by (intros [_ H]; by rewrite H in Ht). cbn. by rewrite !lookup_insert_eq, lookup_delete_eq.
      * rewrite decide_True; [by rewrite Hcfg|]. split; [done|].
        destruct (targets s !! keyOf service); cbn in Ht; congruence.
    + rewrite bool_decide_true by done. rewrite decide_False by (by intros [[? ?] _]). cbn.
      by rewrite !lookup_insert_eq, lookup_delete_eq.
  - rewrite (decide_False (P := _ ∧ _)) by naive_solver. destruct (_ || _); [|done]. cbn.
    by rewrite !lookup_insert_ne, lookup_delete_ne by done.
Qed.

Lemma foldl_setService_view (now : Z) (services : list Service) (s : collectionState) (key : NameInstance) :
  view (foldl (setService now) s services) key = foldl (λ v t, configure now t v) (view s key) (given key services).
Proof.
  revert s. induction services as [|service services IH]; intros s; [done|]. cbn [foldl].
  rewrite IH, setService_view. unfold given. rewrite filter_cons. case_decide; [|done]. by rewrite fmap_cons.
Qed.

Lemma currentKeys_given (key : NameInstance) (services : list Service) :
  key ∈ currentKeys services ↔ given key services ≠ [].
Proof.
  unfold currentKeys, given. rewrite elem_of_list_to_set, list_elem_of_fmap, fmap_nil_iff. split.
  - intros (service & -> & Hs). apply list_elem_of_filter in Hs as [Hc Hin]. intros Hnil.
    assert (service ∈ base.filter (λ s, isCollected s = true ∧ keyOf s = keyOf service) services) as H.
    { by apply list_elem_of_filter. }
    rewrite Hnil in H. by apply not_elem_of_nil in H.
  - intros Hne. destruct (base.filter _ services) as [|service l] eqn:Hf; [done|].
    assert (service ∈ service :: l) as H by (by left). rewrite <-Hf in H. apply list_elem_of_filter in H as [[Hc Hk] Hin].
    exists service. split; [done|]. by apply list_elem_of_filter.
Qed.

Lemma filter_lookup_gone {A : Type} (X : gset NameInstance) (m : gmap NameInstance A) (key : NameInstance) :
  base.filter (λ kv, kv.1 ∉ X) m !! key = if decide (key ∈ X) then None else m !! key.
Proof.
  case_decide.
  - apply map_lookup_filter_None. right. by intros x _ ?.
  - destruct (m !! key) as [x|] eqn:Hm; [by apply map_lookup_filter_Some|apply map_lookup_filter_None; by left].
Qed.

(** A service that is not configured has neither a target nor a received point. *)
Definition wellFormed (s : collectionState) : Prop :=
  ∀ key, configuredAt s !! key = None → targets s !! key = None ∧ receivedAt s !! key = None.

(** A service that the list has is configured, the other ones are forgotten. *)
Lemma setServices_view (now : Z) (services : list Service) (s : collectionState) (key : NameInstance) :
  wellFormed s →
  view (setServices now services s) key =
  if decide (given key services = []) then (None, None, None)
  else foldl (λ v t, configure now t v) (view s key) (given key services).
Proof.
  intros Hinv. unfold setServices. set (s' := foldl _ _ _).
  assert (view s' key = foldl (λ v t, configure now t v) (view s key) (given key services)) as Hf
    by apply foldl_setService_view.
  unfold view at 1. cbn [configuredAt targets receivedAt]. rewrite !filter_lookup_gone.
  rewrite <-Hf. destruct (decide (given key services = [])) as [Hg|Hg].
  - rewrite Hg in Hf. cbn in Hf. case_decide as Hd; [done|]. rewrite elem_of_difference, currentKeys_given, Hg in Hd.
    destruct (configuredAt s' !! key) eqn:Hc; [exfalso; apply Hd; split; [by apply elem_of_dom_2 in Hc|tauto]|].
    unfold view in Hf. simplify_eq. rewrite Hc in *. destruct (Hinv key) as [Ht Hr]; [congruence|]. congruence.
  - by rewrite !decide_False by (rewrite elem_of_difference, currentKeys_given; tauto).
Qed.

Lemma configure_Some (now : Z) (l : list jmxTarget) (v : option Z * option jmxTarget * option Z) (target : jmxTarget) :
  last l = Some target →
  ∃ c r, foldl (λ v t, configure now t v) v l = (Some c, Some target, r).
Proof.
  intros Hl. destruct l as [|t l _] using rev_ind; [done|]. rewrite last_snoc in Hl. injection Hl as ->.
  rewrite foldl_app. cbn. unfold configure at 1. case_decide as Hd; [|eauto].
  destruct (foldl _ v l) as [[[c|] t'] r]; cbn in Hd; destruct Hd as [[? ?] ?]; [subst; eauto|done].
Qed.

Lemma last_is_Some {A : Type} (l : list A) : l ≠ [] → ∃ x, last l = Some x.
Proof. destruct l as [|x l _] using rev_ind; [done|]. intros _. exists x. apply last_snoc. Qed.

Lemma stepJmx_target (s : collectionState) (e : jmxEvent) (key : NameInstance) :
  wellFormed s → targets (stepJmx s e) !! key = stepTarget key (targets s !! key) e.
Proof.
  intros Hw. destruct e as [now services|now point| |now]; try done; cbn [stepJmx stepTarget].
  - pose proof (setServices_view now services s key Hw) as Hv. case_decide as Hg.
    + apply view_eq in Hv as (_ & Ht & _). by rewrite Ht, Hg.
    + destruct (last_is_Some _ Hg) as [t Ht]. rewrite Ht. destruct (configure_Some now _ (view s key) t Ht) as (c & r & Hc).
      rewrite Hc in Hv. by apply view_eq in Hv as (_ & -> & _).
  - unfold pointReceived. by destruct (configuredAt s !! _).
Qed.

Lemma stepJmx_wellFormed (s : collectionState) (e : jmxEvent) : wellFormed s → wellFormed (stepJmx s e).
Proof.
  intros Hw key. destruct e as [now services|now point| |now]; try (apply Hw); cbn [stepJmx].
  - pose proof (setServices_view now services s key Hw) as Hv. case_decide as Hg.
    + apply view_eq in Hv as (Hc & Ht & Hr). by rewrite Ht, Hr.
    + destruct (last_is_Some _ Hg) as [t Ht]. destruct (configure_Some now _ (view s key) t Ht) as (c & r & Hc).
      rewrite Hc in Hv. apply view_eq in Hv as (-> & _). done.
  - unfold pointReceived. destruct (configuredAt s !! mkNameInstance _ _) eqn:Hc; [|apply Hw]. cbn. intros Hn.
    rewrite lookup_insert_ne by congruence. by apply Hw.
Qed.

Lemma runJmx_invariant (h : list jmxEvent) :
  wellFormed (runJmx h) ∧ ∀ key, targets (runJmx h) !! key = lastTarget key h.
Proof.
  unfold runJmx, lastTarget. induction h as [|e h IH] using rev_ind.
  - split; [|done]. by intros key.
  - destruct IH as [Hw Ht]. rewrite !foldl_app. cbn [foldl]. split; [by apply stepJmx_wellFormed|].
    intros key. rewrite foldl_app. cbn [foldl]. by rewrite stepJmx_target, Ht.
Qed.

Lemma runJmx_connections (h : list jmxEvent) :
  (connections (runJmx h), disconnectedAt (runJmx h)) = connectionsOf h.
Proof.
  assert (∀ l now s, connections (foldl (setService now) s l) = connections s ∧
                     disconnectedAt (foldl (setService now) s l) = disconnectedAt s) as Hset.
  { induction l as [|x l IH]; intros now s; [done|]. cbn [foldl]. destruct (IH now (setService now s x)) as [-> ->].
    unfold setService. destruct (negb _); [done|]. by destruct (_ || _). }
  unfold runJmx, connectionsOf. induction h as [|e h IH] using rev_ind; [done|]. rewrite !foldl_app. cbn [foldl].
  rewrite <-IH. destruct e as [now services|now point| |now]; cbn [stepJmx stepConnections fst snd]; try done.
  - unfold setServices. cbn. destruct (Hset services now (foldl stepJmx zeroCollection h)) as [-> ->]. done.
  - unfold pointReceived. by destruct (configuredAt _ !! _).
Qed.

(** While the target is kept, only the points change what is known of the service. *)
Lemma keeps_view (h : list jmxEvent) (s : collectionState) (key : NameInstance) (target : jmxTarget) (c : Z) (r : option Z) :
  wellFormed s → view s key = (Some c, Some target, r) → Forall (keepsTarget key target) h →
  view (foldl stepJmx s h) key = (Some c, Some target, foldl (stepPoint key) r h).
Proof.
  revert s r. induction h as [|e h IH]; intros s r Hw Hv Hk; [done|]. apply Forall_cons in Hk as [He Hk]. cbn [foldl].
  apply IH; [by apply stepJmx_wellFormed| |done]. clear IH Hk.
  destruct e as [now services|now point| |now]; try done; cbn [stepJmx stepPoint].
  - destruct He as [Hg Ht]. rewrite setServices_view, decide_False, Hv by done. clear Hg.
    induction Ht as [|t l -> _ IH]; [done|]. cbn [foldl]. unfold configure at 2. by rewrite decide_True by done.
  - unfold pointReceived. fold (pointKey point). destruct (decide (pointKey point = key)) as [<-|Hne].
    + apply view_eq in Hv as (Hc & Ht & Hr). rewrite Hc. unfold view. cbn. by rewrite Hc, Ht, lookup_insert_eq.
    + destruct (configuredAt s !! pointKey point); [|exact Hv]. apply view_eq in Hv as (Hc & Ht & Hr).
      unfold view. cbn. by rewrite lookup_insert_ne, Hc, Ht, Hr.
Qed.

(** The state of the collection of a service, from the history of the lists of services, points
    and connections: when the service was given with a target it did not have, and keeps it since,
    it is collected without error if one of its points was received in the last window; otherwise
    nothing is said until a whole window has passed since the service was given, and then the error
    tells whether jmxtrans was connected in the last window.  Nothing received for an earlier target counts. *)
Theorem scrape_state_history (h1 h2 : list jmxEvent) (t0 now : Z) (services : list Service) (key : NameInstance) (target : jmxTarget) :
  lastTarget key h1 ≠ Some target → keepsTarget key target (evServices t0 services) → Forall (keepsTarget key target) h2 →
  let h := (h1 ++ evServices t0 services :: h2)%list in
  ServiceScrapeState now (runJmx h) key =
  if match lastPoint key h2 with Some r => Time.Sub now r <? stateWindow | None => false end then ran "" t0
  else if Time.Sub now t0 <? stateWindow then noState
  else if ((connectionsOf h).1 =? 0) && (stateWindow <=? Time.Sub now (connectionsOf h).2) then ran errMsgNotConnected t0
  else ran errMsgNoMetrics t0.
Proof.
  intros Hlast Hgiven Hk h. destruct (runJmx_invariant h1) as [Hw Ht]. rewrite <-Ht in Hlast.
  assert (view (stepJmx (runJmx h1) (evServices t0 services)) key = (Some t0, Some target, None)) as Hv.
  { cbn [stepJmx]. destruct Hgiven as [Hg Hall]. rewrite setServices_view, decide_False by done.
    destruct (given key services) as [|t l]; [done|]. apply Forall_cons in Hall as [-> Hall]. cbn [foldl].
    unfold configure at 2. rewrite decide_False by (intros [_ H]; by apply Hlast). clear Hg.
    induction Hall as [|t l -> _ IH]; [done|]. cbn [foldl]. unfold configure at 2. by rewrite decide_True by done. }
  assert (view (runJmx h) key = (Some t0, Some target, lastPoint key h2)) as Hview.
  { unfold runJmx, h. rewrite foldl_app. cbn [foldl]. by apply keeps_view; [apply stepJmx_wellFormed|..]. }
  apply view_eq in Hview as (Hc & _ & Hr). pose proof (runJmx_connections h) as Hconn.
  unfold ServiceScrapeState. rewrite Hc, Hr, <-Hconn. done.
Qed.

(** * Witness *)
Definition kafkaService : Service :=
  mkService (withJMXMetrics (mkConfig "kafka" "" "" 0 None "" None 0 "" "" 0 "" "" "" "" "" "" "" "" 0 "" None 9999 "" "" None
    false false false "" "" "" None None None "" "") None)
    "kafka" "" "kafka" "" "" "10.0.0.1" [] "" true false false false 0 None 0.
Definition kafkaKey : NameInstance := mkNameInstance "kafka" "".

Lemma scrape_state_history_witness :
  ServiceScrapeState (10 * Time.minute) (runJmx ([] ++ evServices 0 [kafkaService] :: [evConnected])) kafkaKey = ran errMsgNoMetrics 0.
Proof.
  rewrite (scrape_state_history [] [evConnected] 0 (10 * Time.minute) [kafkaService] kafkaKey (targetOf kafkaService));
    [reflexivity|done|split; [by vm_compute|vm_compute; by repeat constructor]|by repeat constructor].
Defined.
