(* ===== verification/JmxClient.v ===== *)
(** The JMX collection (jmxtrans/config.go, client.go, jmx.go): the configuration given to
    jmxtrans, and the graphite lines it sends back, from which the points are made.

    The hash of a text (the hexadecimal SHA-256) and [strconv.ParseFloat] are parameters;
    [rangeSum] and [rangeRatio] are the orders in which Go visits the pending maps.  The
    emitted points are returned with the state of the client. *)
From S2P Require Import Prelude Labels Float64 Points Format Strings Services JmxMetrics.

#[local] Open Scope string_scope.
#[local] Open Scope Z_scope.

Definition graphitePrefix : string := "jmxtrans".

(** * Configuration *)
Record metricKey := mkMetricKey { sha256Service : string; sha256Bean : string; keyAttr : string }.

#[global] Instance metricKey_eq_dec : EqDecision metricKey.
Proof. solve_decision. Defined.
#[global] Instance metricKey_countable : Countable metricKey.
Proof.
  refine (inj_countable' (λ k, (sha256Service k, sha256Bean k, keyAttr k)) (λ '(s, b, a), mkMetricKey s b a) _).
  by intros [].
Defined.

Record configWriter := mkConfigWriter {
  cwClass : string; cwRootPrefix : string; cwHost : string; cwPort : Z; cwFlushStrategy : string; cwFlushDelayInSeconds : Z }.
Record configQuery := mkConfigQuery {
  cqObject : string; cqOutputWriters : list configWriter; cqResultAlias : string; cqAttr : list string; cqTypeNames : slice string }.
Record configServer := mkConfigServer {
  csHost : string; csAlias : string; csPort : Z; csQueries : list configQuery; csOutputWriters : list configWriter;
  csRunPeriodSeconds : Z; csUsername : string; csPassword : string }.
(** What json.Marshal writes. *)
Record configRoot := mkConfigRoot { crServers : list configServer }.

Record jmxtransConfig := mkJmxtransConfig {
  jcServices : list Service;
  jcResolution : Z;
  jcTargetAddress : string;
  jcTargetPort : Z;
  sha256ToService : gmap string Service;
  knownMetrics : gmap metricKey (list JmxMetric);
  isDivisor : gset string
}.

Definition UpdateConfig (cfg : jmxtransConfig) (services : list Service) (metricResolution : Z) : jmxtransConfig :=
  mkJmxtransConfig services metricResolution (jcTargetAddress cfg) (jcTargetPort cfg) (sha256ToService cfg)
    (knownMetrics cfg) (isDivisor cfg).

Definition UpdateTarget (cfg : jmxtransConfig) (targetAddress : string) (targetPort : Z) : jmxtransConfig :=
  mkJmxtransConfig (jcServices cfg) (jcResolution cfg) targetAddress targetPort (sha256ToService cfg)
    (knownMetrics cfg) (isDivisor cfg).

(** IsEmpty, on what is written: nothing, or no server. *)
Definition IsEmpty (config : option configRoot) : bool :=
  match config with None => true | Some root => bool_decide (length (crServers root) = 0%nat) end.

Section Config.
Variable hash : string → string.

Definition serviceHash (service : Service) : string := hash (svServiceType service +:+ svInstance service).

Definition metricAttr (m : JmxMetric) : string :=
  if bool_decide (jmPath m ≠ "") then jmAttribute m +:+ "_" +:+ jmPath m else jmAttribute m.

Definition metricKeyOf (service : Service) (m : JmxMetric) : metricKey :=
  mkMetricKey (serviceHash service) (hash (jmMBean m)) (metricAttr m).

(** One metric of a service. *)
Definition addMetric (service : Service) (known : gmap metricKey (list JmxMetric) * gset string) (m : JmxMetric) :
    gmap metricKey (list JmxMetric) * gset string :=
  let key := metricKeyOf service m in
  (<[key := (default [] (known.1 !! key) ++ [m])%list]> known.1,
   if bool_decide (jmRatio m ≠ "") then {[ svName service +:+ "_" +:+ jmRatio m ]} ∪ known.2 else known.2).

Definition queryOf (m : JmxMetric) : configQuery :=
  mkConfigQuery (jmMBean m) [] (hash (jmMBean m)) [jmAttribute m] (jmTypeNames m).

Definition seconds (d : Z) : Z := Float.to_int64 (Seconds d).

(** The state of the loop over the services. *)
Record configState := mkConfigState {
  stServices : gmap string Service;
  stKnown : gmap metricKey (list JmxMetric);
  stDivisor : gset string;
  stServers : list configServer
}.

Definition addService (writer : configWriter) (resolution : Z) (st : configState) (service : Service) : configState :=
  let metrics := GetJMXMetrics service in
  if (length metrics =? 0)%nat then st
  else
    let (known, divisor) := foldl (addMetric service) (stKnown st, stDivisor st) metrics in
    let server := mkConfigServer (svIPAddress service) (serviceHash service) (cfgJMXPort (svConfig service)) (queryOf <$> metrics)
      [writer] (seconds resolution) (cfgJMXUsername (svConfig service)) (cfgJMXPassword (svConfig service)) in
    mkConfigState (<[serviceHash service := service]> (stServices st)) known divisor (stServers st ++ [server])%list.

Definition CurrentConfig (cfg : jmxtransConfig) : option configRoot * jmxtransConfig :=
  if (jcResolution cfg =? 0) || bool_decide (jcTargetAddress cfg = "") then (None, cfg)
  else
    let writer := mkConfigWriter "com.googlecode.jmxtrans.model.output.GraphiteWriterFactory" graphitePrefix
      (jcTargetAddress cfg) (jcTargetPort cfg) "timeBased" (seconds (jcResolution cfg)) in
    let st := foldl (addService writer (jcResolution cfg)) (mkConfigState ∅ ∅ ∅ []) (jcServices cfg) in
    (Some (mkConfigRoot (stServers st)),
     mkJmxtransConfig (jcServices cfg) (jcResolution cfg) (jcTargetAddress cfg) (jcTargetPort cfg)
       (stServices st) (stKnown st) (stDivisor st)).

Definition GetService (cfg : jmxtransConfig) (sha256 : string) : option Service := sha256ToService cfg !! sha256.

Definition GetMetrics (cfg : jmxtransConfig) (sha256 bean attr : string) : list JmxMetric * bool :=
  match sha256ToService cfg !! sha256 with
  | None => ([], false)
  | Some service =>
      let metrics := default [] (knownMetrics cfg !! mkMetricKey sha256 bean attr) in
      (metrics, existsb (λ m, bool_decide (svName service +:+ "_" +:+ jmName m ∈ isDivisor cfg)) metrics)
  end.
End Config.

(** * The graphite server of JMX.Run *)
(** The server after an update: [writeFailed] is the error of writeConfig. *)
Definition updateServer (running : bool) (config : option configRoot) (writeFailed : bool) : bool :=
  let running := if writeFailed && running then false else running in
  let running := if IsEmpty config && running then false else running in
  if negb running && negb writeFailed && negb (IsEmpty config) then true else running.

(** The server runs after an update exactly when the file was written and has a server. *)
Lemma updateServer_spec (running : bool) (config : option configRoot) (writeFailed : bool) :
  updateServer running config writeFailed = negb writeFailed && negb (IsEmpty config).
Proof. unfold updateServer. by destruct running, (IsEmpty config), writeFailed. Qed.

(** * The client *)
Record nameItem := mkNameItem { kName : string; kItem : string }.

#[global] Instance nameItem_eq_dec : EqDecision nameItem.
Proof. solve_decision. Defined.
#[global] Instance nameItem_countable : Countable nameItem.
Proof. refine (inj_countable' (λ k, (kName k, kItem k)) (λ '(n, i), mkNameItem n i) _). by intros []. Defined.

Record metricInfo := mkMetricInfo {
  miService : Service; miMetric : JmxMetric; miLabels : Labels; miAnnotations : MetricAnnotations;
  miTimestamp : Z; miValue : float64; miUsedInRatio : bool }.

(** [underivatedValues] only holds a time and a value. *)
Record jmxtransClient := mkClient {
  lastPurgeAt : Z;
  lastTime : Z;
  pendingSum : gmap nameItem (list metricInfo);
  pendingRatio : gmap nameItem metricInfo;
  underivatedValues : gmap nameItem (Z * float64);
  valuesForRatio : gmap nameItem metricInfo
}.

Definition initClient : jmxtransClient := mkClient 0 0 ∅ ∅ ∅ ∅.

(** What the client uses of the configuration. *)
Record configInterface := mkConfigInterface {
  ciGetService : string → option Service;
  ciGetMetrics : string → string → string → list JmxMetric * bool
}.

(** [time.Unix(sec, 0)] *)
Definition UnixTime (sec : Z) : Z := Int.int64 (sec + 62135596800) * Time.second.

(** [math.Abs(t.Sub(u).Seconds()) > 1] *)
Definition apart (t u : Z) : bool := Float.gtb (Float.abs (Seconds (Time.Sub t u))) one.

Definition pointOf (i : metricInfo) (value : float64) : MetricPoint :=
  mkMetricPoint (mkPoint (miTimestamp i) value) (miLabels i) (miAnnotations i).

Section Client.
Variable parseFloat : string → option float64.
Variable rangeSum : gmap nameItem (list metricInfo) → list (nameItem * list metricInfo).
Variable rangeRatio : gmap nameItem metricInfo → list (nameItem * metricInfo).

(** One key of [pendingSum]. *)
Definition flushSum (st : jmxtransClient * list MetricPoint) (kv : nameItem * list metricInfo) : jmxtransClient * list MetricPoint :=
  let (c, emitted) := st in
  match kv.2 with
  | [] => (c, emitted)
  | p0 :: _ =>
      let sum := foldl (λ sum pts, Float.add sum (miValue pts)) Float.zero kv.2 in
      if bool_decide (jmRatio (miMetric p0) ≠ "") then
        (mkClient (lastPurgeAt c) (lastTime c) (pendingSum c)
           (<[kv.1 := mkMetricInfo (miService p0) (miMetric p0) (miLabels p0) (miAnnotations p0) (miTimestamp p0) sum false]> (pendingRatio c))
           (underivatedValues c) (valuesForRatio c), emitted)
      else
        let values := if miUsedInRatio p0
          then <[kv.1 := mkMetricInfo (miService p0) (miMetric p0) (miLabels p0) zeroAnnotations (miTimestamp p0) sum false]> (valuesForRatio c)
          else valuesForRatio c in
        (mkClient (lastPurgeAt c) (lastTime c) (pendingSum c) (pendingRatio c) (underivatedValues c) values,
         (emitted ++ [pointOf p0 sum])%list)
  end.

(** The point of one key of [pendingRatio], if its divisor is known and of the same time. *)
Definition ratioPoint (values : gmap nameItem metricInfo) (kv : nameItem * metricInfo) : option MetricPoint :=
  let point := kv.2 in
  let divisorKey := mkNameItem (svName (miService point) +:+ "_" +:+ jmRatio (miMetric point)) (kItem kv.1) in
  match values !! divisorKey with
  | None => None
  | Some divisor =>
      if Time.IsZero (miTimestamp divisor) || apart (miTimestamp point) (miTimestamp divisor) then None
      else Some (pointOf point (if Float.eqb (miValue divisor) Float.zero then Float.zero
                                else Float.div (miValue point) (miValue divisor)))
  end.

Definition flush (c : jmxtransClient) : jmxtransClient * list MetricPoint :=
  let (c, sums) := foldl flushSum (c, []) (rangeSum (pendingSum c)) in
  let ratios := omap (ratioPoint (valuesForRatio c)) (rangeRatio (pendingRatio c)) in
  (mkClient (lastPurgeAt c) (lastTime c) ∅ ∅ (underivatedValues c) (valuesForRatio c), (sums ++ ratios)%list).

Definition deriveValue (c : jmxtransClient) (name item : string) (value : float64) (timestamp : Z) :
    jmxtransClient * option float64 :=
  let key := mkNameItem name item in
  let c' := mkClient (lastPurgeAt c) (lastTime c) (pendingSum c) (pendingRatio c)
    (<[key := (timestamp, value)]> (underivatedValues c)) (valuesForRatio c) in
  let '(previousTime, previousValue) := default (0, Float.zero) (underivatedValues c !! key) in
  if Time.IsZero previousTime then (c', None)
  else
    let deltaT := Time.Sub timestamp previousTime in
    if deltaT <=? 0 then (c', None)
    else (c', Some (Float.div (Float.sub value previousValue) (Seconds deltaT))).

Definition setPendingSum (c : jmxtransClient) (m : gmap nameItem (list metricInfo)) : jmxtransClient :=
  mkClient (lastPurgeAt c) (lastTime c) m (pendingRatio c) (underivatedValues c) (valuesForRatio c).
Definition setPendingRatio (c : jmxtransClient) (m : gmap nameItem metricInfo) : jmxtransClient :=
  mkClient (lastPurgeAt c) (lastTime c) (pendingSum c) m (underivatedValues c) (valuesForRatio c).
Definition setValuesForRatio (c : jmxtransClient) (m : gmap nameItem metricInfo) : jmxtransClient :=
  mkClient (lastPurgeAt c) (lastTime c) (pendingSum c) (pendingRatio c) (underivatedValues c) m.

Definition itemLabels (name item : string) : Labels :=
  if bool_decide (item ≠ "") then {[ LabelName := name; LabelItem := item ]} else {[ LabelName := name ]}.

(** One metric of the line. *)
Definition processMetric (service : Service) (typeNames : string) (usedInRatio : bool) (value : float64) (lineTime : Z)
    (st : jmxtransClient * list MetricPoint) (metric : JmxMetric) : jmxtransClient * list MetricPoint :=
  let (c, emitted) := st in
  let name := svName service +:+ "_" +:+ jmName metric in
  let item :=
    if bool_decide (svInstance service ≠ "") && bool_decide (typeNames ≠ "") then svInstance service +:+ "_" +:+ typeNames
    else if bool_decide (typeNames ≠ "") then typeNames
    else svInstance service in
  let annotations := mkAnnotations (svContainerID service) (svName service) (svInstance service) "" "" "" zeroStatusDescription in
  let (c, derived) := if jmDerive metric then deriveValue c name item value lineTime else (c, Some value) in
  match derived with
  | None => (c, emitted)
  | Some finalValue =>
      let finalValue := if negb (Float.eqb (jmScale metric) Float.zero) then Float.mul finalValue (jmScale metric) else finalValue in
      let item' := if jmSum metric then svInstance service else item in
      let info := mkMetricInfo service metric (itemLabels name item') annotations lineTime finalValue in
      let key := mkNameItem name item' in
      let '(c, emitted) :=
        if jmSum metric then
          (setPendingSum c (<[key := (default [] (pendingSum c !! key) ++ [info usedInRatio])%list]> (pendingSum c)), emitted)
        else if bool_decide (jmRatio metric ≠ "") then
          (setPendingRatio c (<[key := info false]> (pendingRatio c)), emitted)
        else (c, (emitted ++ [pointOf (info false) finalValue])%list) in
      (if usedInRatio then setValuesForRatio c (<[key := info false]> (valuesForRatio c)) else c, emitted)
  end.

(** The prefix, the hashes, the type names and the attribute of the name of a line. *)
Definition splitName (name : string) : option (string * string * string * string * string) :=
  match Split "."%char name with
  | [linePrefix; md5Service; md5Bean; attr] => Some (linePrefix, md5Service, md5Bean, "", attr)
  | [linePrefix; md5Service; md5Bean; typeNames; attr] => Some (linePrefix, md5Service, md5Bean, typeNames, attr)
  | _ => None
  end.

Definition processLine (cfg : configInterface) (c : jmxtransClient) (line : string) : jmxtransClient * list MetricPoint :=
  match Split " "%char line with
  | [metricName; text; stamp] =>
      match parseFloat text, ParseInt stamp with
      | Some value, Some timestamp =>
          let lineTime := UnixTime timestamp in
          let (c, flushed) := if negb (Time.IsZero (lastTime c)) && apart lineTime (lastTime c) then flush c else (c, []) in
          let c := mkClient (lastPurgeAt c) lineTime (pendingSum c) (pendingRatio c) (underivatedValues c) (valuesForRatio c) in
          match splitName metricName with
          | None => (c, flushed)
          | Some (linePrefix, md5Service, md5Bean, typeNames, attr) =>
              if bool_decide (linePrefix ≠ graphitePrefix) then (c, flushed)
              else
                match ciGetService cfg md5Service with
                | None => (c, flushed)
                | Some service =>
                    let (metrics, usedInRatio) := ciGetMetrics cfg md5Service md5Bean attr in
                    foldl (processMetric service typeNames usedInRatio value lineTime) (c, flushed) metrics
                end
          end
      | _, _ => (c, [])
      end
  | _ => (c, [])
  end.

(** Whether a point of [valuesForRatio] is before [cutoff]. *)
Definition outdated (cutoff : Z) (point : option metricInfo) : bool :=
  match point with Some point => miTimestamp point <? cutoff | None => false end.

(** purge at the time [now]: the loop over [valuesForRatio] deletes from [underivatedValues]. *)
Definition purge (now : Z) (c : jmxtransClient) : jmxtransClient :=
  if Time.Sub now (lastPurgeAt c) <? Time.minute then c
  else
    let cutoff := now - 6 * Time.minute in
    let underivated := base.filter (λ kv : nameItem * (Z * float64), ¬ kv.2.1 < cutoff) (underivatedValues c) in
    let underivated := base.filter
      (λ kv : nameItem * (Z * float64), outdated cutoff (valuesForRatio c !! kv.1) = false) underivated in
    mkClient now (lastTime c) (pendingSum c) (pendingRatio c) underivated (valuesForRatio c).

(** One read of Run: the lines that are complete, and what is left in the buffer. *)
Definition readSegment (buffer segment : string) : list string * string :=
  let lines := Split newline (buffer +:+ segment) in
  (take (length lines - 1) lines, default "" (last lines)).

(** The reads until the connection is closed; the time is that of the purge after each one. *)
Fixpoint runReads (cfg : configInterface) (c : jmxtransClient) (buffer : string) (reads : list (string * Z)) :
    jmxtransClient * list MetricPoint :=
  match reads with
  | [] => flush c
  | (segment, now) :: reads =>
      let (lines, buffer) := readSegment buffer segment in
      let (c, emitted) := foldl (λ st line, let (c, l) := processLine cfg st.1 line in (c, (st.2 ++ l)%list)) (c, []) lines in
      let (c, more) := runReads cfg (purge now c) buffer reads in
      (c, (emitted ++ more)%list)
  end.

Definition Run (cfg : configInterface) (reads : list (string * Z)) : list MetricPoint :=
  (runReads cfg initClient "" reads).2.
End Client.

(** * Configuration and lookup *)
Section ConfigLaws.
Variable hash : string → string.

#[local] Notation serviceHash := (serviceHash hash).
#[local] Notation metricKeyOf := (metricKeyOf hash).

Lemma addMetric_lookup (service : Service) (metrics : list JmxMetric) (known : gmap metricKey (list JmxMetric) * gset string)
    (key : metricKey) :
  default [] ((foldl (addMetric hash service) known metrics).1 !! key) =
  (default [] (known.1 !! key) ++ base.filter (λ m, metricKeyOf service m = key) metrics)%list.
Proof.
  revert known. induction metrics as [|m metrics IH]; intros known; [cbn; by rewrite app_nil_r|]. cbn [foldl].
  rewrite IH, filter_cons. unfold addMetric at 1. cbn [fst]. destruct (decide (metricKeyOf service m = key)) as [<-|Hne].
  - by rewrite lookup_insert_eq; cbn; rewrite <-app_assoc.
  - by rewrite lookup_insert_ne.
Qed.

Lemma addMetric_divisor (service : Service) (metrics : list JmxMetric) (known : gmap metricKey (list JmxMetric) * gset string)
    (name : string) :
  name ∈ (foldl (addMetric hash service) known metrics).2 ↔
  name ∈ known.2 ∨ ∃ m, m ∈ metrics ∧ jmRatio m ≠ "" ∧ name = svName service +:+ "_" +:+ jmRatio m.
Proof.
  revert known. induction metrics as [|m metrics IH]; intros known; cbn [foldl].
  - split; [by left|]. intros [H|(m & Hm%not_elem_of_nil & _)]; done.
  - rewrite IH. unfold addMetric at 1. cbn [snd]. setoid_rewrite elem_of_cons. case_bool_decide as Hr.
    + rewrite elem_of_union, elem_of_singleton. split.
      * intros [[H|H]|(m' & Hm & H)]; [right; exists m; auto|by left|right; exists m'; auto].
      * intros [H|(m' & [->|Hm] & Hr' & H)]; [by left; right|by left; left|right; by exists m'].
    + split.
      * intros [H|(m' & Hm & H)]; [by left|right; exists m'; auto].
      * intros [H|(m' & [->|Hm] & Hr' & H)]; [by left|done|right; by exists m'].
Qed.

(** The services of the list that jmxtrans collects. *)
Definition collected (services : list Service) : list Service :=
  base.filter (λ service, isCollected service = true) services.

Lemma addService_skip (writer : configWriter) (resolution : Z) (st : configState) (service : Service) :
  isCollected service = false → addService hash writer resolution st service = st.
Proof.
  intros H. unfold addService. destruct (GetJMXMetrics_collected service) as [[_ Hn] _]. by rewrite Hn.
Qed.

(** After the loop: each hash is that of the last collected service that has it, and a key has the
    metrics of all the services that have its hash. *)
Lemma addServices_spec (writer : configWriter) (resolution : Z) (services : list Service) :
  let st := foldl (addService hash writer resolution) (mkConfigState ∅ ∅ ∅ []) services in
  (∀ sha, stServices st !! sha = last (base.filter (λ service, serviceHash service = sha) (collected services))) ∧
  (∀ key, default [] (stKnown st !! key) =
     mjoin ((λ service, base.filter (λ m, metricKeyOf service m = key) (GetJMXMetrics service)) <$> collected services)) ∧
  (∀ name, name ∈ stDivisor st ↔ ∃ service m, service ∈ collected services ∧ m ∈ GetJMXMetrics service ∧ jmRatio m ≠ "" ∧
     name = svName service +:+ "_" +:+ jmRatio m) ∧
  csAlias <$> stServers st = serviceHash <$> collected services.
Proof.
  induction services as [|service services IH] using rev_ind.
  { cbn. split; [done|]. split; [done|]. split; [|done]. intros name. split; [by intros ?%not_elem_of_empty|].
    by intros (? & ? & ?%not_elem_of_nil & _). }
  cbv zeta. rewrite foldl_app. cbn [foldl]. unfold collected in *. rewrite filter_app, filter_cons, filter_nil.
  destruct (isCollected service) eqn:Hc.
  2:{ rewrite decide_False, app_nil_r, addService_skip by congruence. exact IH. }
  rewrite decide_True by done. cbv zeta in IH. set (st := foldl _ _ services) in *. destruct IH as (IHs & IHk & IHd & IHa).
  unfold addService. destruct (GetJMXMetrics_collected service) as [[Hnil _] _].
  destruct (length (GetJMXMetrics service) =? 0)%nat eqn:Hl.
  { apply Nat.eqb_eq, nil_length_inv, Hnil in Hl. congruence. }
  pose proof (addMetric_lookup service (GetJMXMetrics service) (stKnown st, stDivisor st)) as Hk.
  pose proof (addMetric_divisor service (GetJMXMetrics service) (stKnown st, stDivisor st)) as Hd.
  destruct (foldl (addMetric hash service) _ _) as [known divisor]. cbn [fst snd stServices stKnown stDivisor stServers] in *.
  split; [|split; [|split]].
  - intros sha. rewrite filter_app, filter_cons, filter_nil. destruct (decide (serviceHash service = sha)) as [<-|Hne].
    + by rewrite lookup_insert_eq, last_snoc.
    + by rewrite lookup_insert_ne, app_nil_r, IHs.
  - intros key. rewrite Hk, IHk, fmap_app, join_app. f_equal. symmetry. apply app_nil_r.
  - intros name. rewrite Hd, IHd. setoid_rewrite elem_of_app. setoid_rewrite list_elem_of_singleton. split.
    + intros [(sv & m & Hs & Hm)|(m & Hm & Hr)]; [exists sv, m; tauto|exists service, m; tauto].
    + intros (sv & m & [Hs| ->] & Hm & Hr); [left; exists sv, m; tauto|right; exists m; tauto].
  - rewrite !fmap_app, IHa. done.
Qed.

(** The configuration that CurrentConfig leaves. *)
Lemma CurrentConfig_lookup (cfg : jmxtransConfig) :
  jcResolution cfg ≠ 0 → jcTargetAddress cfg ≠ "" →
  let cfg' := (CurrentConfig hash cfg).2 in
  (∀ sha, GetService cfg' sha = last (base.filter (λ service, serviceHash service = sha) (collected (jcServices cfg)))) ∧
  (∀ key, default [] (knownMetrics cfg' !! key) =
     mjoin ((λ service, base.filter (λ m, metricKeyOf service m = key) (GetJMXMetrics service)) <$> collected (jcServices cfg))) ∧
  (∀ name, name ∈ isDivisor cfg' ↔ ∃ service m, service ∈ collected (jcServices cfg) ∧ m ∈ GetJMXMetrics service ∧
     jmRatio m ≠ "" ∧ name = svName service +:+ "_" +:+ jmRatio m).
Proof.
  intros Hr Ha. unfold CurrentConfig. rewrite (proj2 (Z.eqb_neq _ _) Hr), bool_decide_false by done. cbn [orb].
  destruct (addServices_spec (mkConfigWriter "com.googlecode.jmxtrans.model.output.GraphiteWriterFactory" graphitePrefix
      (jcTargetAddress cfg) (jcTargetPort cfg) "timeBased" (seconds (jcResolution cfg))) (jcResolution cfg) (jcServices cfg))
    as (H1 & H2 & H3 & _).
  split; [exact H1|]. split; [exact H2|exact H3].
Qed.
End ConfigLaws.

(** * Framing of the stream *)
Lemma Split_app (c : Ascii.ascii) (s t : string) (l : list string) (w : string) :
  Split c s = (l ++ [w])%list → Split c (s +:+ t) = (l ++ Split c (w +:+ t))%list.
Proof.
  revert l w. induction s as [|d s IH]; intros l w H.
  { destruct l as [|? [|]]; [by injection H as <-|done..]. }
  cbn [Split String.append] in *. case_bool_decide as Hd.
  - destruct l as [|x l]; [by destruct s; cbn in H; [|case_bool_decide; [|destruct (Split c s)]]|].
    injection H as <- H. cbn [app]. f_equal. by apply IH.
  - destruct (Split c s) as [|u us] eqn:Hs; [by destruct s; cbn in Hs; [|case_bool_decide; [|destruct (Split c s)]]|].
    destruct l as [|x l]; injection H as <- ->.
    + specialize (IH [] u eq_refl). cbn [app] in *. rewrite IH. cbn [Split String.append].
      by rewrite bool_decide_false.
    + by rewrite (IH (u :: l) w eq_refl).
Qed.

Lemma Split_snoc (c : Ascii.ascii) (s : string) : ∃ l w, Split c s = (l ++ [w])%list.
Proof.
  destruct (exists_last (l := Split c s)) as (l & w & H); [|by eauto].
  by destruct s; cbn; [|case_bool_decide; [|destruct (Split c s)]].
Qed.

(** A byte that the text does not have. *)
Definition without (c : Ascii.ascii) (s : string) : Prop := Split c s = [s].

Lemma Split_without (c : Ascii.ascii) (s t : string) : without c s → Split c (s +:+ String c t) = s :: Split c t.
Proof.
  unfold without.
  induction s as [|d s IH]; cbn [Split String.append]; [by rewrite bool_decide_true|]. case_bool_decide as Hd; [done|].
  destruct (Split_snoc c s) as ([|u l] & w & Hs); rewrite Hs in *; cbn [app]; intros [= ->]; [by rewrite IH|by destruct l].
Qed.

Lemma Split_last (c : Ascii.ascii) (s : string) (l : list string) (w : string) : Split c s = (l ++ [w])%list → without c w.
Proof.
  unfold without. revert l w. induction s as [|d s IH]; intros l w H.
  { destruct l as [|? [|]]; [by injection H as <-|done..]. }
  cbn [Split] in H. destruct (Split_snoc c s) as (l' & w' & Hs). case_bool_decide as Hd; rewrite Hs in H.
  - destruct l as [|x l]; [by destruct l'|]. injection H as _ H. apply app_inj_tail in H as [_ <-]. by apply (IH l').
  - destruct l' as [|u l']; cbn [app] in H.
    + destruct l as [|? [|]]; [|done..]. injection H as <-. cbn. by rewrite (IH [] w' Hs), bool_decide_false.
    + change (String d u :: l' ++ [w'])%list with ((String d u :: l') ++ [w'])%list in H.
      apply app_inj_tail in H as [_ <-]. by apply (IH (u :: l')).
Qed.

Lemma readSegment_app (buffer s1 s2 : string) :
  readSegment buffer (s1 +:+ s2) =
  ((readSegment buffer s1).1 ++ (readSegment (readSegment buffer s1).2 s2).1,
   (readSegment (readSegment buffer s1).2 s2).2)%list.
Proof.
  unfold readSegment. destruct (Split_snoc newline (buffer +:+ s1)) as (l & w & Hl). rewrite Hl, last_snoc. cbn [fst snd default].
  rewrite <-append_assoc, (Split_app newline _ s2 l w Hl). cbn [from_option id]. destruct (Split_snoc newline (w +:+ s2)) as (m & v & ->).
  rewrite app_assoc, !last_snoc, !length_app, !Nat.add_sub, <-!length_app, !take_app_length. done.
Qed.

(** What the client does, as a sequence: the lines and the purges. *)
Inductive clientEvent := evLine (line : string) | evPurge (now : Z).

Definition lineOf (e : clientEvent) : option string := match e with evLine line => Some line | _ => None end.
Definition purgeOf (e : clientEvent) : option Z := match e with evPurge now => Some now | _ => None end.

Section Stream.
Variable parseFloat : string → option float64.
Variable rangeSum : gmap nameItem (list metricInfo) → list (nameItem * list metricInfo).
Variable rangeRatio : gmap nameItem metricInfo → list (nameItem * metricInfo).
Variable cfg : configInterface.

#[local] Notation processLine := (processLine parseFloat rangeSum rangeRatio cfg).
#[local] Notation flush := (flush rangeSum rangeRatio).
#[local] Notation runReads := (runReads parseFloat rangeSum rangeRatio cfg).

Definition stepClient (st : jmxtransClient * list MetricPoint) (e : clientEvent) : jmxtransClient * list MetricPoint :=
  match e with
  | evLine line => let (c, l) := processLine st.1 line in (c, (st.2 ++ l)%list)
  | evPurge now => (purge now st.1, st.2)
  end.

(** The client at the end of the connection. *)
Definition endClient (st : jmxtransClient * list MetricPoint) : jmxtransClient * list MetricPoint :=
  let (c, l) := flush st.1 in (c, (st.2 ++ l)%list).

Lemma stepClient_emitted (events : list clientEvent) (c : jmxtransClient) (l : list MetricPoint) :
  foldl stepClient (c, l) events =
  ((foldl stepClient (c, []) events).1, (l ++ (foldl stepClient (c, []) events).2)%list).
Proof.
  revert c l. induction events as [|e events IH]; intros c l; [cbn; by rewrite app_nil_r|]. cbn [foldl].
  destruct e as [line|now]; cbn [stepClient fst snd]; [|by rewrite IH].
  destruct (processLine c line) as [c' l']. rewrite IH, (IH c' ([] ++ l')%list). cbn [fst snd app]. by rewrite app_assoc.
Qed.

Lemma stepClient_lines (lines : list string) (st : jmxtransClient * list MetricPoint) :
  foldl (λ st line, let (c, l) := processLine st.1 line in (c, (st.2 ++ l)%list)) st lines =
  foldl stepClient st (evLine <$> lines).
Proof. revert st. induction lines as [|line lines IH]; intros st; [done|]. cbn [foldl fmap list_fmap]. apply IH. Qed.

Lemma readSegment_rest (buffer segment : string) : without newline (readSegment buffer segment).2.
Proof.
  unfold readSegment. destruct (Split_snoc newline (buffer +:+ segment)) as (l & w & Hl). rewrite Hl, last_snoc.
  exact (Split_last newline _ l w Hl).
Qed.

Lemma omap_evLine (lines : list string) : omap lineOf (evLine <$> lines) = lines ∧ omap purgeOf (evLine <$> lines) = [].
Proof. induction lines as [|line lines [IH1 IH2]]; [done|]. cbn. by rewrite IH1, IH2. Qed.

Lemma runReads_events (reads : list (string * Z)) (c : jmxtransClient) (buffer : string) :
  without newline buffer →
  ∃ events,
    runReads c buffer reads = endClient (foldl stepClient (c, []) events) ∧
    omap lineOf events = (readSegment buffer (foldr String.append "" reads.*1)).1 ∧ omap purgeOf events = reads.*2.
Proof.
  revert c buffer. induction reads as [|[segment now] reads IH]; intros c buffer Hb.
  { exists []. cbn [runReads foldl fmap list_fmap foldr omap list_omap]. unfold endClient, readSegment. cbn [fst snd app].
    rewrite append_nil_r, Hb. by destruct (flush c). }
  cbn [runReads fmap list_fmap fst snd foldr]. rewrite readSegment_app.
  pose proof (readSegment_rest buffer segment) as Hrest. destruct (readSegment buffer segment) as [lines rest].
  cbn [fst snd] in *. rewrite stepClient_lines. destruct (foldl stepClient (c, []) (evLine <$> lines)) as [c1 e1] eqn:Hst.
  destruct (IH (purge now c1) rest Hrest) as (events & -> & Hl & Hp). destruct (omap_evLine lines) as [Hl1 Hp1].
  exists ((evLine <$> lines) ++ evPurge now :: events)%list. rewrite !omap_app, Hl1, Hp1. cbn [omap list_omap lineOf purgeOf].
  change (list_omap ?f ?l) with (omap f l). rewrite Hl, Hp. split; [|done].
  rewrite foldl_app, Hst. cbn [foldl stepClient fst snd]. rewrite (stepClient_emitted events _ e1).
  unfold endClient. destruct (foldl stepClient (purge now c1, []) events) as [c2 e2]. cbn [fst snd].
  destruct (flush c2) as [c3 e3]. by rewrite app_assoc.
Qed.

(** How the network cuts the stream does not matter: the client handles the lines of the
    concatenation of what it read, in order, each exactly once and only when its end was read, with a purge
    between them after each read, and flushes at the end of the connection. *)
Theorem Run_framing (reads : list (string * Z)) :
  ∃ events,
    Run parseFloat rangeSum rangeRatio cfg reads = (endClient (foldl stepClient (initClient, []) events)).2 ∧
    omap lineOf events = (readSegment "" (foldr String.append "" reads.*1)).1 ∧ omap purgeOf events = reads.*2.
Proof.
  destruct (runReads_events reads initClient "" eq_refl) as (events & H & Hl). exists events. unfold Run. by rewrite H.
Qed.

(** * The memory of the divisors *)
Lemma flushSum_divisors (l : list (nameItem * list metricInfo)) (st : jmxtransClient * list MetricPoint) :
  dom (valuesForRatio st.1) ⊆ dom (valuesForRatio (foldl flushSum st l).1).
Proof.
  revert st. induction l as [|[key points] l IH]; intros [c e]; [done|]. cbn [foldl]. etransitivity; [|apply IH].
  unfold flushSum. cbn [fst snd]. destruct points as [|p0 points]; [done|]. case_bool_decide; [done|]. cbn [fst valuesForRatio].
  destruct (miUsedInRatio p0); [|done]. rewrite dom_insert. set_solver.
Qed.

Lemma flush_divisors (c : jmxtransClient) : dom (valuesForRatio c) ⊆ dom (valuesForRatio (flush c).1).
Proof.
  pose proof (flushSum_divisors (rangeSum (pendingSum c)) (c, [])) as H. unfold JmxClient.flush.
  by destruct (foldl flushSum _ _) as [c' e].
Qed.

Lemma deriveValue_divisors (c : jmxtransClient) (name item : string) (value : float64) (timestamp : Z) :
  valuesForRatio (deriveValue c name item value timestamp).1 = valuesForRatio c.
Proof. unfold deriveValue. destruct (default _ _) as [t v]. by repeat case_match. Qed.

Lemma processMetric_divisors (service : Service) (typeNames : string) (used : bool) (value : float64) (lineTime : Z)
    (st : jmxtransClient * list MetricPoint) (metric : JmxMetric) :
  dom (valuesForRatio st.1) ⊆ dom (valuesForRatio (processMetric service typeNames used value lineTime st metric).1).
Proof.
  destruct st as [c e]. unfold processMetric.
  match goal with |- context [deriveValue c ?name ?item _ _] => pose proof (deriveValue_divisors c name item value lineTime) as Hd end.
  match goal with |- context [if jmDerive metric then ?a else ?b] => destruct (if jmDerive metric then a else b) as [c' derived] eqn:Hc' end.
  assert (valuesForRatio c' = valuesForRatio c) as Hv.
  { destruct (jmDerive metric); [by rewrite Hc' in Hd|by injection Hc' as <- _]. }
  destruct derived; cbn [fst]; [|by rewrite Hv].
  destruct (jmSum metric); [|destruct (bool_decide (jmRatio metric ≠ ""))]; destruct used; cbn; rewrite ?dom_insert, ?Hv; first [done|apply union_subseteq_r].
Qed.

Lemma processLine_divisors (c : jmxtransClient) (line : string) :
  dom (valuesForRatio c) ⊆ dom (valuesForRatio (processLine c line).1).
Proof.
  unfold JmxClient.processLine. destruct (Split _ line) as [|name [|text [|stamp []]]]; try done.
  destruct (parseFloat text) as [value|], (ParseInt stamp) as [timestamp|]; try done.
  match goal with |- context [if ?b then flush c else _] => set (flushed := if b then flush c else (c, [])) end.
  assert (dom (valuesForRatio c) ⊆ dom (valuesForRatio flushed.1)) as H.
  { unfold flushed. destruct (negb _ && _); [apply flush_divisors|done]. }
  destruct flushed as [c1 e1]. cbn [fst] in H. destruct (splitName name) as [[[[[p s] b] t] a]|]; [|done].
  case_bool_decide; [done|]. destruct (ciGetService cfg s) as [service|]; [|done].
  destruct (ciGetMetrics cfg s b a) as [metrics used]. set (st := (mkClient _ _ _ _ _ _, e1)).
  assert (dom (valuesForRatio c) ⊆ dom (valuesForRatio st.1)) as Hst by done. clearbody st. revert st Hst.
  induction metrics as [|m metrics IH]; intros st Hst; [done|]. cbn [foldl]. apply IH. etransitivity; [exact Hst|].
  apply processMetric_divisors.
Qed.

(** The values kept to compute the ratios are never forgotten while the connection lasts: whatever
    lines arrive and whenever the client purges, a key of [valuesForRatio] stays, since the purge of the
    outdated ones deletes the key from another map. *)
Theorem divisors_never_purged (events : list clientEvent) (st : jmxtransClient * list MetricPoint) :
  dom (valuesForRatio st.1) ⊆ dom (valuesForRatio (endClient (foldl stepClient st events)).1).
Proof.
  revert st. induction events as [|e events IH]; intros st; cbn [foldl].
  - unfold endClient. pose proof (flush_divisors st.1) as H. by destruct (flush st.1).
  - etransitivity; [|apply IH]. destruct e as [line|now]; cbn [stepClient].
    + pose proof (processLine_divisors st.1 line) as H. by destruct (processLine st.1 line).
    + unfold purge. cbn [fst]. by destruct (_ <? _).
Qed.
End Stream.

(** * What a flush emits *)
Definition sumOf (points : list metricInfo) : float64 := foldl (λ sum pts, Float.add sum (miValue pts)) Float.zero points.

(** The dividend that a pending sum becomes when it is the metric of a ratio. *)
Definition dividendOf (points : list metricInfo) : option metricInfo :=
  match points with
  | [] => None
  | p :: _ =>
      if bool_decide (jmRatio (miMetric p) ≠ "")
      then Some (mkMetricInfo (miService p) (miMetric p) (miLabels p) (miAnnotations p) (miTimestamp p) (sumOf points) false)
      else None
  end.

(** The divisor that a pending sum becomes when a ratio uses it. *)
Definition divisorOf (points : list metricInfo) : option metricInfo :=
  match points with
  | [] => None
  | p :: _ =>
      if negb (bool_decide (jmRatio (miMetric p) ≠ "")) && miUsedInRatio p
      then Some (mkMetricInfo (miService p) (miMetric p) (miLabels p) zeroAnnotations (miTimestamp p) (sumOf points) false)
      else None
  end.

Definition sumPoint (points : list metricInfo) : option MetricPoint :=
  match points with
  | [] => None
  | p :: _ => if bool_decide (jmRatio (miMetric p) ≠ "") then None else Some (pointOf p (sumOf points))
  end.

Definition insertOpt {A : Type} (key : nameItem) (value : option A) (m : gmap nameItem A) : gmap nameItem A :=
  match value with Some value => <[key := value]> m | None => m end.

Lemma omap_insertOpt {A B : Type} (f : A → option B) (m : gmap nameItem A) (key : nameItem) (value : A) (m' : gmap nameItem B) :
  m !! key = None → omap f m ∪ insertOpt key (f value) m' = omap f (<[key := value]> m) ∪ m'.
Proof.
  intros Hm. apply map_eq. intros k. rewrite !lookup_union, !lookup_omap. destruct (decide (key = k)) as [<-|Hne].
  - rewrite Hm, lookup_insert_eq. cbn. destruct (f value); cbn; [rewrite lookup_insert_eq|]; by destruct (m' !! key).
  - rewrite lookup_insert_ne by done. destruct (f value); cbn; [by rewrite lookup_insert_ne|done].
Qed.

Lemma flushSum_eq (c : jmxtransClient) (e : list MetricPoint) (key : nameItem) (points : list metricInfo) :
  flushSum (c, e) (key, points) =
  (mkClient (lastPurgeAt c) (lastTime c) (pendingSum c) (insertOpt key (dividendOf points) (pendingRatio c))
     (underivatedValues c) (insertOpt key (divisorOf points) (valuesForRatio c)),
   (e ++ option_list (sumPoint points))%list).
Proof.
  unfold flushSum. destruct points as [|p points]; cbn [fst snd dividendOf divisorOf sumPoint].
  - cbn. destruct c. by rewrite app_nil_r.
  - destruct (bool_decide (jmRatio (miMetric p) ≠ "")), (miUsedInRatio p); cbn; by rewrite ?app_nil_r.
Qed.

Lemma flushSum_all (l : list (nameItem * list metricInfo)) (c : jmxtransClient) (e : list MetricPoint) :
  NoDup l.*1 →
  foldl flushSum (c, e) l =
  (mkClient (lastPurgeAt c) (lastTime c) (pendingSum c) (omap dividendOf (list_to_map l : gmap _ _) ∪ pendingRatio c)
     (underivatedValues c) (omap divisorOf (list_to_map l : gmap _ _) ∪ valuesForRatio c),
   (e ++ omap sumPoint l.*2)%list).
Proof.
  revert c e. induction l as [|[key points] l IH]; intros c e Hnd.
  { cbn. rewrite !omap_empty, !(left_id_L ∅ (∪)), app_nil_r. by destruct c. }
  apply NoDup_cons in Hnd as [Hk Hnd]. cbn [foldl]. rewrite flushSum_eq, IH by done. apply not_elem_of_list_to_map_1 in Hk.
  cbn [pendingRatio valuesForRatio lastPurgeAt lastTime pendingSum underivatedValues list_to_map fmap list_fmap foldr fst snd].
  rewrite !omap_insertOpt by done. f_equal. rewrite <-app_assoc. f_equal. cbn. by destruct (sumPoint points).
Qed.

(** A flush does not depend on the order in which the maps are visited.  Nothing stays pending.  It
    emits the sum of each pending group that is not the dividend of a ratio, and the ratio of each
    dividend, a pending sum included, whose divisor is known for the same time, computed with the sums
    of this very flush.  The divisors are those known before, with the new sums. *)
Theorem flush_spec (rangeSum : gmap nameItem (list metricInfo) → list (nameItem * list metricInfo))
    (rangeRatio : gmap nameItem metricInfo → list (nameItem * metricInfo)) (c : jmxtransClient) :
  (∀ m, rangeSum m ≡ₚ map_to_list m) → (∀ m, rangeRatio m ≡ₚ map_to_list m) →
  let divisors := omap divisorOf (pendingSum c) ∪ valuesForRatio c in
  let dividends := omap dividendOf (pendingSum c) ∪ pendingRatio c in
  (flush rangeSum rangeRatio c).1 = mkClient (lastPurgeAt c) (lastTime c) ∅ ∅ (underivatedValues c) divisors ∧
  (flush rangeSum rangeRatio c).2 ≡ₚ
  (omap sumPoint (map_to_list (pendingSum c)).*2 ++ omap (ratioPoint divisors) (map_to_list dividends))%list.
Proof.
  intros Hs Hr. cbv zeta. unfold flush. pose proof (Hs (pendingSum c)) as H.
  assert (NoDup (rangeSum (pendingSum c)).*1) as Hnd by (rewrite H; apply NoDup_fst_map_to_list).
  rewrite flushSum_all by done. cbn [fst snd pendingRatio valuesForRatio lastPurgeAt lastTime underivatedValues].
  rewrite (list_to_map_proper _ (map_to_list (pendingSum c)) Hnd H), list_to_map_to_list.
  split; [done|]. cbn [app]. rewrite H. apply Permutation_app_head, omap_Permutation, Hr.
Qed.

(** * From the configuration to the points *)
Section Delivery.
Variable hash : string → string.
Variable parseFloat : string → option float64.
Variable rangeSum : gmap nameItem (list metricInfo) → list (nameItem * list metricInfo).
Variable rangeRatio : gmap nameItem metricInfo → list (nameItem * metricInfo).

(** The hash is written in hexadecimal. *)
Hypothesis hash_hex : ∀ s, without "."%char (hash s) ∧ without " "%char (hash s).

#[local] Notation keyed := (metricKeyOf hash).

Definition interfaceOf (cfg : jmxtransConfig) : configInterface := mkConfigInterface (GetService cfg) (GetMetrics cfg).

(** The line that jmxtrans sends for a metric of a service, without type names. *)
Definition graphiteLine (service : Service) (m : JmxMetric) (text stamp : string) : string :=
  (graphitePrefix +:+ "." +:+ serviceHash hash service +:+ "." +:+ hash (jmMBean m) +:+ "." +:+ metricAttr m) +:+ " " +:+ text +:+ " " +:+ stamp.

(** The client once the time of a line is known: what was pending is flushed when time moved. *)
Definition advance (c : jmxtransClient) (lineTime : Z) : jmxtransClient * list MetricPoint :=
  let (c, flushed) := if negb (Time.IsZero (lastTime c)) && apart lineTime (lastTime c)
    then flush rangeSum rangeRatio c else (c, []) in
  (mkClient (lastPurgeAt c) lineTime (pendingSum c) (pendingRatio c) (underivatedValues c) (valuesForRatio c), flushed).

Lemma without_app (c : Ascii.ascii) (s t : string) : without c s → without c t → without c (s +:+ t).
Proof.
  unfold without. intros Hs Ht. induction s as [|d s IH]; [done|]. cbn [Split String.append] in *. case_bool_decide as Hd; [done|].
  destruct (Split_snoc c s) as ([|u l] & w & Hl); rewrite Hl in *; cbn [app] in *; [injection Hs as ->; by rewrite IH|].
  by injection Hs as -> ?; destruct l.
Qed.

Lemma without_cons (c d : Ascii.ascii) (s : string) : c ≠ d → without c s → without c (String d s).
Proof. unfold without. intros Hd Hs. cbn [Split]. by rewrite bool_decide_false, Hs by done. Qed.

Lemma graphiteLine_split (service : Service) (m : JmxMetric) (text stamp : string) :
  without "."%char (metricAttr m) → without " "%char (metricAttr m) → without " "%char text → without " "%char stamp →
  ∃ name, Split " "%char (graphiteLine service m text stamp) = [name; text; stamp] ∧
  splitName name = Some (graphitePrefix, serviceHash hash service, hash (jmMBean m), "", metricAttr m).
Proof.
  intros Hd Hs Ht Hst. destruct (hash_hex (svServiceType service +:+ svInstance service)) as [Hd1 Hs1], (hash_hex (jmMBean m)) as [Hd2 Hs2].
  fold (serviceHash hash service) in Hd1, Hs1.
  unfold graphiteLine. cbn [String.append]. eexists. split.
  - rewrite (Split_without " "%char); [by rewrite Split_without, Hst|]. by repeat (apply without_app || apply without_cons).
  - unfold splitName. rewrite !Split_without by done. by rewrite Hd.
Qed.

Lemma processLine_config (cfg : jmxtransConfig) (c : jmxtransClient) (service owner : Service) (m : JmxMetric)
    (text stamp : string) (value : float64) (timestamp : Z) :
  jcResolution cfg ≠ 0 → jcTargetAddress cfg ≠ "" →
  without "."%char (metricAttr m) → without " "%char (metricAttr m) → without " "%char text → without " "%char stamp →
  parseFloat text = Some value → ParseInt stamp = Some timestamp →
  last (base.filter (λ s, serviceHash hash s = serviceHash hash service) (collected (jcServices cfg))) = Some owner →
  ∃ used : bool,
    processLine parseFloat rangeSum rangeRatio (interfaceOf (CurrentConfig hash cfg).2) c (graphiteLine service m text stamp) =
    foldl (processMetric owner "" used value (UnixTime timestamp)) (advance c (UnixTime timestamp))
      (mjoin ((λ s, base.filter (λ m', keyed s m' = keyed service m) (GetJMXMetrics s)) <$> collected (jcServices cfg))).
Proof.
  intros Hr Ha Hd Hs Ht Hst Hv Hts Howner. destruct (graphiteLine_split service m text stamp) as (name & Hsplit & Hname); [done..|].
  destruct (CurrentConfig_lookup hash cfg Hr Ha) as (Hservice & Hmetrics & _).
  rewrite <-Hservice in Howner. specialize (Hmetrics (keyed service m)). unfold metricKeyOf at 1 in Hmetrics.
  unfold processLine, advance. rewrite Hsplit, Hv, Hts, Hname. cbn [interfaceOf ciGetService ciGetMetrics]. rewrite Howner.
  unfold GetMetrics. unfold GetService in Howner. rewrite Howner, <-Hmetrics. rewrite bool_decide_false by (intros H; by apply H).
  eexists. by destruct (if negb _ && _ then _ else _).
Qed.

Lemma filter_unique (services : list Service) (service : Service) :
  NoDup (serviceHash hash <$> services) → service ∈ services →
  base.filter (λ s, serviceHash hash s = serviceHash hash service) services = [service].
Proof.
  induction services as [|s services IH]; [by intros _ ?%not_elem_of_nil|]. cbn [fmap list_fmap]. intros [Hs Hnd]%NoDup_cons Hin.
  rewrite filter_cons. apply elem_of_cons in Hin as [->|Hin].
  - rewrite decide_True by done. f_equal. destruct (base.filter _ services) as [|x l] eqn:Hf; [done|].
    assert (x ∈ base.filter (λ s', serviceHash hash s' = serviceHash hash s) services) as [Hx Hxs]%list_elem_of_filter by (rewrite Hf; left).
    destruct Hs. rewrite <-Hx. by apply list_elem_of_fmap_2.
  - rewrite decide_False; [by apply IH|]. intros H. apply Hs. rewrite H. by apply list_elem_of_fmap_2.
Qed.

Lemma mjoin_unique (services : list Service) (service : Service) (m : JmxMetric) :
  NoDup (serviceHash hash <$> services) → service ∈ services →
  mjoin ((λ s, base.filter (λ m', keyed s m' = keyed service m) (GetJMXMetrics s)) <$> services) =
  base.filter (λ m', keyed service m' = keyed service m) (GetJMXMetrics service).
Proof.
  assert (∀ s, serviceHash hash s ≠ serviceHash hash service →
    base.filter (λ m', keyed s m' = keyed service m) (GetJMXMetrics s) = []) as Hother.
  { intros s Hs. induction (GetJMXMetrics s) as [|x l IH]; [done|]. by rewrite filter_cons, decide_False, IH by (unfold metricKeyOf; congruence). }
  induction services as [|s services IH]; [by intros _ ?%not_elem_of_nil|]. cbn [fmap list_fmap]. intros [Hs Hnd]%NoDup_cons Hin.
  cbn [mjoin list_join]. apply elem_of_cons in Hin as [->|Hin].
  - rewrite <-(app_nil_r (base.filter _ (GetJMXMetrics s))) at 2. f_equal. clear IH Hnd.
    induction services as [|s' services IH]; [done|]. cbn [fmap list_fmap] in *.
    apply not_elem_of_cons in Hs as [Hs Hs']. cbn [mjoin list_join]. rewrite Hother by done. by apply IH.
  - rewrite Hother; [by apply IH|]. intros H. apply Hs. rewrite H. by apply list_elem_of_fmap_2.
Qed.

(** What the client makes of a line is what the configuration asked for: when no two collected
    services have the same hash, the line of a metric of a service is handled as this service's, for each
    of its metrics that read this attribute of this bean, in their order, and no others. *)
Theorem line_delivered (cfg : jmxtransConfig) (c : jmxtransClient) (service : Service) (m : JmxMetric)
    (text stamp : string) (value : float64) (timestamp : Z) :
  jcResolution cfg ≠ 0 → jcTargetAddress cfg ≠ "" →
  NoDup (serviceHash hash <$> collected (jcServices cfg)) → service ∈ collected (jcServices cfg) →
  without "."%char (metricAttr m) → without " "%char (metricAttr m) → without " "%char text → without " "%char stamp →
  parseFloat text = Some value → ParseInt stamp = Some timestamp →
  ∃ used : bool,
    processLine parseFloat rangeSum rangeRatio (interfaceOf (CurrentConfig hash cfg).2) c (graphiteLine service m text stamp) =
    foldl (processMetric service "" used value (UnixTime timestamp)) (advance c (UnixTime timestamp))
      (base.filter (λ m', keyed service m' = keyed service m) (GetJMXMetrics service)).
Proof.
  intros Hr Ha Hnd Hin Hd Hs Ht Hst Hv Hts.
  destruct (processLine_config cfg c service service m text stamp value timestamp) as [used H]; try done.
  { by rewrite filter_unique. }
  exists used. by rewrite H, mjoin_unique.
Qed.

(** Two collected services of the same type and instance (two services with custom checks, for instance,
    have the type of custom checks and no instance) have the same hash, so the lines of both are handled as
    lines of the last one: the points of the first get the name of the second, for the metrics of both. *)
Theorem line_misattributed (cfg : jmxtransConfig) (c : jmxtransClient) (l : list Service) (service owner : Service) (m : JmxMetric)
    (text stamp : string) (value : float64) (timestamp : Z) :
  jcResolution cfg ≠ 0 → jcTargetAddress cfg ≠ "" →
  collected (jcServices cfg) = (l ++ [owner])%list → service ∈ l →
  svServiceType service = svServiceType owner → svInstance service = svInstance owner →
  without "."%char (metricAttr m) → without " "%char (metricAttr m) → without " "%char text → without " "%char stamp →
  parseFloat text = Some value → ParseInt stamp = Some timestamp → m ∈ GetJMXMetrics service →
  ∃ (used : bool) (metrics : list JmxMetric),
    m ∈ metrics ∧
    processLine parseFloat rangeSum rangeRatio (interfaceOf (CurrentConfig hash cfg).2) c (graphiteLine service m text stamp) =
    foldl (processMetric owner "" used value (UnixTime timestamp)) (advance c (UnixTime timestamp)) metrics.
Proof.
  intros Hr Ha Hc Hin Htype Hinst Hd Hs Ht Hst Hv Hts Hm.
  destruct (processLine_config cfg c service owner m text stamp value timestamp) as [used H]; try done.
  { rewrite Hc, filter_app, filter_cons, decide_True, filter_nil by (unfold serviceHash; congruence). apply last_snoc. }
  eexists used, _. split; [|exact H]. apply list_elem_of_join.
  exists (base.filter (λ m', keyed service m' = keyed service m) (GetJMXMetrics service)). split; [by apply list_elem_of_filter|].
  rewrite Hc. apply list_elem_of_fmap. exists service. split; [done|]. apply elem_of_app. by left.
Qed.
End Delivery.

(** * Witnesses *)
(** A hash whose texts have neither a point nor a space. *)
Definition hexDigit (n : N) : string := String (Ascii.ascii_of_N (65 + n)) "".
Fixpoint sampleHash (s : string) : string :=
  match s with
  | EmptyString => ""
  | String c s =>
      let n := Ascii.N_of_ascii c in
      hexDigit (n / 16) +:+ hexDigit (n mod 16) +:+ sampleHash s
  end.

Lemma sampleHash_hex (s : string) : without "."%char (sampleHash s) ∧ without " "%char (sampleHash s).
Proof.
  assert (∀ n, (n < 16)%N → ("."%char ≠ Ascii.ascii_of_N (65 + n) ∧ " "%char ≠ Ascii.ascii_of_N (65 + n))) as H.
  { intros n Hn. split; intros He; apply (f_equal Ascii.N_of_ascii) in He; rewrite Ascii.N_ascii_embedding in He by lia; cbn in He; lia. }
  induction s as [|c s [IH1 IH2]]; [done|].
  assert ((Ascii.N_of_ascii c / 16 < 16)%N ∧ (Ascii.N_of_ascii c mod 16 < 16)%N) as [[H1 H2]%H [H3 H4]%H].
  { pose proof (Ascii.N_ascii_bounded c). split; [apply N.Div0.div_lt_upper_bound; lia|apply N.mod_lt; lia]. }
  cbn [sampleHash hexDigit String.append]. split; by repeat (apply without_cons; [done|]).
Qed.

Definition sampleParseFloat (s : string) : option float64 := if bool_decide (s = "42") then Some (Float.of_Z 42) else None.
Definition jmxService (name serviceType : string) : Service :=
  mkService (withJMXMetrics (mkConfig name "" "" 0 None "" None 0 "" "" 0 "" "" "" "" "" "" "" "" 0 "" None 9999 "" "" None
    false false false "" "" "" None None None "" "") None)
    name "" serviceType "" "" "10.0.0.1" [] "" true false false false 0 None 0.
Definition sampleConfig (services : list Service) : jmxtransConfig :=
  mkJmxtransConfig services (10 * Time.second) "127.0.0.1" 2004 ∅ ∅ ∅.
Definition heapMetric : JmxMetric := default (mkJmxMetric "" "" "" "" Float.zero false false None "") (head defaultGenericMetrics).

Lemma flush_spec_witness :
  let c := mkClient 0 0 {[ mkNameItem "a" "" := [mkMetricInfo (jmxService "a" "kafka") heapMetric ∅ zeroAnnotations 5 one false;
                                                 mkMetricInfo (jmxService "a" "kafka") heapMetric ∅ zeroAnnotations 5 one false] ]} ∅ ∅ ∅ in
  (flush map_to_list map_to_list c).2 ≡ₚ [mkMetricPoint (mkPoint 5 (Float.of_Z 2)) ∅ zeroAnnotations].
Proof. intros c. rewrite (proj2 (flush_spec map_to_list map_to_list c (λ _, reflexivity _) (λ _, reflexivity _))). by vm_compute. Defined.

Lemma line_delivered_witness :
  ∃ used : bool,
    processLine sampleParseFloat map_to_list map_to_list
      (interfaceOf (CurrentConfig sampleHash (sampleConfig [jmxService "a" "kafka"; jmxService "b" "jira"])).2) initClient
      (graphiteLine sampleHash (jmxService "a" "kafka") heapMetric "42" "1700000000") =
    foldl (processMetric (jmxService "a" "kafka") "" used (Float.of_Z 42) (UnixTime 1700000000))
      (advance map_to_list map_to_list initClient (UnixTime 1700000000))
      (base.filter (λ m', metricKeyOf sampleHash (jmxService "a" "kafka") m' = metricKeyOf sampleHash (jmxService "a" "kafka") heapMetric)
         (GetJMXMetrics (jmxService "a" "kafka"))).
Proof.
  apply (line_delivered sampleHash sampleParseFloat map_to_list map_to_list sampleHash_hex); try by vm_compute.
  - apply (bool_decide_unpack _). by vm_compute.
  - left.
Defined.

Lemma line_misattributed_witness :
  ∃ (used : bool) (metrics : list JmxMetric),
    heapMetric ∈ metrics ∧
    processLine sampleParseFloat map_to_list map_to_list
      (interfaceOf (CurrentConfig sampleHash (sampleConfig [jmxService "a" "__custom__"; jmxService "b" "__custom__"])).2) initClient
      (graphiteLine sampleHash (jmxService "a" "__custom__") heapMetric "42" "1700000000") =
    foldl (processMetric (jmxService "b" "__custom__") "" used (Float.of_Z 42) (UnixTime 1700000000))
      (advance map_to_list map_to_list initClient (UnixTime 1700000000)) metrics.
Proof.
  apply (line_misattributed sampleHash sampleParseFloat map_to_list map_to_list sampleHash_hex _ _ [jmxService "a" "__custom__"]);
    try by vm_compute.
  - left.
  - left.
Defined.

(** A purge forgets the last value of a rate that is fresh when the same key was last a divisor long ago. *)
Example purge_fresh_value :
  let key := mkNameItem "a" "" in
  let now := 100 * Time.minute in
  let c := mkClient 0 0 ∅ ∅ {[ key := (now, one) ]}
    {[ key := mkMetricInfo (jmxService "a" "kafka") heapMetric ∅ zeroAnnotations Time.minute one false ]} in
  underivatedValues (purge now c) !! key = None ∧ is_Some (valuesForRatio (purge now c) !! key).
Proof. vm_compute. eauto. Qed.
