(* ===== verification/Discovery.v ===== *)
(** The discovery of services (discovery/discovery.go, discovery/metrics.go):
    the update of the known services, the registration of one metric input per
    service and the removal of services.

    The state is the [Discovery] record of ServicesState.v and the registry's
    live registrations.  What an input builder answers (it calls Telegraf), what
    the registry answers, the processes the dynamic discovery found, the
    containers and the files of the host, and the overrides of the configuration
    are arguments.  The theorems: an update loses no known service and brings no
    removed one back whatever the interleaving of removals ([update_removals]),
    and in every reachable state the live registrations are exactly the inputs
    of the configured services ([reachable_inputs], [reconfigure_spec]). *)
From S2P Require Import Prelude Labels Float64 Bytes ErrorText Secrets Services ServicesState.

#[local] Open Scope string_scope.
#[local] Open Scope Z_scope.

(** * State *)
(** The registry: its live registrations and the next identifier. *)
Record registry := mkRegistry { rgLive : gset nat; rgNext : nat }.

Record world := mkWorld { wD : Discovery; wR : registry }.

Definition setInputs (d : Discovery) (collectors : gmap NameInstance collectorDetails)
    (results : gmap NameInstance inputResult) : Discovery :=
  mkDiscovery (dDiscoveredServicesMap d) (dServicesMap d) (dLastDiscoveryUpdate d) (dLastConfigServicesMap d)
    collectors results (dJmxState d) (dAgentGathererTypes d) (dRemovedDuringUpdate d) (dSnapshot d).

Definition setServices (d : Discovery) (discovered services : gmap NameInstance Service)
    (removed : option (gset NameInstance)) : Discovery :=
  mkDiscovery discovered services (dLastDiscoveryUpdate d) (dLastConfigServicesMap d)
    (dActiveCollector d) (dInputResult d) (dJmxState d) (dAgentGathererTypes d) removed (dSnapshot d).

Definition setLastConfig (d : Discovery) : Discovery :=
  mkDiscovery (dDiscoveredServicesMap d) (dServicesMap d) (dLastDiscoveryUpdate d) (dServicesMap d)
    (dActiveCollector d) (dInputResult d) (dJmxState d) (dAgentGathererTypes d) (dRemovedDuringUpdate d) (dSnapshot d).

(** * Inputs *)
(** What a builder of [inputBuilders] answers: an input, or why there is none.
    [BuildError] tells whether the error is [inputs.ErrUnexpectedType]. *)
Inductive buildResult : Set :=
| BuildInput | BuildNil | BuildMissingInfo | BuildMissingCommand | BuildDisabled
| BuildError (unexpectedType : bool).

(** What [RegisterInput] answers: a registration, which reports its scrape state
    or not, or an error. *)
Inductive registerResult : Set :=
| Registered (reports : bool)
| RegisterError (unexpectedType : bool).

Section discovery.
Context (build : Service → buildResult) (RegisterInput : Service → registerResult).
Context (isPrint : Z → bool).

Definition removeInput (w : world) (key : NameInstance) : world :=
  let d := wD w in
  let results := delete key (dInputResult d) in
  match dActiveCollector d !! key with
  | Some collector =>
      mkWorld (setInputs d (delete key (dActiveCollector d)) results)
        (mkRegistry (rgLive (wR w) ∖ {[ coID collector ]}) (rgNext (wR w)))
  | None => mkWorld (setInputs d (dActiveCollector d) results) (wR w)
  end.

(** [None] when the input is registered, otherwise whether the error is an unexpected type. *)
Definition registerInput (w : world) (service : Service) : world * option bool :=
  match RegisterInput service with
  | Registered reports =>
      let id := rgNext (wR w) in
      let d := wD w in
      (mkWorld (setInputs d (<[keyOf service := mkCollector id reports]> (dActiveCollector d)) (dInputResult d))
         (mkRegistry (rgLive (wR w) ∪ {[ id ]}) (S id)), None)
  | RegisterError unexpected => (w, Some unexpected)
  end.

Definition createInput (w : world) (service : Service) : world * inputOutcome * bool :=
  if negb (svActive service) then (w, inputInactive, false)
  else if svMetricsIgnored service then (w, inputIgnored, false)
  else if bool_decide (svServiceType service = CustomService) then (w, inputCheckOnly, false)
  else if negb (bool_decide (svServiceType service ∈ inputBuilders)) then (w, inputUnsupportedType, false)
  else match build service with
       | BuildMissingInfo => (w, inputMissingInfo, false)
       | BuildMissingCommand => (w, inputMissingCommand, false)
       | BuildDisabled => (w, inputUnsupportedPlatform, false)
       | BuildError unexpected => (w, inputCreateFailed, unexpected)
       | BuildNil => (w, inputCreateFailed, false)
       | BuildInput =>
           match registerInput w service with
           | (w, None) => (w, inputRegistered, false)
           | (w, Some unexpected) => (w, inputCreateFailed, unexpected)
           end
       end.

Definition setResult (w : world) (key : NameInstance) (r : inputResult) : world :=
  mkWorld (setInputs (wD w) (dActiveCollector (wD w)) (<[key := r]> (dInputResult (wD w)))) (wR w).

(** The body of the second loop of [configureMetricInputs]. *)
Definition configureService (oldServices : gmap NameInstance Service) (w : world)
    (entry : NameInstance * Service) : world :=
  let '(key, service) := entry in
  let need :=
    match oldServices !! key with
    | None => true
    | Some old => serviceNeedUpdate old service (stateOf old) (stateOf service)
    end in
  if need then
    let w := removeInput w key in
    if bool_decide (stateOf service = ContainerStopped)
    then setResult w key (newInputResult inputContainerStopped false)
    else let '(w, outcome, unexpected) := createInput w service in
         setResult w key (newInputResult outcome unexpected)
  else w.

(** [gone] lists the keys of [oldServices] not in [services], [entries] the services,
    each in the order the map gives them. *)
Definition configureMetricInputs (oldServices : gmap NameInstance Service) (w : world)
    (gone : list NameInstance) (entries : list (NameInstance * Service)) : world :=
  foldl (configureService oldServices) (foldl removeInput w gone) entries.

(** [reconfigure], the checks apart. *)
Definition reconfigure (w : world) (gone : list NameInstance) (entries : list (NameInstance * Service)) : world :=
  let w := configureMetricInputs (dLastConfigServicesMap (wD w)) w gone entries in
  mkWorld (publishServicesState isPrint (setLastConfig (wD w))) (wR w).

(** [Close], the checks apart; [keys] are the keys of the services map. *)
Definition Close (w : world) (keys : list NameInstance) : world :=
  let w := foldl removeInput w keys in
  mkWorld (publishServicesState isPrint (wD w)) (wR w).

(** * The known services *)
Definition RemoveIfNonRunning (d : Discovery) (services : list Service) : Discovery :=
  let keys := keyOf <$> services in
  let deleted := existsb (λ k, bool_decide (is_Some (dServicesMap d !! k))) keys in
  let d' := setServices d
    (foldl (λ m k, delete k m) (dDiscoveredServicesMap d) keys)
    (foldl (λ m k, delete k m) (dServicesMap d) keys)
    ((λ r, r ∪ list_to_set keys) <$> dRemovedDuringUpdate d) in
  if deleted then publishServicesState isPrint d' else d'.

(** What [setServiceActiveAndContainer] learns of the host: the container of an
    identifier, whether it is ignored, whether the executable is gone ([None]
    when its path is unknown) and how long ago the service was seen. *)
Record host := mkHost {
  hContainer : string → option Container;
  hIgnored : Container → bool;
  hExeMissing : string → option bool;
  hNow : Z;
  hDelay : Z
}.

Definition setContainer (s : Service) (c : option Container) (active : bool) : Service :=
  mkService (svConfig s) (svName s) (svInstance s) (svServiceType s) (svContainerID s) (svContainerName s)
    (svIPAddress s) (svListenAddresses s) (svExePath s) active (svCheckIgnored s) (svMetricsIgnored s)
    (svHasNetstatInfo s) (svLastNetstatInfo s) c (svLastTimeSeen s).

Definition setServiceActiveAndContainer (h : host) (s : Service) : Service :=
  if negb (bool_decide (svContainerID s = "")) then
    match hContainer h (svContainerID s) with
    | Some c =>
        setContainer s (Some c) (if hIgnored h c then false else if ctStoppedAndReplaced c then false else svActive s)
    | None => setContainer s (svContainer s) false
    end
  else match (if bool_decide (svExePath s = "") then None else hExeMissing h (svExePath s)) with
       | Some missing => setContainer s (svContainer s) (if missing then false else svActive s)
       | None =>
           if svActive s && (hDelay h <? Time.Sub (hNow h) (svLastTimeSeen s))
           then setContainer s (svContainer s) false else s
       end.

Definition setNetstat (s previous : Service) : Service :=
  mkService (svConfig s) (svName s) (svInstance s) (svServiceType s) (svContainerID s) (svContainerName s)
    (svIPAddress previous) (svListenAddresses previous) (svExePath s) (svActive s) (svCheckIgnored s)
    (svMetricsIgnored s) (svHasNetstatInfo previous) (svLastNetstatInfo previous) (svContainer s) (svLastTimeSeen s).

(** [updateDiscovery] in the three parts the lock makes of it.  The first copies the known services. *)
Definition updateStart (h : host) (d : Discovery) : Discovery * gmap NameInstance Service :=
  (setServices d (dDiscoveredServicesMap d) (dServicesMap d) (Some ∅),
   setServiceActiveAndContainer h <$> dDiscoveredServicesMap d).

(** The second, without the lock, adds the services found running. *)
Definition addRunning (now : Z) (isServiceIgnored : Service → bool)
    (acc : gmap NameInstance Service * gset NameInstance) (service : Service) :
    gmap NameInstance Service * gset NameInstance :=
  let '(servicesMap, running) := acc in
  if isServiceIgnored service then acc
  else
    let key := keyOf service in
    let service :=
      match servicesMap !! key with
      | Some previous => if usePreviousNetstat now previous service then setNetstat service previous else service
      | None => service
      end in
    (<[key := service]> servicesMap, running ∪ {[ key ]}).

Definition updateRunning (now : Z) (isServiceIgnored : Service → bool) (servicesMap : gmap NameInstance Service)
    (r : list Service) : gmap NameInstance Service * gset NameInstance :=
  foldl (addRunning now isServiceIgnored) (servicesMap, ∅) r.

(** The third applies the removals made meanwhile; [overridden] is the map with
    the overrides of the configuration. *)
Definition updateFinish (d : Discovery) (servicesMap : gmap NameInstance Service) (running : gset NameInstance)
    (overridden : gmap NameInstance Service → gmap NameInstance Service) : Discovery :=
  let removed := default ∅ (dRemovedDuringUpdate d) in
  let servicesMap := filter (λ '(k, _), k ∉ removed ∨ k ∈ running) servicesMap in
  setServices d servicesMap (overridden servicesMap) None.

(** * Theorems: updates *)
Lemma foldl_RemoveIfNonRunning (d : Discovery) (removals : list (list Service)) :
  dRemovedDuringUpdate (foldl RemoveIfNonRunning d removals) =
  (λ r, r ∪ list_to_set (keyOf <$> concat removals)) <$> dRemovedDuringUpdate d.
Proof.
  revert d. induction removals as [|l removals IH]; intros d; simpl.
  - destruct (dRemovedDuringUpdate d); simpl; [by rewrite union_empty_r_L|done].
  - rewrite IH. assert (dRemovedDuringUpdate (RemoveIfNonRunning d l) =
      (λ r, r ∪ list_to_set (keyOf <$> l)) <$> dRemovedDuringUpdate d) as ->
      by (unfold RemoveIfNonRunning; case_match; done).
    destruct (dRemovedDuringUpdate d); simpl; [|done]. f_equal. by rewrite fmap_app, list_to_set_app_L, (assoc_L (∪)).
Qed.

(** What the second part makes of one service: the running ones replace the known ones. *)
Lemma updateRunning_spec (now : Z) (ignored : Service → bool) (m : gmap NameInstance Service) (r : list Service)
    (k : NameInstance) :
  let '(m', running) := updateRunning now ignored m r in
  (k ∈ running ↔ ∃ s, s ∈ r ∧ ignored s = false ∧ keyOf s = k) ∧
  (k ∉ running → m' !! k = m !! k) ∧
  (k ∈ running → ∃ s s', s ∈ r ∧ ignored s = false ∧ keyOf s = k ∧ m' !! k = Some s' ∧
     (s' = s ∨ ∃ p, usePreviousNetstat now p s = true ∧ s' = setNetstat s p)).
Proof.
  unfold updateRunning. induction r as [|s r IH] using rev_ind; simpl.
  { split_and!; [|done|set_solver]. split; [set_solver|]. intros (s & H & _). by apply elem_of_nil in H. }
  rewrite foldl_app. simpl. destruct (foldl _ _ r) as [m' running]. destruct IH as (IH1 & IH2 & IH3).
  unfold addRunning. destruct (ignored s) eqn:Hig.
  { split_and!; [|done|].
    - rewrite IH1. split; intros (x & Hx & ? & ?); exists x; (split; [|done]).
      + apply elem_of_app. by left.
      + apply elem_of_app in Hx as [|Hx%list_elem_of_singleton]; [done|congruence].
    - intros H. destruct (IH3 H) as (s0 & s' & H'). exists s0, s'. rewrite elem_of_app. tauto. }
  split_and!.
  - rewrite elem_of_union, IH1, elem_of_singleton. split.
    + intros [(x & Hx & ? & ?)| ->]; [exists x|exists s]; rewrite elem_of_app, list_elem_of_singleton; auto.
    + intros (x & Hx & ? & ?). apply elem_of_app in Hx as [Hx|Hx%list_elem_of_singleton]; [left; eauto|right; congruence].
  - rewrite not_elem_of_union, elem_of_singleton. intros [? ?]. rewrite lookup_insert_ne by done. auto.
  - rewrite elem_of_union, elem_of_singleton. intros H. destruct (decide (k = keyOf s)) as [->|Hne].
    + eexists s, _. split; [rewrite elem_of_app; right; by left|]. rewrite lookup_insert_eq. do 3 (split; [done|]).
      destruct (m' !! keyOf s) as [p|]; [|by left]. destruct (usePreviousNetstat now p s) eqn:Hu; [|by left].
      right. by exists p.
    + destruct H as [H|]; [|done]. destruct (IH3 H) as (s0 & s' & H').
      exists s0, s'. rewrite lookup_insert_ne by done. rewrite elem_of_app. tauto.
Qed.

(** An update of the known services, with any removals interleaved between its
    first and its last part: a service found running is known, with its new data
    or the previous addresses; a removed service that does not run is not
    brought back; every other service stays known. *)
Theorem update_removals (h : host) (d : Discovery) (removals : list (list Service)) (now : Z)
    (ignored : Service → bool) (r : list Service)
    (overridden : gmap NameInstance Service → gmap NameInstance Service) (k : NameInstance) :
  let '(d1, m) := updateStart h d in
  let '(m', running) := updateRunning now ignored m r in
  let d3 := updateFinish (foldl RemoveIfNonRunning d1 removals) m' running overridden in
  let isRunning := ∃ s, s ∈ r ∧ ignored s = false ∧ keyOf s = k in
  (isRunning → ∃ s s', s ∈ r ∧ keyOf s = k ∧ dDiscoveredServicesMap d3 !! k = Some s' ∧
     (s' = s ∨ ∃ p, usePreviousNetstat now p s = true ∧ s' = setNetstat s p)) ∧
  (¬ isRunning → k ∈ keyOf <$> concat removals → dDiscoveredServicesMap d3 !! k = None) ∧
  (¬ isRunning → k ∉ keyOf <$> concat removals →
     dDiscoveredServicesMap d3 !! k = setServiceActiveAndContainer h <$> dDiscoveredServicesMap d !! k).
Proof.
  unfold updateStart. pose proof (updateRunning_spec now ignored
    (setServiceActiveAndContainer h <$> dDiscoveredServicesMap d) r k) as Hspec.
  destruct (updateRunning _ _ _ r) as [m' running]. destruct Hspec as (H1 & H2 & H3).
  unfold updateFinish. cbn [dDiscoveredServicesMap setServices].
  rewrite foldl_RemoveIfNonRunning. simpl. rewrite union_empty_l_L. rewrite <-H1. split_and!.
  - intros Hr. destruct (H3 Hr) as (s & s' & ? & _ & ? & Hl & ?). exists s, s'.
    do 2 (split; [done|]). split; [|done]. apply map_lookup_filter_Some. auto.
  - intros Hr Hrem. apply map_lookup_filter_None. right. intros s _ [Hn|]; [|done].
    by rewrite elem_of_list_to_set in Hn.
  - intros Hr Hrem. rewrite <-lookup_fmap, <-H2 by done.
    destruct (m' !! k) as [s|] eqn:Hm; [|apply map_lookup_filter_None; by left].
    apply map_lookup_filter_Some. split; [done|]. left. by rewrite elem_of_list_to_set.
Qed.

(** * Theorems: inputs *)
(** The services an input can be registered for. *)
Definition wantsInput (s : Service) : Prop :=
  svActive s = true ∧ svMetricsIgnored s = false ∧ svServiceType s ≠ CustomService ∧
  svServiceType s ∈ inputBuilders ∧ stateOf s ≠ ContainerStopped.

(** The services that the configuration or a label renames are known by one key and their inputs by another; both are in
    [renamed]. *)
Context (renamed : gset NameInstance).

Definition keyed (services : gmap NameInstance Service) : Prop :=
  map_Forall (λ k s, keyOf s = k ∨ (k ∈ renamed ∧ keyOf s ∈ renamed)) services.

(** The active collectors are live registrations, one each, and all of them unless a service is renamed. *)
Definition registryOk (collectors : gmap NameInstance collectorDetails) (r : registry) : Prop :=
  (∀ k c, collectors !! k = Some c → coID c ∈ rgLive r) ∧
  (renamed = ∅ → ∀ id, id ∈ rgLive r → ∃ k c, collectors !! k = Some c ∧ coID c = id) ∧
  (∀ k1 k2 c1 c2, collectors !! k1 = Some c1 → collectors !! k2 = Some c2 → coID c1 = coID c2 → k1 = k2) ∧
  (∀ id, id ∈ rgLive r → (id < rgNext r)%nat).

(** [m] holds the services the inputs were configured for. *)
Record inputsOk (w : world) (m : gmap NameInstance Service) : Prop := {
  io_dom : dom (dInputResult (wD w)) = dom m;
  io_collectors : ∀ k, k ∉ renamed → is_Some (dActiveCollector (wD w) !! k) ↔
    ∃ r, dInputResult (wD w) !! k = Some r ∧ irOutcome r = inputRegistered;
  io_wants : ∀ k s, k ∉ renamed → m !! k = Some s → is_Some (dActiveCollector (wD w) !! k) → wantsInput s;
  io_registry : registryOk (dActiveCollector (wD w)) (wR w);
  io_results : resultsOk (wD w)
}.

Lemma registryOk_delete (cs : gmap NameInstance collectorDetails) (r : registry) (k : NameInstance)
    (c : collectorDetails) :
  registryOk cs r → cs !! k = Some c →
  registryOk (delete k cs) (mkRegistry (rgLive r ∖ {[ coID c ]}) (rgNext r)).
Proof.
  intros (Hl & Ha & Hi & Hn) Hk. split_and!; simpl.
  - intros k' c' [Hne Hk']%lookup_delete_Some. apply elem_of_difference. split; [by eapply Hl|].
    rewrite elem_of_singleton. intros Heq. apply Hne. by eapply Hi.
  - intros Hre id [Hid Hne]%elem_of_difference. destruct (Ha Hre id Hid) as (k' & c' & Hk' & <-). exists k', c'. split; [|done].
    rewrite lookup_delete_ne; [done|]. intros <-. apply Hne, elem_of_singleton. congruence.
  - intros k1 k2 c1 c2 [_ ?]%lookup_delete_Some [_ ?]%lookup_delete_Some. by eapply Hi.
  - intros id [? _]%elem_of_difference. auto.
Qed.

Lemma registryOk_insert (cs : gmap NameInstance collectorDetails) (r : registry) (k : NameInstance) (b : bool) :
  registryOk cs r → (renamed = ∅ → cs !! k = None) →
  registryOk (<[k := mkCollector (rgNext r) b]> cs) (mkRegistry (rgLive r ∪ {[ rgNext r ]}) (S (rgNext r))).
Proof.
  intros (Hl & Ha & Hi & Hn) Hk. assert (∀ k' c', cs !! k' = Some c' → (coID c' < rgNext r)%nat) as Hlt.
  { intros k' c' Hk'. by eapply Hn, Hl. }
  split_and!; simpl.
  - intros k' c' [[<- <-]|[_ Hk']]%lookup_insert_Some; [set_solver|]. apply elem_of_union. left. by eapply Hl.
  - intros Hre id [Hid| ->%elem_of_singleton]%elem_of_union.
    + destruct (Ha Hre id Hid) as (k' & c' & Hk' & Hid'). exists k', c'. specialize (Hk Hre). rewrite lookup_insert_ne by congruence. done.
    + exists k, (mkCollector (rgNext r) b). by rewrite lookup_insert_eq.
  - intros k1 k2 c1 c2 H1 H2 Hid.
    apply lookup_insert_Some in H1 as [[<- <-]|[Hne1 H1]]; apply lookup_insert_Some in H2 as [[<- <-]|[Hne2 H2]];
      [done|apply Hlt in H2; simpl in Hid; lia|apply Hlt in H1; simpl in Hid; lia|by eapply Hi].
  - intros id [?%Hn|?%elem_of_singleton]%elem_of_union; lia.
Qed.

Lemma removeInput_maps (w : world) (k : NameInstance) :
  dActiveCollector (wD (removeInput w k)) = delete k (dActiveCollector (wD w)) ∧
  dInputResult (wD (removeInput w k)) = delete k (dInputResult (wD w)).
Proof.
  unfold removeInput. destruct (dActiveCollector (wD w) !! k) eqn:Hk; [done|]. simpl. split; [|done].
  symmetry. by apply delete_id.
Qed.

Lemma removeInput_ok (w : world) (m : gmap NameInstance Service) (k : NameInstance) :
  inputsOk w m → inputsOk (removeInput w k) (delete k m).
Proof.
  intros [Hd Hc Hw Hr Hres]. destruct (removeInput_maps w k) as [Hmc Hmr]. split.
  - by rewrite Hmr, !dom_delete_L, Hd.
  - intros k' Hk'. rewrite Hmc, Hmr. destruct (decide (k' = k)) as [->|Hne].
    + rewrite !lookup_delete_eq. split; [by intros [? ?]|by intros (? & ? & _)].
    + rewrite !lookup_delete_ne by done. by apply Hc.
  - intros k' s Hk' [Hne Hm]%lookup_delete_Some. rewrite Hmc, lookup_delete_ne by done. by apply Hw.
  - unfold removeInput. destruct (dActiveCollector (wD w) !! k) eqn:Hk; simpl; [by apply registryOk_delete|done].
  - unfold resultsOk. rewrite Hmr. by apply map_Forall_delete.
Qed.

Lemma inputsOk_none (w : world) (m : gmap NameInstance Service) (k : NameInstance) :
  inputsOk w m → m !! k = None → k ∉ renamed → dActiveCollector (wD w) !! k = None.
Proof.
  intros Hok Hm Hk. apply eq_None_not_Some. intros (r & Hr & _)%(io_collectors _ _ Hok); [|done].
  apply (elem_of_dom_2 (D := gset NameInstance)) in Hr. rewrite (io_dom _ _ Hok) in Hr. apply elem_of_dom in Hr as [? ?]. congruence.
Qed.

Lemma setResult_ok (w : world) (m : gmap NameInstance Service) (k : NameInstance) (s : Service)
    (outcome : inputOutcome) (u : bool) :
  inputsOk w m → m !! k = None → outcome ≠ inputRegistered →
  inputsOk (setResult w k (newInputResult outcome u)) (<[k := s]> m).
Proof.
  intros Hok Hm Ho. pose proof (inputsOk_none w m k Hok Hm) as Hck. destruct Hok as [Hd Hc Hw Hr Hres]. split; simpl.
  - by rewrite !dom_insert_L, Hd.
  - intros k' Hk'. destruct (decide (k' = k)) as [->|Hne].
    + rewrite lookup_insert_eq, Hck by done. split; [by intros [? ?]|]. intros (r & [= <-] & Hr'). by destruct outcome.
    + rewrite lookup_insert_ne by done. by apply Hc.
  - intros k' s' Hk' [[<- <-]|[Hne Hm']]%lookup_insert_Some; [rewrite Hck by done; by intros [? ?]|by apply Hw].
  - done.
  - apply map_Forall_insert_2; [|done]. exists u. by destruct outcome.
Qed.

(** The world after a registration. *)
Definition registered (w : world) (s : Service) (reports : bool) : world :=
  mkWorld (setInputs (wD w) (<[keyOf s := mkCollector (rgNext (wR w)) reports]> (dActiveCollector (wD w)))
             (dInputResult (wD w)))
    (mkRegistry (rgLive (wR w) ∪ {[ rgNext (wR w) ]}) (S (rgNext (wR w)))).

Lemma createInput_cases (w w' : world) (s : Service) (outcome : inputOutcome) (u : bool) :
  createInput w s = (w', outcome, u) → stateOf s ≠ ContainerStopped →
  (w' = w ∧ outcome ≠ inputRegistered) ∨
  (outcome = inputRegistered ∧ wantsInput s ∧ ∃ reports, w' = registered w s reports).
Proof.
  unfold createInput, registerInput. intros H Hst.
  destruct (svActive s) eqn:Ha; simpl in H; [|by left; injection H as <- <- _].
  destruct (svMetricsIgnored s) eqn:Hi; [by left; injection H as <- <- _|].
  case_bool_decide as Hcustom; [by left; injection H as <- <- _|].
  case_bool_decide as Hb; simpl in H; [|by left; injection H as <- <- _].
  destruct (build s); [|by left; injection H as <- <- _..].
  destruct (RegisterInput s) as [reports|unexpected]; [|by left; injection H as <- <- _].
  right. injection H as <- <- _. split; [done|]. split; [done|]. by exists reports.
Qed.

Lemma registered_ok (w : world) (m : gmap NameInstance Service) (k : NameInstance) (s : Service) (reports u : bool) :
  inputsOk w m → m !! k = None → keyOf s = k ∨ (k ∈ renamed ∧ keyOf s ∈ renamed) → wantsInput s →
  inputsOk (setResult (registered w s reports) k (newInputResult inputRegistered u)) (<[k := s]> m).
Proof.
  intros Hok Hm Hks Hwants. pose proof (inputsOk_none w m k Hok Hm) as Hck. destruct Hok as [Hd Hc Hw Hr Hres].
  assert (∀ k', k' ∉ renamed → k' ≠ k → k' ≠ keyOf s) as Hother by (intros k' Hk' Hne ->; destruct Hks as [|[_ ?]]; [by apply Hne|done]).
  split; simpl.
  - by rewrite !dom_insert_L, Hd.
  - intros k' Hk'. destruct (decide (k' = k)) as [->|Hne].
    + destruct Hks as [->|[? _]]; [|done]. rewrite !lookup_insert_eq. split; [|by eexists]. intros _. by eexists.
    + rewrite !lookup_insert_ne by (done || apply not_eq_sym, Hother; done). by apply Hc.
  - intros k' s' Hk' [[<- <-]|[Hne Hm']]%lookup_insert_Some; [done|].
    rewrite lookup_insert_ne by (apply not_eq_sym, Hother; done). by apply Hw.
  - apply registryOk_insert; [done|]. intros Hre. destruct Hks as [->|[? _]]; [|set_solver]. apply Hck. set_solver.
  - apply map_Forall_insert_2; [|done]. by exists u.
Qed.

(** A service that needs no update still wants its input. *)
Lemma serviceNeedUpdate_wants (old new : Service) :
  serviceNeedUpdate old new (stateOf old) (stateOf new) = false → wantsInput old → wantsInput new.
Proof.
  unfold serviceNeedUpdate. rewrite !orb_false_iff, !negb_false_iff, !bool_decide_eq_true, !eqb_true_iff.
  intros (((((((((((((( _ & _) & Hty) & _) & _) & _) & _) & Ha) & _) & Hi) & Hst) & _) & _) & _) & _).
  unfold wantsInput. rewrite Hty, Ha, Hi, Hst. done.
Qed.

Lemma configureService_ok (old : gmap NameInstance Service) (w : world) (m : gmap NameInstance Service)
    (k : NameInstance) (s : Service) :
  inputsOk w m → m !! k = old !! k → keyOf s = k ∨ (k ∈ renamed ∧ keyOf s ∈ renamed) → inputsOk (configureService old w (k, s)) (<[k := s]> m).
Proof.
  intros Hok Hm Hk. unfold configureService.
  assert (inputsOk (if bool_decide (stateOf s = ContainerStopped)
    then setResult (removeInput w k) k (newInputResult inputContainerStopped false)
    else let '(w0, outcome, unexpected) := createInput (removeInput w k) s in
         setResult w0 k (newInputResult outcome unexpected)) (<[k := s]> m)) as Hnew.
  { apply (removeInput_ok _ _ k) in Hok. rewrite <-(insert_delete_eq m).
    assert (delete k m !! k = None) as Hnone by apply lookup_delete_eq.
    case_bool_decide as Hst; [by apply setResult_ok|].
    destruct (createInput (removeInput w k) s) as [[w' outcome] u] eqn:Hc.
    apply createInput_cases in Hc as [[-> Ho]|(-> & Hwants & reports & ->)]; [by apply setResult_ok| |done].
    by apply registered_ok. }
  destruct (old !! k) as [o|] eqn:Ho; [|done].
  destruct (serviceNeedUpdate o s (stateOf o) (stateOf s)) eqn:Hn; [done|].
  destruct Hok as [Hd Hc Hw Hr Hres]. split; [|done| |done|done].
  - rewrite dom_insert_L, Hd. apply (elem_of_dom_2 (D := gset NameInstance)) in Hm. set_solver.
  - intros k' s' Hk' [[<- <-]|[Hne Hm']]%lookup_insert_Some Hcol; [|by eapply Hw].
    eapply serviceNeedUpdate_wants; [done|by eapply Hw].
Qed.

Lemma foldl_configureService_ok (old : gmap NameInstance Service) (entries : list (NameInstance * Service))
    (w : world) (m : gmap NameInstance Service) :
  NoDup entries.*1 → Forall (λ e, (keyOf e.2 = e.1 ∨ (e.1 ∈ renamed ∧ keyOf e.2 ∈ renamed)) ∧ m !! e.1 = old !! e.1) entries → inputsOk w m →
  inputsOk (foldl (configureService old) w entries) (list_to_map entries ∪ m).
Proof.
  revert w m. induction entries as [|[k s] entries IH]; intros w m Hnd Hall Hok; simpl.
  { by rewrite (left_id_L ∅ (∪)). }
  apply NoDup_cons in Hnd as [Hk Hnd]. apply Forall_cons in Hall as [[Hks Hm] Hall]. simpl in *.
  rewrite <-insert_union_l. rewrite insert_union_r by (by apply not_elem_of_list_to_map_1).
  apply IH; [done| |by apply configureService_ok].
  apply Forall_forall. intros [k' s'] Hin. rewrite Forall_forall in Hall. destruct (Hall _ Hin) as [? Hm'].
  split; [done|]. simpl in *. rewrite lookup_insert_ne; [done|]. intros <-. apply Hk.
  apply list_elem_of_fmap. by exists (k, s').
Qed.

Lemma foldl_removeInput_ok (gone : list NameInstance) (w : world) (m : gmap NameInstance Service) :
  inputsOk w m → inputsOk (foldl removeInput w gone) (foldl (λ m k, delete k m) m gone).
Proof. revert w m. induction gone as [|k gone IH]; intros w m Hok; simpl; [done|]. by apply IH, removeInput_ok. Qed.

(** The orders in which the loops of [configureMetricInputs] may go. *)
Definition iterates (old services : gmap NameInstance Service) (gone : list NameInstance)
    (entries : list (NameInstance * Service)) : Prop :=
  (∀ k, k ∈ gone ↔ k ∈ dom old ∧ k ∉ dom services) ∧ entries ≡ₚ map_to_list services.

Lemma configureMetricInputs_ok (w : world) (old services : gmap NameInstance Service) (gone : list NameInstance)
    (entries : list (NameInstance * Service)) :
  iterates old services gone entries → keyed services → inputsOk w old →
  inputsOk (configureMetricInputs old w gone entries) services.
Proof.
  intros [Hg He] Hk Hok. unfold configureMetricInputs.
  set (m := foldl (λ m k, delete k m) old gone).
  assert (∀ k, m !! k = if bool_decide (k ∈ gone) then None else old !! k) as Hm
    by (intros k; apply lookup_foldl_delete).
  assert (list_to_map entries = services) as Hlm.
  { rewrite <-(list_to_map_to_list services). apply list_to_map_proper; [|done].
    rewrite He. apply NoDup_fst_map_to_list. }
  assert (services = list_to_map entries ∪ m) as Hs.
  { rewrite Hlm. apply map_eq. intros k. destruct (services !! k) as [s|] eqn:Hsk.
    { by rewrite (lookup_union_Some_l _ _ _ _ Hsk). }
    rewrite lookup_union_r, Hm by done. case_bool_decide as Hin; [done|]. symmetry. apply eq_None_not_Some.
    intros Hold. apply Hin, Hg. split; [by apply elem_of_dom|by apply not_elem_of_dom]. }
  rewrite Hs. apply foldl_configureService_ok.
  - rewrite He. apply NoDup_fst_map_to_list.
  - rewrite He. apply Forall_forall. intros [k s] Hin%elem_of_map_to_list. simpl. split; [by apply Hk|].
    rewrite Hm, bool_decide_false; [done|]. intros [_ Hn]%Hg. apply Hn. by eapply elem_of_dom_2.
  - by apply foldl_removeInput_ok.
Qed.

(** ** Reachable states *)
Definition initial : world :=
  mkWorld (mkDiscovery ∅ ∅ 0 ∅ ∅ ∅ false ∅ None (mkSnapshot [] [] 0)) (mkRegistry ∅ 0).

Inductive reachable : world → Prop :=
| reach_initial : reachable initial
| reach_services (w : world) (discovered services : gmap NameInstance Service) (removed : option (gset NameInstance)) :
    reachable w → keyed services →
    reachable (mkWorld (setServices (wD w) discovered services removed) (wR w))
| reach_remove (w : world) (l : list Service) :
    reachable w → reachable (mkWorld (RemoveIfNonRunning (wD w) l) (wR w))
| reach_jmx (w : world) (enabled : bool) :
    reachable w → reachable (mkWorld (SetJMXState isPrint (wD w) enabled) (wR w))
| reach_gatherers (w : world) (types : list string) :
    reachable w → reachable (mkWorld (SetAgentGathererState isPrint (wD w) types) (wR w))
| reach_reconfigure (w : world) (gone : list NameInstance) (entries : list (NameInstance * Service)) :
    reachable w → iterates (dLastConfigServicesMap (wD w)) (dServicesMap (wD w)) gone entries →
    reachable (reconfigure w gone entries).

(** The invariant depends on the inputs only. *)
Lemma inputsOk_ext (w w' : world) (m : gmap NameInstance Service) :
  dActiveCollector (wD w') = dActiveCollector (wD w) → dInputResult (wD w') = dInputResult (wD w) → wR w' = wR w →
  inputsOk w m → inputsOk w' m.
Proof.
  intros Hc Hr Hg [H1 H2 H3 H4 H5]. split; unfold resultsOk; rewrite ?Hc, ?Hr, ?Hg; done.
Qed.

Lemma configureMetricInputs_services (w : world) (old : gmap NameInstance Service) (gone : list NameInstance)
    (entries : list (NameInstance * Service)) :
  dServicesMap (wD (configureMetricInputs old w gone entries)) = dServicesMap (wD w).
Proof.
  assert (∀ w k, dServicesMap (wD (removeInput w k)) = dServicesMap (wD w)) as Hrem.
  { intros w' k. unfold removeInput. by destruct (dActiveCollector (wD w') !! k). }
  assert (∀ w e, dServicesMap (wD (configureService old w e)) = dServicesMap (wD w)) as Hcfg.
  { intros w' [k s]. unfold configureService, createInput, registerInput. repeat case_match; simplify_eq/=; done. }
  unfold configureMetricInputs. trans (dServicesMap (wD (foldl removeInput w gone))).
  - generalize (foldl removeInput w gone). induction entries as [|e entries IH]; intros w'; simpl; [done|].
    by rewrite IH, Hcfg.
  - revert w. induction gone as [|k gone IH]; intros w; simpl; [done|]. by rewrite IH, Hrem.
Qed.

Lemma reconfigure_ok (w : world) (gone : list NameInstance) (entries : list (NameInstance * Service)) :
  iterates (dLastConfigServicesMap (wD w)) (dServicesMap (wD w)) gone entries →
  keyed (dServicesMap (wD w)) → inputsOk w (dLastConfigServicesMap (wD w)) →
  inputsOk (reconfigure w gone entries) (dServicesMap (wD w)).
Proof.
  intros Hit Hk Hok. eapply inputsOk_ext; [..|by apply configureMetricInputs_ok]; done.
Qed.

Lemma reachable_ok (w : world) :
  reachable w → inputsOk w (dLastConfigServicesMap (wD w)) ∧ keyed (dServicesMap (wD w)).
Proof.
  induction 1 as [|w disc serv rem _ [IH _] Hk|w l _ [IH IHk]|w e _ [IH IHk]|w t _ [IH IHk]|w gone entries _ [IH IHk] Hit].
  - split; [|apply map_Forall_empty].
    split; simpl; [by rewrite !dom_empty_L| |by intros k s _ Hs; rewrite lookup_empty in Hs| |apply map_Forall_empty].
    + intros k _. rewrite !lookup_empty. split; [by intros [? ?]|by intros (? & ? & _)].
    + by split_and!; simpl; [intros k c Hc; rewrite lookup_empty in Hc|set_solver|intros ???? Hc; rewrite lookup_empty in Hc|set_solver].
  - split; [|done]. by eapply inputsOk_ext; [..|exact IH].
  - unfold RemoveIfNonRunning. split; [eapply inputsOk_ext; [..|case_match; exact IH]; by case_match|].
    assert (keyed (foldl (λ m k, delete k m) (dServicesMap (wD w)) (keyOf <$> l))) as Hk; [|by case_match].
    intros k s Hs. rewrite lookup_foldl_delete in Hs. case_bool_decide; [done|by apply IHk].
  - split; [|done]. by eapply inputsOk_ext; [..|exact IH].
  - split; [|done]. by eapply inputsOk_ext; [..|exact IH].
  - unfold reconfigure. cbn [wD dLastConfigServicesMap dServicesMap publishServicesState withSnapshot setLastConfig].
    rewrite !configureMetricInputs_services. split; [|done]. by apply reconfigure_ok.
Qed.

(** C12. No input leaks and none is missed.  In every state the discovery can reach by updates, removals and
    reconfigurations, where [renamed] holds the keys of the services that are known by another key than their name and instance:
    (1) each active collector is a live registration of the registry, no two the same one; when no service is renamed
    these are all the live registrations;
    (2) for each key that is not in [renamed], a collector belongs to a service that was active, not ignored, of a
    supported type and not in a stopped container when inputs were last configured, and there is one exactly when the result
    of the service says registered;
    (3) the services that have a result are those configured last.
    The inputs of a renamed service can leak: see [renamed_input_leaks]. *)
Theorem reachable_inputs (w : world) :
  reachable w →
  let d := wD w in
  registryOk (dActiveCollector d) (wR w) ∧
  (∀ k, k ∉ renamed → is_Some (dActiveCollector d !! k) →
     ∃ s, dLastConfigServicesMap d !! k = Some s ∧ wantsInput s) ∧
  (∀ k, is_Some (dInputResult d !! k) ↔ is_Some (dLastConfigServicesMap d !! k)) ∧
  (∀ k, k ∉ renamed → is_Some (dActiveCollector d !! k) ↔
     ∃ r, dInputResult d !! k = Some r ∧ irOutcome r = inputRegistered).
Proof.
  intros [[Hd Hc Hw Hr _] _]%reachable_ok d. split_and!; [done| | |done].
  - intros k Hre Hk. destruct (proj1 (Hc k Hre) Hk) as (r & Hres & _).
    apply (elem_of_dom_2 (D := gset NameInstance)) in Hres. rewrite Hd in Hres.
    apply elem_of_dom in Hres as [s Hs]. exists s. split; [done|by eapply Hw].
  - intros k. unfold d. by rewrite <-!(elem_of_dom (D := gset NameInstance)), Hd.
Qed.

(** ** What a reconfiguration leaves alone *)
Lemma configureService_other (old : gmap NameInstance Service) (w : world) (k k' : NameInstance) (s : Service) :
  keyOf s = k ∨ (k ∈ renamed ∧ keyOf s ∈ renamed) → k' ∉ renamed → k' ≠ k →
  dActiveCollector (wD (configureService old w (k, s))) !! k' = dActiveCollector (wD w) !! k' ∧
  dInputResult (wD (configureService old w (k, s))) !! k' = dInputResult (wD w) !! k'.
Proof.
  intros Hk Hre Hne. assert (k' ≠ keyOf s) as Hne' by (intros ->; destruct Hk as [|[_ ?]]; [by apply Hne|done]).
  unfold configureService. destruct (match old !! k with Some o => _ | None => _ end); [|done].
  destruct (removeInput_maps w k) as [Hc Hr].
  assert (dActiveCollector (wD (removeInput w k)) !! k' = dActiveCollector (wD w) !! k' ∧
          dInputResult (wD (removeInput w k)) !! k' = dInputResult (wD w) !! k') as [Hc' Hr']
    by (rewrite Hc, Hr, !lookup_delete_ne by done; done).
  case_bool_decide as Hst; [simpl; by rewrite lookup_insert_ne|].
  destruct (createInput (removeInput w k) s) as [[w' outcome] u] eqn:Hcr.
  apply createInput_cases in Hcr as [[-> _]|(-> & _ & reports & ->)]; [..|done]; simpl;
    rewrite !lookup_insert_ne by congruence; done.
Qed.

Lemma foldl_configureService_other (old : gmap NameInstance Service) (entries : list (NameInstance * Service))
    (w : world) (k : NameInstance) :
  Forall (λ e, keyOf e.2 = e.1 ∨ (e.1 ∈ renamed ∧ keyOf e.2 ∈ renamed)) entries → k ∉ renamed → k ∉ entries.*1 →
  dActiveCollector (wD (foldl (configureService old) w entries)) !! k = dActiveCollector (wD w) !! k ∧
  dInputResult (wD (foldl (configureService old) w entries)) !! k = dInputResult (wD w) !! k.
Proof.
  revert w. induction entries as [|[k' s] entries IH]; intros w Hall Hre Hk; cbn [foldl]; [done|].
  apply Forall_cons in Hall as [Hks Hall]. rewrite fmap_cons in Hk. cbn [fst snd] in *. rewrite not_elem_of_cons in Hk. destruct Hk as [Hne Hk].
  destruct (IH (configureService old w (k', s)) Hall Hre Hk) as [-> ->]. by apply configureService_other.
Qed.

Lemma foldl_removeInput_other (gone : list NameInstance) (w : world) (k : NameInstance) :
  k ∉ gone →
  dActiveCollector (wD (foldl removeInput w gone)) !! k = dActiveCollector (wD w) !! k ∧
  dInputResult (wD (foldl removeInput w gone)) !! k = dInputResult (wD w) !! k.
Proof.
  revert w. induction gone as [|k' gone IH]; intros w Hk; simpl; [done|].
  rewrite not_elem_of_cons in Hk. destruct Hk as [Hne Hk]. destruct (IH (removeInput w k') Hk) as [-> ->].
  destruct (removeInput_maps w k') as [-> ->]. by rewrite !lookup_delete_ne.
Qed.

(** The outcome for a service, when it is configured anew. *)
Definition outcomeOf (s : Service) : inputOutcome :=
  if bool_decide (stateOf s = ContainerStopped) then inputContainerStopped
  else if negb (svActive s) then inputInactive
  else if svMetricsIgnored s then inputIgnored
  else if bool_decide (svServiceType s = CustomService) then inputCheckOnly
  else if negb (bool_decide (svServiceType s ∈ inputBuilders)) then inputUnsupportedType
  else match build s with
       | BuildMissingInfo => inputMissingInfo
       | BuildMissingCommand => inputMissingCommand
       | BuildDisabled => inputUnsupportedPlatform
       | BuildError _ | BuildNil => inputCreateFailed
       | BuildInput => match RegisterInput s with Registered _ => inputRegistered | RegisterError _ => inputCreateFailed end
       end.

Lemma configureService_self (old : gmap NameInstance Service) (w : world) (k : NameInstance) (s : Service) :
  let w' := configureService old w (k, s) in
  let need := match old !! k with Some o => serviceNeedUpdate o s (stateOf o) (stateOf s) | None => true end in
  if need then ∃ r, dInputResult (wD w') !! k = Some r ∧ irOutcome r = outcomeOf s
  else w' = w.
Proof.
  unfold configureService. destruct (match old !! k with Some o => _ | None => _ end); [|done].
  unfold outcomeOf. case_bool_decide as Hst.
  { eexists. split; [apply lookup_insert_eq|done]. }
  destruct (createInput (removeInput w k) s) as [[w' outcome] u] eqn:Hc.
  eexists. split; [apply lookup_insert_eq|]. unfold createInput, registerInput in Hc.
  destruct (svActive s); simpl in *; [|by simplify_eq].
  destruct (svMetricsIgnored s); [by simplify_eq|]. case_bool_decide; [by simplify_eq|].
  case_bool_decide; simpl in *; [|by simplify_eq]. destruct (build s); try by simplify_eq.
  by destruct (RegisterInput s); simplify_eq.
Qed.

(** What a reconfiguration does for each service that is not renamed, whatever the
    iteration order of the maps: a service that did not change keeps its very input and
    result, a new or changed one gets the outcome its state calls for, and a
    service that is gone has neither input nor result. *)
Theorem reconfigure_spec (w : world) (gone : list NameInstance) (entries : list (NameInstance * Service))
    (k : NameInstance) :
  let old := dLastConfigServicesMap (wD w) in
  let services := dServicesMap (wD w) in
  let d' := wD (reconfigure w gone entries) in
  reachable w → k ∉ renamed → iterates old services gone entries →
  match services !! k with
  | None => dActiveCollector d' !! k = None ∧ dInputResult d' !! k = None
  | Some s =>
      let need := match old !! k with Some o => serviceNeedUpdate o s (stateOf o) (stateOf s) | None => true end in
      if need then ∃ r, dInputResult d' !! k = Some r ∧ irOutcome r = outcomeOf s
      else dActiveCollector d' !! k = dActiveCollector (wD w) !! k ∧ dInputResult d' !! k = dInputResult (wD w) !! k
  end.
Proof.
  intros old services d' [Hok Hk]%reachable_ok Hre Hit.
  pose proof (reconfigure_ok w gone entries Hit Hk Hok) as [Hd Hc _ _ _]. fold d' in Hd, Hc.
  destruct (services !! k) as [s|] eqn:Hs; cycle 1.
  { assert (dInputResult d' !! k = None) as Hnone by (apply not_elem_of_dom; rewrite Hd; by apply not_elem_of_dom).
    split; [|done]. apply eq_None_not_Some. intros (r & Hr & _)%Hc; [congruence|done]. }
  destruct Hit as [Hg He]. assert ((k, s) ∈ entries) as Hin by (rewrite He; by apply elem_of_map_to_list).
  assert (k ∉ gone) as Hng by (intros [_ Hn]%Hg; apply Hn; by eapply elem_of_dom_2).
  apply list_elem_of_split in Hin as (l1 & l2 & ->).
  assert (NoDup ((l1 ++ (k, s) :: l2)%list.*1)) as Hnd by (rewrite He; apply NoDup_fst_map_to_list).
  rewrite fmap_app, fmap_cons in Hnd. apply NoDup_app in Hnd as (_ & Hdis & [Hk2 _]%NoDup_cons).
  assert (k ∉ l1.*1) as Hk1 by (intros H1; apply (Hdis k H1); by left).
  assert (Forall (λ e, keyOf e.2 = e.1 ∨ (e.1 ∈ renamed ∧ keyOf e.2 ∈ renamed)) (l1 ++ (k, s) :: l2)%list) as Hall.
  { rewrite He. apply Forall_forall. intros [k' s'] Hin%elem_of_map_to_list. by apply Hk. }
  apply Forall_app in Hall as [Hall1 [_ Hall2]%Forall_cons].
  subst d'. unfold reconfigure, configureMetricInputs.
  cbn [wD dActiveCollector dInputResult publishServicesState withSnapshot setLastConfig].
  rewrite foldl_app. cbn [foldl]. set (w1 := foldl removeInput w gone). set (w2 := foldl _ w1 l1).
  destruct (foldl_configureService_other old l2 (configureService old w2 (k, s)) k Hall2 Hre Hk2) as [Ec Er].
  destruct (foldl_configureService_other old l1 w1 k Hall1 Hre Hk1) as [Ec1 Er1].
  destruct (foldl_removeInput_other gone w k Hng) as [Ec0 Er0].
  pose proof (configureService_self old w2 k s) as Hself. cbv zeta in Hself.
  destruct (match old !! k with Some o => _ | None => _ end).
  - fold old. rewrite Er. exact Hself.
  - fold old. rewrite Ec, Er, Hself. split; [exact (eq_trans Ec1 Ec0)|exact (eq_trans Er1 Er0)].
Qed.
End discovery.

(** * Examples *)
Definition sampleBuild (s : Service) : buildResult :=
  if bool_decide (cfgPassword (svConfig s) = "") then BuildMissingInfo else BuildInput.
Definition sampleRegister (_ : Service) : registerResult := Registered true.

Definition nginxKey : NameInstance := mkNameInstance "nginx" "".
Definition sampleServices : gmap NameInstance Service :=
  {[ redisKey := sampleService "redis" "redis" sampleConfig; nginxKey := sampleService "nginx" "nginx" zeroConfig ]}.

(** The services are set, configured, then nginx is removed. *)
Definition sampleSet : world :=
  mkWorld (setServices (wD initial) sampleServices sampleServices None) (wR initial).
Definition sampleConfigured : world :=
  reconfigure sampleBuild sampleRegister ascii sampleSet [] (map_to_list sampleServices).
Definition sampleRemoved : world :=
  mkWorld (RemoveIfNonRunning ascii (wD sampleConfigured) [sampleService "nginx" "nginx" zeroConfig]) (wR sampleConfigured).

Lemma sampleSet_reachable : reachable sampleBuild sampleRegister ascii ∅ sampleSet.
Proof.
  apply reach_services; [constructor|]. apply map_Forall_insert_2; [by left|]. apply map_Forall_singleton. by left.
Qed.

Lemma sampleSet_iterates :
  iterates (dLastConfigServicesMap (wD sampleSet)) (dServicesMap (wD sampleSet)) [] (map_to_list sampleServices).
Proof. split; [|done]. intros k. simpl. rewrite dom_empty_L. set_solver. Qed.

Lemma sampleRemoved_reachable : reachable sampleBuild sampleRegister ascii ∅ sampleRemoved.
Proof. apply reach_remove, reach_reconfigure; [apply sampleSet_reachable|apply sampleSet_iterates]. Qed.

Lemma reachable_inputs_witness :
  is_Some (dActiveCollector (wD sampleRemoved) !! redisKey) ↔
    ∃ r, dInputResult (wD sampleRemoved) !! redisKey = Some r ∧ irOutcome r = inputRegistered.
Proof.
  destruct (reachable_inputs sampleBuild sampleRegister ascii ∅ sampleRemoved sampleRemoved_reachable)
    as (_ & _ & _ & H). exact (H redisKey (not_elem_of_empty redisKey)).
Defined.

Lemma reconfigure_spec_witness :
  ∃ r, dInputResult (wD sampleConfigured) !! redisKey = Some r ∧
       irOutcome r = outcomeOf sampleBuild sampleRegister (sampleService "redis" "redis" sampleConfig).
Proof.
  exact (reconfigure_spec sampleBuild sampleRegister ascii ∅ sampleSet [] (map_to_list sampleServices) redisKey
           sampleSet_reachable (not_elem_of_empty redisKey) sampleSet_iterates).
Defined.

(** After a removal, [Close] leaves the input of the removed service registered:
    it goes over the services map, which no longer has it. *)
Example Close_leaks :
  let redis := sampleService "redis" "redis" sampleConfig in
  let w := mkWorld (RemoveIfNonRunning ascii (wD sampleConfigured) [redis]) (wR sampleConfigured) in
  rgLive (wR (Close ascii w (fst <$> map_to_list (dServicesMap (wD w))))) = {[ 0%nat ]}.
Proof. vm_compute. reflexivity. Qed.

(** A service known by another key than its name and instance, as one that a label of its container renames: its input is registered under
    its name, and stays registered when the service is gone. *)
Definition renamedServices : gmap NameInstance Service := {[ nginxKey := sampleService "redis" "redis" sampleConfig ]}.
Definition renamedGone : world :=
  let w := mkWorld (setServices (wD initial) renamedServices renamedServices None) (wR initial) in
  let w := reconfigure sampleBuild sampleRegister ascii w [] (map_to_list renamedServices) in
  let w := mkWorld (setServices (wD w) ∅ ∅ None) (wR w) in
  reconfigure sampleBuild sampleRegister ascii w [nginxKey] [].

Example renamed_input_leaks :
  (rgLive (wR renamedGone), fst <$> map_to_list (dActiveCollector (wD renamedGone)), dServicesMap (wD renamedGone)) = ({[ 0%nat ]}, [redisKey], ∅).
Proof. vm_compute. reflexivity. Qed.
