(* ===== verification/Limits.v ===== *)
(** The lists of the registration status
    (bleemeo/internal/synchronizer/syncregistrationstatus/registrationstatus.go
    and limits.go): what the synchronizer adds to the discovery's report, and
    the limits on the number of rows and of bytes of each list.  The theorems:
    the limits hold and the kept rows are a part of the list in its order
    ([limit_bounds]), stopping early changes nothing ([limit_greedy]) and the
    services with a problem are kept first ([limitServices_priority]). *)
From S2P Require Import Prelude Labels Float64 Points Bytes Json ErrorText Secrets Services ServicesState.
From stdpp Require Import pretty.

#[local] Open Scope string_scope.
#[local] Open Scope Z_scope.

(** * Rows *)
Inductive MetricsAmount : Set := MetricsZero | MetricsOne | MetricsSome.

Definition metricsAmount (count : Z) : MetricsAmount :=
  if count <=? 0 then MetricsZero else if count =? 1 then MetricsOne else MetricsSome.

(** ServiceState of the synchronizer: discovery's, with the registered service and its metrics. *)
Record RowState := mkRow { rowState : ServiceState; rowServiceUUID : string; rowMetrics : MetricsAmount }.

Record MetricState := mkMetricState { msName : string; msReason : string; msCount : Z }.

Definition msgNotRegistered : string := "metrics are not gathered: the service is not registered on Bleemeo".

(** [registered] gives the identifier of the Service object of a name and instance. *)
Definition fromDiscoveryOne (registered : gmap NameInstance string) (metricNames : gmap NameInstance nat)
    (state : ServiceState) : RowState :=
  let key := mkNameInstance (stName state) (stInstance state) in
  let serviceUUID := default "" (registered !! key) in
  let set error status pending :=
    mkServiceState (stName state) (stServiceType state) (stInstance state) (stContainerName state)
      (stDynamic state) (stInputSupported state) error status (stMetricsIgnored state) pending
      (stCollectionSkipped state) (stStaleMetricsBefore state) in
  let state :=
    if stCollectionSkipped state then
      if bool_decide (serviceUUID = "")
      then set msgNotRegistered InputStatusNotRegistered (stCollectionPending state)
      else set (stError state) (stInputStatus state) true
    else state in
  mkRow state serviceUUID (metricsAmount (Z.of_nat (default 0%nat (metricNames !! key)))).

Definition FromDiscovery (states : list ServiceState) (registered : gmap NameInstance string)
    (metricNames : gmap NameInstance nat) : list RowState :=
  fromDiscoveryOne registered metricNames <$> states.

(** ** Counting the metrics of each service *)
Definition metricsFreshness : Z := 15 * Time.minute.

(** A metric of the store as it is read here. *)
Record MetricView := mkMetricView { mvLabels : Labels; mvAnnotations : MetricAnnotations; mvLastPointReceivedAt : Z }.

Definition IsOwnMetric (annotations : MetricAnnotations) (agentID : string) : bool :=
  bool_decide (BleemeoAgentID annotations = "") || bool_decide (BleemeoAgentID annotations = agentID).

Definition staleBeforeOf (states : list ServiceState) : gmap NameInstance Z :=
  foldl (λ m state,
    if Time.IsZero (stStaleMetricsBefore state) then m
    else <[mkNameInstance (stName state) (stInstance state) := stStaleMetricsBefore state]> m) ∅ states.

(** The service a metric counts for, if any. *)
Definition countsFor (staleBefore : gmap NameInstance Z) (agentID : string) (now : Z) (m : MetricView) :
    option (NameInstance * string) :=
  let annotations := mvAnnotations m in
  let name := lget (mvLabels m) LabelName in
  if bool_decide (ServiceName annotations = "") || bool_decide (name = MetricServiceStatus) then None
  else if negb (IsOwnMetric annotations agentID) then None
  else
    let key := mkNameInstance (ServiceName annotations) (ServiceInstance annotations) in
    let lastPoint := mvLastPointReceivedAt m in
    if (metricsFreshness <? Time.Sub now lastPoint)
       || Time.Before lastPoint (default Time.zero (staleBefore !! key)) then None
    else Some (key, name).

Definition addName (names : gmap NameInstance (gset string)) (e : NameInstance * string) :
    gmap NameInstance (gset string) :=
  <[e.1 := default ∅ (names !! e.1) ∪ {[ e.2 ]}]> names.

Definition ServiceMetricNames (metrics : list MetricView) (states : list ServiceState) (agentID : string) (now : Z) :
    gmap NameInstance nat :=
  let staleBefore := staleBeforeOf states in
  let names := foldl (λ names m,
    match countsFor staleBefore agentID now m with
    | Some e => addName names e
    | None => names
    end) ∅ metrics in
  size <$> names.

(** ** JSON *)
Definition blen (l : bytes) : Z := Z.of_nat (length l).

Definition statusText (s : InputStatus) : string :=
  match s with
  | InputStatusOK => "ok" | InputStatusPending => "pending" | InputStatusUnknown => "unknown"
  | InputStatusIgnored => "ignored" | InputStatusUnsupportedType => "unsupported_type"
  | InputStatusCheckOnly => "check_only" | InputStatusContainerStopped => "container_stopped"
  | InputStatusUnsupportedPlatform => "unsupported_platform" | InputStatusMissingInfo => "missing_info"
  | InputStatusMissingCommand => "missing_command" | InputStatusCreateFailed => "create_failed"
  | InputStatusJMXDisabled => "jmx_disabled" | InputStatusJMXNoPort => "jmx_no_port"
  | InputStatusJMXNoAddress => "jmx_no_address" | InputStatusUnreachable => "unreachable"
  | InputStatusAnsweredError => "answered_error" | InputStatusError => "error"
  | InputStatusInternalError => "internal_error" | InputStatusNotRegistered => "not_registered"
  end.

Definition amountText (a : MetricsAmount) : string :=
  match a with MetricsZero => "zero" | MetricsOne => "one" | MetricsSome => "some" end.

Definition rowNames : list string :=
  ["name"; "type"; "instance"; "container_name"; "dynamic_discovery"; "input_supported"; "error"; "input_status";
   "service_uuid"; "metrics"].

(** The zero value has empty strings where a row has a status and an amount. *)
Definition marshalRow (name type instance container : string) (dynamic supported : bool)
    (error status uuid amount : string) : bytes :=
  jsonObject (zip rowNames
    [jsonString name; jsonString type; jsonString instance; jsonString container; jsonBool dynamic;
     jsonBool supported; jsonString error; jsonString status; jsonString uuid; jsonString amount]).

Definition encodeRow (r : RowState) : bytes :=
  let s := rowState r in
  marshalRow (stName s) (stServiceType s) (stInstance s) (stContainerName s) (stDynamic s) (stInputSupported s)
    (stError s) (statusText (stInputStatus s)) (rowServiceUUID r) (amountText (rowMetrics r)).

Definition marshalMetric (name reason : string) (count : Z) : bytes :=
  jsonObject (zip ["name"; "reason"; "count"] [jsonString name; jsonString reason; jsonInt count]).

Definition encodeMetric (m : MetricState) : bytes := marshalMetric (msName m) (msReason m) (msCount m).

(** [minEncodedSize]: the size of the zero value less eight. *)
Definition minEncodedSize (zero : bytes) : Z := Z.max (blen zero - 8) 0.
Definition minRow : Z := minEncodedSize (marshalRow "" "" "" "" false false "" "" "" "").
Definition minMetric : Z := minEncodedSize (marshalMetric "" "" 0).

(** * Limits *)
Definition maxServices : Z := 500.
Definition maxServicesBytes : Z := Z.shiftl 512 10.
Definition maxMetrics : Z := 5000.
Definition maxMetricsBytes : Z := Z.shiftl 1 20.

Section limit.
Context {T : Type} (encode : T → bytes) (minRowSize maxRows maxBytes : Z) (priority : T → T → comparison).

(** [slices.SortStableFunc]: the one sorted arrangement that keeps ties in order. *)
Fixpoint insertStable (x : nat * T) (l : list (nat * T)) : list (nat * T) :=
  match l with
  | [] => [x]
  | y :: l' => match priority x.2 y.2 with Gt => y :: insertStable x l' | _ => x :: y :: l' end
  end.

Definition sortStable (l : list (nat * T)) : list (nat * T) := foldr insertStable [] l.

(** The loop: how many rows are kept, their size and their encoding at their index. *)
Fixpoint limitLoop (order : list (nat * T)) (kept size : Z) (encoded : list (option bytes)) :
    Z * Z * list (option bytes) :=
  match order with
  | [] => (kept, size, encoded)
  | (i, x) :: order =>
      if (kept =? maxRows) || (maxBytes - size <? minRowSize + 1)
      then (kept, size, encoded)
      else
        let row := encode x in
        let rowSize := blen row + (if 0 <? kept then 1 else 0) in
        if maxBytes <? size + rowSize then limitLoop order kept size encoded
        else limitLoop order (kept + 1) (size + rowSize) (<[i := Some row]> encoded)
  end.

(** The list without the rows that have no encoding. *)
Definition keptRows (l : list T) (encoded : list (option bytes)) : list T :=
  omap (λ '(x, e), match e with Some _ => Some x | None => None end) (zip l encoded).

Definition limit (l : list T) : list T * list bytes * Z :=
  let order := sortStable (imap pair l) in
  let '(kept, size, encoded) := limitLoop order 0 2 (replicate (length l) None) in
  (keptRows l encoded, omap id encoded, Z.of_nat (length l) - kept).
End limit.

Definition hasProblem (r : RowState) : bool :=
  negb (bool_decide (stError (rowState r) = "")) && negb (stMetricsIgnored (rowState r)).

Definition servicePriority (a b : RowState) : comparison :=
  if hasProblem a && negb (hasProblem b) then Lt
  else if negb (hasProblem a) && hasProblem b then Gt
  else Eq.

Definition limitServices (states : list RowState) : list RowState * list bytes * Z :=
  limit encodeRow minRow maxServices maxServicesBytes servicePriority states.

Definition limitMetrics (states : list MetricState) : list MetricState * list bytes * Z :=
  limit encodeMetric minMetric maxMetrics maxMetricsBytes (λ a b, msCount b ?= msCount a) states.

(** * Theorems *)
(** ** Rows are at least as long as the early stop assumes *)
Lemma marshalRow_length (name type instance container : string) (dynamic supported : bool)
    (error status uuid amount : string) :
  minRow ≤ blen (marshalRow name type instance container dynamic supported error status uuid amount).
Proof.
  assert (minRow = blen (marshalRow "" "" "" "" false false "" "" "" "") - 8) as -> by done.
  unfold marshalRow, blen. rewrite !jsonObject_length by done. unfold sumLength. cbn [sum_list_with].
  pose proof (jsonBool_length dynamic). pose proof (jsonBool_length supported).
  repeat match goal with |- context [jsonString ?s] =>
    lazymatch s with "" => fail | _ => pose proof (jsonString_length s); generalize dependent (jsonString s); intros end end.
  change (length (jsonString "")) with 2%nat. change (length (jsonBool false)) with 5%nat. lia.
Qed.

Lemma marshalMetric_length (name reason : string) (count : Z) : minMetric ≤ blen (marshalMetric name reason count).
Proof.
  assert (minMetric = blen (marshalMetric "" "" 0) - 8) as -> by done.
  unfold marshalMetric, blen. rewrite !jsonObject_length by done. unfold sumLength. cbn [sum_list_with].
  pose proof (jsonString_length name). pose proof (jsonString_length reason). pose proof (jsonInt_length count).
  change (length (jsonString "")) with 2%nat. change (length (jsonInt 0)) with 1%nat. lia.
Qed.

Lemma encodeRow_length (r : RowState) : minRow ≤ blen (encodeRow r).
Proof. unfold encodeRow. apply marshalRow_length. Qed.

Lemma encodeMetric_length (m : MetricState) : minMetric ≤ blen (encodeMetric m).
Proof. unfold encodeMetric. apply marshalMetric_length. Qed.

(** ** The loop *)
Lemma omap_insert_None (encoded : list (option bytes)) (i : nat) (row : bytes) :
  encoded !! i = Some None → omap id (<[i := Some row]> encoded) ≡ₚ row :: omap id encoded.
Proof.
  revert i. induction encoded as [|e encoded IH]; intros [|i] Hi; simplify_eq/=; [done|].
  destruct e as [e|]; simpl; rewrite (IH i Hi); [apply Permutation_swap|done].
Qed.

Lemma omap_replicate_None (n : nat) : omap id (replicate n (None : option bytes)) = [].
Proof. by induction n. Qed.

Lemma jsonArray_perm (a b : list bytes) : a ≡ₚ b → blen (jsonArray a) = blen (jsonArray b).
Proof.
  intros H. unfold blen. rewrite !jsonArray_length, (Permutation_length H).
  assert (sumLength a = sumLength b) as ->; [|done].
  induction H as [|x a b _ IH|x y a|a b c _ IH1 _ IH2]; rewrite ?sumLength_cons; lia.
Qed.

Lemma jsonArray_cons (row : bytes) (rows : list bytes) :
  blen (jsonArray (row :: rows)) =
  blen (jsonArray rows) + (blen row + (if 0 <? Z.of_nat (length rows) then 1 else 0)).
Proof.
  unfold blen. rewrite !jsonArray_length, sumLength_cons. cbn [length].
  destruct (Z.ltb_spec 0 (Z.of_nat (length rows))); lia.
Qed.

Lemma jsonArray_app_le (a b : list bytes) : blen (jsonArray b) ≤ blen (jsonArray (a ++ b)%list).
Proof.
  induction a as [|x a IH]; [done|]. change ((x :: a) ++ b)%list with (x :: (a ++ b))%list.
  rewrite jsonArray_cons. unfold blen in *. destruct (0 <? _); lia.
Qed.

Section limit_theorems.
Context {T : Type} (encode : T → bytes) (minRowSize maxRows maxBytes : Z) (priority : T → T → comparison).

Lemma insertStable_perm (x : nat * T) (l : list (nat * T)) : insertStable priority x l ≡ₚ x :: l.
Proof.
  induction l as [|y l IH]; simpl; [done|]. destruct (priority x.2 y.2); [done|done|].
  rewrite IH. apply Permutation_swap.
Qed.

Lemma sortStable_perm (l : list (nat * T)) : sortStable priority l ≡ₚ l.
Proof. induction l as [|x l IH]; simpl; [done|]. by rewrite insertStable_perm, IH. Qed.

(** What the loop keeps true of its variables. *)
Record loopOk (l : list T) (kept size : Z) (encoded : list (option bytes)) : Prop := {
  lo_length : length encoded = length l;
  lo_kept : kept = Z.of_nat (length (omap id encoded));
  lo_size : size = blen (jsonArray (omap id encoded));
  lo_rows : ∀ i row, encoded !! i = Some (Some row) → ∃ x, l !! i = Some x ∧ row = encode x;
  lo_maxRows : kept ≤ maxRows;
  lo_maxBytes : size ≤ maxBytes
}.

(** The rows still to be seen. *)
Definition pendingOk (l : list T) (order : list (nat * T)) (encoded : list (option bytes)) : Prop :=
  NoDup order.*1 ∧ Forall (λ e, l !! e.1 = Some e.2 ∧ encoded !! e.1 = Some None) order.

Lemma pendingOk_cons (l : list T) (i : nat) (x : T) (order : list (nat * T)) (encoded : list (option bytes))
    (o : option bytes) :
  pendingOk l ((i, x) :: order) encoded → pendingOk l order encoded ∧ pendingOk l order (<[i := o]> encoded).
Proof.
  intros [[Hi Hnd]%NoDup_cons [_ Hall]%Forall_cons]. split; split; try done.
  rewrite Forall_forall in *. intros [j y] Hin. destruct (Hall _ Hin) as [? ?]. split; [done|].
  cbn [fst snd] in *. rewrite list_lookup_insert_ne; [done|]. intros <-. apply Hi. apply list_elem_of_fmap. by exists (i, y).
Qed.

(** Keeping one more row. *)
Lemma loopOk_keep (l : list T) (kept size : Z) (encoded : list (option bytes)) (i : nat) (x : T) :
  loopOk l kept size encoded → l !! i = Some x → encoded !! i = Some None → kept ≠ maxRows →
  size + (blen (encode x) + (if 0 <? kept then 1 else 0)) ≤ maxBytes →
  loopOk l (kept + 1) (size + (blen (encode x) + (if 0 <? kept then 1 else 0))) (<[i := Some (encode x)]> encoded).
Proof.
  intros [Hlen Hk Hs Hr Hmr Hmb] Hx Hi Hne Hfit. pose proof (omap_insert_None encoded i (encode x) Hi) as Hp.
  split.
  - by rewrite length_insert.
  - rewrite Hp. simpl. lia.
  - rewrite (jsonArray_perm _ _ Hp), jsonArray_cons. rewrite <-Hs, <-Hk. lia.
  - intros j row Hj. apply list_lookup_insert_Some in Hj as [(<- & [= <-] & _)|[_ Hj]]; eauto.
  - lia.
  - done.
Qed.

Lemma limitLoop_ok (l : list T) (order : list (nat * T)) (kept size : Z) (encoded : list (option bytes)) :
  loopOk l kept size encoded → pendingOk l order encoded →
  let '(kept', size', encoded') := limitLoop encode minRowSize maxRows maxBytes order kept size encoded in
  loopOk l kept' size' encoded'.
Proof.
  revert kept size encoded. induction order as [|[i x] order IH]; intros kept size encoded Hok Hpend; simpl; [done|].
  destruct (Z.eqb_spec kept maxRows) as [|Hne]; simpl; [done|].
  destruct (Z.ltb_spec (maxBytes - size) (minRowSize + 1)); [done|].
  destruct (pendingOk_cons _ _ _ _ _ (Some (encode x)) Hpend) as [Hp1 Hp2].
  destruct Hpend as [_ [[Hx Hi] _]%Forall_cons]. simpl in Hx, Hi.
  destruct (Z.ltb_spec maxBytes (size + (blen (encode x) + (if 0 <? kept then 1 else 0)))); [by apply IH|].
  apply IH; [by apply loopOk_keep|done].
Qed.

Lemma initial_ok (l : list T) :
  0 ≤ maxRows → 2 ≤ maxBytes →
  loopOk l 0 2 (replicate (length l) None) ∧
  pendingOk l (sortStable priority (imap pair l)) (replicate (length l) None).
Proof.
  intros Hr Hb. pose proof (omap_replicate_None (length l)) as Hnil. split.
  - split; rewrite ?Hnil; [by rewrite length_replicate|done|done| |done|done].
    intros i row [? _]%lookup_replicate. done.
  - split.
    + rewrite sortStable_perm, fmap_imap. simpl. unfold compose. simpl.
      rewrite imap_seq_0, list_fmap_id. apply NoDup_seq.
    + rewrite sortStable_perm. apply Forall_forall. intros [i x] (j & y & [= -> ->] & Hj)%elem_of_lookup_imap.
      split; [done|]. apply lookup_replicate. split; [done|]. by eapply lookup_lt_Some.
Qed.

Lemma keptRows_spec (l : list T) (encoded : list (option bytes)) :
  length encoded = length l →
  (∀ i row, encoded !! i = Some (Some row) → ∃ x, l !! i = Some x ∧ row = encode x) →
  omap id encoded = encode <$> keptRows l encoded ∧ keptRows l encoded `sublist_of` l.
Proof.
  unfold keptRows. revert encoded. induction l as [|x l IH]; intros [|e encoded] Hlen Hr; try done.
  injection Hlen as Hlen. destruct (IH encoded Hlen (λ i, Hr (S i))) as [IH1 IH2].
  destruct e as [row|]; simpl; [|split; [done|by apply sublist_cons]].
  destruct (Hr 0%nat row eq_refl) as (y & [= <-] & ->).
  split; [by f_equal|by apply sublist_skip].
Qed.

Lemma limit_bounds (l : list T) :
  0 ≤ maxRows → 2 ≤ maxBytes →
  let '(result, rows, dropped) := limit encode minRowSize maxRows maxBytes priority l in
  Z.of_nat (length result) ≤ maxRows ∧ blen (jsonArray rows) ≤ maxBytes ∧
  rows = encode <$> result ∧ result `sublist_of` l ∧ dropped = Z.of_nat (length l) - Z.of_nat (length result).
Proof.
  intros Hr Hb. unfold limit. destruct (initial_ok l Hr Hb) as [H1 H2].
  pose proof (limitLoop_ok l _ 0 2 _ H1 H2) as Hok.
  destruct (limitLoop _ _ _ _ _ 0 2 _) as [[kept size] encoded]. destruct Hok as [Hlen Hk Hs Hrows Hmr Hmb].
  destruct (keptRows_spec l encoded Hlen Hrows) as [E Hsub].
  assert (kept = Z.of_nat (length (keptRows l encoded))) as Hkept by (rewrite Hk, E, length_fmap; done).
  rewrite E. split_and!; [lia|by rewrite <-E, <-Hs|done|done|lia].
Qed.

(** ** Stopping early *)
(** The loop without the early stop: every row is encoded and tried. *)
Fixpoint greedyLoop (order : list (nat * T)) (kept size : Z) (encoded : list (option bytes)) :
    Z * Z * list (option bytes) :=
  match order with
  | [] => (kept, size, encoded)
  | (i, x) :: order =>
      let rowSize := blen (encode x) + (if 0 <? kept then 1 else 0) in
      if (kept <? maxRows) && (size + rowSize <=? maxBytes)
      then greedyLoop order (kept + 1) (size + rowSize) (<[i := Some (encode x)]> encoded)
      else greedyLoop order kept size encoded
  end.

(** A state in which no row can be added. *)
Lemma greedyLoop_full (order : list (nat * T)) (kept size : Z) (encoded : list (option bytes)) :
  (∀ x, minRowSize ≤ blen (encode x)) →
  maxRows ≤ kept ∨ 0 < kept ∧ maxBytes - size < minRowSize + 1 →
  greedyLoop order kept size encoded = (kept, size, encoded).
Proof.
  intros Hmin Hfull. induction order as [|[i x] order IH]; [done|]. simpl. specialize (Hmin x).
  destruct (Z.ltb_spec kept maxRows) as [Hk|]; simpl; [|done].
  destruct Hfull as [?|[Hpos Hsz]]; [lia|]. rewrite (proj2 (Z.ltb_lt 0 kept) Hpos).
  destruct (Z.leb_spec (size + (blen (encode x) + 1)) maxBytes); [lia|done].
Qed.

Lemma limitLoop_greedy (order : list (nat * T)) (kept size : Z) (encoded : list (option bytes)) :
  (∀ x, minRowSize ≤ blen (encode x)) → minRowSize + 3 ≤ maxBytes → 0 ≤ kept ≤ maxRows → (kept = 0 → size = 2) →
  limitLoop encode minRowSize maxRows maxBytes order kept size encoded = greedyLoop order kept size encoded.
Proof.
  intros Hmin Hmax. revert kept size encoded.
  induction order as [|[i x] order IH]; intros kept size encoded Hk Hs; [done|].
  destruct (decide (maxRows ≤ kept ∨ 0 < kept ∧ maxBytes - size < minRowSize + 1)) as [Hfull|Hnot].
  - rewrite greedyLoop_full by done. simpl. destruct (Z.eqb_spec kept maxRows); [done|]. simpl.
    destruct (Z.ltb_spec (maxBytes - size) (minRowSize + 1)); [done|lia].
  - simpl. destruct (Z.eqb_spec kept maxRows); [lia|].
    rewrite (proj2 (Z.ltb_lt kept maxRows)) by lia. simpl.
    destruct (Z.ltb_spec (maxBytes - size) (minRowSize + 1)).
    { assert (kept = 0) as Hz by lia. specialize (Hs Hz). lia. }
    destruct (Z.ltb_spec maxBytes (size + (blen (encode x) + (if 0 <? kept then 1 else 0)))).
    + rewrite (proj2 (Z.leb_gt _ _)) by done. by apply IH.
    + rewrite (proj2 (Z.leb_le _ _)) by done. apply IH; lia.
Qed.

(** ** Priorities *)
Lemma limitLoop_other (order : list (nat * T)) (kept size : Z) (encoded : list (option bytes)) (i : nat) :
  i ∉ order.*1 →
  let '(_, _, encoded') := limitLoop encode minRowSize maxRows maxBytes order kept size encoded in
  encoded' !! i = encoded !! i.
Proof.
  revert kept size encoded. induction order as [|[j x] order IH]; intros kept size encoded Hi; simpl; [done|].
  rewrite fmap_cons in Hi. apply not_elem_of_cons in Hi as [Hne Hi]. cbn [fst] in Hne.
  destruct ((kept =? maxRows) || _); [done|]. destruct (maxBytes <? _); [by apply IH|].
  specialize (IH (kept + 1) (size + (blen (encode x) + (if 0 <? kept then 1 else 0))) (<[j := Some (encode x)]> encoded) Hi).
  destruct (limitLoop _ _ _ _ order _ _ _) as [[? ?] encoded']. rewrite IH. by apply list_lookup_insert_ne.
Qed.

(** When every row that is left fits, the loop keeps the first ones. *)
Lemma limitLoop_prefix (l : list T) (order : list (nat * T)) (kept size : Z) (encoded : list (option bytes)) :
  (∀ x, minRowSize ≤ blen (encode x)) → minRowSize + 3 ≤ maxBytes →
  loopOk l kept size encoded → pendingOk l order encoded →
  blen (jsonArray (((λ e, encode e.2) <$> order) ++ omap id encoded)%list) ≤ maxBytes →
  let '(_, _, encoded') := limitLoop encode minRowSize maxRows maxBytes order kept size encoded in
  ∀ n i x, order !! n = Some (i, x) →
    encoded' !! i = Some (if bool_decide (Z.of_nat n < maxRows - kept) then Some (encode x) else None).
Proof.
  intros Hmin Hmax. revert kept size encoded.
  induction order as [|[i x] order IH]; intros kept size encoded Hok Hpend Hfit; [done|].
  destruct (pendingOk_cons _ _ _ _ _ (Some (encode x)) Hpend) as [Hp1 Hp2].
  pose proof Hpend as [[Hnot _]%NoDup_cons [[Hx Hi] _]%Forall_cons]. cbn [fst snd] in *.
  pose proof Hok as [Hlen Hk Hs _ Hmr _]. cbn [limitLoop].
  destruct (Z.eqb_spec kept maxRows) as [->|Hne]; simpl.
  { intros n j y Hn. rewrite bool_decide_false by lia. destruct Hpend as [_ Hall]. rewrite Forall_forall in Hall.
    apply list_elem_of_lookup_2 in Hn. by apply (Hall _ Hn). }
  set (row := encode x) in *. set (rowSize := blen row + (if 0 <? kept then 1 else 0)).
  assert (((λ e, encode e.2) <$> (i, x) :: order) ++ omap id encoded ≡ₚ
          ((λ e, encode e.2) <$> order) ++ row :: omap id encoded)%list as Hperm
    by (rewrite fmap_cons; simpl; by rewrite Permutation_middle).
  assert (size + rowSize ≤ maxBytes) as Hroom.
  { rewrite (jsonArray_perm _ _ Hperm) in Hfit.
    pose proof (jsonArray_app_le ((λ e, encode e.2) <$> order) (row :: omap id encoded)) as Hle.
    rewrite (jsonArray_cons row) in Hle. rewrite <-Hs, <-Hk in Hle. unfold rowSize. lia. }
  destruct (Z.ltb_spec (maxBytes - size) (minRowSize + 1)) as [Hstop|_].
  { exfalso. specialize (Hmin x). fold row in Hmin. unfold rowSize in Hroom.
    destruct (Z.ltb_spec 0 kept); [lia|]. assert (omap id encoded = []) as Hnil.
    { apply nil_length_inv. lia. }
    rewrite Hnil in Hs. change (blen (jsonArray [])) with 2 in Hs. lia. }
  rewrite (proj2 (Z.ltb_ge _ _)) by done.
  specialize (IH (kept + 1) (size + rowSize) (<[i := Some row]> encoded)).
  pose proof (limitLoop_other order (kept + 1) (size + rowSize) (<[i := Some row]> encoded) i Hnot) as Hother.
  destruct (limitLoop _ _ _ _ order _ _ _) as [[kept' size'] encoded'].
  assert (∀ n j y, order !! n = Some (j, y) →
    encoded' !! j = Some (if bool_decide (Z.of_nat n < maxRows - (kept + 1)) then Some (encode y) else None)) as IH'.
  { apply IH; [by apply loopOk_keep|done|].
    rewrite <-(jsonArray_perm _ _ (Permutation_app_head _ (symmetry (omap_insert_None encoded i row Hi)))).
    by rewrite <-(jsonArray_perm _ _ Hperm). }
  intros [|n] j y Hn; simpl in Hn.
  - injection Hn as <- <-. rewrite Hother, list_lookup_insert_eq by (by eapply lookup_lt_Some).
    rewrite bool_decide_true by lia. done.
  - rewrite (IH' n j y Hn). by rewrite (bool_decide_ext _ (Z.of_nat (S n) < maxRows - kept)) by lia.
Qed.

Lemma insertStable_sorted (x : nat * T) (l : list (nat * T)) :
  (∀ a b, priority a b = Gt → priority b a ≠ Gt) →
  (∀ a b c, priority a b ≠ Gt → priority b c ≠ Gt → priority a c ≠ Gt) →
  StronglySorted (λ a b, priority a.2 b.2 ≠ Gt) l →
  StronglySorted (λ a b, priority a.2 b.2 ≠ Gt) (insertStable priority x l).
Proof.
  intros Hanti Htrans. induction 1 as [|y l Hl IH Hy]; [repeat constructor|]. cbn [insertStable].
  assert (priority x.2 y.2 ≠ Gt → StronglySorted (λ a b, priority a.2 b.2 ≠ Gt) (x :: y :: l)) as Hle.
  { intros Hxy. constructor; [by constructor|]. constructor; [done|].
    eapply Forall_impl; [exact Hy|]. intros z Hz. by eapply Htrans. }
  destruct (priority x.2 y.2) eqn:Hp; [by apply Hle|by apply Hle|]. constructor; [done|].
  rewrite insertStable_perm. constructor; [by apply Hanti|done].
Qed.

Lemma sortStable_sorted (l : list (nat * T)) :
  (∀ a b, priority a b = Gt → priority b a ≠ Gt) →
  (∀ a b c, priority a b ≠ Gt → priority b c ≠ Gt → priority a c ≠ Gt) →
  StronglySorted (λ a b, priority a.2 b.2 ≠ Gt) (sortStable priority l).
Proof. intros ??. induction l as [|x l IH]; simpl; [constructor|]. by apply insertStable_sorted. Qed.

(** What is kept when the bytes suffice: the first rows by priority. *)
Lemma limit_prefix (l : list T) :
  (∀ x, minRowSize ≤ blen (encode x)) → minRowSize + 3 ≤ maxBytes → 0 ≤ maxRows → 2 ≤ maxBytes →
  blen (jsonArray (encode <$> l)) ≤ maxBytes →
  ∃ encoded, (limit encode minRowSize maxRows maxBytes priority l).1.1 = keptRows l encoded ∧
    length encoded = length l ∧
    ∀ n i x, sortStable priority (imap pair l) !! n = Some (i, x) →
      encoded !! i = Some (if bool_decide (Z.of_nat n < maxRows) then Some (encode x) else None).
Proof.
  intros Hmin Hmax Hr Hb Hfit. unfold limit. destruct (initial_ok l Hr Hb) as [H1 H2].
  pose proof (limitLoop_ok l _ 0 2 _ H1 H2) as Hok.
  pose proof (limitLoop_prefix l (sortStable priority (imap pair l)) 0 2 (replicate (length l) None) Hmin Hmax H1 H2)
    as Hpre.
  destruct (limitLoop _ _ _ _ _ 0 2 _) as [[kept size] encoded]. exists encoded. destruct Hok as [Hlen _ _ _ _ _].
  split; [done|]. split; [done|]. intros n i x Hn.
  rewrite (bool_decide_ext _ (Z.of_nat n < maxRows - 0)) by lia. apply Hpre; [|done].
  rewrite omap_replicate_None.
  rewrite app_nil_r, (jsonArray_perm _ (encode <$> l)); [done|].
  rewrite sortStable_perm, fmap_imap. exact (reflexive_eq _ _ (imap_const encode l)).
Qed.
End limit_theorems.

(** ** The two lists *)
(** The lists sent are within their limits: at most 500 services in 512 KiB
    and 5000 metric rows in 1 MiB of JSON; the rows kept are a part of the list,
    in its order, sent as they are encoded, and the number left out is right. *)
Theorem limits_hold (services : list RowState) (metrics : list MetricState) :
  (let '(result, rows, dropped) := limitServices services in
   (length result ≤ 500)%nat ∧ blen (jsonArray rows) ≤ 524288 ∧ rows = encodeRow <$> result ∧
   result `sublist_of` services ∧ dropped = Z.of_nat (length services) - Z.of_nat (length result)) ∧
  (let '(result, rows, dropped) := limitMetrics metrics in
   (length result ≤ 5000)%nat ∧ blen (jsonArray rows) ≤ 1048576 ∧ rows = encodeMetric <$> result ∧
   result `sublist_of` metrics ∧ dropped = Z.of_nat (length metrics) - Z.of_nat (length result)).
Proof.
  split.
  - pose proof (limit_bounds encodeRow minRow maxServices maxServicesBytes servicePriority services) as H.
    unfold limitServices. destruct (limit _ _ _ _ _ services) as [[result rows] dropped].
    destruct H as (H1 & H2 & H); [done|done|]. unfold maxServices in H1. split; [lia|done].
  - pose proof (limit_bounds encodeMetric minMetric maxMetrics maxMetricsBytes (λ a b, msCount b ?= msCount a) metrics) as H.
    unfold limitMetrics. destruct (limit _ _ _ _ _ metrics) as [[result rows] dropped].
    destruct H as (H1 & H2 & H); [done|done|]. unfold maxMetrics in H1. split; [lia|done].
Qed.

(** Stopping the loop once no row can fit changes nothing: for both lists the
    result is that of the greedy choice that encodes and tries every row. *)
Theorem limits_greedy (services : list RowState) (metrics : list MetricState) :
  limitLoop encodeRow minRow maxServices maxServicesBytes (sortStable servicePriority (imap pair services)) 0 2
    (replicate (length services) None) =
  greedyLoop encodeRow maxServices maxServicesBytes (sortStable servicePriority (imap pair services)) 0 2
    (replicate (length services) None) ∧
  limitLoop encodeMetric minMetric maxMetrics maxMetricsBytes
    (sortStable (λ a b, msCount b ?= msCount a) (imap pair metrics)) 0 2 (replicate (length metrics) None) =
  greedyLoop encodeMetric maxMetrics maxMetricsBytes
    (sortStable (λ a b, msCount b ?= msCount a) (imap pair metrics)) 0 2 (replicate (length metrics) None).
Proof.
  split; apply limitLoop_greedy; try done.
  - apply encodeRow_length.
  - apply encodeMetric_length.
Qed.

Lemma servicePriority_problem (a b : RowState) :
  servicePriority a b ≠ Gt ↔ (hasProblem b = true → hasProblem a = true).
Proof. unfold servicePriority. destruct (hasProblem a), (hasProblem b); naive_solver. Qed.

Lemma keptRows_cons {T : Type} (x : T) (l : list T) (e : option bytes) (encoded : list (option bytes)) :
  keptRows (x :: l) (e :: encoded) = match e with Some _ => x :: keptRows l encoded | None => keptRows l encoded end.
Proof. by destruct e. Qed.

(** The rows with a property are all kept. *)
Lemma keptRows_filter {T : Type} (P : T → bool) (l : list T) (encoded : list (option bytes)) :
  length encoded = length l → (∀ i x, l !! i = Some x → P x = true → ∃ row, encoded !! i = Some (Some row)) →
  filter P (keptRows l encoded) = filter P l.
Proof.
  revert encoded. induction l as [|x l IH]; intros [|e encoded] Hlen H; try done.
  injection Hlen as Hlen. specialize (IH encoded Hlen (λ i, H (S i))). rewrite keptRows_cons. destruct e as [row|].
  - by rewrite !filter_cons, IH.
  - rewrite (filter_cons _ x l), decide_False; [done|]. intros HP%Is_true_true.
    by destruct (H 0%nat x eq_refl HP).
Qed.

Lemma keptRows_Forall {T : Type} (P : T → Prop) (l : list T) (encoded : list (option bytes)) :
  (∀ i x row, l !! i = Some x → encoded !! i = Some (Some row) → P x) → Forall P (keptRows l encoded).
Proof.
  revert encoded. induction l as [|x l IH]; intros [|e encoded] H; try constructor.
  specialize (IH encoded (λ i, H (S i))). rewrite keptRows_cons. destruct e as [row|]; [|done].
  constructor; [by apply (H 0%nat x row)|done].
Qed.

(** A service with a problem is not left out for one without: as long as the
    rows fit in the byte limit, either every service with a problem is kept, or
    every service kept has a problem; and a list within the limits is kept whole. *)
Theorem limitServices_priority (services : list RowState) :
  blen (jsonArray (encodeRow <$> services)) ≤ maxServicesBytes →
  let '(result, _, _) := limitServices services in
  (filter hasProblem result = filter hasProblem services ∨ Forall (λ r, hasProblem r = true) result) ∧
  ((length services ≤ 500)%nat → result = services).
Proof.
  intros Hfit. pose proof (limit_prefix encodeRow minRow maxServices maxServicesBytes servicePriority services
    encodeRow_length) as H.
  unfold limitServices. destruct (limit _ _ _ _ _ services) as [[result rows] dropped].
  destruct H as (encoded & Hres & Hlen & Hpre); [done|done|done|done|]. cbn [fst] in Hres. subst result.
  set (order := sortStable servicePriority (imap pair services)) in *.
  assert (∀ i x, services !! i = Some x → ∃ n, order !! n = Some (i, x)) as Hpos.
  { intros i x Hi. apply list_elem_of_lookup_1. unfold order. rewrite sortStable_perm.
    apply elem_of_lookup_imap. by exists i, x. }
  assert (length order = length services) as Hlo by (unfold order; rewrite sortStable_perm; apply length_imap).
  split.
  - destruct (decide (Exists (λ e, hasProblem e.2 = true) (drop 500 order))) as [Hex|Hnex].
    + right. apply keptRows_Forall. intros i x row Hi Hrow. destruct (Hpos i x Hi) as [n Hn].
      rewrite (Hpre n i x Hn) in Hrow. case_bool_decide as Hlt; [|done]. unfold maxServices in Hlt.
      apply Exists_exists in Hex as ([j y] & Hin & Hy). apply list_elem_of_lookup in Hin as [m Hm].
      rewrite lookup_drop in Hm. simpl in Hy.
      assert (servicePriority x y ≠ Gt) as Hp; [|exact (proj1 (servicePriority_problem x y) Hp Hy)].
      apply (StronglySorted_lookup (λ a b, servicePriority a.2 b.2 ≠ Gt) order n (500 + m) (i, x) (j, y)); [|lia|done|done].
      apply sortStable_sorted.
      * intros a b. unfold servicePriority. by destruct (hasProblem a), (hasProblem b).
      * intros a b c. rewrite !servicePriority_problem. auto.
    + left. apply keptRows_filter; [done|]. intros i x Hi Hx. destruct (Hpos i x Hi) as [n Hn].
      rewrite (Hpre n i x Hn). rewrite bool_decide_true; [by eexists|]. unfold maxServices.
      destruct (decide (Z.of_nat n < 500)); [done|]. destruct Hnex. apply Exists_exists. exists (i, x). split; [|done].
      apply list_elem_of_lookup. exists (n - 500)%nat. rewrite lookup_drop. by replace (500 + (n - 500))%nat with n by lia.
  - intros Hsmall. trans (filter (λ _ : RowState, true) (keptRows services encoded)); [by rewrite filter_all by (by apply Forall_true)|].
    rewrite (keptRows_filter (λ _, true) services encoded Hlen); [by apply filter_all, Forall_true|].
    intros i x Hi _. destruct (Hpos i x Hi) as [n Hn]. rewrite (Hpre n i x Hn), bool_decide_true; [by eexists|].
    apply lookup_lt_Some in Hn. unfold maxServices. lia.
Qed.

Definition sampleRow (name error : string) : RowState :=
  mkRow (mkServiceState name "redis" "" "" true true error InputStatusOK false false false 0) "uuid" MetricsSome.

Lemma limitServices_priority_witness :
  let services := [sampleRow "a" ""; sampleRow "b" "refused"] in
  let '(result, _, _) := limitServices services in
  (filter hasProblem result = filter hasProblem services ∨ Forall (λ r, hasProblem r = true) result) ∧
  ((length services ≤ 500)%nat → result = services).
Proof. apply (limitServices_priority [sampleRow "a" ""; sampleRow "b" "refused"]). vm_compute. discriminate. Defined.
