(* ===== verification/MetricsState.v ===== *)
(** The metrics that can be registered and the report on the others (bleemeo/internal/synchronizer/metrics.go,
    bleemeo/internal/filter/metric_filter.go, bleemeo/types): the filter of the plan, the dependencies that are
    missing, the order of the registration, and the counts of the metrics that are not registered, by name and
    reason.

    [AgentType_Agent] is the name of the type of this agent in the library of the API.  [range] is the order in which
    Go visits a map, [sortSlice] is [sort.Slice], which is not stable. *)
From S2P Require Import Prelude Labels Bytes Json Services MetricRegister Limits.

#[local] Open Scope string_scope.
#[local] Open Scope Z_scope.

(** * Reasons *)
Inductive DenyReason : Set :=
  NotDenied | DenyNotAvailableInCurrentPlan | DenyErrorOccurred | DenyNoDockerIntegration | DenyItemTooLong | DenyMissingContainerID.

Definition ReasonPending : string := "pending".
Definition ReasonUnknown : string := "unknown".
Definition ReasonNotAllowed : string := "not-allowed".
Definition ReasonTooManyStandardMetrics : string := "too-many-standard-metrics".
Definition ReasonTooManyCustomMetrics : string := "too-many-custom-metrics".
Definition ReasonNotAvailableInPlan : string := "not-available-in-plan".
Definition ReasonErrorOccurred : string := "error-occurred".
Definition ReasonNoDockerIntegration : string := "no-docker-integration".
Definition ReasonItemTooLong : string := "item-too-long".
Definition ReasonMissingContainerID : string := "missing-container-id".
Definition ReasonWaitingContainer : string := "waiting-container".
Definition ReasonWaitingService : string := "waiting-service".
Definition ReasonWaitingAccountConfig : string := "waiting-account-config".

Definition failureReason (kind : FailureKind) : string :=
  match kind with
  | FailureAllowList => ReasonNotAllowed
  | FailureTooManyStandardMetrics => ReasonTooManyStandardMetrics
  | FailureTooManyCustomMetrics => ReasonTooManyCustomMetrics
  | FailureUnknown => ReasonUnknown
  end.

Definition denyReason (d : DenyReason) : string :=
  match d with
  | DenyNotAvailableInCurrentPlan => ReasonNotAvailableInPlan
  | DenyErrorOccurred => ReasonErrorOccurred
  | DenyNoDockerIntegration => ReasonNoDockerIntegration
  | DenyItemTooLong => ReasonItemTooLong
  | DenyMissingContainerID => ReasonMissingContainerID
  | NotDenied => ReasonUnknown
  end.

(** * Data *)
Definition APIMetricItemLength : Z := 250.
Definition APIServiceInstanceLength : Z := 250.
Definition MissingContainerID : string := "missing-container-id".

(** [map[string]bool]; the allow list of an agent configuration is the part of it used here. *)
Notation allowlist := (gmap string bool).

Record AccountConfig := mkAccountConfig {
  DockerIntegration : bool; AgentConfigByName : gmap string allowlist; AgentConfigByID : gmap string allowlist }.

(** The cache: the identifiers of the containers and services, the types of the agents, the agents and accounts of the
    monitors. *)
Record cache := mkCache {
  ccConfig : option AccountConfig;
  ccProbeConfigs : gmap string allowlist;
  ccMonitors : list (string * string);
  ccAgents : gmap string string;
  ccContainers : gmap string string;
  ccServices : gmap NameInstance string;
  ccMetrics : list Metric;
  ccFails : list MetricRegistration
}.

Definition MonitorsByAgentUUID (c : cache) : gmap string string :=
  foldl (λ result v, <[v.1 := v.2]> result) ∅ (ccMonitors c).

Definition MetricRegistrationsFailByKey (c : cache) : gmap string MetricRegistration :=
  foldl (λ m v, <[rgLabelsText v := v]> m) ∅ (ccFails c).

(** * The filter of the plan *)
Record Filter := mkFilter {
  fConfig : AccountConfig; fProbeConfigs : gmap string allowlist; fAgents : gmap string string; fMonitors : gmap string string }.

Definition NewFilterWithConfig (c : cache) (currentConfig : AccountConfig) : Filter :=
  mkFilter currentConfig (ccProbeConfigs c) (ccAgents c) (MonitorsByAgentUUID c).

(** [metricStateKey]: a name and a reason. *)
Notation counts := (gmap (string * string) Z).

(** What the synchronizer keeps for the report. *)
Record reportState := mkReport {
  stagedNotRegistered : counts; notRegisteredMetrics : counts; registrationMetrics : counts; metricsStatePublished : bool }.

(** The order of the report: by name, then by reason. *)
Definition reportLe (a b : MetricState) : Prop :=
  if decide (msName a = msName b) then String.le (msReason a) (msReason b) else String.le (msName a) (msName b).

#[global] Instance reportLe_dec : RelDecision reportLe.
Proof. intros a b. unfold reportLe. destruct (decide (msName a = msName b)); apply _. Defined.

#[global] Instance reportLe_total : Total reportLe.
Proof.
  intros a b. unfold reportLe. destruct (decide (msName a = msName b)) as [->|Hn]; [rewrite decide_True by done; apply (total String.le)|].
  rewrite decide_False by congruence. apply (total String.le).
Qed.

#[global] Instance reportLe_trans : Transitive reportLe.
Proof.
  intros a b c. unfold reportLe. destruct (decide (msName a = msName b)) as [->|Hab].
  - intros H. destruct (decide (msName b = msName c)); [|done]. by transitivity (msReason b).
  - intros H1. destruct (decide (msName b = msName c)) as [Hbc|Hbc]; intros H2.
    + by rewrite decide_False, <- Hbc by congruence.
    + destruct (decide (msName a = msName c)) as [Hac|]; [|by transitivity (msName b)].
      destruct Hab. apply (anti_symm String.le); [done|by rewrite Hac].
Qed.

Section State.
Variable AgentType_Agent : string.
Variable agentID : string.

(** The list of a metric, or an error. *)
Definition allowListForMetric (f : Filter) (annotations : MetricAnnotations) : option allowlist :=
  if bool_decide (BleemeoAgentID annotations ≠ "") then
    match fMonitors f !! BleemeoAgentID annotations with
    | Some account => fProbeConfigs f !! account
    | None =>
        match fAgents f !! BleemeoAgentID annotations with
        | None => None
        | Some agentType => AgentConfigByID (fConfig f) !! agentType
        end
    end
  else AgentConfigByName (fConfig f) !! AgentType_Agent.

(** The decision, its reason, and whether there is an error. *)
Definition IsAllowed (f : Filter) (lbls : Labels) (annotations : MetricAnnotations) : bool * DenyReason * bool :=
  match allowListForMetric f annotations with
  | None => (false, DenyErrorOccurred, true)
  | Some allowed =>
      if (APIMetricItemLength <? Z.of_nat (String.length (lget lbls LabelItem)))
         || bool_decide (ServiceName annotations ≠ "") && (APIServiceInstanceLength <? Z.of_nat (String.length (ServiceInstance annotations)))
      then (false, DenyItemTooLong, false)
      else if negb (DockerIntegration (fConfig f)) && bool_decide (ContainerID annotations ≠ "")
              && negb (IgnoreContainer (DockerIntegration (fConfig f)) lbls)
      then (false, DenyNoDockerIntegration, false)
      else if bool_decide (ContainerID annotations = MissingContainerID) then (false, DenyMissingContainerID, false)
      else if bool_decide (allowed = ∅) then (true, NotDenied, false)
      else if default false (allowed !! lget lbls LabelName) then (true, NotDenied, false)
      else (false, DenyNotAvailableInCurrentPlan, false)
  end.

(** * What can be registered *)
Definition countNotRegistered (c : counts) (m : localMetric) (reason : string) : counts :=
  if negb (IsOwnMetric (lmAnnotations m) agentID) then c
  else
    let name := lget (lmLabels m) LabelName in
    if bool_decide (name = "") then c
    else <[(name, reason) := default 0 (c !! (name, reason)) + 1]> c.

Definition filterOne (f : Filter) (acc : list localMetric * counts) (m : localMetric) : list localMetric * counts :=
  let '(result, notRegistered) := acc in
  match IsAllowed f (lmLabels m) (lmAnnotations m) with
  | (_, _, true) => (result, countNotRegistered notRegistered m ReasonErrorOccurred)
  | (true, _, false) => ((result ++ [m])%list, notRegistered)
  | (false, reason, false) => (result, countNotRegistered notRegistered m (denyReason reason))
  end.

Definition excludeOne (c : cache) (cfg : AccountConfig) (acc : list localMetric * counts) (m : localMetric) : list localMetric * counts :=
  let '(result, notRegistered) := acc in
  let a := lmAnnotations m in
  if bool_decide (ContainerID a ≠ "") && negb (IgnoreContainer (DockerIntegration cfg) (lmLabels m))
     && bool_decide (ccContainers c !! ContainerID a = None)
  then (result, countNotRegistered notRegistered m ReasonWaitingContainer)
  else if bool_decide (ServiceName a ≠ "") && bool_decide (ccServices c !! mkNameInstance (ServiceName a) (ServiceInstance a) = None)
  then (result, countNotRegistered notRegistered m ReasonWaitingService)
  else ((result ++ [m])%list, notRegistered).

Definition excludeUnregistrableMetrics (c : cache) (cfg : AccountConfig) (notRegistered : counts) (metrics : list localMetric) :
    list localMetric * counts :=
  foldl (excludeOne c cfg) ([], notRegistered) metrics.

Definition setStaged (st : reportState) (staged : counts) : reportState :=
  mkReport staged (notRegisteredMetrics st) (registrationMetrics st) (metricsStatePublished st).

Definition filterMetrics (c : cache) (st : reportState) (input : list localMetric) : reportState * list localMetric :=
  match ccConfig c with
  | None => (setStaged st (foldl (λ n m, countNotRegistered n m ReasonWaitingAccountConfig) ∅ input), [])
  | Some cfg =>
      let '(result, notRegistered) := foldl (filterOne (NewFilterWithConfig c cfg)) ([], ∅) input in
      let '(result, notRegistered) := excludeUnregistrableMetrics c cfg notRegistered result in
      (setStaged st notRegistered, result)
  end.

Definition localKey (m : localMetric) : string := MetricKey (lmLabels m) (lmAnnotations m) agentID.

Definition findUnregisteredMetrics (c : cache) (metrics : list localMetric) : list localMetric :=
  foldl (λ result v, if bool_decide (is_Some (MetricLookupFromList (ccMetrics c) !! localKey v)) then result else (result ++ [v])%list) [] metrics.

Definition findUnregisteredMetricsWithKeys (c : cache) (metrics : list localMetric) : list localMetric * list string :=
  foldl (λ '(result, keys) v,
    if bool_decide (is_Some (MetricLookupFromList (ccMetrics c) !! localKey v)) then (result, keys)
    else ((result ++ [v])%list, (keys ++ [localKey v])%list)) ([], []) metrics.

(** [None]: a metric has no key. *)
Fixpoint countRegistration (failedByKey : gmap string MetricRegistration) (registration : counts) (unregistered : list localMetric)
    (keys : list string) : option counts :=
  match unregistered, keys with
  | [], _ => Some registration
  | metric :: unregistered, keys =>
      let name := lget (lmLabels metric) LabelName in
      if bool_decide (name = "") || negb (IsOwnMetric (lmAnnotations metric) agentID)
      then countRegistration failedByKey registration unregistered (tail keys)
      else
        match keys with
        | [] => None
        | key :: keys =>
            let reason := match failedByKey !! key with Some failure => failureReason (rgLastFailKind failure) | None => ReasonPending end in
            countRegistration failedByKey (<[(name, reason) := default 0 (registration !! (name, reason)) + 1]> registration) unregistered keys
        end
  end.

Definition publishMetricsState (c : cache) (st : reportState) (unregistered : list localMetric) (keys : list string) : option reportState :=
  registration ← countRegistration (MetricRegistrationsFailByKey c) ∅ unregistered keys;
  Some (mkReport (stagedNotRegistered st) (stagedNotRegistered st) registration true).

Definition addCounts (range : counts → list (string * string * Z)) (c added : counts) : counts :=
  foldl (λ c '(key, count), <[key := default 0 (c !! key) + count]> c) c (range added).

Definition metricsState (range : counts → list (string * string * Z)) (st : reportState) : list MetricState * bool :=
  let c := addCounts range (notRegisteredMetrics st) (registrationMetrics st) in
  (merge_sort reportLe ((λ '(key, count), mkMetricState key.1 key.2 count) <$> range c), metricsStatePublished st).
End State.

(** * The order of the registration *)
Definition essentials : list string :=
  ["cpu_idle"; "cpu_wait"; "cpu_nice"; "cpu_user"; "cpu_system"; "cpu_interrupt"; "cpu_softirq"; "cpu_steal"; "cpu_guest_nice"; "cpu_guest";
   "mem_free"; "mem_cached"; "mem_buffered"; "mem_used"; "io_utilization"; "io_read_bytes"; "io_write_bytes"; "io_reads";
   "io_writes"; "net_bits_recv"; "net_bits_sent"; "net_packets_recv"; "net_packets_sent"; "net_err_in"; "net_err_out"; "disk_used_perc";
   "swap_used_perc"; "cpu_used"; "mem_used_perc"; "agent_config_warning"; agentStatusName].

Definition highCard : list string :=
  ["net_bits_recv"; "net_bits_sent"; "net_packets_recv"; "net_packets_sent"; "net_err_in"; "net_err_out"; "disk_used_perc"].

Definition important : list string :=
  ["cpu_used_status"; "disk_used_perc_status"; "mem_used_perc_status"; "swap_used_perc_status";
   "system_pending_security_updates"; "system_pending_security_updates_status"].

(** A dot of a regular expression: any rune but a newline; a byte that is not UTF-8 is one. *)
Definition anyRune (l : bytes) : option bytes :=
  match l with
  | [] => None
  | b :: _ => if b =? 10 then None else Some (drop (default 1%nat (runeSize l)) l)
  end.

Definition aDigit (b : Z) : bool := between 48 57 b.

(** [(.\d)?$] *)
Definition dotDigitEnd (l : bytes) : bool :=
  match l with
  | [] => true
  | _ => match anyRune l with Some [d] => aDigit d | _ => false end
  end.

(** [(\d|1\d)(.\d)?$] *)
Definition digitsEnd (l : bytes) : bool :=
  match l with
  | d :: rest =>
      (aDigit d && dotDigitEnd rest)
      || ((d =? 49) && match rest with e :: rest => aDigit e && dotDigitEnd rest | [] => false end)
  | [] => false
  end.

(** The regular expression [^(/|/home|/var|/srv|eth.|eno.|en(s|p)(\d|1\d)(.\d)?)$]. *)
Definition IsSignificantItem (item : string) : bool :=
  bool_decide (item ∈ ["/"; "/home"; "/var"; "/srv"])
  || match str item with
     | 101 :: 116 :: 104 :: rest => bool_decide (anyRune rest = Some [])
     | 101 :: 110 :: b :: rest =>
         ((b =? 111) && bool_decide (anyRune rest = Some [])) || (((b =? 115) || (b =? 112)) && digitsEnd rest)
     | _ => false
     end.

Definition getItem (metric : Labels) : string :=
  let item := lget metric "item" in
  let device := lget metric "device" in
  if bool_decide (item ≠ "") then item else if bool_decide (device ≠ "") then device else lget metric "mountpoint".

(** [strings.HasSuffix] *)
Definition hasSuffix (s suffix : string) : bool :=
  (String.length suffix <=? String.length s)%nat && bool_decide (String.substring (String.length s - String.length suffix) (String.length suffix) s = suffix).

Definition KeepInOnlyEssential (metric : Labels) : bool :=
  let name := lget metric LabelName in
  bool_decide (name ∈ essentials) && (negb (bool_decide (name ∈ highCard)) || IsSignificantItem (getItem metric)).

Definition importanceWeight (metric : Labels) : Z :=
  let name := lget metric LabelName in
  let item := getItem metric in
  let essential := bool_decide (name ∈ essentials) in
  let significant := negb (bool_decide (name ∈ highCard)) || IsSignificantItem item in
  let isImportant := bool_decide (name ∈ important) in
  let seemsStatus := hasSuffix name "_status" in
  if essential && bool_decide (item = "") then 0
  else if essential && significant then 10
  else if isImportant && significant then 20
  else if seemsStatus && significant then 30
  else if essential then 40
  else if isImportant then 50
  else if seemsStatus then 60
  else 70.

Definition isLess (metricA metricB : Labels) : bool :=
  let weightA := importanceWeight metricA in
  let weightB := importanceWeight metricB in
  if weightA <? weightB then true
  else if weightB <? weightA then false
  else if (size metricA <? size metricB)%nat then true
  else (size metricA =? size metricB)%nat && bool_decide (¬ String.le (getItem metricB) (getItem metricA)).

Definition prioritizeAndFilterMetrics (sortSlice : (localMetric → localMetric → bool) → list localMetric → list localMetric)
    (metrics : list localMetric) (onlyEssential : bool) : list localMetric :=
  let metrics := if onlyEssential then base.filter (λ m, KeepInOnlyEssential (lmLabels m) = true) metrics else metrics in
  sortSlice (λ a b, isLess (lmLabels a) (lmLabels b)) metrics.

(** * What the report says *)
Section Report.
Variable AgentType_Agent : string.
Variable agentID : string.
Variable range : counts → list (string * string * Z).
Hypothesis range_perm : ∀ c, range c ≡ₚ map_to_list c.

#[local] Notation filterMetrics := (filterMetrics AgentType_Agent agentID).
#[local] Notation countNotRegistered := (countNotRegistered agentID).
#[local] Notation localKey := (localKey agentID).

(** Why the filter drops a metric. *)
Definition whyDenied (f : Filter) (m : localMetric) : option string :=
  match IsAllowed AgentType_Agent f (lmLabels m) (lmAnnotations m) with
  | (_, _, true) => Some ReasonErrorOccurred
  | (true, _, false) => None
  | (false, reason, false) => Some (denyReason reason)
  end.

(** What a metric waits for. *)
Definition whyWaiting (c : cache) (cfg : AccountConfig) (m : localMetric) : option string :=
  let a := lmAnnotations m in
  if bool_decide (ContainerID a ≠ "") && negb (IgnoreContainer (DockerIntegration cfg) (lmLabels m))
     && bool_decide (ccContainers c !! ContainerID a = None) then Some ReasonWaitingContainer
  else if bool_decide (ServiceName a ≠ "") && bool_decide (ccServices c !! mkNameInstance (ServiceName a) (ServiceInstance a) = None)
  then Some ReasonWaitingService
  else None.

Definition whyFiltered (c : cache) (m : localMetric) : option string :=
  match ccConfig c with
  | None => Some ReasonWaitingAccountConfig
  | Some cfg => match whyDenied (NewFilterWithConfig c cfg) m with Some r => Some r | None => whyWaiting c cfg m end
  end.

(** Why a metric that is not filtered is not registered. *)
Definition whyUnregistered (c : cache) (m : localMetric) : option string :=
  if bool_decide (is_Some (MetricLookupFromList (ccMetrics c) !! localKey m)) then None
  else Some (match MetricRegistrationsFailByKey c !! localKey m with Some failure => failureReason (rgLastFailKind failure) | None => ReasonPending end).

Definition either (f g : localMetric → option string) (m : localMetric) : option string := match f m with Some r => Some r | None => g m end.

(** The metrics of this agent with the name and the reason of a key. *)
Definition reported (why : localMetric → option string) (k : string * string) (m : localMetric) : bool :=
  IsOwnMetric (lmAnnotations m) agentID && bool_decide (lget (lmLabels m) LabelName = k.1) && bool_decide (k.1 ≠ "")
  && bool_decide (why m = Some k.2).

Definition number (why : localMetric → option string) (k : string * string) (l : list localMetric) : Z :=
  Z.of_nat (length (base.filter (λ m, reported why k m = true) l)).

(** A table counts as [n] does: it has the keys with a positive number. *)
Definition counting (c : counts) (n : string * string → Z) : Prop :=
  ∀ k, c !! k = if decide (0 < n k) then Some (n k) else None.

Lemma number_cons (why : localMetric → option string) (k : string * string) (m : localMetric) (l : list localMetric) :
  number why k (m :: l) = (if reported why k m then 1 else 0) + number why k l.
Proof. unfold number. rewrite filter_cons. destruct (reported why k m); [rewrite decide_True by done|rewrite decide_False by done]; cbn [length]; lia. Qed.

Lemma number_nonneg (why : localMetric → option string) (k : string * string) (l : list localMetric) : 0 ≤ number why k l.
Proof. unfold number. lia. Qed.

Lemma number_perm (why : localMetric → option string) (k : string * string) (l l' : list localMetric) : l ≡ₚ l' → number why k l = number why k l'.
Proof. intros H. unfold number. by rewrite H. Qed.

Lemma reported_ext (f g : localMetric → option string) (k : string * string) (m : localMetric) : f m = g m → reported f k m = reported g k m.
Proof. intros H. unfold reported. by rewrite H. Qed.

Lemma number_ext (f g : localMetric → option string) (k : string * string) (l : list localMetric) : (∀ m, f m = g m) → number f k l = number g k l.
Proof. intros H. unfold number. do 2 f_equal. apply list_filter_iff. intros m. by rewrite (reported_ext f g). Qed.

Lemma reported_none (f : localMetric → option string) (k : string * string) (m : localMetric) : f m = None → reported f k m = false.
Proof. intros H. unfold reported. rewrite H. by rewrite (bool_decide_false (None = _)), andb_false_r. Qed.

(** The metrics dropped by [f], and those dropped by [g] among the others. *)
Lemma number_either (f g : localMetric → option string) (k : string * string) (l : list localMetric) :
  number f k l + number g k (base.filter (λ m, f m = None) l) = number (either f g) k l.
Proof.
  induction l as [|m l IH]; [done|]. rewrite filter_cons, !number_cons. destruct (decide (f m = None)) as [Hf|Hf].
  - rewrite number_cons, (reported_none f k m Hf), (reported_ext (either f g) g k m) by (unfold either; by rewrite Hf). lia.
  - rewrite (reported_ext (either f g) f k m); [lia|]. unfold either. by destruct (f m).
Qed.

Lemma counted_step (c : counts) (n : string * string → Z) (name reason : string) :
  counting c n → (∀ k, 0 ≤ n k) →
  counting (<[(name, reason) := default 0 (c !! (name, reason)) + 1]> c) (λ k, n k + if bool_decide (k = (name, reason)) then 1 else 0).
Proof.
  intros H Hn k. specialize (Hn k) as Hk. destruct (decide (k = (name, reason))) as [->|Hne].
  - rewrite lookup_insert_eq, bool_decide_true by done. rewrite H. specialize (Hn (name, reason)).
    destruct (decide (0 < n (name, reason))); cbn; rewrite decide_True by lia; f_equal; lia.
  - rewrite lookup_insert_ne by done. rewrite bool_decide_false by done. rewrite H, Z.add_0_r. done.
Qed.

Lemma countNotRegistered_counting (why : localMetric → option string) (c : counts) (n : string * string → Z) (m : localMetric) (reason : string) :
  why m = Some reason → counting c n → (∀ k, 0 ≤ n k) →
  counting (countNotRegistered c m reason) (λ k, n k + if reported why k m then 1 else 0).
Proof.
  intros Hw H Hn. unfold MetricsState.countNotRegistered, reported. rewrite Hw.
  destruct (IsOwnMetric _ _); cbn [negb andb]; [|intros k; by rewrite H, Z.add_0_r].
  case_bool_decide as Hname.
  - intros k. rewrite H, Hname. replace (bool_decide ("" = k.1) && bool_decide (k.1 ≠ "") && _) with false; [by rewrite Z.add_0_r|].
    symmetry. destruct (decide (k.1 = "")) as [He|]; [by rewrite (bool_decide_false (k.1 ≠ "")), andb_false_r by tauto|]. by rewrite (bool_decide_false ("" = k.1)) by congruence.
  - intros k. rewrite (counted_step c n _ reason H Hn). destruct k as [name r]. cbn [fst snd].
    replace (bool_decide (lget _ _ = name) && _ && _) with (bool_decide ((name, r) = (lget (lmLabels m) LabelName, reason))); [done|].
    destruct (decide (lget (lmLabels m) LabelName = name)) as [<-|].
    + rewrite (bool_decide_true (lget (lmLabels m) LabelName = lget (lmLabels m) LabelName)), (bool_decide_true (_ ≠ _)) by done. cbn. apply bool_decide_ext. split; [by intros [= ->]|by intros [= ->]].
    + rewrite (bool_decide_false (_ = name)) by done. cbn. apply bool_decide_false. congruence.
Qed.

(** A loop that keeps the metrics without a reason and counts the others. *)
Lemma loop_counting (why : localMetric → option string) (step : list localMetric * counts → localMetric → list localMetric * counts)
    (l result : list localMetric) (c : counts) (n : string * string → Z) :
  (∀ result c m, step (result, c) m =
     match why m with Some r => (result, countNotRegistered c m r) | None => ((result ++ [m])%list, c) end) →
  counting c n → (∀ k, 0 ≤ n k) →
  (foldl step (result, c) l).1 = (result ++ base.filter (λ m, why m = None) l)%list ∧
  counting (foldl step (result, c) l).2 (λ k, n k + number why k l).
Proof.
  intros Hstep. revert result c n. induction l as [|m l IH]; intros result c n Hc Hn.
  - split; [by rewrite app_nil_r|]. intros k. cbn [foldl snd]. by rewrite Hc, Z.add_0_r.
  - cbn [foldl]. rewrite Hstep, filter_cons. destruct (why m) as [r|] eqn:Hw.
    + destruct (IH result (countNotRegistered c m r) (λ k, n k + if reported why k m then 1 else 0)) as [H1 H2].
      { by apply countNotRegistered_counting. }
      { intros k. specialize (Hn k). destruct (reported why k m); lia. }
      split; [by rewrite H1|]. intros k. rewrite H2, number_cons. by rewrite Z.add_assoc.
    + destruct (IH (result ++ [m])%list c n Hc Hn) as [H1 H2]. split; [by rewrite H1, <- (assoc_L (++))|].
      intros k. rewrite H2, number_cons, reported_none by done. by rewrite Z.add_0_l.
Qed.

Lemma counting_empty : counting ∅ (λ _, 0).
Proof. intros k. by rewrite lookup_empty. Qed.

Lemma foldl_counting (why : localMetric → option string) (reason : string) (l : list localMetric) (c : counts) (n : string * string → Z) :
  (∀ m, why m = Some reason) → counting c n → (∀ k, 0 ≤ n k) →
  counting (foldl (λ c m, countNotRegistered c m reason) c l) (λ k, n k + number why k l).
Proof.
  intros Hw. revert c n. induction l as [|m l IH]; intros c n Hc Hn k; cbn [foldl]; [by rewrite Hc, Z.add_0_r|].
  rewrite (IH _ (λ k, n k + if reported why k m then 1 else 0)).
  - rewrite number_cons. by rewrite Z.add_assoc.
  - by apply countNotRegistered_counting.
  - intros k'. specialize (Hn k'). destruct (reported why k' m); lia.
Qed.

Lemma filter_filter_either (f g : localMetric → option string) (l : list localMetric) :
  base.filter (λ m, g m = None) (base.filter (λ m, f m = None) l) = base.filter (λ m, either f g m = None) l.
Proof.
  rewrite list_filter_filter. apply list_filter_iff. intros m. unfold either. destruct (f m); naive_solver.
Qed.

Lemma filterMetrics_accounts (c : cache) (st : reportState) (input : list localMetric) :
  let '(st', kept) := filterMetrics c st input in
  kept = base.filter (λ m, whyFiltered c m = None) input ∧ counting (stagedNotRegistered st') (λ k, number (whyFiltered c) k input) ∧
  st' = setStaged st (stagedNotRegistered st').
Proof.
  unfold MetricsState.filterMetrics. destruct (ccConfig c) as [cfg|] eqn:Hcfg.
  - destruct (loop_counting (whyDenied (NewFilterWithConfig c cfg)) (filterOne AgentType_Agent agentID (NewFilterWithConfig c cfg)) input [] ∅ (λ _, 0))
      as [Hr Hc]; [|apply counting_empty|done|].
    { intros result n m. unfold filterOne, whyDenied. by destruct (IsAllowed _ _ _ _) as [[[] reason] []]. }
    destruct (foldl _ _ input) as [result n]. cbn [fst snd] in Hr, Hc. subst result. unfold excludeUnregistrableMetrics.
    destruct (loop_counting (whyWaiting c cfg) (excludeOne agentID c cfg) (base.filter (λ m, whyDenied (NewFilterWithConfig c cfg) m = None) input)
      [] n (λ k, 0 + number (whyDenied (NewFilterWithConfig c cfg)) k input)) as [Hr' Hc']; [|done|intros k; apply number_nonneg|].
    { intros result n' m. unfold excludeOne, whyWaiting. repeat (match goal with |- context [if ?b then _ else _] => destruct b end; [done|]). done. }
    cbn [app].
    destruct (foldl _ _ _) as [kept n']. cbn [fst snd] in Hr', Hc'. subst kept.
    split; [|split; [|done]].
    + cbn [app]. rewrite filter_filter_either. apply list_filter_iff. intros m. unfold whyFiltered, either. by rewrite Hcfg.
    + intros k. cbn [stagedNotRegistered setStaged]. rewrite Hc', Z.add_0_l, number_either.
      rewrite (number_ext _ (whyFiltered c)); [done|]. intros m. unfold whyFiltered, either. by rewrite Hcfg.
  - split; [|split; [|done]].
    + symmetry. induction input as [|m input IH]; [done|]. rewrite filter_cons_False; [done|]. unfold whyFiltered. by rewrite Hcfg.
    + intros k. cbn [stagedNotRegistered setStaged]. rewrite (foldl_counting (whyFiltered c) ReasonWaitingAccountConfig input ∅ (λ _, 0)); [done| |apply counting_empty|done].
      intros m. unfold whyFiltered. by rewrite Hcfg.
Qed.

Lemma findUnregistered_spec (c : cache) (l : list localMetric) :
  findUnregisteredMetricsWithKeys agentID c l =
    (base.filter (λ m, whyUnregistered c m ≠ None) l, localKey <$> base.filter (λ m, whyUnregistered c m ≠ None) l).
Proof.
  unfold findUnregisteredMetricsWithKeys.
  assert (∀ result keys, foldl (λ '(result, keys) v, if bool_decide (is_Some (MetricLookupFromList (ccMetrics c) !! localKey v)) then (result, keys)
      else ((result ++ [v])%list, (keys ++ [localKey v])%list)) (result, keys) l =
    ((result ++ base.filter (λ m, whyUnregistered c m ≠ None) l)%list, (keys ++ (localKey <$> base.filter (λ m, whyUnregistered c m ≠ None) l))%list)) as H;
    [|by apply H].
  induction l as [|m l IH]; intros result keys; [by rewrite !app_nil_r|]. cbn [foldl]. rewrite filter_cons.
  destruct (bool_decide (is_Some (MetricLookupFromList (ccMetrics c) !! localKey m))) eqn:Hb.
  - rewrite IH, decide_False; [done|]. unfold whyUnregistered. rewrite Hb. naive_solver.
  - rewrite IH, decide_True; [by rewrite fmap_cons, <- !(assoc_L (++))|]. unfold whyUnregistered. by rewrite Hb.
Qed.

Lemma countRegistration_spec (c : cache) (l : list localMetric) (registration : counts) (n : string * string → Z) :
  Forall (λ m, whyUnregistered c m ≠ None) l → counting registration n → (∀ k, 0 ≤ n k) →
  ∃ result, countRegistration agentID (MetricRegistrationsFailByKey c) registration l (localKey <$> l) = Some result ∧
    counting result (λ k, n k + number (whyUnregistered c) k l).
Proof.
  intros Hl. revert registration n. induction Hl as [|m l Hm Hl IH]; intros registration n Hc Hn.
  { exists registration. split; [done|]. intros k. by rewrite Hc, Z.add_0_r. }
  cbn [countRegistration fmap list_fmap tail].
  assert (∃ r, whyUnregistered c m = Some r ∧
    r = match MetricRegistrationsFailByKey c !! localKey m with Some failure => failureReason (rgLastFailKind failure) | None => ReasonPending end)
    as (r & Hr & Heq). { revert Hm. unfold whyUnregistered. destruct (bool_decide _); [done|by eexists]. }
  rewrite <- Heq. pose proof (countNotRegistered_counting (whyUnregistered c) registration n m r Hr Hc Hn) as Hnext.
  unfold MetricsState.countNotRegistered in Hnext.
  assert (∀ k, 0 ≤ n k + if reported (whyUnregistered c) k m then 1 else 0) as Hpos.
  { intros k. specialize (Hn k). destruct (reported _ k m); lia. }
  destruct (bool_decide (lget (lmLabels m) LabelName = "")), (IsOwnMetric (lmAnnotations m) agentID); cbn [negb orb] in *;
    destruct (IH _ _ Hnext Hpos) as (result & -> & Hres); exists result; (split; [done|]); intros k; rewrite Hres, number_cons; by rewrite Z.add_assoc.
Qed.

Lemma publish_total (c : cache) (st : reportState) (l : list localMetric) :
  is_Some (publishMetricsState agentID c st (findUnregisteredMetricsWithKeys agentID c l).1 (findUnregisteredMetricsWithKeys agentID c l).2).
Proof.
  rewrite findUnregistered_spec. cbn [fst snd]. unfold publishMetricsState.
  destruct (countRegistration_spec c (base.filter (λ m, whyUnregistered c m ≠ None) l) ∅ (λ _, 0)) as (registration & -> & _);
    [apply Forall_forall; by intros m [? _]%list_elem_of_filter|apply counting_empty|done|by eexists].
Qed.

Lemma addCounts_counting (c d : counts) (n n' : string * string → Z) :
  counting c n → counting d n' → (∀ k, 0 ≤ n k) → (∀ k, 0 ≤ n' k) → counting (addCounts range c d) (λ k, n k + n' k).
Proof.
  intros Hc Hd Hn Hn'. unfold addCounts.
  assert (∀ (l : list (string * string * Z)) (c : counts) k, NoDup l.*1 →
    foldl (λ c '(key, count), <[key := default 0 (c !! key) + count]> c) c l !! k =
    match (list_to_map l : counts) !! k with Some x => Some (default 0 (c !! k) + x) | None => c !! k end) as Hfold.
  { clear. induction l as [|[key x] l IH]; intros c k Hnd; [done|]. cbn [foldl list_to_map foldr uncurry fst snd].
    apply NoDup_cons in Hnd as [Hnot Hnd]. rewrite IH by done. destruct (decide (key = k)) as [->|].
    - rewrite !lookup_insert_eq. apply (not_elem_of_list_to_map_1 (M := gmap (string * string))) in Hnot. cbn [fst] in Hnot. by rewrite Hnot.
    - by rewrite !lookup_insert_ne by done. }
  intros k. assert (NoDup (range d).*1) as Hnd by (rewrite range_perm; apply NoDup_fst_map_to_list).
  rewrite Hfold by done. rewrite (list_to_map_proper _ (map_to_list d)) by done. rewrite list_to_map_to_list, Hc, Hd.
  specialize (Hn k). specialize (Hn' k). destruct (decide (0 < n' k)), (decide (0 < n k)); cbn; case_decide; try lia; try done; f_equal; lia.
Qed.

Lemma number_unregistered (why : localMetric → option string) (k : string * string) (l : list localMetric) :
  number why k (base.filter (λ m, why m ≠ None) l) = number why k l.
Proof.
  induction l as [|m l IH]; [done|]. rewrite filter_cons, number_cons. destruct (decide (why m ≠ None)) as [|Hd]; [by rewrite number_cons, IH|].
  rewrite reported_none, IH by (destruct (why m); [by destruct Hd|done]). lia.
Qed.

(** Why a metric is not registered: what the filter found with the cache [c], and otherwise what the registration
    left in the cache [c']. *)
Definition whyNotRegistered (c c' : cache) : localMetric → option string := either (whyFiltered c) (whyUnregistered c').

(** C29. The report accounts for every metric: after a synchronization its rows are, for each name and reason, the number
    of metrics of this agent with that name that are not registered for that reason (no account configuration, denied by
    the plan, waiting for a container or a service, refused or pending), each metric for one reason only.  Rows
    are sorted, none is empty and none comes twice, whatever the report before, the order in which the metrics were
    registered and the order of the maps. *)
Theorem metricsState_accounts (c c' : cache) (st : reportState) (input l : list localMetric) :
  let '(st1, kept) := filterMetrics c st input in
  l ≡ₚ kept →
  ∃ st2, publishMetricsState agentID c' st1 (findUnregisteredMetricsWithKeys agentID c' l).1 (findUnregisteredMetricsWithKeys agentID c' l).2 = Some st2 ∧
    let '(rows, published) := metricsState range st2 in
    published = true ∧ StronglySorted reportLe rows ∧ NoDup ((λ row, (msName row, msReason row)) <$> rows) ∧
    ∀ name reason n, mkMetricState name reason n ∈ rows ↔
      0 < n ∧ n = number (whyNotRegistered c c') (name, reason) input.
Proof.
  pose proof (filterMetrics_accounts c st input) as Hf. destruct (filterMetrics c st input) as [st1 kept]. destruct Hf as (Hkept & Hstaged & _).
  intros Hl. rewrite findUnregistered_spec. cbn [fst snd]. unfold publishMetricsState.
  destruct (countRegistration_spec c' (base.filter (λ m, whyUnregistered c' m ≠ None) l) ∅ (λ _, 0)) as (registration & -> & Hreg);
    [apply Forall_forall; by intros m [? _]%list_elem_of_filter|apply counting_empty|done|].
  eexists. split; [done|]. unfold metricsState. cbn [notRegisteredMetrics registrationMetrics metricsStatePublished].
  assert (counting (addCounts range (stagedNotRegistered st1) registration) (λ k, number (whyNotRegistered c c') k input)) as Hc.
  { intros k. rewrite (addCounts_counting _ _ _ _ Hstaged Hreg); [|intros ?; apply number_nonneg|intros k'; rewrite Z.add_0_l; apply number_nonneg].
    rewrite Z.add_0_l, number_unregistered, (number_perm _ k l kept Hl), Hkept. by rewrite number_either. }
  set (all := addCounts range (stagedNotRegistered st1) registration) in *. split; [done|].
  split; [apply StronglySorted_merge_sort; apply _|]. split.
  - rewrite merge_sort_Permutation, <- list_fmap_compose. rewrite (list_fmap_ext _ fst); [rewrite range_perm; apply NoDup_fst_map_to_list|].
    by intros ? [[] ?] _.
  - intros name reason n. rewrite merge_sort_Permutation, list_elem_of_fmap. specialize (Hc (name, reason)). split.
    + intros ([[name' reason'] n'] & [= -> -> ->] & Hin). rewrite range_perm, elem_of_map_to_list, Hc in Hin.
      case_decide as Hd; [|done]. by injection Hin as <-.
    + intros [Hpos ->]. exists (name, reason, number (whyNotRegistered c c') (name, reason) input). split; [done|].
      rewrite range_perm, elem_of_map_to_list, Hc. by rewrite decide_True.
Qed.
End Report.

(** * From the filter to the registration *)
Section Kept.
Variable AgentType_Agent : string.
Variable agentID : string.
Variable scraperName : string.

(** What the registration reads in the cache. *)
Definition envOf (c : cache) : registerEnv :=
  mkEnv agentID (DockerIntegration <$> ccConfig c) (ccContainers c) (ccServices c) (ccMonitors c).*1
    (map_imap (λ id _, Some id) (ccAgents c)) scraperName.

Lemma MonitorsByAgentUUID_elem (c : cache) (id account : string) : MonitorsByAgentUUID c !! id = Some account → id ∈ (ccMonitors c).*1.
Proof.
  unfold MonitorsByAgentUUID.
  assert (∀ l (m : gmap string string), foldl (λ result (v : string * string), <[v.1 := v.2]> result) m l !! id = Some account → is_Some (m !! id) ∨ id ∈ l.*1) as H.
  { induction l as [|v l IH]; intros m; cbn [foldl]; [by left; eexists|]. intros [H|H]%IH; [|by right; right].
    destruct (decide (v.1 = id)) as [<-|]; [right; by left|]. left. by rewrite lookup_insert_ne in H. }
  intros Hl. destruct (H _ _ Hl) as [[x Hx]|]; [by rewrite lookup_empty in Hx|done].
Qed.

(** A metric the filter keeps has its dependencies, unless it comes from the scraper of another agent. *)
Lemma kept_resolvable (c : cache) (m : localMetric) :
  whyFiltered AgentType_Agent c m = None →
  (BleemeoAgentID (lmAnnotations m) ≠ "" → lget (lmLabels m) LabelScraperUUID ∈ ["" ; agentID]) →
  resolvable (envOf c) m = true.
Proof.
  unfold whyFiltered, resolvable. cbn [eConfig envOf]. destruct (ccConfig c) as [cfg|]; [|done]. cbn [fmap option_fmap option_map].
  destruct (whyDenied _ _ m) eqn:Hd; [done|]. intros Hw Hs. unfold whyWaiting in Hw.
  rewrite !bool_decide_not in Hw. rewrite <- negb_orb in Hw. rewrite andb_true_iff, andb_true_iff. split; [split|].
  - cbn [eContainers envOf]. destruct (_ || IgnoreContainer _ _); [done|]. cbn [negb andb orb] in *.
    apply bool_decide_eq_true. destruct (ccContainers c !! _); [by eexists|by rewrite bool_decide_true in Hw].
  - cbn [eServices envOf]. destruct (bool_decide (ServiceName (lmAnnotations m) = "")); [done|]. cbn [negb andb orb] in *.
    destruct (_ && bool_decide (ccContainers c !! _ = None)); [done|]. apply bool_decide_eq_true. destruct (ccServices c !! _); [by eexists|by rewrite bool_decide_true in Hw].
  - destruct (decide (BleemeoAgentID (lmAnnotations m) = "")) as [Ha|Ha]; [by rewrite (bool_decide_true (BleemeoAgentID _ = ""))|].
    rewrite (bool_decide_false (BleemeoAgentID _ = "")) by done. cbn [orb]. specialize (Hs Ha). apply andb_true_iff. split.
    { apply elem_of_cons in Hs as [->|Hs]; [done|]. apply list_elem_of_singleton in Hs as ->. cbn [eAgentID envOf]. rewrite (bool_decide_true (agentID = agentID)) by done. apply orb_true_r. }
    unfold whyDenied, IsAllowed, allowListForMetric in Hd. rewrite bool_decide_true in Hd by done. cbn [eMonitors eAgents envOf].
    cbn [fMonitors fAgents NewFilterWithConfig] in Hd.
    destruct (MonitorsByAgentUUID c !! _) as [account|] eqn:Hm; [by rewrite (bool_decide_true (_ ∈ _)) by (by eapply MonitorsByAgentUUID_elem)|].
    destruct (ccAgents c !! BleemeoAgentID (lmAnnotations m)) eqn:Hag; [|done].
    rewrite (bool_decide_true (is_Some _)); [apply orb_true_r|]. rewrite map_lookup_imap, Hag. by eexists.
Qed.

Context {W : Type}.
Variable registerMetric : W → MetricPayload → W * (MetricPayload + callError).
Variable setMetricActive : W → string → bool → W * option callError.
Variable listMetricsBy : W → listParams → W * (list (string * Metric) + callError).
Variable now : W → Z.
Variable cancelled : W → option regError.
Variable range : gmap string Metric → list (string * Metric).
Variable rangeFails : gmap string MetricRegistration → list (string * MetricRegistration).

Hypothesis accepts : ∀ w p, ∃ result, (registerMetric w p).2 = inl result.
Hypothesis activates : ∀ w id, (setMetricActive w id true).2 = None.
Hypothesis not_cancelled : ∀ w, cancelled w = None.

(** The metric can be registered once its parent is: it does not come from the scraper of another agent, and no
    earlier registration of it failed. *)
Definition registrable (c : cache) (m : localMetric) : Prop :=
  (BleemeoAgentID (lmAnnotations m) ≠ "" → lget (lmLabels m) LabelScraperUUID ∈ [""; agentID]) ∧
  metricKey (envOf c) m ∉ rgLabelsText <$> ccFails c.

(** The metric is not a status, or its parent is registered, or is one of the metrics and registrable. *)
Definition parented (c : cache) (metrics : list localMetric) (m : localMetric) : Prop :=
  StatusOf (lmAnnotations m) = "" ∨ is_Some (MetricLookupFromList (ccMetrics c) !! parentKey (envOf c) m) ∨
  ∃ parent, parent ∈ metrics ∧ registrable c parent ∧ metricKey (envOf c) parent = parentKey (envOf c) m ∧
    StatusOf (lmAnnotations parent) = "".

(** C28. What the filter keeps gets registered: when the API accepts what it is asked and the run is not cancelled, one run
    registers every metric the filter keeps (the plan allows it, and its container and service are known) whose
    registration did not fail before, that is not of another agent's scraper and that, when it is the status of another metric, has its
    parent registered or among the metrics kept and itself registrable.  This holds for each such metric whatever the other
    metrics are and whatever the order: a status whose parent comes later in the list is put aside and registered in
    the last pass, and one without a parent, or a metric of another scraper, does not prevent the others.  When all the metrics kept are
    such, the account configuration is known and the status of the agent did not fail before, the run ends without an error. *)
Theorem kept_registered (c : cache) (st : reportState) (input l : list localMetric) (retryable : FailureKind → bool) (w : W) :
  let kept := (filterMetrics AgentType_Agent agentID c st input).2 in
  l ≡ₚ kept →
  let '(_, mr, err) := do (envOf c) registerMetric setMetricActive listMetricsBy now cancelled range rangeFails w
    (newMetricRegisterer (ccMetrics c) (ccFails c) retryable) l in
  (∀ m, m ∈ kept → registrable c m → parented c kept m → is_Some (byKey mr !! metricKey (envOf c) m)) ∧
  (is_Some (ccConfig c) → metricKey (envOf c) (fakeMetric now w) ∉ rgLabelsText <$> ccFails c →
   (∀ m, m ∈ kept → registrable c m ∧ parented c kept m) → err = None).
Proof.
  intros kept Hl.
  assert (∀ m, m ∈ kept → registrable c m → eligible (envOf c) (rgLabelsText <$> ccFails c) m) as Hkept.
  { intros m Hm [Hs Hf]. split; [|done]. apply kept_resolvable; [|done]. revert Hm. unfold kept.
    pose proof (filterMetrics_accounts AgentType_Agent agentID c st input) as Hfm.
    destruct (filterMetrics _ _ c st input) as [st' kept']. destruct Hfm as (-> & _). cbn [snd]. by intros [? _]%list_elem_of_filter. }
  assert (∀ m, parented c kept m → hasParent (envOf c) (rgLabelsText <$> ccFails c) (ccMetrics c) l m) as Hparent.
  { intros m [?|[?|(parent & Hin & Hr & ? & ?)]]; [by left|right; by left|right; right]. exists parent. rewrite Hl. auto. }
  pose proof (do_registers (envOf c) registerMetric setMetricActive listMetricsBy now cancelled range rangeFails accepts activates not_cancelled
    (rgLabelsText <$> ccFails c) (ccMetrics c) (ccFails c) retryable w l) as H.
  destruct (do _ _ _ _ _ _ _ _ w _ l) as [[w' mr] err]. destruct H as [H He]; [done|]. split.
  - intros m Hm Hr Hp. apply H; [by rewrite Hl|auto..].
  - intros [cfg Hcfg] Hfake Hall. apply He.
    + split; [|done]. apply fakeMetric_resolvable. cbn [eConfig envOf]. rewrite Hcfg. by eexists.
    + intros m Hm. rewrite Hl in Hm. destruct (Hall m Hm). auto.
Qed.
End Kept.

(** * Priorities *)
Section Priorities.
Variable sortSlice : (localMetric → localMetric → bool) → list localMetric → list localMetric.
Hypothesis sortSlice_perm : ∀ less l, sortSlice less l ≡ₚ l.
Hypothesis sortSlice_sorted : ∀ less l, strictWeakOrder less → sortedBy less (sortSlice less l).

Lemma isLess_false (a b : Labels) :
  isLess a b = false ↔
  importanceWeight b < importanceWeight a ∨
  (importanceWeight b = importanceWeight a ∧
   ((size b < size a)%nat ∨ (size b = size a ∧ String.le (getItem b) (getItem a)))).
Proof.
  unfold isLess. cbv zeta. destruct (Z.ltb_spec (importanceWeight a) (importanceWeight b)); [split; [done|lia]|].
  destruct (Z.ltb_spec (importanceWeight b) (importanceWeight a)); [split; [by left|done]|].
  destruct (Nat.ltb_spec (size a) (size b)); [split; [done|lia]|].
  destruct (Nat.eqb_spec (size a) (size b)) as [He|He]; cbn [andb].
  - rewrite bool_decide_eq_false. split; [intros Hle%dec_stable; right; split; [lia|right; by split; [lia|]]|].
    intros [?|[_ [?|[_ ?]]]]; [lia|lia|tauto].
  - split; [intros; right; split; [lia|left; lia]|done].
Qed.

Lemma isLess_order : strictWeakOrder isLess.
Proof.
  assert (∀ a b c, isLess a b = false → isLess b c = false → isLess a c = false) as Hneg.
  { intros a b c. rewrite !isLess_false. intros [?|[? [?|[? Hab]]]] [?|[? [?|[? Hbc]]]]; try (left; lia); right; (split; [lia|]); try (left; lia).
    right. split; [lia|]. by transitivity (getItem b). }
  assert (∀ a b, isLess a b = true → isLess b a = false) as Has.
  { intros a b Hab. rewrite isLess_false. destruct (decide (importanceWeight a < importanceWeight b ∨
      (importanceWeight a = importanceWeight b ∧ ((size a < size b)%nat ∨ (size a = size b ∧ String.le (getItem a) (getItem b)))))) as [|Hn]; [done|].
    assert (isLess a b = false) as Hf; [|by rewrite Hab in Hf]. rewrite isLess_false.
    assert (¬ importanceWeight a < importanceWeight b) as Hw by tauto.
    assert (¬ (importanceWeight a = importanceWeight b ∧ (size a < size b)%nat)) as Hs by tauto.
    destruct (decide (importanceWeight b < importanceWeight a)); [by left|]. right. split; [lia|].
    destruct (decide (size b < size a)%nat); [by left|]. right. split; [lia|].
    destruct (total String.le (getItem a) (getItem b)) as [Hle|Hle]; [|done]. destruct Hn. right. split; [lia|]. right. split; [lia|done]. }
  split; [|split; [|done]].
  - intros a. rewrite isLess_false. right. split; [done|]. by right.
  - intros a b c Hab Hbc. destruct (isLess a c) eqn:Hac; [done|]. apply Has in Hbc. by rewrite (Hneg a c b Hac Hbc) in Hab.
Qed.

(** The order of the registration: the metrics to register are those of the store, or the essential ones of them when only
    these are wanted, and the more important come first, then those with fewer labels, whatever the sort does with
    equal ones. *)
Theorem prioritize_sorted (metrics : list localMetric) (onlyEssential : bool) :
  let l := prioritizeAndFilterMetrics sortSlice metrics onlyEssential in
  (∀ m, m ∈ l ↔ m ∈ metrics ∧ (onlyEssential = true → KeepInOnlyEssential (lmLabels m) = true)) ∧
  ∀ i j a b, (i < j)%nat → l !! i = Some a → l !! j = Some b →
    importanceWeight (lmLabels a) ≤ importanceWeight (lmLabels b) ∧
    (importanceWeight (lmLabels a) = importanceWeight (lmLabels b) → (size (lmLabels a) ≤ size (lmLabels b))%nat).
Proof.
  unfold prioritizeAndFilterMetrics. split.
  - intros m. rewrite sortSlice_perm. destruct onlyEssential; [rewrite list_elem_of_filter; naive_solver|naive_solver].
  - intros i j a b Hij Ha Hb.
    assert (strictWeakOrder (λ a b : localMetric, isLess (lmLabels a) (lmLabels b))) as Ho.
    { destruct isLess_order as (H1 & H2 & H3). split; [intros; apply H1|]. split; intros ? ? ?; [apply H2|apply H3]. }
    pose proof (sortSlice_sorted _ _ Ho i j a b Hij Ha Hb) as H. cbn in H. apply isLess_false in H. lia.
Qed.
End Priorities.

(** * Witnesses *)
Module Plan.
Definition planConfig : AccountConfig := mkAccountConfig true {[ "agent" := ∅ ]} ∅.
(** The container of the third metric is not registered. *)
Definition sampleCache : cache := mkCache (Some planConfig) ∅ [] ∅ ∅ ∅ [] [].
Definition report : reportState := mkReport ∅ ∅ ∅ false.
Definition waiting : localMetric :=
  mkLocalMetric {[ LabelName := "mem" ]} (mkAnnotations "docker" "" "" "" "" "" zeroStatusDescription) (λ _ _, None) 0.
Definition kept : list localMetric := [Sample.sample "cpu_status" "cpu"; Sample.sample "cpu" ""].
Definition input : list localMetric := waiting :: kept.
Definition orphan : localMetric := Sample.sample "disk_status" "disk".
End Plan.

(** The status of the disk has no parent: the status of the processor, that comes before its own parent, is registered nonetheless. *)
Lemma kept_registered_witness :
  let '(_, mr, _) := do (envOf "me" "" Plan.sampleCache) Sample.accept Sample.activate Sample.find Sample.now Sample.never map_to_list map_to_list 0
    (newMetricRegisterer [] [] (λ _, true)) (Plan.orphan :: Plan.kept) in
  is_Some (byKey mr !! metricKey (envOf "me" "" Plan.sampleCache) (Sample.sample "cpu_status" "cpu")).
Proof.
  assert ((filterMetrics "agent" "me" Plan.sampleCache Plan.report (Plan.orphan :: Plan.input)).2 = Plan.orphan :: Plan.kept) as Hk
    by (vm_compute; reflexivity).
  pose proof (kept_registered "agent" "me" "" Sample.accept Sample.activate Sample.find Sample.now Sample.never map_to_list map_to_list
    (λ w p, ex_intro _ p eq_refl) (λ _ _, eq_refl) (λ _, eq_refl) Plan.sampleCache Plan.report (Plan.orphan :: Plan.input)
    (Plan.orphan :: Plan.kept) (λ _, true) 0) as H.
  cbv zeta in H. rewrite Hk in H. specialize (H (reflexivity _)). cbn [ccMetrics ccFails Plan.sampleCache] in H.
  destruct (do _ _ _ _ _ _ _ _ _ _ _) as [[w' mr] err]. destruct H as [H _]. apply H; clear H.
  - right. by left.
  - split; [by intros []|apply not_elem_of_nil].
  - right. right. exists (Sample.sample "cpu" ""). split; [right; right; by left|]. split; [split; [by intros []|apply not_elem_of_nil]|].
    split; [vm_compute|]; reflexivity.
Defined.

(** The metric that waits for its container, and the two that are kept but not registered yet. *)
Lemma metricsState_accounts_witness :
  ∃ st2, publishMetricsState "me" Plan.sampleCache (filterMetrics "agent" "me" Plan.sampleCache Plan.report Plan.input).1 Plan.kept
      (localKey "me" <$> Plan.kept) = Some st2 ∧
    let '(rows, published) := metricsState map_to_list st2 in
    published = true ∧ mkMetricState "mem" ReasonWaitingContainer 1 ∈ rows ∧ mkMetricState "cpu" ReasonPending 1 ∈ rows.
Proof.
  pose proof (metricsState_accounts "agent" "me" map_to_list (λ c, reflexivity _) Plan.sampleCache Plan.sampleCache Plan.report Plan.input Plan.kept) as H.
  destruct (filterMetrics "agent" "me" Plan.sampleCache Plan.report Plan.input) as [st1 kept] eqn:Hf.
  destruct H as (st2 & Hp & H).
  { vm_compute in Hf. by injection Hf as _ <-. }
  exists st2. split; [exact Hp|]. destruct (metricsState map_to_list st2) as [rows published]. destruct H as (-> & _ & _ & H).
  split; [done|]. split; apply H; vm_compute; split; reflexivity.
Defined.

Lemma prioritize_sorted_witness :
  let l := prioritizeAndFilterMetrics mergeSort Plan.input false in
  ∃ a b, l !! 0%nat = Some a ∧ l !! 2%nat = Some b ∧ importanceWeight (lmLabels a) ≤ importanceWeight (lmLabels b).
Proof.
  exists (Sample.sample "cpu_status" "cpu"), Plan.waiting. split; [vm_compute; reflexivity|]. split; [vm_compute; reflexivity|].
  apply (prioritize_sorted mergeSort mergeSort_perm mergeSort_sorted Plan.input false) with 0%nat 2%nat;
    [lia|vm_compute; reflexivity..].
Defined.
