(* ===== verification/RegistrationStatus.v ===== *)
(** When the registration status is sent
    (bleemeo/internal/synchronizer/syncregistrationstatus/send.go and entity.go):
    the payload and what identifies it, the delays between two sends, and the
    synchronizer's entity as a state machine over its executions.  SHA-256 is a
    parameter: the theorem about the hash is on the text that is hashed
    ([hashText_unambiguous]).  The other theorems: skipping the build of a
    payload never misses a send ([NeedSend_MaySend]) and two sends are never
    closer than the delays say ([sends_spaced]). *)
From S2P Require Import Prelude Labels Float64 Points Bytes Json ErrorText Secrets Services ServicesState Limits.
From stdpp Require Import pretty.

#[local] Open Scope string_scope.
#[local] Open Scope Z_scope.

Definition minSendInterval : Z := 30 * Time.minute.
Definition minNewServiceInterval : Z := Time.minute.
Definition unchangedSendInterval : Z := 24 * Time.hour.
Definition metricsStateWait : Z := 10 * Time.minute.
Definition collectionWait : Z := 5 * Time.minute.

(** * Payload *)
Record Payload := mkPayload {
  pGloutonVersion : string;
  pGeneratedAt : Z;
  pLastDiscoveryAt : Z;
  pServices : list RowState;
  pServicesTotal : Z;
  pMetrics : option (list MetricState);
  pMetricsTotal : option Z;
  pServicesDropped : Z;
  pMetricsDropped : Z;
  pHash : string
}.

(** What the agent remembers of the last send, kept in the cache. *)
Record RegistrationStatusSent := mkSent {
  rsAgentID : string;
  rsHash : string;
  rsServices : list NameInstance;
  rsAcceptedAt : Z;
  rsLastAttemptAt : Z;
  rsLastAttemptFailed : bool
}.

Definition zeroSent (agentID : string) : RegistrationStatusSent := mkSent agentID "" [] 0 0 false.

Definition hashList (rows : list bytes) : bytes := (rows ≫= λ row, row ++ [10])%list ++ [0].

(** What is written to the hash. *)
Definition hashText (isPrint : Z → bool) (gloutonVersion : string) (services metrics : list bytes)
    (servicesTotal metricsTotal : Z) (metricsKnown : bool) : bytes :=
  (str "version " ++ Quote isPrint (str gloutonVersion) ++ [0] ++
   (if metricsKnown then str "totals " ++ jsonInt servicesTotal ++ [32] ++ jsonInt metricsTotal ++ [0]
    else str "totals " ++ jsonInt servicesTotal ++ [0] ++ str "metrics unknown" ++ [0]) ++
   hashList services ++ hashList metrics)%list.

Section payload.
Context (isPrint : Z → bool) (sha256 : bytes → bytes) (Version : string).

(** [hex.EncodeToString] *)
Definition EncodeToString (l : bytes) : string := unstr (l ≫= hexDigits 2).

Definition hashRows (services metrics : list bytes) (servicesTotal metricsTotal : Z) (metricsKnown : bool) : string :=
  EncodeToString (sha256 (hashText isPrint Version services metrics servicesTotal metricsTotal metricsKnown)).

Definition NewPayload (services : list RowState) (metrics : list MetricState) (metricsKnown : bool) : Payload :=
  let '(keptServices, servicesRows, servicesDropped) := limitServices services in
  let servicesTotal := Z.of_nat (length services) in
  let metricsTotal := Z.of_nat (length metrics) in
  if metricsKnown then
    let '(keptMetrics, metricsRows, metricsDropped) := limitMetrics metrics in
    mkPayload Version 0 0 keptServices servicesTotal (Some keptMetrics) (Some metricsTotal) servicesDropped metricsDropped
      (hashRows servicesRows metricsRows servicesTotal metricsTotal true)
  else mkPayload Version 0 0 keptServices servicesTotal None None servicesDropped 0
      (hashRows servicesRows [] servicesTotal metricsTotal false).

Definition stampedPayload (services : list RowState) (metrics : list MetricState) (published : bool)
    (now lastDiscovery : Z) : Payload :=
  let p := NewPayload services metrics published in
  mkPayload (pGloutonVersion p) (Time.Truncate now Time.second) (Time.Truncate lastDiscovery Time.second)
    (pServices p) (pServicesTotal p) (pMetrics p) (pMetricsTotal p) (pServicesDropped p) (pMetricsDropped p) (pHash p).
End payload.

(** * Delays *)
Definition nameInstance (service : RowState) : NameInstance :=
  mkNameInstance (stName (rowState service)) (stInstance (rowState service)).

Definition settled (service : RowState) : bool :=
  if bool_decide (rowServiceUUID service = "") then false
  else
    let hasMetrics := match rowMetrics service with MetricsZero => false | _ => true end in
    negb (bool_decide (stError (rowState service) = "")) || hasMetrics || negb (stInputSupported (rowState service)).

Definition hasNewSettledService (previous : list NameInstance) (services : list RowState) : bool :=
  existsb (λ service, settled service && negb (bool_decide (nameInstance service ∈ previous))) services.

Definition forAgent (last : RegistrationStatusSent) (agentID : string) : RegistrationStatusSent :=
  if bool_decide (rsAgentID last = agentID) then last else zeroSent agentID.

Definition NeedSend (last : RegistrationStatusSent) (payload : Payload) (agentID : string) (now : Z) : bool :=
  let last := forAgent last agentID in
  if Time.IsZero (rsLastAttemptAt last) then true
  else if Time.Before now (rsLastAttemptAt last) then true
  else
    let since := Time.Sub now (rsLastAttemptAt last) in
    if bool_decide (pHash payload = rsHash last) then
      if rsLastAttemptFailed last && (since <? minSendInterval) then false
      else unchangedSendInterval <=? Time.Sub now (rsAcceptedAt last)
    else if rsLastAttemptFailed last then minSendInterval <=? since
    else if hasNewSettledService (rsServices last) (pServices payload) then minNewServiceInterval <=? since
    else minSendInterval <=? since.

Definition MaySend (last : RegistrationStatusSent) (agentID : string) (now : Z) : bool :=
  let last := forAgent last agentID in
  if Time.IsZero (rsLastAttemptAt last) || Time.Before now (rsLastAttemptAt last) then true
  else if rsLastAttemptFailed last then minSendInterval <=? Time.Sub now (rsLastAttemptAt last)
  else minNewServiceInterval <=? Time.Sub now (rsLastAttemptAt last).

Definition Sent (payload : Payload) (agentID : string) (now : Z) : RegistrationStatusSent :=
  mkSent agentID (pHash payload) (nameInstance <$> filter settled (pServices payload)) now now false.

Definition SendFailed (last : RegistrationStatusSent) (agentID : string) (now : Z) : RegistrationStatusSent :=
  let last := forAgent last agentID in
  mkSent (rsAgentID last) (rsHash last) (rsServices last) (rsAcceptedAt last) now true.

(** * The entity *)
(** What an execution offers: the agent, whether the feature is on, when it
    started, the discovery's last run, the metrics state and the services ([None]
    when the store could not be read). *)
Record execution := mkExecution {
  exOnlyEssential : bool;
  exAgentID : string;
  exSendEnabled : bool;
  exStartedAt : Z;
  exLastDiscovery : Z;
  exMetrics : list MetricState;
  exPublished : bool;
  exServices : option (list RowState)
}.

Record entity := mkEntity {
  enLastBuildAt : Z;
  enDiscoveryReadyAt : Z;
  enCurrentExecution : option execution;
  enPayload : option Payload;
  enSent : RegistrationStatusSent            (* the cache *)
}.

Definition newEntity (cached : RegistrationStatusSent) : entity := mkEntity 0 0 None None cached.

Definition PrepareExecution (s : entity) (e : execution) : entity :=
  mkEntity (enLastBuildAt s) (enDiscoveryReadyAt s) (Some e) (enPayload s) (enSent s).

Definition isCollectionPending (r : RowState) : bool := stCollectionPending (rowState r).

Section entity.
Context (isPrint : Z → bool) (sha256 : bytes → bytes) (Version : string).

(** The outer option is the error on a missing execution. *)
Definition NeedSynchronization (s : entity) : entity * option bool :=
  match enCurrentExecution s with
  | None => (s, None)
  | Some e =>
      if exOnlyEssential e then (s, Some false)
      else if bool_decide (exAgentID e = "") then (s, Some false)
      else if negb (exSendEnabled e) then (s, Some false)
      else
        let last := enSent s in
        let now := exStartedAt e in
        if negb (MaySend last (exAgentID e) now) then (s, Some false)
        else if negb (Time.IsZero (enLastBuildAt s)) && negb (Time.Before now (enLastBuildAt s))
                && (Time.Sub now (enLastBuildAt s) <? minNewServiceInterval)
        then (s, Some false)
        else if Time.IsZero (exLastDiscovery e) then (s, Some false)
        else
          let ready := if Time.IsZero (enDiscoveryReadyAt s) then now else enDiscoveryReadyAt s in
          let s := mkEntity (enLastBuildAt s) ready (enCurrentExecution s) (enPayload s) (enSent s) in
          if negb (exPublished e) && (Time.Sub now ready <? metricsStateWait) then (s, Some false)
          else
            let s := mkEntity now ready (enCurrentExecution s) (enPayload s) (enSent s) in
            match exServices e with
            | None => (s, Some false)
            | Some services =>
                if (Time.Sub now ready <? collectionWait) && existsb isCollectionPending services
                then (s, Some false)
                else
                  let payload := stampedPayload isPrint sha256 Version services (exMetrics e) (exPublished e) now
                                   (exLastDiscovery e) in
                  if negb (NeedSend last payload (exAgentID e) now) then (s, Some false)
                  else (mkEntity now ready (enCurrentExecution s) (Some payload) (enSent s), Some true)
            end
  end.

(** The API's answer. *)
Inductive answer : Set := Accepted | Refused | Failed.
Inductive syncResult : Set := SyncOk | SyncError | SyncNoExecution.

(** [now] is when the send happens; the attempt is told apart from a call that sends nothing. *)
Definition SyncRemoteAndLocal (s : entity) (now : Z) (a : answer) : entity * syncResult * option bool :=
  match enCurrentExecution s with
  | None => (s, SyncNoExecution, None)
  | Some e =>
      match enPayload s with
      | None => (s, SyncOk, None)
      | Some payload =>
          let set sent := mkEntity (enLastBuildAt s) (enDiscoveryReadyAt s) (enCurrentExecution s) (enPayload s) sent in
          match a with
          | Accepted => (set (Sent payload (exAgentID e) now), SyncOk, Some true)
          | Refused => (set (SendFailed (enSent s) (exAgentID e) now), SyncOk, Some false)
          | Failed => (set (SendFailed (enSent s) (exAgentID e) now), SyncError, Some false)
          end
      end
  end.

Definition FinishExecution (s : entity) : entity :=
  mkEntity (enLastBuildAt s) (enDiscoveryReadyAt s) None None (enSent s).
End entity.

(** * Theorems: what identifies a payload *)
(** The texts before two equal separators are equal when neither has it. *)
Lemma cut_unique (c : Z) (a a' b b' : bytes) :
  c ∉ a → c ∉ a' → (a ++ c :: b)%list = (a' ++ c :: b')%list → a = a' ∧ b = b'.
Proof.
  revert a'. induction a as [|x a IH]; intros [|x' a'] Ha Ha' H; simplify_eq/=; [done|set_solver|set_solver|].
  rewrite not_elem_of_cons in Ha, Ha'. destruct (IH a') as [-> ->]; tauto.
Qed.

Lemma hashList_unique (rows rows' : list bytes) (b b' : bytes) :
  Forall (λ row, 10 ∉ row ∧ 0 ∉ row) rows → Forall (λ row, 10 ∉ row ∧ 0 ∉ row) rows' →
  (hashList rows ++ b)%list = (hashList rows' ++ b')%list → rows = rows' ∧ b = b'.
Proof.
  unfold hashList. intros H. revert rows'.
  assert (∀ row rows b b', 10 ∉ row → 0 ∉ row →
    (((row :: rows) ≫= λ row, row ++ [10])%list ++ [0] ++ b)%list ≠ (0 :: b')%list) as Hdiff.
  { intros row rows0 c c' _ Hz Heq. destruct row as [|y row]; [done|]. simplify_eq/=. set_solver. }
  induction H as [|row rows [Hn Hz] Hrows IH]; intros rows' H' Heq; rewrite <-!(assoc_L (++)) in Heq.
  - destruct H' as [|row' rows' [Hn' Hz'] Hrows']; [by simplify_eq|]. by destruct (Hdiff row' rows' b' b Hn' Hz').
  - destruct H' as [|row' rows' [Hn' Hz'] Hrows']; [by destruct (Hdiff row rows b b' Hn Hz)|].
    simpl in Heq. rewrite <-!(assoc_L (++)) in Heq. simpl in Heq.
    destruct (cut_unique 10 row row' _ _ Hn Hn' Heq) as [-> Heq'].
    destruct (IH rows' Hrows') as [-> ->]; [by rewrite <-!(assoc_L (++))|done].
Qed.

Lemma printable_free (l : bytes) (c : Z) : printable l → c < 32 → c ∉ l.
Proof. intros Hl Hc Hin. unfold printable in Hl. rewrite Forall_forall in Hl. specialize (Hl _ Hin). simpl in Hl. lia. Qed.

Lemma encodeRow_printable (r : RowState) : printable (encodeRow r).
Proof. unfold encodeRow, marshalRow, rowNames. apply jsonObject_printable. cbn [zip zip_with]. repeat (apply Forall_cons_2; [cbn [snd]; auto with json|]). constructor. Qed.

Lemma encodeMetric_printable (m : MetricState) : printable (encodeMetric m).
Proof. unfold encodeMetric, marshalMetric. apply jsonObject_printable. cbn [zip zip_with]. repeat (apply Forall_cons_2; [cbn [snd]; auto with json|]). constructor. Qed.

Lemma rows_free {A : Type} (encode : A → bytes) (l : list A) :
  (∀ x, printable (encode x)) → Forall (λ row, 10 ∉ row ∧ 0 ∉ row) (encode <$> l).
Proof.
  intros H. apply Forall_fmap, Forall_forall. intros x _. split; apply printable_free; auto; lia.
Qed.

Lemma jsonInt_inj (a b : Z) : jsonInt a = jsonInt b → a = b.
Proof. unfold jsonInt. intros H%str_inj. by apply (inj pretty). Qed.

Lemma jsonInt_free (z c : Z) : c < 45 → c ∉ jsonInt z.
Proof.
  intros Hc Hin. pose proof (proj1 (jsonInt_chars z)) as Hz. rewrite Forall_forall in Hz.
  unfold isDigit in Hz. specialize (Hz _ Hin). simpl in Hz. lia.
Qed.

(** The totals line: what is between two NULs tells whether the metrics are known. *)
Lemma totals_unique (a b a' b' : Z) (rest rest' : bytes) (known known' : bool) :
  ((if known then str "totals " ++ jsonInt a ++ [32] ++ jsonInt b ++ [0]
    else str "totals " ++ jsonInt a ++ [0] ++ str "metrics unknown" ++ [0]) ++ rest)%list =
  ((if known' then str "totals " ++ jsonInt a' ++ [32] ++ jsonInt b' ++ [0]
    else str "totals " ++ jsonInt a' ++ [0] ++ str "metrics unknown" ++ [0]) ++ rest')%list →
  known = known' ∧ a = a' ∧ (known = true → b = b') ∧ rest = rest'.
Proof.
  assert (∀ z, 0 ∉ jsonInt z) as H0 by (intros; apply jsonInt_free; lia).
  assert (∀ z, 32 ∉ jsonInt z) as H32 by (intros; apply jsonInt_free; lia).
  destruct known, known'; rewrite <-!(assoc_L (++)); intros H%(inj (app (str "totals "))).
  - apply cut_unique in H as [->%jsonInt_inj H]; [|done..].
    apply cut_unique in H as [->%jsonInt_inj H]; [done|done..].
  - change ((jsonInt a' ++ [0] ++ str "metrics unknown" ++ [0] ++ rest')%list)
      with (jsonInt a' ++ 0 :: (str "metrics unknown" ++ [0] ++ rest'))%list in H.
    assert ((jsonInt a ++ 32 :: jsonInt b) ++ 0 :: rest = jsonInt a' ++ 0 :: (str "metrics unknown" ++ [0] ++ rest'))%list as H'
      by (rewrite <-H, <-(assoc_L (++)); done).
    apply cut_unique in H' as [H' _]; [|rewrite elem_of_app, elem_of_cons; intros [?|[?|?]]; [by eapply H0|lia|by eapply H0]|done].
    destruct (H32 a'). rewrite <-H', elem_of_app, elem_of_cons. auto.
  - assert (jsonInt a ++ 0 :: (str "metrics unknown" ++ [0] ++ rest) = (jsonInt a' ++ 32 :: jsonInt b') ++ 0 :: rest')%list as H'
      by (rewrite <-(assoc_L (++)); exact H).
    apply cut_unique in H' as [H' _]; [|done|rewrite elem_of_app, elem_of_cons; intros [?|[?|?]]; [by eapply H0|lia|by eapply H0]].
    destruct (H32 a). rewrite H', elem_of_app, elem_of_cons. auto.
  - apply cut_unique in H as [->%jsonInt_inj H]; [|done..].
    apply (inj (app (str "metrics unknown"))) in H. by simplify_eq/=.
Qed.

(** The text that is hashed tells payloads apart: two payloads with the same
    text have the same quoted version, the same rows in the same lists and the
    same totals, and agree on whether the metrics are known. *)
Theorem hashText_unambiguous (isPrint : Z → bool) (v v' : string) (services services' : list RowState)
    (metrics metrics' : list MetricState) (st mt st' mt' : Z) (known known' : bool) :
  hashText isPrint v (encodeRow <$> services) (encodeMetric <$> metrics) st mt known =
  hashText isPrint v' (encodeRow <$> services') (encodeMetric <$> metrics') st' mt' known' →
  Quote isPrint (str v) = Quote isPrint (str v') ∧ encodeRow <$> services = encodeRow <$> services' ∧
  encodeMetric <$> metrics = encodeMetric <$> metrics' ∧ known = known' ∧ st = st' ∧ (known = true → mt = mt').
Proof.
  unfold hashText. intros H%(inj (app (str "version "))).
  apply cut_unique in H as [Hv H]; [|apply Quote_nonzero, str_areBytes..].
  apply totals_unique in H as (Hk & Hst & Hmt & H).
  apply hashList_unique in H as [Hs H]; [|apply rows_free, encodeRow_printable..].
  assert (hashList (encodeMetric <$> metrics) ++ [] = hashList (encodeMetric <$> metrics') ++ [])%list as H'
    by (by rewrite !app_nil_r).
  apply hashList_unique in H' as [Hm _]; [done|apply rows_free, encodeMetric_printable..].
Qed.

Lemma hashText_unambiguous_witness :
  let services := [sampleRow "a" ""; sampleRow "b" "refused"] in
  let text := hashText ascii "1.2" (encodeRow <$> services) [] 2 0 true in
  text = hashText ascii "1.2" (encodeRow <$> services) (encodeMetric <$> []) 2 0 true ∧
  encodeRow <$> services = encodeRow <$> services.
Proof.
  intros services text. split; [done|].
  exact (proj1 (proj2 (hashText_unambiguous ascii "1.2" "1.2" services services [] [] 2 0 2 0 true true eq_refl))).
Defined.

(** * Theorems: delays *)
(** A remembered attempt that did not fail is the accepted one. *)
Definition sentOk (last : RegistrationStatusSent) : Prop :=
  rsLastAttemptFailed last = false → rsAcceptedAt last = rsLastAttemptAt last.

(** What the agent can remember: nothing, or what was recorded after a send. *)
Inductive remembered : RegistrationStatusSent → Prop :=
| remembered_none (agentID : string) : remembered (zeroSent agentID)
| remembered_sent (p : Payload) (agentID : string) (now : Z) : remembered (Sent p agentID now)
| remembered_failed (last : RegistrationStatusSent) (agentID : string) (now : Z) :
    remembered last → remembered (SendFailed last agentID now).

Lemma remembered_ok (last : RegistrationStatusSent) : remembered last → sentOk last.
Proof. by destruct 1. Qed.

Lemma forAgent_ok (last : RegistrationStatusSent) (agentID : string) : sentOk last → sentOk (forAgent last agentID).
Proof. intros H. unfold forAgent. by case_bool_decide. Qed.

(** Not building a payload when [MaySend] says so never misses a send: for
    every memory of past sends the agent can have, if some payload needs to be
    sent at a time, [MaySend] is true at that time. *)
Theorem NeedSend_MaySend (last : RegistrationStatusSent) (payload : Payload) (agentID : string) (now : Z) :
  remembered last → NeedSend last payload agentID now = true → MaySend last agentID now = true.
Proof.
  intros Hok%remembered_ok. apply (forAgent_ok _ agentID) in Hok. unfold NeedSend, MaySend.
  set (l := forAgent last agentID) in *. destruct (Time.IsZero (rsLastAttemptAt l)); [done|].
  destruct (Time.Before now (rsLastAttemptAt l)); [done|]. cbn [orb].
  unfold sentOk in Hok. set (since := Time.Sub now (rsLastAttemptAt l)).
  assert (minNewServiceInterval ≤ minSendInterval ∧ minSendInterval ≤ unchangedSendInterval) as [H1 H2]
    by (split; vm_compute; discriminate).
  case_bool_decide as Hh.
  - destruct (rsLastAttemptFailed l); cbn [andb].
    + destruct (Z.ltb_spec since minSendInterval) as [|Hs]; [done|]. intros _. by apply Z.leb_le.
    + rewrite (Hok eq_refl). fold since. rewrite !Z.leb_le. lia.
  - destruct (rsLastAttemptFailed l); [done|].
    destruct (hasNewSettledService (rsServices l) (pServices payload)); rewrite !Z.leb_le; lia.
Qed.

Lemma NeedSend_MaySend_witness :
  let p := mkPayload "1" 0 0 [] 0 None None 0 0 "h" in
  let last := Sent p "agent" 1000 in
  MaySend last "agent" (1000 + unchangedSendInterval) = true.
Proof.
  apply (NeedSend_MaySend _ (mkPayload "1" 0 0 [] 0 None None 0 0 "h") "agent"); [constructor|vm_compute; reflexivity].
Defined.

(** ** Runs of the entity *)
Section runs.
Context (isPrint : Z → bool) (sha256 : bytes → bytes) (Version : string).

(** A send: for which agent, when its execution started, when it was made, whether it was accepted, and the hash of what was sent. *)
Record attempt := mkAttempt { atAgent : string; atStart : Z; atTime : Z; atAccepted : bool; atHash : string }.

(** One execution: the entity is prepared, asked, possibly called at a later
    time with an answer of the API, and finished. *)
Definition runExecution (s : entity) (x : execution * option (Z * answer)) : entity * option attempt :=
  let '(e, call) := x in
  let s := (NeedSynchronization isPrint sha256 Version (PrepareExecution s e)).1 in
  match call with
  | None => (FinishExecution s, None)
  | Some (now, a) =>
      let '(s', _, sent) := SyncRemoteAndLocal s now a in
      (FinishExecution s',
       accepted ← sent; p ← enPayload s; Some (mkAttempt (exAgentID e) (exStartedAt e) now accepted (pHash p)))
  end.

Fixpoint run (s : entity) (xs : list (execution * option (Z * answer))) : entity * list attempt :=
  match xs with
  | [] => (s, [])
  | x :: xs =>
      let '(s, a) := runExecution s x in
      let '(s, rest) := run s xs in
      (s, option_list a ++ rest)%list
  end.

(** The delay the code promises between two attempts for the same agent, when the clock did not go back from the first to the second. *)
Definition spaced (a b : attempt) : Prop :=
  atAgent a = atAgent b → atTime a ≤ atStart b → atStart b ≤ atTime b →
  minNewServiceInterval ≤ atTime b - atTime a ∧
  (atAccepted a = false → minSendInterval ≤ atTime b - atTime a) ∧
  (atAccepted a = true → atHash a = atHash b → unchangedSendInterval ≤ atTime b - atTime a).

(** What the entity remembers of the last attempt. *)
Definition remembers (s : entity) (a : option attempt) : Prop :=
  enPayload s = None ∧ remembered (enSent s) ∧
  match a with
  | None => True
  | Some a => rsAgentID (enSent s) = atAgent a ∧ rsLastAttemptAt (enSent s) = atTime a ∧ atTime a ≠ 0 ∧
      rsLastAttemptFailed (enSent s) = negb (atAccepted a) ∧ (atAccepted a = true → rsHash (enSent s) = atHash a)
  end.

Lemma Sub_lower (x t u : Z) : Int.minInt64 < x → x ≤ Time.Sub t u → x ≤ t - u.
Proof. unfold Time.Sub. lia. Qed.

(** A payload that needs to be sent is far enough from the last attempt. *)
Lemma NeedSend_spaced (agentID : string) (s : entity) (a : attempt) (p : Payload) (start now : Z) (accepted : bool) :
  remembers s (Some a) → NeedSend (enSent s) p agentID start = true → spaced a (mkAttempt agentID start now accepted (pHash p)).
Proof.
  intros (_ & Hok%remembered_ok & Hag & Hlast & Hpos & Hfail & Hhash) Hneed Hsame Hstart Hnow. cbn [atAgent atStart atTime atHash] in *. revert Hneed.
  unfold NeedSend, forAgent. rewrite Hag, bool_decide_true by done. rewrite Hlast.
  unfold Time.IsZero, Time.Before. rewrite (proj2 (Z.eqb_neq _ _)), (proj2 (Z.ltb_ge _ _)) by lia.
  assert (Int.minInt64 < minNewServiceInterval ∧ minNewServiceInterval ≤ minSendInterval ∧
          minSendInterval ≤ unchangedSendInterval) as (H0 & H1 & H2) by (repeat split; vm_compute; done).
  set (sub := Time.Sub start (atTime a)). assert (∀ x, Int.minInt64 < x → x ≤ sub → x ≤ now - atTime a) as Hsub.
  { intros x Hx Hle. apply Sub_lower in Hle; lia. }
  rewrite Hfail. unfold sentOk in Hok. rewrite Hfail, Hlast in Hok.
  destruct (atAccepted a); cbn [negb andb] in *.
  - rewrite (Hok eq_refl), (Hhash eq_refl). fold sub. intros H.
    assert (minNewServiceInterval ≤ sub ∧ (atHash a = pHash p → unchangedSendInterval ≤ sub)) as [Ha Hb].
    { case_bool_decide as He; [apply Z.leb_le in H; split; [lia|done]|].
      split; [|congruence]. destruct (hasNewSettledService _ _); apply Z.leb_le in H; lia. }
    split_and!; [apply Hsub; lia|done|]. intros _ He. apply Hsub; [lia|auto].
  - intros H. assert (minSendInterval ≤ sub) as Ha.
    { case_bool_decide; [|by apply Z.leb_le]. destruct (Z.ltb_spec sub minSendInterval); [done|lia]. }
    split_and!; [apply Hsub; lia|intros _; apply Hsub; lia|done].
Qed.

Lemma NeedSynchronization_payload (s : entity) (e : execution) :
  enCurrentExecution s = Some e → enPayload s = None →
  let s' := (NeedSynchronization isPrint sha256 Version s).1 in
  enSent s' = enSent s ∧ enCurrentExecution s' = Some e ∧
  match enPayload s' with
  | None => True
  | Some p => NeedSend (enSent s) p (exAgentID e) (exStartedAt e) = true
  end.
Proof.
  intros He Hp. unfold NeedSynchronization. rewrite He.
  repeat match goal with |- context [if ?b then _ else _] => destruct b eqn:?; [by cbn; rewrite ?Hp, ?He|] end.
  destruct (exServices e) as [services|]; [|by cbn; rewrite ?Hp, ?He].
  match goal with |- context [if ?b then _ else _] => destruct b; [by cbn; rewrite ?Hp, ?He|] end.
  destruct (NeedSend (enSent s) _ (exAgentID e) (exStartedAt e)) eqn:Hn; cbn; [by rewrite ?Hp, ?He|by rewrite ?Hp, ?He].
Qed.

Lemma runExecution_spaced (s s' : entity) (a : option attempt) (e : execution) (call : option (Z * answer)) (b : option attempt) :
  remembers s a → (∀ now ans, call = Some (now, ans) → now ≠ 0) → runExecution s (e, call) = (s', b) →
  remembers s' (if b then b else a) ∧ ∀ x y, a = Some x → b = Some y → spaced x y.
Proof.
  intros Hrem Hpos Hrun. pose proof Hrem as (Hp & Hr & Ha).
  destruct (NeedSynchronization_payload (PrepareExecution s e) e eq_refl Hp) as (Hsent & Hcur & Hneed).
  unfold runExecution in Hrun. set (s1 := (NeedSynchronization _ _ _ _).1) in *. cbn [enSent PrepareExecution] in *.
  destruct call as [[now ans]|].
  2: { injection Hrun as <- <-. split; [|done]. split; [done|]. cbn. by rewrite Hsent. }
  unfold SyncRemoteAndLocal in Hrun. rewrite Hcur in Hrun.
  destruct (enPayload s1) as [p|] eqn:Hp1.
  2: { injection Hrun as <- <-. split; [|done]. split; [done|]. cbn. by rewrite Hsent. }
  specialize (Hpos now ans eq_refl).
  assert (∀ x acc, a = Some x → spaced x (mkAttempt (exAgentID e) (exStartedAt e) now acc (pHash p))) as Hsp.
  { intros x acc ->. by apply (NeedSend_spaced (exAgentID e) s). }
  assert (rsAgentID (forAgent (enSent s) (exAgentID e)) = exAgentID e) as Hag by (unfold forAgent; by case_bool_decide).
  destruct ans; cbn in Hrun; injection Hrun as <- <-; (split; [|naive_solver]); (split; [done|]); cbn; rewrite ?Hsent; (split; [by constructor|]); done.
Qed.

Lemma run_spaced (s : entity) (a : option attempt) (xs : list (execution * option (Z * answer))) :
  remembers s a → Forall (λ x, ∀ now ans, x.2 = Some (now, ans) → now ≠ 0) xs → Sorted spaced (option_list a ++ (run s xs).2)%list.
Proof.
  revert s a. induction xs as [|[e call] xs IH]; intros s a Hrem Hpos.
  { destruct a; repeat constructor. }
  apply Forall_cons in Hpos as [Hx Hpos]. cbn [run snd] in *. destruct (runExecution s (e, call)) as [s' b] eqn:Hrun.
  destruct (runExecution_spaced s s' a e call b Hrem Hx Hrun) as [Hrem' Hsp].
  specialize (IH s' (if b then b else a) Hrem' Hpos). destruct (run s' xs) as [s'' rest]. cbn [snd] in *.
  destruct b as [y|]; simpl in *; [|done]. destruct a as [x|]; simpl; [|done]. constructor; [done|]. constructor. by apply Hsp.
Qed.

(** C21. The API is not flooded: whatever the executions, their agents and inputs and the answers of the API, of two
    consecutive sends for the same agent, the second in an execution that started, by the clock, at or after the first, the second is at least a
    minute after the first, half an hour when the first one failed, and a day when the first was accepted and
    nothing changed.  (After the clock was set back, or for another agent, the code sends again without a delay.)  The times
    of the sends are not the zero time. *)
Theorem sends_spaced (cached : RegistrationStatusSent) (xs : list (execution * option (Z * answer))) :
  remembered cached → Forall (λ x, ∀ now ans, x.2 = Some (now, ans) → now ≠ 0) xs → Sorted spaced (run (newEntity cached) xs).2.
Proof. intros Hc Hpos. by apply (run_spaced (newEntity cached) None xs). Qed.

(** A change gets reported: in an execution that may send, started half an hour
    or more after the last attempt and a minute or more after the last build,
    with discovery done, the metrics published and the services read, none of
    them pending, a payload that differs from the last accepted one is chosen,
    and the call that follows sends it. *)
Theorem change_is_sent (s : entity) (e : execution) (services : list RowState) (now : Z) (a : answer) :
  let start := exStartedAt e in
  let payload := stampedPayload isPrint sha256 Version services (exMetrics e) true start (exLastDiscovery e) in
  enCurrentExecution s = Some e → exOnlyEssential e = false → exAgentID e ≠ "" → exSendEnabled e = true →
  exLastDiscovery e ≠ 0 → exPublished e = true → exServices e = Some services →
  existsb isCollectionPending services = false →
  minSendInterval ≤ Time.Sub start (rsLastAttemptAt (enSent s)) →
  minNewServiceInterval ≤ Time.Sub start (enLastBuildAt s) →
  pHash payload ≠ rsHash (forAgent (enSent s) (exAgentID e)) →
  let '(s', need) := NeedSynchronization isPrint sha256 Version s in
  need = Some true ∧ enPayload s' = Some payload ∧ (SyncRemoteAndLocal s' now a).2 = Some (match a with Accepted => true | _ => false end).
Proof.
  intros start payload He Hess Hag Hen Hdisc Hpub Hserv Hpend Hsince Hbuild Hhash.
  assert (NeedSend (enSent s) payload (exAgentID e) start = true ∧ MaySend (enSent s) (exAgentID e) start = true) as [Hneed Hmay].
  { unfold NeedSend, MaySend. assert (minNewServiceInterval ≤ minSendInterval) as Hle by (vm_compute; discriminate).
    assert (rsLastAttemptAt (forAgent (enSent s) (exAgentID e)) = 0 ∨
            minSendInterval ≤ Time.Sub start (rsLastAttemptAt (forAgent (enSent s) (exAgentID e)))) as Hd
      by (unfold forAgent; case_bool_decide; auto).
    unfold Time.IsZero. destruct (Z.eqb_spec (rsLastAttemptAt (forAgent (enSent s) (exAgentID e))) 0); [done|].
    destruct Hd as [?|Hd]; [done|]. destruct (Time.Before start _); [done|]. cbn [orb].
    rewrite (bool_decide_false (pHash payload = _)) by done.
    repeat case_match; rewrite !Z.leb_le; lia. }
  unfold NeedSynchronization. rewrite He, Hess, (bool_decide_false (exAgentID e = _)), Hen by done. fold start. rewrite Hmay. cbn [negb].
  rewrite (proj2 (Z.ltb_ge (Time.Sub start (enLastBuildAt s)) minNewServiceInterval) Hbuild), andb_false_r.
  rewrite (proj2 (Z.eqb_neq _ _) Hdisc : Time.IsZero (exLastDiscovery e) = false), Hpub. cbn [negb andb].
  rewrite Hserv, Hpend, andb_false_r. fold payload. rewrite Hneed. cbn [negb].
  split; [done|]. split; [done|]. unfold SyncRemoteAndLocal. cbn. by destruct a.
Qed.
End runs.

(** * Examples *)
Definition sampleExecution (start : Z) (services : list RowState) : execution :=
  mkExecution false "agent" true start 5 [] true (Some services).

(** Stands for a hash. *)
Definition firstBytes (l : bytes) : bytes := drop 150 l.

Definition sampleRun : list (execution * option (Z * answer)) :=
  [(sampleExecution 1000 [sampleRow "a" ""], Some (1001, Accepted));
   (sampleExecution (2000 + Time.minute) [sampleRow "a" ""; sampleRow "b" "refused"], Some (3000 + Time.minute, Failed));
   (sampleExecution (4000 + 2 * Time.minute) [sampleRow "a" ""; sampleRow "b" "refused"], Some (4001 + 2 * Time.minute, Failed));
   (sampleExecution (4000 + 31 * Time.minute) [sampleRow "b" "refused"], Some (5000 + 31 * Time.minute, Accepted))].

(** The third execution is too close to a failed attempt. *)
Example sampleRun_attempts :
  (λ a, (atTime a, atAccepted a)) <$> (run ascii firstBytes "1.2" (newEntity (zeroSent "agent")) sampleRun).2 =
  [(1001, true); (3000 + Time.minute, false); (5000 + 31 * Time.minute, true)].
Proof. vm_compute. reflexivity. Qed.

Lemma sends_spaced_witness :
  Sorted spaced (run ascii firstBytes "1.2" (newEntity (zeroSent "agent")) sampleRun).2.
Proof.
  apply (sends_spaced ascii firstBytes "1.2"); [constructor|]. repeat (apply Forall_cons_2; [intros now ans [= <- _]; vm_compute; discriminate|]). apply Forall_nil_2.
Defined.

Lemma change_is_sent_witness :
  let e := sampleExecution (10 * Time.hour) [sampleRow "a" ""] in
  let s := PrepareExecution (newEntity (zeroSent "agent")) e in
  (NeedSynchronization ascii firstBytes "1.2" s).2 = Some true.
Proof.
  intros e s. pose proof (change_is_sent ascii firstBytes "1.2" s e [sampleRow "a" ""] 1 Accepted) as H.
  destruct (NeedSynchronization ascii firstBytes "1.2" s) as [s' need]. apply H; try reflexivity; vm_compute; discriminate.
Defined.
