(* ===== verification/SyncState.v ===== *)
(** The state the synchronizer keeps between two executions
    (bleemeo/internal/synchronizer/sync.go, types/types.go): the pending
    requests with their deadlines, the modes, the disabling of the connector,
    the next full synchronization.  The methods other goroutines call on it are
    functions on the record [Synchronizer], as each holds the lock [s.l] for its
    whole body. *)
From S2P Require Import Prelude.

Notation EntityName := string (only parsing).

Inductive SyncType := SyncTypeNone | SyncTypeNormal | SyncTypeForceCacheRefresh.

#[export] Instance SyncType_eq : EqDecision SyncType.
Proof. solve_decision. Defined.

(** The integer of a synchronization type: the types are ordered. *)
Definition syncRank (t : SyncType) : Z :=
  match t with SyncTypeNone => 0 | SyncTypeNormal => 1 | SyncTypeForceCacheRefresh => 2 end.

Record SyncRequest := mkRequest { rqType : SyncType; rqDeadline : Z }.

Inductive DisableReason :=
  | NotDisabled
  | DisableDuplicatedAgent
  | DisableTooManyErrors
  | DisableTooManyRequests
  | DisableAgentTooOld
  | DisableAuthenticationError
  | DisableTimeDrift
  | DisableLongStandingError
  | DisableRequestReconnection.

#[export] Instance DisableReason_eq : EqDecision DisableReason.
Proof. solve_decision. Defined.

(** The errors an entity's row holds: the two sentinels of the package, and
    what an entity synchronizer returns. *)
Inductive syncError :=
  | errSkippedExecution
  | errConnectorTemporaryDisabled
  | errEntity (message : string).

#[export] Instance syncError_eq : EqDecision syncError.
Proof. solve_decision. Defined.

Inductive monitorOperation := Change | Delete.
Record MonitorUpdate := mkMonitorUpdate { muOp : monitorOperation; muUUID : string }.

(** [syNow] is what [s.now()] returns, [syNextConfigAt] the field of the agent in
    the cache. *)
Record Synchronizer := mkSynchronizer {
  syNow : Z;
  syStartedAt : Z;
  syNextFullSync : Z;
  syFullSyncCount : Z;
  syLastSuccessfulSync : Z;
  syLastSync : Z;
  syMaintenanceMode : bool;
  sySuspendedMode : bool;
  syDisabledUntil : Z;
  syDisableReason : DisableReason;
  syLastDuplicateCheck : Z;
  syNextDuplicateCheck : Z;
  syForceSync : gmap EntityName SyncRequest;
  syPendingMetricsUpdate : list string;
  syPendingMonitorsUpdate : list MonitorUpdate;
  syLastInfoFetchedAt : Z;
  syNextConfigAt : Z;
  syIsMQTTConnected : option bool;
  syShouldUpdateMQTTStatus : bool;
  syAgentID : string
}.

(** Assignments to the fields. *)
Definition setNow (s : Synchronizer) (now : Z) : Synchronizer :=
  mkSynchronizer now (syStartedAt s) (syNextFullSync s) (syFullSyncCount s) (syLastSuccessfulSync s)
    (syLastSync s) (syMaintenanceMode s) (sySuspendedMode s) (syDisabledUntil s) (syDisableReason s)
    (syLastDuplicateCheck s) (syNextDuplicateCheck s) (syForceSync s) (syPendingMetricsUpdate s)
    (syPendingMonitorsUpdate s) (syLastInfoFetchedAt s) (syNextConfigAt s) (syIsMQTTConnected s)
    (syShouldUpdateMQTTStatus s) (syAgentID s).

Definition setFullSync (s : Synchronizer) (next count : Z) : Synchronizer :=
  mkSynchronizer (syNow s) (syStartedAt s) next count (syLastSuccessfulSync s) (syLastSync s)
    (syMaintenanceMode s) (sySuspendedMode s) (syDisabledUntil s) (syDisableReason s)
    (syLastDuplicateCheck s) (syNextDuplicateCheck s) (syForceSync s) (syPendingMetricsUpdate s)
    (syPendingMonitorsUpdate s) (syLastInfoFetchedAt s) (syNextConfigAt s) (syIsMQTTConnected s)
    (syShouldUpdateMQTTStatus s) (syAgentID s).

Definition setLastSync (s : Synchronizer) (successful last : Z) : Synchronizer :=
  mkSynchronizer (syNow s) (syStartedAt s) (syNextFullSync s) (syFullSyncCount s) successful last
    (syMaintenanceMode s) (sySuspendedMode s) (syDisabledUntil s) (syDisableReason s)
    (syLastDuplicateCheck s) (syNextDuplicateCheck s) (syForceSync s) (syPendingMetricsUpdate s)
    (syPendingMonitorsUpdate s) (syLastInfoFetchedAt s) (syNextConfigAt s) (syIsMQTTConnected s)
    (syShouldUpdateMQTTStatus s) (syAgentID s).

Definition setModes (s : Synchronizer) (maintenance suspended : bool) : Synchronizer :=
  mkSynchronizer (syNow s) (syStartedAt s) (syNextFullSync s) (syFullSyncCount s)
    (syLastSuccessfulSync s) (syLastSync s) maintenance suspended (syDisabledUntil s) (syDisableReason
    s) (syLastDuplicateCheck s) (syNextDuplicateCheck s) (syForceSync s) (syPendingMetricsUpdate s)
    (syPendingMonitorsUpdate s) (syLastInfoFetchedAt s) (syNextConfigAt s) (syIsMQTTConnected s)
    (syShouldUpdateMQTTStatus s) (syAgentID s).

Definition setDisabled (s : Synchronizer) (until : Z) (reason : DisableReason) : Synchronizer :=
  mkSynchronizer (syNow s) (syStartedAt s) (syNextFullSync s) (syFullSyncCount s)
    (syLastSuccessfulSync s) (syLastSync s) (syMaintenanceMode s) (sySuspendedMode s) until reason
    (syLastDuplicateCheck s) (syNextDuplicateCheck s) (syForceSync s) (syPendingMetricsUpdate s)
    (syPendingMonitorsUpdate s) (syLastInfoFetchedAt s) (syNextConfigAt s) (syIsMQTTConnected s)
    (syShouldUpdateMQTTStatus s) (syAgentID s).

Definition setDuplicateCheck (s : Synchronizer) (last next : Z) : Synchronizer :=
  mkSynchronizer (syNow s) (syStartedAt s) (syNextFullSync s) (syFullSyncCount s)
    (syLastSuccessfulSync s) (syLastSync s) (syMaintenanceMode s) (sySuspendedMode s) (syDisabledUntil
    s) (syDisableReason s) last next (syForceSync s) (syPendingMetricsUpdate s) (syPendingMonitorsUpdate
    s) (syLastInfoFetchedAt s) (syNextConfigAt s) (syIsMQTTConnected s) (syShouldUpdateMQTTStatus s)
    (syAgentID s).

Definition setForceSync (s : Synchronizer) (requests : gmap EntityName SyncRequest) : Synchronizer :=
  mkSynchronizer (syNow s) (syStartedAt s) (syNextFullSync s) (syFullSyncCount s)
    (syLastSuccessfulSync s) (syLastSync s) (syMaintenanceMode s) (sySuspendedMode s) (syDisabledUntil
    s) (syDisableReason s) (syLastDuplicateCheck s) (syNextDuplicateCheck s) requests
    (syPendingMetricsUpdate s) (syPendingMonitorsUpdate s) (syLastInfoFetchedAt s) (syNextConfigAt s)
    (syIsMQTTConnected s) (syShouldUpdateMQTTStatus s) (syAgentID s).

Definition setPending (s : Synchronizer) (metrics : list string) (monitors : list MonitorUpdate) : Synchronizer :=
  mkSynchronizer (syNow s) (syStartedAt s) (syNextFullSync s) (syFullSyncCount s)
    (syLastSuccessfulSync s) (syLastSync s) (syMaintenanceMode s) (sySuspendedMode s) (syDisabledUntil
    s) (syDisableReason s) (syLastDuplicateCheck s) (syNextDuplicateCheck s) (syForceSync s) metrics
    monitors (syLastInfoFetchedAt s) (syNextConfigAt s) (syIsMQTTConnected s) (syShouldUpdateMQTTStatus
    s) (syAgentID s).

Definition setServer (s : Synchronizer) (fetchedAt nextConfigAt : Z) : Synchronizer :=
  mkSynchronizer (syNow s) (syStartedAt s) (syNextFullSync s) (syFullSyncCount s)
    (syLastSuccessfulSync s) (syLastSync s) (syMaintenanceMode s) (sySuspendedMode s) (syDisabledUntil
    s) (syDisableReason s) (syLastDuplicateCheck s) (syNextDuplicateCheck s) (syForceSync s)
    (syPendingMetricsUpdate s) (syPendingMonitorsUpdate s) fetchedAt nextConfigAt (syIsMQTTConnected s)
    (syShouldUpdateMQTTStatus s) (syAgentID s).

Definition setMQTT (s : Synchronizer) (connected : option bool) (update : bool) : Synchronizer :=
  mkSynchronizer (syNow s) (syStartedAt s) (syNextFullSync s) (syFullSyncCount s)
    (syLastSuccessfulSync s) (syLastSync s) (syMaintenanceMode s) (sySuspendedMode s) (syDisabledUntil
    s) (syDisableReason s) (syLastDuplicateCheck s) (syNextDuplicateCheck s) (syForceSync s)
    (syPendingMetricsUpdate s) (syPendingMonitorsUpdate s) (syLastInfoFetchedAt s) (syNextConfigAt s)
    connected update (syAgentID s).

Definition setAgentID (s : Synchronizer) (id : string) : Synchronizer :=
  mkSynchronizer (syNow s) (syStartedAt s) (syNextFullSync s) (syFullSyncCount s)
    (syLastSuccessfulSync s) (syLastSync s) (syMaintenanceMode s) (sySuspendedMode s) (syDisabledUntil
    s) (syDisableReason s) (syLastDuplicateCheck s) (syNextDuplicateCheck s) (syForceSync s)
    (syPendingMetricsUpdate s) (syPendingMonitorsUpdate s) (syLastInfoFetchedAt s) (syNextConfigAt s)
    (syIsMQTTConnected s) (syShouldUpdateMQTTStatus s) id.

(** ** Requests *)

Definition requestLaterSynchronizationLocked (s : Synchronizer) (entityName : EntityName)
    (forceCacheRefresh : bool) (delay : Z) : Synchronizer :=
  let deadline := Time.Add (syNow s) delay in
  let found := syForceSync s !! entityName in
  let request := default (mkRequest SyncTypeNone 0) found in
  let type :=
    if forceCacheRefresh then SyncTypeForceCacheRefresh
    else if bool_decide (rqType request = SyncTypeNone) then SyncTypeNormal
    else rqType request in
  let deadline :=
    if bool_decide (found = None) || Time.Before deadline (rqDeadline request)
    then deadline else rqDeadline request in
  setForceSync s (<[entityName := mkRequest type deadline]> (syForceSync s)).

Definition requestSynchronizationLocked (s : Synchronizer) (entityName : EntityName)
    (forceCacheRefresh : bool) : Synchronizer :=
  requestLaterSynchronizationLocked s entityName forceCacheRefresh 0.

Definition NotifyConfigUpdate (s : Synchronizer) (immediate : bool) : Synchronizer :=
  let s := requestSynchronizationLocked s "info" true in
  let s := requestSynchronizationLocked s "agent" true in
  let s := requestSynchronizationLocked s "facts" true in
  let s := requestSynchronizationLocked s "config" true in
  if negb immediate then s
  else
    let s := requestSynchronizationLocked s "metric" true in
    let s := requestSynchronizationLocked s "container" true in
    requestSynchronizationLocked s "monitor" true.

Definition UpdateMetrics (s : Synchronizer) (metricUUID : list string) : Synchronizer :=
  if bool_decide (metricUUID = [""]) then
    setPending (requestSynchronizationLocked s "metric" true) [] (syPendingMonitorsUpdate s)
  else
    requestSynchronizationLocked
      (setPending s (syPendingMetricsUpdate s ++ metricUUID) (syPendingMonitorsUpdate s)) "metric" false.

Definition UpdateContainers (s : Synchronizer) : Synchronizer :=
  requestSynchronizationLocked s "container" false.

Definition UpdateFacts (s : Synchronizer) (delay : Z) : Synchronizer :=
  requestLaterSynchronizationLocked s "facts" false delay.

Definition UpdateInfo (s : Synchronizer) : Synchronizer :=
  requestSynchronizationLocked s "info" false.

Definition UpdateMonitors (s : Synchronizer) : Synchronizer :=
  requestSynchronizationLocked (requestSynchronizationLocked s "config" true) "monitor" true.

Definition UpdateMaintenance (s : Synchronizer) (delay : Z) : Synchronizer :=
  requestLaterSynchronizationLocked s "info" false delay.

Definition UpdateAgent (s : Synchronizer) (delay : Z) : Synchronizer :=
  requestLaterSynchronizationLocked s "agent" false delay.

(** An operation the code does not know leaves the zero value, [Change]. *)
Definition UpdateMonitor (s : Synchronizer) (op uuid : string) : Synchronizer :=
  let mu := mkMonitorUpdate (if bool_decide (op = "delete") then Delete else Change) uuid in
  let s := setPending s (syPendingMetricsUpdate s) (syPendingMonitorsUpdate s ++ [mu]) in
  requestSynchronizationLocked (requestSynchronizationLocked s "agent" true) "monitor" false.

Definition UpdateK8SAgentList (s : Synchronizer) : Synchronizer :=
  requestSynchronizationLocked s "agent" true.

Definition SetMQTTConnected (s : Synchronizer) (isConnected : bool) : Synchronizer :=
  if Time.Sub (syNow s) (syStartedAt s) <? Time.minute then s
  else
    let shouldUpdateStatus := default true (syIsMQTTConnected s) && negb isConnected in
    let s := setMQTT s (Some isConnected) (syShouldUpdateMQTTStatus s) in
    if shouldUpdateStatus
    then setMQTT (requestSynchronizationLocked s "info" false) (Some isConnected) true
    else s.

(** ** Disabling the connector *)

Definition getDisabledUntil (s : Synchronizer) : Synchronizer * Z * DisableReason :=
  let s := if Time.After (syNow s) (syDisabledUntil s) then setDisabled s 0 NotDisabled else s in
  (s, syDisabledUntil s, syDisableReason s).

Definition Disable (s : Synchronizer) (until : Z) (reason : DisableReason) : Synchronizer :=
  if Time.Before (syDisabledUntil s) until then setDisabled s until reason else s.

Definition ClearDisable (s : Synchronizer) (reasonToClear : DisableReason) (delay : Z) : Synchronizer :=
  if Time.Before (syNow s) (syDisabledUntil s) && bool_decide (syDisableReason s = reasonToClear)
  then setDisabled s (Time.Add (syNow s) delay) (syDisableReason s) else s.

(** ** Detection of a duplicated agent

    What the comparison of the facts with the API gives: an error, no
    duplicate, or a duplicate and the jittered time to stay disabled. *)
Inductive duplicateAnswer :=
  | listFailed (message : string)
  | notDuplicated
  | duplicated (delay : Z).

Definition checkDuplicated (s : Synchronizer) (answer : duplicateAnswer) : Synchronizer * option syncError :=
  match answer with
  | listFailed message => (s, Some (errEntity message))
  | notDuplicated => (s, None)
  | duplicated delay =>
      (Disable s (Time.Add (syNow s) delay) DisableDuplicatedAgent, Some errConnectorTemporaryDisabled)
  end.

Definition shouldCheckDuplicatedLocked (s : Synchronizer) (executionStartedAt : Z) (force : bool) : bool :=
  if negb (Time.Before (syLastDuplicateCheck s) executionStartedAt) then false
  else force || negb (Time.Before (syNow s) (syNextDuplicateCheck s)).

(** [jitter] is the random delay before the next check. *)
Definition checkDuplicatedIfNeeded (s : Synchronizer) (answer : duplicateAnswer) (jitter : Z)
    (executionStartedAt : Z) (force : bool) : Synchronizer * option syncError :=
  if negb (shouldCheckDuplicatedLocked s executionStartedAt force) then (s, None)
  else
    match checkDuplicated s answer with
    | (s, Some err) => (s, Some err)
    | (s, None) => (setDuplicateCheck s (syNow s) (Time.Add (syNow s) jitter), None)
    end.

Definition SetMaintenance (s : Synchronizer) (answer : duplicateAnswer) (jitter : Z) (maintenance : bool) :
    Synchronizer :=
  let s :=
    if syMaintenanceMode s && negb maintenance
    then fst (checkDuplicatedIfNeeded s answer jitter (syNow s) true) else s in
  setModes s maintenance (sySuspendedMode s).

Definition SetSuspended (s : Synchronizer) (suspended : bool) : Synchronizer :=
  setModes s (syMaintenanceMode s) suspended.

(** ** What happens between the steps of an execution

    The clock advances, other goroutines call the methods above, and the
    callbacks of the connector change the modes. *)
Inductive sAction :=
  | sTick (d : N)
  | sNotifyConfigUpdate (immediate : bool)
  | sUpdateMetrics (metricUUID : list string)
  | sUpdateContainers
  | sUpdateFacts (delay : Z)
  | sUpdateInfo
  | sUpdateMonitors
  | sUpdateMaintenance (delay : Z)
  | sUpdateAgent (delay : Z)
  | sUpdateMonitor (op uuid : string)
  | sUpdateK8SAgentList
  | sSetMQTTConnected (connected : bool)
  | sDisable (until : Z) (reason : DisableReason)
  | sClearDisable (reason : DisableReason) (delay : Z)
  | sSetMaintenance (answer : duplicateAnswer) (jitter : Z) (maintenance : bool)
  | sSetSuspended (suspended : bool)
  | sServer (fetchedAt nextConfigAt : Z).

Definition sAct (s : Synchronizer) (a : sAction) : Synchronizer :=
  match a with
  | sTick d => setNow s (syNow s + Z.of_N d)
  | sNotifyConfigUpdate immediate => NotifyConfigUpdate s immediate
  | sUpdateMetrics metricUUID => UpdateMetrics s metricUUID
  | sUpdateContainers => UpdateContainers s
  | sUpdateFacts delay => UpdateFacts s delay
  | sUpdateInfo => UpdateInfo s
  | sUpdateMonitors => UpdateMonitors s
  | sUpdateMaintenance delay => UpdateMaintenance s delay
  | sUpdateAgent delay => UpdateAgent s delay
  | sUpdateMonitor op uuid => UpdateMonitor s op uuid
  | sUpdateK8SAgentList => UpdateK8SAgentList s
  | sSetMQTTConnected connected => SetMQTTConnected s connected
  | sDisable until reason => Disable s until reason
  | sClearDisable reason delay => ClearDisable s reason delay
  | sSetMaintenance answer jitter maintenance => SetMaintenance s answer jitter maintenance
  | sSetSuspended suspended => SetSuspended s suspended
  | sServer fetchedAt nextConfigAt => setServer s fetchedAt nextConfigAt
  end.

(** ** Requests only get stronger and earlier *)

Definition joins (r r' : SyncRequest) : Prop :=
  syncRank (rqType r) ≤ syncRank (rqType r') ∧ rqDeadline r' ≤ rqDeadline r.

Definition requestsLe (m m' : gmap EntityName SyncRequest) : Prop :=
  ∀ k r, m !! k = Some r → ∃ r', m' !! k = Some r' ∧ joins r r'.

#[export] Instance joins_preorder : PreOrder joins.
Proof. split; [intros r; split; lia|]. intros r1 r2 r3 [??] [??]. split; lia. Qed.

#[export] Instance requestsLe_preorder : PreOrder requestsLe.
Proof.
  split; [intros m k r ?; by exists r|].
  intros m1 m2 m3 H1 H2 k r Hk. destruct (H1 k r Hk) as (r2 & Hk2 & ?).
  destruct (H2 k r2 Hk2) as (r3 & ? & ?). exists r3. split; [done|by etrans].
Qed.

(** What a request leaves behind: the strongest type and the earliest deadline. *)
Lemma requestLater_lookup (s : Synchronizer) (k : EntityName) (force : bool) (delay : Z) :
  ∃ r', syForceSync (requestLaterSynchronizationLocked s k force delay) !! k = Some r' ∧
    syncRank (if force then SyncTypeForceCacheRefresh else SyncTypeNormal) ≤ syncRank (rqType r') ∧
    rqDeadline r' ≤ syNow s + delay ∧
    (∀ r, syForceSync s !! k = Some r → joins r r').
Proof.
  unfold requestLaterSynchronizationLocked, Time.Add, Time.Before. cbn [syForceSync setForceSync].
  rewrite lookup_insert_eq. eexists. split; [done|]. cbn [rqType rqDeadline].
  destruct (syForceSync s !! k) as [r|] eqn:Hk; cbn [from_option id].
  - rewrite (bool_decide_false (Some r = None)) by done. cbn [orb].
    split_and!.
    + destruct force; [done|]. case_bool_decide; [done|]. by destruct (rqType r).
    + case_match; lia.
    + intros r0 [= <-]. split; cbn.
      * destruct force; [by destruct (rqType r)|]. case_bool_decide as E; [by rewrite E|done].
      * case_match; lia.
  - rewrite !bool_decide_true by done. split_and!; [by destruct force|cbn; lia|done].
Qed.

Lemma requestLater_other (s : Synchronizer) (k k' : EntityName) (force : bool) (delay : Z) :
  k ≠ k' →
  syForceSync (requestLaterSynchronizationLocked s k force delay) !! k' = syForceSync s !! k'.
Proof. intros. cbn. by rewrite lookup_insert_ne. Qed.

(** The order on synchronizers: time advances, requests get joined. *)
Definition sAdvance (s s' : Synchronizer) : Prop :=
  syNow s ≤ syNow s' ∧ requestsLe (syForceSync s) (syForceSync s').

#[export] Instance sAdvance_preorder : PreOrder sAdvance.
Proof.
  split; [intros s; split; [lia|done]|]. intros s1 s2 s3 [??] [??]. split; [lia|by etrans].
Qed.

Lemma requestLater_advance (s : Synchronizer) (k : EntityName) (force : bool) (delay : Z) :
  sAdvance s (requestLaterSynchronizationLocked s k force delay).
Proof.
  split; [done|]. intros k' r Hk. destruct (decide (k = k')) as [<-|Hne].
  - destruct (requestLater_lookup s k force delay) as (r' & ? & _ & _ & Hj). exists r'. auto.
  - rewrite requestLater_other by done. by exists r.
Qed.

Create HintDb sync.
#[export] Hint Resolve requestLater_advance : sync.

Lemma advance_same (s s' : Synchronizer) :
  syNow s' = syNow s → syForceSync s' = syForceSync s → sAdvance s s'.
Proof. intros Hn Hf. split; [lia|]. by rewrite Hf. Qed.

#[export] Hint Resolve advance_same : sync.

Lemma request_advance (s : Synchronizer) (k : EntityName) (force : bool) :
  sAdvance s (requestSynchronizationLocked s k force).
Proof. apply requestLater_advance. Qed.

#[export] Hint Resolve request_advance : sync.

Lemma Disable_advance (s : Synchronizer) (until : Z) (reason : DisableReason) :
  sAdvance s (Disable s until reason).
Proof. unfold Disable. case_match; auto with sync. Qed.

Lemma getDisabledUntil_advance (s : Synchronizer) : sAdvance s (getDisabledUntil s).1.1.
Proof. unfold getDisabledUntil. cbn. case_match; auto with sync. Qed.

Lemma checkDuplicatedIfNeeded_advance (s : Synchronizer) (answer : duplicateAnswer) (jitter startedAt : Z) (force : bool) :
  sAdvance s (checkDuplicatedIfNeeded s answer jitter startedAt force).1.
Proof.
  unfold checkDuplicatedIfNeeded. destruct (negb _); [done|].
  destruct answer; cbn; auto using Disable_advance with sync.
Qed.

#[export] Hint Resolve Disable_advance getDisabledUntil_advance checkDuplicatedIfNeeded_advance : sync.

Ltac advance_steps :=
  repeat first [reflexivity | apply request_advance | apply requestLater_advance
               | apply advance_same; reflexivity
               | etrans; [|apply request_advance]].

Lemma SetMQTTConnected_advance (s : Synchronizer) (connected : bool) : sAdvance s (SetMQTTConnected s connected).
Proof.
  unfold SetMQTTConnected. destruct (_ <? _); [done|]. destruct (default _ _ && _); [|by apply advance_same].
  etrans; [|apply advance_same; reflexivity]. etrans; [|apply request_advance]. by apply advance_same.
Qed.

Lemma SetMaintenance_advance (s : Synchronizer) (answer : duplicateAnswer) (jitter : Z) (maintenance : bool) :
  sAdvance s (SetMaintenance s answer jitter maintenance).
Proof.
  unfold SetMaintenance. set (s0 := if (_ : bool) then _ else s). transitivity s0; [|by apply advance_same].
  subst s0. destruct (_ && _); [|done]. auto with sync.
Qed.

#[export] Hint Resolve SetMQTTConnected_advance SetMaintenance_advance : sync.

Lemma sAct_advance (s : Synchronizer) (a : sAction) : sAdvance s (sAct s a).
Proof.
  destruct a; cbn [sAct]; unfold UpdateMonitors, UpdateMonitor; try (by auto with sync); try (by advance_steps).
  - split; [cbn; lia|done].
  - unfold NotifyConfigUpdate. destruct immediate; cbn [negb]; advance_steps.
  - unfold UpdateMetrics. case_bool_decide.
    + etrans; [apply (request_advance s "metric" true)|by apply advance_same].
    + etrans; [|apply request_advance]. by apply advance_same.
  - unfold ClearDisable. destruct (_ && _); [by apply advance_same|done].
Qed.
