(* ===== verification/MqttPoints.v ===== *)
(** The points on their way to the cloud (bleemeo/internal/mqtt/mqtt.go): they wait in a list, are sent in batches to the
    agent of their metric, and those that cannot be sent are kept to be tried again, within limits.

    What the code reads around itself at one call (the clock, the connection, the cache, the store, the containers) is
    a [moment]; the clock is read once per call.  [tooLarge] is the test of the size of an encoded message, [range]
    the order in which Go visits a map.  [maxPendingPoints], [cleanupBatchSize] and [maxPointAge] are the fields of
    failedPointsCache. *)
From S2P Require Import Prelude Labels Float64 Points Services MetricRegister Limits MetricsState SyncState.

#[local] Open Scope string_scope.
#[local] Open Scope Z_scope.

Definition maxPendingPointsDefault : Z := 100000.
Definition cleanupBatchSizeDefault : Z := 1000.
Definition failedPointsMaxAge : Z := Time.hour.
Definition pointsBatchSize : nat := 1000.
Definition dataAckBackPressureDelay : Z := 6 * Time.minute + 10 * Time.second.

(** * Data *)
Record storedPoint := mkStored { spLabelsText : string; spPoint : Point; spAnnotations : MetricAnnotations; spAddedAt : Z }.

Record failedPointsCache := mkFailed { fcPoints : list storedPoint; fcExists : gset string; fcTooMany : Z }.

Record metricPayload := mkMetricPayload {
  pyUUID : string; pyLabelsText : string; pyTimestampMS : Z; pyValue : float64; pyStatus : string; pyStatusDescription : string;
  pyEventGracePeriod : Z }.

Record Client := mkClient {
  clPending : list MetricPoint;
  clFailed : failedPointsCache;
  clLastRegisteredMetricsCount : Z;
  clLastFailedPointsRetry : Z;
  clSendingSuspended : bool;
  clBufferingSuspended : bool;
  clDisableReason : DisableReason;
  clLastAck : Z;
  clDataStreamAvailable : bool
}.

Record moment := mkMoment {
  moNow : Z;
  moConnected : bool;
  moCache : cache;
  (** the account configuration, even when the cache says it is not complete *)
  moConfig : AccountConfig;
  moLastMetricActivation : Z;
  (** the labels of the metrics of the store *)
  moStore : option (list Labels);
  moContainerExists : string → bool;
  moContainerLastKill : string → Z;
  moDisabledUntil : Z
}.

Definition setFailed (c : Client) (f : failedPointsCache) : Client :=
  mkClient (clPending c) f (clLastRegisteredMetricsCount c) (clLastFailedPointsRetry c) (clSendingSuspended c) (clBufferingSuspended c)
    (clDisableReason c) (clLastAck c) (clDataStreamAvailable c).

Definition setPendingPoints (c : Client) (points : list MetricPoint) : Client :=
  mkClient points (clFailed c) (clLastRegisteredMetricsCount c) (clLastFailedPointsRetry c) (clSendingSuspended c) (clBufferingSuspended c)
    (clDisableReason c) (clLastAck c) (clDataStreamAvailable c).

Definition setRetried (c : Client) (count at_ : Z) : Client :=
  mkClient (clPending c) (clFailed c) count at_ (clSendingSuspended c) (clBufferingSuspended c)
    (clDisableReason c) (clLastAck c) (clDataStreamAvailable c).

(** What the other goroutines set. *)
Definition setMode (c : Client) (sendingSuspended bufferingSuspended : bool) (reason : DisableReason) (lastAck : Z) (dataAvailable : bool) : Client :=
  mkClient (clPending c) (clFailed c) (clLastRegisteredMetricsCount c) (clLastFailedPointsRetry c) sendingSuspended bufferingSuspended
    reason lastAck dataAvailable.

Section Points.
Variable AgentType_Agent : string.
Variable agentID : string.
Variables maxPendingPoints cleanupBatchSize maxPointAge : Z.

(** * The failed points *)
Definition popNoLock (p : failedPointsCache) : failedPointsCache * list storedPoint := (mkFailed [] ∅ (fcTooMany p), fcPoints p).

Definition append (p : failedPointsCache) (points : list storedPoint) : failedPointsCache :=
  mkFailed (fcPoints p ++ points)%list (fcExists p ∪ list_to_set (spLabelsText <$> points)) (fcTooMany p).

(** [None]: a slice out of range, or no more fuel. *)
Fixpoint addNoLock (cleanup : list storedPoint → list storedPoint) (fuel : nat) (p : failedPointsCache) (points : list storedPoint) :
    option failedPointsCache :=
  match fuel with
  | O => None
  | S fuel =>
      let p := append p points in
      if maxPendingPoints + cleanupBatchSize <? Z.of_nat (length (fcPoints p)) then
        let p := mkFailed (fcPoints p) (fcExists p) (fcTooMany p + 1) in
        let '(p, newPoints) := popNoLock p in
        let newPoints := if Z.rem (fcTooMany p) 50 =? 0 then cleanup newPoints else newPoints in
        let numberToDrop := Z.of_nat (length newPoints) - (maxPendingPoints - cleanupBatchSize) in
        if 0 <? numberToDrop then
          if Z.of_nat (length newPoints) <? numberToDrop then None
          else addNoLock cleanup fuel p (drop (Z.to_nat numberToDrop) newPoints)
        else addNoLock cleanup fuel p newPoints
      else Some p
  end.

Definition toStored (now : Z) (p : MetricPoint) : storedPoint :=
  mkStored (LabelsToText (mpLabels p)) (mpPoint p) (mpAnnotations p) now.

Definition Add (cleanup : list storedPoint → list storedPoint) (now : Z) (p : failedPointsCache) (points : list MetricPoint) : option failedPointsCache :=
  addNoLock cleanup 2 p (toStored now <$> points).

Definition storedToMetricPoint (sp : storedPoint) : MetricPoint :=
  mkMetricPoint (spPoint sp) (default ∅ (TextToLabels (spLabelsText sp))) (spAnnotations sp).

Definition Pop (now : Z) (p : failedPointsCache) : failedPointsCache * list MetricPoint :=
  let '(p, stored) := popNoLock p in
  let stored := if 0 <? maxPointAge then base.filter (λ sp, now - maxPointAge < spAddedAt sp) stored else stored in
  (p, storedToMetricPoint <$> stored).

Definition Contains (p : failedPointsCache) (labels : Labels) : bool := bool_decide (LabelsToText labels ∈ fcExists p).

(** * The client *)
Definition NewFilter (m : moment) : Filter := NewFilterWithConfig (moCache m) (moConfig m).

(** Whether a point is kept by the filter of the plan. *)
Definition allowedPoint (m : moment) (labels : Labels) (annotations : MetricAnnotations) (value : float64) : bool :=
  negb (Float.IsNaN value)
  && match IsAllowed AgentType_Agent (NewFilter m) labels annotations with (_, _, true) => false | (allowed, _, false) => allowed end.

Definition filterPoints (m : moment) (input : list MetricPoint) : list MetricPoint :=
  base.filter (λ mp, allowedPoint m (mpLabels mp) (mpAnnotations mp) (ptValue (mpPoint mp)) = true) input.

Definition cleanupFailedPoints (m : moment) (failedPoints : list storedPoint) : list storedPoint :=
  match moStore m with
  | None => failedPoints
  | Some localMetrics =>
      let localExistsByKey : gset string := list_to_set (LabelsToText <$> localMetrics) in
      base.filter (λ p, bool_decide (spLabelsText p ∈ localExistsByKey)
        && allowedPoint m (default ∅ (TextToLabels (spLabelsText p))) (spAnnotations p) (ptValue (spPoint p)) = true) failedPoints
  end.

Definition addPoints (m : moment) (c : Client) (points : list MetricPoint) : Client :=
  if (moNow m <? moDisabledUntil m) && match clDisableReason c with DisableDuplicatedAgent | DisableTimeDrift => true | _ => false end
  then c else setPendingPoints c (clPending c ++ points)%list.

Definition PopPoints (m : moment) (c : Client) (includeFailedPoints : bool) : Client * list MetricPoint :=
  if includeFailedPoints then
    let '(f, points) := Pop (moNow m) (clFailed c) in (setPendingPoints (setFailed c f) [], (points ++ clPending c)%list)
  else (setPendingPoints c [], clPending c).

(** Whether a metric was refused for good. *)
Definition refusedMetric (m : moment) (p : MetricPoint) : bool :=
  match MetricRegistrationsFailByKey (moCache m) !! MetricKey (mpLabels p) (mpAnnotations p) agentID with
  | Some reg => (5 <? rgFailCounter reg) || IsPermanentFailure (rgLastFailKind reg)
  | None => false
  end.

Fixpoint addFailedLoop (m : moment) (f : failedPointsCache) (points : list MetricPoint) : option failedPointsCache :=
  match points with
  | [] => Some f
  | p :: points =>
      if refusedMetric m p then addFailedLoop m f points
      else f ← Add (cleanupFailedPoints m) (moNow m) f [p]; addFailedLoop m f points
  end.

Definition addFailedPoints (m : moment) (c : Client) (points : list MetricPoint) : option Client :=
  if clBufferingSuspended c then Some c
  else f ← addFailedLoop m (clFailed c) points; Some (setFailed c f).

(** A grace period of at most five minutes, as long as the kill is in the past, has a number of seconds that binary64 holds. *)
Definition payloadOf (m : moment) (metric : Metric) (p : MetricPoint) : metricPayload :=
  let onlyItem := MetricOnlyHasItem (default ∅ (TextToLabels (mLabelsText metric))) (mAgentID metric) in
  let status := AnnStatus (mpAnnotations p) in
  let isSet := Status.IsSet (sdCurrentStatus status) in
  let container := ContainerID (mpAnnotations p) in
  let gracePeriod := Int.int64 (5 * Time.minute - Time.Sub (moNow m) (moContainerLastKill m container)) in
  mkMetricPayload (if onlyItem then mID metric else "") (if onlyItem then "" else mLabelsText metric)
    (Time.UnixMilli (ptTime (mpPoint p))) (ptValue (mpPoint p))
    (if isSet then Status.String (sdCurrentStatus status) else "")
    (if isSet then sdStatusDescription status else "")
    (if isSet && bool_decide (container ≠ "") && (Time.minute <? gracePeriod) then gracePeriod / Time.second else 0).

(** The metric a point is sent for, if it is. *)
Definition sendable (registered : gmap string Metric) (f : failedPointsCache) (p : MetricPoint) : option Metric :=
  match registered !! MetricKey (mpLabels p) (mpAnnotations p) agentID with
  | None => None
  | Some metric => if negb (Time.IsZero (mDeactivatedAt metric)) || Contains f (mpLabels p) then None else Some metric
  end.

(** One turn of the loop.  The last component records the points that are sent. *)
Definition prepareOne (m : moment) (registered : gmap string Metric)
    (acc : Client * gmap string (list metricPayload) * list MetricPoint) (p : MetricPoint) :
    option (Client * gmap string (list metricPayload) * list MetricPoint) :=
  let '(c, payloads, sent) := acc in
  match sendable registered (clFailed c) p with
  | None =>
      if bool_decide (ContainerID (mpAnnotations p) = "") || moContainerExists m (ContainerID (mpAnnotations p))
      then c ← addFailedPoints m c [p]; Some (c, payloads, sent)
      else Some (c, payloads, sent)
  | Some metric =>
      Some (c, <[mAgentID metric := (default [] (payloads !! mAgentID metric) ++ [payloadOf m metric p])%list]> payloads, (sent ++ [p])%list)
  end.

Fixpoint preparePoints (m : moment) (registered : gmap string Metric) (acc : Client * gmap string (list metricPayload) * list MetricPoint)
    (points : list MetricPoint) : option (Client * gmap string (list metricPayload) * list MetricPoint) :=
  match points with
  | [] => Some acc
  | p :: points => acc ← prepareOne m registered acc p; preparePoints m registered acc points
  end.

(** Whether nothing can be sent now. *)
Definition cannotSend (m : moment) (c : Client) : bool :=
  negb (moConnected m) || clSendingSuspended c || negb (clDataStreamAvailable c)
  || (negb (Time.IsZero (clLastAck c)) && (dataAckBackPressureDelay <? Time.Sub (moNow m) (clLastAck c))).

Definition sendPointsMakePayload (m : moment) (c : Client) (points : list MetricPoint) :
    option (Client * gmap string (list metricPayload) * list MetricPoint) :=
  if cannotSend m c then
    c ← addFailedPoints m c (filterPoints m points);
    Some (setRetried c (clLastRegisteredMetricsCount c) 0, ∅, [])
  else
    let registered := MetricLookupFromList (ccMetrics (moCache m)) in
    let '(c, points) :=
      if negb (bool_decide (fcPoints (clFailed c) = []))
         && ((5 * Time.minute <? Time.Sub (moNow m) (clLastFailedPointsRetry c))
             || negb (Z.of_nat (size registered) =? clLastRegisteredMetricsCount c)
             || (clLastFailedPointsRetry c <? moLastMetricActivation m)) then
        let '(f, failed) := Pop (moNow m) (clFailed c) in
        (setFailed (setRetried c (Z.of_nat (size registered)) (moNow m)) f, (failed ++ points)%list)
      else (c, points) in
    preparePoints m registered (c, ∅, []) (filterPoints m points).

(** * The messages *)
Definition finite (f : float64) : bool := negb (Float.expo f =? 2047).

Fixpoint batches (fuel : nat) (l : list metricPayload) : list (list metricPayload) :=
  match fuel, l with
  | S fuel, _ :: _ => take pointsBatchSize l :: batches fuel (drop pointsBatchSize l)
  | _, _ => []
  end.

(** [PublishAsJSON]: encoding/json has no infinities; an error is logged. *)
Definition publish (tooLarge : list metricPayload → bool) (agent : string) (batch : list metricPayload) : list (string * list metricPayload) :=
  if forallb (λ p, finite (pyValue p)) batch && negb (tooLarge batch) then [(agent, batch)] else [].

Definition sendPoints (tooLarge : list metricPayload → bool) (range : gmap string (list metricPayload) → list (string * list metricPayload))
    (m : moment) (c : Client) : option (Client * list (string * list metricPayload) * list MetricPoint) :=
  let '(c, points) := PopPoints m c false in
  r ← sendPointsMakePayload m c points;
  let '(c, payloads, sent) := r in
  Some (c, range payloads ≫= λ '(agent, payload), batches (length payload) payload ≫= publish tooLarge agent, sent).
End Points.

(** * What a history of the client does *)
Section History.
Variable AgentType_Agent : string.
Variable agentID : string.
Variables maxPendingPoints cleanupBatchSize maxPointAge : Z.
Variable tooLarge : list metricPayload → bool.
Variable range : gmap string (list metricPayload) → list (string * list metricPayload).
Hypothesis limits : 0 ≤ cleanupBatchSize ≤ maxPendingPoints.

#[local] Notation Pop := (Pop maxPointAge).
#[local] Notation sendPoints := (sendPoints AgentType_Agent agentID maxPendingPoints cleanupBatchSize maxPointAge tooLarge range).
#[local] Notation addNoLock := (addNoLock maxPendingPoints cleanupBatchSize).
#[local] Notation addFailedLoop := (addFailedLoop AgentType_Agent agentID maxPendingPoints cleanupBatchSize).
#[local] Notation addFailedPoints := (addFailedPoints AgentType_Agent agentID maxPendingPoints cleanupBatchSize).
#[local] Notation prepareOne := (prepareOne AgentType_Agent agentID maxPendingPoints cleanupBatchSize).
#[local] Notation preparePoints := (preparePoints AgentType_Agent agentID maxPendingPoints cleanupBatchSize).
#[local] Notation makePayload := (sendPointsMakePayload AgentType_Agent agentID maxPendingPoints cleanupBatchSize maxPointAge).
#[local] Notation filterPoints := (filterPoints AgentType_Agent).

(** The points of a series, which the text of its labels identifies. *)
Definition series (t : string) (l : list MetricPoint) : list Point := mpPoint <$> base.filter (λ p, LabelsToText (mpLabels p) = t) l.
Definition storedSeries (t : string) (l : list storedPoint) : list Point := spPoint <$> base.filter (λ sp, spLabelsText sp = t) l.

#[local] Arguments series : simpl never.
#[local] Arguments storedSeries : simpl never.

Definition goodLabels (labels : Labels) : Prop := ∀ k v, labels !! k = Some v → good_key k.

(** The failed points: the set of their labels is that of the list, which is bounded, and the labels can be read back. *)
Record okFailed (f : failedPointsCache) : Prop := {
  ok_exists : fcExists f = list_to_set (spLabelsText <$> fcPoints f);
  ok_bound : Z.of_nat (length (fcPoints f)) ≤ maxPendingPoints + cleanupBatchSize;
  ok_labels : Forall (λ sp, ∃ labels, goodLabels labels ∧ spLabelsText sp = LabelsToText labels) (fcPoints f)
}.

Lemma series_app (t : string) (l k : list MetricPoint) : series t (l ++ k) = (series t l ++ series t k)%list.
Proof. unfold series. by rewrite filter_app, fmap_app. Qed.

Lemma storedSeries_app (t : string) (l k : list storedPoint) : storedSeries t (l ++ k) = (storedSeries t l ++ storedSeries t k)%list.
Proof. unfold storedSeries. by rewrite filter_app, fmap_app. Qed.

Lemma filter_sublist {A : Type} (P : A → Prop) `{∀ x, Decision (P x)} (l k : list A) : l `sublist_of` k → base.filter P l `sublist_of` base.filter P k.
Proof.
  induction 1 as [|x l k _ IH|x l k _ IH]; [done| |]; rewrite !filter_cons; case_decide; try done; by constructor.
Qed.

Lemma map_sublist {A B : Type} (f : A → B) (l k : list A) : l `sublist_of` k → f <$> l `sublist_of` f <$> k.
Proof. induction 1; cbn; by constructor. Qed.

Lemma series_sublist (t : string) (l k : list MetricPoint) : l `sublist_of` k → series t l `sublist_of` series t k.
Proof. intros H. unfold series. by apply map_sublist, filter_sublist. Qed.

Lemma storedSeries_sublist (t : string) (l k : list storedPoint) : l `sublist_of` k → storedSeries t l `sublist_of` storedSeries t k.
Proof. intros H. unfold storedSeries. by apply map_sublist, filter_sublist. Qed.

Lemma series_stored (t : string) (now : Z) (l : list MetricPoint) : storedSeries t (toStored now <$> l) = series t l.
Proof.
  unfold storedSeries, series. induction l as [|p l IH]; [done|]. rewrite fmap_cons, !filter_cons. cbn [spLabelsText toStored].
  case_decide; [|done]. rewrite !fmap_cons. by rewrite IH.
Qed.

(** The labels that are read back have the same text. *)
Lemma text_stable (labels : Labels) : goodLabels labels → LabelsToText (default ∅ (TextToLabels (LabelsToText labels))) = LabelsToText labels.
Proof.
  intros H. rewrite TextToLabels_LabelsToText by done. cbn [default]. rewrite !LabelsToText_render. f_equal. apply present_canonical.
  apply map_filter_id. by intros k v [_ ?]%map_lookup_filter_Some.
Qed.

(** Adding keeps the order and may forget points, the oldest first or those the cleaning removes. *)
Lemma addNoLock_spec (cleanup : list storedPoint → list storedPoint) (f : failedPointsCache) (points : list storedPoint) :
  (∀ l, cleanup l `sublist_of` l) → okFailed f →
  Forall (λ sp, ∃ labels, goodLabels labels ∧ spLabelsText sp = LabelsToText labels) points →
  ∃ f', addNoLock cleanup 2 f points = Some f' ∧ okFailed f' ∧ fcPoints f' `sublist_of` (fcPoints f ++ points)%list.
Proof.
  intros Hclean [He Hb Hl] Hp. cbn [MqttPoints.addNoLock].
  set (all := fcPoints (append f points)).
  assert (all = (fcPoints f ++ points)%list) as Hall by done. assert (Forall (λ sp, ∃ labels, goodLabels labels ∧ spLabelsText sp = LabelsToText labels) all)
    as Hgood by (rewrite Hall; by apply Forall_app).
  destruct (Z.ltb_spec (maxPendingPoints + cleanupBatchSize) (Z.of_nat (length all))) as [Hlt|Hle].
  - cbn [popNoLock fcPoints fcTooMany]. set (kept := if Z.rem _ 50 =? 0 then cleanup all else all).
    assert (kept `sublist_of` all) as Hk by (unfold kept; by destruct (_ =? 0)).
    assert (∀ l, l `sublist_of` all → Z.of_nat (length l) ≤ maxPendingPoints + cleanupBatchSize → okFailed (append (mkFailed [] ∅ (fcTooMany f + 1)) l)) as Hok.
    { intros l Hsub Hlen. split; cbn; [by rewrite (left_id_L ∅ (∪))|done|]. apply Forall_forall. intros sp Hsp.
      rewrite Forall_forall in Hgood. apply Hgood. by eapply elem_of_sublist. }
    destruct (Z.ltb_spec 0 (Z.of_nat (length kept) - (maxPendingPoints - cleanupBatchSize))) as [Hdrop|Hno].
    + rewrite (proj2 (Z.ltb_ge _ _)) by lia. set (rest := drop _ kept).
      assert (rest `sublist_of` all) as Hr by (etrans; [apply sublist_drop|done]).
      assert (Z.of_nat (length rest) ≤ maxPendingPoints + cleanupBatchSize) as Hlen by (unfold rest; rewrite length_drop; lia).
      cbn [fcPoints append app]. rewrite (proj2 (Z.ltb_ge _ _)) by done. eexists. split; [done|]. split; [by apply Hok|]. cbn. by rewrite <- Hall.
    + cbn [fcPoints append app]. rewrite (proj2 (Z.ltb_ge _ _)) by lia. eexists. split; [done|]. split; [apply Hok; [done|lia]|]. cbn. by rewrite <- Hall.
  - eexists. split; [done|]. split; [|by cbn]. split; cbn; [|by rewrite <- Hall|by rewrite <- Hall]. rewrite He, fmap_app, list_to_set_app_L. done.
Qed.

Lemma cleanup_sublist (m : moment) (l : list storedPoint) : cleanupFailedPoints AgentType_Agent m l `sublist_of` l.
Proof. unfold cleanupFailedPoints. destruct (moStore m); [apply sublist_filter|done]. Qed.

Lemma addFailedLoop_spec (m : moment) (points : list MetricPoint) (f : failedPointsCache) :
  okFailed f → Forall (λ p, goodLabels (mpLabels p)) points →
  ∃ f', addFailedLoop m f points = Some f' ∧ okFailed f' ∧ fcPoints f' `sublist_of` (fcPoints f ++ (toStored (moNow m) <$> points))%list.
Proof.
  intros Hf Hp. revert f Hf. induction Hp as [|p points Hp Hps IH]; intros f Hf; cbn [MqttPoints.addFailedLoop].
  { eexists. split; [done|]. split; [done|]. by rewrite app_nil_r. }
  rewrite fmap_cons. destruct (refusedMetric agentID m p).
  - destruct (IH f Hf) as (f' & -> & Hf' & Hsub). eexists. split; [done|]. split; [done|]. etrans; [done|].
    apply sublist_app; [done|]. by constructor.
  - unfold Add. destruct (addNoLock_spec (cleanupFailedPoints AgentType_Agent m) f (toStored (moNow m) <$> [p])) as (f1 & -> & Hf1 & Hs1);
      [apply cleanup_sublist|done|apply Forall_singleton; by exists (mpLabels p)|].
    cbn [mbind option_bind]. destruct (IH f1 Hf1) as (f' & -> & Hf' & Hsub). eexists. split; [done|]. split; [done|]. etrans; [done|].
    rewrite cons_middle, (assoc_L (++)). by apply sublist_app.
Qed.

Lemma addFailedPoints_spec (m : moment) (points : list MetricPoint) (c : Client) :
  okFailed (clFailed c) → Forall (λ p, goodLabels (mpLabels p)) points →
  ∃ f', addFailedPoints m c points = Some (setFailed c f') ∧ okFailed f' ∧
    ∀ t, storedSeries t (fcPoints f') `sublist_of` (storedSeries t (fcPoints (clFailed c)) ++ series t points)%list.
Proof.
  intros Hf Hp. unfold MqttPoints.addFailedPoints. destruct (clBufferingSuspended c).
  - exists (clFailed c). split; [by destruct c|]. split; [done|]. intros t. by apply sublist_inserts_r.
  - destruct (addFailedLoop_spec m points (clFailed c) Hf Hp) as (f' & -> & Hf' & Hsub). exists f'. split; [done|]. split; [done|].
    intros t. rewrite <- (series_stored t (moNow m)), <- storedSeries_app. by apply storedSeries_sublist.
Qed.

Lemma contains_false (f : failedPointsCache) (labels : Labels) :
  okFailed f → Contains f labels = false → storedSeries (LabelsToText labels) (fcPoints f) = [].
Proof.
  intros Hf Hc. unfold Contains in Hc. apply bool_decide_eq_false in Hc. rewrite (ok_exists _ Hf) in Hc. unfold storedSeries.
  destruct (base.filter _ (fcPoints f)) as [|sp l] eqn:Hl; [done|]. destruct Hc. apply elem_of_list_to_set, list_elem_of_fmap. exists sp.
  assert (sp ∈ base.filter (λ sp, spLabelsText sp = LabelsToText labels) (fcPoints f)) as [? ?]%list_elem_of_filter by (rewrite Hl; by left). done.
Qed.

Lemma series_cons (t : string) (p : MetricPoint) (l : list MetricPoint) :
  series t (p :: l) = ((if decide (LabelsToText (mpLabels p) = t) then [mpPoint p] else []) ++ series t l)%list.
Proof. unfold series. rewrite filter_cons. by case_decide. Qed.

Lemma preparePoints_spec (m : moment) (registered : gmap string Metric) (points : list MetricPoint) (c : Client)
    (payloads : gmap string (list metricPayload)) (sent : list MetricPoint) :
  okFailed (clFailed c) → Forall (λ p, goodLabels (mpLabels p)) points →
  ∃ f' payloads' sent', preparePoints m registered (c, payloads, sent) points = Some (setFailed c f', payloads', sent') ∧ okFailed f' ∧
    ∀ t, (series t sent' ++ storedSeries t (fcPoints f'))%list
      `sublist_of` (series t sent ++ storedSeries t (fcPoints (clFailed c)) ++ series t points)%list.
Proof.
  intros Hf Hp. revert c payloads sent Hf. induction Hp as [|p points Hp Hps IH]; intros c payloads sent Hf; cbn [MqttPoints.preparePoints].
  { exists (clFailed c), payloads, sent. split; [by destruct c|]. split; [done|]. intros t. by rewrite app_nil_r. }
  unfold MqttPoints.prepareOne. destruct (sendable agentID registered (clFailed c) p) as [metric|] eqn:Hs.
  - cbn [mbind option_bind]. match goal with |- context [preparePoints m registered (c, ?pl, ?se) points] => destruct (IH c pl se Hf) as (f' & payloads' & sent' & -> & Hf' & H) end.
    do 3 eexists. split; [done|]. split; [done|]. intros t. etrans; [apply H|]. rewrite series_app, !series_cons. cbn [series app].
    case_decide as Ht; [|by rewrite app_nil_r]. subst t.
    assert (Contains (clFailed c) (mpLabels p) = false) as Hc.
    { unfold sendable in Hs. destruct (registered !! _); [|done]. destruct (negb _); [done|]. cbn in Hs. by destruct (Contains _ _). }
    rewrite (contains_false _ _ Hf Hc), !app_nil_l, app_nil_r. by rewrite <- (assoc_L (++)).
  - destruct (_ || _).
    + destruct (addFailedPoints_spec m [p] c Hf) as (f1 & -> & Hf1 & H1); [by apply Forall_singleton|]. cbn [mbind option_bind].
      destruct (IH (setFailed c f1) payloads sent Hf1) as (f' & payloads' & sent' & -> & Hf' & H). exists f', payloads', sent'. split; [by destruct c|]. split; [done|].
      intros t. etrans; [apply H|]. apply sublist_app; [done|]. rewrite series_cons. etrans; [apply sublist_app; [apply H1|done]|]. rewrite series_cons.
      by rewrite app_nil_r, (assoc_L (++)).
    + cbn [mbind option_bind]. destruct (IH c payloads sent Hf) as (f' & payloads' & sent' & -> & Hf' & H). do 3 eexists. split; [done|]. split; [done|].
      intros t. etrans; [apply H|]. apply sublist_app; [done|]. apply sublist_app; [done|]. rewrite series_cons. by apply sublist_inserts_l.
Qed.

Lemma Pop_spec (now : Z) (f : failedPointsCache) :
  okFailed f →
  let '(f', points) := Pop now f in
  okFailed f' ∧ fcPoints f' = [] ∧ Forall (λ p, goodLabels (mpLabels p)) points ∧ ∀ t, series t points `sublist_of` storedSeries t (fcPoints f).
Proof.
  intros Hf. unfold MqttPoints.Pop. cbn [popNoLock]. set (stored := if _ <? _ then _ else _).
  assert (stored `sublist_of` fcPoints f) as Hsub by (unfold stored; destruct (_ <? _); [apply sublist_filter|done]).
  assert (Forall (λ sp, ∃ labels, goodLabels labels ∧ spLabelsText sp = LabelsToText labels) stored) as Hgood.
  { apply Forall_forall. intros sp Hin. pose proof (ok_labels _ Hf) as Hl. rewrite Forall_forall in Hl. apply Hl. by eapply elem_of_sublist. }
  split; [split; [done|cbn; lia|constructor]|]. split; [done|]. split.
  - apply Forall_fmap. eapply Forall_impl; [done|]. intros sp (labels & Hl & Heq). cbn. rewrite Heq, TextToLabels_LabelsToText by done.
    cbn. intros k v [Hk _]%map_lookup_filter_Some. by eapply Hl.
  - intros t. etrans; [|by apply storedSeries_sublist]. unfold series, storedSeries. clear Hsub. induction Hgood as [|sp l (labels & Hl & Heq) _ IH]; [done|].
    rewrite fmap_cons, !filter_cons. cbn [mpLabels storedToMetricPoint]. rewrite Heq, text_stable by done. case_decide; [|done]. cbn. by constructor.
Qed.

Lemma filterPoints_sublist (m : moment) (l : list MetricPoint) : filterPoints m l `sublist_of` l.
Proof. apply sublist_filter. Qed.

Lemma Forall_sublist {A : Type} (P : A → Prop) (l k : list A) : l `sublist_of` k → Forall P k → Forall P l.
Proof. rewrite !Forall_forall. intros Hs Hk x Hx. apply Hk. by eapply elem_of_sublist. Qed.

Lemma makePayload_spec (m : moment) (c : Client) (points : list MetricPoint) :
  okFailed (clFailed c) → Forall (λ p, goodLabels (mpLabels p)) points →
  ∃ c' payloads sent, makePayload m c points = Some (c', payloads, sent) ∧ okFailed (clFailed c') ∧ clPending c' = clPending c ∧
    ∀ t, (series t sent ++ storedSeries t (fcPoints (clFailed c')))%list
      `sublist_of` (storedSeries t (fcPoints (clFailed c)) ++ series t points)%list.
Proof.
  intros Hf Hp. unfold sendPointsMakePayload. destruct (cannotSend m c).
  - destruct (addFailedPoints_spec m (filterPoints m points) c Hf) as (f' & -> & Hf' & H); [by eapply Forall_sublist; [apply filterPoints_sublist|]|].
    do 3 eexists. split; [done|]. split; [done|]. split; [done|]. intros t. etrans; [apply H|]. apply sublist_app; [done|]. apply series_sublist, filterPoints_sublist.
  - match goal with |- context [if ?b then _ else _] => destruct b end.
    + pose proof (Pop_spec (moNow m) (clFailed c) Hf) as HPop. destruct (Pop (moNow m) (clFailed c)) as [f1 failed]. destruct HPop as (Hf1 & Hnil & Hg & Hsub).
      match goal with |- context [preparePoints m ?r (?c1, ∅, []) ?l] => destruct (preparePoints_spec m r l c1 ∅ [] Hf1) as (f' & payloads & sent & -> & Hf' & H) end.
      { eapply Forall_sublist; [apply filterPoints_sublist|]. by apply Forall_app. }
      do 3 eexists. split; [done|]. split; [done|]. split; [done|]. intros t. etrans; [apply H|]. cbn [clFailed setFailed]. rewrite Hnil, !app_nil_l.
      etrans; [apply series_sublist, filterPoints_sublist|]. rewrite series_app. by apply sublist_app.
    + match goal with |- context [preparePoints m ?r (?c1, ∅, []) ?l] => destruct (preparePoints_spec m r l c1 ∅ [] Hf) as (f' & payloads & sent & -> & Hf' & H) end.
      { by eapply Forall_sublist; [apply filterPoints_sublist|]. }
      do 3 eexists. split; [done|]. split; [done|]. split; [done|]. intros t. etrans; [apply H|]. cbn [series app]. rewrite app_nil_l.
      apply sublist_app; [done|]. apply series_sublist, filterPoints_sublist.
Qed.

(** * Histories *)
(** What happens to the client: points of the store, a turn of the loop that sends, changes of mode, a reload of the agent,
    which passes the points on unless the client was still waiting to be ready. *)
Inductive action :=
  | actAdd (m : moment) (points : list MetricPoint)
  | actSend (m : moment)
  | actMode (sendingSuspended bufferingSuspended : bool) (reason : DisableReason) (lastAck : Z) (dataAvailable : bool)
  | actReload (m : moment) (ready : bool).

(** The client with the points it accepted and those it sent. *)
Record history := mkHistory { hClient : Client; hAccepted : list MetricPoint; hSent : list MetricPoint }.

Definition newClient (initialPoints : list MetricPoint) : Client := mkClient initialPoints (mkFailed [] ∅ 0) 0 0 false false NotDisabled 0 true.

Definition act (h : history) (a : action) : option history :=
  let c := hClient h in
  match a with
  | actAdd m points =>
      let c' := addPoints m c points in
      Some (mkHistory c' (hAccepted h ++ drop (length (clPending c)) (clPending c'))%list (hSent h))
  | actSend m =>
      r ← sendPoints m c;
      let '(c, _, sent) := r in Some (mkHistory c (hAccepted h) (hSent h ++ sent)%list)
  | actMode sending buffering reason lastAck dataAvailable => Some (mkHistory (setMode c sending buffering reason lastAck dataAvailable) (hAccepted h) (hSent h))
  | actReload m true => let '(_, points) := PopPoints maxPointAge m c true in Some (mkHistory (newClient points) (hAccepted h) (hSent h))
  | actReload _ false => Some (mkHistory (newClient []) (hAccepted h) (hSent h))
  end.

Fixpoint acts (h : history) (l : list action) : option history :=
  match l with [] => Some h | a :: l => h ← act h a; acts h l end.

Definition goodAction (a : action) : Prop := match a with actAdd _ points => Forall (λ p, goodLabels (mpLabels p)) points | _ => True end.

Record okHistory (h : history) : Prop := {
  ok_failed : okFailed (clFailed (hClient h));
  ok_pending : Forall (λ p, goodLabels (mpLabels p)) (clPending (hClient h));
  ok_order : ∀ t, (series t (hSent h) ++ storedSeries t (fcPoints (clFailed (hClient h))) ++ series t (clPending (hClient h)))%list
    `sublist_of` series t (hAccepted h)
}.

Lemma act_ok (h : history) (a : action) : okHistory h → goodAction a → ∃ h', act h a = Some h' ∧ okHistory h'.
Proof.
  intros [Hf Hp Ho] Ha. destruct a as [m points|m|sending buffering reason lastAck dataAvailable|m []]; cbn [act].
  - eexists. split; [done|]. unfold addPoints. destruct (_ && _).
    + rewrite drop_all, app_nil_r. by split.
    + cbn [clPending setPendingPoints]. rewrite drop_app_length. split; cbn; [done|by apply Forall_app|].
      intros t. rewrite !series_app, !(assoc_L (++)). apply sublist_app; [|done]. rewrite <- (assoc_L (++)). apply Ho.
  - unfold MqttPoints.sendPoints. cbn [PopPoints].
    destruct (makePayload_spec m (setPendingPoints (hClient h) []) (clPending (hClient h)) Hf Hp) as (c' & payloads & sent & -> & Hf' & Hpend & H).
    cbn [mbind option_bind]. eexists. split; [done|]. split; cbn; [done|by rewrite Hpend|]. intros t. rewrite Hpend. cbn [clPending setPendingPoints series].
    rewrite series_app, app_nil_r, <- (assoc_L (++)). etrans; [|apply Ho]. apply sublist_app; [done|]. apply H.
  - eexists. split; [done|]. by split.
  - unfold PopPoints. pose proof (Pop_spec (moNow m) (clFailed (hClient h)) Hf) as HPop.
    destruct (Pop (moNow m) (clFailed (hClient h))) as [f points]. destruct HPop as (_ & _ & Hg & Hsub). eexists. split; [done|].
    split; cbn; [split; [done|cbn; lia|constructor]|by apply Forall_app|]. intros t. rewrite series_app. etrans; [|apply Ho].
    apply sublist_app; [done|]. change (storedSeries t []) with (@nil Point). rewrite app_nil_l. by apply sublist_app.
  - eexists. split; [done|]. split; cbn; [split; [done|cbn; lia|constructor]|constructor|]. intros t. etrans; [|apply Ho].
    apply sublist_app; [done|]. apply sublist_nil_l.
Qed.

Lemma acts_ok (initialPoints : list MetricPoint) (l : list action) :
  Forall (λ p, goodLabels (mpLabels p)) initialPoints → Forall goodAction l →
  ∃ h, acts (mkHistory (newClient initialPoints) initialPoints []) l = Some h ∧ okHistory h.
Proof.
  intros Hi Hl. assert (∀ h, okHistory h → ∃ h', acts h l = Some h' ∧ okHistory h') as H.
  { induction Hl as [|a l Ha _ IH]; intros h Hh; [by exists h|]. destruct (act_ok h a Hh Ha) as (h1 & Heq & H1). cbn [acts]. rewrite Heq.
    cbn [mbind option_bind]. by apply IH. }
  apply H. split; cbn; [split; [done|cbn; lia|constructor]|done|done].
Qed.

(** C4. Points are sent in order: whatever the connection, the cache, the store, the suspensions and the reloads do, the points
    of a series that were sent, followed by those kept after a failure and those that wait, are points of that series that
    were accepted, in the same order, each at most once; so that none is sent twice or after a later one.  No more than
    the limit is kept, and no index is out of range. *)
Theorem series_order (initialPoints : list MetricPoint) (l : list action) :
  Forall (λ p, goodLabels (mpLabels p)) initialPoints → Forall goodAction l →
  ∃ h, acts (mkHistory (newClient initialPoints) initialPoints []) l = Some h ∧
    Z.of_nat (length (fcPoints (clFailed (hClient h)))) ≤ maxPendingPoints + cleanupBatchSize ∧
    ∀ t, (series t (hSent h) ++ storedSeries t (fcPoints (clFailed (hClient h))) ++ series t (clPending (hClient h)))%list
      `sublist_of` series t (hAccepted h).
Proof.
  intros Hi Hl. destruct (acts_ok initialPoints l Hi Hl) as (h & -> & Hh).
  exists h. split; [done|]. split; [apply (ok_bound _ (ok_failed _ Hh))|apply (ok_order _ Hh)].
Qed.

(** * Delivery *)
Hypothesis range_perm : ∀ x, range x ≡ₚ map_to_list x.








(** What reaches the broker: JSON has no infinities, and a message has a limit of size. *)
Definition encodable (b : list metricPayload) : Prop := Forall (λ p, finite (pyValue p) = true) b ∧ tooLarge b = false.

#[local] Instance encodable_decision (b : list metricPayload) : Decision (encodable b).
Proof. unfold encodable. apply _. Defined.








End History.

(** * Witnesses *)
Module Sending.
Definition agentMetric : Metric := mkMetric "uuid-cpu" "me" (MetricKey {[ LabelName := "cpu" ]} zeroAnnotations "me") "" "" "" 0 0.
Definition cacheOf (metrics : list Metric) : cache := mkCache (Some Plan.planConfig) ∅ [] ∅ ∅ ∅ metrics [].
Definition at_ (now : Z) (connected : bool) (metrics : list Metric) : moment :=
  mkMoment now connected (cacheOf metrics) Plan.planConfig 0 (Some [{[ LabelName := "cpu" ]}]) (λ _, false) (λ _, 0) 0.
Definition point (t : Z) (value : float64) : MetricPoint := mkMetricPoint (mkPoint t value) {[ LabelName := "cpu" ]} zeroAnnotations.
Definition begin : Z := 1000 * Time.hour.

(** A point while the metric is not registered, one while the connection is down. *)
Definition failures : list action :=
  [actAdd (at_ begin true []) [point begin Float.zero]; actSend (at_ begin true []);
   actAdd (at_ begin true []) [point (begin + Time.minute) Float.zero]; actSend (at_ (begin + Time.minute) false [agentMetric])].

Definition notLarge (_ : list metricPayload) : bool := false.
Definition start : history := mkHistory (newClient []) [] [].
Definition run : history → list action → option history :=
  acts "agent" "me" maxPendingPointsDefault cleanupBatchSizeDefault failedPointsMaxAge notLarge map_to_list.
Definition failed : history := default start (run start failures).

Lemma cpu_good (t : Z) (value : float64) : goodLabels (mpLabels (point t value)).
Proof. intros k v Hk. cbn in Hk. apply lookup_singleton_Some in Hk as [<- _]. done. Qed.

Lemma failures_good : Forall goodAction failures.
Proof. rewrite Forall_forall. intros a Ha. repeat (apply elem_of_cons in Ha as [->|Ha]; [first [apply Forall_singleton, cpu_good|done]|]). by apply not_elem_of_nil in Ha. Qed.

(** A point of an unregistered metric, tried again every fifty minutes. *)
Definition retries : list action :=
  actAdd (at_ begin true []) [point begin Float.zero] ::
  ((λ i, actSend (at_ (begin + Z.of_nat i * (50 * Time.minute)) true [])) <$> seq 0 6).
End Sending.

(** Both points are kept, and the second is not before the first. *)
Lemma series_order_witness :
  ∃ h, Sending.run Sending.start Sending.failures = Some h ∧
    length (fcPoints (clFailed (hClient h))) = 2%nat ∧
    storedSeries (LabelsToText {[ LabelName := "cpu" ]}) (fcPoints (clFailed (hClient h))) `sublist_of` series (LabelsToText {[ LabelName := "cpu" ]}) (hAccepted h).
Proof.
  destruct (series_order "agent" "me" maxPendingPointsDefault cleanupBatchSizeDefault failedPointsMaxAge Sending.notLarge map_to_list
    ltac:(unfold maxPendingPointsDefault, cleanupBatchSizeDefault; lia) [] Sending.failures (Forall_nil_2 _) Sending.failures_good) as (h & Hrun & _ & Hord).
  exists h. split; [exact Hrun|]. split.
  - assert (length (fcPoints (clFailed (hClient Sending.failed))) = 2%nat) as Hl by (vm_compute; reflexivity).
    unfold Sending.failed, Sending.run, Sending.start in Hl. rewrite Hrun in Hl. exact Hl.
  - etrans; [|apply Hord]. apply sublist_inserts_l, sublist_inserts_r. done.
Defined.


(** [failedPointsMaxAge] is the age since the last failure: a point that is tried again is added with a new time, so
    that after more than four hours the point of a metric that is not registered is still kept. *)
Example old_point_kept :
  (λ h, (λ sp, (ptTime (spPoint sp), spAddedAt sp)) <$> fcPoints (clFailed (hClient h))) <$> Sending.run Sending.start Sending.retries
    = Some [(Sending.begin, Sending.begin + 250 * Time.minute)] ∧ failedPointsMaxAge = 60 * Time.minute.
Proof. split; vm_compute; reflexivity. Qed.

(** One infinite value, which [filterPoints] keeps and JSON cannot encode: no point of the batch reaches the cloud and none is kept. *)
Example infinite_value_loses_batch :
  (λ h, (length (hSent h), fcPoints (clFailed (hClient h)))) <$>
    Sending.run Sending.start
      [actAdd (Sending.at_ Sending.begin true [Sending.agentMetric]) [Sending.point Sending.begin Float.zero; Sending.point Sending.begin (F64 0x7FF0000000000000)];
       actSend (Sending.at_ Sending.begin true [Sending.agentMetric])] = Some (2%nat, []) ∧
  (λ r, r.1.2) <$> sendPoints "agent" "me" maxPendingPointsDefault cleanupBatchSizeDefault failedPointsMaxAge Sending.notLarge map_to_list
    (Sending.at_ Sending.begin true [Sending.agentMetric])
    (newClient [Sending.point Sending.begin Float.zero; Sending.point Sending.begin (F64 0x7FF0000000000000)]) = Some [].
Proof. split; vm_compute; reflexivity. Qed.

(** The points kept over a reload are lost when a second one comes before the client is ready. *)
Example early_reload_loses_points :
  (λ h, (length (hAccepted h), hSent h, clPending (hClient h), fcPoints (clFailed (hClient h)))) <$>
    Sending.run Sending.start (Sending.failures ++ [actReload (Sending.at_ Sending.begin false []) true; actReload (Sending.at_ Sending.begin false []) false])
    = Some (2%nat, [], [], []).
Proof. vm_compute. reflexivity. Qed.
