(* ===== verification/MqttConnection.v ===== *)
(** The connection to the broker (mqtt/client/client.go): one goroutine, the connection manager, connects, waits between
    attempts and drops the connection when it is lost, blocked or disabled, while other goroutines disable it, force a
    reconnection or disconnect.

    The manager is a transition system: a step is what it does up to its next critical section, reading of the clock, call
    or wait, with the answers of its environment in an [env].  A number stands for a client of the paho library, and
    [stLive] records those on which [Connect] was called and [Disconnect] was not.  The clock is Go's monotonic one. *)
From S2P Require Import Prelude Float64 FloatOrder Delay.

#[local] Open Scope Z_scope.

Definition minimalDelayBetweenConnect : Z := 5 * Time.second.
Definition maximalDelayBetweenConnect : Z := 10 * Time.minute.
Definition stableConnection : Z := 5 * Time.minute.
Definition maxDelayWithoutPing : Z := 90 * Time.second.
Definition connectDeadline : Z := 2 * Time.minute.
Definition maxReconnectSpread : Z := 15 * Time.second.

(** [time.Duration.Round] *)
Definition RoundTo (d m : Z) : Z :=
  if m <=? 0 then d
  else
    let r := Z.rem d m in
    if d <? 0 then
      let r := - r in
      if r + r <? m then d + r
      else let d1 := Int.int64 (d - m + r) in if d1 <? d then d1 else Int.minInt64
    else if r + r <? m then d - r
    else let d1 := Int.int64 (d + m - r) in if d <? d1 then d1 else Int.maxInt64.

(** * Data *)
Record Client := mkClient {
  cMqtt : option nat;
  cDisabledUntil : Z;
  (** copies for the diagnostic *)
  cLastConnectionTimes : list Z;
  cCurrentConnectDelay : Z;
  cConsecutiveErrors : Z
}.

(** The variables of the manager. *)
Record manager := mkManager { lastConnectionTimes : list Z; currentConnectDelay : Z; consecutiveError : Z; pingMissingConsecutive : Z }.

(** Where the manager is. *)
Inductive pc :=
  | Top
  | Switch (mqtt : option nat) (disabledUntil : Z)
  | DropDisabled
  | Attempt
  | TooMany
  | CheckDelay
  | Record_
  | Setup
  | Connecting (id : nat) (deadline : Z)
  | Established (id : nat) (timeout : bool)
  | CheckPing
  | DropPing
  | Select
  | Lost
  | AfterLost
  | Spread (until : Z)
  | Drain
  | Done.

(** What ends the wait of the manager: its context, an event of the channel of lost connections, or the ticker and the
    notification of [Disable], which do nothing else. *)
Inductive wake := wakeDone | wakeLost | wakeOther.

(** What a step finds around it: the clock, a random number, whether the context is done, whether the client is set up,
    whether the token of the connection is complete and its error ([Some true] when the broker refuses the credentials), whether
    the connection is open, the last check of paho, what ends a wait. *)
Record env := mkEnv {
  eNow : Z; eRand : float64; eDone : bool; eSetup : bool; eWait : bool; eError : option bool; eOpen : bool; eLastPing : option Z; eWake : wake }.

Inductive call := TooManyErrorsHandler | AuthenticationErrorHandler.

Record state := mkState {
  stClient : Client;
  stManager : manager;
  stPc : pc;
  stNext : nat;
  stLive : gset nat;
  stClock : Z;
  (** the attempts of this run with the delay computed after each *)
  stAttempts : list (Z * Z);
  stCalls : list call
}.

Definition setMqtt (c : Client) (mqtt : option nat) : Client :=
  mkClient mqtt (cDisabledUntil c) (cLastConnectionTimes c) (cCurrentConnectDelay c) (cConsecutiveErrors c).

Definition Disable (c : Client) (until : Z) : Client :=
  mkClient (cMqtt c) until (cLastConnectionTimes c) (cCurrentConnectDelay c) (cConsecutiveErrors c).

Definition publishState (c : Client) (m : manager) : Client :=
  mkClient (cMqtt c) (cDisabledUntil c) (lastConnectionTimes m) (currentConnectDelay m) (consecutiveError m).

Definition goto (s : state) (p : pc) : state := mkState (stClient s) (stManager s) p (stNext s) (stLive s) (stClock s) (stAttempts s) (stCalls s).
Definition setClient (s : state) (c : Client) : state := mkState c (stManager s) (stPc s) (stNext s) (stLive s) (stClock s) (stAttempts s) (stCalls s).
Definition setManager (s : state) (m : manager) : state := mkState (stClient s) m (stPc s) (stNext s) (stLive s) (stClock s) (stAttempts s) (stCalls s).
Definition setLive (s : state) (live : gset nat) : state := mkState (stClient s) (stManager s) (stPc s) (stNext s) live (stClock s) (stAttempts s) (stCalls s).
Definition setClock (s : state) (now : Z) : state := mkState (stClient s) (stManager s) (stPc s) (stNext s) (stLive s) now (stAttempts s) (stCalls s).
Definition called (s : state) (c : call) : state := mkState (stClient s) (stManager s) (stPc s) (stNext s) (stLive s) (stClock s) (stAttempts s) (stCalls s ++ [c])%list.

(** [c.mqtt.Disconnect] and [c.mqtt = nil] *)
Definition dropClient (s : state) : state :=
  match cMqtt (stClient s) with
  | None => s
  | Some id => setLive (setClient s (setMqtt (stClient s) None)) (stLive s ∖ {[ id ]})
  end.

(** * The manager *)
Section Manager.
(** Whether the options have these handlers. *)
Variables hasTooMany hasAuthentication : bool.

Definition newManager : manager := mkManager [] (minimalDelayBetweenConnect / 2) 0 0.

(** The last of the times but [n]; [0] is the last. *)
Definition fromEnd (l : list Z) (n : nat) : option Z := reverse l !! n.

Definition tooManyAttempts (m : manager) (now : Z) : bool :=
  match fromEnd (lastConnectionTimes m) 6 with Some t => Time.Sub now t <? 10 * Time.minute | None => false end.

Definition mayAttempt (m : manager) (now : Z) : bool :=
  match fromEnd (lastConnectionTimes m) 0 with Some t => currentConnectDelay m <? Time.Sub now t | None => true end.

Definition wasStable (m : manager) (now : Z) : bool :=
  match fromEnd (lastConnectionTimes m) 0 with Some t => stableConnection <? Time.Sub now t | None => false end.

(** The record of an attempt, and whether the handler of errors is called. *)
Definition recordAttempt (m : manager) (now : Z) (rand : float64) : manager * bool :=
  let times := (lastConnectionTimes m ++ [now])%list in
  let times := if (20 <? length times)%nat then drop (length times - 20) times else times in
  if currentConnectDelay m <? maximalDelayBetweenConnect then
    let errors := consecutiveError m + 1 in
    (mkManager times (JitterDelay rand (Exponential minimalDelayBetweenConnect f155 errors maximalDelayBetweenConnect) (fraction 1 10)) errors
       (pingMissingConsecutive m), errors =? 5)
  else (mkManager times (currentConnectDelay m) (consecutiveError m) (pingMissingConsecutive m), false).

Definition pingBlocked (e : env) : bool :=
  match eLastPing e with Some t => negb (Time.IsZero t) && (maxDelayWithoutPing <? Time.Sub (eNow e) t) | None => false end.

Definition setPing (m : manager) (n : Z) : manager := mkManager (lastConnectionTimes m) (currentConnectDelay m) (consecutiveError m) n.

Definition callIf (b : bool) (c : call) (s : state) : state := if b then called s c else s.

Definition managerStep (e : env) (s : state) : state :=
  let m := stManager s in
  match stPc s with
  | Top =>
      if eDone e then goto s Drain
      else let c := publishState (stClient s) m in goto (setClient s c) (Switch (cMqtt c) (cDisabledUntil c))
  | Switch mqtt disabledUntil =>
      if eNow e <? disabledUntil then goto s DropDisabled
      else match mqtt with
           | None => goto s Attempt
           | Some _ => if eOpen e then goto s CheckPing else goto s Select
           end
  | DropDisabled => goto (dropClient s) Select
  | Attempt => goto s (if tooManyAttempts m (eNow e) then TooMany else CheckDelay)
  | TooMany =>
      let disableDuration := RoundTo (JitterDelay (eRand e) (5 * Time.minute) (fraction 1 4)) Time.second in
      goto (callIf hasTooMany TooManyErrorsHandler (setClient s (Disable (stClient s) (eNow e + disableDuration)))) Top
  | CheckDelay => goto s (if mayAttempt m (eNow e) then Record_ else Select)
  | Record_ =>
      let '(m, fifth) := recordAttempt m (eNow e) (eRand e) in
      let s := mkState (stClient s) m Setup (stNext s) (stLive s) (stClock s) (stAttempts s ++ [(eNow e, currentConnectDelay m)])%list (stCalls s) in
      callIf (fifth && hasTooMany) TooManyErrorsHandler s
  | Setup =>
      if eSetup e then
        let id := stNext s in
        mkState (stClient s) m (Connecting id (eNow e + connectDeadline)) (S id) (stLive s ∪ {[ id ]}) (stClock s) (stAttempts s) (stCalls s)
      else goto s Top
  | Connecting id deadline =>
      if eWait e then goto s (Established id false)
      else if eDone e then goto s Drain
      else if deadline <? eNow e then goto s (Established id true)
      else s
  | Established id timeout =>
      if bool_decide (eError e ≠ None) || timeout then
        let s := callIf (bool_decide (eError e = Some true) && hasAuthentication) AuthenticationErrorHandler s in
        goto (setLive s (stLive s ∖ {[ id ]})) Select
      else goto (setClient s (setMqtt (stClient s) (Some id))) Select
  | CheckPing =>
      if pingBlocked e then
        let n := pingMissingConsecutive m + 1 in goto (setManager s (setPing m n)) (if 2 <=? n then DropPing else Select)
      else goto (setManager s (setPing m 0)) Select
  | DropPing => goto (dropClient s) Select
  | Select => goto s (match eWake e with wakeLost => Lost | _ => Top end)
  | Lost => goto (dropClient s) AfterLost
  | AfterLost =>
      if wasStable m (eNow e) then
        goto (setManager s (mkManager (lastConnectionTimes m) minimalDelayBetweenConnect 0 (pingMissingConsecutive m)))
          (Spread (eNow e + JitterMs (eRand e) (maxReconnectSpread / 2) one))
      else goto s Top
  | Spread until => if eDone e || (until <=? eNow e) then goto s Top else s
  | Drain => goto s Done
  | Done => s
  end.

(** What the other goroutines do, and a reload of the agent, which keeps the client. *)
Inductive action :=
  | actManager (e : env)
  | actDisable (until : Z)
  | actForceReconnect
  | actDisconnect
  | actReload.

(** [None]: the action is not possible, or the clock would go back. *)
Definition act (s : state) (a : action) : option state :=
  match a with
  | actManager e => if eNow e <? stClock s then None else Some (managerStep e (setClock s (eNow e)))
  | actDisable until => Some (setClient s (Disable (stClient s) until))
  | actForceReconnect | actDisconnect => Some (dropClient s)
  | actReload =>
      match stPc s with
      | Done => Some (mkState (mkClient (cMqtt (stClient s)) 0 [] 0 0) newManager Top (stNext s) (stLive s) (stClock s) [] (stCalls s))
      | _ => None
      end
  end.

Fixpoint acts (s : state) (l : list action) : option state := match l with [] => Some s | a :: l => s ← act s a; acts s l end.

Definition initial (clock : Z) : state := mkState (mkClient None 0 [] 0 0) newManager Top 0 ∅ clock [] [].

(** * The attempts *)
(** Each attempt comes after the delay computed at the last one, or after a stable connection; eight attempts take at least
    ten minutes. *)
Definition spaced (attempts : list (Z * Z)) : Prop :=
  (∀ i a b, attempts !! i = Some a → attempts !! S i = Some b → a.2 < b.1 - a.1 ∨ stableConnection < b.1 - a.1) ∧
  ∀ i a b, attempts !! i = Some a → attempts !! (i + 7)%nat = Some b → 10 * Time.minute ≤ b.1 - a.1.

Lemma spaced_snoc (attempts : list (Z * Z)) (b : Z * Z) :
  spaced attempts → (∀ a, last attempts = Some a → a.2 < b.1 - a.1 ∨ stableConnection < b.1 - a.1) →
  (∀ a, reverse attempts !! 6%nat = Some a → 10 * Time.minute ≤ b.1 - a.1) → spaced (attempts ++ [b]).
Proof.
  intros [H1 H7] Hl Hr. split; intros i x y Hx Hy.
  - apply lookup_app_Some in Hy as [Hy|[Hlen Hy]].
    + apply (H1 i); [|done]. apply lookup_lt_Some in Hy. rewrite lookup_app_l in Hx by lia. done.
    + apply list_lookup_singleton_Some in Hy as [Hi <-]. apply Hl. rewrite last_lookup. rewrite lookup_app_l in Hx by lia. by replace (pred (length attempts)) with i by lia.
  - apply lookup_app_Some in Hy as [Hy|[Hlen Hy]].
    + apply (H7 i); [|done]. apply lookup_lt_Some in Hy. rewrite lookup_app_l in Hx by lia. done.
    + apply list_lookup_singleton_Some in Hy as [Hi <-]. apply Hr. rewrite lookup_app_l in Hx by lia. rewrite reverse_lookup by lia. by replace (length attempts - S 6)%nat with i by lia.
Qed.

(** What is known of the last attempts where the manager is. *)
Definition guarded (s : state) : Prop :=
  let m := stManager s in
  match stPc s with
  | CheckDelay => ∀ a, reverse (stAttempts s) !! 6%nat = Some a → 10 * Time.minute ≤ stClock s - a.1
  | Record_ => (∀ a, reverse (stAttempts s) !! 6%nat = Some a → 10 * Time.minute ≤ stClock s - a.1) ∧
      ∀ a, last (stAttempts s) = Some a → currentConnectDelay m < stClock s - a.1
  | _ => True
  end.

Record okAttempts (s : state) : Prop := {
  ok_times : reverse (lastConnectionTimes (stManager s)) = take 20 (reverse (stAttempts s).*1);
  ok_spaced : spaced (stAttempts s);
  ok_delay : ∀ a, last (stAttempts s) = Some a → currentConnectDelay (stManager s) = a.2 ∨ stableConnection < stClock s - a.1;
  ok_range : Int.minInt64 ≤ currentConnectDelay (stManager s);
  ok_guarded : guarded s
}.

Lemma fromEnd_attempts (s : state) (n : nat) : (n < 20)%nat → okAttempts s →
  fromEnd (lastConnectionTimes (stManager s)) n = fst <$> reverse (stAttempts s) !! n.
Proof. intros Hn Hs. unfold fromEnd. rewrite (ok_times s Hs), lookup_take_lt by done. rewrite <- fmap_reverse. apply list_lookup_fmap. Qed.

Lemma last_reverse_lookup {A : Type} (l : list A) : last l = reverse l !! 0%nat.
Proof. by rewrite <- head_reverse, head_lookup. Qed.

Lemma okAttempts_clock (s : state) (now : Z) : stClock s ≤ now → okAttempts s → okAttempts (setClock s now).
Proof.
  intros Hle [H1 H2 H3 Hr H4]. split; [done|done| |done|].
  - intros a Ha. cbn in *. destruct (H3 a Ha); [by left|right; lia].
  - unfold guarded in *. cbn in *. destruct (stPc s); try done.
    + intros a Ha. specialize (H4 a Ha). lia.
    + destruct H4 as [H4 H5]. split; intros a Ha; [specialize (H4 a Ha)|specialize (H5 a Ha)]; lia.
Qed.

(** Steps that leave the attempts and the delay as they are. *)
Lemma okAttempts_same (s s' : state) :
  okAttempts s → stAttempts s' = stAttempts s → stClock s' = stClock s → lastConnectionTimes (stManager s') = lastConnectionTimes (stManager s) →
  currentConnectDelay (stManager s') = currentConnectDelay (stManager s) → guarded s' → okAttempts s'.
Proof. intros [H1 H2 H3 Hr _] Ha Hc Ht Hd Hg. split; rewrite ?Ha, ?Hc, ?Ht, ?Hd; done. Qed.

Lemma dropClient_same (s : state) :
  stAttempts (dropClient s) = stAttempts s ∧ stClock (dropClient s) = stClock s ∧ stManager (dropClient s) = stManager s ∧ stPc (dropClient s) = stPc s.
Proof. unfold dropClient. by destruct (cMqtt _). Qed.

Lemma Sub_lt (t u d : Z) : Int.minInt64 ≤ d → d < Time.Sub t u → d < t - u.
Proof. unfold Time.Sub. lia. Qed.

Lemma recordAttempt_reverse (m : manager) (now : Z) (rand : float64) :
  reverse (lastConnectionTimes (recordAttempt m now rand).1) = take 20 (now :: reverse (lastConnectionTimes m)).
Proof.
  assert (lastConnectionTimes (recordAttempt m now rand).1 =
    (let times := (lastConnectionTimes m ++ [now])%list in if (20 <? length times)%nat then drop (length times - 20) times else times)) as ->.
  { unfold recordAttempt. by destruct (_ <? maximalDelayBetweenConnect). }
  cbv zeta. rewrite <- reverse_snoc. set (times := (lastConnectionTimes m ++ [now])%list). destruct (Nat.ltb_spec 20 (length times)).
  - by rewrite <- take_reverse.
  - rewrite take_ge; [done|]. rewrite length_reverse. lia.
Qed.

Lemma recordAttempt_times (m : manager) (now : Z) (rand : float64) (l : list Z) :
  reverse (lastConnectionTimes m) = take 20 (reverse l) → reverse (lastConnectionTimes (recordAttempt m now rand).1) = take 20 (reverse (l ++ [now])).
Proof. intros H. rewrite recordAttempt_reverse, H, reverse_snoc, !firstn_cons, take_take. done. Qed.

Lemma recordAttempt_range (m : manager) (now : Z) (rand : float64) :
  Int.minInt64 ≤ currentConnectDelay m → Int.minInt64 ≤ currentConnectDelay (recordAttempt m now rand).1.
Proof.
  intros H. unfold recordAttempt. destruct (_ <? maximalDelayBetweenConnect); [|done]. cbn [fst currentConnectDelay]. unfold JitterDelay, seconds, Int.int64.
  set (z := Float.to_int64 _ * _). pose proof (Int.wrapS_range 64 z ltac:(lia)). unfold Int.minInt64. lia.
Qed.

#[local] Arguments recordAttempt : simpl never.

Ltac same_attempts H := apply (okAttempts_same _ _ H); try done.

Lemma managerStep_attempts (e : env) (s : state) : stClock s = eNow e → okAttempts s → okAttempts (managerStep e s).
Proof.
  intros Hnow Hs. destruct (dropClient_same s) as (Hd1 & Hd2 & Hd3 & Hd4). unfold managerStep. destruct (stPc s) eqn:Hpc.
  - destruct (eDone e); same_attempts Hs.
  - destruct (_ <? _); [same_attempts Hs|]. destruct mqtt; [destruct (eOpen e)|]; same_attempts Hs.
  - same_attempts Hs; cbn; congruence.
  - same_attempts Hs. unfold guarded, tooManyAttempts. rewrite fromEnd_attempts by (done || lia). cbn [stPc goto stAttempts stClock stManager].
    destruct (reverse (stAttempts s) !! 6%nat) as [a|] eqn:Ha; cbn [fmap option_fmap option_map]; [|intros ? ?; congruence].
    destruct (Z.ltb_spec (Time.Sub (eNow e) a.1) (10 * Time.minute)) as [|Hle]; [done|]. intros a' Ha'. assert (a' = a) as -> by congruence.
    rewrite Hnow. apply Time.Sub_ge; [done|lia].
  - unfold callIf. destruct hasTooMany; same_attempts Hs.
  - same_attempts Hs. unfold guarded, mayAttempt. rewrite fromEnd_attempts by (done || lia). cbn [stPc goto stAttempts stClock stManager]. pose proof (ok_guarded s Hs) as Hg. unfold guarded in Hg. rewrite Hpc in Hg.
    rewrite last_reverse_lookup. destruct (reverse (stAttempts s) !! 0%nat) as [a|] eqn:Ha; cbn [fmap option_fmap option_map]; [|by split].
    destruct (Z.ltb_spec (currentConnectDelay (stManager s)) (Time.Sub (eNow e) a.1)) as [Hlt|]; [|done]. split; [done|]. intros a' Ha'. assert (a' = a) as -> by congruence.
    rewrite Hnow. apply Sub_lt; [apply (ok_range s Hs)|done].
  - pose proof (ok_guarded s Hs) as Hg. unfold guarded in Hg. rewrite Hpc in Hg. destruct Hg as [H7 Hl]. destruct Hs as [H1 H2 H3 Hr _].
    pose proof (recordAttempt_times (stManager s) (eNow e) (eRand e) _ H1) as Ht. pose proof (recordAttempt_range (stManager s) (eNow e) (eRand e) Hr) as Hr'.
    destruct (recordAttempt (stManager s) (eNow e) (eRand e)) as [m fifth]. cbn [fst] in Ht, Hr'. rewrite Hnow in *. unfold callIf.
    assert (spaced (stAttempts s ++ [(eNow e, currentConnectDelay m)])) as Hsp.
    { apply spaced_snoc; [done| |done]. intros a Ha. cbn. specialize (Hl a Ha). destruct (H3 a Ha) as [<-|?]; [by left|by right]. }
    destruct (fifth && hasTooMany); (split; cbn; [by rewrite fmap_app|done| |done|done]); intros a; rewrite last_snoc; intros [= <-]; by left.
  - destruct (eSetup e); same_attempts Hs.
  - destruct (eWait e); [same_attempts Hs|]. destruct (eDone e); [same_attempts Hs|]. destruct (_ <? _); [same_attempts Hs|done].
  - unfold callIf. destruct (_ || _); [destruct (_ && _)|]; same_attempts Hs.
  - destruct (pingBlocked e); [destruct (2 <=? _)|]; same_attempts Hs.
  - same_attempts Hs; cbn; congruence.
  - destruct (eWake e); same_attempts Hs.
  - same_attempts Hs; cbn; congruence.
  - unfold wasStable. rewrite fromEnd_attempts by (done || lia). destruct (reverse (stAttempts s) !! 0%nat) as [a|] eqn:Ha; cbn [fmap option_fmap option_map]; [|same_attempts Hs].
    destruct (Z.ltb_spec stableConnection (Time.Sub (eNow e) a.1)) as [Hlt|]; [|same_attempts Hs]. destruct Hs as [H1 H2 H3 Hr H4]. split; [done..| |done|done].
    intros a'. cbn. rewrite last_reverse_lookup, Ha. intros [= <-]. right. rewrite Hnow. by apply Sub_lt.
  - destruct (_ || _); [same_attempts Hs|done].
  - same_attempts Hs.
  - done.
Qed.

Lemma act_attempts (s s' : state) (a : action) : okAttempts s → act s a = Some s' → okAttempts s'.
Proof.
  intros Hs. destruct (dropClient_same s) as (Hd1 & Hd2 & Hd3 & Hd4).
  assert (okAttempts (dropClient s)) as Hd. { same_attempts Hs; try congruence. unfold guarded. rewrite Hd1, Hd2, Hd3, Hd4. apply (ok_guarded s Hs). }
  destruct a as [e|until| | |]; cbn [act]; [|by intros [= <-]; same_attempts Hs; apply (ok_guarded s Hs)|by intros [= <-]..|].
  - destruct (Z.ltb_spec (eNow e) (stClock s)); [done|]. intros [= <-]. apply managerStep_attempts; [done|]. by apply okAttempts_clock.
  - destruct (stPc s); try done. intros [= <-]. split; cbn; try done.
Qed.

(** * The clients *)
Definition optSet (o : option nat) : gset nat := match o with Some id => {[ id ]} | None => ∅ end.

(** The client whose connection is awaited. *)
Definition connecting (p : pc) : option nat := match p with Connecting id _ | Established id _ => Some id | _ => None end.

(** Where the manager knows that there is no client. *)
Definition alone (p : pc) : bool :=
  match p with Switch None _ | Attempt | TooMany | CheckDelay | Record_ | Setup | Connecting _ _ | Established _ _ => true | _ => false end.

Definition ended (p : pc) : bool := match p with Drain | Done => true | _ => false end.

Record okLive (s : state) : Prop := {
  ok_alone : alone (stPc s) = true → cMqtt (stClient s) = None;
  ok_live : ended (stPc s) = false → stLive s = optSet (cMqtt (stClient s)) ∪ optSet (connecting (stPc s));
  ok_size : (size (stLive s) ≤ 1)%nat
}.

Lemma size_optSet (o : option nat) : (size (optSet o) ≤ 1)%nat.
Proof. destruct o; cbn; [rewrite size_singleton|rewrite size_empty]; lia. Qed.

Lemma dropClient_live (s : state) : okLive s → okLive (dropClient s) ∧ cMqtt (stClient (dropClient s)) = None.
Proof.
  intros [H1 H2 H3]. unfold dropClient. destruct (cMqtt (stClient s)) as [id|] eqn:Hc; [|by split; [split; rewrite ?Hc|]]. split; [|done]. split; cbn.
  - done.
  - intros He. rewrite (H2 He). assert (connecting (stPc s) = None) as ->; [|cbn; set_solver]. destruct (stPc s); try done; discriminate H1; done.
  - etrans; [|exact H3]. apply subseteq_size. set_solver.
Qed.

(** A state whose clients are those of another one, where the manager awaits no connection. *)
Lemma okLive_goto (s s' : state) (p : pc) :
  okLive s → stClient s' = stClient s ∨ cMqtt (stClient s') = cMqtt (stClient s) → stLive s' = stLive s → stPc s' = p → connecting (stPc s) = None → ended (stPc s) = false →
  connecting p = None → (alone p = true → cMqtt (stClient s) = None) → okLive s'.
Proof.
  intros [H1 H2 H3] Hc Hl Hp Hn He Hn' Ha. assert (cMqtt (stClient s') = cMqtt (stClient s)) as Hm by (destruct Hc as [->|]; done). split; rewrite ?Hp, ?Hm, ?Hl; [done| |done].
  intros _. rewrite (H2 He), Hn, Hn'. done.
Qed.

Lemma managerStep_live (e : env) (s : state) : okLive s → okLive (managerStep e s).
Proof.
  intros Hs. destruct (dropClient_live s Hs) as [Hd Hdn]. destruct (dropClient_same s) as (_ & _ & _ & Hd4). pose proof (ok_alone s Hs) as Ha. unfold managerStep.
  assert (∀ s' p, connecting (stPc s) = None → ended (stPc s) = false → cMqtt (stClient s') = cMqtt (stClient s) → stLive s' = stLive s → stPc s' = p → connecting p = None →
    (alone p = true → cMqtt (stClient s) = None) → okLive s') as Hmove.
  { intros s' p ? ? ? ? ? ? ?. apply (okLive_goto s s' p); try done. by right. }
  assert (∀ p, connecting (stPc s) = None → ended (stPc s) = false → connecting p = None → alone p = false → okLive (goto (dropClient s) p)) as Hdrop.
  { intros p Hc He Hc' Ha'. apply (okLive_goto (dropClient s) _ p Hd); try rewrite Hd4; try done. by left. }
  assert (∀ b c s', cMqtt (stClient (callIf b c s')) = cMqtt (stClient s') ∧ stLive (callIf b c s') = stLive s' ∧ stPc (callIf b c s') = stPc s') as Hcall by (by intros []).
  destruct (stPc s) eqn:Hpc; cbn in Ha; try specialize (Ha eq_refl).
  - destruct (eDone e); [|apply (Hmove _ (Switch (cMqtt (stClient s)) (cDisabledUntil (stClient s)))); try done; cbn; by destruct (cMqtt (stClient s))].
    destruct Hs as [H1 H2 H3]. by split.
  - destruct (_ <? _); [by eapply Hmove|]. destruct mqtt; [destruct (eOpen e)|]; by eapply Hmove.
  - by apply Hdrop.
  - destruct (tooManyAttempts _ _); by eapply Hmove.
  - edestruct Hcall as (H1 & H2 & H3). eapply Hmove; cbn; [done|done|exact H1|exact H2|done..].
  - destruct (mayAttempt _ _); by eapply Hmove.
  - destruct (recordAttempt _ _ _) as [m fifth]. edestruct Hcall as (H1 & H2 & H3). eapply Hmove; [done|done|exact H1|exact H2|exact H3|done..].
  - destruct (eSetup e); [|by eapply Hmove]. destruct Hs as [_ H2 _]. rewrite Hpc in H2. specialize (H2 eq_refl). rewrite Ha in H2.
    split; cbn; [done|intros _; rewrite H2, Ha; cbn; set_solver|]. rewrite H2. cbn. rewrite !(left_id_L ∅ (∪)), size_singleton. lia.
  - destruct Hs as [H1 H2 H3]. rewrite Hpc in *. assert (okLive s) as Hs by (split; rewrite ?Hpc; done). specialize (H2 eq_refl). destruct (eWait e); [by split|]. destruct (eDone e); [by split|]. by destruct (_ <? _).
  - destruct Hs as [_ H2 H3]. rewrite Hpc in H2. specialize (H2 eq_refl). rewrite Ha in H2. cbn in H2. rewrite (left_id_L ∅ (∪)) in H2. destruct (_ || _).
    + edestruct Hcall as (C1 & C2 & C3). split; cbn; [done| |]; rewrite ?C1, C2, H2, ?Ha; cbn; [intros _; set_solver|]. rewrite difference_diag_L, size_empty. lia.
    + split; cbn; [done|intros _; rewrite H2; set_solver|done].
  - destruct (pingBlocked e); [destruct (2 <=? _)|]; by eapply Hmove.
  - by apply Hdrop.
  - destruct (eWake e); by eapply Hmove.
  - by apply Hdrop.
  - destruct (wasStable _ _); by eapply Hmove.
  - destruct (_ || _); by eapply Hmove.
  - destruct Hs as [_ _ H3]. by split.
  - done.
Qed.

Lemma act_live (s s' : state) (a : action) : okLive s → a ≠ actReload → act s a = Some s' → okLive s'.
Proof.
  intros Hs Hne. destruct a as [e|until| | |]; cbn [act]; [|intros [= <-]; destruct Hs; by split|intros [= <-]; by apply dropClient_live..|done].
  destruct (_ <? _); [done|]. intros [= <-]. apply managerStep_live. destruct Hs. by split.
Qed.

Lemma acts_invariant (P : state → Prop) (Q : action → Prop) :
  (∀ s s' a, P s → Q a → act s a = Some s' → P s') → ∀ l s s', P s → Forall Q l → acts s l = Some s' → P s'.
Proof.
  intros Hstep l. induction l as [|a l IH]; intros s s' Hs Hl; cbn [acts]; [by intros [= <-]|]. apply Forall_cons in Hl as [Ha Hl].
  destruct (act s a) as [s1|] eqn:Hact; [|done]. cbn [mbind option_bind]. apply IH; [by eapply Hstep|done].
Qed.

(** A run that starts with the client kept over a reload, if there is one. *)
Definition resumed (mqtt : option nat) (next : nat) (clock : Z) : state :=
  mkState (mkClient mqtt 0 [] 0 0) newManager Top next (optSet mqtt) clock [] [].

(** C7. The broker is spared: whatever the answers, losses, disables and reconnections asked for, an attempt to connect comes
    after the delay computed at the last one, or more than five minutes after it; and any eight attempts of a run take at
    least ten minutes. *)
Theorem attempts_spaced (mqtt : option nat) (next : nat) (clock : Z) (l : list action) (s : state) :
  acts (resumed mqtt next clock) l = Some s → spaced (stAttempts s).
Proof.
  intros H. apply ok_spaced. apply (acts_invariant okAttempts (λ _, True)) with l (resumed mqtt next clock).
  - intros s0 s' a Hs _. by apply act_attempts.
  - by split.
  - by apply Forall_true.
  - done.
Qed.

(** No client of the broker is left behind: in a run at most one is alive at any time, and until the run ends it is the one
    the others use or the one whose connection is awaited. *)
Theorem one_client (mqtt : option nat) (next : nat) (clock : Z) (l : list action) (s : state) :
  Forall (λ a, a ≠ actReload) l → acts (resumed mqtt next clock) l = Some s →
  (size (stLive s) ≤ 1)%nat ∧
  (ended (stPc s) = false → ∀ id, id ∈ stLive s → cMqtt (stClient s) = Some id ∨ connecting (stPc s) = Some id).
Proof.
  intros Hl H. assert (okLive s) as [_ H2 H3].
  { apply (acts_invariant okLive (λ a, a ≠ actReload)) with l (resumed mqtt next clock); [apply act_live| |done..].
    split; cbn; [done|intros _; by rewrite (right_id_L ∅ (∪))|apply size_optSet]. }
  split; [done|]. intros He id. rewrite (H2 He). destruct (cMqtt (stClient s)), (connecting (stPc s)); set_solver.
Qed.

(** * The manager does not spin *)
Definition waiting (p : pc) : bool := match p with Connecting _ _ | Select | Spread _ | Done => true | _ => false end.

Definition pause : Z := 225 * Time.second.

Lemma RoundTo_ge (d k : Z) : 0 ≤ k * Time.second ≤ d → d ≤ 1000 * Time.second → k * Time.second ≤ RoundTo d Time.second.
Proof.
  unfold RoundTo, Time.second. intros H H'. change (1000000000 <=? 0) with false. cbn iota. destruct (Z.ltb_spec d 0); [lia|].
  rewrite Z.rem_mod_nonneg by lia. pose proof (Z.div_mod d 1000000000). pose proof (Z.mod_pos_bound d 1000000000). destruct (Z.ltb_spec (d mod 1000000000 + d mod 1000000000) 1000000000); [lia|].
  rewrite Int.int64_id by (unfold Int.minInt64, Int.maxInt64; lia). destruct (Z.ltb_spec d (d + 1000000000 - d mod 1000000000)); lia.
Qed.

Lemma pause_long (rand : float64) : unitInterval rand → pause ≤ RoundTo (JitterDelay rand (5 * Time.minute) (fraction 1 4)) Time.second.
Proof.
  intros Hr. destruct (JitterDelay_fraction rand 300 1 4 Hr) as (k & H & Hhi & Hlo & _); [vm_compute; reflexivity|]. change (300 * Time.second) with (5 * Time.minute) in H. rewrite H.
  change (300 * (4 - 1) / 4) with 225 in Hlo. apply RoundTo_ge; unfold Time.second in *; lia.
Qed.

#[local] Arguments RoundTo : simpl never.

(** The turns left: each attempt that cannot be set up counts, and seven of them in a short time give a pause. *)
Definition rank (p : pc) : nat :=
  match p with
  | Setup => 9 | Top => 8 | Switch _ _ => 7 | Attempt => 6 | TooMany | CheckDelay => 5 | Record_ => 4 | CheckPing => 2 | AfterLost => 9 | Lost => 10
  | Established _ _ | DropDisabled | DropPing | Drain => 1
  | Connecting _ _ | Select | Spread _ | Done => 0
  end.

Definition paused (start : Z) (until : Z) : bool := start + pause <=? until.

Definition turnsLeft (start : Z) (recent : nat) (s : state) : nat :=
  rank (stPc s) + (if paused start (cDisabledUntil (stClient s)) then 0 else 8 * (8 - recent)).

(** The last attempts that are recent; and in the branch that connects there is no pause, nor seven recent attempts once they are counted. *)
Record okTurn (start : Z) (recent : nat) (s : state) : Prop := {
  ok_recent : ∀ i, (i < recent)%nat → ∃ t, fromEnd (lastConnectionTimes (stManager s)) i = Some t ∧ start ≤ t;
  ok_seven : (recent ≤ 7)%nat;
  ok_where : match stPc s with
    | Switch _ until => until = cDisabledUntil (stClient s)
    | Attempt | TooMany => paused start (cDisabledUntil (stClient s)) = false
    | CheckDelay | Record_ => paused start (cDisabledUntil (stClient s)) = false ∧ (recent < 7)%nat
    | _ => True
    end
}.

Lemma turn_goto (start : Z) (recent : nat) (s s' : state) (p : pc) :
  okTurn start recent s → stPc s' = p → lastConnectionTimes (stManager s') = lastConnectionTimes (stManager s) →
  cDisabledUntil (stClient s') = cDisabledUntil (stClient s) → (rank p < rank (stPc s))%nat →
  match p with
  | Switch _ until => until = cDisabledUntil (stClient s)
  | Attempt | TooMany => paused start (cDisabledUntil (stClient s)) = false
  | CheckDelay | Record_ => paused start (cDisabledUntil (stClient s)) = false ∧ (recent < 7)%nat
  | _ => True
  end → ∃ recent', okTurn start recent' s' ∧ (turnsLeft start recent' s' < turnsLeft start recent s)%nat.
Proof. intros [H1 H2 H3] Hp Ht Hd Hr Hw. exists recent. unfold turnsLeft. rewrite Hp, Hd. split; [|lia]. split; rewrite ?Ht, ?Hp, ?Hd; done. Qed.

(** With seven recent attempts there is a pause. *)
Lemma seven_too_many (start : Z) (s : state) (now : Z) : okTurn start 7 s → start ≤ now < start + pause → tooManyAttempts (stManager s) now = true.
Proof.
  intros [H1 _ _] Hnow. unfold tooManyAttempts. destruct (H1 6%nat ltac:(lia)) as (t & -> & Ht). apply Z.ltb_lt. unfold Time.Sub, pause, Time.minute, Time.second, Int.maxInt64, Int.minInt64 in *. lia.
Qed.

Lemma record_turn (start : Z) (recent : nat) (e : env) (s : state) (m : manager) (fifth : bool) (s' : state) :
  okTurn start recent s → stPc s = Record_ → start ≤ eNow e → recordAttempt (stManager s) (eNow e) (eRand e) = (m, fifth) →
  stManager s' = m → stClient s' = stClient s → stPc s' = Setup →
  okTurn start (S recent) s' ∧ (turnsLeft start (S recent) s' < turnsLeft start recent s)%nat.
Proof.
  intros [H1 H2 H3] Hpc Hnow Hrec Hm Hc Hp. rewrite Hpc in H3. destruct H3 as [Hpause Hlt]. pose proof (recordAttempt_reverse (stManager s) (eNow e) (eRand e)) as Hrev.
  rewrite Hrec in Hrev. cbn [fst] in Hrev. split.
  - split; [|lia|by rewrite Hp]. intros i Hi. unfold fromEnd. rewrite Hm, Hrev. rewrite lookup_take_lt by lia.
    destruct i as [|i]; [by exists (eNow e)|]. cbn. apply H1. lia.
  - unfold turnsLeft. rewrite Hpc, Hp, Hc, Hpause. cbn [rank]. lia.
Qed.

Lemma managerStep_turn (start : Z) (recent : nat) (e : env) (s : state) :
  okTurn start recent s → waiting (stPc s) = false → start ≤ eNow e < start + pause → unitInterval (eRand e) →
  ∃ recent', okTurn start recent' (managerStep e s) ∧ (turnsLeft start recent' (managerStep e s) < turnsLeft start recent s)%nat.
Proof.
  intros Hs Hw Hnow Hr. pose proof (ok_where _ _ _ Hs) as H3. destruct (dropClient_same s) as (_ & _ & Hd3 & _).
  assert (cDisabledUntil (stClient (dropClient s)) = cDisabledUntil (stClient s)) as Hdu by (unfold dropClient; by destruct (cMqtt _)).
  assert (∀ b c s', stManager (callIf b c s') = stManager s' ∧ stClient (callIf b c s') = stClient s' ∧ stPc (callIf b c s') = stPc s') as Hcall by (by intros []).
  unfold managerStep. destruct (stPc s) eqn:Hpc; try done.
  - destruct (eDone e); eapply turn_goto; try done; rewrite Hpc; cbn; try done; lia.
  - destruct (Z.ltb_spec (eNow e) disabledUntil) as [|Hge]; [eapply turn_goto; try done; rewrite Hpc; cbn; lia|].
    destruct mqtt; [destruct (eOpen e)|]; eapply turn_goto; try done; rewrite ?Hpc; cbn; try lia. unfold paused. apply Z.leb_gt. lia.
  - eapply turn_goto; try done; cbn; rewrite ?Hpc, ?Hd3, ?Hdu; cbn; try done; lia.
  - destruct (tooManyAttempts (stManager s) (eNow e)) eqn:Htoo; eapply turn_goto; try done; rewrite ?Hpc; cbn; try lia. split; [done|].
    pose proof (ok_seven _ _ _ Hs). destruct (decide (recent = 7%nat)) as [->|]; [|lia]. by rewrite (seven_too_many start s (eNow e) Hs Hnow) in Htoo.
  - set (s' := goto _ _). edestruct Hcall as (C1 & C2 & C3). exists recent.
    assert (stPc s' = Top ∧ stManager s' = stManager s ∧ paused start (cDisabledUntil (stClient s')) = true) as (P1 & P2 & P3).
    { split; [done|]. unfold s'. split; [cbn; by rewrite C1|]. cbn [stClient goto]. rewrite C2. cbn [stClient setClient cDisabledUntil Disable]. apply Z.leb_le. pose proof (pause_long (eRand e) Hr). lia. }
    clearbody s'. destruct Hs as [H1 H2 _]. split; [split; rewrite ?P1, ?P2; done|]. unfold turnsLeft. rewrite P1, P3, Hpc, H3. cbn [rank]. lia.
  - destruct (mayAttempt (stManager s) (eNow e)); eapply turn_goto; try done; rewrite ?Hpc; cbn; try done; lia.
  - destruct (recordAttempt (stManager s) (eNow e) (eRand e)) as [m fifth] eqn:Hrec. exists (S recent). edestruct Hcall as (C1 & C2 & C3).
    apply (record_turn start recent e s m fifth); [done|done|lia|done|by rewrite C1|by rewrite C2|by rewrite C3].
  - destruct (eSetup e); eapply turn_goto; try done; rewrite ?Hpc; cbn; lia.
  - destruct (Hcall (bool_decide (eError e = Some true) && hasAuthentication) AuthenticationErrorHandler s) as (C1 & C2 & C3). destruct (_ || _); eapply turn_goto; try done; cbn; rewrite ?C1, ?C2, ?Hpc; cbn; try done; lia.
  - destruct (pingBlocked e); [destruct (2 <=? _)|]; eapply turn_goto; try done; rewrite ?Hpc; cbn; lia.
  - eapply turn_goto; try done; cbn; rewrite ?Hpc, ?Hd3, ?Hdu; cbn; try done; lia.
  - eapply turn_goto; try done; cbn; rewrite ?Hpc, ?Hd3, ?Hdu; cbn; try done; lia.
  - destruct (wasStable _ _); eapply turn_goto; try done; rewrite ?Hpc; cbn; lia.
  - eapply turn_goto; try done; rewrite ?Hpc; cbn; lia.
Qed.

Lemma okTurn_clock (start : Z) (recent : nat) (s : state) (now : Z) : okTurn start recent s → okTurn start recent (setClock s now).
Proof. intros [H1 H2 H3]. by split. Qed.

Lemma managerStep_clock (e : env) (s : state) : stClock (managerStep e s) = stClock s.
Proof.
  destruct (dropClient_same s) as (_ & Hd & _). assert (∀ b c s', stClock (callIf b c s') = stClock s') as Hcall by (by intros []). unfold managerStep.
  destruct (stPc s); cbn; rewrite ?Hd, ?Hcall; try done; try destruct (recordAttempt _ _ _); rewrite ?Hcall; try done; repeat case_match; cbn; rewrite ?Hcall; done.
Qed.

(** The steps of the manager among actions. *)
Fixpoint managerSteps (l : list action) : nat := match l with [] => 0 | actManager _ :: l => S (managerSteps l) | _ :: l => managerSteps l end.

(** What may happen meanwhile: steps of the manager, and all the other goroutines do but [Disable]. *)
Definition turnAction (a : action) : Prop :=
  match a with actManager e => unitInterval (eRand e) | actForceReconnect | actDisconnect => True | actDisable _ | actReload => False end.

Lemma dropClient_turn (start : Z) (recent : nat) (s : state) :
  okTurn start recent s → okTurn start recent (dropClient s) ∧ turnsLeft start recent (dropClient s) = turnsLeft start recent s.
Proof. intros [H1 H2 H3]. unfold dropClient. destruct (cMqtt _); [|done]. by split. Qed.

Lemma turns_end (start : Z) (l : list action) (n : nat) (s s' : state) (recent : nat) :
  (turnsLeft start recent s ≤ n)%nat → (n ≤ managerSteps l)%nat → okTurn start recent s → start ≤ stClock s → Forall turnAction l → acts s l = Some s' →
  ∃ l1 l2 s'', l = l1 ++ l2 ∧ (managerSteps l1 ≤ n)%nat ∧ acts s l1 = Some s'' ∧ (waiting (stPc s'') = true ∨ start + pause ≤ stClock s'').
Proof.
  revert n s recent. induction l as [|a l IH]; intros n s recent Hn Hlen Hs Hclock Hl Hrun.
  all: destruct (waiting (stPc s)) eqn:Hw; [eexists [], _, s; split; [reflexivity|]; cbn; split; [lia|by split; [|left]]|].
  { exfalso. cbn in Hlen. unfold turnsLeft in Hn. destruct (stPc s); cbn in Hn, Hw; try done; lia. }
  apply Forall_cons in Hl as [Ha Hl]. cbn [acts] in Hrun. destruct (act s a) as [s1|] eqn:Hact; [|done]. cbn [mbind option_bind] in Hrun.
  assert (∀ k, (managerSteps [a] + k ≤ n)%nat → (∃ l1 l2 s'', l = l1 ++ l2 ∧ (managerSteps l1 ≤ k)%nat ∧ acts s1 l1 = Some s'' ∧ (waiting (stPc s'') = true ∨ start + pause ≤ stClock s'')) →
    ∃ l1 l2 s'', a :: l = l1 ++ l2 ∧ (managerSteps l1 ≤ n)%nat ∧ acts s l1 = Some s'' ∧ (waiting (stPc s'') = true ∨ start + pause ≤ stClock s'')) as Hcons.
  { intros k Hk (l1 & l2 & s'' & -> & H1 & H2 & H3). exists (a :: l1), l2, s''. split; [done|]. split; [|split; [|done]].
    - destruct a; cbn in *; lia.
    - cbn [acts]. by rewrite Hact. }
  destruct a as [e|until| | |]; try done; cbn [act] in Hact.
  - destruct (Z.ltb_spec (eNow e) (stClock s)) as [|Hge]; [done|]. injection Hact as <-. destruct n as [|n]; [unfold turnsLeft in Hn; destruct (stPc s); cbn in Hn, Hw; try done; lia|].
    apply (Hcons n); [cbn; lia|]. destruct (Z.le_gt_cases (start + pause) (eNow e)).
    { exists [], l, (managerStep e (setClock s (eNow e))). split; [done|]. split; [cbn; lia|]. split; [done|]. right. rewrite managerStep_clock. cbn. lia. }
    destruct (managerStep_turn start recent e (setClock s (eNow e)) (okTurn_clock start recent s (eNow e) Hs) Hw ltac:(lia) Ha) as (recent' & Hs' & Hlt).
    change (turnsLeft start recent (setClock s (eNow e))) with (turnsLeft start recent s) in Hlt. apply (IH _ _ recent'); [lia|cbn in Hlen; lia|done| |done..]. rewrite managerStep_clock. cbn. lia.
  - injection Hact as <-. destruct (dropClient_turn start recent s Hs) as [Hd Ht]. destruct (dropClient_same s) as (_ & Hd2 & _). apply (Hcons n); [cbn; lia|]. apply (IH _ _ recent); try done; lia.
  - injection Hact as <-. destruct (dropClient_turn start recent s Hs) as [Hd Ht]. destruct (dropClient_same s) as (_ & Hd2 & _). apply (Hcons n); [cbn; lia|]. apply (IH _ _ recent); try done; lia.
Qed.

(** C8. The manager does not spin: from the top of its loop, whatever is answered to it and whatever other goroutines drop the
    client meanwhile, within 72 of its steps it has reached a wait (for an event, for a connection, for a reconnection, or
    its end) or 225 seconds have passed.  Errors to set up a client, which restart the loop at once, are stopped by the pause
    after seven attempts; a call of [Disable] meanwhile, which may end that pause, is not considered. *)
Theorem reaches_wait (s s' : state) (l : list action) :
  stPc s = Top → Forall turnAction l → (72 ≤ managerSteps l)%nat → acts s l = Some s' →
  ∃ l1 l2 s'', l = l1 ++ l2 ∧ (managerSteps l1 ≤ 72)%nat ∧ acts s l1 = Some s'' ∧ (waiting (stPc s'') = true ∨ stClock s + pause ≤ stClock s'').
Proof.
  intros Hpc Hl Hlen Hrun. apply (turns_end (stClock s) l 72 s s' 0); try done; [|split; [lia|lia|by rewrite Hpc]].
  unfold turnsLeft. rewrite Hpc. cbn [rank]. destruct (paused _ _); lia.
Qed.
End Manager.

(** * Witnesses *)
Module Broker.
Definition begin : Z := 1000 * Time.hour.
(** Everything succeeds. *)
Definition ok (now : Z) (w : wake) : env := mkEnv now Float.zero false true true None true None w.
(** The client cannot be set up. *)
Definition noSetup (now : Z) : env := mkEnv now Float.zero false false false None false None wakeOther.
(** The broker refuses. *)
Definition refused (now : Z) : env := mkEnv now Float.zero false true true (Some true) false None wakeOther.
(** The context is done while the connection is awaited. *)
Definition cancelled (now : Z) : env := mkEnv now Float.zero true true false None false None wakeDone.
(** The last check of paho is old. *)
Definition blocked (now : Z) : env := mkEnv now Float.zero false true true None true (Some Time.second) wakeOther.

Definition run : state → list action → option state := acts true true.
(** From the top of the loop to the wait for an event. *)
Definition turn (e : env) : list action := replicate 8 (actManager e).
Definition start : state := resumed None 0 begin.
Definition twoTurns : list action := turn (refused begin) ++ actManager (refused begin) :: turn (ok (begin + Time.minute) wakeOther).
Definition second : state := default start (run start twoTurns).
End Broker.

(** Refused, then accepted a minute later. *)
Lemma attempts_spaced_witness : length (stAttempts Broker.second) = 2%nat ∧ spaced (stAttempts Broker.second).
Proof. split; [vm_compute; reflexivity|]. apply (attempts_spaced true true None 0 Broker.begin Broker.twoTurns). vm_compute. reflexivity. Defined.

Lemma one_client_witness : cMqtt (stClient Broker.second) = Some 1%nat ∧ (size (stLive Broker.second) ≤ 1)%nat.
Proof.
  split; [vm_compute; reflexivity|]. apply (one_client true true None 0 Broker.begin Broker.twoTurns); [|vm_compute; reflexivity].
  apply Forall_app. split; [by apply Forall_replicate|]. apply Forall_cons. split; [done|]. by apply Forall_replicate.
Defined.

(** A client that cannot be set up, while a reconnection is asked for. *)
Lemma reaches_wait_witness :
  ∃ l1 l2 s'', actForceReconnect :: replicate 72 (actManager (Broker.noSetup Broker.begin)) = l1 ++ l2 ∧ (managerSteps l1 ≤ 72)%nat ∧
    acts true true Broker.start l1 = Some s'' ∧ (waiting (stPc s'') = true ∨ stClock Broker.start + pause ≤ stClock s'').
Proof.
  apply (reaches_wait true true Broker.start (default Broker.start (acts true true Broker.start (actForceReconnect :: replicate 72 (actManager (Broker.noSetup Broker.begin))))) _ eq_refl);
    [|vm_compute; lia|vm_compute; reflexivity]. apply Forall_cons. split; [done|]. apply Forall_replicate. vm_compute. split; congruence.
Defined.

(** A reload while a connection is awaited leaves the client alive: the next run has another one, and when the connection of the
    first is lost, it is the second that is dropped. *)
Example reload_leaves_client :
  (λ s, (cMqtt (stClient s), elements (stLive s))) <$>
    Broker.run Broker.start (replicate 6 (actManager (Broker.ok Broker.begin wakeOther)) ++ replicate 2 (actManager (Broker.cancelled Broker.begin)) ++
      actReload :: Broker.turn (Broker.ok (Broker.begin + Time.minute) wakeLost)) = Some (Some 1%nat, [1; 0]%nat) ∧
  (λ s, (cMqtt (stClient s), elements (stLive s))) <$>
    Broker.run Broker.start (replicate 6 (actManager (Broker.ok Broker.begin wakeOther)) ++ replicate 2 (actManager (Broker.cancelled Broker.begin)) ++
      actReload :: Broker.turn (Broker.ok (Broker.begin + Time.minute) wakeLost) ++ replicate 2 (actManager (Broker.ok (Broker.begin + Time.minute) wakeLost))) = Some (None, [0]%nat).
Proof. vm_compute. split; reflexivity. Qed.

(** The number of missing checks is kept over a reconnection: after a connection dropped because the checks were missing, the next one is
    dropped by the first turn that still finds the old check. *)
Example ping_count_kept :
  (λ s, (cMqtt (stClient s), pingMissingConsecutive (stManager s))) <$>
    Broker.run Broker.start (Broker.turn (Broker.ok Broker.begin wakeOther) ++
      replicate 11 (actManager (Broker.blocked (Broker.begin + Time.minute))) ++
      replicate 8 (actManager (Broker.ok (Broker.begin + 2 * Time.minute) wakeOther)) ++
      replicate 6 (actManager (Broker.blocked (Broker.begin + 2 * Time.minute)))) = Some (None, 3).
Proof. vm_compute. reflexivity. Qed.
