(* ===== verification/MqttMessages.v ===== *)
(** The messages to the broker (mqtt/client/client.go, state.go, stats.go, encoding.go): they are encoded in buffers that are
    reused, published, and kept in a queue until they are acknowledged; those that failed are published again.

    The queue is the list of its elements with its limit ([Fifo] models its goroutines).  An action is the part of a
    goroutine between two waits; the answers of the paho library, the size of what is encoded and the buffer that
    [sync.Pool] gives are in its arguments.  A buffer is a number; the lists of the messages accepted, acknowledged and lost
    record what happened. *)
From S2P Require Import Prelude.

#[local] Open Scope string_scope.
#[local] Open Scope Z_scope.
#[local] Open Scope list_scope.

Definition maxPendingMessages : nat := 1000.
Definition MaxMQTTPayloadSize : Z := 1024 * 1024.
Definition bucketSize : Z := 15 * Time.minute.
Definition bucketMaxAge : Z := 24 * Time.hour.

(** * Statistics *)
Record bucketStats := mkBucket { bsMin : Z; bsMax : Z; bsAvg : Z; bsMessages : Z }.
Definition zeroBucket : bucketStats := mkBucket 0 0 0 0.

Record mqttStats := mkStats { publishDates : gmap Z Z; buckets : gmap Z bucketStats; globalStats : bucketStats }.
Definition newMQTTStats : mqttStats := mkStats ∅ ∅ zeroBucket.

Definition messagePublished (s : mqttStats) (messageID now : Z) : mqttStats := mkStats (<[messageID := now]> (publishDates s)) (buckets s) (globalStats s).
Definition ackFailed (s : mqttStats) (messageID : Z) : mqttStats := mkStats (delete messageID (publishDates s)) (buckets s) (globalStats s).

Definition updateStats (stats : bucketStats) (ackWait : Z) : bucketStats :=
  let statMin := if (ackWait <? bsMin stats) || (bsMin stats =? 0) then ackWait else bsMin stats in
  mkBucket statMin (Z.max ackWait (bsMax stats)) (Z.quot (Int.int64 (Int.int64 (bsAvg stats * bsMessages stats) + ackWait)) (bsMessages stats + 1)) (bsMessages stats + 1).

Definition cleanOldBuckets (m : gmap Z bucketStats) (now : Z) : gmap Z bucketStats :=
  base.filter (λ kv : Z * bucketStats, ¬ kv.1 < now - bucketMaxAge) m.

Definition ackReceived (s : mqttStats) (messageID now : Z) : mqttStats :=
  match publishDates s !! messageID with
  | None => s
  | Some publishDate =>
      let ackWait := Time.Sub now publishDate in
      let bucket := Time.Truncate now bucketSize in
      let stats := buckets s !! bucket in
      let m := if bool_decide (stats = None) then cleanOldBuckets (buckets s) now else buckets s in
      mkStats (delete messageID (publishDates s)) (<[bucket := updateStats (default zeroBucket stats) ackWait]> m) (updateStats (globalStats s) ackWait)
  end.

#[global] Instance bucketStats_eq_dec : EqDecision bucketStats.
Proof. solve_decision. Defined.

(** * Messages *)
Record Message := mkMessage { msID : nat; msRetry : bool; msTopic : string; msBuffer : nat; msSize : Z; msToken : option Z }.

Inductive loss := notRetried | queueFull | queueClosed | contextDone.

Record Client := mkClient {
  clQueue : list Message;
  clClosed : bool;
  (** the goroutines inside [Put] *)
  clWaiting : list Message;
  (** the message of the goroutine of the acknowledgements *)
  clHandled : option Message;
  clPool : list nat;
  clNextBuffer : nat;
  clStats : mqttStats;
  clLastReport : Z;
  clAccepted : list (nat * bool);
  clAcked : list nat;
  clLost : list (nat * loss)
}.

(** The answers to a call of [PublishAsJSON] or [PublishBytes]. *)
Record publishEnv := mkPublishEnv {
  peNow : Z;
  (** the buffer of the pool that is given, if one is, and whether the encoding needs a larger one *)
  pePick : option nat; peGrows : bool;
  peEncoded : bool; peSize : Z;
  (** the identifier paho gives to the message, when there is a connection *)
  peMessageID : option Z
}.

(** The answers to the goroutine of the acknowledgements: whether the token is complete, its error, the identifier of the message
    published again and whether that failed at once. *)
Record ackEnv := mkAckEnv { aeNow : Z; aeComplete : bool; aeError : bool; aeMessageID : option Z; aeFailed : bool }.

Section Queue.
Definition setQueue (c : Client) (q w : list Message) (lost : list (nat * loss)) : Client :=
  mkClient q (clClosed c) w (clHandled c) (clPool c) (clNextBuffer c) (clStats c) (clLastReport c) (clAccepted c) (clAcked c) (clLost c ++ lost).

Definition setBuffers (c : Client) (pool : list nat) (next : nat) : Client :=
  mkClient (clQueue c) (clClosed c) (clWaiting c) (clHandled c) pool next (clStats c) (clLastReport c) (clAccepted c) (clAcked c) (clLost c).

Definition setStats (c : Client) (s : mqttStats) : Client :=
  mkClient (clQueue c) (clClosed c) (clWaiting c) (clHandled c) (clPool c) (clNextBuffer c) s (clLastReport c) (clAccepted c) (clAcked c) (clLost c).

Definition setHandled (c : Client) (m : option Message) : Client :=
  mkClient (clQueue c) (clClosed c) (clWaiting c) m (clPool c) (clNextBuffer c) (clStats c) (clLastReport c) (clAccepted c) (clAcked c) (clLost c).

Definition accept (c : Client) (m : Message) : Client :=
  mkClient (clQueue c) (clClosed c) (clWaiting c) (clHandled c) (clPool c) (clNextBuffer c) (clStats c) (clLastReport c)
    (clAccepted c ++ [(msID m, msRetry m)]) (clAcked c) (clLost c).

(** The buffer and the client, whether it comes from the pool or not. *)
Definition getBuffer (c : Client) (pick : option nat) : nat * Client :=
  match pick ≫= λ i, clPool c !! i with
  | Some b => (b, setBuffers c (base.filter (λ x, x ≠ b) (clPool c)) (clNextBuffer c))
  | None => (clNextBuffer c, setBuffers c (clPool c) (S (clNextBuffer c)))
  end.

Definition PutBuffer (c : Client) (b : nat) (size : Z) : Client :=
  if 256 * 1024 <? size then c else setBuffers c (clPool c ++ [b]) (clNextBuffer c).

(** [EncodeObject], [EncodeBytes]: the buffer the bytes are in. *)
Definition encode (c : Client) (e : publishEnv) : nat * Client :=
  let '(b, c) := getBuffer c (pePick e) in
  if peGrows e then (clNextBuffer c, setBuffers c (clPool c) (S (clNextBuffer c))) else (b, c).

(** [fifo.Put] up to its wait or its end. *)
Definition Put (c : Client) (ctxDone : bool) (m : Message) : Client :=
  if clClosed c then setQueue c (clQueue c) (clWaiting c) [(msID m, queueClosed)]
  else if ctxDone then setQueue c (clQueue c) (clWaiting c) [(msID m, contextDone)]
  else if (maxPendingMessages <=? length (clQueue c))%nat then setQueue c (clQueue c) (clWaiting c ++ [m]) []
  else setQueue c (clQueue c ++ [m]) (clWaiting c) [].

Definition PutNoWait (c : Client) (m : Message) : Client :=
  if clClosed c then setQueue c (clQueue c) (clWaiting c) [(msID m, queueClosed)]
  else if (maxPendingMessages <=? length (clQueue c))%nat then setQueue c (clQueue c) (clWaiting c) [(msID m, queueFull)]
  else setQueue c (clQueue c ++ [m]) (clWaiting c) [].

(** [PublishAsJSON] and [PublishBytes] with [publishWrapper] and [publish]. *)
Definition publish (c : Client) (e : publishEnv) (ctxDone : bool) (topic : string) (retry : bool) : Client :=
  let '(b, c) := encode c e in
  if negb (peEncoded e) then PutBuffer c b (peSize e)
  else if MaxMQTTPayloadSize <? peSize e then PutBuffer c b (peSize e)
  else if bool_decide (peMessageID e = None) && negb retry then PutBuffer c b (peSize e)
  else
    let m := mkMessage (length (clAccepted c)) retry topic b (peSize e) (peMessageID e) in
    let c := match peMessageID e with Some id => setStats c (messagePublished (clStats c) id (peNow e)) | None => c end in
    Put (accept c m) ctxDone m.

(** [ackOne] *)
Definition ackOne (c : Client) (e : ackEnv) (m : Message) : Client :=
  let failed := bool_decide (msToken m = None) || aeError e in
  let c := match msToken m with Some id => if aeError e then setStats c (ackFailed (clStats c) id) else c | None => c end in
  if failed && negb (msRetry m) then
    let c := PutBuffer c (msBuffer m) (msSize m) in
    mkClient (clQueue c) (clClosed c) (clWaiting c) None (clPool c) (clNextBuffer c) (clStats c) (clLastReport c) (clAccepted c) (clAcked c) (clLost c ++ [(msID m, notRetried)])
  else if failed then
    let token := if aeFailed e then None else aeMessageID e in
    PutNoWait (setHandled c None) (mkMessage (msID m) (msRetry m) (msTopic m) (msBuffer m) (msSize m) token)
  else if negb (aeComplete e) then PutNoWait (setHandled c None) m
  else
    let c := PutBuffer c (msBuffer m) (msSize m) in
    let stats := match msToken m with Some id => ackReceived (clStats c) id (aeNow e) | None => clStats c end in
    mkClient (clQueue c) (clClosed c) (clWaiting c) None (clPool c) (clNextBuffer c) stats (aeNow e) (clAccepted c) (clAcked c ++ [msID m]) (clLost c).

(** * Histories *)
Inductive action :=
  | actPublish (e : publishEnv) (ctxDone : bool) (topic : string) (retry : bool)
  | actProceed (i : nat) (ctxDone : bool)
  | actTake
  | actAck (e : ackEnv)
  | actClose.

Definition act (c : Client) (a : action) : option Client :=
  match a with
  | actPublish e ctxDone topic retry => Some (publish c e ctxDone topic retry)
  | actProceed i ctxDone => m ← clWaiting c !! i; Some (Put (setQueue c (clQueue c) (delete i (clWaiting c)) []) ctxDone m)
  | actTake =>
      if clClosed c then None
      else match clHandled c, clQueue c with None, m :: q => Some (setHandled (setQueue c q (clWaiting c) []) (Some m)) | _, _ => None end
  | actAck e => m ← clHandled c; Some (ackOne c e m)
  | actClose => Some (mkClient (clQueue c) true (clWaiting c) (clHandled c) (clPool c) (clNextBuffer c) (clStats c) (clLastReport c) (clAccepted c) (clAcked c) (clLost c))
  end.

Fixpoint acts (c : Client) (l : list action) : option Client := match l with [] => Some c | a :: l => c ← act c a; acts c l end.

Definition newClient : Client := mkClient [] false [] None [] 0 newMQTTStats 0 [] [] [].

(** * What becomes of the messages *)
(** The messages in the queue, those that wait to enter it, the one that is handled. *)
Definition pending (c : Client) : list Message := clQueue c ++ clWaiting c ++ option_list (clHandled c).

(** A client and the messages a goroutine has in hand. *)
Record ok (hand : list Message) (c : Client) : Prop := {
  ok_accounted : (clAccepted c).*1 ≡ₚ (msID <$> pending c ++ hand) ++ clAcked c ++ (clLost c).*1;
  ok_ids : (clAccepted c).*1 = seq 0 (length (clAccepted c));
  ok_flags : ∀ m, m ∈ pending c ++ hand → (msID m, msRetry m) ∈ clAccepted c;
  ok_lost : ∀ id, (id, notRetried) ∈ clLost c → (id, false) ∈ clAccepted c;
  ok_buffers : NoDup (clPool c ++ (msBuffer <$> pending c ++ hand));
  ok_fresh : ∀ b, b ∈ clPool c ++ (msBuffer <$> pending c ++ hand) → (b < clNextBuffer c)%nat;
  ok_limit : (length (clQueue c) ≤ maxPendingMessages)%nat
}.

(** Messages that change hands. *)
Lemma ok_moved (hand hand' : list Message) (c c' : Client) :
  ok hand c → pending c' ++ hand' ≡ₚ pending c ++ hand → clAccepted c' = clAccepted c → clAcked c' = clAcked c → clLost c' = clLost c →
  clPool c' = clPool c → clNextBuffer c' = clNextBuffer c → (length (clQueue c') ≤ maxPendingMessages)%nat → ok hand' c'.
Proof.
  intros [H1 H2 H3 H4 H5 H6 H7] Hp Ha Hk Hl Hb Hn Hq. split; rewrite ?Ha, ?Hk, ?Hl, ?Hb, ?Hn; try done.
  - by rewrite Hp.
  - intros m. rewrite Hp. apply H3.
  - by rewrite Hp.
  - intros b. rewrite Hp. apply H6.
Qed.

(** A message in hand that is lost, but not for want of trying. *)
Lemma ok_dropped (m : Message) (why : loss) (c c' : Client) :
  ok [m] c → why ≠ notRetried → pending c' = pending c → clAccepted c' = clAccepted c → clAcked c' = clAcked c → clLost c' = clLost c ++ [(msID m, why)] →
  clPool c' = clPool c → clNextBuffer c' = clNextBuffer c → clQueue c' = clQueue c → ok [] c'.
Proof.
  intros [H1 H2 H3 H4 H5 H6 H7] Hw Hp Ha Hk Hl Hb Hn Hq. rewrite fmap_app in *. split; rewrite ?Ha, ?Hk, ?Hl, ?Hb, ?Hn, ?Hp, ?Hq, ?app_nil_r; try done.
  - rewrite H1, fmap_app. cbn. rewrite <- !(assoc_L (++)). apply Permutation_app_head. cbn. rewrite (assoc_L (++)). apply Permutation_cons_append.
  - intros m' Hm. apply H3. set_solver.
  - intros id [Hid|[= _ ?]%list_elem_of_singleton]%elem_of_app; [by apply H4|done].
  - rewrite (assoc_L (++)) in H5. by apply NoDup_app in H5 as [? _].
  - intros b Hb'. apply H6. set_solver.
Qed.

Lemma pending_setQueue (c : Client) (q w : list Message) (lost : list (nat * loss)) : pending (setQueue c q w lost) = q ++ w ++ option_list (clHandled c).
Proof. done. Qed.

Lemma Put_ok (c : Client) (ctxDone : bool) (m : Message) : ok [m] c → ok [] (Put c ctxDone m).
Proof.
  intros Hc. unfold Put. destruct (clClosed c); [by apply (ok_dropped m queueClosed c)|]. destruct ctxDone; [by apply (ok_dropped m contextDone c)|].
  destruct (Nat.leb_spec maxPendingMessages (length (clQueue c))).
  - eapply ok_moved; try done; [|cbn; by rewrite app_nil_r|apply (ok_limit _ _ Hc)]. rewrite pending_setQueue, app_nil_r. unfold pending.
    rewrite <- !(assoc_L (++)). do 2 apply Permutation_app_head. apply Permutation_app_comm.
  - eapply ok_moved; try done; [|cbn; by rewrite app_nil_r|cbn; rewrite length_app; cbn; lia]. rewrite pending_setQueue, app_nil_r. unfold pending.
    rewrite <- !(assoc_L (++)). apply Permutation_app_head. rewrite (assoc_L (++) (clWaiting c)). apply Permutation_app_comm.
Qed.

Lemma PutNoWait_ok (c : Client) (m : Message) : ok [m] c → ok [] (PutNoWait c m).
Proof.
  intros Hc. unfold PutNoWait. destruct (clClosed c); [by apply (ok_dropped m queueClosed c)|]. destruct (Nat.leb_spec maxPendingMessages (length (clQueue c))); [by apply (ok_dropped m queueFull c)|].
  eapply ok_moved; try done; [|cbn; by rewrite app_nil_r|cbn; rewrite length_app; cbn; lia]. rewrite pending_setQueue, app_nil_r. unfold pending.
  rewrite <- !(assoc_L (++)). apply Permutation_app_head. rewrite (assoc_L (++) (clWaiting c)). apply Permutation_app_comm.
Qed.

(** A buffer that nothing uses. *)
Definition unused (c : Client) (b : nat) : Prop := b ∉ clPool c ++ (msBuffer <$> pending c) ∧ (b < clNextBuffer c)%nat.

Lemma ok_pool (c : Client) (pool : list nat) (next : nat) :
  ok [] c → NoDup (pool ++ (msBuffer <$> pending c)) → (∀ b, b ∈ pool → (b < next)%nat) → (clNextBuffer c ≤ next)%nat → ok [] (setBuffers c pool next).
Proof.
  intros [H1 H2 H3 H4 H5 H6 H7] Hnd Hp Hn. rewrite app_nil_r in *. split; cbn [clAccepted clAcked clLost clPool clQueue clNextBuffer setBuffers];
    rewrite ?app_nil_r; try done. intros b [Hb|Hb]%elem_of_app; [by apply Hp|]. eapply Nat.lt_le_trans; [|exact Hn]. apply H6. apply elem_of_app. by right.
Qed.

Lemma getBuffer_ok (c : Client) (pick : option nat) : ok [] c → let '(b, c') := getBuffer c pick in ok [] c' ∧ unused c' b.
Proof.
  intros Hc. pose proof (ok_buffers _ _ Hc) as Hnd. pose proof (ok_fresh _ _ Hc) as Hf. rewrite app_nil_r in Hnd, Hf. unfold getBuffer.
  destruct (pick ≫= λ i, clPool c !! i) as [b|] eqn:Hpick.
  - assert (b ∈ clPool c) as Hb by (destruct pick as [i|]; [|done]; by eapply list_elem_of_lookup_2). apply NoDup_app in Hnd as (N1 & N2 & N3). split.
    + apply ok_pool; [done| | |done].
      * apply NoDup_app. split; [by apply NoDup_filter|]. split; [|done]. intros x [_ Hx]%list_elem_of_filter. by apply N2.
      * intros x [_ Hx]%list_elem_of_filter. apply Hf, elem_of_app. by left.
    + split; [|apply Hf, elem_of_app; by left]. cbn. intros [[? _]%list_elem_of_filter|Hx]%elem_of_app; [done|]. by apply (N2 b).
  - split; [|split; [|cbn; lia]].
    + apply ok_pool; [done|done| |lia]. intros b Hb. apply Nat.lt_lt_succ_r, Hf, elem_of_app. by left.
    + intros Hx%Hf. lia.
Qed.

Lemma encode_ok (c : Client) (e : publishEnv) : ok [] c → let '(b, c') := encode c e in ok [] c' ∧ unused c' b.
Proof.
  intros Hc. unfold encode. pose proof (getBuffer_ok c (pePick e) Hc) as H. destruct (getBuffer c (pePick e)) as [b c1]. destruct H as [Hc1 Hb]. destruct (peGrows e); [|done].
  change (let '(b, c') := getBuffer c1 None in ok [] c' ∧ unused c' b). by apply getBuffer_ok.
Qed.

Lemma PutBuffer_ok (c : Client) (b : nat) (size : Z) : ok [] c → unused c b → ok [] (PutBuffer c b size).
Proof.
  intros Hc [Hb Hn]. unfold PutBuffer. destruct (_ <? _); [done|]. pose proof (ok_buffers _ _ Hc) as Hnd. pose proof (ok_fresh _ _ Hc) as Hf. rewrite app_nil_r in Hnd, Hf.
  apply ok_pool; [done| | |done].
  - rewrite <- (assoc_L (++)). apply (NoDup_Permutation_proper _ (b :: clPool c ++ (msBuffer <$> pending c))); [|by apply NoDup_cons]. symmetry. apply Permutation_middle.
  - intros x [Hx|Hx]%elem_of_app; [apply Hf, elem_of_app; by left|]. by apply list_elem_of_singleton in Hx as ->.
Qed.

Lemma accept_ok (c : Client) (m : Message) : ok [] c → msID m = length (clAccepted c) → unused c (msBuffer m) → ok [m] (accept c m).
Proof.
  intros [H1 H2 H3 H4 H5 H6 H7] Hid [Hb Hn]. rewrite app_nil_r in *. assert (pending (accept c m) = pending c) as Hp by done.
  split; rewrite ?Hp; cbn [clAccepted clAcked clLost clPool clQueue clNextBuffer accept]; rewrite ?fmap_app; try done.
  - rewrite H1. cbn. rewrite <- !(assoc_L (++)). apply Permutation_app_head. rewrite (assoc_L (++) (clAcked c)). apply Permutation_app_comm.
  - rewrite length_app, H2, Hid. cbn. by rewrite Nat.add_1_r, seq_S.
  - intros x [Hx|Hx]%elem_of_app; apply elem_of_app; [left; by apply H3|right]. apply list_elem_of_singleton in Hx as ->. by left.
  - intros id Hlost. apply elem_of_app. left. by apply H4.
  - cbn. rewrite (assoc_L (++)). apply NoDup_app. split; [done|]. split; [|apply NoDup_singleton]. intros x Hx Heq%list_elem_of_singleton. by subst x.
  - intros b. cbn. rewrite (assoc_L (++)). intros [Hx|Hx]%elem_of_app; [by apply H6|]. by apply list_elem_of_singleton in Hx as ->.
Qed.

(** A message in hand that is acknowledged, or given up: its buffer may be used again. *)
Lemma ok_finished (m : Message) (c c' : Client) :
  ok [m] c → pending c' = pending c → clAccepted c' = clAccepted c → clQueue c' = clQueue c → clNextBuffer c' = clNextBuffer c →
  clPool c' = clPool c ∨ clPool c' = clPool c ++ [msBuffer m] →
  clAcked c' = clAcked c ++ [msID m] ∧ clLost c' = clLost c ∨ msRetry m = false ∧ clAcked c' = clAcked c ∧ clLost c' = clLost c ++ [(msID m, notRetried)] → ok [] c'.
Proof.
  intros [H1 H2 H3 H4 H5 H6 H7] Hp Ha Hq Hn Hpool Hend. rewrite !fmap_app in *. cbn in *.
  assert (clPool c' ++ (msBuffer <$> pending c) ⊆+ clPool c ++ (msBuffer <$> pending c) ++ [msBuffer m]) as Hsub.
  { destruct Hpool as [->| ->]; [rewrite (assoc_L (++)); apply submseteq_inserts_r; done|]. rewrite <- (assoc_L (++)). apply submseteq_app; [done|].
    cbn. by rewrite Permutation_cons_append. }
  split; rewrite ?Ha, ?Hn, ?Hp, ?Hq, ?app_nil_r; try done.
  - rewrite H1. destruct Hend as [[-> ->]|(_ & -> & ->)]; rewrite ?fmap_app, <- !(assoc_L (++)); apply Permutation_app_head.
    + rewrite (assoc_L (++)), (Permutation_app_comm [msID m]), <- (assoc_L (++)). done.
    + rewrite (Permutation_app_comm [msID m]), <- (assoc_L (++)). done.
  - intros x Hx. apply H3, elem_of_app. by left.
  - intros id. destruct Hend as [[_ ->]|(Hr & _ & ->)]; [apply H4|]. intros [Hid|[= ->]%list_elem_of_singleton]%elem_of_app; [by apply H4|].
    rewrite <- Hr. apply H3, elem_of_app. right. by left.
  - apply submseteq_Permutation in Hsub as [k Hk]. rewrite Hk in H5. by apply NoDup_app in H5 as [? _].
  - intros b Hb. apply H6. by eapply elem_of_submseteq.
Qed.

Lemma ok_stats (hand : list Message) (c : Client) (s : mqttStats) : ok hand c → ok hand (setStats c s).
Proof. intros [H1 H2 H3 H4 H5 H6 H7]. by split. Qed.

Lemma publish_ok (c : Client) (e : publishEnv) (ctxDone : bool) (topic : string) (retry : bool) : ok [] c → ok [] (publish c e ctxDone topic retry).
Proof.
  intros Hc. unfold publish. pose proof (encode_ok c e Hc) as H. destruct (encode c e) as [b c1]. destruct H as [Hc1 Hb].
  destruct (negb _); [by apply PutBuffer_ok|]. destruct (_ <? _); [by apply PutBuffer_ok|]. destruct (_ && _); [by apply PutBuffer_ok|].
  apply Put_ok. apply accept_ok; destruct (peMessageID e); try done. by apply ok_stats.
Qed.

(** The goroutine of the acknowledgements has its message in hand. *)
Lemma ok_taken (c : Client) (m : Message) : ok [] c → clHandled c = Some m → ok [m] (setHandled c None).
Proof.
  intros Hc Hm. eapply ok_moved; try done; [|apply (ok_limit _ _ Hc)]. unfold pending. cbn. rewrite Hm. cbn. by rewrite !app_nil_r, <- (assoc_L (++)).
Qed.

Lemma ok_token (c : Client) (m m' : Message) :
  ok [m] c → msID m' = msID m → msRetry m' = msRetry m → msBuffer m' = msBuffer m → ok [m'] c.
Proof.
  intros [H1 H2 H3 H4 H5 H6 H7] Hi Hr Hb. rewrite !fmap_app in *. cbn in *. split; rewrite ?fmap_app; cbn; rewrite ?Hi, ?Hb; try done.
  intros x [Hx|Hx]%elem_of_app; [apply H3, elem_of_app; by left|]. apply list_elem_of_singleton in Hx as ->. rewrite Hi, Hr. apply H3, elem_of_app. right. by left.
Qed.

Lemma PutBuffer_fields (c : Client) (b : nat) (size : Z) :
  clQueue (PutBuffer c b size) = clQueue c ∧ clWaiting (PutBuffer c b size) = clWaiting c ∧ clAccepted (PutBuffer c b size) = clAccepted c ∧
  clAcked (PutBuffer c b size) = clAcked c ∧ clLost (PutBuffer c b size) = clLost c ∧ clNextBuffer (PutBuffer c b size) = clNextBuffer c ∧
  (clPool (PutBuffer c b size) = clPool c ∨ clPool (PutBuffer c b size) = clPool c ++ [b]).
Proof. unfold PutBuffer. destruct (_ <? _); repeat split; auto. Qed.

Lemma ackOne_ok (c : Client) (e : ackEnv) (m : Message) : ok [] c → clHandled c = Some m → ok [] (ackOne c e m).
Proof.
  intros Hc Hm. pose proof (ok_taken c m Hc Hm) as Hh. unfold ackOne.
  set (c1 := match msToken m with Some id => _ | None => c end). assert (ok [m] (setHandled c1 None)) as H1.
  { unfold c1. destruct (msToken m); [destruct (aeError e)|]; try done. change (setHandled (setStats c ?s) None) with (setStats (setHandled c None) s). by apply ok_stats. }
  clearbody c1. destruct (PutBuffer_fields c1 (msBuffer m) (msSize m)) as (F1 & F2 & F3 & F4 & F5 & F6 & F7). destruct (_ && _) eqn:Hgive.
  - apply (ok_finished m _ _ H1); cbn; try done; [unfold pending; cbn; by rewrite F1, F2|]. right. apply andb_prop in Hgive as [_ Hr]. split; [by destruct (msRetry m)|]. by rewrite F5.
  - destruct (_ || _) eqn:Hfailed.
    + apply PutNoWait_ok. by eapply ok_token.
    + destruct (negb (aeComplete e)); [by apply PutNoWait_ok|]. apply (ok_finished m _ _ H1); cbn; try done; [unfold pending; cbn; by rewrite F1, F2|]. left. by rewrite F4.
Qed.

Lemma message_act_ok (c c' : Client) (a : action) : ok [] c → act c a = Some c' → ok [] c'.
Proof.
  intros Hc. destruct a as [e ctxDone topic retry|i ctxDone| |e|]; cbn [act].
  - intros [= <-]. by apply publish_ok.
  - destruct (clWaiting c !! i) as [m|] eqn:Hm; [|done]. intros [= <-]. apply Put_ok. eapply ok_moved; [exact Hc| |done|done|cbn; by rewrite app_nil_r|done|done|apply (ok_limit _ _ Hc)].
    rewrite pending_setQueue, app_nil_r. unfold pending. rewrite <- !(assoc_L (++)). apply Permutation_app_head. rewrite (delete_Permutation (clWaiting c) i m Hm) at 2. cbn.
    rewrite (assoc_L (++)). symmetry. apply Permutation_cons_append.
  - destruct (clClosed c); [done|]. destruct (clHandled c) eqn:Hh; [done|]. destruct (clQueue c) as [|m q] eqn:Hq; [done|]. intros [= <-].
    eapply ok_moved; [exact Hc| |done|done|cbn; by rewrite app_nil_r|done|done|].
    + unfold pending. cbn. rewrite Hq, Hh. cbn. rewrite !app_nil_r, (assoc_L (++)). symmetry. apply Permutation_cons_append.
    + pose proof (ok_limit _ _ Hc) as Hl. rewrite Hq in Hl. cbn [clQueue setHandled setQueue]. cbn [length] in Hl. lia.
  - destruct (clHandled c) as [m|] eqn:Hm; [|done]. intros [= <-]. by apply ackOne_ok.
  - intros [= <-]. destruct Hc. by split.
Qed.

Lemma message_acts_ok (l : list action) (c c' : Client) : ok [] c → acts c l = Some c' → ok [] c'.
Proof.
  revert c. induction l as [|a l IH]; intros c Hc; cbn [acts]; [by intros [= <-]|]. destruct (act c a) as [c1|] eqn:Ha; [|done]. cbn. apply IH. by eapply message_act_ok.
Qed.

Lemma newClient_ok : ok [] newClient.
Proof. split; cbn; try done; try apply NoDup_nil_2; try lia; intros ? ?%elem_of_nil; done. Qed.

(** C6. Every message is accounted for: over any history of publications, acknowledgements, failures, timeouts and closes, each message
    accepted is exactly once among those in the queue (at most a thousand), those that wait to enter it, the one that is handled, those
    acknowledged and those lost; and a message to be retried is lost only for a queue that is full or closed, or a context that is done. *)
Theorem messages_accounted (l : list action) (c : Client) :
  acts newClient l = Some c →
  NoDup (clAccepted c).*1 ∧ (clAccepted c).*1 ≡ₚ (msID <$> pending c) ++ clAcked c ++ (clLost c).*1 ∧ (length (clQueue c) ≤ maxPendingMessages)%nat ∧
  ∀ id why, (id, why) ∈ clLost c → (id, true) ∈ clAccepted c → why ≠ notRetried.
Proof.
  intros H. destruct (message_acts_ok l newClient c newClient_ok H) as [H1 H2 H3 H4 _ _ H7]. rewrite app_nil_r in H1. assert (NoDup (clAccepted c).*1) as Hnd by (rewrite H2; apply NoDup_seq).
  split; [done|]. split; [done|]. split; [done|]. intros id why Hl Ha ->. specialize (H4 id Hl).
  apply list_elem_of_lookup in Ha as [i Hi], H4 as [j Hj]. assert (i = j) as ->; [|congruence].
  apply (NoDup_lookup _ _ _ id Hnd); rewrite list_lookup_fmap; [by rewrite Hi|by rewrite Hj].
Qed.

(** A buffer is used by one message at a time: in every history the buffers of the messages that are pending are different, and none is in the
    pool, from which the next message takes its own. *)
Theorem buffers_exclusive (l : list action) (c : Client) : acts newClient l = Some c → NoDup (clPool c ++ (msBuffer <$> pending c)).
Proof. intros H. pose proof (ok_buffers _ _ (message_acts_ok l newClient c newClient_ok H)) as Hnd. by rewrite app_nil_r in Hnd. Qed.

End Queue.

(** * The statistics *)
(** The mean of the waits is between the extremes. *)
Definition goodBucket (b : bucketStats) : Prop :=
  0 ≤ bsMessages b ∧ if bsMessages b =? 0 then b = zeroBucket else 0 < bsMin b ∧ bsMin b ≤ bsAvg b ≤ bsMax b.

Lemma updateStats_good (b : bucketStats) (w : Z) :
  goodBucket b → 0 < w → Z.max w (bsMax b) * (bsMessages b + 1) ≤ Int.maxInt64 → goodBucket (updateStats b w).
Proof.
  intros [Hn Hb] Hw Hmax. unfold goodBucket, updateStats. cbn [bsMessages bsMin bsMax bsAvg]. split; [lia|]. destruct (Z.eqb_spec (bsMessages b + 1) 0) as [?|_]; [lia|].
  destruct (Z.eqb_spec (bsMessages b) 0) as [H0|H0].
  - subst b. cbn [bsMessages bsMax bsMin bsAvg zeroBucket] in *. rewrite orb_true_r. change (Int.int64 (0 * 0)) with 0. change (0 + 1) with 1 in *.
    rewrite Int.int64_id by (unfold Int.minInt64; lia). rewrite Z.quot_1_r. lia.
  - destruct Hb as (Hmin & Hlo & Hhi). set (n := bsMessages b) in *. set (a := bsAvg b) in *. set (hi := bsMax b) in *. set (lo := bsMin b) in *. clearbody n a hi lo.
    destruct (Z.eqb_spec lo 0); [lia|]. rewrite orb_false_r. assert (0 ≤ a * n ≤ hi * n) by nia. assert (hi * n + w ≤ Z.max w hi * (n + 1)) by nia.
    rewrite (Int.int64_id (a * n)) by (unfold Int.minInt64; lia). rewrite Int.int64_id by (unfold Int.minInt64; lia). rewrite Z.quot_div_nonneg by lia.
    set (lo' := if w <? lo then w else lo). assert (0 < lo' ∧ lo' ≤ w ∧ lo' ≤ a) as (? & ? & ?) by (unfold lo'; destruct (Z.ltb_spec w lo); lia). clearbody lo'.
    split; [done|]. split; [apply Z.div_le_lower_bound; nia|]. apply Z.div_le_upper_bound; nia.
Qed.

(** * Witnesses *)
Module Broker.
Definition sending (now : Z) (pick : option nat) (id : option Z) : publishEnv := mkPublishEnv now pick false true 100 id.
Definition acked (now : Z) : ackEnv := mkAckEnv now true false None false.
Definition failing (now : Z) : ackEnv := mkAckEnv now true true None true.
(** A message is acknowledged, a second one takes its buffer and fails while there is no connection, a third one without retry too. *)
Definition history : list action :=
  [actPublish (sending 10 None (Some 7)) false "data" true; actTake; actAck (acked 20); actPublish (sending 30 (Some 0%nat) (Some 8)) false "data" true;
   actPublish (sending 40 (Some 0%nat) (Some 9)) false "ping" false; actTake; actAck (failing 50); actTake; actAck (failing 60)].
Definition after : Client := default newClient (acts newClient history).
End Broker.

Lemma messages_accounted_witness :
  clAcked Broker.after = [0%nat] ∧ clLost Broker.after = [(2%nat, notRetried)] ∧ (clAccepted Broker.after).*1 ≡ₚ (msID <$> pending Broker.after) ++ clAcked Broker.after ++ (clLost Broker.after).*1.
Proof.
  split; [vm_compute; reflexivity|]. split; [vm_compute; reflexivity|]. apply (messages_accounted Broker.history Broker.after). vm_compute. reflexivity.
Defined.

Lemma buffers_exclusive_witness :
  clPool Broker.after = [1%nat] ∧ msBuffer <$> pending Broker.after = [0%nat] ∧ NoDup (clPool Broker.after ++ (msBuffer <$> pending Broker.after)).
Proof.
  split; [vm_compute; reflexivity|]. split; [vm_compute; reflexivity|]. apply (buffers_exclusive Broker.history Broker.after). vm_compute. reflexivity.
Defined.
