(* ===== verification/MetricSync.v ===== *)
(** The synchronization of the metrics (bleemeo/internal/synchronizer/metrics.go, [syncMetrics]; the listing of
    bleemeo.go): the cache is updated from the API, the metrics deleted there are dropped from the store, the
    others are registered, and those without points are deactivated.

    The API, the store and the clock are the operations [metricOps], which take the state of the world and give the
    next one.  An iterator over the metrics of the API is the list of what it yields, with the state of the world
    at each step, and its end.  What the rest of the agent gives is [syncEnv]; the names of the types of agents are
    constants of the library of the API. *)
From S2P Require Import Prelude Labels Bytes Json Services MetricRegister Limits MetricsState SyncState.

#[local] Open Scope string_scope.
#[local] Open Scope Z_scope.

(** * Data *)
Record metricOps (W : Type) := mkOps {
  oNow : W → Z;
  oCancelled : W → option regError;
  oRegister : W → MetricPayload → W * (MetricPayload + callError);
  oSetActive : W → string → bool → W * option callError;
  oListBy : W → listParams → W * (list (string * Metric) + callError);
  oIterate : W → bool → list (W * MetricPayload) * (W * option callError);
  oCount : W → W * (Z + callError);
  oGet : W → string → W * (MetricPayload + callError);
  oDelete : W → string → W * option callError;
  oMetrics : W → option (list localMetric);
  oDrop : W → list Labels → W
}.
Arguments mkOps {W}. Arguments oNow {W}. Arguments oCancelled {W}. Arguments oRegister {W}. Arguments oSetActive {W}.
Arguments oListBy {W}. Arguments oIterate {W}. Arguments oCount {W}. Arguments oGet {W}. Arguments oDelete {W}.
Arguments oMetrics {W}. Arguments oDrop {W}.

Record syncEnv := mkSyncEnv {
  seAgentID : string;
  seScraperName : string;
  (** the types of agents: identifier and name *)
  seAgentTypes : list (string * string);
  AgentType_Agent : string; AgentType_SNMP : string; AgentType_K8s : string; AgentType_Monitor : string;
  seIsClusterLeader : bool;
  seIsMetricAllowed : Labels → bool;
  seStartedAt : Z;
  seExpirationDays : Z;
  (** the labels and annotations of the status of each service, and whether its check is ignored *)
  seServices : list (Labels * MetricAnnotations * bool);
  seOnlyEssential : bool;
  seSort : (localMetric → localMetric → bool) → list localMetric → list localMetric;
  seRange : gmap string Metric → list (string * Metric);
  seRangeFails : gmap string MetricRegistration → list (string * MetricRegistration);
  seRangeSet : gset string → list string
}.

(** The part of the synchronizer that takes part: the pending requests, the cache, the report, the failures that may be
    tried again, and the times and counts of [state]. *)
Record msync := mkSync {
  msSync : Synchronizer;
  msCache : cache;
  msReport : reportState;
  msRetryable : FailureKind → bool;
  msRetryAt : Z;
  msLastActivation : Z;
  msLastCount : Z;
  msSuccessiveErrors : Z
}.

Inductive syncErr := errStore | errSync (e : regError).

Definition setCached (s : msync) (metrics : list Metric) : msync :=
  let c := msCache s in
  mkSync (msSync s)
    (mkCache (ccConfig c) (ccProbeConfigs c) (ccMonitors c) (ccAgents c) (ccContainers c) (ccServices c) metrics (ccFails c))
    (msReport s) (msRetryable s) (msRetryAt s) (msLastActivation s) (msLastCount s) (msSuccessiveErrors s).

Definition setFails (s : msync) (fails : list MetricRegistration) : msync :=
  let c := msCache s in
  mkSync (msSync s)
    (mkCache (ccConfig c) (ccProbeConfigs c) (ccMonitors c) (ccAgents c) (ccContainers c) (ccServices c) (ccMetrics c) fails)
    (msReport s) (msRetryable s) (msRetryAt s) (msLastActivation s) (msLastCount s) (msSuccessiveErrors s).

Definition setSync (s : msync) (sync : Synchronizer) : msync :=
  mkSync sync (msCache s) (msReport s) (msRetryable s) (msRetryAt s) (msLastActivation s) (msLastCount s) (msSuccessiveErrors s).

Definition setReport (s : msync) (report : reportState) : msync :=
  mkSync (msSync s) (msCache s) report (msRetryable s) (msRetryAt s) (msLastActivation s) (msLastCount s) (msSuccessiveErrors s).

Definition setRetry (s : msync) (retryable : FailureKind → bool) (retryAt : Z) : msync :=
  mkSync (msSync s) (msCache s) (msReport s) retryable retryAt (msLastActivation s) (msLastCount s) (msSuccessiveErrors s).

Definition setActivation (s : msync) (lastActivation : Z) : msync :=
  mkSync (msSync s) (msCache s) (msReport s) (msRetryable s) (msRetryAt s) lastActivation (msLastCount s) (msSuccessiveErrors s).

Definition setLastCount (s : msync) (count : Z) : msync :=
  mkSync (msSync s) (msCache s) (msReport s) (msRetryable s) (msRetryAt s) (msLastActivation s) count (msSuccessiveErrors s).

Section Sync.
Context {W : Type}.
Variable ops : metricOps W.
Variable env : syncEnv.

#[local] Notation now := (oNow ops).

(** * The cache follows the API *)
Definition getAgentType (name : string) : option string :=
  match list_find (λ t, t.2 = name) (seAgentTypes env) with Some (_, t) => Some t.1 | None => None end.

Definition isOwnedMetric (agents : gmap string string) (metric : MetricPayload) : bool :=
  let m := plMetric metric in
  let labels := default ∅ (TextToLabels (mLabelsText m)) in
  if bool_decide (mAgentID m = seAgentID env) then true
  else if bool_decide (labels !! LabelScraperUUID = Some (seAgentID env)) then true
  else if bool_decide (labels !! LabelScraper = Some (seScraperName env)) then true
  else
    match getAgentType (AgentType_Monitor env) with
    | Some agentTypeID => negb (bool_decide (agentTypeID = default "" (agents !! mAgentID m)))
    | None => true
    end.

(** The metrics an iterator yields.  [find]: the labels still to be found, if the search stops when there are none. *)
Fixpoint collect (find : option (gset string)) (metrics : list MetricPayload) (items : list (W * MetricPayload)) (last : W * option callError) :
    W * (list MetricPayload + callError) :=
  match items with
  | [] => (last.1, match last.2 with None => inl metrics | Some e => inr e end)
  | (w, metric) :: items =>
      let metrics := (metrics ++ [metric])%list in
      match find with
      | None => collect None metrics items last
      | Some toFind =>
          let toFind := toFind ∖ {[ mLabelsText (plMetric metric) ]} in
          if bool_decide (toFind = ∅) then (w, inl metrics) else collect (Some toFind) metrics items last
      end
  end.

Definition listMetrics (w : W) (active : bool) (find : option (gset string)) : W * (list MetricPayload + callError) :=
  let '(items, last) := oIterate ops w active in collect find [] items last.

Definition metricsListWithAgentID (w : W) (c : cache) (fetchInactive : bool) (find : option (gset string)) : W * (gmap string Metric + callError) :=
  match (if fetchInactive then listMetrics w false find else listMetrics w true None) with
  | (w, inr e) => (w, inr e)
  | (w, inl result) =>
      let cached := foldl (λ ms m, if Bool.eqb (Time.IsZero (mDeactivatedAt m)) fetchInactive then <[mID m := m]> ms else ms) ∅ (ccMetrics c) in
      (w, inl (foldl (λ ms metric,
          if isOwnedMetric (ccAgents c) metric then
            let id := mID (plMetric metric) in
            <[id := metricFromAPI now w metric (match ms !! id with Some x => mFirstSeenAt x | None => 0 end)]> ms
          else ms) cached result))
  end.

Definition metricUpdateAll (w : W) (s : msync) (fetchInactive : bool) (find : option (gset string)) : W * msync * option callError :=
  match metricsListWithAgentID w (msCache s) fetchInactive find with
  | (w, inr e) => (w, s, Some e)
  | (w, inl metrics) => (w, setCached s (seRange env metrics).*2, None)
  end.

Definition registerEnvOf (s : msync) : registerEnv := envOf (seAgentID env) (seScraperName env) (msCache s).

(** [metricUpdateList] of the registration, on the cache. *)
Definition updateListIn (w : W) (s : msync) (metrics : list localMetric) : W * msync * option callError :=
  match metrics with
  | [] => (w, s, None)
  | _ =>
      match updateList (registerEnvOf s) (oListBy ops) w (MetricsByUUID (ccMetrics (msCache s))) metrics with
      | (w, inr e) => (w, s, Some e)
      | (w, inl found) => (w, setCached s (seRange env found).*2, None)
      end
  end.

Definition metricUpdateInactiveList (w : W) (s : msync) (metrics : list localMetric) (allowList : bool) : W * msync * option callError :=
  if (Z.of_nat (length metrics) <? 10) || negb allowList then updateListIn w s metrics
  else
    match oCount ops w with
    | (w, inr e) => (w, s, Some e)
    | (w, inl count) =>
        if Z.of_nat (length metrics) <=? count ÷ 100 then updateListIn w s metrics
        else metricUpdateAll w s true (Some (list_to_set ((λ m, LabelsToText (lmLabels m)) <$> metrics)))
    end.

Fixpoint updateUUIDs (w : W) (metrics : gmap string Metric) (requests : list string) : W * (gmap string Metric + callError) :=
  match requests with
  | [] => (w, inl metrics)
  | key :: requests =>
      match oGet ops w key with
      | (w, inr e) => if IsNotFound e then updateUUIDs w (delete key metrics) requests else (w, inr e)
      | (w, inl metric) =>
          let id := mID (plMetric metric) in
          updateUUIDs w (<[id := metricFromAPI now w metric (match metrics !! id with Some x => mFirstSeenAt x | None => 0 end)]> metrics) requests
      end
  end.

Definition metricUpdateListUUID (w : W) (s : msync) (requests : list string) : W * msync * option callError :=
  match updateUUIDs w (MetricsByUUID (ccMetrics (msCache s))) requests with
  | (w, inr e) => (w, s, Some e)
  | (w, inl metrics) => (w, setCached s (seRange env metrics).*2, None)
  end.

Definition popPendingMetricsUpdate (s : msync) : msync * list string :=
  let set : gset string := list_to_set (syPendingMetricsUpdate (msSync s)) in
  (setSync s (setPending (msSync s) [] (syPendingMonitorsUpdate (msSync s))), seRangeSet env set).

Definition metricUpdatePendingOrSync (w : W) (s : msync) (fullSync : bool) (pending : list string) : W * msync * option callError :=
  let readd r :=
    match r with
    | (w, s, Some e) => (w, setSync s (UpdateMetrics (msSync s) pending), Some e)
    | (w, s, None) => (w, s, None)
    end in
  if fullSync then readd (metricUpdateAll w s false None)
  else if bool_decide (pending = []) then (w, s, None)
  else readd (metricUpdateListUUID w s pending).

Definition metricRemoveDeletedFromRemote (w : W) (s : msync) (localMetrics : list localMetric) (previousMetrics : gmap string Metric) : W :=
  let newMetrics := MetricsByUUID (ccMetrics (msCache s)) in
  let deleted : gset string := list_to_set
    (mLabelsText <$> base.filter (λ m, newMetrics !! mID m = None) (seRange env previousMetrics).*2) in
  oDrop ops w (lmLabels <$> base.filter (λ m, localKey (seAgentID env) m ∈ deleted) localMetrics).

(** * After the registration *)
Fixpoint deleteIgnored (w : W) (byKey registered : gmap string Metric) (services : list (Labels * MetricAnnotations * bool)) :
    W * (gmap string Metric + callError) :=
  match services with
  | [] => (w, inl registered)
  | (labels, annotations, checkIgnored) :: services =>
      if negb checkIgnored then deleteIgnored w byKey registered services
      else
        match byKey !! MetricKey labels annotations (seAgentID env) with
        | None => deleteIgnored w byKey registered services
        | Some metric =>
            match oDelete ops w (mID metric) with
            | (w, Some e) => if IsNotFound e then deleteIgnored w byKey (delete (mID metric) registered) services else (w, inr e)
            | (w, None) => deleteIgnored w byKey (delete (mID metric) registered) services
            end
        end
  end.

Definition metricDeleteIgnoredServices (w : W) (s : msync) : W * msync * option callError :=
  match deleteIgnored w (MetricLookupFromList (ccMetrics (msCache s))) (MetricsByUUID (ccMetrics (msCache s))) (seServices env) with
  | (w, inr e) => (w, s, Some e)
  | (w, inl registered) => (w, setCached s (seRange env registered).*2, None)
  end.

Definition nameOf (v : Metric) : string := lget (default ∅ (TextToLabels (mLabelsText v))) LabelName.

Definition undeactivableMetric (agents : gmap string string) (v : Metric) : bool :=
  let agentType := default "" (agents !! mAgentID v) in
  if bool_decide (nameOf v = "agent_sent_message") then true
  else if bool_decide (nameOf v = agentStatusName)
       && match getAgentType (AgentType_SNMP env) with None => true | Some snmpTypeID => negb (bool_decide (agentType = snmpTypeID)) end
  then true
  else match getAgentType (AgentType_K8s env) with
       | Some kubernetesTypeID => bool_decide (agentType = kubernetesTypeID) && negb (seIsClusterLeader env)
       | None => false
       end.

Definition localMetricToMap (localMetrics : list localMetric) : gmap string localMetric :=
  foldl (λ m v, <[localKey (seAgentID env) v := v]> m) ∅ localMetrics.

Definition expiration : Z := Int.int64 (seExpirationDays env * 24 * Time.hour).

(** Metrics that are left alone for now: allowed ones that may not have received points yet, old statuses of services. *)
Definition tooEarly (t : Z) (v : Metric) : bool :=
  let labels := default ∅ (TextToLabels (mLabelsText v)) in
  let starting := Time.Sub t (seStartedAt env) <? 5 * Time.minute in
  (seIsMetricAllowed env labels && (starting || (Time.Sub t (mFirstSeenAt v) <? gracePeriod)))
  || (bool_decide (mServiceID v ≠ "") && hasSuffix (lget labels LabelName) "_status" && starting).

Definition deactivatedAt (v : Metric) (t : Z) : Metric :=
  mkMetric (mID v) (mAgentID v) (mLabelsText v) (mServiceID v) (mContainerID v) (mStatusOf v) t (mFirstSeenAt v).

Record deactivation := mkDeactivation {
  dDuplicated : gset string; dRegistered : gmap string Metric; dRetryable : FailureKind → bool; dRetryAt : Z }.

Definition tooMany (f : FailureKind → bool) (k : FailureKind) : bool :=
  match k with FailureTooManyCustomMetrics | FailureTooManyStandardMetrics => true | _ => f k end.

(** The request that deactivates a metric, and what is kept of it. *)
Definition deactivate (fails : list MetricRegistration) (w : W) (d : deactivation) (k : string) (v : Metric) : W * deactivation * option callError :=
  match oSetActive ops w (mID v) false with
  | (w, Some e) =>
      if IsNotFound e then (w, mkDeactivation (dDuplicated d) (delete k (dRegistered d)) (dRetryable d) (dRetryAt d), None) else (w, d, Some e)
  | (w, None) =>
      (w, mkDeactivation (dDuplicated d) (<[k := deactivatedAt v (now w)]> (dRegistered d)) (tooMany (dRetryable d))
            (if bool_decide (fails = []) then dRetryAt d else now w), None)
  end.

Definition deactivateOne (agents : gmap string string) (fails : list MetricRegistration) (local : gmap string localMetric)
    (w : W) (d : deactivation) (k : string) (v : Metric) : W * deactivation * option callError :=
  if tooEarly (now w) v then (w, d, None)
  else if negb (Time.IsZero (mDeactivatedAt v)) then
    (w, if expiration <? Time.Sub (now w) (mDeactivatedAt v)
        then mkDeactivation (dDuplicated d) (delete k (dRegistered d)) (dRetryable d) (dRetryAt d) else d, None)
  else if undeactivableMetric agents v then (w, d, None)
  else
    let key := mLabelsText v in
    match local !! key with
    | Some metric =>
        if bool_decide (key ∈ dDuplicated d) then deactivate fails w d k v
        else
          let d := mkDeactivation ({[ key ]} ∪ dDuplicated d) (dRegistered d) (dRetryable d) (dRetryAt d) in
          if Time.Sub (now w) (lmLastPointReceivedAt metric) <? 70 * Time.minute then (w, d, None) else deactivate fails w d k v
    | None => deactivate fails w d k v
    end.

Fixpoint deactivateAll (agents : gmap string string) (fails : list MetricRegistration) (local : gmap string localMetric)
    (w : W) (d : deactivation) (l : list (string * Metric)) : W * deactivation * option callError :=
  match l with
  | [] => (w, d, None)
  | (k, v) :: l =>
      match deactivateOne agents fails local w d k v with
      | (w, d, Some e) => (w, d, Some e)
      | (w, d, None) => deactivateAll agents fails local w d l
      end
  end.

Definition metricDeactivate (w : W) (s : msync) (localMetrics : list localMetric) : W * msync * option callError :=
  let c := msCache s in
  let registered := MetricsByUUID (ccMetrics c) in
  match deactivateAll (ccAgents c) (ccFails c) (localMetricToMap localMetrics) w
          (mkDeactivation ∅ registered (msRetryable s) (msRetryAt s)) (seRange env registered) with
  | (w, d, Some e) => (w, setRetry s (dRetryable d) (dRetryAt d), Some e)
  | (w, d, None) => (w, setCached (setRetry s (dRetryable d) (dRetryAt d)) (seRange env (dRegistered d)).*2, None)
  end.

(** * The synchronization *)
(** [newMetricRegisterer(s, apiClient).registerMetrics]. *)
Definition registration (w : W) (s : msync) (metrics : list localMetric) : W * msync * option regError :=
  let c := msCache s in
  let '(w, mr, retryAt, err) := registerMetrics (registerEnvOf s) (oRegister ops) (oSetActive ops) (oListBy ops) now (oCancelled ops)
    (seRange env) (seRangeFails env) w (newMetricRegisterer (ccMetrics c) (ccFails c) (msRetryable s)) metrics in
  let s := setRetry (setFails (setCached s (cacheMetrics mr)) (cacheFails mr)) (retryable mr) retryAt in
  (w, if doneAtLeastOne mr then setActivation s (now w) else s, err).

(** The result: whether the thresholds are to be updated, and the error. *)
Notation outcome := (W * msync * bool * option syncErr)%type.

(** From the second reading of the store on. *)
Definition syncRegistered (w : W) (s : msync) (updateThresholds : bool) : option outcome :=
  match oMetrics ops w with
  | None => Some (w, s, updateThresholds, Some errStore)
  | Some localMetrics =>
      let '(report, filtered) := filterMetrics (AgentType_Agent env) (seAgentID env) (msCache s) (msReport s) localMetrics in
      let filtered := prioritizeAndFilterMetrics (seSort env) filtered (seOnlyEssential env) in
      match registration w (setReport s report) filtered with
      | (w, s, Some e) => Some (w, s, updateThresholds, Some (errSync e))
      | (w, s, None) =>
          if seOnlyEssential env then Some (w, s, updateThresholds, None)
          else
            let '(unregistered, keys) := findUnregisteredMetricsWithKeys (seAgentID env) (msCache s) filtered in
            match publishMetricsState (seAgentID env) (msCache s) (msReport s) unregistered keys with
            | None => None
            | Some report =>
                match metricDeleteIgnoredServices w (setReport s report) with
                | (w, s, Some e) => Some (w, s, updateThresholds, Some (errSync (errCall e)))
                | (w, s, None) =>
                    match metricDeactivate w s filtered with
                    | (w, s, Some e) => Some (w, s, updateThresholds, Some (errSync (errCall e)))
                    | (w, s, None) => Some (w, setLastCount s (Z.of_nat (length localMetrics)), updateThresholds, None)
                    end
                end
            end
      end
  end.

(** [force]: whether the type of the synchronization is SyncTypeForceCacheRefresh.  [None]: a panic. *)
Definition syncMetrics (w : W) (s : msync) (force : bool) : option outcome :=
  match oMetrics ops w with
  | None => Some (w, s, false, Some errStore)
  | Some localMetrics =>
      let force := force || (msSuccessiveErrors s =? 3) in
      let previousMetrics := MetricsByUUID (ccMetrics (msCache s)) in
      let activeMetricsCount := Z.of_nat (size (base.filter (λ kv : string * Metric, Time.IsZero (mDeactivatedAt kv.2) = true) previousMetrics)) in
      let s := if force then setRetry s (λ _, true) (msRetryAt s) else s in
      let '(s, pending) := popPendingMetricsUpdate s in
      let force := force || (activeMetricsCount * 3 ÷ 100 <? Z.of_nat (length pending)) in
      let '(report, filtered) := filterMetrics (AgentType_Agent env) (seAgentID env) (msCache s) (msReport s) localMetrics in
      let s := setReport s report in
      let unregistered := findUnregisteredMetrics (seAgentID env) (msCache s) filtered in
      let force := force || (3 * Z.of_nat (size previousMetrics) ÷ 100 <? Z.of_nat (length unregistered)) in
      match metricUpdatePendingOrSync w s force pending with
      | (w, s, Some e) => Some (w, s, false, Some (errSync (errCall e)))
      | (w, s, None) =>
          let unregistered := findUnregisteredMetrics (seAgentID env) (msCache s) filtered in
          match metricUpdateInactiveList w s unregistered force with
          | (w, s, Some e) => Some (w, s, false, Some (errSync (errCall e)))
          | (w, s, None) =>
              let updateThresholds := force || negb (bool_decide (unregistered = [])) || negb (bool_decide (pending = [])) in
              syncRegistered (metricRemoveDeletedFromRemote w s filtered previousMetrics) s updateThresholds
          end
      end
  end.
End Sync.

(** * Deactivation *)
Section Deactivate.
Context {W : Type}.
Variable ops : metricOps W.
Variable env : syncEnv.
Variable agents : gmap string string.
Variable fails : list MetricRegistration.
Variable localMetrics : list localMetric.
Variable registered : gmap string Metric.
Variable t0 : Z.

#[local] Notation now := (oNow ops).
#[local] Notation local := (localMetricToMap env localMetrics).

(** The API has no other error than that of a metric that does not exist. *)
Hypothesis answers : ∀ w id, match (oSetActive ops w id false).2 with Some e => IsNotFound e = true | None => True end.

Definition recent (t : Z) (m : localMetric) : bool := Time.Sub t (lmLastPointReceivedAt m) <? 70 * Time.minute.
Definition expired (t : Z) (v : Metric) : bool := expiration env <? Time.Sub t (mDeactivatedAt v).

(** No delay ends during the run: the decisions are those of its start. *)
Hypothesis steady_early : ∀ w k v, registered !! k = Some v → tooEarly env (now w) v = tooEarly env t0 v.
Hypothesis steady_expired : ∀ w k v, registered !! k = Some v → expired (now w) v = expired t0 v.
Hypothesis steady_recent : ∀ w key m, local !! key = Some m → recent (now w) m = recent t0 m.

(** A metric that is deactivated unless it has recent points. *)
Definition candidate (v : Metric) : bool :=
  negb (tooEarly env t0 v) && Time.IsZero (mDeactivatedAt v) && negb (undeactivableMetric env agents v).

(** A metric that is forgotten: it was deactivated long ago. *)
Definition forgotten (v : Metric) : bool :=
  negb (tooEarly env t0 v) && negb (Time.IsZero (mDeactivatedAt v)) && expired t0 v.

Definition hasRecent (key : string) : bool := match local !! key with Some m => recent t0 m | None => false end.

(** What is left of a metric that is deactivated: nothing if the API does not know it. *)
Definition inactive (result : gmap string Metric) (k : string) (v : Metric) : Prop :=
  result !! k = None ∨ ∃ w, result !! k = Some (deactivatedAt v (now w)).

Definition isCandidate (l : list (string * Metric)) (key k : string) (v : Metric) : Prop :=
  (k, v) ∈ l ∧ candidate v = true ∧ mLabelsText v = key.

(** What becomes of the metric at each step. *)
Lemma deactivate_one (w : W) (d : deactivation) (k : string) (v : Metric) :
  ∃ w' d', deactivate ops fails w d k v = (w', d', None) ∧ dDuplicated d' = dDuplicated d ∧
    inactive (dRegistered d') k v ∧ ∀ k', k' ≠ k → dRegistered d' !! k' = dRegistered d !! k'.
Proof.
  unfold deactivate, inactive. pose proof (answers w (mID v)) as Ha. destruct (oSetActive ops w (mID v) false) as [w' [e|]]; cbn [snd] in Ha.
  - rewrite Ha. do 2 eexists. split; [done|]. split; [done|]. cbn. split; [left; apply lookup_delete_eq|]. intros k' ?. by rewrite lookup_delete_ne.
  - do 2 eexists. split; [done|]. split; [done|]. cbn. split; [right; eexists; apply lookup_insert_eq|]. intros k' ?. by rewrite lookup_insert_ne.
Qed.

Lemma step_spec (w : W) (d : deactivation) (k : string) (v : Metric) :
  registered !! k = Some v → dRegistered d !! k = Some v →
  ∃ w' d', deactivateOne ops env agents fails local w d k v = (w', d', None) ∧
    (∀ k', k' ≠ k → dRegistered d' !! k' = dRegistered d !! k') ∧
    if candidate v then
      dDuplicated d' = (if bool_decide (is_Some (local !! mLabelsText v)) then {[ mLabelsText v ]} ∪ dDuplicated d else dDuplicated d) ∧
      if hasRecent (mLabelsText v) && bool_decide (mLabelsText v ∉ dDuplicated d) then dRegistered d' !! k = Some v
      else inactive (dRegistered d') k v
    else dDuplicated d' = dDuplicated d ∧ dRegistered d' !! k = if forgotten v then None else Some v.
Proof.
  intros Hk Hd. unfold deactivateOne, candidate, forgotten. rewrite (steady_early w k v Hk).
  destruct (tooEarly env t0 v); cbn [negb andb]; [by do 2 eexists|].
  destruct (Time.IsZero (mDeactivatedAt v)) eqn:Hz; cbn [negb andb].
  - destruct (undeactivableMetric env agents v); cbn [negb]; [by do 2 eexists|]. unfold hasRecent.
    destruct (local !! mLabelsText v) as [m|] eqn:Hm.
    + rewrite (bool_decide_true (is_Some (Some m))) by by eexists. destruct (decide (mLabelsText v ∈ dDuplicated d)) as [Hin|Hin].
      * rewrite (bool_decide_true (_ ∈ _)), (bool_decide_false (_ ∉ _)), andb_false_r by tauto.
        destruct (deactivate_one w d k v) as (w' & d' & -> & Hdup & Hi & Ho). exists w', d'. split; [done|]. split; [done|]. split; [|done].
        rewrite Hdup. set_solver.
      * rewrite (bool_decide_false (_ ∈ _)), (bool_decide_true (_ ∉ _)), andb_true_r by done.
        fold (recent (now w) m). rewrite (steady_recent w _ m Hm). destruct (recent t0 m); [by do 2 eexists|].
        match goal with |- context [deactivate ops fails w ?d1 k v] => destruct (deactivate_one w d1 k v) as (w' & d' & -> & Hdup & Hi & Ho) end.
        by exists w', d'.
    + rewrite (bool_decide_false (is_Some None)) by (by intros [? ?]). cbn [andb].
      destruct (deactivate_one w d k v) as (w' & d' & -> & Hdup & Hi & Ho). by exists w', d'.
  - fold (expired (now w) v). rewrite (steady_expired w k v Hk). destruct (expired t0 v); do 2 eexists; (split; [done|]); cbn; [|done].
    split; [intros k' ?; by rewrite lookup_delete_ne|]. split; [done|apply lookup_delete_eq].
Qed.

(** What the loop leaves of each metric of the list. *)
Record remains (l : list (string * Metric)) (d d' : deactivation) : Prop := {
  left_others : ∀ k, k ∉ l.*1 → dRegistered d' !! k = dRegistered d !! k;
  left_not_candidate : ∀ k v, (k, v) ∈ l → candidate v = false → dRegistered d' !! k = if forgotten v then None else Some v;
  left_without_points : ∀ k v, (k, v) ∈ l → candidate v = true → hasRecent (mLabelsText v) = false → inactive (dRegistered d') k v;
  left_seen : ∀ key k v, hasRecent key = true → key ∈ dDuplicated d → isCandidate l key k v → inactive (dRegistered d') k v;
  left_first : ∀ key, hasRecent key = true → key ∉ dDuplicated d → (∃ k v, isCandidate l key k v) →
    ∃ k0 v0, isCandidate l key k0 v0 ∧ dRegistered d' !! k0 = Some v0 ∧
      ∀ k v, isCandidate l key k v → k ≠ k0 → inactive (dRegistered d') k v
}.

Lemma inactive_same (r r' : gmap string Metric) (k : string) (v : Metric) : r' !! k = r !! k → inactive r k v → inactive r' k v.
Proof. unfold inactive. by intros ->. Qed.

Lemma loop_left (l : list (string * Metric)) (w : W) (d : deactivation) :
  NoDup l.*1 → (∀ k v, (k, v) ∈ l → registered !! k = Some v ∧ dRegistered d !! k = Some v) →
  ∃ w' d', deactivateAll ops env agents fails local w d l = (w', d', None) ∧ remains l d d'.
Proof.
  revert w d. induction l as [|[k v] l IH]; intros w d Hnd Hl.
  { exists w, d. split; [done|]. split; [done|by intros ? ? ?%not_elem_of_nil..|by intros ? ? ? ? ? [?%not_elem_of_nil _]|].
    by intros ? ? ? (? & ? & ?%not_elem_of_nil & _). }
  cbn [deactivateAll]. apply NoDup_cons in Hnd as [Hk Hnd]. destruct (Hl k v) as [Hreg Hd]; [by left|].
  destruct (step_spec w d k v Hreg Hd) as (w1 & d1 & -> & Hother & Hstep).
  destruct (IH w1 d1 Hnd) as (w2 & d2 & -> & H).
  { intros k' v' Hin. destruct (Hl k' v') as [? ?]; [by right|]. split; [done|]. rewrite Hother; [done|].
    intros ->. apply Hk. cbn. apply list_elem_of_fmap. by exists (k, v'). }
  exists w2, d2. split; [done|]. assert (dRegistered d2 !! k = dRegistered d1 !! k) as Hsame by by apply (left_others _ _ _ H).
  assert (∀ key k' v', isCandidate ((k, v) :: l) key k' v' → (k' = k ∧ v' = v) ∨ isCandidate l key k' v') as Hcases.
  { intros key k' v' ([[= -> ->]|Hin]%elem_of_cons & ? & ?); [by left|by right]. }
  split.
  - intros k' [? ?]%not_elem_of_cons. rewrite (left_others _ _ _ H) by done. by apply Hother.
  - intros k' v' [[= -> ->]|Hin]%elem_of_cons Hc; [|by apply (left_not_candidate _ _ _ H)]. rewrite Hc in Hstep. destruct Hstep as [_ Hs]. by rewrite Hsame.
  - intros k' v' [[= -> ->]|Hin]%elem_of_cons Hc Hn; [|by apply (left_without_points _ _ _ H)]. rewrite Hc, Hn in Hstep. destruct Hstep as [_ Hs].
    by apply (inactive_same (dRegistered d1)).
  - intros key k' v' Hr Hin Hcand. destruct (Hcases _ _ _ Hcand) as [[-> ->]|Hc'].
    + destruct Hcand as (_ & Hc & Heq). rewrite Hc, Heq, Hr, (bool_decide_false (key ∉ _)) in Hstep by tauto. apply (inactive_same (dRegistered d1)); [done|apply Hstep].
    + apply (left_seen _ _ _ H key); [done| |done]. destruct (candidate v), Hstep as [Hdup _]; rewrite Hdup; [case_bool_decide|]; set_solver.
  - intros key Hr Hnot Hex. destruct (decide (candidate v = true ∧ mLabelsText v = key)) as [[Hc Heq]|Hn].
    + rewrite Hc, Heq, Hr, (bool_decide_true (key ∉ _)) in Hstep by done. destruct Hstep as [Hdup Hkeep].
      exists k, v. split; [by split; [left|]|]. split; [by rewrite Hsame|]. intros k' v' Hcand Hne.
      destruct (Hcases _ _ _ Hcand) as [[-> _]|Hc']; [done|]. apply (left_seen _ _ _ H key); [done| |done].
      rewrite Hdup, bool_decide_true; [set_solver|]. unfold hasRecent in Hr. by destruct (local !! key); [eexists|].
    + destruct (left_first _ _ _ H key) as (k0 & v0 & Hc0 & Hs0 & Hothers); [done| | |].
      { destruct (candidate v) eqn:Hc, Hstep as [Hdup _]; rewrite Hdup; [case_bool_decide|]; [set_solver|done|done]. }
      { destruct Hex as (k' & v' & Hcand). destruct (Hcases _ _ _ Hcand) as [[-> ->]|?]; [|by do 2 eexists]. destruct Hn. by destruct Hcand as (_ & ? & ?). }
      exists k0, v0. split; [destruct Hc0 as (? & ? & ?); by split; [right|]|]. split; [done|].
      intros k' v' Hcand Hne. destruct (Hcases _ _ _ Hcand) as [[-> ->]|?]; [|by apply Hothers]. destruct Hn. by destruct Hcand as (_ & ? & ?).
Qed.
End Deactivate.

(** * The metrics by their identifiers *)
Definition keyed (ms : gmap string Metric) : Prop := ∀ k v, ms !! k = Some v → mID v = k.

Lemma MetricsByUUID_keyed (l : list Metric) : keyed (MetricsByUUID l).
Proof.
  unfold MetricsByUUID. assert (∀ (ms : gmap string Metric), keyed ms → keyed (foldl (λ byUUID v, <[mID v := v]> byUUID) ms l)) as H;
    [|apply H; by intros k v ?%lookup_empty_Some].
  induction l as [|v l IH]; intros ms Hms; [done|]. cbn [foldl]. apply IH. intros k v' H. destruct (decide (mID v = k)) as [<-|].
  - rewrite lookup_insert_eq in H. by injection H as <-.
  - rewrite lookup_insert_ne in H by done. by apply Hms.
Qed.

(** Going through the list of the values does not lose anything. *)
Lemma MetricsByUUID_range (range : gmap string Metric → list (string * Metric)) (ms : gmap string Metric) :
  (∀ m, range m ≡ₚ map_to_list m) → keyed ms → MetricsByUUID (range ms).*2 = ms.
Proof.
  intros Hrange Hk. unfold MetricsByUUID.
  assert (∀ (l : list (string * Metric)) (acc : gmap string Metric), NoDup l.*1 → Forall (λ kv, mID kv.2 = kv.1) l →
    foldl (λ byUUID v, <[mID v := v]> byUUID) acc l.*2 = list_to_map l ∪ acc) as H.
  { induction l as [|[k v] l IH]; intros acc Hnd Hl; cbn; [by rewrite (left_id_L ∅ (∪))|]. apply NoDup_cons in Hnd as [Hnot Hnd].
    apply Forall_cons in Hl as [Hv Hl]. cbn in Hv. rewrite Hv, IH by done. rewrite <- insert_union_r; [by rewrite insert_union_l|].
    by apply (not_elem_of_list_to_map_1 (M := gmap string)). }
  rewrite H.
  - rewrite (right_id_L ∅ (∪)), (list_to_map_proper _ (map_to_list ms)); [apply list_to_map_to_list|rewrite Hrange; apply NoDup_fst_map_to_list|apply Hrange].
  - rewrite Hrange. apply NoDup_fst_map_to_list.
  - apply Forall_forall. intros [k v]. rewrite Hrange, elem_of_map_to_list. apply Hk.
Qed.

Section DeactivateRun.
Context {W : Type}.
Variable ops : metricOps W.
Variable env : syncEnv.
Hypothesis range_perm : ∀ m, seRange env m ≡ₚ map_to_list m.
Hypothesis answers : ∀ w id, match (oSetActive ops w id false).2 with Some e => IsNotFound e = true | None => True end.

(** C30. What the deactivation leaves: when the API answers and no delay ends during the run, it goes to the end and, of the
    registered metrics, (1) those that are protected, recent or not yet old enough are left alone, and those deactivated
    for longer than the expiration are forgotten; (2) the others are deactivated if no local metric with their labels
    received a point in the last seventy minutes; (3) of those with the same labels as such a local metric exactly one
    stays active; (4) no metric appears.  The order of the maps does not matter. *)
Theorem deactivate_decisions (w : W) (s : msync) (localMetrics : list localMetric) (t0 : Z) :
  let before := MetricsByUUID (ccMetrics (msCache s)) in
  let agents := ccAgents (msCache s) in
  (∀ w k v, before !! k = Some v → tooEarly env (oNow ops w) v = tooEarly env t0 v) →
  (∀ w k v, before !! k = Some v → expired env (oNow ops w) v = expired env t0 v) →
  (∀ w key m, localMetricToMap env localMetrics !! key = Some m → recent (oNow ops w) m = recent t0 m) →
  let '(_, s', err) := metricDeactivate ops env w s localMetrics in
  let after := MetricsByUUID (ccMetrics (msCache s')) in
  err = None ∧
  (∀ k v, before !! k = Some v → candidate env agents t0 v = false → after !! k = if forgotten env t0 v then None else Some v) ∧
  (∀ k v, before !! k = Some v → candidate env agents t0 v = true → hasRecent env localMetrics t0 (mLabelsText v) = false → inactive ops after k v) ∧
  (∀ k v, before !! k = Some v → candidate env agents t0 v = true → hasRecent env localMetrics t0 (mLabelsText v) = true →
     ∃ k0 v0, before !! k0 = Some v0 ∧ candidate env agents t0 v0 = true ∧ mLabelsText v0 = mLabelsText v ∧ after !! k0 = Some v0 ∧
       ∀ k1 v1, before !! k1 = Some v1 → candidate env agents t0 v1 = true → mLabelsText v1 = mLabelsText v → k1 ≠ k0 → inactive ops after k1 v1) ∧
  (∀ k, before !! k = None → after !! k = None).
Proof.
  intros before agents He Hx Hr. unfold metricDeactivate. fold before agents.
  assert (∀ k v, (k, v) ∈ seRange env before ↔ before !! k = Some v) as Hin by (intros; by rewrite range_perm, elem_of_map_to_list).
  destruct (loop_left ops env agents (ccFails (msCache s)) localMetrics before t0 answers He Hx Hr (seRange env before) w
    (mkDeactivation ∅ before (msRetryable s) (msRetryAt s))) as (w' & d' & -> & H).
  { rewrite range_perm. apply NoDup_fst_map_to_list. }
  { intros k v ?%Hin. done. }
  destruct H as [Hothers Hnot Hwithout _ Hfirst]. cbn [msCache setCached ccMetrics]. split; [done|].
  assert (∀ k, before !! k = None → dRegistered d' !! k = None) as Hnone.
  { intros k Hk. rewrite Hothers; [done|]. intros ([k' v] & -> & Hin')%list_elem_of_fmap. apply Hin in Hin'. cbn in Hk. congruence. }
  assert (∀ key, hasRecent env localMetrics t0 key = true → (∃ k v, isCandidate env agents t0 (seRange env before) key k v) →
    ∃ k0 v0, isCandidate env agents t0 (seRange env before) key k0 v0 ∧ dRegistered d' !! k0 = Some v0 ∧
      ∀ k v, isCandidate env agents t0 (seRange env before) key k v → k ≠ k0 → inactive ops (dRegistered d') k v) as Hone.
  { intros key Hrec Hex. apply Hfirst; [done|set_solver|done]. }
  rewrite MetricsByUUID_range; [|done|].
  - split; [intros k v Hk; apply Hnot; by apply Hin|]. split; [intros k v Hk; apply Hwithout; by apply Hin|]. split; [|done].
    intros k v Hk Hc Hrec. destruct (Hone (mLabelsText v) Hrec) as (k0 & v0 & (Hin0 & Hc0 & Heq) & Hs0 & Hrest).
    { exists k, v. by split; [apply Hin|]. }
    exists k0, v0. split; [by apply Hin|]. split; [done|]. split; [done|]. split; [done|]. intros k1 v1 Hk1 Hc1 Heq1 Hne.
    apply Hrest; [|done]. by split; [apply Hin|].
  - intros k v' Hv'. destruct (before !! k) as [v|] eqn:Hk; [|by rewrite Hnone in Hv'].
    assert (mID v = k) as <- by by apply (MetricsByUUID_keyed (ccMetrics (msCache s))).
    assert (inactive ops (dRegistered d') (mID v) v → mID v' = mID v) as Hi.
    { intros [Hi|[w1 Hi]]; rewrite Hi in Hv'; [done|]. by injection Hv' as <-. }
    apply Hin in Hk as Hk'. destruct (candidate env agents t0 v) eqn:Hc.
    + destruct (hasRecent env localMetrics t0 (mLabelsText v)) eqn:Hrec; [|by apply Hi, Hwithout].
      destruct (Hone (mLabelsText v) Hrec) as (k0 & v0 & (Hin0 & _ & _) & Hs0 & Hrest); [by exists (mID v), v|].
      destruct (decide (mID v = k0)) as [Heq|]; [|by apply Hi, Hrest]. apply Hin in Hin0. rewrite <- Heq in Hin0, Hs0. congruence.
    + rewrite (Hnot _ _ Hk' Hc) in Hv'. destruct (forgotten env t0 v); [done|]. by injection Hv' as <-.
Qed.
End DeactivateRun.

(** * What the synchronization leaves of the world *)
(** A fact about the world that no operation takes back. *)
Record lasting {W : Type} (ops : metricOps W) (P : W → Prop) : Prop := mkLasting {
  lasting_register : ∀ w p, P w → P (oRegister ops w p).1;
  lasting_setActive : ∀ w id b, P w → P (oSetActive ops w id b).1;
  lasting_listBy : ∀ w params, P w → P (oListBy ops w params).1;
  lasting_iterate : ∀ w active, P w → (∀ w' metric, (w', metric) ∈ (oIterate ops w active).1 → P w') ∧ P (oIterate ops w active).2.1;
  lasting_count : ∀ w, P w → P (oCount ops w).1;
  lasting_get : ∀ w id, P w → P (oGet ops w id).1;
  lasting_delete : ∀ w id, P w → P (oDelete ops w id).1;
  lasting_drop : ∀ w labels, P w → P (oDrop ops w labels)
}.

Section World.
Context {W : Type}.
Variable ops : metricOps W.
Variable env : syncEnv.
Variable P : W → Prop.
Hypothesis P_lasts : lasting ops P.

Lemma collect_world (items : list (W * MetricPayload)) (find : option (gset string)) (metrics : list MetricPayload) (last : W * option callError) :
  (∀ w metric, (w, metric) ∈ items → P w) → P last.1 → P (collect find metrics items last).1.
Proof.
  revert find metrics. induction items as [|[w metric] items IH]; intros find metrics Hi Hl; [done|]. cbn [collect].
  assert (∀ w metric, (w, metric) ∈ items → P w) as Hi' by (intros w' metric' ?; eapply Hi; by right).
  destruct find as [toFind|]; [|by apply IH]. case_bool_decide; [|by apply IH]. eapply Hi. by left.
Qed.

Lemma listMetrics_world (w : W) (active : bool) (find : option (gset string)) : P w → P (listMetrics ops w active find).1.
Proof.
  intros [Hi Hl]%(lasting_iterate ops P P_lasts w active). unfold listMetrics. destruct (oIterate ops w active) as [items last]. by apply collect_world.
Qed.

Lemma metricUpdateAll_world (w : W) (s : msync) (fetchInactive : bool) (find : option (gset string)) :
  P w → P (metricUpdateAll ops env w s fetchInactive find).1.1.
Proof.
  intros H. unfold metricUpdateAll, metricsListWithAgentID.
  assert (P (if fetchInactive then listMetrics ops w false find else listMetrics ops w true None).1) as Hl
    by (destruct fetchInactive; by apply listMetrics_world).
  by destruct (if fetchInactive then _ else _) as [w' [result|e]].
Qed.

Lemma metricUpdateInactiveList_world (w : W) (s : msync) (metrics : list localMetric) (allowList : bool) :
  P w → P (metricUpdateInactiveList ops env w s metrics allowList).1.1.
Proof.
  assert (∀ w, P w → P (updateListIn ops env w s metrics).1.1) as Hin.
  { intros w' H. unfold updateListIn. destruct metrics as [|m l]; [done|].
    match goal with |- context [updateList ?e ?o w' ?ms ?l'] => pose proof (updateList_world e o P (lasting_listBy ops P P_lasts) l' w' ms H) as Hu;
      by destruct (updateList e o w' ms l') as [w2 [ms2|e2]] end. }
  intros H. unfold metricUpdateInactiveList. destruct (_ || _); [by apply Hin|].
  apply (lasting_count ops P P_lasts) in H. destruct (oCount ops w) as [w' [count|e]]; [|done].
  destruct (_ <=? _); [by apply Hin|by apply metricUpdateAll_world].
Qed.

Lemma updateUUIDs_world (requests : list string) (w : W) (metrics : gmap string Metric) : P w → P (updateUUIDs ops w metrics requests).1.
Proof.
  revert w metrics. induction requests as [|key requests IH]; intros w metrics H; [done|]. cbn [updateUUIDs].
  apply (lasting_get ops P P_lasts w key) in H. destruct (oGet ops w key) as [w' [metric|e]]; [by apply IH|].
  destruct (IsNotFound e); [by apply IH|done].
Qed.

Lemma metricDeleteIgnoredServices_world (w : W) (s : msync) : P w → P (metricDeleteIgnoredServices ops env w s).1.1.
Proof.
  assert (∀ services w byKey registered, P w → P (deleteIgnored ops env w byKey registered services).1) as Hd.
  { induction services as [|[[labels annotations] checkIgnored] services IH]; intros w' byKey registered H; [done|]. cbn [deleteIgnored].
    destruct (negb checkIgnored); [by apply IH|]. destruct (byKey !! _) as [metric|]; [|by apply IH].
    apply (lasting_delete ops P P_lasts w' (mID metric)) in H. destruct (oDelete ops w' (mID metric)) as [w2 [e|]]; [|by apply IH].
    destruct (IsNotFound e); [by apply IH|done]. }
  intros H. unfold metricDeleteIgnoredServices.
  match goal with |- context [deleteIgnored ops env w ?a ?b ?l] => pose proof (Hd l w a b H) as Hw; by destruct (deleteIgnored ops env w a b l) as [w' [r|e]] end.
Qed.

Lemma deactivateOne_world (agents : gmap string string) (fails : list MetricRegistration) (local : gmap string localMetric)
    (w : W) (d : deactivation) (k : string) (v : Metric) : P w → P (deactivateOne ops env agents fails local w d k v).1.1.
Proof.
  assert (∀ d, P w → P (deactivate ops fails w d k v).1.1) as Hd.
  { intros d' H. unfold deactivate. apply (lasting_setActive ops P P_lasts w (mID v) false) in H.
    destruct (oSetActive ops w (mID v) false) as [w' [e|]]; [by destruct (IsNotFound e)|done]. }
  intros H. unfold deactivateOne. by repeat (case_match; auto).
Qed.

Lemma metricDeactivate_world (w : W) (s : msync) (localMetrics : list localMetric) : P w → P (metricDeactivate ops env w s localMetrics).1.1.
Proof.
  assert (∀ agents fails local l w d, P w → P (deactivateAll ops env agents fails local w d l).1.1) as Hd.
  { intros agents fails local. induction l as [|[k v] l IH]; intros w' d H; [done|]. cbn [deactivateAll].
    apply (deactivateOne_world agents fails local w' d k v) in H.
    destruct (deactivateOne ops env agents fails local w' d k v) as [[w2 d2] [e|]]; [done|by apply IH]. }
  intros H. unfold metricDeactivate.
  match goal with |- context [deactivateAll ops env ?a ?f ?lo w ?d ?l] => pose proof (Hd a f lo l w d H) as Hw;
    by destruct (deactivateAll ops env a f lo w d l) as [[w' d'] [e|]] end.
Qed.

Lemma registration_world (w : W) (s : msync) (metrics : list localMetric) : P w → P (registration ops env w s metrics).1.1.
Proof.
  intros H. unfold registration, registerMetrics.
  match goal with |- context [do ?e ?r ?a ?l ?n ?c ?rg ?rf w ?mr metrics] =>
    pose proof (do_world e r a l n c rg rf P (lasting_register ops P P_lasts) (lasting_setActive ops P P_lasts)
      (lasting_listBy ops P P_lasts) w mr metrics H) as Hd; by destruct (do e r a l n c rg rf w mr metrics) as [[w' mr'] err] end.
Qed.

(** The rest of the synchronization does not panic either. *)
Lemma syncRegistered_world (w : W) (s : msync) (updateThresholds : bool) :
  ∃ w' s' b err, syncRegistered ops env w s updateThresholds = Some (w', s', b, err) ∧ (P w → P w').
Proof.
  unfold syncRegistered. destruct (oMetrics ops w); [|by do 4 eexists]. destruct (filterMetrics _ _ _ _ _) as [report filtered].
  match goal with |- context [registration ops env w ?s ?l] => pose proof (registration_world w s l) as Hr;
    destruct (registration ops env w s l) as [[w1 s1] [e|]]; cbn [fst] in Hr end; [by do 4 eexists|].
  destruct (seOnlyEssential env); [by do 4 eexists|].
  match goal with |- context [findUnregisteredMetricsWithKeys ?a ?c ?l] => destruct (publish_total a c (msReport s1) l) as [report' Hp];
    destruct (findUnregisteredMetricsWithKeys a c l) as [unregistered keys] end. cbn [fst snd] in Hp. rewrite Hp.
  match goal with |- context [metricDeleteIgnoredServices ops env w1 ?s] => pose proof (metricDeleteIgnoredServices_world w1 s) as Hd;
    destruct (metricDeleteIgnoredServices ops env w1 s) as [[w2 s2] [e|]]; cbn [fst] in Hd end; [do 4 eexists; by eauto|].
  match goal with |- context [metricDeactivate ops env w2 s2 ?l] => pose proof (metricDeactivate_world w2 s2 l) as Ha;
    destruct (metricDeactivate ops env w2 s2 l) as [[w3 s3] [e|]]; cbn [fst] in Ha end; do 4 eexists; by eauto.
Qed.
End World.

(** * The pending updates *)
Section Pending.
Context {W : Type}.
Variable ops : metricOps W.
Variable env : syncEnv.
Hypothesis rangeSet_perm : ∀ x : gset string, seRangeSet env x ≡ₚ elements x.

(** What is known of the API so far: it said of a metric what it is or that it does not exist, or gave all the active
    metrics, and what it said is not taken back. *)
Variable told : W → string → Prop.
Hypothesis told_get : ∀ w id, match (oGet ops w id).2 with inl _ => True | inr e => IsNotFound e = true end → told (oGet ops w id).1 id.
Hypothesis told_all : ∀ w id, (oIterate ops w true).2.2 = None → told (oIterate ops w true).2.1 id.
Hypothesis told_lasts : ∀ id, lasting ops (λ w, told w id).

#[local] Notation pending s := (syPendingMetricsUpdate (msSync s)).

Lemma updateUUIDs_told (requests : list string) (w : W) (metrics : gmap string Metric) :
  let '(w', r) := updateUUIDs ops w metrics requests in match r with inl _ => ∀ id, id ∈ requests → told w' id | inr _ => True end.
Proof.
  revert w metrics. induction requests as [|key requests IH]; intros w metrics; cbn [updateUUIDs]; [by intros id ?%not_elem_of_nil|].
  pose proof (told_get w key) as Hkey. destruct (oGet ops w key) as [w' [metric|e]]; cbn [fst snd] in Hkey; [|destruct (IsNotFound e); [|done]];
    match goal with |- context [updateUUIDs ops w' ?m requests] => specialize (IH w' m);
      pose proof (updateUUIDs_world ops _ (told_lasts key) requests w' m (Hkey ltac:(first [exact I|reflexivity]))) as Hlast;
      destruct (updateUUIDs ops w' m requests) as [w'' [ms|e']] end; try done;
    intros id [->|Hin]%elem_of_cons; [exact Hlast|by apply IH|exact Hlast|by apply IH].
Qed.

Lemma collect_all (items : list (W * MetricPayload)) (metrics : list MetricPayload) (last : W * option callError) :
  let '(w', r) := collect None metrics items last in w' = last.1 ∧ match r with inl _ => last.2 = None | inr _ => True end.
Proof. revert metrics. induction items as [|[w metric] items IH]; intros metrics; [by destruct last as [? [?|]]|]. apply IH. Qed.

Lemma metricUpdateAll_told (w : W) (s : msync) :
  let '(w', _, err) := metricUpdateAll ops env w s false None in err = None → ∀ id, told w' id.
Proof.
  unfold metricUpdateAll, metricsListWithAgentID, listMetrics. pose proof (told_all w) as H. destruct (oIterate ops w true) as [items last].
  pose proof (collect_all items [] last) as Hc. destruct (collect None [] items last) as [w' [result|e]]; [|done].
  destruct Hc as [-> Hlast]. auto.
Qed.

Lemma metricUpdatePendingOrSync_spec (w : W) (s : msync) (fullSync : bool) (ids : list string) :
  let '(w', s', err) := metricUpdatePendingOrSync ops env w s fullSync ids in
  match err with
  | Some _ => ids = [""] ∨ ∀ id, id ∈ ids → id ∈ pending s'
  | None => ∀ id, id ∈ ids → told w' id
  end.
Proof.
  assert (∀ sync, ids = [""] ∨ ∀ id, id ∈ ids → id ∈ syPendingMetricsUpdate (UpdateMetrics sync ids)) as Hre.
  { intros sync. unfold UpdateMetrics. case_bool_decide as Hd; [by left|right]. intros id Hid. cbn. apply elem_of_app. by right. }
  unfold metricUpdatePendingOrSync. destruct fullSync.
  - pose proof (metricUpdateAll_told w s) as H. destruct (metricUpdateAll ops env w s false None) as [[w' s'] [e|]]; [apply Hre|].
    intros id _. by apply H.
  - case_bool_decide as Hd; [subst; by intros id ?%not_elem_of_nil|]. unfold metricUpdateListUUID.
    pose proof (updateUUIDs_told ids w (MetricsByUUID (ccMetrics (msCache s)))) as H.
    destruct (updateUUIDs ops w _ ids) as [w' [metrics|e]]; [exact H|apply Hre].
Qed.

(** C31. No update of a metric that was asked for is lost: after a synchronization, whatever fails in it, the identifier is still
    pending, or during it the API said what the metric is or that it does not exist, or gave all the active metrics.  It does not
    panic.  [told w id] stands for any fact that such an answer establishes and that no later operation takes back, so that it is a fact
    about the state [w'] the synchronization ends in. *)
Theorem pending_updates_kept (w : W) (s : msync) (force : bool) :
  ∃ w' s' b err, syncMetrics ops env w s force = Some (w', s', b, err) ∧
    ∀ id, id ≠ "" → id ∈ pending s → id ∈ pending s' ∨ told w' id.
Proof.
  unfold syncMetrics. destruct (oMetrics ops w) as [localMetrics|]; [|do 4 eexists; split; [done|by auto]].
  cbv zeta. unfold popPendingMetricsUpdate.
  match goal with |- context [setPending (msSync ?x) [] _] => assert (pending x = pending s) as Hs1 by (by destruct (force || _)); set (s1 := x) in * end.
  destruct (filterMetrics _ _ _ _ _) as [report filtered].
  match goal with |- context [metricUpdatePendingOrSync ops env w ?s2 ?f ?ids] => pose proof (metricUpdatePendingOrSync_spec w s2 f ids) as H;
    destruct (metricUpdatePendingOrSync ops env w s2 f ids) as [[w3 s3] [e|]] end.
  - do 4 eexists. split; [done|]. intros id Hne Hid. rewrite <- Hs1 in Hid. left.
    assert (id ∈ seRangeSet env (list_to_set (pending s1))) as Hin by (rewrite rangeSet_perm; set_solver).
    destruct H as [H|H]; [|by apply H]. rewrite H in Hin. by apply list_elem_of_singleton in Hin.
  - assert (∀ id, id ∈ pending s → told w3 id) as Htold by (intros id Hid; apply H; rewrite rangeSet_perm, Hs1; set_solver).
    match goal with |- context [metricUpdateInactiveList ops env w3 s3 ?u ?f] =>
      pose proof (λ id, metricUpdateInactiveList_world ops env _ (told_lasts id) w3 s3 u f) as Hi;
      destruct (metricUpdateInactiveList ops env w3 s3 u f) as [[w4 s4] [e|]]; cbn [fst] in Hi end; [do 4 eexists; by eauto|].
    match goal with |- context [syncRegistered ops env (metricRemoveDeletedFromRemote ops env w4 s4 filtered ?pm) s4 ?b] =>
      assert (∀ id, id ∈ pending s → told (metricRemoveDeletedFromRemote ops env w4 s4 filtered pm) id) as Hw
        by (intros id Hid; apply (lasting_drop ops _ (told_lasts id)); auto);
      set (w5 := metricRemoveDeletedFromRemote ops env w4 s4 filtered pm) in *; set (b5 := b) end.
    pose proof (λ id, syncRegistered_world ops env _ (told_lasts id) w5 s4 b5) as Hr.
    destruct (Hr "") as (w6 & s6 & b6 & err & Hrun & _). exists w6, s6, b6, err. split; [done|].
    intros id _ Hid. right. destruct (Hr id) as (? & ? & ? & ? & Hrun' & Hlast). rewrite Hrun in Hrun'. simplify_eq. auto.
Qed.
End Pending.

(** * A metric of the store that is dropped by mistake *)
Module SyncSample.
Definition labelsOf (name : string) : Labels := {[ LabelName := name; "device" := "sda" ]}.
Definition local (name : string) : localMetric := mkLocalMetric (labelsOf name) zeroAnnotations (λ _ _, None) 0.
Definition payload (name : string) : MetricPayload := mkPayload (mkMetric name "me" (LabelsToText (labelsOf name)) "" "" "" 1 0) name "".
Definition names : list string := ["a"; "b"; "c"; "d"; "e"; "f"; "g"; "h"; "i"; "j"].
(** The state of the world is what was dropped from the store.  The API has eleven inactive metrics and no active one. *)
Definition ops : metricOps (list Labels) := mkOps (λ _, Time.hour) (λ _, None) (λ w p, (w, inl p)) (λ w _ _, (w, None)) (λ w _, (w, inl []))
  (λ w active, (if active then [] else (λ n, (w, payload n)) <$> (names ++ ["old"])%list, (w, None)))
  (λ w, (w, inl 11)) (λ w _, (w, inr (apiError 404 ""))) (λ w _, (w, None))
  (λ w, Some (local <$> (names ++ ["old"])%list)) (λ w labels, (w ++ labels)%list).
Definition env : syncEnv := mkSyncEnv "me" "" [] "agent" "snmp" "k8s" "monitor" false (λ _, true) 0 200 [] false mergeSort
  map_to_list map_to_list elements.
Definition state : msync := mkSync (mkSynchronizer 0 0 0 0 0 0 false false 0 NotDisabled 0 0 ∅ [] [] 0 0 None false "me")
  (mkCache (Some Plan.planConfig) ∅ [] ∅ ∅ ∅ [plMetric (payload "old")] []) Plan.report (λ _, true) 0 0 0 0.
(** A metric registered twice, whose last point is ten minutes old. *)
Definition double (id : string) : Metric := mkMetric id "me" (LabelsToText (labelsOf "cpu")) "" "" "" 0 0.
Definition doubled : msync := setCached state [double "1"; double "2"].
Definition fresh : localMetric := mkLocalMetric (labelsOf "cpu") zeroAnnotations (λ _ _, None) (50 * Time.minute).
End SyncSample.

(** The search of the inactive metrics stops once those it looks for are found; the other inactive metrics of the cache are
    forgotten with the rest of the list, taken for deleted on the API, and their local points dropped. *)
Example inactive_metric_dropped :
  match syncMetrics SyncSample.ops SyncSample.env [] SyncSample.state false with
  | Some (dropped, _, _, None) => dropped = [SyncSample.labelsOf "old"]
  | _ => False
  end.
Proof. vm_compute. reflexivity. Qed.

(** * Witnesses *)
Lemma deactivate_decisions_witness :
  let '(_, s', err) := metricDeactivate SyncSample.ops SyncSample.env [] SyncSample.doubled [SyncSample.fresh] in
  let after := MetricsByUUID (ccMetrics (msCache s')) in
  err = None ∧ ∃ k0 v0, after !! k0 = Some v0 ∧ mLabelsText v0 = mLabelsText (SyncSample.double "1") ∧ Time.IsZero (mDeactivatedAt v0) = true.
Proof.
  pose proof (deactivate_decisions SyncSample.ops SyncSample.env (λ m, reflexivity _) (λ _ _, I) [] SyncSample.doubled [SyncSample.fresh] Time.hour) as H.
  cbv zeta in H. specialize (H (λ _ _ _ _, eq_refl) (λ _ _ _ _, eq_refl) (λ _ _ _ _, eq_refl)).
  destruct (metricDeactivate _ _ _ _ _) as [[w s'] err]. destruct H as (Herr & _ & _ & H & _). split; [exact Herr|].
  destruct (H "1" (SyncSample.double "1")) as (k0 & v0 & Hb & Hc & Heq & Ha & _); [vm_compute; reflexivity..|].
  exists k0, v0. split; [exact Ha|]. split; [exact Heq|]. unfold candidate in Hc. apply andb_prop in Hc as [Hc _]. apply andb_prop in Hc as [_ Hc]. exact Hc.
Defined.

(** The world remembers the identifiers the API answered about, and whether it listed all the metrics. *)
Module Told.
Definition known (w : list Labels * (list string * bool)) (id : string) : Prop := id ∈ w.2.1 ∨ w.2.2 = true.
Definition ops : metricOps (list Labels * (list string * bool)) := mkOps (λ _, Time.hour) (λ _, None) (λ w p, (w, inl p)) (λ w _ _, (w, None)) (λ w _, (w, inl []))
  (λ w active, ([], ((w.1, (w.2.1, w.2.2 || active)), None))) (λ w, (w, inl 11))
  (λ w id, ((w.1, (id :: w.2.1, w.2.2)), inr (apiError 404 ""))) (λ w _, (w, None))
  (λ w, Some (SyncSample.local <$> SyncSample.names)) (λ w labels, ((w.1 ++ labels)%list, w.2)).
End Told.

Lemma known_lasts (id : string) : lasting Told.ops (λ w, Told.known w id).
Proof.
  split; unfold Told.known; cbn; auto.
  - intros w active H. split; [by intros ? ? ?%not_elem_of_nil|]. destruct H as [?| ->]; auto.
  - intros w id' [?|?]; [left; by right|by right].
Qed.

Lemma pending_updates_kept_witness :
  ∃ w' s' b err, syncMetrics Told.ops SyncSample.env ([], ([], false)) (setSync SyncSample.state (UpdateMetrics (msSync SyncSample.state) ["old"])) false
    = Some (w', s', b, err) ∧ ("old" ∈ syPendingMetricsUpdate (msSync s') ∨ Told.known w' "old").
Proof.
  destruct (pending_updates_kept Told.ops SyncSample.env (λ x, reflexivity _) Told.known
    (λ w id _, or_introl (list_elem_of_here id _)) (λ w id _, or_intror (orb_true_r _)) known_lasts ([], ([], false))
    (setSync SyncSample.state (UpdateMetrics (msSync SyncSample.state) ["old"])) false) as (w' & s' & b & err & Hrun & H).
  exists w', s', b, err. split; [exact Hrun|]. apply H; [discriminate|]. vm_compute. left.
Defined.
