(* ===== verification/LinkedSync.v ===== *)
(** The rows of a synchronization execution and the synchronizations linked to
    others (bleemeo/internal/synchronizer/execution.go): when an entity is to be
    synchronized, so are the entities linked to it, directly or through others.
    The search for the indirect ones ends and finds exactly them, and the types
    that result do not depend on the order of the rows nor on Go's iteration
    over maps. *)
From S2P Require Import Prelude SyncState.

(** The part of the interface EntitySynchronizer that does not change. *)
Record EntitySynchronizer := mkEntitySynchronizer {
  enName : EntityName;
  enEnabledInMaintenance : bool;
  enEnabledInSuspendedMode : bool
}.

(** [eeSynchronizer] tells whether the field is set (PrepareExecution returned a
    value that is not nil). *)
Record EntityExecution := mkRow {
  eeEntity : EntitySynchronizer;
  eeSynchronizer : bool;
  eeSyncType : SyncType;
  eeErr : option syncError;
  eeLinkedSyncTargets : list EntityName
}.

Definition rowName (ee : EntityExecution) : EntityName := enName (eeEntity ee).

Definition setSyncType (t : SyncType) (ee : EntityExecution) : EntityExecution :=
  mkRow (eeEntity ee) (eeSynchronizer ee) t (eeErr ee) (eeLinkedSyncTargets ee).

Definition setErr (err : option syncError) (ee : EntityExecution) : EntityExecution :=
  mkRow (eeEntity ee) (eeSynchronizer ee) (eeSyncType ee) err (eeLinkedSyncTargets ee).

Definition setSynchronizer (present : bool) (ee : EntityExecution) : EntityExecution :=
  mkRow (eeEntity ee) present (eeSyncType ee) (eeErr ee) (eeLinkedSyncTargets ee).

Definition setLinked (targets : list EntityName) (ee : EntityExecution) : EntityExecution :=
  mkRow (eeEntity ee) (eeSynchronizer ee) (eeSyncType ee) (eeErr ee) targets.

(** The names of the rows, each with its index; the last one of a name wins. *)
Definition nameToIdx (rows : list EntityExecution) : gmap EntityName nat :=
  foldl (λ m row, <[rowName row.2 := row.1]> m) ∅ (imap pair rows).

(** The links of a target, when it is the name of a row. *)
Definition linkedOf (index : gmap EntityName nat) (rows : list EntityExecution) (target : EntityName) :
    list EntityName :=
  match index !! target ≫= (rows !!.) with
  | Some row => eeLinkedSyncTargets row
  | None => []
  end.

(** One round of recursiveExpand: the targets not seen yet, and their links. *)
Definition expandTarget (links : EntityName → list EntityName) (originalType : EntityName)
    (st : gset EntityName * list EntityName) (target : EntityName) : gset EntityName * list EntityName :=
  let '(targetsEntities, newTargets) := st in
  if bool_decide (target = originalType) then st
  else if bool_decide (target ∈ targetsEntities) then st
  else ({[ target ]} ∪ targetsEntities, newTargets ++ links target).

(** [None] when the fuel runs out. *)
Fixpoint recursiveExpand (fuel : nat) (links : EntityName → list EntityName) (originalType : EntityName)
    (targetsEntities : gset EntityName) (syncTargets : list EntityName) : option (gset EntityName) :=
  match fuel with
  | O => None
  | S fuel =>
      let '(targetsEntities, newTargets) :=
        foldl (expandTarget links originalType) (targetsEntities, []) syncTargets in
      match newTargets with
      | [] => Some targetsEntities
      | _ => recursiveExpand fuel links originalType targetsEntities newTargets
      end
  end.

Section linked.
(** The order in which Go iterates over a set. *)
Context (rangeSet : gset EntityName → list EntityName).

(** Every round but the last finds a target, and there are at most as many as
    there are links. *)
Definition expandFuel (rows : list EntityExecution) : nat := S (length (rows ≫= eeLinkedSyncTargets)).

Definition expandRow (index : gmap EntityName nat) (rows : option (list EntityExecution)) (idx : nat) :
    option (list EntityExecution) :=
  rows ← rows;
  ee ← rows !! idx;
  targets ← recursiveExpand (expandFuel rows) (linkedOf index rows) (rowName ee) ∅ (eeLinkedSyncTargets ee);
  Some (alter (setLinked (rangeSet targets)) idx rows).

Definition expandLinkedTarget (index : gmap EntityName nat) (rows : list EntityExecution) :
    option (list EntityExecution) :=
  foldl (expandRow index) (Some rows) (seq 0 (length rows)).

Definition raiseTarget (index : gmap EntityName nat) (t : SyncType) (rows : list EntityExecution)
    (target : EntityName) : list EntityExecution :=
  match index !! target with
  | None => rows
  | Some idx =>
      alter (λ row,
        if bool_decide (t = SyncTypeForceCacheRefresh) then setSyncType SyncTypeForceCacheRefresh row
        else if bool_decide (eeSyncType row = SyncTypeNone) then setSyncType SyncTypeNormal row
        else row) idx rows
  end.

Definition raiseTargets (index : gmap EntityName nat) (rows : list EntityExecution) (idx : nat) :
    list EntityExecution :=
  match rows !! idx with
  | None => rows
  | Some ee =>
      if bool_decide (eeSyncType ee = SyncTypeNone) then rows
      else foldl (raiseTarget index (eeSyncType ee)) rows (eeLinkedSyncTargets ee)
  end.

Definition checkLinkedSynchronization (rows : list EntityExecution) : option (list EntityExecution) :=
  let index := nameToIdx rows in
  rows ← expandLinkedTarget index rows;
  Some (foldl (raiseTargets index) rows (seq 0 (length rows))).
End linked.

(** ** The search finds what is reachable *)

Section expand.
Context (links : EntityName → list EntityName) (a : EntityName).

Definition linksTo (x y : EntityName) : Prop := y ∈ links x.

Lemma expandTargets_spec (targets : gset EntityName) (new ts : list EntityName) :
  let '(targets', new') := foldl (expandTarget links a) (targets, new) ts in
  (∀ x, x ∈ targets' ↔ x ∈ targets ∨ (x ∈ ts ∧ x ≠ a)) ∧
  (∀ y, y ∈ new' ↔ y ∈ new ∨ ∃ x, x ∈ targets' ∧ x ∉ targets ∧ y ∈ links x).
Proof.
  revert targets new. induction ts as [|t ts IH]; intros targets new; cbn [foldl].
  - split; [set_solver|]. intros y. split; [by left|]. intros [?|(x & ? & ? & _)]; done.
  - unfold expandTarget at 2. case_bool_decide as Ht; [|case_bool_decide as Hin].
    + specialize (IH targets new). destruct (foldl _ _ _) as [targets' new'].
      destruct IH as [IH1 IH2]. split; [|done]. set_solver.
    + specialize (IH targets new). destruct (foldl _ _ _) as [targets' new'].
      destruct IH as [IH1 IH2]. split; [|done]. set_solver.
    + specialize (IH ({[ t ]} ∪ targets) (new ++ links t)). destruct (foldl _ _ _) as [targets' new'].
      destruct IH as [IH1 IH2]. split; [set_solver|]. intros y. rewrite IH2, elem_of_app. split.
      * intros [[?|?]|(x & ? & ? & ?)]; [by left| |right; exists x; set_solver].
        right. exists t. rewrite IH1. set_solver.
      * intros [?|(x & ? & ? & ?)]; [by left; left|].
        destruct (decide (x = t)) as [->|]; [by left; right|]. right. exists x. set_solver.
Qed.

Lemma recursiveExpand_total (U : gset EntityName) (fuel : nat) (targets : gset EntityName) (ts : list EntityName) :
  targets ⊆ U → (∀ x, x ∈ ts → x ∈ U) → (∀ x y, y ∈ links x → y ∈ U) →
  (size U < size targets + fuel)%nat → is_Some (recursiveExpand fuel links a targets ts).
Proof.
  intros Htargets Hts Hlinks. revert targets ts Htargets Hts.
  induction fuel as [|fuel IH]; intros targets ts Htargets Hts Hsize; cbn [recursiveExpand].
  { pose proof (subseteq_size _ _ Htargets). lia. }
  pose proof (expandTargets_spec targets [] ts) as Hspec.
  destruct (foldl _ _ _) as [targets' new']. destruct Hspec as [H1 H2].
  assert (targets' ⊆ U) as Hsub by set_solver.
  destruct new' as [|y new']; [by eexists|]. apply IH; [done| |].
  - intros x [?|(z & _ & _ & ?)]%H2; [set_solver|by eapply Hlinks].
  - destruct (proj1 (H2 y) ltac:(by left)) as [?|(x & Hx & Hnx & _)]; [set_solver|].
    assert (size targets < size targets')%nat; [|lia]. apply subset_size. set_solver.
Qed.

Lemma rtc_closed (P : EntityName → Prop) (b : EntityName) :
  P a → (∀ x y, P x → y ∈ links x → P y) → rtc linksTo a b → P b.
Proof. intros Ha Hstep Hr. revert Ha. induction Hr; [done|]. intros. apply IHHr. by eapply Hstep. Qed.

Lemma recursiveExpand_reach (fuel : nat) (targets X : gset EntityName) (ts : list EntityName) (b : EntityName) :
  (∀ x, x ∈ targets → x ≠ a ∧ rtc linksTo a x) → (∀ x, x ∈ ts → rtc linksTo a x) →
  (∀ x y, x = a ∨ x ∈ targets → y ∈ links x → y = a ∨ y ∈ targets ∨ y ∈ ts) →
  recursiveExpand fuel links a targets ts = Some X →
  b ∈ X ↔ b ≠ a ∧ rtc linksTo a b.
Proof.
  revert targets ts. induction fuel as [|fuel IH]; intros targets ts Htargets Hts Hclosed; cbn [recursiveExpand]; [done|].
  pose proof (expandTargets_spec targets [] ts) as Hspec.
  destruct (foldl _ _ _) as [targets' new']. destruct Hspec as [H1 H2].
  assert (∀ x, x ∈ targets' → x ≠ a ∧ rtc linksTo a x) as Htargets' by (intros x [?|[??]]%H1; auto).
  assert (∀ x y, x = a ∨ x ∈ targets' → y ∈ links x → y = a ∨ y ∈ targets' ∨ y ∈ new') as Hclosed'.
  { intros x y Hx Hy. destruct (decide (y = a)) as [|Hya]; [by left|]. right. rewrite H1, H2.
    destruct (decide (x = a ∨ x ∈ targets)) as [Hx'|Hx'].
    - destruct (Hclosed x y Hx' Hy) as [?|[?|?]]; [done|by left; left|by left; right].
    - right; right. exists x. naive_solver. }
  destruct new' as [|y new'].
  - intros [= ->]. split; [auto|]. intros [Hne Hr].
    destruct (rtc_closed (λ x, x = a ∨ x ∈ X) b) as [?|?]; [by left| |done|done|done].
    intros x z Hx Hz. destruct (Hclosed' x z Hx Hz) as [?|[?|?]]; [by left|by right|set_solver].
  - apply IH; [done| |done]. intros x [?|(z & Hz & _ & ?)]%H2; [set_solver|].
    eapply rtc_r; [by apply Htargets'|done].
Qed.

(** The links of [a] expanded to all it reaches. *)
Lemma recursiveExpand_spec (U : gset EntityName) (fuel : nat) :
  (∀ x y, y ∈ links x → y ∈ U) → (size U < fuel)%nat →
  ∃ X, recursiveExpand fuel links a ∅ (links a) = Some X ∧ ∀ b, b ∈ X ↔ b ≠ a ∧ rtc linksTo a b.
Proof.
  intros HU Hsize.
  destruct (recursiveExpand_total U fuel ∅ (links a)) as [X HX];
    [set_solver|eauto|done|rewrite size_empty; lia|].
  exists X. split; [done|]. intros b. eapply recursiveExpand_reach; [| | |done].
  - set_solver.
  - intros x Hx. by apply rtc_once.
  - intros x y [->|?] Hy; [auto|set_solver].
Qed.
End expand.

Lemma size_list_to_set_le (l : list EntityName) :
  (size (list_to_set l : gset EntityName) ≤ length l)%nat.
Proof.
  induction l as [|x l IH]; cbn [list_to_set length]; [by rewrite size_empty|].
  rewrite size_union_alt, size_singleton.
  assert (size (list_to_set l ∖ {[x]} : gset EntityName) ≤ size (list_to_set l : gset EntityName))%nat; [|lia].
  apply subseteq_size. set_solver.
Qed.

(** ** Expanding the rows one after the other *)

Definition names (rows : list EntityExecution) : list EntityName := rowName <$> rows.

Lemma nameToIdx_snoc (rows : list EntityExecution) (row : EntityExecution) :
  nameToIdx (rows ++ [row]) = <[rowName row := length rows]> (nameToIdx rows).
Proof. unfold nameToIdx. rewrite imap_app, foldl_app. cbn. by rewrite Nat.add_0_r. Qed.

Lemma nameToIdx_lookup (rows : list EntityExecution) (k : EntityName) (i : nat) :
  NoDup (names rows) → nameToIdx rows !! k = Some i ↔ ∃ row, rows !! i = Some row ∧ rowName row = k.
Proof.
  induction rows as [|row rows IH] using rev_ind; intros Hnd.
  - split; [done|]. by intros (row & ? & _).
  - unfold names in *. rewrite fmap_app in Hnd. apply NoDup_app in Hnd as (Hnd & Hnew & _).
    rewrite nameToIdx_snoc, lookup_insert_Some, (IH Hnd). split.
    + intros [[<- <-]|[Hne (r & Hr & <-)]].
      * exists row. by rewrite lookup_app_r, Nat.sub_diag by lia.
      * exists r. split; [|done]. by apply lookup_app_l_Some.
    + intros (r & Hr & <-). apply lookup_app_Some in Hr as [Hr|[Hge Hr]].
      * right. split; [|eauto]. intros Heq. apply (Hnew (rowName r)).
        -- apply list_elem_of_fmap. exists r. split; [done|]. by eapply list_elem_of_lookup_2.
        -- rewrite <-Heq. set_solver.
      * left. apply list_lookup_singleton_Some in Hr as [? ->]. split; [done|lia].
Qed.

(** Rows that differ in their links only. *)
Definition sameRows (rows rows' : list EntityExecution) : Prop :=
  Forall2 (λ row row', ∃ ls, row' = setLinked ls row) rows rows'.

Lemma setLinked_twice (ls ls' : list EntityName) (row : EntityExecution) :
  setLinked ls (setLinked ls' row) = setLinked ls row.
Proof. done. Qed.

Lemma setLinked_own (row : EntityExecution) : row = setLinked (eeLinkedSyncTargets row) row.
Proof. by destruct row. Qed.

Lemma sameRows_refl (rows : list EntityExecution) : sameRows rows rows.
Proof. apply Forall_Forall2_diag, Forall_forall. intros row _. eexists. apply setLinked_own. Qed.

Lemma sameRows_alter (rows rows' : list EntityExecution) (ls : list EntityName) (i : nat) :
  sameRows rows rows' → sameRows rows (alter (setLinked ls) i rows').
Proof. intros H. apply Forall2_alter_r; [done|]. intros row row' _ _ [ls' ->]. by exists ls. Qed.

Section rows.
Context (rangeSet : gset EntityName → list EntityName) (rangeSet_perm : ∀ X, rangeSet X ≡ₚ elements X).
Context (rows0 : list EntityExecution) (Hnd : NoDup (names rows0)).

Notation index := (nameToIdx rows0).
Notation reaches rows := (rtc (linksTo (linkedOf index rows))).

Lemma linkedOf_row (rows : list EntityExecution) (i : nat) (row : EntityExecution) :
  sameRows rows0 rows → rows !! i = Some row → linkedOf index rows (rowName row) = eeLinkedSyncTargets row.
Proof.
  intros Hsame Hi. destruct (Forall2_lookup_r _ _ _ _ _ Hsame Hi) as (row0 & Hi0 & [ls ->]).
  change (rowName (setLinked ls row0)) with (rowName row0).
  unfold linkedOf. rewrite (proj2 (nameToIdx_lookup rows0 (rowName row0) i Hnd)) by eauto.
  cbn. by rewrite Hi.
Qed.

Lemma linkedOf_in (rows : list EntityExecution) (x y : EntityName) :
  y ∈ linkedOf index rows x → y ∈ rows ≫= eeLinkedSyncTargets.
Proof.
  unfold linkedOf. destruct (index !! x ≫= _) as [row|] eqn:Hrow; [|set_solver].
  apply bind_Some in Hrow as (i & _ & Hi). intros Hy. apply list_elem_of_bind. exists row.
  split; [done|]. by eapply list_elem_of_lookup_2.
Qed.

Lemma linkedOf_alter (rows : list EntityExecution) (i : nat) (row : EntityExecution) (ls : list EntityName) (x : EntityName) :
  sameRows rows0 rows → rows !! i = Some row →
  linkedOf index (alter (setLinked ls) i rows) x
  = if bool_decide (x = rowName row) then ls else linkedOf index rows x.
Proof.
  intros Hsame Hi. destruct (Forall2_lookup_r _ _ _ _ _ Hsame Hi) as (row0 & Hi0 & [ls0 ->]).
  unfold linkedOf. case_bool_decide as Hx.
  - subst x. change (rowName (setLinked ls0 row0)) with (rowName row0).
    rewrite (proj2 (nameToIdx_lookup rows0 (rowName row0) i Hnd)) by eauto.
    cbn. by rewrite list_lookup_alter_eq, Hi.
  - destruct (index !! x) as [j|] eqn:Hj; [|done]. cbn.
    apply (nameToIdx_lookup rows0 x j Hnd) in Hj as (rowj & Hj & <-).
    destruct (decide (i = j)) as [<-|]; [by simplify_eq|]. by rewrite list_lookup_alter_ne.
Qed.

(** Expanding one row keeps what can be reached. *)
Lemma reaches_alter (rows : list EntityExecution) (i : nat) (row : EntityExecution) (ls : list EntityName) (x y : EntityName) :
  sameRows rows0 rows → rows !! i = Some row →
  (∀ b, b ∈ ls ↔ b ≠ rowName row ∧ reaches rows (rowName row) b) →
  reaches (alter (setLinked ls) i rows) x y ↔ reaches rows x y.
Proof.
  intros Hsame Hi Hls. split; intros Hr.
  - induction Hr as [x|x y z Hxy _ IH]; [done|]. etrans; [|exact IH].
    unfold linksTo in Hxy. rewrite (linkedOf_alter rows i row) in Hxy by done. case_bool_decide; subst.
    + by apply Hls.
    + by apply rtc_once.
  - induction Hr as [x|x y z Hxy _ IH]; [done|]. destruct (decide (x = y)) as [->|Hne]; [done|].
    etrans; [|exact IH]. apply rtc_once. unfold linksTo in *. rewrite (linkedOf_alter rows i row) by done.
    case_bool_decide; subst; [|done]. apply Hls. split; [done|]. by apply rtc_once.
Qed.

Lemma expandRow_spec (rows : list EntityExecution) (i : nat) (row : EntityExecution) :
  sameRows rows0 rows → rows !! i = Some row →
  ∃ ls, expandRow rangeSet index (Some rows) i = Some (alter (setLinked ls) i rows) ∧
    ∀ b, b ∈ ls ↔ b ≠ rowName row ∧ reaches rows (rowName row) b.
Proof.
  intros Hsame Hi. unfold expandRow. cbn [mbind option_bind]. rewrite Hi. cbn [mbind option_bind].
  rewrite <-(linkedOf_row rows i row Hsame Hi).
  destruct (recursiveExpand_spec (linkedOf index rows) (rowName row)
              (list_to_set (rows ≫= eeLinkedSyncTargets)) (expandFuel rows)) as (X & HX & Hspec).
  - intros x y Hy%linkedOf_in. by apply elem_of_list_to_set.
  - unfold expandFuel. set (l := rows ≫= _). pose proof (size_list_to_set_le l). lia.
  - rewrite HX. cbn. eexists. split; [done|]. intros b. rewrite rangeSet_perm, elem_of_elements. apply Hspec.
Qed.

(** After the first [n] rows. *)
Lemma expandRows_spec (n : nat) :
  (n ≤ length rows0)%nat →
  ∃ rows, foldl (expandRow rangeSet index) (Some rows0) (seq 0 n) = Some rows ∧ sameRows rows0 rows ∧
    (∀ x y, reaches rows x y ↔ reaches rows0 x y) ∧
    (∀ i row, (i < n)%nat → rows !! i = Some row →
       ∀ b, b ∈ eeLinkedSyncTargets row ↔ b ≠ rowName row ∧ reaches rows0 (rowName row) b).
Proof.
  induction n as [|n IH]; intros Hn.
  { exists rows0. split_and!; [done|apply sameRows_refl|done|lia]. }
  destruct IH as (rows & Hrows & Hsame & Hreach & Hdone); [lia|].
  destruct (lookup_lt_is_Some_2 rows n) as [row Hrow].
  { erewrite <-Forall2_length by exact Hsame. lia. }
  destruct (expandRow_spec rows n row Hsame Hrow) as (ls & Hexp & Hls).
  exists (alter (setLinked ls) n rows). rewrite seq_S, foldl_app, Hrows. cbn [foldl Nat.add].
  split_and!; [done|by apply sameRows_alter| |].
  - intros x y. by rewrite (reaches_alter rows n row) by done.
  - intros i row' Hi Hlook b. destruct (decide (i = n)) as [->|Hne].
    + rewrite list_lookup_alter_eq, Hrow in Hlook. injection Hlook as <-. cbn. rewrite Hls.
      unfold rowName at 2. cbn. by rewrite Hreach.
    + rewrite list_lookup_alter_ne in Hlook by done. apply (Hdone i); [lia|done].
Qed.

Lemma expandLinkedTarget_spec :
  ∃ rows, expandLinkedTarget rangeSet index rows0 = Some rows ∧ sameRows rows0 rows ∧
    (∀ i row, rows !! i = Some row →
       ∀ b, b ∈ eeLinkedSyncTargets row ↔ b ≠ rowName row ∧ reaches rows0 (rowName row) b).
Proof.
  destruct (expandRows_spec (length rows0)) as (rows & Hrows & Hsame & _ & Hdone); [lia|].
  exists rows. split_and!; [done|done|]. intros i row Hi. apply (Hdone i row); [|done].
  rewrite (Forall2_length _ _ _ Hsame). by eapply lookup_lt_Some.
Qed.
End rows.

(** ** The types spread along the links *)

(** The rank of the type of a row, 0 out of range. *)
Definition rankAt (rows : list EntityExecution) (i : nat) : Z :=
  match rows !! i with Some row => syncRank (eeSyncType row) | None => 0 end.

(** Rows that differ in their types only. *)
Definition sameButTypes (rows rows' : list EntityExecution) : Prop :=
  Forall2 (λ row row', ∃ t, row' = setSyncType t row) rows rows'.

Lemma setSyncType_own (row : EntityExecution) : row = setSyncType (eeSyncType row) row.
Proof. by destruct row. Qed.

Lemma sameButTypes_refl (rows : list EntityExecution) : sameButTypes rows rows.
Proof. apply Forall_Forall2_diag, Forall_forall. intros row _. eexists. apply setSyncType_own. Qed.

Lemma syncRank_pos (t : SyncType) : t ≠ SyncTypeNone → 1 ≤ syncRank t ≤ 2.
Proof. by destruct t. Qed.

Lemma rankAt_bounds (rows : list EntityExecution) (i : nat) : 0 ≤ rankAt rows i ≤ 2.
Proof. unfold rankAt. destruct (rows !! i) as [row|]; [|lia]. by destruct (eeSyncType row). Qed.

Section types.
Context (rows0 : list EntityExecution) (Hnd : NoDup (names rows0)).
Notation index := (nameToIdx rows0).

Lemma raiseTarget_same (t : SyncType) (rows : list EntityExecution) (target : EntityName) :
  sameButTypes rows0 rows → sameButTypes rows0 (raiseTarget index t rows target).
Proof.
  intros H. unfold raiseTarget. destruct (index !! target); [|done].
  apply Forall2_alter_r; [done|]. intros row row' _ _ [t' ->].
  repeat case_bool_decide; by eexists.
Qed.

Lemma raiseTarget_rank (t : SyncType) (rows : list EntityExecution) (target : EntityName) (j : nat) :
  t ≠ SyncTypeNone → sameButTypes rows0 rows →
  rankAt (raiseTarget index t rows target) j
  = if bool_decide (names rows0 !! j = Some target) then Z.max (rankAt rows j) (syncRank t) else rankAt rows j.
Proof.
  intros Ht Hsame. unfold raiseTarget. destruct (index !! target) as [i|] eqn:Hi.
  - apply (nameToIdx_lookup rows0 target i Hnd) in Hi as (row0 & Hi & <-).
    destruct (decide (i = j)) as [<-|Hne].
    + rewrite (bool_decide_true (names rows0 !! i = _)) by (unfold names; by rewrite list_lookup_fmap, Hi).
      unfold rankAt. rewrite list_lookup_alter_eq.
      destruct (Forall2_lookup_l _ _ _ _ _ Hsame Hi) as (row & -> & _). cbn.
      destruct t; [done| |]; destruct row as [? ? [] ? ?]; reflexivity.
    + rewrite (bool_decide_false (names rows0 !! j = _)).
      * unfold rankAt. by rewrite list_lookup_alter_ne.
      * intros Hj. apply Hne. eapply NoDup_lookup; [exact Hnd| |exact Hj].
        unfold names. by rewrite list_lookup_fmap, Hi.
  - rewrite bool_decide_false; [done|]. unfold names. rewrite list_lookup_fmap.
    intros (row & Hj & Hn)%fmap_Some. assert (index !! target = Some j); [|congruence].
    apply nameToIdx_lookup; eauto.
Qed.

Lemma foldl_raiseTarget (t : SyncType) (ls : list EntityName) (rows : list EntityExecution) :
  t ≠ SyncTypeNone → sameButTypes rows0 rows →
  sameButTypes rows0 (foldl (raiseTarget index t) rows ls) ∧
  ∀ j, rankAt (foldl (raiseTarget index t) rows ls) j
       = if bool_decide (names rows0 !! j ∈ Some <$> ls)
         then Z.max (rankAt rows j) (syncRank t) else rankAt rows j.
Proof.
  intros Ht. revert rows. induction ls as [|target ls IH]; intros rows Hsame; cbn [foldl].
  - split; [done|]. intros j. rewrite bool_decide_false; [done|]. set_solver.
  - destruct (IH (raiseTarget index t rows target)) as [Hs Hr]; [by apply raiseTarget_same|].
    split; [done|]. intros j. rewrite Hr, raiseTarget_rank by done.
    case_bool_decide as H1; case_bool_decide as H2; case_bool_decide as H3; try lia; set_solver.
Qed.

Lemma raiseTargets_spec (rows : list EntityExecution) (i : nat) (row : EntityExecution) :
  sameButTypes rows0 rows → rows0 !! i = Some row →
  sameButTypes rows0 (raiseTargets index rows i) ∧
  ∀ j, rankAt (raiseTargets index rows i) j
       = if bool_decide (names rows0 !! j ∈ Some <$> eeLinkedSyncTargets row)
         then Z.max (rankAt rows j) (rankAt rows i) else rankAt rows j.
Proof.
  intros Hsame Hi. destruct (Forall2_lookup_l _ _ _ _ _ Hsame Hi) as (row' & Hi' & [t ->]).
  unfold raiseTargets. rewrite Hi'. cbn [eeSyncType setSyncType eeLinkedSyncTargets].
  assert (rankAt rows i = syncRank t) as Hrank by (unfold rankAt; by rewrite Hi').
  case_bool_decide as Ht.
  - split; [done|]. intros j. rewrite Hrank, Ht. cbn. pose proof (rankAt_bounds rows j). case_bool_decide; lia.
  - rewrite Hrank. by apply foldl_raiseTarget.
Qed.

Context (reach : EntityName → EntityName → Prop).
Context (reach_trans : ∀ x y z, reach x y → reach y z → reach x z) (reach_refl : ∀ x, reach x x).
Context (links_reach : ∀ i row b, rows0 !! i = Some row → b ∈ eeLinkedSyncTargets row → reach (rowName row) b).

Definition raisedBy (rows : list EntityExecution) (n : nat) : Prop :=
  ∀ j rowj, rows0 !! j = Some rowj →
    rankAt rows0 j ≤ rankAt rows j ∧
    (∀ i row, (i < n)%nat → rows0 !! i = Some row → rowName rowj ∈ eeLinkedSyncTargets row →
       rankAt rows0 i ≤ rankAt rows j) ∧
    (∃ i row, rows0 !! i = Some row ∧ rankAt rows j ≤ rankAt rows0 i ∧ reach (rowName row) (rowName rowj)).

Lemma raise_all (n : nat) :
  (n ≤ length rows0)%nat →
  let rows := foldl (raiseTargets index) rows0 (seq 0 n) in sameButTypes rows0 rows ∧ raisedBy rows n.
Proof.
  induction n as [|n IH]; intros Hn; cbn zeta.
  { split; [apply sameButTypes_refl|]. intros j rowj Hj. cbn. split_and!; [lia|lia|].
    exists j, rowj. split_and!; [done|lia|done]. }
  rewrite seq_S, foldl_app. cbn [foldl Nat.add]. destruct IH as [Hsame Hinv]; [lia|].
  set (rows := foldl _ rows0 (seq 0 n)) in *.
  destruct (lookup_lt_is_Some_2 rows0 n) as [rown Hrown]; [lia|].
  destruct (raiseTargets_spec rows n rown Hsame Hrown) as [Hs Hr]. split; [done|].
  destruct (Hinv n rown Hrown) as (Hn1 & _ & (i1 & row1 & Hi1 & Hle1 & Hreach1)).
  intros j rowj Hj. destruct (Hinv j rowj Hj) as (H1 & H2 & (i2 & row2 & Hi2 & Hle2 & Hreach2)).
  assert (names rows0 !! j = Some (rowName rowj)) as Hname by (unfold names; by rewrite list_lookup_fmap, Hj).
  rewrite (Hr j). case_bool_decide as Hin.
  - apply list_elem_of_fmap in Hin as (target & Htarget & Hin). rewrite Hname in Htarget. simplify_eq. split_and!.
    + lia.
    + intros i row Hi Hrow Hl. destruct (decide (i = n)) as [->|]; [lia|].
      specialize (H2 i row ltac:(lia) Hrow Hl). lia.
    + destruct (Z.max_spec (rankAt rows j) (rankAt rows n)) as [[_ ->]|[_ ->]]; [|eauto 6].
      exists i1, row1. split_and!; [done|done|]. eapply reach_trans; [done|]. by eapply links_reach.
  - split_and!; [done| |eauto 6]. intros i row Hi Hrow Hl. destruct (decide (i = n)) as [->|].
    + exfalso. apply Hin. simplify_eq. rewrite Hname. by apply list_elem_of_fmap_2.
    + apply (H2 i row); [lia|done|done].
Qed.
End types.

(** ** The result of the check *)

(** An entity [x] triggers [y]: the row of [x] lists [y] among its links. *)
Definition triggers (rows : list EntityExecution) (x y : EntityName) : Prop :=
  ∃ row, row ∈ rows ∧ rowName row = x ∧ y ∈ eeLinkedSyncTargets row.

Lemma triggers_linksTo (rows : list EntityExecution) (x y : EntityName) :
  NoDup (names rows) → triggers rows x y ↔ linksTo (linkedOf (nameToIdx rows) rows) x y.
Proof.
  intros Hnd. unfold triggers, linksTo. split.
  - intros (row & (i & Hi)%list_elem_of_lookup_1 & <- & Hy).
    by rewrite (linkedOf_row rows Hnd rows i row (sameRows_refl rows) Hi).
  - unfold linkedOf. destruct (nameToIdx rows !! x) as [i|] eqn:Hx; cbn; [|set_solver].
    apply nameToIdx_lookup in Hx as (row & Hi & <-); [|done]. rewrite Hi. intros Hy.
    exists row. split_and!; [by eapply list_elem_of_lookup_2|done|done].
Qed.

Lemma triggers_rtc (rows : list EntityExecution) (x y : EntityName) :
  NoDup (names rows) →
  rtc (triggers rows) x y ↔ rtc (linksTo (linkedOf (nameToIdx rows) rows)) x y.
Proof.
  intros Hnd. split; intros H; (eapply rtc_subrel; [|exact H]); intros; by apply triggers_linksTo.
Qed.

Lemma sameRows_names (rows rows' : list EntityExecution) : sameRows rows rows' → names rows' = names rows.
Proof. intros H. unfold names. induction H as [|row row' rows rows' [ls ->] _ IH]; [done|]. cbn. by rewrite IH. Qed.

Lemma sameRows_rankAt (rows rows' : list EntityExecution) (i : nat) :
  sameRows rows rows' → rankAt rows' i = rankAt rows i.
Proof.
  intros H. unfold rankAt. destruct (rows' !! i) as [row'|] eqn:Hi.
  - destruct (Forall2_lookup_r _ _ _ _ _ H Hi) as (row & -> & [ls ->]). done.
  - apply lookup_ge_None in Hi. rewrite <-(Forall2_length _ _ _ H) in Hi.
    by rewrite (proj2 (lookup_ge_None rows i)).
Qed.

Lemma sameRows_index (rows rows' : list EntityExecution) :
  NoDup (names rows) → sameRows rows rows' → nameToIdx rows' = nameToIdx rows.
Proof.
  intros Hnd H. apply map_eq. intros k. apply option_eq. intros i.
  rewrite !nameToIdx_lookup; [|done|by rewrite (sameRows_names rows rows')].
  split; intros (row & Hi & <-).
  - destruct (Forall2_lookup_r _ _ _ _ _ H Hi) as (row0 & ? & [ls ->]). by exists row0.
  - destruct (Forall2_lookup_l _ _ _ _ _ H Hi) as (row' & ? & [ls ->]). by exists (setLinked ls row).
Qed.

Lemma names_inj (rows : list EntityExecution) (i j : nat) (row row' : EntityExecution) :
  NoDup (names rows) → rows !! i = Some row → rows !! j = Some row' → rowName row = rowName row' → i = j.
Proof.
  intros Hnd Hi Hj Heq. eapply NoDup_lookup; [exact Hnd| |]; unfold names; rewrite list_lookup_fmap.
  - by rewrite Hi.
  - rewrite Hj. cbn. by rewrite Heq.
Qed.

(** Raising the types of expanded rows. *)
Lemma raise_expanded (rows rows1 : list EntityExecution) :
  NoDup (names rows) → sameRows rows rows1 →
  (∀ i row b, rows1 !! i = Some row → b ∈ eeLinkedSyncTargets row ↔ b ≠ rowName row ∧ rtc (triggers rows) (rowName row) b) →
  let rows2 := foldl (raiseTargets (nameToIdx rows)) rows1 (seq 0 (length rows1)) in
  sameButTypes rows1 rows2 ∧
  ∀ j row u, rows !! j = Some row → u ≠ SyncTypeNone →
    syncRank u ≤ rankAt rows2 j ↔
    ∃ i src, rows !! i = Some src ∧ syncRank u ≤ syncRank (eeSyncType src) ∧
      rtc (triggers rows) (rowName src) (rowName row).
Proof.
  intros Hnd Hsame Hlinks rows2.
  assert (NoDup (names rows1)) as Hnd1 by (by rewrite (sameRows_names rows rows1)).
  destruct (raise_all rows1 Hnd1 (rtc (triggers rows))) with (n := length rows1) as [Htypes Hraised].
  { intros x y z ??. by etrans. }
  { intros x. apply rtc_refl. }
  { intros i row b Hi Hb. by eapply Hlinks. }
  { done. }
  rewrite (sameRows_index rows rows1 Hnd Hsame) in Htypes, Hraised. split; [exact Htypes|].
  intros j row u Hj Hu. destruct (Forall2_lookup_l _ _ _ _ _ Hsame Hj) as (row1 & Hj1 & [ls ->]).
  destruct (Hraised j _ Hj1) as (Hlow & Hlow' & (i & src & Hi & Hup & Hreach)). fold rows2 in Hlow, Hlow', Hup.
  split.
  - intros Hle. rewrite (sameRows_rankAt rows rows1) in Hup by done.
    destruct (Forall2_lookup_r _ _ _ _ _ Hsame Hi) as (src0 & Hi0 & [ls0 ->]).
    exists i, src0. split_and!; [done| |done]. unfold rankAt in Hup at 2. rewrite Hi0 in Hup. lia.
  - intros (i' & src' & Hi' & Hle & Hr').
    destruct (Forall2_lookup_l _ _ _ _ _ Hsame Hi') as (src1 & Hi1 & [ls1 ->]).
    assert (rankAt rows1 i' = syncRank (eeSyncType src')) as Hsrc by (unfold rankAt; by rewrite Hi1).
    rewrite <-Hsrc in Hle. etrans; [exact Hle|].
    destruct (decide (i' = j)) as [->|Hne]; [done|].
    eapply Hlow'; [by eapply lookup_lt_Some|exact Hi1|]. apply (Hlinks i' _ _ Hi1).
    split; [|done]. intros Heq. apply Hne. by eapply (names_inj rows).
Qed.

(** The whole check. *)
Lemma checkLinked_spec (rangeSet : gset EntityName → list EntityName) (rows : list EntityExecution) :
  (∀ X, rangeSet X ≡ₚ elements X) → NoDup (names rows) →
  ∃ rows', checkLinkedSynchronization rangeSet rows = Some rows' ∧ length rows' = length rows ∧
    ∀ j row, rows !! j = Some row →
      ∃ t ls, rows' !! j = Some (setLinked ls (setSyncType t row)) ∧
        (∀ b, b ∈ ls ↔ b ≠ rowName row ∧ rtc (triggers rows) (rowName row) b) ∧
        (∀ u, u ≠ SyncTypeNone →
           syncRank u ≤ syncRank t ↔
           ∃ i src, rows !! i = Some src ∧ syncRank u ≤ syncRank (eeSyncType src) ∧
             rtc (triggers rows) (rowName src) (rowName row)).
Proof.
  intros Hperm Hnd.
  destruct (expandLinkedTarget_spec rangeSet Hperm rows Hnd) as (rows1 & Hexp & Hsame & Hlinks).
  assert (∀ i row b, rows1 !! i = Some row →
    b ∈ eeLinkedSyncTargets row ↔ b ≠ rowName row ∧ rtc (triggers rows) (rowName row) b) as Hlinks'.
  { intros i row b Hi. rewrite (Hlinks i row Hi b). by rewrite triggers_rtc. }
  destruct (raise_expanded rows rows1 Hnd Hsame Hlinks') as [Htypes Hranks].
  unfold checkLinkedSynchronization. rewrite Hexp. cbn [mbind option_bind].
  set (rows2 := foldl _ _ _) in *. exists rows2. split; [done|].
  split; [by rewrite <-(Forall2_length _ _ _ Htypes), <-(Forall2_length _ _ _ Hsame)|].
  intros j row Hj. destruct (Forall2_lookup_l _ _ _ _ _ Hsame Hj) as (row1 & Hj1 & [ls ->]).
  destruct (Forall2_lookup_l _ _ _ _ _ Htypes Hj1) as (row2 & Hj2 & [t ->]).
  exists t, ls. split_and!; [done|intros b; apply (Hlinks' j _ b Hj1)|].
  intros u Hu. rewrite <-(Hranks j row u Hj Hu). unfold rankAt. by rewrite Hj2.
Qed.

(** C11. The search for linked synchronizations ends, cycles or not, and spreads
    the types as far as the links go and no further: afterwards the type of an
    entity is the strongest one among the entities from which a chain of links
    leads to it, itself included, and its own links are all the entities it
    leads to.  Neither the order of the rows nor Go's iteration order matters. *)
Theorem checkLinked_closure (rangeSet : gset EntityName → list EntityName) (rows : list EntityExecution) :
  (∀ X, rangeSet X ≡ₚ elements X) → NoDup (names rows) →
  ∃ rows', checkLinkedSynchronization rangeSet rows = Some rows' ∧ length rows' = length rows ∧
    ∀ j row, rows !! j = Some row →
      ∃ t ls, rows' !! j = Some (setLinked ls (setSyncType t row)) ∧
        (∀ b, b ∈ ls ↔ b ≠ rowName row ∧ rtc (triggers rows) (rowName row) b) ∧
        (∀ u, u ≠ SyncTypeNone →
           syncRank u ≤ syncRank t ↔
           ∃ i src, rows !! i = Some src ∧ syncRank u ≤ syncRank (eeSyncType src) ∧
             rtc (triggers rows) (rowName src) (rowName row)).
Proof. apply checkLinked_spec. Qed.

(** Applications are synchronized with services, services with containers, and
    containers with services: a cycle, with a full refresh asked for containers. *)
Definition sampleRow (name : string) (t : SyncType) (linked : list string) : EntityExecution :=
  mkRow (mkEntitySynchronizer name false false) false t None linked.

Definition sampleRows : list EntityExecution :=
  [sampleRow "info" SyncTypeNormal [];
   sampleRow "container" SyncTypeForceCacheRefresh ["service"];
   sampleRow "application" SyncTypeNone [];
   sampleRow "service" SyncTypeNone ["application"; "container"]].

Lemma checkLinked_closure_witness :
  NoDup (names sampleRows) ∧
  eeSyncType <$> default [] (checkLinkedSynchronization elements sampleRows) =
    [SyncTypeNormal; SyncTypeForceCacheRefresh; SyncTypeForceCacheRefresh; SyncTypeForceCacheRefresh] ∧
  ∃ rows', checkLinkedSynchronization elements sampleRows = Some rows' ∧ length rows' = 4%nat.
Proof.
  assert (NoDup (names sampleRows)) as Hnd by (by apply (bool_decide_unpack _)).
  split; [done|]. split; [vm_compute; reflexivity|].
  destruct (checkLinked_closure elements sampleRows (λ X, reflexivity _) Hnd) as (rows' & H1 & H2 & _).
  exists rows'. by split.
Defined.
