(* ===== verification/Execution.v ===== *)
(** One execution of the synchronizer
    (bleemeo/internal/synchronizer/execution.go, compatibility.go and runOnce of
    sync.go): which entities are asked to synchronize, in which order, what
    becomes of the requests, of the errors and of the full synchronization.

    The entity synchronizers, the agent's local state and the API are an
    [environment]: a function of the whole state for each call, which answers
    with a result and with what happened during the call, a list of [action]s
    (requests made by the entity through the execution, methods called by other
    goroutines, time passing, the context being cancelled). *)
From S2P Require Import Prelude SyncState LinkedSync.

(** ** State *)

Record Execution := mkExecution {
  exStartedAt : Z;
  exOnlyEssential : bool;
  exIsNewAgent : bool;
  exIsLimitedExecution : bool;
  exUpdateThresholds : bool;
  exCallUpdateLabels : bool;
  exSyncListStarted : bool;
  exEntities : list EntityExecution;
  exDeferredSync : gmap EntityName SyncRequest
}.

(** The state of compatibility.go. *)
Record synchronizerState := mkCompatState {
  ssLastFactUpdatedAt : string;
  ssLastSNMPcount : Z;
  ssLastVSphereUpdate : Z;
  ssMetricRetryAt : Z;
  ssLastMetricCount : Z;
  ssLastMaintenanceSync : Z;
  ssConfigSyncDone : bool
}.

(** The calls an execution makes, in order.  [CIgnored] is not a call: it marks a
    row passed over without an error, as the connector is disabled because the
    agent is too old. *)
Inductive call :=
  | CPrepare (k : EntityName)
  | CNeed (k : EntityName)
  | CRefresh (k : EntityName) (t : SyncType)
  | CSync (k : EntityName) (t : SyncType)
  | CFinish (k : EntityName)
  | CIgnored (k : EntityName)
  | CUpdateUnitsAndThresholds (firstUpdate : bool)
  | CNotifyHooksUpdate
  | CNotifyFirstRegistration.

#[export] Instance call_eq : EqDecision call.
Proof. solve_decision. Defined.

(** [wCancelled] is [ctx.Err() != nil]. *)
Record world := mkWorld {
  wS : Synchronizer;
  wE : Execution;
  wState : synchronizerState;
  wCancelled : bool;
  wCalls : list call
}.

Definition withS (s : Synchronizer) (w : world) : world :=
  mkWorld s (wE w) (wState w) (wCancelled w) (wCalls w).

Definition withE (e : Execution) (w : world) : world :=
  mkWorld (wS w) e (wState w) (wCancelled w) (wCalls w).

Definition withState (st : synchronizerState) (w : world) : world :=
  mkWorld (wS w) (wE w) st (wCancelled w) (wCalls w).

Definition record (c : call) (w : world) : world :=
  mkWorld (wS w) (wE w) (wState w) (wCancelled w) (wCalls w ++ [c]).

Definition wRows (w : world) : list EntityExecution := exEntities (wE w).

Definition setEntities (rows : list EntityExecution) (e : Execution) : Execution :=
  mkExecution (exStartedAt e) (exOnlyEssential e) (exIsNewAgent e) (exIsLimitedExecution e)
    (exUpdateThresholds e) (exCallUpdateLabels e) (exSyncListStarted e) rows (exDeferredSync e).

Definition withRows (rows : list EntityExecution) (w : world) : world := withE (setEntities rows (wE w)) w.

Definition setRequested (thresholds labels : bool) (e : Execution) : Execution :=
  mkExecution (exStartedAt e) (exOnlyEssential e) (exIsNewAgent e) (exIsLimitedExecution e)
    thresholds labels (exSyncListStarted e) (exEntities e) (exDeferredSync e).

Definition setSyncListStarted (e : Execution) : Execution :=
  mkExecution (exStartedAt e) (exOnlyEssential e) (exIsNewAgent e) (exIsLimitedExecution e)
    (exUpdateThresholds e) (exCallUpdateLabels e) true (exEntities e) (exDeferredSync e).

(** ** Methods of the execution the entities call *)

(** The first row of a name. *)
Fixpoint alterFirst (name : EntityName) (f : EntityExecution → EntityExecution) (rows : list EntityExecution) :
    list EntityExecution :=
  match rows with
  | [] => []
  | row :: rows =>
      if bool_decide (rowName row = name) then f row :: rows else row :: alterFirst name f rows
  end.

Definition raiseRow (forceCacheRefresh : bool) (row : EntityExecution) : EntityExecution :=
  if forceCacheRefresh then setSyncType SyncTypeForceCacheRefresh row
  else if bool_decide (eeSyncType row = SyncTypeNone) then setSyncType SyncTypeNormal row
  else row.

Definition linkedTargets (name : EntityName) (rows : list EntityExecution) : list EntityName :=
  match list_find (λ row, rowName row = name) rows with
  | Some (_, row) => eeLinkedSyncTargets row
  | None => []
  end.

Definition RequestSynchronization (w : world) (entityName : EntityName) (forceCacheRefresh : bool) : world :=
  if exSyncListStarted (wE w) then
    let s := requestSynchronizationLocked (wS w) entityName forceCacheRefresh in
    withS (foldl (λ s target, requestSynchronizationLocked s target forceCacheRefresh) s
             (linkedTargets entityName (wRows w))) w
  else withRows (alterFirst entityName (raiseRow forceCacheRefresh) (wRows w)) w.

(** Without effect, and an error for the caller, once the list has started. *)
Definition RequestLinkedSynchronization (w : world) (targetEntityName triggerEntityName : EntityName) : world :=
  if exSyncListStarted (wE w) then w
  else
    withRows ((λ row,
      if bool_decide (rowName row = triggerEntityName)
      then setLinked (eeLinkedSyncTargets row ++ [targetEntityName]) row else row) <$> wRows w) w.

Definition failRow (reason : syncError) (row : EntityExecution) : EntityExecution :=
  match eeErr row with
  | None => setErr (Some reason) row
  | Some _ => row
  end.

Definition FailOtherEntity (w : world) (entityName : EntityName) (reason : syncError) : world :=
  withRows (alterFirst entityName (failRow reason) (wRows w)) w.

Definition RequestSynchronizationForAll (w : world) (forceCacheRefresh : bool) : world :=
  foldl (λ w name, RequestSynchronization w name forceCacheRefresh) w (names (wRows w)).

Definition RequestLaterFullSynchronization (w : world) (delay : Z) : world :=
  let s := wS w in
  let targetTime := Time.Add (syNow s) delay in
  if Time.After (syNextFullSync s) targetTime
  then withS (setFullSync s targetTime (syFullSyncCount s)) w else w.

Definition IsSynchronizationRequested (w : world) (entityName : EntityName) : bool :=
  match list_find (λ row, rowName row = entityName) (wRows w) with
  | Some (_, row) => negb (bool_decide (eeSyncType row = SyncTypeNone))
  | None => false
  end.

Definition hadWork (w : world) : bool :=
  existsb (λ ee, negb (bool_decide (eeSyncType ee = SyncTypeNone))) (wRows w).

Definition allForcedCacheRefresh (w : world) : bool :=
  forallb (λ ee, bool_decide (eeSyncType ee = SyncTypeForceCacheRefresh)) (wRows w).

Definition forceCacheRefreshForAll (w : world) : bool :=
  let s := wS w in
  if Time.Before (syNextFullSync s) (syNow s) then true
  else if negb (Time.IsZero (syNextConfigAt s)) && Time.Before (syNextConfigAt s) (syNow s) then true
  else allForcedCacheRefresh w.

(** ** What happens during a call *)

Inductive action :=
  | aSynchronizer (a : sAction)
  | aState (st : synchronizerState)
  | aCancel
  | aRequestSynchronization (k : EntityName) (force : bool)
  | aRequestLinkedSynchronization (target trigger : EntityName)
  | aFailOtherEntity (k : EntityName) (reason : syncError)
  | aRequestSynchronizationForAll (force : bool)
  | aRequestLaterFullSynchronization (delay : Z)
  | aRequestUpdateThresholds
  | aRequestNotifyLabelsUpdate.

Definition act (w : world) (a : action) : world :=
  match a with
  | aSynchronizer a => withS (sAct (wS w) a) w
  | aState st => withState st w
  | aCancel => mkWorld (wS w) (wE w) (wState w) true (wCalls w)
  | aRequestSynchronization k force => RequestSynchronization w k force
  | aRequestLinkedSynchronization target trigger => RequestLinkedSynchronization w target trigger
  | aFailOtherEntity k reason => FailOtherEntity w k reason
  | aRequestSynchronizationForAll force => RequestSynchronizationForAll w force
  | aRequestLaterFullSynchronization delay => RequestLaterFullSynchronization w delay
  | aRequestUpdateThresholds => withE (setRequested true (exCallUpdateLabels (wE w)) (wE w)) w
  | aRequestNotifyLabelsUpdate => withE (setRequested (exUpdateThresholds (wE w)) true (wE w)) w
  end.

Definition acts (w : world) (l : list action) : world := foldl act w l.

(** What compatibilitySyncToPerform reads of the agent. *)
Record localState := mkLocalState {
  loFactUpdatedAt : string;
  loSNMPCount : Z;
  loLastVSphereChange : Z;
  loLastDiscovery : Z;
  loMetricCount : Z;
  loMqttIsConnected : bool;
  loLastAnnotationChange : Z;
  loMinDelayed : Z
}.

Record environment := mkEnvironment {
  envPrepare : world → EntityExecution → list action * (bool * option syncError);
  envNeed : world → EntityExecution → list action * (bool * option syncError);
  envRefresh : world → EntityExecution → SyncType → list action * option syncError;
  envSync : world → EntityExecution → SyncType → list action * option syncError;
  envFinish : world → EntityExecution → list action;
  envLocal : world → localState;
  envDuplicate : world → duplicateAnswer * Z;
  envRange : gset EntityName → list EntityName;
  envRegister : world → list action * (string + syncError);
  envWaitCPU : world → list action;
  envFullSyncDelay : Z → Z
}.

(** ** What the agent's own changes call for *)

Definition compatibilitySyncToPerform (lo : localState) (w : world) : world :=
  let e := wE w in
  let started := exStartedAt e in
  let lastSuccessful := syLastSuccessfulSync (wS w) in
  let nextConfigAt := syNextConfigAt (wS w) in
  let w :=
    if negb (Time.IsZero nextConfigAt) && Time.Before nextConfigAt started
    then RequestSynchronizationForAll w true else w in
  let st := wState w in
  let w :=
    if negb (bool_decide (ssLastFactUpdatedAt st = loFactUpdatedAt lo))
    then RequestSynchronization w "facts" false else w in
  let '(w, st) :=
    if negb (ssLastSNMPcount st =? loSNMPCount lo) then
      (RequestSynchronization (RequestSynchronization w "facts" false) "snmp" false,
       mkCompatState (ssLastFactUpdatedAt st) (loSNMPCount lo) (ssLastVSphereUpdate st) (ssMetricRetryAt st)
         (ssLastMetricCount st) (ssLastMaintenanceSync st) (ssConfigSyncDone st))
    else (w, st) in
  let '(w, st) :=
    if Time.After (loLastVSphereChange lo) (ssLastVSphereUpdate st) then
      (RequestSynchronization w "vsphere" false,
       mkCompatState (ssLastFactUpdatedAt st) (ssLastSNMPcount st) (loLastVSphereChange lo) (ssMetricRetryAt st)
         (ssLastMetricCount st) (ssLastMaintenanceSync st) (ssConfigSyncDone st))
    else (w, st) in
  let w := if negb (ssConfigSyncDone st) then RequestSynchronization w "gloutonconfig" true else w in
  let w :=
    if Time.Before lastSuccessful (loLastDiscovery lo)
       || (negb (Time.IsZero (loMinDelayed lo)) && Time.After started (loMinDelayed lo))
    then RequestSynchronization w "container" false else w in
  let w := if IsSynchronizationRequested w "container" then RequestSynchronization w "metric" false else w in
  let w := if IsSynchronizationRequested w "monitor" then RequestSynchronization w "metric" false else w in
  let w :=
    if Time.After started (ssMetricRetryAt st) || Time.Before lastSuccessful (loLastDiscovery lo)
       || Time.Before lastSuccessful (loLastAnnotationChange lo)
       || negb (ssLastMetricCount st =? loMetricCount lo)
    then RequestSynchronization w "metric" false else w in
  let '(w, st) :=
    if syMaintenanceMode (wS w) && negb (loMqttIsConnected lo)
       && Time.After started (Time.Add (ssLastMaintenanceSync st) (15 * Time.minute)) then
      (RequestSynchronization w "info" false,
       mkCompatState (ssLastFactUpdatedAt st) (ssLastSNMPcount st) (ssLastVSphereUpdate st) (ssMetricRetryAt st)
         (ssLastMetricCount st) started (ssConfigSyncDone st))
    else (w, st) in
  withState st w.

(** ** Calling the entity synchronizers *)

Section run.
Context (env : environment).

Definition alterRow (idx : nat) (f : EntityExecution → EntityExecution) (w : world) : world :=
  withRows (alter f idx (wRows w)) w.

(** PrepareExecution: the row is written through a pointer, after the call. *)
Definition prepare (idx : nat) (ee : EntityExecution) (w : world) : world :=
  if eeSynchronizer ee then w
  else
    let '(l, (present, err)) := envPrepare env w ee in
    alterRow idx (λ row, setErr err (setSynchronizer present row)) (acts (record (CPrepare (rowName ee)) w) l).

(** The body of the loop of synchronizersCall.  [f] gets a copy of the row and
    returns the row that replaces it, whatever was written to it meanwhile. *)
Definition callOne (f : world → EntityExecution → world * EntityExecution) (w : world) (idx : nat) : world :=
  match wRows w !! idx with
  | None => w
  | Some ee =>
      if wCancelled w then w
      else match eeErr ee with
      | Some _ => w
      | None =>
          let '(s, until, reason) := getDisabledUntil (wS w) in
          let w := withS s w in
          if Time.Before (syNow s) until then
            if bool_decide (reason = DisableAgentTooOld) then record (CIgnored (rowName ee)) w
            else alterRow idx (setErr (Some errConnectorTemporaryDisabled)) w
          else if negb (exIsLimitedExecution (wE w)) && syMaintenanceMode s
                  && negb (enEnabledInMaintenance (eeEntity ee))
          then alterRow idx (setErr (Some errSkippedExecution)) w
          else if negb (exIsLimitedExecution (wE w)) && sySuspendedMode s
                  && negb (enEnabledInSuspendedMode (eeEntity ee))
          then alterRow idx (setErr (Some errSkippedExecution)) w
          else
            let w := prepare idx ee w in
            match wRows w !! idx with
            | None => w
            | Some ee =>
                match eeErr ee with
                | Some _ => w
                | None =>
                    if eeSynchronizer ee
                    then let '(w, ee) := f w ee in alterRow idx (λ _, ee) w
                    else w
                end
            end
      end
  end.

Definition synchronizersCall (f : world → EntityExecution → world * EntityExecution) (w : world) : world :=
  foldl (callOne f) w (seq 0 (length (wRows w))).

Definition needCall (w : world) (ee : EntityExecution) : world * EntityExecution :=
  let '(l, (need, err)) := envNeed env w ee in
  let w := acts (record (CNeed (rowName ee)) w) l in
  match err with
  | Some err => (w, setErr (Some err) ee)
  | None => (w, if need && bool_decide (eeSyncType ee = SyncTypeNone) then setSyncType SyncTypeNormal ee else ee)
  end.

Definition applyNeedSynchronization (w : world) : world := synchronizersCall needCall w.

Definition refreshCall (w : world) (ee : EntityExecution) : world * EntityExecution :=
  if bool_decide (eeSyncType ee = SyncTypeNone) then (w, ee)
  else
    let '(l, err) := envRefresh env w ee (eeSyncType ee) in
    (acts (record (CRefresh (rowName ee) (eeSyncType ee)) w) l, setErr err ee).

Definition syncCall (w : world) (ee : EntityExecution) : world * EntityExecution :=
  if bool_decide (eeSyncType ee = SyncTypeNone) then (w, ee)
  else
    let '(l, err) := envSync env w ee (eeSyncType ee) in
    (acts (record (CSync (rowName ee) (eeSyncType ee)) w) l, setErr err ee).

(** ** The run of an execution *)

Definition fulfills (row : EntityExecution) (e : Execution) (requests : gmap EntityName SyncRequest) : bool :=
  match exDeferredSync e !! rowName row, requests !! rowName row with
  | Some deferred, Some current =>
      (syncRank (rqType deferred) <=? syncRank (eeSyncType row))
      && bool_decide (rqType current = rqType deferred)
      && Time.Equal (rqDeadline current) (rqDeadline deferred)
  | _, _ => false
  end.

Definition dropFulfilledLaterRequests (w : world) : world :=
  if exIsLimitedExecution (wE w) then w
  else
    let drop (requests : gmap EntityName SyncRequest) (row : EntityExecution) :=
      if bool_decide (eeSyncType row = SyncTypeNone) then requests
      else if fulfills row (wE w) requests then delete (rowName row) requests
      else requests in
    withS (setForceSync (wS w) (foldl drop (syForceSync (wS w)) (wRows w))) w.

(** What precedes the list of synchronizations. *)
Definition requestNeeded (w : world) : world :=
  let w := compatibilitySyncToPerform (envLocal env w) w in
  let w := applyNeedSynchronization w in
  if hadWork w && (30 * Time.minute <? Time.Sub (syNow (wS w)) (syLastInfoFetchedAt (wS w)))
  then RequestSynchronization w "info" false else w.

Definition prelude (w : world) : world :=
  if exIsLimitedExecution (wE w) then w
  else requestNeeded (if forceCacheRefreshForAll w then RequestSynchronizationForAll w true else w).

Definition duplicateCheck (w : world) : world :=
  if negb (exIsLimitedExecution (wE w)) && hadWork w then
    let '(answer, jitter) := envDuplicate env w in
    match checkDuplicatedIfNeeded (wS w) answer jitter (exStartedAt (wE w)) false with
    | (s, None) => withS s w
    | (s, Some err) =>
        withRows ((λ row, if bool_decide (eeSyncType row = SyncTypeNone) then row else failRow err row) <$> wRows w)
          (withS s w)
    end
  else w.

(** The end of the loop for one row: the error it adds to the result, and the
    requests for the next execution. *)
Definition finishOne (st : world * list (EntityName * syncError)) (idx : nat) :
    world * list (EntityName * syncError) :=
  let '(w, errs) := st in
  match wRows w !! idx with
  | None => st
  | Some ee =>
      let k := rowName ee in
      let force := bool_decide (eeSyncType ee = SyncTypeForceCacheRefresh) in
      let w := if eeSynchronizer ee then acts (record (CFinish k) w) (envFinish env w ee) else w in
      let skipped := bool_decide (eeErr ee = Some errSkippedExecution) in
      let errs :=
        match eeErr ee with
        | Some err => if skipped then errs else errs ++ [(k, err)]
        | None => errs
        end in
      if bool_decide (eeSyncType ee = SyncTypeNone) then (w, errs)
      else
        let w := if skipped then RequestSynchronization w k force else w in
        let w := if exOnlyEssential (wE w) then RequestSynchronization w k force else w in
        (w, errs)
  end.

Definition executePostRunCalls (w : world) : world :=
  let w := if exCallUpdateLabels (wE w) then record CNotifyHooksUpdate w else w in
  if exIsNewAgent (wE w) then record (CUpdateUnitsAndThresholds true) w
  else if exUpdateThresholds (wE w) then record (CUpdateUnitsAndThresholds false) w
  else w.

(** The context's error, or the errors of the entities joined. *)
Inductive runResult :=
  | runCancelled
  | runDone (errs : list (EntityName * syncError)).

(** From the expanded links to the errors. *)
Definition runList (w : world) : world * list (EntityName * syncError) :=
  let w := dropFulfilledLaterRequests w in
  let w := withE (setSyncListStarted (wE w)) w in
  let w := duplicateCheck w in
  let w := synchronizersCall refreshCall w in
  let w := synchronizersCall syncCall w in
  foldl finishOne (w, []) (seq 0 (length (wRows w))).

Definition run (w : world) : option (world * runResult) :=
  let w := prelude w in
  rows ← checkLinkedSynchronization (envRange env) (wRows w);
  let '(w, errs) := runList (withRows rows w) in
  Some (if wCancelled w then (w, runCancelled) else (executePostRunCalls w, runDone errs)).

(** ** Creating an execution *)

Context (synchronizers : list EntitySynchronizer).

Definition getEntityExecution (s : Synchronizer) (entitySync : gmap EntityName SyncType) (limitedExec : bool) :
    list EntityExecution :=
  (λ entity,
     let err :=
       if negb limitedExec && syMaintenanceMode s && negb (enEnabledInMaintenance entity)
       then Some errSkippedExecution else None in
     let err :=
       if negb limitedExec && sySuspendedMode s && negb (enEnabledInSuspendedMode entity)
       then Some errSkippedExecution else err in
     mkRow entity false (default SyncTypeNone (entitySync !! enName entity)) err []) <$> synchronizers.

(** The requests whose deadline is reached, and the others. *)
Definition dueSync (s : Synchronizer) : gmap EntityName SyncType :=
  rqType <$> filter (λ kr, Time.After (rqDeadline kr.2) (syNow s) = false) (syForceSync s).

Definition pendingSync (s : Synchronizer) : gmap EntityName SyncRequest :=
  filter (λ kr, Time.After (rqDeadline kr.2) (syNow s) = true) (syForceSync s).

Definition newExecution (onlyEssential isNewAgent : bool) (w : world) : world :=
  let s := wS w in
  withE (mkExecution (syNow s) onlyEssential isNewAgent false false false false
           (getEntityExecution s (dueSync s) false) (pendingSync s))
    (withS (setForceSync s (pendingSync s)) w).

Definition newLimitedExecution (onlyEssential : bool) (entities : gmap EntityName SyncType) (w : world) : world :=
  withE (mkExecution (syNow (wS w)) onlyEssential false true false false false
           (getEntityExecution (wS w) entities true) ∅) w.

(** ** One turn of the synchronization loop *)

(** The registration of a new agent, and the first synchronization of what it
    needs. *)
Definition registerFirst (w : world) : option (world * option syncError) :=
  let '(l, answer) := envRegister env w in
  let w := acts w l in
  match answer with
  | inr err => Some (w, Some err)
  | inl id =>
      let w := withS (setAgentID (wS w) id) w in
      result ← run (newLimitedExecution false
        (<["config" := SyncTypeForceCacheRefresh]>
           (<["metric" := SyncTypeNormal]> {["agent" := SyncTypeForceCacheRefresh]})) w);
      let w := record CNotifyFirstRegistration (fst result) in
      Some (acts w (envWaitCPU env w), None)
  end.

Definition isNil (r : runResult) : bool :=
  match r with runDone [] => true | _ => false end.

(** The execution itself, and what it changes of the synchronizer. *)
Definition runExecution (startAt : Z) (onlyEssential wasCreation : bool) (w : world) : option (world * runResult) :=
  '(w, err) ← run (newExecution onlyEssential wasCreation w);
  let w :=
    if forceCacheRefreshForAll w && isNil err then
      let count := syFullSyncCount (wS w) + 1 in
      withS (setFullSync (wS w) (Time.Add (syNow (wS w)) (envFullSyncDelay env count)) count) w
    else w in
  let successful := if isNil err then startAt else syLastSuccessfulSync (wS w) in
  Some (withS (setLastSync (wS w) successful startAt) w, err).

Definition runOnce (onlyEssential : bool) (w : world) : option (world * (syncError + runResult)) :=
  let startAt := syNow (wS w) in
  if bool_decide (syAgentID (wS w) = "") then
    registered ← registerFirst w;
    match registered with
    | (w, Some err) => Some (w, inl err)
    | (w, None) => '(w, r) ← runExecution startAt onlyEssential true w; Some (w, inr r)
    end
  else '(w, r) ← runExecution startAt onlyEssential false w; Some (w, inr r).
End run.

(** ** How an execution advances *)

(** A row as time goes: its type gets stronger, an error stays. *)
Definition rowLe (row row' : EntityExecution) : Prop :=
  eeEntity row' = eeEntity row ∧ syncRank (eeSyncType row) ≤ syncRank (eeSyncType row') ∧
  ∀ err, eeErr row = Some err → eeErr row' = Some err.

#[export] Instance rowLe_preorder : PreOrder rowLe.
Proof.
  split.
  - intros row. split_and!; [done|lia|done].
  - intros r1 r2 r3 (H1 & H2 & H3) (H4 & H5 & H6). split_and!; [congruence|lia|auto].
Qed.

Definition sameType (row row' : EntityExecution) : Prop := eeSyncType row' = eeSyncType row.

#[export] Instance sameType_preorder : PreOrder sameType.
Proof. split; [done|]. intros r1 r2 r3 ??. unfold sameType in *. congruence. Qed.

Notation sameTypes := (Forall2 sameType).

(** What does not change of an execution during its run. *)
Definition sameExecution (e e' : Execution) : Prop :=
  exStartedAt e' = exStartedAt e ∧ exOnlyEssential e' = exOnlyEssential e ∧
  exIsLimitedExecution e' = exIsLimitedExecution e ∧ exDeferredSync e' = exDeferredSync e ∧
  exSyncListStarted e' = exSyncListStarted e.

#[export] Instance sameExecution_preorder : PreOrder sameExecution.
Proof.
  split; [done|]. intros e1 e2 e3 (?&?&?&?&?) (?&?&?&?&?). split_and!; congruence.
Qed.

Record wAdvance (w w' : world) : Prop := mkAdvance {
  adv_execution : sameExecution (wE w) (wE w');
  adv_synchronizer : sAdvance (wS w) (wS w');
  adv_rows : Forall2 rowLe (wRows w) (wRows w');
  adv_types : exSyncListStarted (wE w) = true → sameTypes (wRows w) (wRows w');
  adv_cancelled : wCancelled w = true → wCancelled w' = true;
  adv_calls : wCalls w `prefix_of` wCalls w'
}.

Lemma adv_started (w w' : world) :
  wAdvance w w' → exSyncListStarted (wE w') = exSyncListStarted (wE w).
Proof. intros H. apply (adv_execution _ _ H). Qed.

#[export] Instance wAdvance_preorder : PreOrder wAdvance.
Proof.
  split.
  - intros w. by split.
  - intros w1 w2 w3 H1 H2. pose proof (adv_started _ _ H1) as Hs. destruct H1, H2. split; auto; try (by etrans).
    intros H. etrans; [by apply adv_types0|]. apply adv_types1. congruence.
Qed.

(** Steps that touch one part of the state. *)
Lemma advance_S (w : world) (s : Synchronizer) : sAdvance (wS w) s → wAdvance w (withS s w).
Proof. intros H. by split. Qed.

Lemma advance_record (w : world) (c : call) : wAdvance w (record c w).
Proof. split; try done. by apply prefix_app_r. Qed.

Lemma advance_rows (w : world) (rows : list EntityExecution) :
  Forall2 rowLe (wRows w) rows → (exSyncListStarted (wE w) = true → sameTypes (wRows w) rows) →
  wAdvance w (withRows rows w).
Proof. intros H1 H2. by split. Qed.

Lemma alterFirst_rel (R : EntityExecution → EntityExecution → Prop) (name : EntityName)
    (f : EntityExecution → EntityExecution) (rows : list EntityExecution) :
  (∀ row, R row row) → (∀ row, R row (f row)) → Forall2 R rows (alterFirst name f rows).
Proof.
  intros Hr Hf. induction rows as [|row rows IH]; cbn; [constructor|].
  case_bool_decide; constructor; auto. clear IH. induction rows; by constructor.
Qed.

Lemma raiseRow_le (force : bool) (row : EntityExecution) : rowLe row (raiseRow force row).
Proof.
  unfold raiseRow. destruct force; [|case_bool_decide as H; [|done]].
  - split_and!; [done| |done]. by destruct (eeSyncType row).
  - split_and!; [done| |done]. by rewrite H.
Qed.

Lemma failRow_le (reason : syncError) (row : EntityExecution) : rowLe row (failRow reason row).
Proof. unfold failRow. destruct (eeErr row) eqn:H; [done|]. split_and!; [done|cbn; lia|congruence]. Qed.

Lemma failRow_type (reason : syncError) (row : EntityExecution) : eeSyncType (failRow reason row) = eeSyncType row.
Proof. unfold failRow. by destruct (eeErr row). Qed.

Lemma requests_advance (s : Synchronizer) (force : bool) (ls : list EntityName) :
  sAdvance s (foldl (λ s target, requestSynchronizationLocked s target force) s ls).
Proof.
  revert s. induction ls as [|k ls IH]; intros s; cbn [foldl]; [done|].
  etrans; [|apply IH]. apply request_advance.
Qed.

Lemma RequestSynchronization_advance (w : world) (k : EntityName) (force : bool) :
  wAdvance w (RequestSynchronization w k force).
Proof.
  unfold RequestSynchronization. destruct (exSyncListStarted (wE w)) eqn:Hs.
  - apply advance_S. etrans; [apply request_advance|apply requests_advance].
  - apply advance_rows; [|congruence]. apply alterFirst_rel; [done|]. apply raiseRow_le.
Qed.

Lemma foldl_advance {A} (f : world → A → world) (l : list A) (w : world) :
  (∀ w x, wAdvance w (f w x)) → wAdvance w (foldl f w l).
Proof. intros Hf. revert w. induction l as [|x l IH]; intros w; cbn; [done|]. etrans; [apply Hf|apply IH]. Qed.

Lemma RequestSynchronizationForAll_advance (w : world) (force : bool) :
  wAdvance w (RequestSynchronizationForAll w force).
Proof. apply foldl_advance. intros. apply RequestSynchronization_advance. Qed.

Lemma FailOtherEntity_advance (w : world) (k : EntityName) (reason : syncError) :
  wAdvance w (FailOtherEntity w k reason).
Proof.
  apply advance_rows.
  - apply alterFirst_rel; [done|]. apply failRow_le.
  - intros _. apply alterFirst_rel; [done|]. apply failRow_type.
Qed.

Lemma RequestLinked_advance (w : world) (target trigger : EntityName) :
  wAdvance w (RequestLinkedSynchronization w target trigger).
Proof.
  unfold RequestLinkedSynchronization. destruct (exSyncListStarted (wE w)) eqn:Hs; [done|].
  apply advance_rows; [|congruence]. apply Forall2_fmap_r, Forall_Forall2_diag, Forall_forall.
  intros row _. unfold compose. case_bool_decide; [|done]. split_and!; [done|cbn; lia|done].
Qed.

Lemma act_advance (w : world) (a : action) : wAdvance w (act w a).
Proof.
  destruct a; cbn [act].
  - apply advance_S, sAct_advance.
  - by split.
  - by split.
  - apply RequestSynchronization_advance.
  - apply RequestLinked_advance.
  - apply FailOtherEntity_advance.
  - apply RequestSynchronizationForAll_advance.
  - unfold RequestLaterFullSynchronization. case_match; [|done]. apply advance_S. by apply advance_same.
  - by split.
  - by split.
Qed.

Lemma acts_advance (w : world) (l : list action) : wAdvance w (acts w l).
Proof. apply foldl_advance, act_advance. Qed.

Lemma advance_alter (w w' : world) (idx : nat) (g : EntityExecution → EntityExecution) (ee : EntityExecution) :
  wAdvance w w' → wRows w !! idx = Some ee →
  (∀ row, rowLe ee row → rowLe ee (g row)) →
  (exSyncListStarted (wE w) = true → ∀ row, sameType ee row → sameType ee (g row)) →
  wAdvance w (alterRow idx g w').
Proof.
  intros [] Hidx Hle Htype. split; try done; cbn.
  - apply Forall2_alter_r; [done|]. intros row row' Hrow _ H. simplify_eq. auto.
  - intros Hs. apply Forall2_alter_r; [auto|]. intros row row' Hrow _ H. simplify_eq. auto.
Qed.

(** A call that does what the loop expects of it, before or after the list of
    synchronizations has started. *)
Definition goodCall (started : bool) (f : world → EntityExecution → world * EntityExecution) : Prop :=
  ∀ w ee, exSyncListStarted (wE w) = started → eeErr ee = None →
    let '(w', ee') := f w ee in
    wAdvance w w' ∧ rowLe ee ee' ∧ (started = true → sameType ee ee').

Lemma rowLe_err (ee row : EntityExecution) (err : option syncError) (present : bool) :
  eeErr ee = None → rowLe ee row → rowLe ee (setErr err (setSynchronizer present row)).
Proof. intros He (H1 & H2 & _). split_and!; [done|done|congruence]. Qed.

Lemma rowLe_setErr (ee row : EntityExecution) (err : option syncError) :
  eeErr ee = None → rowLe ee row → rowLe ee (setErr err row).
Proof. intros He (H1 & H2 & _). split_and!; [done|done|congruence]. Qed.

Lemma prepare_advance (env : environment) (w : world) (idx : nat) (ee : EntityExecution) :
  wRows w !! idx = Some ee → eeErr ee = None → wAdvance w (prepare env idx ee w).
Proof.
  intros Hidx He. unfold prepare. destruct (eeSynchronizer ee); [done|].
  destruct (envPrepare env w ee) as [l [present err]]. apply advance_alter with ee; [|done| |].
  - etrans; [apply advance_record|apply acts_advance].
  - intros row. by apply rowLe_err.
  - done.
Qed.

Lemma advance_lookup (w w' : world) (idx : nat) (ee : EntityExecution) :
  wAdvance w w' → wRows w !! idx = Some ee → ∃ ee', wRows w' !! idx = Some ee' ∧ rowLe ee ee'.
Proof. intros Ha Hidx. exact (Forall2_lookup_l rowLe _ _ idx ee (adv_rows _ _ Ha) Hidx). Qed.

Lemma callOne_advance (env : environment) (f : world → EntityExecution → world * EntityExecution) (w : world) (idx : nat) :
  goodCall (exSyncListStarted (wE w)) f → wAdvance w (callOne env f w idx).
Proof.
  intros Hf. unfold callOne. destruct (wRows w !! idx) as [ee|] eqn:Hidx; [|done].
  destruct (wCancelled w); [done|]. destruct (eeErr ee) eqn:He; [done|].
  pose proof (getDisabledUntil_advance (wS w)) as Hdis.
  destruct (getDisabledUntil (wS w)) as [[s until] reason]. cbn in Hdis.
  set (w1 := withS s w). assert (wAdvance w w1) as H1 by (by apply advance_S).
  assert (wRows w1 !! idx = Some ee) as Hidx1 by done. clearbody w1.
  assert (∀ err, wAdvance w (alterRow idx (setErr err) w1)) as Herr.
  { intros err. apply advance_alter with ee; [done|done| |done]. intros row. by apply rowLe_setErr. }
  destruct (Time.Before _ _); [case_bool_decide; [|apply Herr]; etrans; [done|apply advance_record]|].
  destruct (_ && _); [apply Herr|]. destruct (_ && _); [apply Herr|].
  pose proof (prepare_advance env w1 idx ee Hidx1 He) as H2. set (w2 := prepare env idx ee w1) in *.
  assert (wAdvance w w2) as H3 by (by etrans). destruct (wRows w2 !! idx) as [ee2|] eqn:Hidx2; [|done].
  destruct (eeErr ee2) eqn:He2; [done|]. destruct (eeSynchronizer ee2); [|done].
  specialize (Hf w2 ee2 (adv_started _ _ H3) He2). rewrite <-(adv_started _ _ H3) in Hf. destruct (f w2 ee2) as [w3 ee3]. destruct Hf as (H4 & Hle & Htype).
  etrans; [exact H3|]. apply advance_alter with ee2; auto.
Qed.

Lemma callAll_advance (env : environment) (f : world → EntityExecution → world * EntityExecution) (l : list nat) (w : world) :
  goodCall (exSyncListStarted (wE w)) f → wAdvance w (foldl (callOne env f) w l).
Proof.
  revert w. induction l as [|idx l IH]; intros w Hf; cbn [foldl]; [done|].
  pose proof (callOne_advance env f w idx Hf) as Ha. etrans; [exact Ha|]. apply IH.
  by rewrite (adv_started _ _ Ha).
Qed.

Lemma synchronizersCall_advance (env : environment) (f : world → EntityExecution → world * EntityExecution) (w : world) :
  goodCall (exSyncListStarted (wE w)) f → wAdvance w (synchronizersCall env f w).
Proof. apply callAll_advance. Qed.

Lemma needCall_good (env : environment) : goodCall false (needCall env).
Proof.
  intros w ee _ He. unfold needCall. destruct (envNeed env w ee) as [l [need err]].
  assert (wAdvance w (acts (record (CNeed (rowName ee)) w) l)) as Ha.
  { etrans; [apply advance_record|apply acts_advance]. }
  destruct err as [err|]; (split_and!; [done| |done]); [by apply rowLe_setErr|].
  destruct (need && _) eqn:Hn; [|done]. apply andb_true_iff in Hn as [_ Ht%bool_decide_eq_true].
  split_and!; [done|by rewrite Ht|done].
Qed.

Lemma refreshCall_good (env : environment) (started : bool) : goodCall started (refreshCall env).
Proof.
  intros w ee _ He. unfold refreshCall. case_bool_decide; [done|].
  destruct (envRefresh env w ee (eeSyncType ee)) as [l err]. split_and!; [|by apply rowLe_setErr|done].
  etrans; [apply advance_record|apply acts_advance].
Qed.

Lemma syncCall_good (env : environment) (started : bool) : goodCall started (syncCall env).
Proof.
  intros w ee _ He. unfold syncCall. case_bool_decide; [done|].
  destruct (envSync env w ee (eeSyncType ee)) as [l err]. split_and!; [|by apply rowLe_setErr|done].
  etrans; [apply advance_record|apply acts_advance].
Qed.

Lemma request_if_advance (w w' : world) (b : bool) (k : EntityName) (force : bool) :
  wAdvance w w' → wAdvance w (if b then RequestSynchronization w' k force else w').
Proof. intros H. destruct b; [|done]. etrans; [exact H|apply RequestSynchronization_advance]. Qed.

Lemma forAll_if_advance (w w' : world) (b : bool) (force : bool) :
  wAdvance w w' → wAdvance w (if b then RequestSynchronizationForAll w' force else w').
Proof. intros H. destruct b; [|done]. etrans; [exact H|apply RequestSynchronizationForAll_advance]. Qed.

Lemma request_advance_after (w w' : world) (k : EntityName) (force : bool) :
  wAdvance w w' → wAdvance w (RequestSynchronization w' k force).
Proof. intros H. etrans; [exact H|apply RequestSynchronization_advance]. Qed.

Lemma withState_advance (w w' : world) (st : synchronizerState) : wAdvance w w' → wAdvance w (withState st w').
Proof. intros H. etrans; [exact H|by split]. Qed.

Lemma compatibility_advance (lo : localState) (w : world) : wAdvance w (compatibilitySyncToPerform lo w).
Proof.
  unfold compatibilitySyncToPerform.
  destruct (negb (ssLastSNMPcount _ =? _)), (Time.After (loLastVSphereChange lo) _), (_ && Time.After _ (Time.Add _ _));
    apply withState_advance;
    repeat first [reflexivity | apply request_if_advance | apply request_advance_after | apply forAll_if_advance].
Qed.

Lemma requestNeeded_advance (env : environment) (w : world) :
  exSyncListStarted (wE w) = false → wAdvance w (requestNeeded env w).
Proof.
  intros Hs. unfold requestNeeded. apply request_if_advance.
  pose proof (compatibility_advance (envLocal env w) w) as Ha. etrans; [exact Ha|].
  apply synchronizersCall_advance. rewrite (adv_started _ _ Ha), Hs. apply needCall_good.
Qed.

Lemma prelude_advance (env : environment) (w : world) :
  exSyncListStarted (wE w) = false → wAdvance w (prelude env w).
Proof.
  intros Hs. unfold prelude. destruct (exIsLimitedExecution _); [done|].
  set (w1 := if forceCacheRefreshForAll w then _ else w).
  assert (wAdvance w w1) as H1 by (by apply forAll_if_advance).
  etrans; [exact H1|]. apply requestNeeded_advance. by rewrite (adv_started _ _ H1).
Qed.

Lemma duplicateCheck_advance (env : environment) (w : world) : wAdvance w (duplicateCheck env w).
Proof.
  unfold duplicateCheck. destruct (_ && _); [|done]. destruct (envDuplicate env w) as [answer jitter].
  pose proof (checkDuplicatedIfNeeded_advance (wS w) answer jitter (exStartedAt (wE w)) false) as Ha.
  destruct (checkDuplicatedIfNeeded _ _ _ _ _) as [s [err|]]; cbn in Ha; [|by apply advance_S].
  etrans; [by apply advance_S|]. apply advance_rows.
  - apply Forall2_fmap_r, Forall_Forall2_diag, Forall_forall. intros row _. unfold compose.
    case_bool_decide; [done|apply failRow_le].
  - intros _. apply Forall2_fmap_r, Forall_Forall2_diag, Forall_forall. intros row _. unfold compose.
    case_bool_decide; [done|apply failRow_type].
Qed.

Lemma finishOne_advance (env : environment) (w : world) (errs : list (EntityName * syncError)) (idx : nat) :
  wAdvance w (finishOne env (w, errs) idx).1.
Proof.
  unfold finishOne. destruct (wRows w !! idx) as [ee|]; [|done]. set (w1 := if eeSynchronizer ee then _ else w).
  assert (wAdvance w w1) as H1.
  { unfold w1. destruct (eeSynchronizer ee); [|done]. etrans; [apply advance_record|apply acts_advance]. }
  clearbody w1. case_bool_decide; [exact H1|]. cbn [fst]. by repeat apply request_if_advance.
Qed.

(** ** No request is lost *)

(** PrepareExecution returns a synchronizer or an error. *)
Definition preparesOk (env : environment) : Prop :=
  ∀ w ee, let '(_, (present, err)) := envPrepare env w ee in present = true ∨ err ≠ None.

(** The entity of row [i] has been dealt with: the call [c] was made, or the row
    has an error or was passed over. *)
Definition handled (k : EntityName) (c : call) (i : nat) (w : world) : Prop :=
  wCancelled w = true ∨
  (∃ ee err, wRows w !! i = Some ee ∧ eeErr ee = Some err) ∨
  c ∈ wCalls w ∨ CIgnored k ∈ wCalls w.

Lemma handled_advance (k : EntityName) (c : call) (i : nat) (w w' : world) :
  wAdvance w w' → handled k c i w → handled k c i w'.
Proof.
  intros Ha. pose proof (adv_calls _ _ Ha) as [l Hl]. unfold handled. rewrite Hl, !elem_of_app.
  intros [H|[(ee & err & Hi & He)|[H|H]]];
    [left; by apply (adv_cancelled _ _ Ha)| |by right; right; left; left|by right; right; right; left].
  right. left. destruct (advance_lookup w w' i ee Ha Hi) as (ee' & Hi' & (_ & _ & He')). eauto 6.
Qed.

Lemma act_calls (w : world) (a : action) : wCalls (act w a) = wCalls w.
Proof.
  assert (∀ w k force, wCalls (RequestSynchronization w k force) = wCalls w) as Hr.
  { intros w0 k force. unfold RequestSynchronization. by destruct (exSyncListStarted (wE w0)). }
  destruct a; cbn; try done.
  - unfold RequestLinkedSynchronization. by destruct (exSyncListStarted (wE w)).
  - unfold RequestSynchronizationForAll. generalize (names (wRows w)) as l. intros l. revert w.
    induction l as [|k l IH]; intros w; cbn [foldl]; [done|]. by rewrite IH, Hr.
  - unfold RequestLaterFullSynchronization. by case_match.
Qed.

Lemma acts_calls (w : world) (l : list action) : wCalls (acts w l) = wCalls w.
Proof.
  unfold acts. revert w. induction l as [|a l IH]; intros w; cbn [foldl]; [done|]. by rewrite IH, act_calls.
Qed.

Lemma prepare_present (env : environment) (w : world) (i : nat) (ee ee' : EntityExecution) :
  preparesOk env → wRows w !! i = Some ee → wRows (prepare env i ee w) !! i = Some ee' →
  eeErr ee' = None → eeSynchronizer ee' = true.
Proof.
  intros Hok Hi. unfold prepare. destruct (eeSynchronizer ee) eqn:Hs; [by intros; simplify_eq|].
  specialize (Hok w ee). destruct (envPrepare env w ee) as [l [present err]].
  cbn. rewrite list_lookup_alter_eq. intros (row & _ & ->)%fmap_Some. cbn. by destruct Hok.
Qed.

Lemma alterRow_err_handled (k : EntityName) (c : call) (i : nat) (w : world) (ee : EntityExecution) (err : syncError) :
  wRows w !! i = Some ee → handled k c i (alterRow i (setErr (Some err)) w).
Proof.
  intros Hi. right. left. exists (setErr (Some err) ee), err. split; [|done].
  cbn. by rewrite list_lookup_alter_eq, Hi.
Qed.

(** The two phases that work on the rows to synchronize: the call made for a row,
    which records what [c] says. *)
Definition phaseCall (f : world → EntityExecution → world * EntityExecution) (c : EntityName → SyncType → call) : Prop :=
  (∀ started, goodCall started f) ∧
  ∀ w ee, if bool_decide (eeSyncType ee = SyncTypeNone) then f w ee = (w, ee)
          else ∃ l err, f w ee = (acts (record (c (rowName ee) (eeSyncType ee)) w) l, setErr err ee).

Lemma refreshCall_phase (env : environment) : phaseCall (refreshCall env) CRefresh.
Proof.
  split; [apply refreshCall_good|]. intros w ee. unfold refreshCall. case_bool_decide; [done|].
  destruct (envRefresh env w ee (eeSyncType ee)) as [l err]. eauto.
Qed.

Lemma syncCall_phase (env : environment) : phaseCall (syncCall env) CSync.
Proof.
  split; [apply syncCall_good|]. intros w ee. unfold syncCall. case_bool_decide; [done|].
  destruct (envSync env w ee (eeSyncType ee)) as [l err]. eauto.
Qed.

Lemma callOne_handled (env : environment) (f : world → EntityExecution → world * EntityExecution)
    (c : EntityName → SyncType → call) (w : world) (i : nat) (ee : EntityExecution) :
  phaseCall f c → preparesOk env → exSyncListStarted (wE w) = true → wRows w !! i = Some ee →
  eeSyncType ee ≠ SyncTypeNone →
  handled (rowName ee) (c (rowName ee) (eeSyncType ee)) i (callOne env f w i).
Proof.
  intros [_ Hf] Hok Hs Hi Ht. unfold callOne. rewrite Hi. destruct (wCancelled w) eqn:Hc; [by left|].
  destruct (eeErr ee) eqn:He; [right; left; eauto|].
  destruct (getDisabledUntil (wS w)) as [[s until] reason].
  assert (wRows (withS s w) !! i = Some ee) as Hi1 by done.
  assert (exSyncListStarted (wE (withS s w)) = true) as Hs1 by done.
  set (w1 := withS s w) in *. clearbody w1.
  destruct (Time.Before _ _).
  { case_bool_decide; [|by eapply alterRow_err_handled]. right. right. right. cbn. set_solver. }
  destruct (_ && _); [by eapply alterRow_err_handled|].
  destruct (_ && _); [by eapply alterRow_err_handled|].
  pose proof (prepare_advance env w1 i ee Hi1 He) as Ha.
  destruct (advance_lookup _ _ i ee Ha Hi1) as (ee2 & Hi2 & (Hent & _ & _)).
  pose proof (Forall2_lookup_lr _ _ _ _ _ _ (adv_types _ _ Ha Hs1) Hi1 Hi2) as Htype. rewrite Hi2.
  destruct (eeErr ee2) as [err|] eqn:He2; [right; left; eauto|].
  rewrite (prepare_present env w1 i ee ee2 Hok Hi1 Hi2 He2). unfold sameType in Htype.
  specialize (Hf (prepare env i ee w1) ee2). rewrite bool_decide_false in Hf by congruence.
  destruct Hf as (l & err & ->). right. right. left. cbn. rewrite acts_calls, Htype. cbn.
  unfold rowName at 2. rewrite Hent. set_solver.
Qed.

Lemma phase_handled (env : environment) (f : world → EntityExecution → world * EntityExecution)
    (c : EntityName → SyncType → call) (w : world) (i : nat) (ee : EntityExecution) :
  phaseCall f c → preparesOk env → exSyncListStarted (wE w) = true → wRows w !! i = Some ee →
  eeSyncType ee ≠ SyncTypeNone →
  handled (rowName ee) (c (rowName ee) (eeSyncType ee)) i (synchronizersCall env f w).
Proof.
  intros Hf Hok Hs Hi Ht. unfold synchronizersCall.
  assert (i ∈ seq 0 (length (wRows w))) as Hin.
  { apply elem_of_seq. apply lookup_lt_Some in Hi. lia. }
  remember (seq 0 (length (wRows w))) as l eqn:Hl. clear Hl. revert w ee Hs Hi Ht.
  induction l as [|j l IH]; intros w ee Hs Hi Ht; [set_solver|]. cbn [foldl].
  assert (wAdvance w (callOne env f w j)) as Ha by (apply callOne_advance, Hf).
  destruct (decide (j = i)) as [->|Hne].
  - eapply handled_advance; [|by apply callOne_handled]. apply callAll_advance, Hf.
  - destruct (advance_lookup _ _ i ee Ha Hi) as (ee' & Hi' & (Hent & _)).
    pose proof (Forall2_lookup_lr _ _ _ _ _ _ (adv_types _ _ Ha Hs) Hi Hi') as Htype.
    assert (rowName ee' = rowName ee) as <- by (unfold rowName; by rewrite Hent).
    unfold sameType in Htype. rewrite <-Htype. apply IH; [set_solver|by rewrite (adv_started _ _ Ha)|done|congruence].
Qed.

(** The request for the next execution, once the list has started. *)
Lemma RequestSynchronization_started (w : world) (k : EntityName) (t : SyncType) :
  exSyncListStarted (wE w) = true →
  ∃ r, syForceSync (wS (RequestSynchronization w k (bool_decide (t = SyncTypeForceCacheRefresh)))) !! k = Some r ∧
    syncRank t ≤ syncRank (rqType r) ∧ rqDeadline r ≤ syNow (wS w).
Proof.
  intros Hs. unfold RequestSynchronization. rewrite Hs. cbn [withS wS].
  destruct (requestLater_lookup (wS w) k (bool_decide (t = SyncTypeForceCacheRefresh)) 0) as (r & Hr & Ht & Hd & _).
  destruct (proj2 (requests_advance (requestSynchronizationLocked (wS w) k (bool_decide (t = SyncTypeForceCacheRefresh)))
    (bool_decide (t = SyncTypeForceCacheRefresh)) (linkedTargets k (wRows w))) k r Hr) as (r' & Hr' & [Ht' Hd']).
  exists r'. split_and!; [done| |lia]. etrans; [|exact Ht']. etrans; [|exact Ht].
  case_bool_decide; [by subst|]. by destruct t.
Qed.

(** A request for [k] at least as strong as [t] that is due. *)
Definition requestedNow (k : EntityName) (t : SyncType) (w : world) : Prop :=
  ∃ r, syForceSync (wS w) !! k = Some r ∧ syncRank t ≤ syncRank (rqType r) ∧ rqDeadline r ≤ syNow (wS w).

Lemma requestedNow_advance (k : EntityName) (t : SyncType) (w w' : world) :
  wAdvance w w' → requestedNow k t w → requestedNow k t w'.
Proof.
  intros Ha (r & Hr & Ht & Hd). destruct (adv_synchronizer _ _ Ha) as [Hnow Hreq].
  destruct (Hreq k r Hr) as (r' & Hr' & [Ht' Hd']). exists r'. split_and!; [done|lia|lia].
Qed.

(** What the end of the run does with the error of a row. *)
Definition settledError (k : EntityName) (t : SyncType) (err : syncError) (st : world * list (EntityName * syncError)) : Prop :=
  if bool_decide (err = errSkippedExecution) then requestedNow k t st.1 else (k, err) ∈ st.2.

Lemma finishOne_errs (env : environment) (w : world) (errs : list (EntityName * syncError)) (idx : nat) :
  errs ⊆ (finishOne env (w, errs) idx).2.
Proof.
  unfold finishOne. destruct (wRows w !! idx) as [ee|]; [|done].
  case_bool_decide; cbn [snd]; (destruct (eeErr ee); [case_bool_decide|]; set_solver).
Qed.

Lemma finishOne_settles (env : environment) (w : world) (errs : list (EntityName * syncError)) (i : nat)
    (ee : EntityExecution) (err : syncError) :
  exSyncListStarted (wE w) = true → wRows w !! i = Some ee → eeSyncType ee ≠ SyncTypeNone → eeErr ee = Some err →
  settledError (rowName ee) (eeSyncType ee) err (finishOne env (w, errs) i).
Proof.
  intros Hs Hi Ht He. unfold finishOne. rewrite Hi, He. set (w1 := if eeSynchronizer ee then _ else w).
  assert (wAdvance w w1) as Ha.
  { unfold w1. destruct (eeSynchronizer ee); [|done]. etrans; [apply advance_record|apply acts_advance]. }
  clearbody w1. rewrite (bool_decide_false (eeSyncType ee = SyncTypeNone)) by done. unfold settledError.
  destruct (decide (err = errSkippedExecution)) as [->|Hne].
  - rewrite !bool_decide_true by done. cbn [fst].
    eapply requestedNow_advance; [by apply request_if_advance|].
    destruct (RequestSynchronization_started w1 (rowName ee) (eeSyncType ee)) as (r & ? & ? & Hd);
      [by rewrite (adv_started _ _ Ha)|].
    exists r. split_and!; [done|done|].
    pose proof (proj1 (adv_synchronizer _ _ (RequestSynchronization_advance w1 (rowName ee)
      (bool_decide (eeSyncType ee = SyncTypeForceCacheRefresh))))). lia.
  - rewrite !bool_decide_false by congruence. cbn [snd]. set_solver.
Qed.

Lemma settledError_advance (k : EntityName) (t : SyncType) (err : syncError) (w w' : world)
    (errs errs' : list (EntityName * syncError)) :
  wAdvance w w' → errs ⊆ errs' → settledError k t err (w, errs) → settledError k t err (w', errs').
Proof. intros Ha He. unfold settledError. case_bool_decide; cbn; [by apply requestedNow_advance|set_solver]. Qed.

Lemma finishAll_advance (env : environment) (l : list nat) (w : world) (errs : list (EntityName * syncError)) :
  wAdvance w (foldl (finishOne env) (w, errs) l).1 ∧ errs ⊆ (foldl (finishOne env) (w, errs) l).2.
Proof.
  revert w errs. induction l as [|i l IH]; intros w errs; cbn [foldl]; [done|].
  pose proof (finishOne_advance env w errs i) as Ha. pose proof (finishOne_errs env w errs i) as He.
  destruct (finishOne env (w, errs) i) as [w1 errs1]. cbn in *. destruct (IH w1 errs1) as [Ha1 He1].
  split; [by etrans|set_solver].
Qed.

Lemma finish_phase (env : environment) (l : list nat) (w : world) (errs : list (EntityName * syncError)) (i : nat)
    (ee : EntityExecution) (err : syncError) :
  i ∈ l → exSyncListStarted (wE w) = true → wRows w !! i = Some ee → eeSyncType ee ≠ SyncTypeNone →
  eeErr ee = Some err →
  settledError (rowName ee) (eeSyncType ee) err (foldl (finishOne env) (w, errs) l).
Proof.
  revert w errs ee. induction l as [|j l IH]; intros w errs ee Hin Hs Hi Ht He; [set_solver|]. cbn [foldl].
  pose proof (finishOne_advance env w errs j) as Ha.
  destruct (decide (j = i)) as [->|Hne].
  - pose proof (finishOne_settles env w errs i ee err Hs Hi Ht He) as Hset.
    destruct (finishOne env (w, errs) i) as [w1 errs1]. pose proof (finishAll_advance env l w1 errs1) as [Ha1 He1].
    destruct (foldl (finishOne env) (w1, errs1) l) as [w2 errs2]. by eapply settledError_advance.
  - destruct (finishOne env (w, errs) j) as [w1 errs1]. cbn in Ha.
    destruct (advance_lookup _ _ i ee Ha Hi) as (ee' & Hi' & (Hent & _ & He')).
    pose proof (Forall2_lookup_lr _ _ _ _ _ _ (adv_types _ _ Ha Hs) Hi Hi') as Htype.
    assert (rowName ee' = rowName ee) as <- by (unfold rowName; by rewrite Hent).
    unfold sameType in Htype. rewrite <-Htype.
    apply IH; [set_solver|by rewrite (adv_started _ _ Ha)|done|congruence|by apply He'].
Qed.

(** The state when the list of synchronizations starts. *)
Definition listStart (w : world) : world :=
  let w := dropFulfilledLaterRequests w in withE (setSyncListStarted (wE w)) w.

Lemma listStart_started (w : world) : exSyncListStarted (wE (listStart w)) = true.
Proof. done. Qed.

Lemma listStart_rows (w : world) : wRows (listStart w) = wRows w.
Proof. unfold listStart, dropFulfilledLaterRequests. by destruct (exIsLimitedExecution (wE w)). Qed.

(** The state when the synchronizations have been called. *)
Lemma calls_advance (env : environment) (w : world) :
  exSyncListStarted (wE w) = true →
  let w' := synchronizersCall env (refreshCall env) (duplicateCheck env w) in
  wAdvance w w' ∧ wAdvance w' (synchronizersCall env (syncCall env) w').
Proof.
  intros Hs w'. pose proof (duplicateCheck_advance env w) as H1. split.
  - etrans; [exact H1|]. apply synchronizersCall_advance, refreshCall_good.
  - apply synchronizersCall_advance, syncCall_good.
Qed.

Lemma runList_advance (env : environment) (w : world) : wAdvance (listStart w) (runList env w).1.
Proof.
  destruct (calls_advance env (listStart w) (listStart_started w)) as [H1 H2].
  unfold runList. change (withE _ (dropFulfilledLaterRequests w)) with (listStart w).
  etrans; [exact H1|]. etrans; [exact H2|]. apply finishAll_advance.
Qed.

(** The outcome of a row to be synchronized as [t]. *)
Definition outcome (k : EntityName) (t : SyncType) (w : world) (errs : list (EntityName * syncError)) : Prop :=
  wCancelled w = true ∨ requestedNow k t w ∨ (∃ err, (k, err) ∈ errs) ∨ CSync k t ∈ wCalls w ∨ CIgnored k ∈ wCalls w.

Lemma runList_outcome (env : environment) (w : world) (i : nat) (ee : EntityExecution) :
  preparesOk env → wRows w !! i = Some ee → eeSyncType ee ≠ SyncTypeNone →
  outcome (rowName ee) (eeSyncType ee) (runList env w).1 (runList env w).2.
Proof.
  intros Hok Hi Ht. unfold runList. change (withE _ (dropFulfilledLaterRequests w)) with (listStart w).
  destruct (calls_advance env (listStart w) (listStart_started w)) as [H1 H2].
  set (w1 := synchronizersCall env (refreshCall env) _) in *. set (w2 := synchronizersCall env (syncCall env) w1) in *.
  assert (exSyncListStarted (wE w1) = true) as Hs1 by (by rewrite (adv_started _ _ H1)).
  assert (exSyncListStarted (wE w2) = true) as Hs2 by (by rewrite (adv_started _ _ H2)).
  rewrite <-(listStart_rows w) in Hi.
  assert (∃ ee1, wRows w1 !! i = Some ee1 ∧ eeEntity ee1 = eeEntity ee ∧ eeSyncType ee1 = eeSyncType ee) as (ee1 & Hi1 & Hent & Htype).
  { destruct (advance_lookup _ _ i ee H1 Hi) as (ee1 & Hi1 & (Hent & _)). exists ee1. split_and!; [done|done|].
    exact (Forall2_lookup_lr _ _ _ _ _ _ (adv_types _ _ H1 (listStart_started w)) Hi Hi1). }
  assert (rowName ee1 = rowName ee) as <- by (unfold rowName; by rewrite Hent). rewrite <-Htype in *.
  pose proof (phase_handled env _ _ w1 i ee1 (syncCall_phase env) Hok Hs1 Hi1 Ht) as Hh. fold w2 in Hh.
  set (l := seq 0 (length (wRows w2))). pose proof (finishAll_advance env l w2 []) as [Ha _].
  pose proof (adv_calls _ _ Ha) as [cs Hcs]. unfold outcome. rewrite Hcs, !elem_of_app.
  destruct Hh as [Hc|[(ee2 & err & Hi2 & He2)|[Hc|Hc]]]; [left; by apply (adv_cancelled _ _ Ha)| |auto 6|auto 8].
  destruct (advance_lookup _ _ i ee1 H2 Hi1) as (ee2' & Hi2' & (Hent2 & _)). simplify_eq.
  pose proof (Forall2_lookup_lr _ _ _ _ _ _ (adv_types _ _ H2 Hs1) Hi1 Hi2) as Htype2.
  assert (settledError (rowName ee2) (eeSyncType ee2) err (foldl (finishOne env) (w2, []) l)) as Hset.
  { apply (finish_phase env l w2 [] i ee2 err); [|done|done|congruence|done].
    apply elem_of_seq. apply lookup_lt_Some in Hi2. lia. }
  unfold settledError, sameType in *. rewrite Htype2 in Hset.
  assert (rowName ee2 = rowName ee1) as Hn by (unfold rowName; by rewrite Hent2). rewrite Hn in Hset.
  case_bool_decide; eauto 6.
Qed.

(** A pending request after the ones fulfilled early are dropped. *)
Lemma drop_lookup (w : world) (k : EntityName) (r : SyncRequest) :
  syForceSync (wS w) !! k = Some r →
  syForceSync (wS (listStart w)) !! k = Some r ∨
  ∃ i row deferred, wRows w !! i = Some row ∧ rowName row = k ∧ eeSyncType row ≠ SyncTypeNone ∧
    exDeferredSync (wE w) !! k = Some deferred ∧ syncRank (rqType deferred) ≤ syncRank (eeSyncType row).
Proof.
  intros Hr. unfold listStart, dropFulfilledLaterRequests. destruct (exIsLimitedExecution (wE w)); [by left|].
  cbn [wS withS withE setForceSync syForceSync].
  assert (∀ row, row ∈ wRows w → ∃ i, wRows w !! i = Some row) as Hrows by (intros row; apply list_elem_of_lookup_1).
  revert Hrows Hr. generalize (syForceSync (wS w)). generalize (wRows w) at 1 3 as rows.
  induction rows as [|row rows IH]; intros requests Hrows Hr; cbn [foldl]; [by left|].
  assert (∀ row, row ∈ rows → ∃ i, wRows w !! i = Some row) as Hrows' by set_solver.
  case_bool_decide as Ht; [by apply IH|]. destruct (fulfills row (wE w) requests) eqn:Hf; [|by apply IH].
  destruct (decide (rowName row = k)) as [Hk|Hk].
  - right. destruct (Hrows row) as [i Hi]; [set_solver|]. unfold fulfills in Hf. rewrite Hk in Hf.
    destruct (exDeferredSync (wE w) !! k) as [deferred|]; [|done]. rewrite Hr in Hf.
    exists i, row, deferred. split_and!; [done..|]. apply andb_true_iff in Hf as [[Hf _]%andb_true_iff _]. lia.
  - apply IH; [done|]. by rewrite lookup_delete_ne.
Qed.

Lemma advance_names (w w' : world) : wAdvance w w' → names (wRows w') = names (wRows w).
Proof.
  intros Ha. unfold names. pose proof (adv_rows _ _ Ha) as H. induction H as [|row row' rows rows' [Hent _] _ IH]; [done|].
  cbn. rewrite IH. unfold rowName. by rewrite Hent.
Qed.

Lemma newExecution_names (synchronizers : list EntitySynchronizer) (onlyEssential isNewAgent : bool) (w : world) :
  names (wRows (newExecution synchronizers onlyEssential isNewAgent w)) = enName <$> synchronizers.
Proof.
  cbn. unfold getEntityExecution, names. rewrite <-list_fmap_compose. by apply list_fmap_ext.
Qed.

(** The row of a request that is due. *)
Lemma newExecution_due (synchronizers : list EntitySynchronizer) (onlyEssential isNewAgent : bool) (w : world)
    (k : EntityName) (r : SyncRequest) :
  k ∈ enName <$> synchronizers → syForceSync (wS w) !! k = Some r → rqDeadline r ≤ syNow (wS w) →
  ∃ i row, wRows (newExecution synchronizers onlyEssential isNewAgent w) !! i = Some row ∧ rowName row = k ∧
    eeSyncType row = rqType r.
Proof.
  intros (entity & -> & (i & Hi)%list_elem_of_lookup_1)%list_elem_of_fmap Hr Hd.
  eexists i, _. cbn. unfold getEntityExecution. rewrite list_lookup_fmap, Hi. split; [done|]. split; [done|].
  cbn. assert (dueSync (wS w) !! enName entity = Some (rqType r)) as ->; [|done].
  unfold dueSync. rewrite lookup_fmap, (map_lookup_filter_Some_2 _ _ _ r); [done|done|].
  cbn. unfold Time.After. lia.
Qed.

Lemma pendingSync_later (s : Synchronizer) (k : EntityName) (r : SyncRequest) :
  syForceSync s !! k = Some r → syNow s < rqDeadline r → pendingSync s !! k = Some r.
Proof. intros Hr Hd. apply map_lookup_filter_Some_2; [done|]. cbn. unfold Time.After. lia. Qed.

(** A row after the links: at least as strong. *)
Lemma linked_strong (rangeSet : gset EntityName → list EntityName) (rows : list EntityExecution) :
  (∀ X, rangeSet X ≡ₚ elements X) → NoDup (names rows) →
  ∃ rows', checkLinkedSynchronization rangeSet rows = Some rows' ∧ names rows' = names rows ∧
    ∀ i row, rows !! i = Some row →
      ∃ row', rows' !! i = Some row' ∧ rowName row' = rowName row ∧
        syncRank (eeSyncType row) ≤ syncRank (eeSyncType row').
Proof.
  intros Hrange Hnd. destruct (checkLinked_spec rangeSet rows Hrange Hnd) as (rows' & Hrows & Hlen & Hspec).
  exists rows'. split; [done|]. split.
  - apply list_eq_same_length with (length rows); unfold names; rewrite ?length_fmap; [done..|].
    intros i x y _. rewrite !list_lookup_fmap. intros (row & Hi & ->)%fmap_Some (row1 & Hi1 & ->)%fmap_Some.
    destruct (Hspec i row1 Hi1) as (t & ls & Hi2 & _). by simplify_eq.
  - intros i row Hi. destruct (Hspec i row Hi) as (t & ls & Hi2 & _ & Ht). eexists. split; [exact Hi2|].
    split; [done|]. cbn. destruct (decide (eeSyncType row = SyncTypeNone)) as [->|Hne]; [by destruct t|].
    apply (Ht _ Hne). exists i, row. split_and!; [done|lia|done].
Qed.

(** A row after the prelude and the links. *)
Lemma linked_row (env : environment) (w : world) :
  (∀ X, envRange env X ≡ₚ elements X) → exSyncListStarted (wE w) = false → NoDup (names (wRows w)) →
  ∃ rows, checkLinkedSynchronization (envRange env) (wRows (prelude env w)) = Some rows ∧
    names rows = names (wRows w) ∧
    ∀ i row, wRows w !! i = Some row →
      ∃ row', rows !! i = Some row' ∧ rowName row' = rowName row ∧
        syncRank (eeSyncType row) ≤ syncRank (eeSyncType row').
Proof.
  intros Hrange Hs Hnd. pose proof (prelude_advance env w Hs) as Ha. set (w1 := prelude env w) in *.
  rewrite <-(advance_names _ _ Ha) in Hnd |- *.
  destruct (linked_strong (envRange env) (wRows w1) Hrange Hnd) as (rows & Hrows & Hn & Hspec).
  exists rows. split_and!; [done|done|]. intros i row Hi.
  destruct (advance_lookup _ _ i row Ha Hi) as (row1 & Hi1 & (Hent & Hle & _)).
  destruct (Hspec i row1 Hi1) as (row2 & Hi2 & Hn2 & Hle2). exists row2.
  split_and!; [done|unfold rowName in *; congruence|lia].
Qed.

Lemma executePostRunCalls_keeps (w : world) :
  wS (executePostRunCalls w) = wS w ∧ ∀ c, c ∈ wCalls w → c ∈ wCalls (executePostRunCalls w).
Proof.
  unfold executePostRunCalls.
  destruct (exCallUpdateLabels (wE w)); cbn; (destruct (exIsNewAgent _); [|destruct (exUpdateThresholds _)]); set_solver.
Qed.

(** Where a request that is still pending ends up. *)
Definition stillRequested (k : EntityName) (r : SyncRequest) (w : world) : Prop :=
  ∃ r', syForceSync (wS w) !! k = Some r' ∧ syncRank (rqType r) ≤ syncRank (rqType r') ∧
    rqDeadline r' ≤ Z.max (rqDeadline r) (syNow (wS w)).

Lemma outcome_weaken (k : EntityName) (r : SyncRequest) (t : SyncType) (w : world) (errs : list (EntityName * syncError)) :
  outcome k t w errs → wCancelled w = false → syncRank (rqType r) ≤ syncRank t →
  stillRequested k r w ∨ (∃ t, syncRank (rqType r) ≤ syncRank t ∧ CSync k t ∈ wCalls w) ∨
  (∃ err, (k, err) ∈ errs) ∨ CIgnored k ∈ wCalls w.
Proof.
  intros [?|[(r' & ? & ? & ?)|[?|[?|?]]]] Hc Hle; [congruence| |eauto..].
  left. exists r'. split_and!; [done|lia|lia].
Qed.

(** C10. No request is lost: for every entity with a pending request, whatever the
    entities do and whatever other goroutines ask for meanwhile, once an execution
    ends without being cancelled, the request is still pending, no weaker and due
    no later than it was or than now; or the entity was called to synchronize, no
    less than asked; or its error is part of the result; or it was passed over, as
    the agent is too old. *)
Theorem requests_kept (env : environment) (synchronizers : list EntitySynchronizer) (w : world)
    (onlyEssential isNewAgent : bool) (k : EntityName) (r : SyncRequest) :
  preparesOk env → (∀ X, envRange env X ≡ₚ elements X) →
  NoDup (enName <$> synchronizers) → k ∈ enName <$> synchronizers →
  syForceSync (wS w) !! k = Some r → rqType r ≠ SyncTypeNone → wCalls w = [] →
  ∃ w' result, run env (newExecution synchronizers onlyEssential isNewAgent w) = Some (w', result) ∧
    ∀ errs, result = runDone errs →
      stillRequested k r w' ∨ (∃ t, syncRank (rqType r) ≤ syncRank t ∧ CSync k t ∈ wCalls w') ∨
      (∃ err, (k, err) ∈ errs) ∨ CIgnored k ∈ wCalls w'.
Proof.
  intros Hok Hrange Hnd Hk Hr Ht _. set (w0 := newExecution synchronizers onlyEssential isNewAgent w).
  rewrite <-(newExecution_names synchronizers onlyEssential isNewAgent w) in Hnd. fold w0 in Hnd.
  destruct (linked_row env w0 Hrange eq_refl Hnd) as (rows & Hrows & _ & Hlinked).
  unfold run. rewrite Hrows. cbn [mbind option_bind]. set (w2 := withRows rows (prelude env w0)).
  pose proof (runList_outcome env w2) as Hout. pose proof (runList_advance env w2) as Ha.
  destruct (runList env w2) as [w3 errs] eqn:Hrun. cbn in Hout, Ha.
  destruct (wCancelled w3) eqn:Hc; [by exists w3, runCancelled|].
  exists (executePostRunCalls w3), (runDone errs). split; [done|]. intros _ [= <-].
  destruct (executePostRunCalls_keeps w3) as [HS Hcalls]. unfold stillRequested. rewrite HS. fold (stillRequested k r w3).
  assert (stillRequested k r w3 ∨ (∃ t, syncRank (rqType r) ≤ syncRank t ∧ CSync k t ∈ wCalls w3) ∨
    (∃ err, (k, err) ∈ errs) ∨ CIgnored k ∈ wCalls w3) as H; [|naive_solver].
  destruct (decide (rqDeadline r ≤ syNow (wS w))) as [Hd|Hd].
  - destruct (newExecution_due synchronizers onlyEssential isNewAgent w k r Hk Hr Hd) as (i & row & Hi & <- & Htype).
    destruct (Hlinked i row Hi) as (row' & Hi' & Hn & Hle). rewrite <-Hn. rewrite Htype in Hle.
    eapply outcome_weaken; [|done|exact Hle]. apply (Hout i row'); [done|done|].
    intros E. rewrite E in Hle. by destruct (rqType r).
  - pose proof (prelude_advance env w0 eq_refl) as Hpre.
    assert (pendingSync (wS w) !! k = Some r) as Hp by (apply pendingSync_later; [done|lia]).
    destruct (proj2 (adv_synchronizer _ _ Hpre) k r Hp) as (r1 & Hr1 & [Ht1 Hd1]).
    destruct (drop_lookup w2 k r1 Hr1) as [Hkept|(i & row & deferred & Hi & <- & Hne & Hdef & Hle)].
    + destruct (proj2 (adv_synchronizer _ _ Ha) k r1 Hkept) as (r2 & Hr2 & [Ht2 Hd2]).
      left. exists r2. split_and!; [done|lia|lia].
    + assert (exDeferredSync (wE w2) = pendingSync (wS w)) as Hsame by apply (adv_execution _ _ Hpre).
      rewrite Hsame, Hp in Hdef. injection Hdef as <-.
      eapply outcome_weaken; [|done|exact Hle]. by apply (Hout i row).
Qed.

(** ** The order of the calls *)

Definition needOf (c : call) : option EntityName := match c with CNeed k => Some k | _ => None end.
Definition refreshOf (c : call) : option EntityName := match c with CRefresh k _ => Some k | _ => None end.
Definition syncOf (c : call) : option EntityName := match c with CSync k _ => Some k | _ => None end.
Definition finishOf (c : call) : option EntityName := match c with CFinish k => Some k | _ => None end.

Definition auxiliary (c : call) : Prop := match c with CPrepare _ | CIgnored _ => True | _ => False end.

(** The calls of a phase: its own, at most one per entity and in their order, with
    preparations and marks between them. *)
Definition phaseCalls (p : call → option EntityName) (ks : list EntityName) (cs : list call) : Prop :=
  Forall (λ c, auxiliary c ∨ is_Some (p c)) cs ∧ omap p cs `sublist_of` ks.

Definition recordsOwn (p : call → option EntityName) (f : world → EntityExecution → world * EntityExecution) : Prop :=
  (∀ c, auxiliary c → p c = None) ∧
  ∀ w ee, ∃ cs, wCalls (f w ee).1 = wCalls w ++ cs ∧ phaseCalls p [rowName ee] cs.

Lemma phaseCalls_nil (p : call → option EntityName) (ks : list EntityName) : phaseCalls p ks [].
Proof. split; [constructor|apply sublist_nil_l]. Qed.

Lemma phaseCalls_app (p : call → option EntityName) (ks ks' : list EntityName) (cs cs' : list call) :
  phaseCalls p ks cs → phaseCalls p ks' cs' → phaseCalls p (ks ++ ks') (cs ++ cs').
Proof.
  intros [H1 H2] [H3 H4]. split; [by apply Forall_app|]. rewrite omap_app. by apply sublist_app.
Qed.

Lemma phaseCalls_aux (p : call → option EntityName) (ks : list EntityName) (c : call) :
  auxiliary c → p c = None → phaseCalls p ks [c].
Proof. intros Hc Hp. split; [by constructor; [left|]|]. cbn. rewrite Hp. apply sublist_nil_l. Qed.

Lemma phaseCalls_own (p : call → option EntityName) (k : EntityName) (c : call) : p c = Some k → phaseCalls p [k] [c].
Proof. intros Hp. split; [constructor; [right; by rewrite Hp|constructor]|]. cbn. by rewrite Hp. Qed.

Lemma prepare_calls (env : environment) (p : call → option EntityName) (w : world) (idx : nat) (ee : EntityExecution) :
  (∀ c, auxiliary c → p c = None) →
  ∃ cs, wCalls (prepare env idx ee w) = wCalls w ++ cs ∧ phaseCalls p [] cs.
Proof.
  intros Hp. unfold prepare. destruct (eeSynchronizer ee).
  - exists []. rewrite app_nil_r. split; [done|apply phaseCalls_nil].
  - destruct (envPrepare env w ee) as [l [present err]]. eexists. cbn. rewrite acts_calls. cbn. split; [done|].
    apply phaseCalls_aux; [done|by apply Hp].
Qed.

Lemma callOne_calls (env : environment) (p : call → option EntityName)
    (f : world → EntityExecution → world * EntityExecution) (w : world) (idx : nat) :
  recordsOwn p f →
  ∃ cs, wCalls (callOne env f w idx) = wCalls w ++ cs ∧
    phaseCalls p (match wRows w !! idx with Some ee => [rowName ee] | None => [] end) cs.
Proof.
  intros [Hp Hf].
  assert (∀ ks, ∃ cs, wCalls w = wCalls w ++ cs ∧ phaseCalls p ks cs) as Hnone.
  { intros ks. exists []. rewrite app_nil_r. split; [done|apply phaseCalls_nil]. }
  unfold callOne. destruct (wRows w !! idx) as [ee|] eqn:Hi; [|apply Hnone].
  destruct (wCancelled w); [apply Hnone|]. destruct (eeErr ee) eqn:He; [apply Hnone|].
  destruct (getDisabledUntil (wS w)) as [[s until] reason].
  assert (wRows (withS s w) !! idx = Some ee) as Hi1 by done.
  change (wCalls w) with (wCalls (withS s w)) in Hnone |- *. set (w1 := withS s w) in *. clearbody w1.
  destruct (Time.Before _ _).
  { case_bool_decide; [|apply Hnone]. eexists. split; [done|]. apply phaseCalls_aux; [done|by apply Hp]. }
  destruct (_ && _); [apply Hnone|]. destruct (_ && _); [apply Hnone|].
  destruct (prepare_calls env p w1 idx ee Hp) as (cs & Hcs & Hphase).
  destruct (advance_lookup _ _ idx ee (prepare_advance env w1 idx ee Hi1 He) Hi1) as (ee2 & Hi2 & (Hent & _)).
  assert (∃ cs, wCalls (prepare env idx ee w1) = wCalls w1 ++ cs ∧ phaseCalls p [rowName ee] cs) as Hprep.
  { exists cs. split; [done|]. rewrite <-(app_nil_l [rowName ee]), <-(app_nil_r cs).
    by apply phaseCalls_app; [|apply phaseCalls_nil]. }
  rewrite Hi2. destruct (eeErr ee2); [done|]. destruct (eeSynchronizer ee2); [|done].
  destruct (Hf (prepare env idx ee w1) ee2) as (cs2 & Hcs2 & Hphase2).
  destruct (f _ ee2) as [w3 ee3]. cbn in *. exists (cs ++ cs2). rewrite Hcs2, Hcs, (assoc_L (++)). split; [done|].
  change [rowName ee] with ([] ++ [enName (eeEntity ee)]). rewrite <-Hent. by apply phaseCalls_app.
Qed.

(** A walk over the rows, one step for each. *)
Lemma walk_calls (p : call → option EntityName) (g : world → nat → world) (started : bool) (w : world) :
  (∀ w i, exSyncListStarted (wE w) = started →
     wAdvance w (g w i) ∧
     ∃ cs, wCalls (g w i) = wCalls w ++ cs ∧
       phaseCalls p (match wRows w !! i with Some ee => [rowName ee] | None => [] end) cs) →
  exSyncListStarted (wE w) = started →
  ∃ cs, wCalls (foldl g w (seq 0 (length (wRows w)))) = wCalls w ++ cs ∧ phaseCalls p (names (wRows w)) cs.
Proof.
  intros Hg Hs.
  assert (∀ n, (n ≤ length (wRows w))%nat → wAdvance w (foldl g w (seq 0 n)) ∧
    ∃ cs, wCalls (foldl g w (seq 0 n)) = wCalls w ++ cs ∧ phaseCalls p (take n (names (wRows w))) cs) as H.
  { induction n as [|n IH]; intros Hn.
    { split; [done|]. exists []. rewrite app_nil_r. split; [done|apply phaseCalls_nil]. }
    destruct IH as (Ha & cs & Hcs & Hphase); [lia|]. rewrite seq_S, foldl_app. cbn [foldl Nat.add].
    set (w1 := foldl g w (seq 0 n)) in *.
    destruct (Hg w1 n) as (Ha1 & cs1 & Hcs1 & Hphase1); [by rewrite (adv_started _ _ Ha)|].
    split; [by etrans|]. exists (cs ++ cs1). rewrite Hcs1, Hcs, (assoc_L (++)). split; [done|].
    destruct (lookup_lt_is_Some_2 (wRows w) n) as [ee Hee]; [lia|].
    destruct (advance_lookup _ _ n ee Ha Hee) as (ee1 & Hee1 & (Hent & _)). rewrite Hee1 in Hphase1.
    rewrite (take_S_r _ _ (rowName ee)) by (unfold names; by rewrite list_lookup_fmap, Hee).
    apply phaseCalls_app; [done|]. unfold rowName in *. by rewrite Hent in Hphase1. }
  destruct (H (length (wRows w))) as (_ & cs & Hcs & Hphase); [lia|]. exists cs. split; [done|].
  unfold names in *. by rewrite firstn_all2 in Hphase by (by rewrite length_fmap).
Qed.

Lemma synchronizersCall_calls (env : environment) (p : call → option EntityName)
    (f : world → EntityExecution → world * EntityExecution) (w : world) :
  recordsOwn p f → goodCall (exSyncListStarted (wE w)) f →
  ∃ cs, wCalls (synchronizersCall env f w) = wCalls w ++ cs ∧ phaseCalls p (names (wRows w)) cs.
Proof.
  intros Hp Hf. apply (walk_calls p (callOne env f) (exSyncListStarted (wE w))); [|done].
  intros w' i Hs. split; [apply callOne_advance; by rewrite Hs|by apply callOne_calls].
Qed.

Lemma needCall_own (env : environment) : recordsOwn needOf (needCall env).
Proof.
  split; [by intros []|]. intros w ee. unfold needCall. destruct (envNeed env w ee) as [l [need [err|]]]; cbn;
    rewrite acts_calls; (eexists; split; [done|by apply phaseCalls_own]).
Qed.

Lemma phaseCall_own (f : world → EntityExecution → world * EntityExecution) (c : EntityName → SyncType → call)
    (p : call → option EntityName) :
  (∀ c, auxiliary c → p c = None) → (∀ k t, p (c k t) = Some k) → phaseCall f c → recordsOwn p f.
Proof.
  intros Hp Hc [_ Hf]. split; [done|]. intros w ee. specialize (Hf w ee). case_bool_decide.
  - rewrite Hf. exists []. rewrite app_nil_r. split; [done|apply phaseCalls_nil].
  - destruct Hf as (l & err & ->). cbn. rewrite acts_calls. eexists. split; [done|]. by apply phaseCalls_own.
Qed.

Lemma request_if_calls (b : bool) (w : world) (k : EntityName) (force : bool) :
  wCalls (if b then RequestSynchronization w k force else w) = wCalls w.
Proof. destruct b; [|done]. apply (act_calls w (aRequestSynchronization k force)). Qed.

Lemma finishOne_calls (env : environment) (w : world) (i : nat) :
  ∃ cs, wCalls (finishOne env (w, []) i).1 = wCalls w ++ cs ∧
    phaseCalls finishOf (match wRows w !! i with Some ee => [rowName ee] | None => [] end) cs.
Proof.
  unfold finishOne. destruct (wRows w !! i) as [ee|].
  - set (w1 := if eeSynchronizer ee then _ else w).
    assert (∃ cs, wCalls w1 = wCalls w ++ cs ∧ phaseCalls finishOf [rowName ee] cs) as (cs & Hcs & Hphase).
    { unfold w1. destruct (eeSynchronizer ee).
      - rewrite acts_calls. eexists. split; [done|]. by apply phaseCalls_own.
      - exists []. rewrite app_nil_r. split; [done|apply phaseCalls_nil]. }
    exists cs. split; [|done]. clearbody w1. case_bool_decide; cbn [fst]; by rewrite ?request_if_calls.
  - exists []. rewrite app_nil_r. split; [done|apply phaseCalls_nil].
Qed.

(** The errors do not change what the loop does. *)
Lemma finishAll_world (env : environment) (l : list nat) (w : world) (errs : list (EntityName * syncError)) :
  (foldl (finishOne env) (w, errs) l).1 = foldl (λ w i, (finishOne env (w, []) i).1) w l.
Proof.
  revert w errs. induction l as [|i l IH]; intros w errs; cbn [foldl]; [done|].
  assert ((finishOne env (w, errs) i).1 = (finishOne env (w, []) i).1) as <-.
  { unfold finishOne. destruct (wRows w !! i) as [ee|]; [|done]. by case_bool_decide. }
  destruct (finishOne env (w, errs) i) as [w1 errs1]. apply IH.
Qed.

Lemma finishAll_calls (env : environment) (w : world) :
  ∃ cs, wCalls (foldl (finishOne env) (w, []) (seq 0 (length (wRows w)))).1 = wCalls w ++ cs ∧
    phaseCalls finishOf (names (wRows w)) cs.
Proof.
  rewrite finishAll_world. apply (walk_calls finishOf _ (exSyncListStarted (wE w))); [|done].
  intros w' i _. split; [apply finishOne_advance|apply finishOne_calls].
Qed.

Lemma compatibility_calls (lo : localState) (w : world) : wCalls (compatibilitySyncToPerform lo w) = wCalls w.
Proof.
  assert (∀ w k force, wCalls (RequestSynchronization w k force) = wCalls w) as Hr.
  { intros w0 k force. apply (act_calls w0 (aRequestSynchronization k force)). }
  assert (∀ w force, wCalls (RequestSynchronizationForAll w force) = wCalls w) as Hall.
  { intros w0 force. apply (act_calls w0 (aRequestSynchronizationForAll force)). }
  unfold compatibilitySyncToPerform.
  destruct (negb (ssLastSNMPcount _ =? _)), (Time.After (loLastVSphereChange lo) _), (_ && Time.After _ (Time.Add _ _));
    cbn [wCalls withState]; rewrite ?Hr, ?request_if_calls, ?Hr, ?request_if_calls; by destruct (_ && _); rewrite ?Hall.
Qed.

Lemma prelude_calls (env : environment) (w : world) :
  exSyncListStarted (wE w) = false →
  ∃ cs, wCalls (prelude env w) = wCalls w ++ cs ∧ phaseCalls needOf (names (wRows w)) cs.
Proof.
  intros Hs. unfold prelude. destruct (exIsLimitedExecution (wE w)).
  { exists []. rewrite app_nil_r. split; [done|apply phaseCalls_nil]. }
  unfold requestNeeded. rewrite request_if_calls. set (w1 := if forceCacheRefreshForAll w then _ else w).
  assert (wAdvance w w1) as H1 by (by apply forAll_if_advance).
  set (w2 := compatibilitySyncToPerform (envLocal env w1) w1).
  assert (wAdvance w w2) as H2 by (etrans; [exact H1|apply compatibility_advance]).
  assert (wCalls w2 = wCalls w) as Hc.
  { unfold w2. rewrite compatibility_calls. unfold w1.
    destruct (forceCacheRefreshForAll w); [apply (act_calls w (aRequestSynchronizationForAll true))|done]. }
  rewrite <-Hc, <-(advance_names _ _ H2). apply synchronizersCall_calls; [apply needCall_own|].
  rewrite (adv_started _ _ H2), Hs. apply needCall_good.
Qed.

(** A call of the phase is made for a row without error, to be synchronized. *)
Lemma callOne_made (env : environment) (w : world) (i : nat) (k : EntityName) (t : SyncType) :
  exSyncListStarted (wE w) = true → CSync k t ∈ wCalls (callOne env (syncCall env) w i) → CSync k t ∉ wCalls w →
  ∃ ee, wRows w !! i = Some ee ∧ rowName ee = k ∧ eeSyncType ee = t ∧ t ≠ SyncTypeNone ∧ eeErr ee = None ∧
    wCancelled w = false.
Proof.
  intros Hs Hin Hnot. revert Hin. unfold callOne. destruct (wRows w !! i) as [ee|] eqn:Hi; [|done].
  destruct (wCancelled w) eqn:Hc; [done|]. destruct (eeErr ee) eqn:He; [done|].
  destruct (getDisabledUntil (wS w)) as [[s until] reason].
  assert (wRows (withS s w) !! i = Some ee) as Hi1 by done.
  assert (exSyncListStarted (wE (withS s w)) = true) as Hs1 by done.
  change (wCalls w) with (wCalls (withS s w)) in Hnot. set (w1 := withS s w) in *. clearbody w1.
  destruct (Time.Before _ _); [case_bool_decide; [cbn; set_solver|done]|].
  destruct (_ && _); [done|]. destruct (_ && _); [done|].
  pose proof (prepare_advance env w1 i ee Hi1 He) as Ha.
  assert (CSync k t ∉ wCalls (prepare env i ee w1)) as Hnot2.
  { destruct (prepare_calls env (λ c, None) w1 i ee (λ _ _, eq_refl)) as (cs & -> & Hcs & _).
    rewrite elem_of_app. intros [?|Hin]; [done|]. rewrite Forall_forall in Hcs.
    destruct (Hcs _ Hin) as [[]|[? ?]]; done. }
  destruct (advance_lookup _ _ i ee Ha Hi1) as (ee2 & Hi2 & (Hent & _ & _)).
  pose proof (Forall2_lookup_lr _ _ _ _ _ _ (adv_types _ _ Ha Hs1) Hi1 Hi2) as Htype. rewrite Hi2.
  destruct (eeErr ee2); [done|]. destruct (eeSynchronizer ee2); [|done].
  pose proof (proj2 (syncCall_phase env) (prepare env i ee w1) ee2) as Hf. case_bool_decide as Hnone.
  - by rewrite Hf.
  - destruct Hf as (l & err & ->). cbn. rewrite acts_calls. cbn. rewrite elem_of_app, list_elem_of_singleton.
    intros [?|[= -> ->]]; [done|]. exists ee. unfold sameType in Htype.
    split_and!; [done|unfold rowName; by rewrite Hent|done|done|done|done].
Qed.

Lemma sync_made (env : environment) (l : list nat) (w w' : world) (k : EntityName) (t : SyncType) :
  wAdvance w w' → exSyncListStarted (wE w) = true → CSync k t ∉ wCalls w' →
  CSync k t ∈ wCalls (foldl (callOne env (syncCall env)) w' l) →
  ∃ i ee, wRows w !! i = Some ee ∧ rowName ee = k ∧ eeSyncType ee = t ∧ t ≠ SyncTypeNone ∧ eeErr ee = None ∧
    wCancelled w = false.
Proof.
  revert w'. induction l as [|j l IH]; intros w' Ha Hs Hnot; cbn [foldl]; [done|]. intros Hin.
  assert (wAdvance w' (callOne env (syncCall env) w' j)) as Hj by (apply callOne_advance, syncCall_good).
  destruct (decide (CSync k t ∈ wCalls (callOne env (syncCall env) w' j))) as [Hmade|Hmade].
  - destruct (callOne_made env w' j k t) as (ee' & Hj' & Hk & Ht & Hne & He & Hc);
      [by rewrite (adv_started _ _ Ha)|done|done|].
    destruct (Forall2_lookup_r _ _ _ _ _ (adv_rows _ _ Ha) Hj') as (ee & Hjw & (Hent & _ & Herr)).
    pose proof (Forall2_lookup_lr _ _ _ _ _ _ (adv_types _ _ Ha Hs) Hjw Hj') as Htype.
    exists j, ee. unfold sameType in Htype. split_and!; [done|unfold rowName in *; congruence|congruence|done| |].
    + destruct (eeErr ee) as [err|]; [|done]. specialize (Herr err eq_refl). congruence.
    + destruct (wCancelled w) eqn:Hcw; [|done]. pose proof (adv_cancelled _ _ Ha Hcw). congruence.
  - eapply (IH (callOne env (syncCall env) w' j)); [by etrans|done|done|done].
Qed.

Lemma phaseCalls_not (p : call → option EntityName) (ks : list EntityName) (cs : list call) (c : call) :
  phaseCalls p ks cs → ¬ auxiliary c → p c = None → c ∉ cs.
Proof. intros [Hcs _] Haux Hp Hin. rewrite Forall_forall in Hcs. destruct (Hcs c Hin) as [?|[? ?]]; congruence. Qed.

Lemma duplicateCheck_calls (env : environment) (w : world) : wCalls (duplicateCheck env w) = wCalls w.
Proof.
  unfold duplicateCheck. destruct (_ && _); [|done]. destruct (envDuplicate env w) as [answer jitter].
  by destruct (checkDuplicatedIfNeeded _ _ _ _ _) as [s [err|]].
Qed.

Lemma listStart_calls (w : world) : wCalls (listStart w) = wCalls w.
Proof. unfold listStart, dropFulfilledLaterRequests. by destruct (exIsLimitedExecution (wE w)). Qed.

Lemma executePostRunCalls_calls (w : world) :
  ∃ hooks, wCalls (executePostRunCalls w) = wCalls w ++ hooks ∧
    Forall (λ c, c = CNotifyHooksUpdate ∨ ∃ b, c = CUpdateUnitsAndThresholds b) hooks.
Proof.
  unfold executePostRunCalls. set (w1 := if exCallUpdateLabels (wE w) then _ else w).
  assert (∃ hooks, wCalls w1 = wCalls w ++ hooks ∧
    Forall (λ c, c = CNotifyHooksUpdate ∨ ∃ b, c = CUpdateUnitsAndThresholds b) hooks) as (hooks & Hw1 & Hh).
  { unfold w1. destruct (exCallUpdateLabels (wE w)); [|exists []; by rewrite app_nil_r].
    eexists. split; [done|]. by constructor; [left|]. }
  clearbody w1. destruct (exIsNewAgent (wE w1)); [|destruct (exUpdateThresholds (wE w1)); [|by exists hooks]].
  all: cbn; rewrite Hw1, <-(assoc_L (++)); eexists; (split; [done|]); apply Forall_app; split; [done|].
  all: constructor; [right; by eexists|done].
Qed.

(** What is synchronized was refreshed. *)
Lemma refreshed_before (env : environment) (w : world) (k : EntityName) (t : SyncType) :
  preparesOk env → exSyncListStarted (wE w) = true →
  let w1 := synchronizersCall env (refreshCall env) w in
  CSync k t ∉ wCalls w1 → CSync k t ∈ wCalls (synchronizersCall env (syncCall env) w1) →
  CRefresh k t ∈ wCalls w1 ∨ CIgnored k ∈ wCalls w1.
Proof.
  intros Hok Hs w1 Hnot Hin.
  assert (wAdvance w w1) as Ha by (apply synchronizersCall_advance, refreshCall_good).
  assert (exSyncListStarted (wE w1) = true) as Hs1 by (by rewrite (adv_started _ _ Ha)).
  destruct (sync_made env (seq 0 (length (wRows w1))) w1 w1 k t (reflexivity _) Hs1 Hnot Hin)
    as (i & ee1 & Hi1 & Hk & Ht & Hne & He & Hc).
  destruct (Forall2_lookup_r _ _ _ _ _ (adv_rows _ _ Ha) Hi1) as (ee & Hi & (Hent & _)).
  pose proof (Forall2_lookup_lr _ _ _ _ _ _ (adv_types _ _ Ha Hs) Hi Hi1) as Htype. unfold sameType in Htype.
  assert (rowName ee = k) as Hk' by (unfold rowName in *; congruence).
  pose proof (phase_handled env _ _ w i ee (refreshCall_phase env) Hok Hs Hi) as Hh.
  rewrite Hk', <-Htype, Ht in Hh. fold w1 in Hh.
  destruct (Hh Hne) as [?|[(ee2 & err & Hi2 & He2)|[?|?]]]; [congruence|congruence|by left|by right].
Qed.

Lemma runList_calls (env : environment) (w : world) :
  preparesOk env → phaseCalls needOf (names (wRows w)) (wCalls w) →
  ∃ refreshes syncs ends, wCalls (runList env w).1 = wCalls w ++ refreshes ++ syncs ++ ends ∧
    phaseCalls refreshOf (names (wRows w)) refreshes ∧ phaseCalls syncOf (names (wRows w)) syncs ∧
    phaseCalls finishOf (names (wRows w)) ends ∧
    ∀ k t, CSync k t ∈ syncs → CRefresh k t ∈ refreshes ∨ CIgnored k ∈ wCalls w ++ refreshes.
Proof.
  intros Hok Hneeds. unfold runList. change (withE _ (dropFulfilledLaterRequests w)) with (listStart w).
  pose proof (duplicateCheck_advance env (listStart w)) as Ha. set (w1 := duplicateCheck env (listStart w)) in *.
  assert (exSyncListStarted (wE w1) = true) as Hs by (by rewrite (adv_started _ _ Ha)).
  assert (wCalls w1 = wCalls w) as Hc1 by (unfold w1; by rewrite duplicateCheck_calls, listStart_calls).
  assert (names (wRows w1) = names (wRows w)) as Hn1 by (by rewrite (advance_names _ _ Ha), listStart_rows).
  destruct (synchronizersCall_calls env refreshOf (refreshCall env) w1) as (refreshes & Hr & Hpr);
    [by eapply phaseCall_own, refreshCall_phase; [intros []|]|apply refreshCall_good|].
  assert (wAdvance w1 (synchronizersCall env (refreshCall env) w1)) as H2 by (apply synchronizersCall_advance, refreshCall_good).
  pose proof (refreshed_before env w1) as Hbefore. set (w2 := synchronizersCall env (refreshCall env) w1) in *.
  destruct (synchronizersCall_calls env syncOf (syncCall env) w2) as (syncs & Hy & Hpy);
    [by eapply phaseCall_own, syncCall_phase; [intros []|]|apply syncCall_good|].
  assert (wAdvance w2 (synchronizersCall env (syncCall env) w2)) as H3 by (apply synchronizersCall_advance, syncCall_good).
  set (w3 := synchronizersCall env (syncCall env) w2) in *.
  destruct (finishAll_calls env w3) as (ends & He & Hpe).
  rewrite (advance_names _ _ H3) in Hpe. rewrite (advance_names _ _ H2), Hn1 in Hpy, Hpe. rewrite Hn1 in Hpr.
  exists refreshes, syncs, ends. split_and!; [|done|done|done|].
  - by rewrite He, Hy, Hr, Hc1, <-!(assoc_L (++)).
  - intros k t Hin. rewrite <-Hc1, <-Hr. destruct (Hbefore k t Hok Hs) as [Href|Hign]; [| | |by right].
    + rewrite Hr, Hc1, elem_of_app. intros [Hx|Hx].
      * exact (phaseCalls_not needOf _ _ (CSync k t) Hneeds (λ x, x) eq_refl Hx).
      * exact (phaseCalls_not refreshOf _ _ (CSync k t) Hpr (λ x, x) eq_refl Hx).
    + change (CSync k t ∈ wCalls w3). rewrite Hy. apply elem_of_app. by right.
    + rewrite Hr, Hc1, elem_of_app in Href. destruct Href as [Hx|Hx]; [|by left].
      exfalso. exact (phaseCalls_not needOf _ _ (CRefresh k t) Hneeds (λ x, x) eq_refl Hx).
Qed.

(** The calls of an execution come in phases, each going through the entities
    in their order and calling each at most once: first the question whether a
    synchronization is needed, then the refreshes of the cache, then the
    synchronizations, then the ends.  No entity is synchronized unless its cache
    was refreshed for the same type before, except one that was passed over for
    the agent being too old. *)
Theorem calls_ordered (env : environment) (synchronizers : list EntitySynchronizer) (w w' : world)
    (onlyEssential isNewAgent : bool) (result : runResult) :
  let ks := enName <$> synchronizers in
  preparesOk env → (∀ X, envRange env X ≡ₚ elements X) → NoDup ks → wCalls w = [] →
  run env (newExecution synchronizers onlyEssential isNewAgent w) = Some (w', result) →
  ∃ needs refreshes syncs ends hooks, wCalls w' = needs ++ refreshes ++ syncs ++ ends ++ hooks ∧
    phaseCalls needOf ks needs ∧ phaseCalls refreshOf ks refreshes ∧ phaseCalls syncOf ks syncs ∧
    phaseCalls finishOf ks ends ∧
    Forall (λ c, c = CNotifyHooksUpdate ∨ ∃ b, c = CUpdateUnitsAndThresholds b) hooks ∧
    ∀ k t, CSync k t ∈ syncs → CRefresh k t ∈ refreshes ∨ CIgnored k ∈ needs ++ refreshes.
Proof.
  intros ks Hok Hrange Hnd Hcalls. set (w0 := newExecution synchronizers onlyEssential isNewAgent w).
  pose proof (newExecution_names synchronizers onlyEssential isNewAgent w) as Hks. fold w0 in Hks. fold ks in Hks.
  rewrite <-Hks in Hnd |- *. destruct (linked_row env w0 Hrange eq_refl Hnd) as (rows & Hrows & Hnames & _).
  destruct (prelude_calls env w0 eq_refl) as (needs & Hneeds & Hpn).
  assert (wCalls (prelude env w0) = needs) as Hc by (rewrite Hneeds; cbn; by rewrite Hcalls).
  unfold run. rewrite Hrows. cbn [mbind option_bind]. set (w2 := withRows rows (prelude env w0)).
  destruct (runList_calls env w2 Hok) as (refreshes & syncs & ends & Hall & Hr & Hy & He & Hbefore).
  { change (wCalls w2) with (wCalls (prelude env w0)). change (wRows w2) with rows. by rewrite Hc, Hnames. }
  change (wCalls w2) with (wCalls (prelude env w0)) in *. change (wRows w2) with rows in *. rewrite Hc in *.
  rewrite Hnames in Hr, Hy, He. destruct (runList env w2) as [w3 errs]. cbn in Hall.
  destruct (executePostRunCalls_calls w3) as (hooks & Hhooks & Hph). intros Hres.
  assert (∃ hooks, wCalls w' = wCalls w3 ++ hooks ∧
    Forall (λ c, c = CNotifyHooksUpdate ∨ ∃ b, c = CUpdateUnitsAndThresholds b) hooks) as (hooks' & Hw' & Hph').
  { destruct (wCancelled w3); injection Hres as <- _; [exists []; by rewrite app_nil_r|by exists hooks]. }
  exists needs, refreshes, syncs, ends, hooks'. split_and!; try done.
  by rewrite Hw', Hall, <-!(assoc_L (++)).
Qed.

(** ** The full synchronization *)

Lemma alterFirst_lookup (k : EntityName) (f : EntityExecution → EntityExecution) (rows : list EntityExecution) (i : nat) :
  NoDup (names rows) →
  alterFirst k f rows !! i = (λ row, if bool_decide (rowName row = k) then f row else row) <$> rows !! i.
Proof.
  revert i. induction rows as [|row rows IH]; intros i Hnd; cbn [alterFirst]; [done|].
  apply NoDup_cons in Hnd as [Hnew Hnd]. case_bool_decide as Hk; destruct i as [|i]; cbn.
  - by rewrite bool_decide_true.
  - destruct (rows !! i) as [row'|] eqn:Hi; [|done]. cbn. rewrite bool_decide_false; [done|].
    intros Heq. apply Hnew. unfold names. change (rowName row ∈ rowName <$> rows). rewrite Hk, <-Heq.
    apply list_elem_of_fmap_2. by eapply list_elem_of_lookup_2.
  - by rewrite bool_decide_false.
  - by apply IH.
Qed.

Lemma request_forced (w : world) (k : EntityName) (i : nat) (row : EntityExecution) :
  exSyncListStarted (wE w) = false → NoDup (names (wRows w)) →
  wRows (RequestSynchronization w k true) !! i = Some row → rowName row = k →
  eeSyncType row = SyncTypeForceCacheRefresh.
Proof.
  intros Hs Hnd. unfold RequestSynchronization. rewrite Hs. cbn. rewrite alterFirst_lookup by done.
  intros (row0 & Hi & ->)%fmap_Some. case_bool_decide as Hk; [done|]. intros. by destruct Hk.
Qed.

Lemma advance_forced (w w' : world) (i : nat) (row row' : EntityExecution) :
  wAdvance w w' → wRows w !! i = Some row → eeSyncType row = SyncTypeForceCacheRefresh →
  wRows w' !! i = Some row' → eeSyncType row' = SyncTypeForceCacheRefresh.
Proof.
  intros Ha Hi Ht Hi'. destruct (advance_lookup _ _ i row Ha Hi) as (row1 & Hi1 & (_ & Hle & _)). simplify_eq.
  rewrite Ht in Hle. by destruct (eeSyncType row').
Qed.

Lemma forAll_forced (w : world) (i : nat) (row : EntityExecution) :
  exSyncListStarted (wE w) = false → NoDup (names (wRows w)) →
  wRows (RequestSynchronizationForAll w true) !! i = Some row → eeSyncType row = SyncTypeForceCacheRefresh.
Proof.
  intros Hs Hnd. pose proof (RequestSynchronizationForAll_advance w true) as Hall.
  unfold RequestSynchronizationForAll in *. intros Hi.
  destruct (Forall2_lookup_r _ _ _ _ _ (adv_rows _ _ Hall) Hi) as (row0 & Hi0 & (Hent & _)).
  assert (rowName row0 ∈ names (wRows w)) as Hin.
  { apply list_elem_of_fmap_2. by eapply list_elem_of_lookup_2. }
  apply list_elem_of_split in Hin as (l1 & l2 & Hl). rewrite Hl, foldl_app in Hi. cbn [foldl] in Hi.
  set (f := λ w name, RequestSynchronization w name true) in *.
  assert (wAdvance w (foldl f w l1)) as H1 by (apply foldl_advance; intros; apply RequestSynchronization_advance).
  set (w1 := foldl f w l1) in *.
  assert (wAdvance (f w1 (rowName row0)) (foldl f (f w1 (rowName row0)) l2)) as H2
    by (apply foldl_advance; intros; apply RequestSynchronization_advance).
  destruct (Forall2_lookup_r _ _ _ _ _ (adv_rows _ _ H2) Hi) as (row2 & Hi2 & (Hent2 & _)).
  eapply advance_forced; [exact H2|exact Hi2| |exact Hi].
  apply (request_forced w1 (rowName row0) i); [by rewrite (adv_started _ _ H1)|by rewrite (advance_names _ _ H1)|done|].
  unfold rowName. congruence.
Qed.

(** A full synchronization that ends without error reached every entity: when
    an execution starts with all caches to be refreshed and returns no error, each
    entity was synchronized with its cache refreshed, or is requested again at
    once to be so, or was passed over as the agent is too old. *)
Theorem full_sync_complete (env : environment) (synchronizers : list EntitySynchronizer) (w : world)
    (onlyEssential isNewAgent : bool) :
  let w0 := newExecution synchronizers onlyEssential isNewAgent w in
  preparesOk env → (∀ X, envRange env X ≡ₚ elements X) → NoDup (enName <$> synchronizers) → wCalls w = [] →
  forceCacheRefreshForAll w0 = true →
  ∃ w' result, run env w0 = Some (w', result) ∧
    (result = runDone [] → ∀ k, k ∈ enName <$> synchronizers →
       CSync k SyncTypeForceCacheRefresh ∈ wCalls w' ∨ requestedNow k SyncTypeForceCacheRefresh w' ∨
       CIgnored k ∈ wCalls w').
Proof.
  intros w0 Hok Hrange Hnd _ Hforce. rewrite <-(newExecution_names synchronizers onlyEssential isNewAgent w) in *.
  fold w0 in Hnd |- *. set (w1 := RequestSynchronizationForAll w0 true).
  pose proof (RequestSynchronizationForAll_advance w0 true) as H1. fold w1 in H1.
  assert (prelude env w0 = requestNeeded env w1) as Hpre by (unfold prelude; by rewrite Hforce).
  assert (wAdvance w1 (requestNeeded env w1)) as H2 by (apply requestNeeded_advance; by rewrite (adv_started _ _ H1)).
  assert (names (wRows (prelude env w0)) = names (wRows w0)) as Hnames by (by apply advance_names, prelude_advance).
  unfold run. rewrite Hpre in *.
  destruct (linked_strong (envRange env) (wRows (requestNeeded env w1)) Hrange) as (rows & Hrows & Hn & Hspec);
    [by rewrite Hnames|].
  rewrite Hrows. cbn [mbind option_bind]. set (w2 := withRows rows (requestNeeded env w1)).
  pose proof (runList_outcome env w2) as Hout. destruct (runList env w2) as [w3 errs]. cbn in Hout.
  destruct (wCancelled w3) eqn:Hc; [by exists w3, runCancelled|].
  exists (executePostRunCalls w3), (runDone errs). split; [done|]. intros [= ->] k Hk.
  apply list_elem_of_fmap in Hk as (row0 & -> & (i & Hi0)%list_elem_of_lookup_1).
  destruct (advance_lookup _ _ i row0 H1 Hi0) as (row1 & Hi1 & (Hent1 & _)).
  pose proof (forAll_forced w0 i row1 eq_refl Hnd Hi1) as Ht1.
  destruct (advance_lookup _ _ i row1 H2 Hi1) as (row2 & Hi2 & (Hent2 & _)).
  pose proof (advance_forced _ _ i row1 row2 H2 Hi1 Ht1 Hi2) as Ht2.
  destruct (Hspec i row2 Hi2) as (row3 & Hi3 & Hn3 & Hle). rewrite Ht2 in Hle.
  assert (eeSyncType row3 = SyncTypeForceCacheRefresh) as Ht3 by (by destruct (eeSyncType row3)).
  pose proof (Hout i row3 Hok Hi3) as Hrow. rewrite Ht3 in Hrow.
  assert (rowName row3 = rowName row0) as Hname by (unfold rowName in *; congruence). rewrite Hname in Hrow.
  destruct (executePostRunCalls_keeps w3) as [HS Hcalls]. unfold requestedNow. rewrite HS.
  destruct Hrow as [?|[?|[[err Herr]|[?|?]]]]; [done|congruence|by right; left|by inversion Herr|left; by apply Hcalls|right; right; by apply Hcalls].
Qed.

(** ** Sample executions *)

(** Entities whose calls succeed; the metrics need a synchronization, which takes
    [d] nanoseconds and during which another goroutine asks for the facts. *)
Definition sampleEnvironment (needActions : list action) (answer : duplicateAnswer) (d : N) : environment :=
  mkEnvironment
    (λ _ _, ([], (true, None)))
    (λ _ ee, if bool_decide (rowName ee = "metric") then (needActions, (true, None)) else ([], (false, None)))
    (λ _ _ _, ([], None))
    (λ _ ee _, ([aSynchronizer (sTick d); aSynchronizer (sUpdateFacts 0)], None))
    (λ _ _, [])
    (λ _, mkLocalState "t0" 0 0 0 0 true 0 0)
    (λ _, (answer, Time.minute))
    elements
    (λ _, ([], inl "agent"))
    (λ _, [])
    (λ _, Time.hour).

Definition sampleSynchronizers : list EntitySynchronizer :=
  [mkEntitySynchronizer "info" true false; mkEntitySynchronizer "facts" false false;
   mkEntitySynchronizer "metric" false false].

Definition sampleNow : Z := 1000 * Time.hour.

Definition sampleWorld (nextFullSync : Z) (requests : gmap EntityName SyncRequest) : world :=
  mkWorld
    (mkSynchronizer sampleNow 0 nextFullSync 0 0 0 false false 0 NotDisabled 0 0 requests [] [] sampleNow 0 None false "agent")
    (mkExecution 0 false false false false false false [] ∅)
    (mkCompatState "t0" 0 0 sampleNow 0 0 true) false [].

Definition sampleRequests : gmap EntityName SyncRequest :=
  <["metric" := mkRequest SyncTypeForceCacheRefresh sampleNow]>
    {["facts" := mkRequest SyncTypeNormal (sampleNow + Time.hour)]}.

Lemma sample_preparesOk (l : list action) (answer : duplicateAnswer) (d : N) : preparesOk (sampleEnvironment l answer d).
Proof. intros w ee. by left. Qed.

Lemma sample_NoDup : NoDup (enName <$> sampleSynchronizers).
Proof. by apply (bool_decide_unpack _). Qed.

Lemma requests_kept_witness :
  ∃ w' result,
    run (sampleEnvironment [] notDuplicated 5)
      (newExecution sampleSynchronizers false false (sampleWorld (sampleNow + 1) sampleRequests)) = Some (w', result) ∧
    ∀ errs, result = runDone errs →
      stillRequested "metric" (mkRequest SyncTypeForceCacheRefresh sampleNow) w' ∨
      (∃ t, 2 ≤ syncRank t ∧ CSync "metric" t ∈ wCalls w') ∨
      (∃ err, ("metric", err) ∈ errs) ∨ CIgnored "metric" ∈ wCalls w'.
Proof.
  apply (requests_kept (sampleEnvironment [] notDuplicated 5) sampleSynchronizers
           (sampleWorld (sampleNow + 1) sampleRequests) false false "metric"
           (mkRequest SyncTypeForceCacheRefresh sampleNow)
           (sample_preparesOk [] notDuplicated 5) (λ X, reflexivity _) sample_NoDup).
  - by apply (bool_decide_unpack _).
  - vm_compute. reflexivity.
  - done.
  - done.
Defined.

(** The calls of that execution. *)
Example sample_calls :
  match run (sampleEnvironment [] notDuplicated 5)
          (newExecution sampleSynchronizers false false (sampleWorld (sampleNow + 1) sampleRequests)) with
  | Some (w, result) =>
      (wCalls w, result, map_to_list (syForceSync (wS w))) =
      ([CPrepare "info"; CNeed "info"; CPrepare "facts"; CNeed "facts"; CPrepare "metric"; CNeed "metric";
        CRefresh "metric" SyncTypeForceCacheRefresh; CSync "metric" SyncTypeForceCacheRefresh;
        CFinish "info"; CFinish "facts"; CFinish "metric"],
       runDone [], [("facts", mkRequest SyncTypeNormal (sampleNow + 5))])
  | None => False
  end.
Proof. vm_compute. reflexivity. Qed.

Lemma calls_ordered_witness :
  match run (sampleEnvironment [] notDuplicated 5)
          (newExecution sampleSynchronizers false false (sampleWorld (sampleNow + 1) sampleRequests)) with
  | Some (w', _) =>
      ∃ needs refreshes syncs ends hooks, wCalls w' = needs ++ refreshes ++ syncs ++ ends ++ hooks ∧
        phaseCalls syncOf ["info"; "facts"; "metric"] syncs ∧
        (CSync "metric" SyncTypeForceCacheRefresh ∈ syncs →
           CRefresh "metric" SyncTypeForceCacheRefresh ∈ refreshes ∨ CIgnored "metric" ∈ needs ++ refreshes)
  | None => False
  end.
Proof.
  destruct (run _ _) as [[w' result]|] eqn:E; [|vm_compute in E; discriminate].
  destruct (calls_ordered (sampleEnvironment [] notDuplicated 5) sampleSynchronizers
              (sampleWorld (sampleNow + 1) sampleRequests) w' false false result
              (sample_preparesOk [] notDuplicated 5) (λ X, reflexivity _) sample_NoDup eq_refl E)
    as (needs & refreshes & syncs & ends & hooks & Hall & _ & _ & Hy & _ & _ & Hbefore).
  exists needs, refreshes, syncs, ends, hooks. split; [exact Hall|]. split; [exact Hy|]. apply Hbefore.
Defined.

Lemma full_sync_complete_witness :
  ∃ w' result,
    run (sampleEnvironment [] notDuplicated 5)
      (newExecution sampleSynchronizers false false (sampleWorld (sampleNow - 1) ∅)) = Some (w', result) ∧
    (result = runDone [] → ∀ k, k ∈ ["info"; "facts"; "metric"] →
       CSync k SyncTypeForceCacheRefresh ∈ wCalls w' ∨ requestedNow k SyncTypeForceCacheRefresh w' ∨
       CIgnored k ∈ wCalls w').
Proof.
  apply (full_sync_complete (sampleEnvironment [] notDuplicated 5) sampleSynchronizers
           (sampleWorld (sampleNow - 1) ∅) false false (sample_preparesOk [] notDuplicated 5) (λ X, reflexivity _)
           sample_NoDup eq_refl).
  vm_compute. reflexivity.
Defined.

(** A full synchronization can be counted without being made: whether one was
    due is asked again when the execution has ended.  Here it becomes due while
    the metrics are synchronized normally, no cache is refreshed, and yet the
    count is increased and the next one postponed by an hour. *)
Theorem full_sync_missed :
  let due := sampleNow + 1 in
  match runExecution (sampleEnvironment [] notDuplicated 5) sampleSynchronizers sampleNow false false (sampleWorld due ∅) with
  | Some (w, result) =>
      result = runDone [] ∧ syFullSyncCount (wS w) = 1 ∧ syNextFullSync (wS w) = due + 4 + Time.hour ∧
      omap (λ c, match c with CSync k t => Some (k, t) | _ => None end) (wCalls w) = [("metric", SyncTypeNormal)]
  | None => False
  end.
Proof. vm_compute. repeat split. Qed.

(** The check for a duplicated agent fails: every requested entity fails, and the
    request is gone. *)
Example failed_request_dropped :
  match run (sampleEnvironment [] (listFailed "503") 5)
          (newExecution sampleSynchronizers false false (sampleWorld (sampleNow + 1) sampleRequests)) with
  | Some (w, result) =>
      result = runDone [("metric", errEntity "503")] ∧ syForceSync (wS w) !! "metric" = None ∧
      omap syncOf (wCalls w) = []
  | None => False
  end.
Proof. vm_compute. repeat split. Qed.

(** A request an entity makes for itself while it is asked whether it needs a
    synchronization is overwritten when the call returns. *)
Example own_request_lost :
  match run (sampleEnvironment [aRequestSynchronization "metric" true; aRequestSynchronization "facts" true] notDuplicated 5)
          (newExecution sampleSynchronizers false false (sampleWorld (sampleNow + 1) ∅)) with
  | Some (w, _) =>
      omap (λ c, match c with CSync k t => Some (k, t) | _ => None end) (wCalls w)
      = [("facts", SyncTypeForceCacheRefresh); ("metric", SyncTypeNormal)]
  | None => False
  end.
Proof. vm_compute. reflexivity. Qed.
