(* ===== verification/ScrapeLoop.v ===== *)
(** When the sources of metrics are gathered (prometheus/registry/gatherer_loop.go and, in registry.go, the runs that are
    scheduled): the times a loop gives to its points, and the runs asked for with [ScheduleRun].

    The wall clock is read where the code reads it; the random order of equal times after [sort.Slice] is an argument. *)
From S2P Require Import Prelude.

#[local] Open Scope Z_scope.
#[local] Open Scope list_scope.

Definition gloutonMinimalInterval : Z := 10 * Time.second.

(** * The times of a loop *)
Section Loop.
(** [time.Time.UnixNano] and [time.Unix]. *)
Definition UnixNano (t : Z) : Z := Int.int64 (t - Time.unixEpoch).
Definition ofUnixNano (n : Z) : Z := Time.unixEpoch + n.

Definition scrapeLoopOffset (now interval jitterSeed : Z) : Z :=
  let nowNano := UnixNano now in
  let base := interval - Z.rem nowNano interval in
  let offset := jitterSeed mod interval in
  let next := Int.int64 (base + offset) in
  let next := if interval <? next then next - interval else next in
  ofUnixNano (Int.int64 (nowNano + next)).

(** [JitterForTime] *)
Definition JitterForTime (align interval : Z) : Z := Int.wrapU 64 (UnixNano align) mod interval.

(** The loop that catches up with ticks that were missed. *)
Fixpoint catchUp (fuel : nat) (scrapeTime interval aligned : Z) : Z :=
  match fuel with
  | O => aligned
  | S fuel => if interval <=? Time.Sub scrapeTime aligned then catchUp fuel scrapeTime interval (aligned + interval) else aligned
  end.

(** [runOnce]: the time of the points and the new aligned time. *)
Definition runOnce (interval aligned scrapeTime : Z) : Z * Z :=
  let aligned := catchUp (S (Z.to_nat ((scrapeTime - aligned) / interval))) scrapeTime interval aligned in
  (if Time.Sub scrapeTime aligned <=? Z.quot interval 4 then aligned else scrapeTime, aligned).

(** The times of the points of the runs at the given readings of the clock. *)
Fixpoint stamps (interval aligned : Z) (readings : list Z) : list Z :=
  match readings with
  | [] => []
  | now :: readings => let '(t, aligned) := runOnce interval aligned now in t :: stamps interval aligned readings
  end.

(** The times of a loop that starts at [start] and reads the clock at each run: at once when it is asked to, at each tick, and when it is
    triggered. *)
Definition run (interval jitterSeed start : Z) (readings : list Z) : list Z :=
  stamps interval (scrapeLoopOffset start interval jitterSeed) readings.
End Loop.

(** * The runs that are scheduled *)
Record ScheduleOption := mkScheduleOption { WantedTime : Z; SkipIfRunBefore : bool }.
(** A registration is a number. *)
Record reschedule := mkReschedule { rsID : Z; rsReg : nat; rsOption : ScheduleOption }.
Record registry := mkRegistry { registrations : gmap Z nat; reschedules : list reschedule }.

Section Schedule.
Variable sortSlice : (reschedule → reschedule → bool) → list reschedule → list reschedule.

Definition getRegistrationID (r : registry) (reg : nat) : option Z :=
  fst <$> base.filter (λ kv : Z * nat, kv.2 = reg) (map_to_list (registrations r)) !! 0%nat.

Definition notAfter (reg : nat) (t : Z) (row : reschedule) : bool := bool_decide (rsReg row = reg) && (WantedTime (rsOption row) <=? t).
Definition replaced (reg : nat) (t : Z) (row : reschedule) : bool :=
  bool_decide (rsReg row = reg) && (t <? WantedTime (rsOption row)) && SkipIfRunBefore (rsOption row).

Definition scheduleScrape (r : registry) (reg : nat) (o : ScheduleOption) : registry :=
  match getRegistrationID r reg with
  | None => r
  | Some id =>
      let hadOneBefore := existsb (notAfter reg (WantedTime o)) (reschedules r) in
      let rows := base.filter (λ row, replaced reg (WantedTime o) row = false) (reschedules r) in
      if hadOneBefore && SkipIfRunBefore o then mkRegistry (registrations r) rows
      else mkRegistry (registrations r)
             (sortSlice (λ a b, WantedTime (rsOption a) <? WantedTime (rsOption b)) (rows ++ [mkReschedule id reg o]))
  end.

(** The rows up to the first in the future, the registrations to run among them, and the rows left. *)
Fixpoint dueRows (regs : gmap Z nat) (now : Z) (rows : list reschedule) : list nat * list reschedule :=
  match rows with
  | [] => ([], [])
  | row :: rest =>
      if now <? WantedTime (rsOption row) then ([], rows)
      else
        let '(triggered, left_) := dueRows regs now rest in
        (if bool_decide (regs !! rsID row = Some (rsReg row)) then rsReg row :: triggered else triggered, left_)
  end.

(** [checkReschedule]: the registry, the registrations it runs and the time to wait; [now2] is the second reading of the clock. *)
Definition checkReschedule (r : registry) (now now2 : Z) : registry * list nat * Z :=
  let '(triggered, left_) := dueRows (registrations r) now (reschedules r) in
  (mkRegistry (registrations r) left_, triggered,
   match left_ with [] => 10 * Time.second | row :: _ => Z.max (Time.Sub (WantedTime (rsOption row)) now2) Time.second end).

(** What happens to the registry.  [None]: not possible; a registration is a new object, that no row names. *)
Inductive action :=
  | actRegister (id : Z) (reg : nat)
  | actUnregister (reg : nat)
  | actSchedule (reg : nat) (o : ScheduleOption)
  | actCheck (now now2 : Z).

(** The registry and the runs it triggered. *)
Definition act (s : registry * list nat) (a : action) : option (registry * list nat) :=
  let '(r, log) := s in
  match a with
  | actRegister id reg =>
      if bool_decide (registrations r !! id = None) && bool_decide (getRegistrationID r reg = None) &&
         negb (existsb (λ row, bool_decide (rsReg row = reg)) (reschedules r))
      then Some (mkRegistry (<[id := reg]> (registrations r)) (reschedules r), log) else None
  | actUnregister reg =>
      Some (match getRegistrationID r reg with Some id => mkRegistry (delete id (registrations r)) (reschedules r) | None => r end, log)
  | actSchedule reg o => Some (scheduleScrape r reg o, log)
  | actCheck now now2 => let '(r, triggered, _) := checkReschedule r now now2 in Some (r, log ++ triggered)
  end.

Fixpoint acts (s : registry * list nat) (l : list action) : option (registry * list nat) := match l with [] => Some s | a :: l => s ← act s a; acts s l end.
End Schedule.










(** * What is scheduled is run *)
Section Scheduled.
Variable sortSlice : (reschedule → reschedule → bool) → list reschedule → list reschedule.
Hypothesis sortSlice_perm : ∀ less l, sortSlice less l ≡ₚ l.
Hypothesis sortSlice_sorted : ∀ less l, strictWeakOrder less → sortedBy less (sortSlice less l).

Definition earlier (a b : reschedule) : bool := WantedTime (rsOption a) <? WantedTime (rsOption b).

Lemma earlier_order : strictWeakOrder earlier.
Proof. unfold earlier. split; [intros; apply Z.ltb_irrefl|]. split; intros a b c; [rewrite !Z.ltb_lt|rewrite !Z.ltb_ge]; lia. Qed.

Definition injective (m : gmap Z nat) : Prop := ∀ i j x, m !! i = Some x → m !! j = Some x → i = j.

Record okRegistry (r : registry) : Prop := {
  ok_sorted : sortedBy earlier (reschedules r);
  ok_injective : injective (registrations r);
  ok_rows : ∀ row id, row ∈ reschedules r → registrations r !! id = Some (rsReg row) → id = rsID row;
}.

Lemma getRegistrationID_spec (r : registry) (reg : nat) (id : Z) : okRegistry r → getRegistrationID r reg = Some id ↔ registrations r !! id = Some reg.
Proof.
  intros [_ Hinj _]. unfold getRegistrationID. set (l := base.filter _ _). assert (∀ kv, kv ∈ l ↔ kv.2 = reg ∧ registrations r !! kv.1 = Some kv.2) as Hl.
  { intros [k v]. unfold l. rewrite list_elem_of_filter, elem_of_map_to_list. done. }
  split.
  - destruct (l !! 0%nat) as [[k v]|] eqn:H0; [|done]. cbn. intros [= ->]. destruct (Hl (id, v)) as [H _]. destruct H as [Hv Hk]; [by eapply list_elem_of_lookup_2|]. cbn in *. by subst.
  - intros Hid. assert ((id, reg) ∈ l) as Hin by (by apply Hl). destruct l as [|[k v] l']; [by apply not_elem_of_nil in Hin|]. cbn. f_equal.
    destruct (Hl (k, v)) as [H _]. destruct H as [Hv Hk]; [by left|]. cbn in *. subst v. by apply (Hinj k id reg).
Qed.

Lemma dueRows_left (regs : gmap Z nat) (now : Z) (rows : list reschedule) : (dueRows regs now rows).2 `sublist_of` rows.
Proof.
  induction rows as [|row rows IH]; [done|]. cbn [dueRows]. destruct (_ <? _); [done|]. destruct (dueRows regs now rows) as [triggered left_]. cbn in *. by constructor.
Qed.

(** A row is due or left. *)
Lemma dueRows_spec (regs : gmap Z nat) (now : Z) (rows : list reschedule) (row : reschedule) :
  sortedBy earlier rows → row ∈ rows → regs !! rsID row = Some (rsReg row) →
  (WantedTime (rsOption row) ≤ now → rsReg row ∈ (dueRows regs now rows).1) ∧ (rsReg row ∈ (dueRows regs now rows).1 ∨ row ∈ (dueRows regs now rows).2).
Proof.
  intros Hs Hin Hreg. induction rows as [|x rows IH]; [by apply not_elem_of_nil in Hin|]. cbn [dueRows].
  assert (sortedBy earlier rows) as Hs' by (eapply sortedBy_sublist; [by apply sublist_cons|done]).
  destruct (Z.ltb_spec now (WantedTime (rsOption x))) as [Hlt|Hge].
  - cbn. split; [|by right]. intros Hw. apply elem_of_cons in Hin as [->|Hin]; [lia|]. apply list_elem_of_lookup in Hin as [i Hi].
    specialize (Hs 0%nat (S i) x row ltac:(lia) eq_refl Hi). apply Z.ltb_ge in Hs. lia.
  - apply elem_of_cons in Hin as [->|Hin].
    + destruct (dueRows regs now rows) as [triggered left_]. cbn. rewrite bool_decide_true by done. split; [intros _|left]; by left.
    + specialize (IH Hs' Hin). destruct (dueRows regs now rows) as [triggered left_]. cbn in *.
      assert (∀ y, y ∈ triggered → y ∈ (if bool_decide (regs !! rsID x = Some (rsReg x)) then rsReg x :: triggered else triggered)) as Hsub.
      { intros y Hy. case_bool_decide; [by right|done]. }
      destruct IH as [I1 [I2|I2]]; split; auto.
Qed.

(** A row that will run the registration in time. *)
Definition planned (r : registry) (reg : nat) (t : Z) : Prop :=
  ∃ row, row ∈ reschedules r ∧ rsReg row = reg ∧ registrations r !! rsID row = Some reg ∧ WantedTime (rsOption row) ≤ t.

(** The rows after a request. *)
Lemma scheduleScrape_spec (r : registry) (reg : nat) (id : Z) (o : ScheduleOption) :
  okRegistry r → registrations r !! id = Some reg →
  let r' := scheduleScrape sortSlice r reg o in
  registrations r' = registrations r ∧ sortedBy earlier (reschedules r') ∧
  (∀ row, row ∈ reschedules r' → row ∈ reschedules r ∨ row = mkReschedule id reg o) ∧
  (∀ row, row ∈ reschedules r → replaced reg (WantedTime o) row = false → row ∈ reschedules r') ∧
  planned r' reg (WantedTime o).
Proof.
  intros Hr Hid r'. unfold r', scheduleScrape. destruct (getRegistrationID r reg) as [id'|] eqn:Hget; [|by apply getRegistrationID_spec in Hid; [rewrite Hget in Hid|]].
  apply (getRegistrationID_spec r reg id' Hr) in Hget as Hid'. assert (id' = id) as -> by (by apply (ok_injective r Hr id' id reg)). destruct (_ && _) eqn:Hb; cbn [registrations reschedules].
  - split; [done|]. split; [eapply sortedBy_sublist; [apply sublist_filter|by apply ok_sorted]|]. split; [intros row; rewrite list_elem_of_filter; naive_solver|].
    split; [intros row; rewrite list_elem_of_filter; naive_solver|].
    apply andb_prop in Hb as [[x [Hx [Hx1%bool_decide_eq_true Hx2%Z.leb_le]%andb_prop]]%existsb_exists _]. apply list_elem_of_In in Hx. exists x. cbn. rewrite list_elem_of_filter.
    split; [split; [|done]|]. { unfold replaced. rewrite bool_decide_true by done. by rewrite (proj2 (Z.ltb_ge _ _)) by done. }
    rewrite <- (ok_rows r Hr x id Hx) by (by rewrite Hx1). done.
  - assert (∀ row, row ∈ sortSlice earlier (base.filter (λ row, replaced reg (WantedTime o) row = false) (reschedules r) ++ [mkReschedule id reg o]) ↔
      (replaced reg (WantedTime o) row = false ∧ row ∈ reschedules r) ∨ row = mkReschedule id reg o) as Hrows.
    { intros row. rewrite sortSlice_perm, elem_of_app, list_elem_of_filter, list_elem_of_singleton. done. }
    split; [done|]. split; [apply sortSlice_sorted, earlier_order|]. split; [intros row Hrow; apply Hrows in Hrow; naive_solver|].
    split; [intros row H1 H2; apply Hrows; naive_solver|]. exists (mkReschedule id reg o). cbn. split; [apply Hrows; by right|]. done.
Qed.

Lemma scheduleScrape_unknown (r : registry) (reg : nat) (o : ScheduleOption) : (∀ id, registrations r !! id ≠ Some reg) → okRegistry r → scheduleScrape sortSlice r reg o = r.
Proof.
  intros Hno Hr. unfold scheduleScrape. destruct (getRegistrationID r reg) as [id|] eqn:Hget; [|done]. apply getRegistrationID_spec in Hget; [|done]. by destruct (Hno id).
Qed.

(** A request replaces a row only when another runs the registration before. *)
Lemma scheduleScrape_planned (r : registry) (reg reg' : nat) (o : ScheduleOption) (t : Z) :
  okRegistry r → planned r reg' t → planned (scheduleScrape sortSlice r reg o) reg' t.
Proof.
  intros Hr (row & Hin & Hreg & Hid & Hw). destruct (getRegistrationID r reg) as [id|] eqn:Hget.
  - apply getRegistrationID_spec in Hget; [|done]. destruct (scheduleScrape_spec r reg id o Hr Hget) as (Hregs & _ & _ & Hkeep & Hp).
    destruct (replaced reg (WantedTime o) row) eqn:Hrep; [|exists row; rewrite Hregs; auto].
    unfold replaced in Hrep. apply andb_prop in Hrep as [[Hr1%bool_decide_eq_true Hr2%Z.ltb_lt]%andb_prop _].
    destruct Hp as (x & Hx & Hx1 & Hx2 & Hx3). exists x. rewrite <- Hreg, Hr1. repeat split; [done..|lia].
  - unfold scheduleScrape. rewrite Hget. by exists row.
Qed.

Lemma act_okRegistry (r r' : registry) (log log' : list nat) (a : action) : okRegistry r → act sortSlice (r, log) a = Some (r', log') → okRegistry r'.
Proof.
  intros Hr. destruct a as [id reg|reg|reg o|now now2]; cbn [act]; intros Ha.
  - destruct (_ && _) eqn:Hg; [|done]. injection Ha as <- _. apply andb_prop in Hg as [[Hg1%bool_decide_eq_true Hg2%bool_decide_eq_true]%andb_prop Hg3%negb_true_iff].
    assert (∀ i, registrations r !! i ≠ Some reg) as Hno by (intros i Hi; apply getRegistrationID_spec in Hi; [by rewrite Hg2 in Hi|done]).
    split; cbn; [by apply ok_sorted| |].
    + intros i j x. rewrite !lookup_insert_Some. intros [[<- <-]|[Hi1 Hi2]] [[Hj0 Hj]|[Hj1 Hj2]]; [done|by destruct (Hno j)|by subst; destruct (Hno i)|by apply (ok_injective r Hr i j x)].
    + intros row i Hrow. rewrite lookup_insert_Some. intros [[<- Heq]|[_ Hi]]; [|by apply (ok_rows r Hr)].
      exfalso. assert (existsb (λ row, bool_decide (rsReg row = reg)) (reschedules r) = true) as Hex; [|by rewrite Hex in Hg3].
      apply existsb_exists. exists row. split; [by apply list_elem_of_In|by rewrite bool_decide_true].
  - injection Ha as <- _. destruct (getRegistrationID r reg) as [id|]; [|done]. split; cbn; [by apply ok_sorted| |].
    + intros i j x. rewrite !lookup_delete_Some. intros [_ Hi] [_ Hj]. by apply (ok_injective r Hr i j x).
    + intros row i Hrow. rewrite lookup_delete_Some. intros [_ Hi]. by apply (ok_rows r Hr).
  - injection Ha as <- _. destruct (getRegistrationID r reg) as [id|] eqn:Hget; [|by unfold scheduleScrape; rewrite Hget].
    apply getRegistrationID_spec in Hget; [|done]. destruct (scheduleScrape_spec r reg id o Hr Hget) as (Hregs & Hs & Hrows & _ & _).
    split; rewrite ?Hregs; [done|by apply ok_injective|]. intros row i Hrow Hi. apply Hrows in Hrow as [Hrow| ->]; [by apply (ok_rows r Hr)|by apply (ok_injective r Hr i id reg)].
  - unfold checkReschedule in Ha. pose proof (dueRows_left (registrations r) now (reschedules r)) as Hleft. destruct (dueRows _ _ _) as [triggered left_]. injection Ha as <- _. cbn in Hleft.
    split; cbn; [eapply sortedBy_sublist; [done|by apply ok_sorted]|by apply ok_injective|].
    intros row i Hrow. apply (ok_rows r Hr). by eapply elem_of_sublist.
Qed.

Lemma acts_okRegistry (r r' : registry) (log log' : list nat) (l : list action) : okRegistry r → acts sortSlice (r, log) l = Some (r', log') → okRegistry r'.
Proof.
  revert r log. induction l as [|a l IH]; intros r log Hr Ha; [by injection Ha as <- _|]. cbn [acts] in Ha. apply bind_Some in Ha as ([r1 log1] & H1 & H2).
  eapply IH; [|exact H2]. by eapply act_okRegistry.
Qed.

(** What is planned stays so until it is run. *)
Lemma act_planned (r r' : registry) (log log' : list nat) (a : action) (reg : nat) (t : Z) :
  okRegistry r → planned r reg t → a ≠ actUnregister reg → act sortSlice (r, log) a = Some (r', log') →
  ∃ new, log' = log ++ new ∧ (reg ∈ new ∨ planned r' reg t).
Proof.
  intros Hr (row & Hin & Hreg & Hid & Hw) Hne. destruct a as [id reg'|reg'|reg' o|now now2]; cbn [act]; intros Ha.
  - destruct (_ && _) eqn:Hg; [|done]. injection Ha as <- <-. exists []. rewrite app_nil_r. split; [done|]. right. exists row. cbn. apply andb_prop in Hg as [[Hg1%bool_decide_eq_true _]%andb_prop _].
    rewrite lookup_insert_ne by (intros ->; congruence). done.
  - injection Ha as <- <-. exists []. rewrite app_nil_r. split; [done|]. right. destruct (getRegistrationID r reg') as [id|] eqn:Hget; [|by exists row].
    apply getRegistrationID_spec in Hget; [|done]. exists row. cbn. rewrite lookup_delete_ne by (intros ->; congruence). done.
  - injection Ha as <- <-. exists []. rewrite app_nil_r. split; [done|]. right. apply scheduleScrape_planned; [done|]. by exists row.
  - unfold checkReschedule in Ha. subst reg. destruct (dueRows_spec (registrations r) now (reschedules r) row (ok_sorted r Hr) Hin Hid) as [_ Hor].
    destruct (dueRows _ _ _) as [triggered left_]. injection Ha as <- <-. exists triggered. split; [done|]. destruct Hor as [Hor|Hor]; [by left|right]. by exists row.
Qed.

Lemma acts_log (r r' : registry) (log log' : list nat) (l : list action) : acts sortSlice (r, log) l = Some (r', log') → ∃ more, log' = log ++ more.
Proof.
  revert r log. induction l as [|a l IH]; intros r log Ha; [injection Ha as _ <-; exists []; by rewrite app_nil_r|].
  cbn [acts] in Ha. apply bind_Some in Ha as ([r1 log1] & H1 & H2). destruct (IH _ _ H2) as [more ->]. destruct a; cbn [act] in H1; try (injection H1 as _ <-; by exists more).
  - destruct (_ && _); [|done]. injection H1 as _ <-. by exists more.
  - destruct (checkReschedule r now now2) as [[r2 tr] d]. injection H1 as _ <-. exists (tr ++ more). by rewrite app_assoc.
Qed.

Lemma acts_app (s : registry * list nat) (l1 l2 : list action) : acts sortSlice s (l1 ++ l2) = (s' ← acts sortSlice s l1; acts sortSlice s' l2).
Proof. revert s. induction l1 as [|a l1 IH]; intros s; [done|]. cbn [app acts]. destruct (act sortSlice s a); [|done]. apply IH. Qed.

Lemma acts_planned (r r' : registry) (log log' : list nat) (l : list action) (reg : nat) (t : Z) :
  okRegistry r → planned r reg t → actUnregister reg ∉ l → acts sortSlice (r, log) l = Some (r', log') →
  ∃ new, log' = log ++ new ∧ (reg ∈ new ∨ planned r' reg t).
Proof.
  revert r log. induction l as [|a l IH]; intros r log Hr Hp Hl Ha.
  { injection Ha as <- <-. exists []. rewrite app_nil_r. auto. }
  cbn [acts] in Ha. apply bind_Some in Ha as ([r1 log1] & H1 & H2). apply not_elem_of_cons in Hl as [Hne Hl].
  assert (okRegistry r1) as Hr1 by (by eapply act_okRegistry).
  destruct (act_planned r r1 log log1 a reg t Hr Hp (not_eq_sym Hne) H1) as (new & -> & [Hnew|Hp1]).
  - destruct (acts_log _ _ _ _ _ H2) as [more ->]. exists (new ++ more). rewrite app_assoc. split; [done|]. left. apply elem_of_app. by left.
  - destruct (IH r1 (log ++ new) Hr1 Hp1 Hl H2) as (new2 & -> & Hor). exists (new ++ new2). rewrite app_assoc. split; [done|]. rewrite elem_of_app. tauto.
Qed.

Lemma okRegistry_empty : okRegistry (mkRegistry ∅ []).
Proof. split; cbn; [intros i j a b _ Ha; by rewrite lookup_nil in Ha|intros i j x Hi; by rewrite lookup_empty in Hi|intros row id Hrow; by apply not_elem_of_nil in Hrow]. Qed.

(** C16. A run that is asked for is run: whatever is registered, unregistered, asked for and run before and after, a registration that is
    registered when a run is asked for at a time, and is not unregistered since, is run between the request and the first check
    that reads this time or a later one, also when the request is merged into another one or replaced by another one. *)
Theorem scheduled_runs (l1 l2 : list action) (reg : nat) (o : ScheduleOption) (now now2 : Z) (r1 r2 : registry) (log1 log2 : list nat) :
  acts sortSlice (mkRegistry ∅ [], []) l1 = Some (r1, log1) → is_Some (getRegistrationID r1 reg) →
  acts sortSlice (r1, log1) (actSchedule reg o :: l2 ++ [actCheck now now2]) = Some (r2, log2) →
  actUnregister reg ∉ l2 → WantedTime o ≤ now → ∃ new, log2 = log1 ++ new ∧ reg ∈ new.
Proof.
  intros H1 [id Hid] H2 Hl2 Hnow. assert (okRegistry r1) as Hr1 by (by eapply acts_okRegistry; [apply okRegistry_empty|]). apply getRegistrationID_spec in Hid; [|done].
  destruct (scheduleScrape_spec r1 reg id o Hr1 Hid) as (_ & _ & _ & _ & Hp). cbn [acts act] in H2. cbn [mbind option_bind] in H2.
  set (r := scheduleScrape sortSlice r1 reg o) in *. assert (okRegistry r) as Hr by (by eapply (act_okRegistry r1 r log1 log1 (actSchedule reg o))).
  rewrite acts_app in H2. apply bind_Some in H2 as ([r3 log3] & H2 & H3).
  destruct (acts_planned r r3 log1 log3 l2 reg (WantedTime o) Hr Hp Hl2 H2) as (new & -> & [Hnew|(row & Hin & Hreg & Hrow & Hw)]).
  - destruct (acts_log _ _ _ _ _ H3) as [more ->]. exists (new ++ more). rewrite app_assoc, elem_of_app. auto.
  - assert (okRegistry r3) as Hr3 by (by eapply acts_okRegistry). cbn [acts act] in H3. unfold checkReschedule in H3. rewrite <- Hreg in Hrow.
    destruct (dueRows_spec (registrations r3) now (reschedules r3) row (ok_sorted r3 Hr3) Hin Hrow) as [Hdue _]. destruct (dueRows _ _ _) as [triggered left_].
    injection H3 as _ <-. exists (new ++ triggered). rewrite app_assoc, elem_of_app, <- Hreg. split; [done|]. right. apply Hdue. lia.
Qed.
End Scheduled.

(** * Concrete runs *)
Definition t0 : Z := Time.unixEpoch + 1700000000 * Time.second.

(** A loop of one minute that starts at 13:20 past the hour, with a jitter of 5 s. *)
Example stamps_example :
  (λ t, (t - t0) / Time.millisecond) <$> run (60 * Time.second) (5 * Time.second) t0 [t0 + 100 * Time.millisecond; t0 + 45 * Time.second; t0 + 60 * Time.second; t0 + 106 * Time.second; t0 + 300 * Time.second]
  = [45000; 45000; 45000; 105000; 285000].
Proof. vm_compute. reflexivity. Qed.


(** The clock is set back by five minutes: the points have the same time, in the future, until the clock has caught up. *)
Example clock_set_back :
  (λ t, (t - t0) / Time.second) <$> run (60 * Time.second) 0 t0 ((λ s, t0 + s * Time.second) <$> [40; 340; 100; 160; 220; 280; 340; 400])
  = [40; 340; 340; 340; 340; 340; 340; 400].
Proof. vm_compute. reflexivity. Qed.

(** A loop that is asked to run at once gives its first point a time up to an interval later, and the point of its first tick the same. *)
Example first_point_in_future :
  (λ t, (t - t0) / Time.second) <$> run (300 * Time.second) 0 t0 ((λ s, t0 + s * Time.second) <$> [0; 100; 400]) = [100; 100; 400].
Proof. vm_compute. reflexivity. Qed.

Definition schedule_l1 : list action :=
  [actRegister 1 10; actRegister 2 20; actSchedule 10 (mkScheduleOption (t0 + 300 * Time.second) true); actCheck t0 t0].
Definition schedule_l2 : list action :=
  [actCheck (t0 + 60 * Time.second) (t0 + 60 * Time.second); actUnregister 20; actSchedule 10 (mkScheduleOption (t0 + 200 * Time.second) true)].
Definition schedule_o : ScheduleOption := mkScheduleOption (t0 + 250 * Time.second) true.
Definition schedule_1 : registry * list nat := default (mkRegistry ∅ [], []) (acts mergeSort (mkRegistry ∅ [], []) schedule_l1).
Definition schedule_2 : registry * list nat :=
  default (mkRegistry ∅ [], []) (acts mergeSort schedule_1 (actSchedule 10 schedule_o :: schedule_l2 ++ [actCheck (t0 + 250 * Time.second) (t0 + 250 * Time.second)])).

(** The request for 250 s replaces that for 300 s and is replaced by that for 200 s. *)
Lemma scheduled_runs_witness : (∃ new, schedule_2.2 = schedule_1.2 ++ new ∧ 10%nat ∈ new) ∧ schedule_2.2 = [10%nat].
Proof.
  split; [|vm_compute; reflexivity].
  apply (scheduled_runs mergeSort mergeSort_perm mergeSort_sorted schedule_l1 schedule_l2 10 schedule_o (t0 + 250 * Time.second) (t0 + 250 * Time.second) schedule_1.1 schedule_2.1).
  - vm_compute. reflexivity.
  - vm_compute. by eexists.
  - vm_compute. reflexivity.
  - unfold schedule_l2. set_solver.
  - vm_compute. discriminate.
Defined.

(** The main loop waits for the first run that was asked for: a run asked for at an earlier time meanwhile is late. *)
Example earlier_request_waits :
  let r1 := scheduleScrape mergeSort (mkRegistry {[1 := 10%nat; 2 := 20%nat]} []) 10 (mkScheduleOption (t0 + 300 * Time.second) true) in
  let '(r2, _, wait) := checkReschedule r1 t0 t0 in
  let r3 := scheduleScrape mergeSort r2 20 (mkScheduleOption (t0 + 10 * Time.second) true) in
  wait = 300 * Time.second ∧ (checkReschedule r3 (t0 + wait) (t0 + wait)).1.2 = [20%nat; 10%nat].
Proof. vm_compute. split; reflexivity. Qed.
