(* ===== verification/Registrations.v ===== *)
(** The registrations of the metric registry and their loops (prometheus/registry/registry.go): [addRegistration], [unregister],
    [restartScrapeLoop], [restartLoop], [startLoops], [stopAllLoops], [UpdateRegistrationHooks], [pushPoint], [runNow] and [Run], as
    the goroutines that call them interleave.

    A goroutine is the list of the sections of code it has still to run, each under the locks [Registry.l] and [registration.l], and
    the loops it has taken and waits for; [startStopLock] is held across sections, and is part of the state.  The hooks are a number:
    the points that a gatherer or a push labels have the number of the hooks that were used. *)
From S2P Require Import Prelude.

#[local] Open Scope list_scope.

(** * State *)
Record registration := mkRegistration {
  registered : bool;
  removalRequested : bool;
  restartInProgress : bool;
  runOnStart : bool;
  rloop : option nat;
  (** The hooks that gave the labels of the gatherer. *)
  hookUsed : nat;
  closed : bool;
  (** The number of calls to [StopCallback]. *)
  stopCalls : nat;
}.

(** Where the goroutine of a loop is: between runs, about to gather, gathering or about to push points labelled with some hooks, ended. *)
Inductive loopPc := LWait | LReady | LGather (h : nat) | LPush (h : nat) | LExited.
Record scrapeLoop := mkLoop { lreg : nat; cancelled : bool; trigger : bool; lpc : loopPc }.

Inductive op :=
  | opLock | opUnlock
  | opStart
  | opRestartScrape (r : nat)
  | opStopAll (action : option (nat * bool))
  | opReadRunning (v : nat)
  | opBlock
  | opSetHooks (v : nat)
  | opRestartRead (r : nat)
  | opRestartTake (r : nat) (stopping : bool)
  | opStartLoop (r : nat) (reset : bool)
  | opDelete (r : nat)
  | opTake (r : nat)
  | opClose (r : nat)
  | opStopCallback (r : nat)
  | opUnregisterAll
  | opPushBegin
  | opPush (h : nat)
  | opPushEnd.

Record thread := mkThread { tWaits : list nat; tOps : list op }.

(** A call to [Option.PushPoint]: whether it comes from [pushPoint] or the loop of a registration that is registered, the hooks
    that labelled the points and the current ones. *)
Record push := mkPush { fromRegistered : bool; labelled : nat; current : nat }.

Record Registry := mkRegistry {
  running : bool;
  startStopLock : option nat;
  (** The goroutine of [Run], and whether its context has ended. *)
  runner : option nat;
  ended : bool;
  blockPushPoint : bool;
  countPushPoints : nat;
  hook : nat;
  registrations : list registration;
  loops : list scrapeLoop;
  threads : list thread;
  pushes : list push;
}.

Definition init : Registry := mkRegistry false None None false false 0 0 [] [] [] [].

Definition setRegistrations (l : list registration) (s : Registry) : Registry :=
  mkRegistry (running s) (startStopLock s) (runner s) (ended s) (blockPushPoint s) (countPushPoints s) (hook s) l (loops s) (threads s) (pushes s).
Definition setLoops (l : list scrapeLoop) (s : Registry) : Registry :=
  mkRegistry (running s) (startStopLock s) (runner s) (ended s) (blockPushPoint s) (countPushPoints s) (hook s) (registrations s) l (threads s) (pushes s).
Definition setThreads (l : list thread) (s : Registry) : Registry :=
  mkRegistry (running s) (startStopLock s) (runner s) (ended s) (blockPushPoint s) (countPushPoints s) (hook s) (registrations s) (loops s) l (pushes s).
Definition setRunning (b : bool) (s : Registry) : Registry :=
  mkRegistry b (startStopLock s) (runner s) (ended s) (blockPushPoint s) (countPushPoints s) (hook s) (registrations s) (loops s) (threads s) (pushes s).
Definition setLock (o : option nat) (s : Registry) : Registry :=
  mkRegistry (running s) o (runner s) (ended s) (blockPushPoint s) (countPushPoints s) (hook s) (registrations s) (loops s) (threads s) (pushes s).
Definition setRunner (o : option nat) (e : bool) (s : Registry) : Registry :=
  mkRegistry (running s) (startStopLock s) o e (blockPushPoint s) (countPushPoints s) (hook s) (registrations s) (loops s) (threads s) (pushes s).
Definition setPush (b : bool) (n : nat) (s : Registry) : Registry :=
  mkRegistry (running s) (startStopLock s) (runner s) (ended s) b n (hook s) (registrations s) (loops s) (threads s) (pushes s).
Definition setHook (h : nat) (s : Registry) : Registry :=
  mkRegistry (running s) (startStopLock s) (runner s) (ended s) (blockPushPoint s) (countPushPoints s) h (registrations s) (loops s) (threads s) (pushes s).
Definition addPush (p : push) (s : Registry) : Registry :=
  mkRegistry (running s) (startStopLock s) (runner s) (ended s) (blockPushPoint s) (countPushPoints s) (hook s) (registrations s) (loops s) (threads s) (pushes s ++ [p]).

(** The other fields of a registration are kept. *)
Definition setLoop (o : option nat) (g : registration) : registration :=
  mkRegistration (registered g) (removalRequested g) (restartInProgress g) (runOnStart g) o (hookUsed g) (closed g) (stopCalls g).
(** [setupGatherer]: the gatherer is a new one. *)
Definition setHookUsed (h : nat) (g : registration) : registration :=
  mkRegistration (registered g) (removalRequested g) (restartInProgress g) (runOnStart g) (rloop g) h false (stopCalls g).

Definition registeredIds (s : Registry) : list nat :=
  base.filter (λ r, (registered <$> registrations s !! r) = Some true) (seq 0 (length (registrations s))).

(** * Sections of code *)
(** [startScrapeLoop], assigned to the loop of the registration; [reset] clears the flags that [restartScrapeLoop] clears. *)
Definition startLoop (r : nat) (reset : bool) (s : Registry) : Registry :=
  match registrations s !! r with
  | None => s
  | Some g =>
      let l := length (loops s) in
      let g' := mkRegistration (registered g) (removalRequested g) (if reset then false else restartInProgress g) (if reset then false else runOnStart g)
                  (Some l) (hookUsed g) (closed g) (stopCalls g) in
      setLoops (loops s ++ [mkLoop r false false (if runOnStart g then LReady else LWait)]) (setRegistrations (<[r := g']> (registrations s)) s)
  end.

(** [restartScrapeLoop] up to the wait for the previous loop: the state, the loop to stop and what is left to do. *)
Definition restartScrapeLoop (r : nat) (s : Registry) : Registry * list nat * list op :=
  match registrations s !! r with
  | None => (s, [], [])
  | Some g =>
      if removalRequested g then (s, [], []) else
      if restartInProgress g then (s, [], []) else
      match rloop g with
      | Some l =>
          (setRegistrations (<[r := mkRegistration (registered g) (removalRequested g) true (runOnStart g) None (hookUsed g) (closed g) (stopCalls g)]> (registrations s)) s,
           [l], [opStartLoop r true])
      | None => (startLoop r true s, [], [])
      end
  end.

(** [restartLoop] up to the wait. *)
Definition restartLoop (r : nat) (stopping : bool) (s : Registry) : Registry * list nat * list op :=
  match registrations s !! r with
  | None => (s, [], [])
  | Some g =>
      match rloop g with
      | Some l => (setRegistrations (<[r := setLoop None g]> (registrations s)) s, [l], if stopping then [] else [opStartLoop r false])
      | None => (if stopping then s else startLoop r false s, [], [])
      end
  end.

(** [stopAllLoopsInner] up to the wait: the loops of the registrations are cancelled and taken. *)
Definition stopAllLoopsInner (s : Registry) : Registry * list nat :=
  let taken := omap (λ r, registrations s !! r ≫= rloop) (registeredIds s) in
  (setRunning false
     (setLoops (imap (λ l lp, if bool_decide (l ∈ taken) then mkLoop (lreg lp) true (trigger lp) (lpc lp) else lp) (loops s))
        (setRegistrations ((λ g, if registered g then setLoop None g else g) <$> registrations s) s)),
   taken).

(** [updateHooks], once no push is pending. *)
Definition updateHooks (v : nat) (s : Registry) : Registry :=
  setPush false (countPushPoints s) (setHook v (setRegistrations ((λ g, if registered g then setHookUsed v g else g) <$> registrations s) s)).

(** [unregisterInner] up to the wait. *)
Definition unregisterInner (r : nat) (s : Registry) : Registry * list nat :=
  match registrations s !! r with
  | None => (s, [])
  | Some g =>
      (setRegistrations (<[r := mkRegistration (registered g) true (restartInProgress g) (runOnStart g) None (hookUsed g) (closed g) (stopCalls g)]> (registrations s)) s,
       match rloop g with Some l => [l] | None => [] end)
  end.

Definition setThread (t : nat) (th : thread) (s : Registry) : Registry := setThreads (<[t := th]> (threads s)) s.

(** The goroutine [t] runs the section [o]; [ops] is what it has to run after it.  [None]: it is blocked. *)
Definition runOp (s : Registry) (t : nat) (o : op) (ops : list op) : option Registry :=
  match o with
  | opLock => match startStopLock s with None => Some (setThread t (mkThread [] ops) (setLock (Some t) s)) | Some _ => None end
  | opUnlock => Some (setThread t (mkThread [] ops) (setLock None s))
  | opStart => Some (setThread t (mkThread [] ((opRestartScrape <$> registeredIds s) ++ ops)) (setRunning true s))
  | opRestartScrape r => let '(s, waits, more) := restartScrapeLoop r s in Some (setThread t (mkThread waits (more ++ ops)) s)
  | opReadRunning v => Some (setThread t (mkThread [] (opStopAll (Some (v, running s)) :: ops)) s)
  | opStopAll action =>
      let '(s, waits) := stopAllLoopsInner s in
      Some (setThread t (mkThread waits (match action with None => [] | Some (v, needToStart) => [opBlock; opSetHooks v] ++ (if needToStart then [opStart] else []) end ++ ops)) s)
  | opBlock => Some (setThread t (mkThread [] ops) (setPush true (countPushPoints s) s))
  | opSetHooks v => if bool_decide (countPushPoints s = 0%nat) then Some (setThread t (mkThread [] ops) (updateHooks v s)) else None
  | opRestartRead r => Some (setThread t (mkThread [] (opRestartTake r (negb (running s)) :: ops)) s)
  | opRestartTake r stopping => let '(s, waits, more) := restartLoop r stopping s in Some (setThread t (mkThread waits (more ++ ops)) s)
  | opStartLoop r reset => Some (setThread t (mkThread [] ops) (startLoop r reset s))
  | opDelete r =>
      match registrations s !! r with
      | Some g =>
          if registered g
          then Some (setThread t (mkThread [] (opTake r :: ops))
                 (setRegistrations (<[r := mkRegistration false (removalRequested g) (restartInProgress g) (runOnStart g) (rloop g) (hookUsed g) (closed g) (stopCalls g)]> (registrations s)) s))
          else Some (setThread t (mkThread [] ops) s)
      | None => None
      end
  | opTake r => let '(s, waits) := unregisterInner r s in Some (setThread t (mkThread waits (opClose r :: opStopCallback r :: ops)) s)
  | opClose r =>
      g ← registrations s !! r;
      Some (setThread t (mkThread [] ops)
        (setRegistrations (<[r := mkRegistration (registered g) (removalRequested g) (restartInProgress g) (runOnStart g) (rloop g) (hookUsed g) true (stopCalls g)]> (registrations s)) s))
  | opStopCallback r =>
      g ← registrations s !! r;
      Some (setThread t (mkThread [] ops)
        (setRegistrations (<[r := mkRegistration (registered g) (removalRequested g) (restartInProgress g) (runOnStart g) (rloop g) (hookUsed g) (closed g) (S (stopCalls g))]> (registrations s)) s))
  | opUnregisterAll => Some (setThread t (mkThread [] ((opTake <$> registeredIds s) ++ ops)) s)
  | opPushBegin => if blockPushPoint s then None else Some (setThread t (mkThread [] (opPush (hook s) :: opPushEnd :: ops)) (setPush false (S (countPushPoints s)) s))
  | opPush h => Some (setThread t (mkThread [] ops) (addPush (mkPush true h (hook s)) s))
  | opPushEnd => Some (setThread t (mkThread [] ops) (setPush (blockPushPoint s) (pred (countPushPoints s)) s))
  end.

(** A goroutine stops the loops it has taken, one after the other, before it goes on. *)
Definition runThread (s : Registry) (t : nat) : option Registry :=
  th ← threads s !! t;
  match tWaits th, tOps th with
  | l :: waits, ops =>
      lp ← loops s !! l;
      if cancelled lp then if lpc lp is LExited then Some (setThread t (mkThread waits ops) s) else None
      else Some (setLoops (<[l := mkLoop (lreg lp) true (trigger lp) (lpc lp)]> (loops s)) s)
  | [], o :: ops => runOp s t o ops
  | [], [] => None
  end.

(** What a loop does: run on a tick, on its trigger or at its start, gather, be skipped, end a gather, abandon it, push, end. *)
Inductive loopStep := lsRun | lsGather | lsSkip | lsDone | lsAbandon | lsPush | lsExit.

Definition runLoop (s : Registry) (l : nat) (c : loopStep) : option Registry :=
  lp ← loops s !! l;
  g ← registrations s !! lreg lp;
  let go (pc : loopPc) := mkLoop (lreg lp) (cancelled lp) (trigger lp) pc in
  match c, lpc lp with
  | lsRun, LWait => if cancelled lp then None else Some (setLoops (<[l := go LReady]> (loops s)) s)
  | lsGather, LReady => Some (setLoops (<[l := mkLoop (lreg lp) (cancelled lp) false (LGather (hookUsed g))]> (loops s)) s)
  | lsSkip, LReady => Some (setLoops (<[l := mkLoop (lreg lp) (cancelled lp) false LWait]> (loops s)) s)
  | lsDone, LGather h => Some (setLoops (<[l := go (LPush h)]> (loops s)) s)
  | lsAbandon, LGather h => if cancelled lp then Some (setLoops (<[l := go LWait]> (loops s)) s) else None
  | lsPush, LPush h => Some (addPush (mkPush (registered g) h (hook s)) (setLoops (<[l := go LWait]> (loops s)) s))
  | lsExit, LWait => if cancelled lp then Some (setLoops (<[l := go LExited]> (loops s)) s) else None
  | _, _ => None
  end.

(** [runNow] *)
Definition runNow (s : Registry) (r : nat) : option Registry :=
  g ← registrations s !! r;
  match rloop g with
  | None => Some (setRegistrations (<[r := mkRegistration (registered g) (removalRequested g) (restartInProgress g) true (rloop g) (hookUsed g) (closed g) (stopCalls g)]> (registrations s)) s)
  | Some l => lp ← loops s !! l; Some (setLoops (<[l := mkLoop (lreg lp) (cancelled lp) true (lpc lp)]> (loops s)) s)
  end.

(** [addRegistration]; the registration is new, so that [restartScrapeLoop] does not wait. *)
Definition addRegistration (s : Registry) : Registry :=
  let s' := setRegistrations (registrations s ++ [mkRegistration true false false false None (hook s) false 0]) s in
  if running s then startLoop (length (registrations s)) true s' else s'.

Definition spawn (ops : list op) (s : Registry) : Registry := setThreads (threads s ++ [mkThread [] ops]) s.

Inductive action :=
  | actRegister
  | actUnregister (r : nat)
  | actUpdateHooks (v : nat)
  | actPush
  | actRunNow (r : nat)
  (** A gather finds that the labels of the registration are to be computed again. *)
  | actRetry (r : nat) (intervalChanged : bool)
  | actRun
  | actEnd
  | actThread (t : nat)
  | actLoop (l : nat) (c : loopStep).

(** [Run] is called once; [actEnd] is the end of its context. *)
Definition act (s : Registry) (a : action) : option Registry :=
  match a with
  | actRegister => Some (addRegistration s)
  | actUnregister r => if bool_decide (r < length (registrations s))%nat then Some (spawn [opDelete r] s) else None
  | actUpdateHooks v => Some (spawn [opLock; opReadRunning v; opUnlock] s)
  | actPush => Some (spawn [opPushBegin] s)
  | actRunNow r => runNow s r
  | actRetry r intervalChanged =>
      g ← registrations s !! r;
      let s := setRegistrations (<[r := setHookUsed (hook s) g]> (registrations s)) s in
      Some (if bool_decide (rloop g = None) || intervalChanged then spawn [opLock; opRestartRead r; opUnlock] s else s)
  | actRun => if runner s is None then Some (setRunner (Some (length (threads s))) false (spawn [opLock; opStart; opUnlock] s)) else None
  | actEnd =>
      t ← runner s;
      th ← threads s !! t;
      match tWaits th, tOps th with
      | [], [] => if ended s then None else Some (setRunner (Some t) true (setThread t (mkThread [] [opLock; opStopAll None; opUnlock; opUnregisterAll]) s))
      | _, _ => None
      end
  | actThread t => runThread s t
  | actLoop l c => runLoop s l c
  end.

Fixpoint acts (s : Registry) (l : list action) : option Registry := match l with [] => Some s | a :: l => s ← act s a; acts s l end.

(** * The invariant *)
Section Invariant.
(** A loop of the registration that has not ended. *)
Definition Live (s : Registry) (r l : nat) : Prop := ∃ lp, loops s !! l = Some lp ∧ lreg lp = r ∧ lpc lp ≠ LExited.
Definition waited (s : Registry) (l : nat) : Prop := ∃ t th, threads s !! t = Some th ∧ l ∈ tWaits th.
Definition has (s : Registry) (t : nat) (o : op) : Prop := ∃ th, threads s !! t = Some th ∧ o ∈ tOps th.

(** The loops are stopped for good. *)
Definition final (s : Registry) : Prop := ∃ t th, runner s = Some t ∧ ended s = true ∧ threads s !! t = Some th ∧ ∀ a, opStopAll a ∉ tOps th.

(** What is run with the lock: the goroutine that holds it is in one of these places. *)
Inductive work : list op → Prop :=
  | work_scrapes ids : NoDup ids → work (opRestartScrape <$> ids)
  | work_startLoop r : work [opStartLoop r false]
  | work_start : work [opStart]
  | work_read v : work [opReadRunning v]
  | work_stopAll a : work [opStopAll a]
  | work_block v k : (k = [] ∨ k = [opStart]) → work (opBlock :: opSetHooks v :: k)
  | work_set v k : (k = [] ∨ k = [opStart]) → work (opSetHooks v :: k)
  | work_restartRead r : work [opRestartRead r]
  | work_restartTake r b : work [opRestartTake r b].

Inductive firstWork : op → Prop :=
  | first_start : firstWork opStart
  | first_read v : firstWork (opReadRunning v)
  | first_stopAll : firstWork (opStopAll None)
  | first_restartRead r : firstWork (opRestartRead r).

Definition freeOp (o : op) : Prop :=
  match o with opDelete _ | opTake _ | opClose _ | opStopCallback _ | opUnregisterAll | opPushBegin | opPush _ | opPushEnd => True | _ => False end.
Definition tailOps (l : list op) : Prop := l = [] ∨ l = [opUnregisterAll].

Definition holding (ops : list op) : Prop := ∃ b tail, ops = b ++ opUnlock :: tail ∧ work b ∧ tailOps tail.
Definition waitingLock (th : thread) : Prop := ∃ o tail, th = mkThread [] (opLock :: o :: opUnlock :: tail) ∧ firstWork o ∧ tailOps tail.

Definition pushOps (ops : list op) : Prop :=
  (∀ h, opPush h ∈ ops → ops = [opPush h; opPushEnd]) ∧ (opPushEnd ∈ ops → ops = [opPushEnd] ∨ ∃ h, ops = [opPush h; opPushEnd]) ∧ (opPushBegin ∈ ops → ops = [opPushBegin]).

Definition stopped (s : Registry) (r : nat) : Prop := ∃ g, registrations s !! r = Some g ∧ rloop g = None.

(** What holds when a section is still to run. *)
Definition opOk (s : Registry) (t : nat) (o : op) : Prop :=
  match o with
  | opStartLoop r _ | opRestartScrape r => running s = true ∧ stopped s r
  | opRestartTake r st => (r < length (registrations s))%nat ∧ st = negb (running s)
  | opRestartRead r | opDelete r | opClose r | opStopCallback r => (r < length (registrations s))%nat
  | opBlock | opSetHooks _ => running s = false
  | opStart => running s = false ∧ (startStopLock s = Some t ∨ runner s = Some t ∧ ended s = false)
  | opReadRunning _ => runner s ≠ Some t
  | opStopAll (Some (_, need)) => need = running s ∧ runner s ≠ Some t
  | opStopAll None => runner s = Some t ∧ ended s = true
  | opTake r => ∃ g, registrations s !! r = Some g ∧ (registered g = true → final s)
  | opUnregisterAll => runner s = Some t ∧ ended s = true
  | opPush h => h = hook s
  | _ => True
  end.

Definition waitOk (s : Registry) (t l : nat) : Prop :=
  ∃ lp g, loops s !! l = Some lp ∧ registrations s !! lreg lp = Some g ∧ rloop g ≠ Some l ∧
    (startStopLock s = Some t ∨ removalRequested g = true ∧ registered g = false).

Record threadOk (s : Registry) (t : nat) (th : thread) : Prop := {
  t_holds : startStopLock s = Some t → holding (tOps th);
  t_free : startStopLock s ≠ Some t → waitingLock th ∨ Forall freeOp (tOps th);
  t_waits : ∀ l, l ∈ tWaits th → waitOk s t l;
  t_ops : ∀ o, o ∈ tOps th → opOk s t o;
  t_push : pushOps (tOps th);
}.

Definition pushing (th : thread) : Prop := opPushEnd ∈ tOps th.
#[global] Instance loopPc_dec : EqDecision loopPc.
Proof. solve_decision. Defined.
#[global] Instance op_dec : EqDecision op.
Proof. solve_decision. Defined.
#[global] Instance pushing_dec (th : thread) : Decision (pushing th).
Proof. unfold pushing. apply _. Defined.

Definition hooked (s : Registry) (lp : scrapeLoop) : Prop := match lpc lp with LGather h | LPush h => h = hook s | _ => True end.

(** The goroutines. *)
Record schedOk (s : Registry) : Prop := {
  i_threads : ∀ t th, threads s !! t = Some th → threadOk s t th;
  i_lock : ∀ t, startStopLock s = Some t → (t < length (threads s))%nat;
  i_runner : ∀ t, runner s = Some t → (t < length (threads s))%nat;
  i_start : ∀ t t', has s t opStart → has s t' opStart → t = t';
  i_final : final s → running s = false ∧ ∀ t, ¬ has s t opStart;
  i_norun : runner s = None → running s = false ∧ ∀ t, ¬ has s t opStart;
  i_count : countPushPoints s = length (base.filter pushing (threads s));
  i_block : blockPushPoint s = true → ∃ t v, startStopLock s = Some t ∧ has s t (opSetHooks v);
  i_pushes : Forall (λ p, fromRegistered p = true → labelled p = current p) (pushes s);
}.

(** A registration, and its loops. *)
Record regOk (s : Registry) (r : nat) (g : registration) : Prop := {
  i_stopped : running s = false → registered g = true → rloop g = None;
  i_running : running s = true → registered g = true →
    is_Some (rloop g) ∨ ∃ t b, startStopLock s = Some t ∧ (has s t (opRestartScrape r) ∨ has s t (opStartLoop r b));
  i_progress : restartInProgress g = false;
  i_removal : registered g = true → removalRequested g = true → final s;
  i_deleted : registered g = false → removalRequested g = false → ∃ t, has s t (opTake r);
  i_hook : registered g = true → hookUsed g = hook s;
  i_loop : ∀ l, rloop g = Some l → ∃ lp, loops s !! l = Some lp ∧ lreg lp = r ∧ cancelled lp = false ∧ lpc lp ≠ LExited;
  i_live : ∀ l, Live s r l → rloop g = Some l ∨ waited s l;
  i_one : removalRequested g = false → ∀ l1 l2, Live s r l1 → Live s r l2 → l1 = l2;
}.

Definition loopOk (s : Registry) (lp : scrapeLoop) : Prop := ∃ g, registrations s !! lreg lp = Some g ∧ (registered g = true → hooked s lp).

Record Inv (s : Registry) : Prop := {
  i_sched : schedOk s;
  i_regs : ∀ r g, registrations s !! r = Some g → regOk s r g;
  i_loops : ∀ l lp, loops s !! l = Some lp → loopOk s lp;
}.
End Invariant.

(** * One goroutine moves *)
Section Frame.
Record evolves (s s' : Registry) (t : nat) (th : thread) : Prop := {
  e_lock : startStopLock s = Some t ↔ startStopLock s' = Some t;
  e_running : startStopLock s = Some t → running s' = running s;
  e_start : opStart ∈ tOps th → running s' = false;
  e_runner : runner s = Some t ↔ runner s' = Some t;
  e_ended : runner s = Some t → ended s' = ended s;
  e_regs : ∀ r g, registrations s !! r = Some g → ∃ g', registrations s' !! r = Some g' ∧ (registered g' = true → registered g = true) ∧
    (removalRequested g = true → removalRequested g' = true) ∧
    (∀ l, rloop g ≠ Some l → (l < length (loops s))%nat → rloop g' ≠ Some l) ∧ (startStopLock s = Some t → rloop g = None → rloop g' = None);
  e_loops : ∀ l lp, loops s !! l = Some lp → ∃ lp', loops s' !! l = Some lp' ∧ lreg lp' = lreg lp;
  e_hook : hook s' = hook s ∨ ∀ h, opPush h ∉ tOps th;
  e_final : final s → final s';
}.

Lemma evolves_length (s s' : Registry) (t : nat) (th : thread) (r : nat) : evolves s s' t th → (r < length (registrations s))%nat → (r < length (registrations s'))%nat.
Proof.
  intros He Hr. apply lookup_lt_is_Some_2 in Hr as [g Hg]. destruct (e_regs _ _ _ _ He r g Hg) as (g' & Hg' & _). by eapply lookup_lt_Some.
Qed.

Lemma holding_ops (ops : list op) (o : op) : holding ops → o ∈ ops → match o with opLock | opDelete _ | opTake _ | opClose _ | opStopCallback _ | opPushBegin | opPush _ | opPushEnd | opStartLoop _ true => False | _ => True end.
Proof.
  intros (b & tail & -> & Hb & Ht). rewrite elem_of_app, elem_of_cons. intros [Ho|[->|Ho]]; [|done|by destruct Ht as [-> | ->]; [apply not_elem_of_nil in Ho|apply list_elem_of_singleton in Ho; subst]].
  destruct Hb as [ids Hnd|r| | | |v k Hk|v k Hk| |].
  1: by apply list_elem_of_fmap in Ho as (r & -> & _).
  all: repeat (apply elem_of_cons in Ho as [->|Ho]; [done|]); try by apply not_elem_of_nil in Ho.
  all: destruct Hk as [-> | ->]; [by apply not_elem_of_nil in Ho|by apply list_elem_of_singleton in Ho; subst].
Qed.

Lemma idle_ops (th : thread) (o : op) : waitingLock th ∨ Forall freeOp (tOps th) → o ∈ tOps th →
  o = opLock ∨ o = opUnlock ∨ firstWork o ∨ freeOp o.
Proof.
  intros [(o1 & tail & -> & Hf & Ht)|Hf] Ho; [|right; right; right; rewrite Forall_forall in Hf; auto]. cbn in Ho.
  apply elem_of_cons in Ho as [->|Ho]; [auto|]. apply elem_of_cons in Ho as [->|Ho]; [auto|]. apply elem_of_cons in Ho as [->|Ho]; [auto|].
  destruct Ht as [-> | ->]; [by apply not_elem_of_nil in Ho|]. apply list_elem_of_singleton in Ho as ->. do 3 right. done.
Qed.

Lemma threadOk_evolves (s s' : Registry) (t : nat) (th : thread) : threadOk s t th → evolves s s' t th → threadOk s' t th.
Proof.
  intros Ht He. split.
  - rewrite <- (e_lock _ _ _ _ He). apply Ht.
  - rewrite <- (e_lock _ _ _ _ He). apply Ht.
  - intros l Hl. destruct (t_waits _ _ _ Ht l Hl) as (lp & g & Hlp & Hg & Hne & Hor). destruct (e_loops _ _ _ _ He l lp Hlp) as (lp' & Hlp' & Hreg).
    destruct (e_regs _ _ _ _ He _ g Hg) as (g' & Hg' & Hr1 & Hr2 & Hr3 & Hr4). exists lp', g'. rewrite Hreg. split; [done|]. split; [done|].
    split; [apply Hr3; [done|by eapply lookup_lt_Some]|]. destruct Hor as [Hor|[Hor1 Hor2]]; [left; by apply (e_lock _ _ _ _ He)|right].
    split; [auto|]. destruct (registered g') eqn:H'; [|done]. by rewrite Hr1 in Hor2.
  - intros o Ho. pose proof (t_ops _ _ _ Ht o Ho) as Hok. pose proof (λ r, evolves_length s s' t th r He) as Hlen. destruct (decide (startStopLock s = Some t)) as [Hl|Hl].
    + pose proof (holding_ops _ _ (t_holds _ _ _ Ht Hl) Ho) as Hh. pose proof (e_running _ _ _ _ He Hl) as Hrun. pose proof (proj1 (e_lock _ _ _ _ He) Hl) as Hl'.
      destruct o as [| | |r|[[v need]|]| | | | |r st|r []|r|r| | | | | |]; cbn in Hok |- *; rewrite ?Hrun; try done; try (by apply Hlen); try (by rewrite <- (e_runner _ _ _ _ He));
        try (destruct Hok as [Hok1 (g & Hg & Hn)]; split; [done|]; destruct (e_regs _ _ _ _ He r g Hg) as (g' & Hg' & _ & _ & _ & Hr4); exists g'; auto; fail); try (destruct Hok as [Hok1 Hok2]; split; [by auto|first [by auto|by rewrite <- (e_runner _ _ _ _ He)]]; fail).
      all: destruct Hok as [Hok1 Hok2]; rewrite (e_ended _ _ _ _ He Hok1); split; [by apply (e_runner _ _ _ _ He)|done].
    + pose proof (idle_ops th o (t_free _ _ _ Ht Hl) Ho) as Hi.
      destruct o as [| | |r|[[v need]|]| | | | |r st|r rs|r|r| | | | | |]; cbn in Hok |- *; try (by destruct Hi as [Hi|[Hi|[Hi|Hi]]]; first [done|inversion Hi]); auto.
      * destruct Hok as [Hok1 [Hok2|[Hok2 Hok3]]]; [done|]. split; [by apply (e_start _ _ _ _ He)|right]. rewrite (e_ended _ _ _ _ He Hok2). split; [by apply (e_runner _ _ _ _ He)|done].
      * destruct Hok as [Hok1 Hok2]; rewrite (e_ended _ _ _ _ He Hok1); split; [by apply (e_runner _ _ _ _ He)|done].
      * by rewrite <- (e_runner _ _ _ _ He).
      * destruct Hok as (g & Hg & Hf). destruct (e_regs _ _ _ _ He r g Hg) as (g' & Hg' & Hr1 & _). exists g'. split; [done|]. intros Hr'. apply (e_final _ _ _ _ He). auto.
      * destruct Hok as [Hok1 Hok2]; rewrite (e_ended _ _ _ _ He Hok1); split; [by apply (e_runner _ _ _ _ He)|done].
      * destruct (e_hook _ _ _ _ He) as [->|Hno]; [done|]. by destruct (Hno h).
  - apply Ht.
Qed.

Definition promise (o : op) : Prop := match o with opRestartScrape _ | opStartLoop _ _ | opSetHooks _ | opTake _ => True | _ => False end.

Lemma reg_count_insert `{P : A → Prop} `{∀ x, Decision (P x)} (l : list A) (i : nat) (x y : A) :
  l !! i = Some x →
  (length (base.filter P (<[i := y]> l)) + (if decide (P x) then 1 else 0) = length (base.filter P l) + (if decide (P y) then 1 else 0))%nat.
Proof.
  revert i. induction l as [|z l IH]; intros i Hi; [done|]. destruct i as [|i]; cbn in Hi.
  - injection Hi as ->. change (<[0%nat := y]> (x :: l)) with (y :: l). rewrite !filter_cons. repeat case_decide; cbn [length]; lia.
  - specialize (IH i Hi). change (<[S i := y]> (z :: l)) with (z :: <[i := y]> l). rewrite !filter_cons. destruct (decide (P z)); cbn [length]; lia.
Qed.

(** The goroutine [t] goes from [th] to [th']. *)
Record moves (s s' : Registry) (t : nat) (th th' : thread) : Prop := {
  m_thread : threads s !! t = Some th;
  m_threads : threads s' = <[t := th']> (threads s);
  m_runner : runner s' = runner s;
  m_ended : (ended s = true → ended s' = true) ∧ (runner s ≠ Some t → ended s' = ended s);
  m_lock : ∀ t', t' ≠ t → startStopLock s = Some t' ↔ startStopLock s' = Some t';
  m_stop : runner s = Some t → ended s = true → ∀ a, opStopAll a ∈ tOps th' → opStopAll a ∈ tOps th;
  m_waits : ∀ l lp, l ∈ tWaits th → loops s !! l = Some lp → l ∈ tWaits th' ∨ lpc lp = LExited;
  m_hold : startStopLock s = Some t → startStopLock s' = Some t ∨ ∀ o, promise o → o ∉ tOps th;
}.

Section Moves.
Context (s s' : Registry) (t : nat) (th th' : thread) (Hm : moves s s' t th th').

Lemma moves_self : threads s' !! t = Some th'.
Proof. rewrite (m_threads _ _ _ _ _ Hm). apply list_lookup_insert_eq. eapply lookup_lt_Some, m_thread, Hm. Qed.

Lemma moves_back (t' : nat) (x : thread) : threads s' !! t' = Some x → (t' = t ∧ x = th') ∨ (t' ≠ t ∧ threads s !! t' = Some x).
Proof. rewrite (m_threads _ _ _ _ _ Hm). intros [[-> [<- _]]|[Hne Hl]]%list_lookup_insert_Some; auto. Qed.

Lemma moves_other (t' : nat) (x : thread) : t' ≠ t → threads s !! t' = Some x → threads s' !! t' = Some x.
Proof. intros Hne Hx. by rewrite (m_threads _ _ _ _ _ Hm), list_lookup_insert_ne. Qed.

Lemma moves_has (t' : nat) (o : op) : (o ∈ tOps th → o ∈ tOps th') → has s t' o → has s' t' o.
Proof.
  intros Hin (x & Hx & Ho). destruct (decide (t' = t)) as [->|Hne]; [|exists x; split; [by apply moves_other|done]].
  rewrite (m_thread _ _ _ _ _ Hm) in Hx. injection Hx as <-. exists th'. split; [apply moves_self|auto].
Qed.

Lemma moves_has_back (t' : nat) (o : op) : (o ∈ tOps th' → o ∈ tOps th) → has s' t' o → has s t' o.
Proof.
  intros Hin (x & Hx & Ho). destruct (moves_back t' x Hx) as [[-> ->]|[Hne Hx']]; [|by exists x]. exists th. split; [apply Hm|auto].
Qed.

Lemma moves_promise (t' : nat) (o : op) : promise o → (o ∈ tOps th → o ∈ tOps th') → has s t' o → startStopLock s = Some t' → has s' t' o ∧ startStopLock s' = Some t'.
Proof.
  intros Hp Hin Hh Hl. split; [by apply moves_has|]. destruct (decide (t' = t)) as [->|Hne]; [|by apply (m_lock _ _ _ _ _ Hm)].
  destruct Hh as (x & Hx & Ho). rewrite (m_thread _ _ _ _ _ Hm) in Hx. injection Hx as <-. destruct (m_hold _ _ _ _ _ Hm Hl) as [?|Hno]; [done|]. by destruct (Hno o Hp).
Qed.

Lemma moves_final : final s → final s'.
Proof.
  intros (tr & x & H1 & H2 & H3 & H4). pose proof H2 as H2'. rewrite <- (m_runner _ _ _ _ _ Hm) in H1. apply (m_ended _ _ _ _ _ Hm) in H2.
  destruct (decide (tr = t)) as [->|Hne]; [|exists tr, x; split; [done|]; split; [done|]; split; [by apply moves_other|done]].
  exists t, th'. split; [done|]. split; [done|]. split; [apply moves_self|]. intros a Ha. apply (H4 a). rewrite (m_thread _ _ _ _ _ Hm) in H3. injection H3 as <-.
  apply Hm; [by rewrite <- (m_runner _ _ _ _ _ Hm)|done|done].
Qed.

Lemma moves_final_back : ended s' = ended s → (runner s = Some t → ∀ a, opStopAll a ∈ tOps th → opStopAll a ∈ tOps th') → final s' → final s.
Proof.
  intros He Hs (tr & x & H1 & H2 & H3 & H4). rewrite (m_runner _ _ _ _ _ Hm) in H1. rewrite He in H2.
  destruct (moves_back tr x H3) as [[-> ->]|[Hne H3']]; [|by exists tr, x]. exists t, th. split; [done|]. split; [done|]. split; [apply Hm|].
  intros a Ha. apply (H4 a). by apply Hs.
Qed.

Lemma moves_waited (l : nat) (lp : scrapeLoop) : loops s !! l = Some lp → lpc lp ≠ LExited → waited s l → waited s' l.
Proof.
  intros Hlp Hne (t' & x & Hx & Hin). destruct (decide (t' = t)) as [->|Hn]; [|exists t', x; split; [by apply moves_other|done]].
  rewrite (m_thread _ _ _ _ _ Hm) in Hx. injection Hx as <-. destruct (m_waits _ _ _ _ _ Hm l lp Hin Hlp) as [Hin'|]; [|done]. exists t, th'. split; [apply moves_self|done].
Qed.

(** The goroutines, when the others do not notice the step. *)
Lemma schedOk_moves :
  schedOk s → threadOk s' t th' → (∀ t' x, t' ≠ t → threads s !! t' = Some x → evolves s s' t' x) →
  (opStart ∈ tOps th' → opStart ∈ tOps th ∨ ∀ t', ¬ has s t' opStart) →
  (final s' → running s' = false ∧ ∀ t', ¬ has s' t' opStart) →
  (runner s = None → running s' = false ∧ opStart ∉ tOps th') →
  (countPushPoints s' + (if decide (pushing th) then 1 else 0) = countPushPoints s + (if decide (pushing th') then 1 else 0))%nat →
  (blockPushPoint s' = true → (blockPushPoint s = true ∧ ∀ v, opSetHooks v ∈ tOps th → opSetHooks v ∈ tOps th') ∨ startStopLock s' = Some t ∧ ∃ v, opSetHooks v ∈ tOps th') →
  Forall (λ p, fromRegistered p = true → labelled p = current p) (pushes s') →
  schedOk s'.
Proof.
  intros HI Hok Hev Hst Hfin Hnr Hcount Hblock Hpushes. assert (length (threads s') = length (threads s)) as Hlen by (by rewrite (m_threads _ _ _ _ _ Hm), length_insert). split.
  - intros t' x Hx. destruct (moves_back t' x Hx) as [[-> ->]|[Hne Hx']]; [done|]. eapply threadOk_evolves; [by apply (i_threads s HI)|auto].
  - intros t' Hl. rewrite Hlen. destruct (decide (t' = t)) as [->|Hne]; [eapply lookup_lt_Some, Hm|]. apply (i_lock s HI). by apply (m_lock _ _ _ _ _ Hm).
  - intros t'. rewrite (m_runner _ _ _ _ _ Hm), Hlen. apply (i_runner s HI).
  - intros t1 t2 (x1 & Hx1 & Hin1) (x2 & Hx2 & Hin2). destruct (moves_back t1 x1 Hx1) as [[-> ->]|[Hne1 Hx1']], (moves_back t2 x2 Hx2) as [[-> ->]|[Hne2 Hx2']].
    + done.
    + destruct (Hst Hin1) as [Hin|Hno]; [|by destruct (Hno t2); exists x2]. apply (i_start s HI); [exists th; split; [apply Hm|done]|by exists x2].
    + destruct (Hst Hin2) as [Hin|Hno]; [|by destruct (Hno t1); exists x1]. apply (i_start s HI); [by exists x1|exists th; split; [apply Hm|done]].
    + apply (i_start s HI); by eexists.
  - done.
  - rewrite (m_runner _ _ _ _ _ Hm). intros Hn. destruct (Hnr Hn) as [Hr Hno]. split; [done|]. intros t' (x & Hx & Hin). destruct (moves_back t' x Hx) as [[-> ->]|[Hne Hx']]; [done|].
    destruct (i_norun s HI Hn) as [_ Hno']. apply (Hno' t'). by exists x.
  - pose proof (reg_count_insert (P := pushing) (threads s) t th th' (m_thread _ _ _ _ _ Hm)) as Hc. rewrite <- (m_threads _ _ _ _ _ Hm), <- (i_count s HI) in Hc. lia.
  - intros Hb. destruct (Hblock Hb) as [[Hb' Hkeep]|(Hl & v & Hv)]; [|exists t, v; split; [done|exists th'; split; [apply moves_self|done]]].
    destruct (i_block s HI Hb') as (t' & v & Hl & Hv). exists t', v. destruct (moves_promise t' (opSetHooks v) I (Hkeep v) Hv Hl). auto.
  - done.
Qed.

(** A registration that does not change. *)
Lemma regOk_moves (r : nat) (g g' : registration) :
  regOk s r g → (registered g', removalRequested g', restartInProgress g', rloop g', hookUsed g') = (registered g, removalRequested g, restartInProgress g, rloop g, hookUsed g) →
  running s' = running s → hook s' = hook s →
  (∀ l, rloop g = Some l → loops s' !! l = loops s !! l) → (∀ l, Live s' r l → Live s r l) →
  (∀ o, o = opRestartScrape r ∨ (∃ b, o = opStartLoop r b) ∨ o = opTake r → o ∈ tOps th → o ∈ tOps th') →
  regOk s' r g'.
Proof.
  intros Hr [= E1 E2 E3 E4 E5] Hrun Hhook Hloop Hlive Hkeep. split; rewrite ?E1, ?E2, ?E3, ?E4, ?E5, ?Hrun, ?Hhook; try apply Hr.
  - intros H1 H2. destruct (i_running _ _ _ Hr H1 H2) as [?|(t' & b & Hl & Hor)]; [by left|right]. exists t', b.
    destruct Hor as [Hor|Hor]; [destruct (moves_promise t' (opRestartScrape r) I) as [? ?]|destruct (moves_promise t' (opStartLoop r b) I) as [? ?]]; auto; apply Hkeep; eauto.
  - intros H1 H2. by apply moves_final, (i_removal _ _ _ Hr).
  - intros H1 H2. destruct (i_deleted _ _ _ Hr H1 H2) as (t' & Hh). exists t'. apply moves_has; [|done]. apply Hkeep; auto.
  - intros l Hl. rewrite (Hloop l Hl). by apply (i_loop _ _ _ Hr).
  - intros l Hl. pose proof (Hlive l Hl) as Hl'. destruct (i_live _ _ _ Hr l Hl') as [?|Hw]; [by left|right]. destruct Hl' as (lp & Hlp & _ & Hne). by eapply moves_waited.
  - intros H1 l1 l2 Hl1 Hl2. apply (i_one _ _ _ Hr H1); auto.
Qed.

Lemma evolves_moves (t' : nat) (x : thread) :
  schedOk s → t' ≠ t → threads s !! t' = Some x →
  (running s' = running s ∨ startStopLock s ≠ Some t' ∧ (opStart ∈ tOps x → running s' = false)) →
  (∀ r g, registrations s !! r = Some g → ∃ g', registrations s' !! r = Some g' ∧ (registered g' = true → registered g = true) ∧
    (removalRequested g = true → removalRequested g' = true) ∧
    (∀ l, rloop g ≠ Some l → (l < length (loops s))%nat → rloop g' ≠ Some l) ∧ (startStopLock s = Some t' → rloop g = None → rloop g' = None)) →
  (∀ l lp, loops s !! l = Some lp → ∃ lp', loops s' !! l = Some lp' ∧ lreg lp' = lreg lp) →
  (hook s' = hook s ∨ ∀ h, opPush h ∉ tOps x) → evolves s s' t' x.
Proof.
  intros HI Hne Hx Hrun Hregs Hloops Hhook. split; auto.
  - by apply (m_lock _ _ _ _ _ Hm).
  - intros Hl. destruct Hrun as [?|[? _]]; done.
  - intros Hin. destruct Hrun as [->|[_ H]]; [|auto]. by destruct (t_ops _ _ _ (i_threads s HI t' x Hx) opStart Hin) as [? _].
  - by rewrite (m_runner _ _ _ _ _ Hm).
  - intros Hr. apply (m_ended _ _ _ _ _ Hm). congruence.
  - apply moves_final.
Qed.

Definition essential (g : registration) : bool * bool * bool * option nat * nat := (registered g, removalRequested g, restartInProgress g, rloop g, hookUsed g).

(** A step that only concerns its goroutine. *)
Lemma inv_quiet :
  Inv s → ended s' = ended s → running s' = running s → hook s' = hook s → loops s' = loops s → (∀ r, essential <$> registrations s' !! r = essential <$> registrations s !! r) →
  threadOk s' t th' → (∀ o, promise o → o ∈ tOps th → o ∈ tOps th') → (opStart ∈ tOps th' → opStart ∈ tOps th) →
  (runner s = Some t → ∀ a, opStopAll a ∈ tOps th → opStopAll a ∈ tOps th') →
  (countPushPoints s' + (if decide (pushing th) then 1 else 0) = countPushPoints s + (if decide (pushing th') then 1 else 0))%nat →
  (blockPushPoint s' = true → blockPushPoint s = true ∨ startStopLock s' = Some t ∧ ∃ v, opSetHooks v ∈ tOps th') →
  Forall (λ p, fromRegistered p = true → labelled p = current p) (pushes s') →
  Inv s'.
Proof.
  intros [HS HR HL] Hend Hrun Hhook Hloops Hregs Hok Hprom Hst Hstop Hcount Hblock Hpushes.
  assert (∀ r g', registrations s' !! r = Some g' → ∃ g, registrations s !! r = Some g ∧ essential g' = essential g) as Hback.
  { intros r g' Hg'. specialize (Hregs r). rewrite Hg' in Hregs. destruct (registrations s !! r) as [g|]; [|done]. injection Hregs as Hr. exists g. split; [done|]. unfold essential. congruence. }
  assert (∀ r g, registrations s !! r = Some g → ∃ g', registrations s' !! r = Some g' ∧ essential g' = essential g) as Hforth.
  { intros r g Hg. specialize (Hregs r). rewrite Hg in Hregs. destruct (registrations s' !! r) as [g'|]; [|done]. injection Hregs as Hr. exists g'. split; [done|]. unfold essential. congruence. }
  assert (∀ t', has s' t' opStart → has s t' opStart) as Hhas by (intros t'; by apply moves_has_back). split.
  - apply schedOk_moves; auto.
    + intros t' x Hne Hx. apply evolves_moves; auto; [|rewrite Hloops; eauto].
      intros r g Hg. destruct (Hforth r g Hg) as (g' & Hg' & [= E1 E2 _ E4 _]). exists g'. rewrite E1, E2, E4. done.
    + intros Hf. apply moves_final_back in Hf; [|done..]. destruct (i_final s HS Hf) as [Hr Hno]. split; [congruence|]. intros t' Hh. by apply (Hno t'), Hhas.
    + intros Hn. destruct (i_norun s HS Hn) as [Hr Hno]. split; [congruence|]. intros Hin. apply (Hno t). exists th. split; [apply Hm|auto].
    + intros Hb. destruct (Hblock Hb) as [?|?]; [left|by right]. split; [done|]. intros v. by apply Hprom.
  - intros r g' Hg'. destruct (Hback r g' Hg') as (g & Hg & He). eapply regOk_moves; eauto.
    + intros l. by rewrite Hloops.
    + intros l. unfold Live. by rewrite Hloops.
    + intros o Ho. apply Hprom. by destruct Ho as [-> |[[b ->]| ->]].
  - intros l lp Hlp. rewrite Hloops in Hlp. destruct (HL l lp Hlp) as (g & Hg & Hh). destruct (Hforth _ g Hg) as (g' & Hg' & [= E1 _ _ _ _]). exists g'. split; [done|].
    unfold hooked. rewrite Hhook, E1. done.
Qed.
End Moves.
End Frame.

(** * The loops change *)
(** A loop that is alive and is not that of its registration is waited for: by the goroutine that holds the lock, or the registration is removed. *)
Lemma live_waited (s : Registry) (t : nat) (th : thread) (r l : nat) (g : registration) :
  Inv s → startStopLock s = Some t → threads s !! t = Some th → tWaits th = [] → registrations s !! r = Some g → removalRequested g = false ∨ registered g = true →
  Live s r l → rloop g = Some l.
Proof.
  intros HI Hl Ht Hw Hg Hrem Hlive. destruct (i_live _ _ _ (i_regs s HI r g Hg) l Hlive) as [?|(t' & x & Hx & Hin)]; [done|].
  destruct (t_waits _ _ _ (i_threads s (i_sched s HI) t' x Hx) l Hin) as (lp & g' & Hlp & Hg' & _ & Hor). destruct Hlive as (lp' & Hlp' & Hreg & _). assert (lp' = lp) as -> by congruence.
  rewrite Hreg in Hg'. assert (g' = g) as -> by congruence. destruct Hor as [Hor|[Hor1 Hor2]]; [|destruct Hrem; congruence].
  assert (t' = t) as -> by congruence. assert (x = th) as -> by congruence. rewrite Hw in Hin. by apply not_elem_of_nil in Hin.
Qed.

Lemma holding_not_pushing (th : thread) : holding (tOps th) → ¬ pushing th.
Proof. intros H1 H2. by destruct (holding_ops _ _ H1 H2). Qed.

Lemma startLoop_eq (s : Registry) (r : nat) (reset : bool) (g : registration) : registrations s !! r = Some g →
  ∃ g' pc, startLoop r reset s = setLoops (loops s ++ [mkLoop r false false pc]) (setRegistrations (<[r := g']> (registrations s)) s) ∧
    registered g' = registered g ∧ removalRequested g' = removalRequested g ∧ (restartInProgress g = false → restartInProgress g' = false) ∧
    rloop g' = Some (length (loops s)) ∧ hookUsed g' = hookUsed g ∧ (pc = LReady ∨ pc = LWait).
Proof.
  intros Hg. unfold startLoop. rewrite Hg. eexists _, _. split; [reflexivity|]. cbn. repeat split; [by destruct reset|]. destruct (runOnStart g); auto.
Qed.

(** The goroutine that holds the lock starts the loop of a registration that has none. *)
Section Start.
Context (s : Registry) (t : nat) (ops ops' : list op) (r : nat) (g g' : registration) (pc : loopPc).
Let s' : Registry := setThread t (mkThread [] ops') (setLoops (loops s ++ [mkLoop r false false pc]) (setRegistrations (<[r := g']> (registrations s)) s)).
Hypothesis HI : Inv s.
Hypothesis Ht : threads s !! t = Some (mkThread [] ops).
Hypothesis Hl : startStopLock s = Some t.
Hypothesis Hrun : running s = true.
Hypothesis Hg : registrations s !! r = Some g.
Hypothesis Hn : rloop g = None.
Hypothesis E1 : registered g' = registered g.
Hypothesis E2 : removalRequested g' = removalRequested g.
Hypothesis E3 : restartInProgress g = false → restartInProgress g' = false.
Hypothesis E4 : rloop g' = Some (length (loops s)).
Hypothesis E5 : hookUsed g' = hookUsed g.
Hypothesis Hpc : pc = LReady ∨ pc = LWait.
Hypothesis Hok : threadOk s' t (mkThread [] ops').
Hypothesis Hprom : ∀ o, promise o → o ∈ ops → o ∈ ops' ∨ o = opRestartScrape r ∨ ∃ b, o = opStartLoop r b.
Hypothesis Hstop : ∀ a, opStopAll a ∈ ops ↔ opStopAll a ∈ ops'.
Hypothesis Hstart : opStart ∈ ops' → opStart ∈ ops.

Lemma start_moves : moves s s' t (mkThread [] ops) (mkThread [] ops').
Proof. split; try done; [intros _ _ a; apply Hstop|intros l lp Hin; by apply not_elem_of_nil in Hin|by left]. Qed.

Lemma start_not_final : ¬ final s ∧ ¬ final s'.
Proof.
  assert (¬ final s) as Hnf by (intros Hf; apply (i_final s (i_sched s HI)) in Hf as [Hf _]; congruence). split; [done|].
  intros Hf. apply Hnf. apply (moves_final_back s s' t _ _ start_moves); [done| |done]. intros _ a. apply Hstop.
Qed.

Lemma start_back (r0 : nat) (x : registration) : registrations s' !! r0 = Some x → (r0 = r ∧ x = g') ∨ (r0 ≠ r ∧ registrations s !! r0 = Some x).
Proof. cbn. intros [[-> [<- _]]|[Hne Hx]]%list_lookup_insert_Some; auto. Qed.

Lemma start_loop_back (l : nat) (lp : scrapeLoop) : loops s' !! l = Some lp → loops s !! l = Some lp ∨ (l = length (loops s) ∧ lp = mkLoop r false false pc).
Proof. cbn. rewrite lookup_app_Some, list_lookup_singleton_Some. intros [?|[? [? <-]]]; [auto|right]. split; [lia|done]. Qed.

Lemma start_live (r0 l : nat) : Live s' r0 l → Live s r0 l ∨ (r0 = r ∧ l = length (loops s)).
Proof. intros (lp & Hlp & <- & Hne). destruct (start_loop_back l lp Hlp) as [Hlp'|[-> ->]]; [left; by exists lp|by right]. Qed.

Lemma start_sched : schedOk s'.
Proof.
  apply (schedOk_moves s s' t _ _ start_moves); [apply HI|done| | | | | | |apply HI].
  - intros t' x Hne Hx. apply (evolves_moves s s' t _ _ start_moves); [apply HI|done|done|by left| | |by left].
    + intros r0 x0 Hx0. destruct (decide (r0 = r)) as [->|Hne0]; [|exists x0; cbn; rewrite list_lookup_insert_ne by done; done].
      exists g'. cbn. rewrite list_lookup_insert_eq by (by eapply lookup_lt_Some). assert (x0 = g) as -> by congruence. rewrite E1, E2, E4.
      repeat split; try done; [intros l _ Hlt [= <-]; lia|congruence].
    + intros l lp Hlp. exists lp. cbn. split; [by apply lookup_app_l_Some|done].
  - auto.
  - intros Hf. by destruct start_not_final.
  - intros Hnr. destruct (i_norun s (i_sched s HI) Hnr). congruence.
  - rewrite !decide_False; [done| |]; apply holding_not_pushing; [by apply Hok|by apply (t_holds _ _ _ (i_threads s (i_sched s HI) t _ Ht))].
  - cbn. intros Hb. left. split; [done|]. intros v Hv. destruct (Hprom (opSetHooks v) I Hv) as [?|[?|[? ?]]]; done.
Qed.

Lemma start_reg : regOk s' r g'.
Proof.
  destruct start_not_final as [Hnf Hnf']. pose proof (i_regs s HI r g Hg) as Hr. split.
  - cbn. congruence.
  - intros _ _. left. rewrite E4. by eexists.
  - apply E3, Hr.
  - intros H1 H2. exfalso. apply Hnf. apply (i_removal _ _ _ Hr); congruence.
  - intros H1 H2. destruct (i_deleted _ _ _ Hr) as (t' & Hh); [congruence..|]. exists t'. eapply moves_has; [apply start_moves| |done]. cbn. intros Hin. by destruct (Hprom (opTake r) I Hin) as [?|[?|[? ?]]].
  - rewrite E1, E5. apply Hr.
  - intros l. rewrite E4. intros [= <-]. exists (mkLoop r false false pc). cbn. rewrite lookup_app_r, Nat.sub_diag by lia. repeat split. by destruct Hpc as [-> | ->].
  - intros l Hlive. destruct (start_live r l Hlive) as [Hlive'|[_ ->]]; [|by left]. destruct (i_live _ _ _ Hr l Hlive') as [?|Hw]; [congruence|right].
    destruct Hlive' as (lp & Hlp & _ & Hne). eapply moves_waited; [apply start_moves|done..].
  - rewrite E2. intros Hrem l1 l2 H1 H2. assert (∀ l, Live s' r l → l = length (loops s)) as Hno; [|by rewrite (Hno l1 H1), (Hno l2 H2)].
    intros l Hlive. destruct (start_live r l Hlive) as [Hlive'|[_ ->]]; [|done]. pose proof (live_waited s t _ r l g HI Hl Ht eq_refl Hg (or_introl Hrem) Hlive'). congruence.
Qed.

Lemma reg_inv_start : Inv s'.
Proof.
  split; [apply start_sched| |].
  - intros r0 x Hx. destruct (start_back r0 x Hx) as [[-> ->]|[Hne Hx']]; [apply start_reg|]. eapply (regOk_moves s s' t _ _ start_moves r0 x); [by apply HI|done..| | |].
    + intros l Hxl. destruct (i_loop _ _ _ (i_regs s HI r0 x Hx') l Hxl) as (lp & Hlp & _). cbn. rewrite Hlp. by apply lookup_app_l_Some.
    + intros l Hlive. by destruct (start_live r0 l Hlive) as [?|[? _]].
    + intros o Ho Hin. assert (promise o) as Hp by (by destruct Ho as [->|[[b ->]| ->]]). destruct (Hprom o Hp Hin) as [?|Hor]; [done|].
      exfalso. destruct Ho as [->|[[b ->]| ->]], Hor as [Hor|[b' Hor]]; congruence.
  - intros l lp Hlp. destruct (start_loop_back l lp Hlp) as [Hlp'|[-> ->]].
    + destruct (i_loops s HI l lp Hlp') as (x & Hx & Hh). destruct (decide (lreg lp = r)) as [Heq|Hne].
      * exists g'. cbn. rewrite Heq, list_lookup_insert_eq by (by eapply lookup_lt_Some). split; [done|]. rewrite E1. rewrite Heq in Hx. assert (x = g) as -> by congruence. done.
      * exists x. cbn. by rewrite list_lookup_insert_ne.
    + exists g'. cbn. rewrite list_lookup_insert_eq by (by eapply lookup_lt_Some). split; [done|]. intros _. unfold hooked. cbn. by destruct Hpc as [-> | ->].
Qed.
End Start.

(** * The sections that only concern their goroutine *)
Lemma holding_cons (o : op) (ops : list op) : holding (o :: ops) → (o = opUnlock ∧ tailOps ops) ∨ ∃ b tail, work (o :: b) ∧ ops = b ++ opUnlock :: tail ∧ tailOps tail.
Proof. intros ([|o' b] & tail & Heq & Hb & Ht); injection Heq as -> ->; [by left|right]. by exists b, tail. Qed.

Lemma head_holder (s : Registry) (t : nat) (w : list nat) (o : op) (ops : list op) :
  threadOk s t (mkThread w (o :: ops)) → o ≠ opLock → ¬ freeOp o → startStopLock s = Some t ∧ holding (o :: ops).
Proof.
  intros Hok H1 H2. destruct (decide (startStopLock s = Some t)) as [Hl|Hl]; [split; [done|by apply Hok]|]. exfalso.
  destruct (t_free _ _ _ Hok Hl) as [(o' & tail & [= _ -> _] & _)|Hf]; [done|]. apply Forall_cons in Hf as [Hf _]. done.
Qed.

Lemma head_free (s : Registry) (t : nat) (w : list nat) (o : op) (ops : list op) :
  threadOk s t (mkThread w (o :: ops)) → freeOp o → startStopLock s ≠ Some t ∧ Forall freeOp ops.
Proof.
  intros Hok Hfr. assert (startStopLock s ≠ Some t) as Hl.
  { intros Hl. destruct (holding_cons o ops) as [[-> _]|(b & tail & Hw & _)]; [by apply Hok|done|]. inversion Hw as [ids Hnd Heq| | | | | | | |]; subst; try done. by destruct ids; [|injection Heq as <-]. }
  split; [done|]. destruct (t_free _ _ _ Hok Hl) as [(o' & tail & [= _ -> _] & _)|Hf]; [done|]. by apply Forall_cons in Hf as [_ Hf].
Qed.

Lemma tailOps_free (l : list op) : tailOps l → Forall freeOp l.
Proof. intros [-> | ->]; repeat constructor. Qed.

(** What is still to run does not depend on a step that only concerns its goroutine. *)
Lemma opOk_quiet (s s' : Registry) (t : nat) (o : op) :
  opOk s t o → running s' = running s → runner s' = runner s → ended s' = ended s → hook s' = hook s →
  (∀ r, essential <$> registrations s' !! r = essential <$> registrations s !! r) → (final s → final s') →
  (startStopLock s = Some t → startStopLock s' = Some t) ∨ o ≠ opStart → opOk s' t o.
Proof.
  intros Hok Hrun Hrnr Hend Hhook Hregs Hfin Hl.
  assert (∀ r, r < length (registrations s) → r < length (registrations s'))%nat as Hlen.
  { intros r Hr. apply lookup_lt_is_Some in Hr as [g Hg]. specialize (Hregs r). rewrite Hg in Hregs. destruct (registrations s' !! r) eqn:H'; [|done]. by eapply lookup_lt_Some. }
  assert (∀ r, stopped s r → stopped s' r) as Hst.
  { intros r (g & Hg & Hn). specialize (Hregs r). rewrite Hg in Hregs. destruct (registrations s' !! r) as [g'|] eqn:H'; [|done]. injection Hregs as _ _ _ Heq _. exists g'. split; [done|congruence]. }
  destruct o as [| | |r|[[v need]|]| | | | |r st|r rs|r|r| | | | | |]; cbn in Hok |- *; rewrite ?Hrun, ?Hrnr, ?Hend, ?Hhook; auto; try by (destruct Hok; auto).
  { destruct Hok as [Hok1 [Hok2|Hok2]]; [|auto]. destruct Hl as [Hl|Hl]; [auto|done]. }
  destruct Hok as (g & Hg & Hf). specialize (Hregs r). rewrite Hg in Hregs. destruct (registrations s' !! r) as [g'|] eqn:H'; [|done]. injection Hregs as Heq _ _ _ _. exists g'. split; [done|].
  rewrite Heq. auto.
Qed.

Lemma pushOps_free (ops : list op) : (∀ h, opPush h ∉ ops) → opPushEnd ∉ ops → opPushBegin ∉ ops → pushOps ops.
Proof. intros H1 H2 H3. repeat split; [intros h Hin; by destruct (H1 h)|by intros ?..]. Qed.

Lemma holding_push (ops : list op) : holding ops → pushOps ops.
Proof. intros Hh. apply pushOps_free; [intros h Hin|intros Hin..]; by destruct (holding_ops _ _ Hh Hin). Qed.

Lemma pushOps_tail (o : op) (ops : list op) : pushOps (o :: ops) → match o with opPushBegin | opPush _ | opPushEnd => False | _ => True end →
  (∀ h, opPush h ∉ ops) ∧ opPushEnd ∉ ops ∧ opPushBegin ∉ ops.
Proof.
  intros (H1 & H2 & H3) Ho. split; [intros h Hin|split; intros Hin].
  - specialize (H1 h ltac:(by right)). injection H1 as -> ->. done.
  - destruct (H2 ltac:(by right)) as [[= -> _]|[h [= -> _]]]; done.
  - specialize (H3 ltac:(by right)). injection H3 as -> _. done.
Qed.

Lemma quiet_step (s s' : Registry) (t : nat) (th : thread) (ops' : list op) :
  Inv s → threads s !! t = Some th → threads s' = <[t := mkThread [] ops']> (threads s) → startStopLock s' = startStopLock s →
  running s' = running s → runner s' = runner s → ended s' = ended s → hook s' = hook s → loops s' = loops s →
  (∀ r, essential <$> registrations s' !! r = essential <$> registrations s !! r) →
  tWaits th = [] → (startStopLock s = Some t → holding ops') → (startStopLock s ≠ Some t → Forall freeOp ops') →
  ((final s → final s') → ∀ o, o ∈ ops' → o ∈ tOps th ∨ opOk s' t o) → pushOps ops' →
  (∀ o, promise o → o ∈ tOps th → o ∈ ops') → (opStart ∈ ops' → opStart ∈ tOps th) → (runner s = Some t → ∀ a, opStopAll a ∈ tOps th ↔ opStopAll a ∈ ops') →
  (countPushPoints s' + (if decide (pushing th) then 1 else 0) = countPushPoints s + (if decide (pushing (mkThread [] ops')) then 1 else 0))%nat →
  (blockPushPoint s' = true → blockPushPoint s = true ∨ startStopLock s' = Some t ∧ ∃ v, opSetHooks v ∈ ops') →
  Forall (λ p, fromRegistered p = true → labelled p = current p) (pushes s') →
  Inv s'.
Proof.
  intros HI Ht Hts Hlock Hrun Hrnr Hend Hhook Hloops Hregs Hw Hh Hf Hops Hpush Hprom Hst Hstop Hcount Hblock Hpushes.
  assert (moves s s' t th (mkThread [] ops')) as Hm.
  { split; try done; [by rewrite Hend|by rewrite Hlock|intros H _ a; by apply Hstop|intros l lp Hin; rewrite Hw in Hin; by apply not_elem_of_nil in Hin|rewrite Hlock; by left]. }
  eapply (inv_quiet s s' t th _ Hm); try done; [|intros H a; by apply Hstop]. specialize (Hops (moves_final s s' t th _ Hm)). split; cbn [tOps tWaits].
  - by rewrite Hlock.
  - rewrite Hlock. intros Hl. right. auto.
  - intros l Hin. by apply not_elem_of_nil in Hin.
  - intros o Ho. destruct (Hops o Ho) as [Ho'|?]; [|done]. eapply opOk_quiet; [by apply (t_ops _ _ _ (i_threads s (i_sched s HI) t th Ht))|done..|by eapply moves_final|left; by rewrite Hlock].
  - done.
Qed.

(** The count of pushes does not change when neither list has the end of a push. *)
Lemma not_pushing_count (n : nat) (th th' : thread) : ¬ pushing th → ¬ pushing th' → (n + (if decide (pushing th) then 1 else 0) = n + (if decide (pushing th') then 1 else 0))%nat.
Proof. intros H1 H2. by rewrite !decide_False. Qed.

Section Quiet.
Context (s s' : Registry) (t : nat) (ops : list op) (HI : Inv s).

Let ok (o : op) (Ht : threads s !! t = Some (mkThread [] (o :: ops))) : threadOk s t (mkThread [] (o :: ops)) := i_threads s (i_sched s HI) t _ Ht.

(** The sections of the goroutine that holds the lock. *)
Lemma step_readRunning (v : nat) : threads s !! t = Some (mkThread [] (opReadRunning v :: ops)) → runOp s t (opReadRunning v) ops = Some s' → Inv s'.
Proof.
  intros Ht [= <-]. destruct (head_holder _ _ _ _ _ (ok _ Ht) ltac:(done) ltac:(by intros ?)) as [Hl Hh]. destruct (holding_cons _ _ Hh) as [[? _]|(b & tail & Hw & -> & Htail)]; [done|].
  assert (b = []) as -> by (inversion Hw as [[] | | | | | | | |]; done). cbn [app] in *.
  assert (holding (opStopAll (Some (v, running s)) :: opUnlock :: tail)) as Hh' by (exists [opStopAll (Some (v, running s))], tail; repeat split; [constructor|done]).
  assert (runner s ≠ Some t) as Hrn by (apply (t_ops _ _ _ (ok _ Ht) (opReadRunning v)); by left).
  eapply (quiet_step s _ t _ (opStopAll (Some (v, running s)) :: opUnlock :: tail) HI Ht); try done.
  - intros _ o Ho. apply elem_of_cons in Ho as [->|Ho]; [right; done|left; by right].
  - by apply holding_push.
  - intros o Hp Ho. apply elem_of_cons in Ho as [->|Ho]; [done|by right].
  - intros Ho. apply elem_of_cons in Ho as [?|Ho]; [done|by right].
  - apply not_pushing_count; by apply holding_not_pushing.
  - auto.
  - apply HI.
Qed.

Lemma step_block : threads s !! t = Some (mkThread [] (opBlock :: ops)) → runOp s t opBlock ops = Some s' → Inv s'.
Proof.
  intros Ht [= <-]. destruct (head_holder _ _ _ _ _ (ok _ Ht) ltac:(done) ltac:(by intros ?)) as [Hl Hh]. destruct (holding_cons _ _ Hh) as [[? _]|(b & tail & Hw & -> & Htail)]; [done|].
  assert (∃ v k, b = opSetHooks v :: k ∧ (k = [] ∨ k = [opStart])) as (v & k & -> & Hk) by (inversion Hw as [[] | | | | | | | |]; subst; eauto; done).
  assert (holding ((opSetHooks v :: k) ++ opUnlock :: tail)) as Hh' by (eexists _, tail; split; [reflexivity|]; split; [by constructor|done]).
  eapply (quiet_step s _ t _ ((opSetHooks v :: k) ++ opUnlock :: tail) HI Ht); try done.
  - intros _ o Ho. left. by right.
  - by apply holding_push.
  - intros o Hp Ho. by apply elem_of_cons in Ho as [->|Ho].
  - intros Ho. by right.
  - intros _ a. split; [intros [?|?]%elem_of_cons; done|intros ?; by right].
  - apply not_pushing_count; by apply holding_not_pushing.
  - intros _. right. split; [done|]. exists v. by left.
  - apply HI.
Qed.

Lemma step_restartRead (r : nat) : threads s !! t = Some (mkThread [] (opRestartRead r :: ops)) → runOp s t (opRestartRead r) ops = Some s' → Inv s'.
Proof.
  intros Ht [= <-]. destruct (head_holder _ _ _ _ _ (ok _ Ht) ltac:(done) ltac:(by intros ?)) as [Hl Hh]. destruct (holding_cons _ _ Hh) as [[? _]|(b & tail & Hw & -> & Htail)]; [done|].
  assert (b = []) as -> by (inversion Hw as [[] | | | | | | | |]; done). cbn [app] in *. set (o' := opRestartTake r (negb (running s))) in *.
  assert (holding (o' :: opUnlock :: tail)) as Hh' by (exists [o'], tail; repeat split; [constructor|done]).
  eapply (quiet_step s _ t _ (o' :: opUnlock :: tail) HI Ht); try done.
  - intros _ o Ho. apply elem_of_cons in Ho as [->|Ho]; [right|left; by right]. split; [|done]. apply (t_ops _ _ _ (ok _ Ht) (opRestartRead r)). by left.
  - by apply holding_push.
  - intros o Hp Ho. apply elem_of_cons in Ho as [->|Ho]; [done|by right].
  - intros Ho. apply elem_of_cons in Ho as [?|Ho]; [done|by right].
  - intros _ a. split; (intros [?|?]%elem_of_cons; [done|by right]).
  - apply not_pushing_count; by apply holding_not_pushing.
  - auto.
  - apply HI.
Qed.

(** A section without the lock replaces itself by others. *)
Lemma free_step (o : op) (new : list op) :
  threads s !! t = Some (mkThread [] (o :: ops)) → freeOp o → match o with opPushBegin | opPush _ | opPushEnd | opTake _ => False | _ => True end →
  Forall (λ o, freeOp o ∧ match o with opPushBegin | opPush _ | opPushEnd => False | _ => True end) new →
  threads s' = <[t := mkThread [] (new ++ ops)]> (threads s) → startStopLock s' = startStopLock s →
  running s' = running s → runner s' = runner s → ended s' = ended s → hook s' = hook s → loops s' = loops s →
  (∀ r, essential <$> registrations s' !! r = essential <$> registrations s !! r) →
  ((final s → final s') → ∀ o, o ∈ new → opOk s' t o) → countPushPoints s' = countPushPoints s → blockPushPoint s' = blockPushPoint s → pushes s' = pushes s → Inv s'.
Proof.
  intros Ht Hfr Hnp Hnew Hts Hlock Hrun Hrnr Hend Hhook Hloops Hregs Hops Hc Hb Hp. destruct (head_free _ _ _ _ _ (ok _ Ht) Hfr) as [Hl Hf]. rewrite Forall_forall in Hnew.
  destruct (pushOps_tail o ops (t_push _ _ _ (ok _ Ht))) as (P1 & P2 & P3); [by destruct o|].
  assert (∀ o', o' ∈ new → freeOp o' ∧ match o' with opPushBegin | opPush _ | opPushEnd => False | _ => True end) as Hnew' by done.
  assert (∀ o', ¬ freeOp o' → o' ∉ o :: ops ∧ o' ∉ new ++ ops) as Hno.
  { intros o' Hn. rewrite Forall_forall in Hf. rewrite elem_of_cons, elem_of_app. split; [intros [->|Hin]; [done|by apply Hn, Hf]|intros [Hin|Hin]; [by apply Hn, Hnew'|by apply Hn, Hf]]. }
  eapply (quiet_step s s' t _ (new ++ ops) HI Ht); try done; rewrite ?Hc, ?Hb, ?Hp; cbn [tOps].
  - intros _. apply Forall_app. split; [|done]. apply Forall_forall. intros o' Ho'. by apply Hnew'.
  - intros Hfin o' Ho'. apply elem_of_app in Ho' as [Ho'|Ho']; [right; auto|left; by right].
  - apply pushOps_free; [intros h|..]; rewrite elem_of_app; (intros [Hin|Hin]; [by destruct (Hnew' _ Hin)|]); [by destruct (P1 h)|done..].
  - intros o' Hpr Ho'. apply elem_of_cons in Ho' as [->|Ho']; [by destruct o|apply elem_of_app; by right].
  - intros Hin. by destruct (Hno opStart ltac:(by intros ?)) as [_ Hno2].
  - intros _ a. destruct (Hno (opStopAll a) ltac:(by intros ?)). done.
  - apply not_pushing_count; unfold pushing; cbn [tOps]; [rewrite elem_of_cons|rewrite elem_of_app]; intros [Hin|Hin]; try done; [by subst o|by destruct (Hnew' _ Hin)].
  - auto.
  - apply HI.
Qed.

End Quiet.

Lemma essential_insert (l : list registration) (r r0 : nat) (g g' : registration) : l !! r = Some g → essential g' = essential g → essential <$> <[r := g']> l !! r0 = essential <$> l !! r0.
Proof. intros Hg He. destruct (decide (r0 = r)) as [->|Hne]; [|by rewrite list_lookup_insert_ne]. rewrite list_lookup_insert_eq by (by eapply lookup_lt_Some). rewrite Hg. cbn. by rewrite He. Qed.

Lemma elem_of_registeredIds (s : Registry) (r : nat) : r ∈ registeredIds s ↔ ∃ g, registrations s !! r = Some g ∧ registered g = true.
Proof.
  unfold registeredIds. rewrite list_elem_of_filter, elem_of_seq. split.
  - intros [Hr _]. destruct (registrations s !! r) as [g|]; [|done]. injection Hr as Hr. eauto.
  - intros (g & Hg & Hr). rewrite Hg. cbn. rewrite Hr. apply lookup_lt_Some in Hg. split; [done|lia].
Qed.

Section Free.
Context (s s' : Registry) (t : nat) (ops : list op) (HI : Inv s).

Let ok (o : op) (Ht : threads s !! t = Some (mkThread [] (o :: ops))) : threadOk s t (mkThread [] (o :: ops)) := i_threads s (i_sched s HI) t _ Ht.

Lemma step_close (r : nat) : threads s !! t = Some (mkThread [] (opClose r :: ops)) → runOp s t (opClose r) ops = Some s' → Inv s'.
Proof.
  intros Ht Hs. cbn in Hs. apply bind_Some in Hs as (g & Hg & [= <-]). eapply (free_step s _ t ops HI (opClose r) []); try done; [intros r0; cbn; by eapply essential_insert|intros _ o Ho; by apply not_elem_of_nil in Ho].
Qed.

Lemma step_stopCallback (r : nat) : threads s !! t = Some (mkThread [] (opStopCallback r :: ops)) → runOp s t (opStopCallback r) ops = Some s' → Inv s'.
Proof.
  intros Ht Hs. cbn in Hs. apply bind_Some in Hs as (g & Hg & [= <-]). eapply (free_step s _ t ops HI (opStopCallback r) []); try done; [intros r0; cbn; by eapply essential_insert|intros _ o Ho; by apply not_elem_of_nil in Ho].
Qed.

Lemma step_unregisterAll : threads s !! t = Some (mkThread [] (opUnregisterAll :: ops)) → runOp s t opUnregisterAll ops = Some s' → Inv s'.
Proof.
  intros Ht [= <-]. destruct (head_free _ _ _ _ _ (ok _ Ht) I) as [Hl Hf]. assert (final s) as Hfin.
  { destruct (t_ops _ _ _ (ok _ Ht) opUnregisterAll) as [H1 H2]; [by left|]. exists t, (mkThread [] (opUnregisterAll :: ops)). split; [done|]. split; [done|]. split; [done|].
    intros a [?|Hin]%elem_of_cons; [done|]. rewrite Forall_forall in Hf. by apply Hf in Hin. }
  eapply (free_step s _ t ops HI opUnregisterAll (opTake <$> registeredIds s)); try done.
  - apply Forall_fmap, Forall_forall. intros r _. done.
  - intros Hff o Ho. apply list_elem_of_fmap in Ho as (r & -> & Hr). apply elem_of_registeredIds in Hr as (g & Hg & _). exists g. auto.
Qed.

(** A goroutine that pushes. *)
Lemma push_step (o : op) (ops' : list op) (n : nat) (p : list push) :
  threads s !! t = Some (mkThread [] (o :: ops)) →
  ((o = opPushBegin ∧ ops = [] ∧ ops' = [opPush (hook s); opPushEnd] ∧ n = S (countPushPoints s)) ∨ ((∃ h, o = opPush h) ∧ ops = [opPushEnd] ∧ ops' = ops ∧ n = countPushPoints s) ∨
   (o = opPushEnd ∧ ops = [] ∧ ops' = [] ∧ countPushPoints s = S n)) →
  s' = mkRegistry (running s) (startStopLock s) (runner s) (ended s) (blockPushPoint s) n (hook s) (registrations s) (loops s) (<[t := mkThread [] ops']> (threads s)) p →
  Forall (λ p, fromRegistered p = true → labelled p = current p) p → Inv s'.
Proof.
  intros Ht Hcases -> Hp. assert (freeOp o) as Hfr by (by destruct Hcases as [[-> _]|[[[h ->] _]|[-> _]]]). destruct (head_free _ _ _ _ _ (ok _ Ht) Hfr) as [Hl Hf].
  assert (∀ o', o' ∈ ops' → o' = opPush (hook s) ∨ o' = opPushEnd) as Hin'.
  { intros o' Ho'. destruct Hcases as [(_ & _ & -> & _)|[(_ & -> & -> & _)|(_ & _ & -> & _)]]; repeat (apply elem_of_cons in Ho' as [->|Ho']; [auto|]); by apply not_elem_of_nil in Ho'. }
  assert (∀ o', o' ∈ o :: ops → match o' with opPushBegin | opPush _ | opPushEnd => True | _ => False end) as Hin.
  { intros o' Ho'. destruct Hcases as [(-> & -> & _)|[([h ->] & -> & _)|(-> & -> & _)]]; repeat (apply elem_of_cons in Ho' as [->|Ho']; [done|]); by apply not_elem_of_nil in Ho'. }
  eapply (quiet_step s _ t _ ops' HI Ht); try done.
  - intros _. apply Forall_forall. intros o' Ho'. by destruct (Hin' o' Ho') as [-> | ->].
  - intros _ o' Ho'. right. by destruct (Hin' o' Ho') as [-> | ->].
  - destruct Hcases as [(_ & _ & -> & _)|[(_ & -> & -> & _)|(_ & _ & -> & _)]]; (split; [|split]).
    all: try (intros h Ho'); try (intros Ho'); repeat (apply elem_of_cons in Ho' as [Ho'|Ho']; [try done; try (injection Ho' as ->); eauto|]); by apply not_elem_of_nil in Ho'.
  - intros o' Hpr Ho'. apply Hin in Ho'. by destruct o'.
  - intros Ho'. by destruct (Hin' _ Ho').
  - intros _ a. split; intros Ho'; [by apply Hin in Ho'|by destruct (Hin' _ Ho')].
  - destruct Hcases as [(-> & -> & -> & ->)|[([h ->] & -> & -> & ->)|(-> & -> & -> & Hn)]]; cbn [countPushPoints].
    + rewrite decide_False, decide_True; [lia| |]; unfold pushing; cbn [tOps]; set_solver.
    + rewrite !decide_True; [lia|..]; unfold pushing; cbn [tOps]; set_solver.
    + rewrite decide_True, decide_False; [lia| |]; unfold pushing; cbn [tOps]; set_solver.
  - auto.
Qed.
End Free.

Section Push.
Context (s s' : Registry) (t : nat) (ops : list op) (HI : Inv s).

Let ok (o : op) (Ht : threads s !! t = Some (mkThread [] (o :: ops))) : threadOk s t (mkThread [] (o :: ops)) := i_threads s (i_sched s HI) t _ Ht.

Lemma step_pushBegin : threads s !! t = Some (mkThread [] (opPushBegin :: ops)) → runOp s t opPushBegin ops = Some s' → Inv s'.
Proof.
  intros Ht Hs. cbn in Hs. destruct (blockPushPoint s) eqn:Hb; [done|]. injection Hs as <-. destruct (t_push _ _ _ (ok _ Ht)) as (_ & _ & H3). cbn in H3.
  specialize (H3 ltac:(by left)). injection H3 as ->. eapply (push_step s _ t [] HI opPushBegin _ _ (pushes s) Ht); [left; eauto| |apply HI]. unfold setThread, setThreads, setPush. by rewrite Hb.
Qed.

Lemma step_push (h : nat) : threads s !! t = Some (mkThread [] (opPush h :: ops)) → runOp s t (opPush h) ops = Some s' → Inv s'.
Proof.
  intros Ht [= <-]. destruct (t_push _ _ _ (ok _ Ht)) as (H1 & _ & _). specialize (H1 h ltac:(by left)). cbn in H1. injection H1 as ->.
  eapply (push_step s _ t _ HI (opPush h) _ _ _ Ht); [right; left; eauto 7|reflexivity|]. apply Forall_app. split; [apply HI|]. constructor; [|done]. intros _. cbn.
  apply (t_ops _ _ _ (ok _ Ht) (opPush h)). by left.
Qed.

Lemma pushing_counted (t' : nat) (th : thread) : threads s !! t' = Some th → pushing th → countPushPoints s ≠ 0%nat.
Proof.
  intros Hx Hp. rewrite (i_count s (i_sched s HI)). intros H0. apply length_zero_iff_nil in H0. apply list_elem_of_lookup_2 in Hx.
  assert (th ∈ base.filter pushing (threads s)) as Hin by (by apply list_elem_of_filter). rewrite H0 in Hin. by apply not_elem_of_nil in Hin.
Qed.

Lemma step_pushEnd : threads s !! t = Some (mkThread [] (opPushEnd :: ops)) → runOp s t opPushEnd ops = Some s' → Inv s'.
Proof.
  intros Ht [= <-]. destruct (t_push _ _ _ (ok _ Ht)) as (_ & H2 & _). cbn in H2. destruct (H2 ltac:(by left)) as [[= ->]|[h [=]]].
  pose proof (pushing_counted t _ Ht ltac:(by left)) as Hc. eapply (push_step s _ t [] HI opPushEnd [] (pred (countPushPoints s)) (pushes s) Ht); [right; right|reflexivity|apply HI].
  repeat split. lia.
Qed.

(** The lock. *)
Lemma step_lock : threads s !! t = Some (mkThread [] (opLock :: ops)) → runOp s t opLock ops = Some s' → Inv s'.
Proof.
  intros Ht Hs. cbn in Hs. destruct (startStopLock s) as [|] eqn:Hl; [done|]. injection Hs as <-. destruct (t_free _ _ _ (ok _ Ht)) as [(o & tail & [= ->] & Ho & Htail)|Hf]; [congruence| |by apply Forall_cons in Hf as [? _]].
  assert (moves s (setThread t (mkThread [] (o :: opUnlock :: tail)) (setLock (Some t) s)) t (mkThread [] (opLock :: o :: opUnlock :: tail)) (mkThread [] (o :: opUnlock :: tail))) as Hm.
  { split; try done; cbn; [intros t' Hne; split; congruence|intros _ _ a Ha; by right|intros l lp Hin; by apply not_elem_of_nil in Hin|congruence]. }
  assert (holding (o :: opUnlock :: tail)) as Hh by (exists [o], tail; split; [done|]; split; [destruct Ho; constructor|done]).
  assert (∀ o', o' ∈ opLock :: o :: opUnlock :: tail → o' = opLock ∨ o' ∈ o :: opUnlock :: tail) as Hin by (intros o'; by rewrite elem_of_cons).
  eapply (inv_quiet s _ t _ _ Hm HI); try done.
  - split; cbn; try done; [intros l Hin'; by apply not_elem_of_nil in Hin'| |by apply holding_push].
    intros o' Ho'. eapply opOk_quiet; [apply (t_ops _ _ _ (ok _ Ht)); by right|done..|by eapply moves_final|left; by rewrite Hl].
  - intros o' Hp Ho'. by destruct (Hin o' Ho') as [->|?].
  - intros Ho'. by right.
  - intros _ a Ha. by destruct (Hin _ Ha) as [|].
  - cbn [countPushPoints]. apply not_pushing_count; [|by apply holding_not_pushing]. unfold pushing. cbn [tOps]. intros Ho'. destruct (Hin _ Ho') as [|Ho'']; [done|]. by destruct (holding_ops _ _ Hh Ho'').
  - auto.
  - apply HI.
Qed.

Lemma step_unlock : threads s !! t = Some (mkThread [] (opUnlock :: ops)) → runOp s t opUnlock ops = Some s' → Inv s'.
Proof.
  intros Ht [= <-]. destruct (head_holder _ _ _ _ _ (ok _ Ht) ltac:(done) ltac:(by intros ?)) as [Hl Hh].
  destruct (holding_cons _ _ Hh) as [[_ Htail]|(b & tail & Hw & _)]; [|by inversion Hw as [[]| | | | | | | |]].
  assert (∀ o', o' ∈ opUnlock :: ops → o' = opUnlock ∨ o' = opUnregisterAll) as Hin.
  { intros o' [->|Ho']%elem_of_cons; [auto|]. destruct Htail as [-> | ->]; [by apply not_elem_of_nil in Ho'|apply list_elem_of_singleton in Ho'; auto]. }
  assert (∀ o', o' ∈ ops → o' = opUnlock ∨ o' = opUnregisterAll) as Hin' by (intros o' Ho'; apply Hin; by right).
  assert (moves s (setThread t (mkThread [] ops) (setLock None s)) t (mkThread [] (opUnlock :: ops)) (mkThread [] ops)) as Hm.
  { split; try done; cbn; [intros t' Hne; split; congruence|intros _ _ a Ha; by right|intros l lp Hx; by apply not_elem_of_nil in Hx|]. intros _. right. intros o' Hp Ho'. by destruct (Hin o' Ho') as [-> | ->]. }
  eapply (inv_quiet s _ t _ _ Hm HI); try done.
  - split; cbn; try done; [intros _; right; by apply tailOps_free|intros l Hx; by apply not_elem_of_nil in Hx| |].
    + intros o' Ho'. eapply opOk_quiet; [apply (t_ops _ _ _ (ok _ Ht)); by right|done..|by eapply moves_final|right]. by destruct (Hin' o' Ho') as [-> | ->].
    + apply pushOps_free; [intros h Hx|intros Hx..]; by destruct (Hin' _ Hx).
  - intros o' Hp Ho'. by destruct (Hin o' Ho') as [-> | ->].
  - intros Ho'. by right.
  - intros _ a Ha. by destruct (Hin _ Ha).
  - cbn [countPushPoints]. apply not_pushing_count; unfold pushing; cbn [tOps]; intros Hx; [by destruct (Hin _ Hx)|by destruct (Hin' _ Hx)].
  - auto.
  - apply HI.
Qed.
End Push.

(** * A loop moves *)
Section OneLoop.
Context (s : Registry) (l : nat) (lp lp' : scrapeLoop) (g : registration) (p : list push).
Let s' : Registry := mkRegistry (running s) (startStopLock s) (runner s) (ended s) (blockPushPoint s) (countPushPoints s) (hook s) (registrations s) (<[l := lp']> (loops s)) (threads s) p.
Hypothesis HI : Inv s.
Hypothesis Hlp : loops s !! l = Some lp.
Hypothesis Hg : registrations s !! lreg lp = Some g.
Hypothesis Hreg : lreg lp' = lreg lp.
Hypothesis Hexit : lpc lp = LExited → lpc lp' = LExited.
Hypothesis Hown : rloop g = Some l → cancelled lp' = false ∧ lpc lp' ≠ LExited.
Hypothesis Hhook : registered g = true → hooked s lp'.
Hypothesis Hp : Forall (λ p, fromRegistered p = true → labelled p = current p) p.

Lemma one_loop_lookup (l0 : nat) (x : scrapeLoop) : loops s' !! l0 = Some x → (l0 = l ∧ x = lp') ∨ (l0 ≠ l ∧ loops s !! l0 = Some x).
Proof. cbn. intros [[-> [<- _]]|[Hne Hx]]%list_lookup_insert_Some; auto. Qed.

Lemma one_loop_live (r l0 : nat) : Live s' r l0 → Live s r l0.
Proof.
  intros (x & Hx & Hr & Hne). destruct (one_loop_lookup l0 x Hx) as [[-> ->]|[Hn Hx']]; [|by exists x]. exists lp. split; [done|]. split; [congruence|auto].
Qed.

Lemma one_loop_evolves (t : nat) (th : thread) : threads s !! t = Some th → evolves s s' t th.
Proof.
  intros Ht. split; try done; [|intros r x Hx; exists x; done| |by left].
  - intros Hin. by destruct (t_ops _ _ _ (i_threads s (i_sched s HI) t th Ht) opStart Hin).
  - intros l0 x Hx. cbn. destruct (decide (l0 = l)) as [->|Hne]; [|exists x; by rewrite list_lookup_insert_ne].
    exists lp'. rewrite list_lookup_insert_eq by (by eapply lookup_lt_Some). split; [done|congruence].
Qed.

Lemma inv_loop : Inv s'.
Proof.
  split.
  - destruct (i_sched s HI) as [H1 H2 H3 H4 H5 H6 H7 H8 H9]. split; try done. intros t th Ht. eapply threadOk_evolves; [by apply H1|by apply one_loop_evolves].
  - intros r x Hx. change (registrations s !! r = Some x) in Hx. destruct (i_regs s HI r x Hx) as [H1 H2 H3 H4 H5 H6 H7 H8 H9]. split; try done.
    + intros l0 Hl0. destruct (H7 l0 Hl0) as (y & Hy & Hr & Hc). cbn. destruct (decide (l0 = l)) as [->|Hne]; [|exists y; by rewrite list_lookup_insert_ne].
      exists lp'. rewrite list_lookup_insert_eq by (by eapply lookup_lt_Some). assert (y = lp) as -> by congruence. rewrite Hr in Hg. assert (g = x) as -> by congruence. split; [done|]. split; [congruence|auto].
    + intros l0 Hl0. destruct (H8 l0 (one_loop_live r l0 Hl0)); auto.
    + intros Hrem l1 l2 Hl1 Hl2. apply H9; [done|by apply one_loop_live..].
  - intros l0 x Hx. destruct (one_loop_lookup l0 x Hx) as [[-> ->]|[Hn Hx']]; [|by apply (i_loops s HI l0)]. exists g. rewrite Hreg. done.
Qed.
End OneLoop.

Lemma lookup_reg_of_loop (s : Registry) (l : nat) (lp : scrapeLoop) : Inv s → loops s !! l = Some lp → ∃ g, registrations s !! lreg lp = Some g ∧ (registered g = true → hooked s lp).
Proof. intros HI Hlp. by apply (i_loops s HI l). Qed.

(** Every step of a loop. *)
Lemma inv_runLoop (s s' : Registry) (l : nat) (c : loopStep) : Inv s → runLoop s l c = Some s' → Inv s'.
Proof.
  intros HI Hs. unfold runLoop in Hs. apply bind_Some in Hs as (lp & Hlp & Hs). apply bind_Some in Hs as (g & Hg & Hs).
  destruct (lookup_reg_of_loop s l lp HI Hlp) as (g0 & Hg0 & Hh). assert (g0 = g) as -> by congruence.
  assert (∀ pc tr p, lpc lp ≠ LExited → (cancelled lp = false → pc ≠ LExited) → (registered g = true → hooked s (mkLoop (lreg lp) (cancelled lp) tr pc)) →
    Forall (λ p, fromRegistered p = true → labelled p = current p) p →
    Inv (mkRegistry (running s) (startStopLock s) (runner s) (ended s) (blockPushPoint s) (countPushPoints s) (hook s) (registrations s)
      (<[l := mkLoop (lreg lp) (cancelled lp) tr pc]> (loops s)) (threads s) p)) as Hstep.
  { intros pc tr p H1 H2 H3 H4. eapply (inv_loop s l lp _ g); try done. intros Hown. destruct (i_loop _ _ _ (i_regs s HI _ g Hg) l Hown) as (y & Hy & _ & Hc & _).
    assert (y = lp) as -> by congruence. split; [done|auto]. }
  pose proof (i_pushes s (i_sched s HI)) as Hpu. unfold hooked in Hh.
  destruct c, (lpc lp) as [| |h|h|] eqn:Hpc; try done; [destruct (cancelled lp) eqn:Hc; [done|]| | | |destruct (cancelled lp) eqn:Hc; [|done]| |destruct (cancelled lp) eqn:Hc; [|done]]; injection Hs as <-;
    apply Hstep; try done; try congruence.
  - intros Hr. by apply (i_hook _ _ _ (i_regs s HI _ g Hg)).
  - apply Forall_app. split; [done|]. constructor; [done|constructor].
Qed.

(** * The calls *)
(** A registration changes in what does not matter to the rest. *)
Lemma inv_regs (s : Registry) (r : nat) (g g' : registration) :
  Inv s → registrations s !! r = Some g → registered g' = registered g → removalRequested g' = removalRequested g → restartInProgress g' = restartInProgress g →
  rloop g' = rloop g → (registered g = true → hookUsed g' = hook s) → Inv (setRegistrations (<[r := g']> (registrations s)) s).
Proof.
  intros HI Hg E1 E2 E3 E4 E5. assert (r < length (registrations s))%nat as Hr by (by eapply lookup_lt_Some). set (s' := setRegistrations _ s).
  assert (∀ r0 x, registrations s !! r0 = Some x → ∃ x', registrations s' !! r0 = Some x' ∧ registered x' = registered x ∧ removalRequested x' = removalRequested x ∧ rloop x' = rloop x) as Hf.
  { intros r0 x Hx. destruct (decide (r0 = r)) as [->|Hne]; [exists g'|exists x]; cbn; [rewrite list_lookup_insert_eq by done|by rewrite list_lookup_insert_ne]. assert (x = g) as -> by congruence. auto. }
  split.
  - destruct (i_sched s HI) as [H1 H2 H3 H4 H5 H6 H7 H8 H9]. split; try done. intros t th Ht. eapply threadOk_evolves; [by apply H1|]. split; try done; [| |eauto|by left].
    + intros Hin. by destruct (t_ops _ _ _ (H1 t th Ht) opStart Hin).
    + intros r0 x Hx. destruct (Hf r0 x Hx) as (x' & Hx' & F1 & F2 & F4). exists x'. rewrite F1, F2, F4. done.
  - intros r0 x. cbn. intros [[<- [<- _]]|[Hne Hx]]%list_lookup_insert_Some; [|by destruct (i_regs s HI r0 x Hx); split].
    destruct (i_regs s HI r g Hg) as [H1 H2 H3 H4 H5 H6 H7 H8 H9]. by split; rewrite ?E1, ?E2, ?E3, ?E4.
  - intros l lp Hlp. destruct (i_loops s HI l lp Hlp) as (x & Hx & Hh). destruct (Hf _ x Hx) as (x' & Hx' & F1 & _). exists x'. by rewrite F1.
Qed.

Lemma inv_runNow (s s' : Registry) (r : nat) : Inv s → runNow s r = Some s' → Inv s'.
Proof.
  intros HI Hs. unfold runNow in Hs. apply bind_Some in Hs as (g & Hg & Hs). destruct (rloop g) as [l|] eqn:Hl.
  - apply bind_Some in Hs as (lp & Hlp & [= <-]). destruct (lookup_reg_of_loop s l lp HI Hlp) as (g0 & Hg0 & Hh).
    eapply (inv_loop s l lp _ g0); try done; [|apply HI]. intros Hown. destruct (i_loop _ _ _ (i_regs s HI _ g0 Hg0) l Hown) as (y & Hy & _ & Hc). assert (y = lp) as -> by congruence. done.
  - injection Hs as <-. eapply (inv_regs s r g); try done. apply (i_regs s HI r g Hg).
Qed.

(** A goroutine starts. *)
Section Spawn.
Context (s s' : Registry) (ops : list op).
Hypothesis HI : Inv s.
Hypothesis Hs : s' = spawn ops s ∧ opStart ∉ ops ∨ s' = setRunner (Some (length (threads s))) false (spawn ops s) ∧ runner s = None.
Hypothesis Hnp : ¬ pushing (mkThread [] ops).

Lemma spawn_same : running s' = running s ∧ startStopLock s' = startStopLock s ∧ hook s' = hook s ∧ registrations s' = registrations s ∧ loops s' = loops s ∧
  countPushPoints s' = countPushPoints s ∧ blockPushPoint s' = blockPushPoint s ∧ pushes s' = pushes s ∧ threads s' = threads s ++ [mkThread [] ops].
Proof. by destruct Hs as [[-> _]|[-> _]]. Qed.

Lemma spawn_back (t : nat) (x : thread) : threads s' !! t = Some x → threads s !! t = Some x ∨ (t = length (threads s) ∧ x = mkThread [] ops).
Proof.
  destruct spawn_same as (_ & _ & _ & _ & _ & _ & _ & _ & ->). rewrite lookup_app_Some, list_lookup_singleton_Some. intros [?|[? [? <-]]]; [auto|right]. split; [lia|done].
Qed.

Lemma spawn_forth (t : nat) (x : thread) : threads s !! t = Some x → threads s' !! t = Some x.
Proof. destruct spawn_same as (_ & _ & _ & _ & _ & _ & _ & _ & ->). by apply lookup_app_l_Some. Qed.

Lemma spawn_has (t : nat) (o : op) : has s t o → has s' t o.
Proof. intros (x & Hx & Ho). exists x. split; [by apply spawn_forth|done]. Qed.

Lemma spawn_runner (t : nat) : (t < length (threads s))%nat → (runner s = Some t ↔ runner s' = Some t) ∧ (runner s = Some t → ended s' = ended s).
Proof. intros Hlt. destruct Hs as [[-> _]|[-> Hnr]]; [done|]. cbn. rewrite Hnr. split; [|done]. split; [done|intros [= <-]; lia]. Qed.

Lemma spawn_final : final s ↔ final s'.
Proof.
  split; intros (t & x & H1 & H2 & H3 & H4).
  - destruct (spawn_runner t) as [Hr He]; [by eapply lookup_lt_Some|]. exists t, x. split; [by apply Hr|]. split; [by rewrite He|]. split; [by apply spawn_forth|done].
  - pose proof (spawn_back t x H3) as H3'. destruct Hs as [[-> _]|[-> Hnr]]; [|done]. exists t, x. split; [done|]. split; [done|]. split; [|done]. destruct H3' as [?|[-> _]]; [done|].
    apply (i_runner s (i_sched s HI)) in H1. lia.
Qed.

Lemma spawn_start (t : nat) : has s' t opStart → has s t opStart ∨ (runner s = None ∧ t = length (threads s)).
Proof. intros (x & Hx & Hin). destruct (spawn_back t x Hx) as [Hx'|[-> ->]]; [left; by exists x|]. destruct Hs as [[_ Hno]|[_ Hnr]]; [done|auto]. Qed.

Hypothesis Hok : threadOk s' (length (threads s)) (mkThread [] ops).

Lemma spawn_sched : schedOk s'.
Proof.
  pose proof spawn_back as Hback. pose proof (i_sched s HI) as HS. destruct spawn_same as (Sr & Sl & Sh & Sg & Slo & Sc & Sb & Sp & Sts). split.
  - intros t x Hx. destruct (spawn_back t x Hx) as [Hx'|[-> ->]]; [|done]. eapply threadOk_evolves; [by apply (i_threads s HS)|].
    destruct (spawn_runner t) as [Hr He]; [by eapply lookup_lt_Some|]. split; rewrite ?Sl, ?Sr, ?Sg, ?Slo; try done; [| |by eauto|by left|by apply spawn_final].
    + intros Hin. by destruct (t_ops _ _ _ (i_threads s HS t x Hx') opStart Hin).
    + intros r g Hg. exists g. done.
  - intros t. rewrite Sl, Sts, length_app. intros Hl. apply (i_lock s HS) in Hl. lia.
  - intros t. rewrite Sts, length_app. destruct Hs as [[-> _]|[-> _]]; cbn; [intros Hl; apply (i_runner s HS) in Hl; lia|intros [= <-]; lia].
  - intros t1 t2 H1 H2. destruct (spawn_start t1 H1) as [H1'|[Hn ->]], (spawn_start t2 H2) as [H2'|[Hn' ->]]; [by apply (i_start s HS)| | |done];
      [destruct (i_norun s HS Hn') as [_ Hno]; by destruct (Hno t1)|destruct (i_norun s HS Hn) as [_ Hno]; by destruct (Hno t2)].
  - intros Hf. apply spawn_final in Hf. destruct (i_final s HS Hf) as [Hrun Hno]. rewrite Sr. split; [done|]. intros t Hh. destruct (spawn_start t Hh) as [Hh'|[Hn _]]; [by apply (Hno t)|].
    destruct Hf as (tr & _ & Htr & _). congruence.
  - intros Hn. destruct Hs as [[Heq Hno]|[-> _]]; [|done]. assert (runner s = None) as Hn' by (by rewrite Heq in Hn). destruct (i_norun s HS Hn') as [Hrun Hnos]. rewrite Sr. split; [done|].
    intros t (x & Hx & Hin). destruct (Hback t x Hx) as [Hx'|[-> ->]]; [apply (Hnos t); by exists x|done].
  - rewrite Sc, Sts, filter_app, filter_cons, decide_False, filter_nil, app_nil_r by done. apply (i_count s HS).
  - rewrite Sb, Sl. intros Hb. destruct (i_block s HS Hb) as (t & v & Hl & Hv). exists t, v. split; [done|by apply spawn_has].
  - rewrite Sp. apply (i_pushes s HS).
Qed.

Lemma inv_spawn : Inv s'.
Proof.
  destruct spawn_same as (Sr & Sl & Sh & Sg & Slo & Sc & Sb & Sp & Sts). split; [apply spawn_sched| |].
  - intros r g Hg. rewrite Sg in Hg. destruct (i_regs s HI r g Hg) as [H1 H2 H3 H4 H5 H6 H7 H8 H9]. unfold Live in *. split; unfold Live; rewrite ?Sr, ?Sl, ?Sh, ?Slo; try done.
    + intros Hrun Hreg. destruct (H2 Hrun Hreg) as [?|(t & b & Hl & Hor)]; [by left|right]. exists t, b. split; [done|]. destruct Hor; [left|right]; by apply spawn_has.
    + intros Hr1 Hr2. by apply spawn_final, H4.
    + intros Hr1 Hr2. destruct (H5 Hr1 Hr2) as (t & Hh). exists t. by apply spawn_has.
    + intros l Hl. destruct (H8 l Hl) as [?|(t & x & Hx & Hin)]; [by left|right]. exists t, x. split; [by apply spawn_forth|done].
  - intros l lp Hlp. rewrite Slo in Hlp. destruct (i_loops s HI l lp Hlp) as (g & Hg & Hh). exists g. unfold hooked. rewrite Sg, Sh. done.
Qed.
End Spawn.

(** A registration is added, with its loop when the registry runs. *)
Section Register.
Context (s : Registry) (g : registration) (ls : list scrapeLoop).
Let n : nat := length (registrations s).
Let s' : Registry := setLoops (loops s ++ ls) (setRegistrations (registrations s ++ [g]) s).
Hypothesis HI : Inv s.
Hypothesis Hg : registered g = true ∧ removalRequested g = false ∧ restartInProgress g = false ∧ hookUsed g = hook s.
Hypothesis Hls : running s = false ∧ ls = [] ∧ rloop g = None ∨ running s = true ∧ ls = [mkLoop n false false LWait] ∧ rloop g = Some (length (loops s)).

Lemma register_loop (l : nat) (lp : scrapeLoop) : loops s' !! l = Some lp → loops s !! l = Some lp ∨ (rloop g = Some l ∧ lp = mkLoop n false false LWait).
Proof.
  cbn. destruct Hls as [(_ & -> & _)|(_ & -> & Hl)]; [rewrite app_nil_r; auto|]. rewrite lookup_app_Some, list_lookup_singleton_Some. intros [?|[? [? <-]]]; [auto|right]. split; [rewrite Hl; f_equal; lia|done].
Qed.

Lemma register_lt (l : nat) (lp : scrapeLoop) : loops s !! l = Some lp → (lreg lp < n)%nat.
Proof. intros Hlp. destruct (i_loops s HI l lp Hlp) as (x & Hx & _). by eapply lookup_lt_Some. Qed.

Lemma register_live (r l : nat) : Live s' r l → Live s r l ∨ (r = n ∧ rloop g = Some l).
Proof. intros (lp & Hlp & <- & Hne). destruct (register_loop l lp Hlp) as [Hlp'|[Hl ->]]; [left; by exists lp|by right]. Qed.

Lemma register_sched : schedOk s'.
Proof.
  destruct (i_sched s HI) as [H1 H2 H3 H4 H5 H6 H7 H8 H9]. split; try done. intros t th Ht. eapply threadOk_evolves; [by apply H1|]. split; try done; [| | |by left].
  - intros Hin. by destruct (t_ops _ _ _ (H1 t th Ht) opStart Hin).
  - intros r x Hx. exists x. cbn. split; [by apply lookup_app_l_Some|done].
  - intros l lp Hlp. exists lp. cbn. split; [by apply lookup_app_l_Some|done].
Qed.

Lemma register_new : regOk s' n g.
Proof.
  destruct Hg as (G1 & G2 & G3 & G4). split; try done; try congruence.
  - cbn. intros Hrun _. destruct Hls as [(_ & _ & ?)|(? & _ & _)]; [done|congruence].
  - cbn. intros Hrun _. left. destruct Hls as [(? & _ & _)|(_ & _ & ->)]; [congruence|by eexists].
  - intros l Hl. destruct Hls as [(_ & _ & ?)|(_ & Heq & Hn)]; [congruence|]. assert (l = length (loops s)) as -> by congruence. cbn. rewrite Heq, lookup_app_r, Nat.sub_diag by lia.
    exists (mkLoop n false false LWait). done.
  - intros l Hlive. destruct (register_live n l Hlive) as [(lp & Hlp & Hr & _)|[_ ?]]; [|by left]. apply register_lt in Hlp. lia.
  - intros _ l1 l2 H1 H2. assert (∀ l, Live s' n l → rloop g = Some l) as Hall.
    { intros l Hlive. destruct (register_live n l Hlive) as [(lp & Hlp & Hr & _)|[_ ?]]; [|done]. apply register_lt in Hlp. lia. }
    apply Hall in H1, H2. congruence.
Qed.

Lemma inv_register : Inv s'.
Proof.
  split; [apply register_sched| |].
  - intros r x. cbn. rewrite lookup_app_Some, list_lookup_singleton_Some. intros [Hx|[Hge [Heq <-]]]; [|assert (r = n) as -> by (unfold n; lia); apply register_new].
    assert (r < n)%nat as Hlt by (by eapply lookup_lt_Some). destruct (i_regs s HI r x Hx) as [H1 H2 H3 H4 H5 H6 H7 H8 H9]. split; try done.
    + intros l Hl. destruct (H7 l Hl) as (lp & Hlp & Hr). exists lp. cbn. split; [by apply lookup_app_l_Some|done].
    + intros l Hl. destruct (register_live r l Hl) as [Hl'|[-> _]]; [|lia]. by apply H8.
    + intros Hrem l1 l2 Hl1 Hl2. destruct (register_live r l1 Hl1) as [Hl1'|[-> _]]; [|lia]. destruct (register_live r l2 Hl2) as [Hl2'|[-> _]]; [|lia]. by apply H9.
  - intros l lp Hlp. destruct (register_loop l lp Hlp) as [Hlp'|[_ ->]].
    + destruct (i_loops s HI l lp Hlp') as (x & Hx & Hh). exists x. cbn. split; [by apply lookup_app_l_Some|done].
    + exists g. cbn. rewrite lookup_app_r, Nat.sub_diag by (unfold n; lia). done.
Qed.
End Register.

Lemma inv_addRegistration (s : Registry) : Inv s → Inv (addRegistration s).
Proof.
  intros HI. unfold addRegistration. destruct (running s) eqn:Hrun.
  - unfold startLoop. cbn. rewrite lookup_app_r, Nat.sub_diag by lia. cbn. rewrite insert_app_r_alt, Nat.sub_diag by lia.
    refine (inv_register s (mkRegistration true false false false (Some (length (loops s))) (hook s) false 0) _ HI ltac:(done) _). by right.
  - pose proof (inv_register s (mkRegistration true false false false None (hook s) false 0) [] HI ltac:(done) ltac:(by left)) as H. unfold setLoops in H. cbn in H. by rewrite app_nil_r in H.
Qed.

(** The context of [Run] ends. *)
Lemma inv_end (s : Registry) (t : nat) :
  Inv s → runner s = Some t → ended s = false → threads s !! t = Some (mkThread [] []) →
  Inv (setRunner (Some t) true (setThread t (mkThread [] [opLock; opStopAll None; opUnlock; opUnregisterAll]) s)).
Proof.
  intros HI Hrn He Ht. set (th' := mkThread [] _). set (s' := setRunner _ _ _). pose proof (i_sched s HI) as HS.
  assert (startStopLock s ≠ Some t) as Hl.
  { intros Hl. destruct (t_holds _ _ _ (i_threads s HS t _ Ht) Hl) as (b & tail & Heq & _). by destruct b. }
  assert (∀ o, o ∈ tOps th' → o = opLock ∨ o = opStopAll None ∨ o = opUnlock ∨ o = opUnregisterAll) as Hin.
  { intros o Ho. cbn in Ho. repeat (apply elem_of_cons in Ho as [->|Ho]; [auto|]). by apply not_elem_of_nil in Ho. }
  assert (moves s s' t (mkThread [] []) th') as Hm.
  { split; try done; cbn; [congruence|intros l lp Hx; by apply not_elem_of_nil in Hx]. }
  split.
  - apply (schedOk_moves s s' t _ _ Hm HS).
    + split; cbn; [done| |intros l Hx; by apply not_elem_of_nil in Hx| |].
      * intros _. left. exists (opStopAll None), [opUnregisterAll]. split; [done|]. split; [constructor|by right].
      * intros o Ho. by destruct (Hin o Ho) as [-> |[-> |[-> | ->]]].
      * apply pushOps_free; [intros h Hx|intros Hx..]; by destruct (Hin _ Hx) as [|[|[|]]].
    + intros t' x Hne Hx. apply (evolves_moves s s' t _ _ Hm); try done; [by left|eauto|eauto|by left]. intros r g Hg. exists g. done.
    + intros Hx. by destruct (Hin _ Hx) as [|[|[|]]].
    + intros (tr & x & [= <-] & _ & Hx & Hno). rewrite (moves_self s s' t _ _ Hm) in Hx. injection Hx as <-. destruct (Hno None). cbn. set_solver.
    + congruence.
    + apply not_pushing_count; unfold pushing; [apply not_elem_of_nil|]. intros Hx. by destruct (Hin _ Hx) as [|[|[|]]].
    + cbn. intros Hb. left. split; [done|]. intros v Hv. by apply not_elem_of_nil in Hv.
    + apply HS.
  - intros r g Hg. apply (regOk_moves s s' t _ _ Hm r g g); try done; [by apply HI|]. intros o _ Ho. by apply not_elem_of_nil in Ho.
  - intros l lp Hlp. by apply (i_loops s HI l).
Qed.

(** * The sections that change a registration *)
Section Change.
Context (s : Registry) (t : nat) (th th' : thread) (r : nat) (g g' : registration).
Let s' : Registry := setThread t th' (setRegistrations (<[r := g']> (registrations s)) s).
Hypothesis HI : Inv s.
Hypothesis Ht : threads s !! t = Some th.
Hypothesis Hw : tWaits th = [].
Hypothesis Hg : registrations s !! r = Some g.
Hypothesis E1 : registered g' = true → registered g = true.
Hypothesis E2 : removalRequested g = true → removalRequested g' = true.
Hypothesis E4 : rloop g' = rloop g ∨ rloop g' = None.
Hypothesis Hprom : ∀ o, promise o → o ∈ tOps th → o ∈ tOps th' ∨ o = opTake r ∨ o = opRestartScrape r.
Hypothesis Hstart : opStart ∉ tOps th'.
Hypothesis Hstop : ∀ a, opStopAll a ∉ tOps th ∧ opStopAll a ∉ tOps th'.
Hypothesis Hnp : ¬ pushing th ∧ ¬ pushing th'.

Lemma change_moves : moves s s' t th th'.
Proof. split; try done; [intros _ _ a Ha; by destruct (Hstop a)|intros l lp Hin; rewrite Hw in Hin; by apply not_elem_of_nil in Hin|by left]. Qed.

Lemma change_final : final s ↔ final s'.
Proof. split; [by eapply moves_final, change_moves|]. eapply moves_final_back; [apply change_moves|done|]. intros _ a Ha. by destruct (Hstop a). Qed.

Lemma change_evolves (t' : nat) (x : thread) : threads s !! t' = Some x → evolves s s' t' x.
Proof.
  intros Hx. split; try done; [| |eauto|by left|apply change_final].
  - intros Hin. by destruct (t_ops _ _ _ (i_threads s (i_sched s HI) t' x Hx) opStart Hin).
  - intros r0 x0 Hx0. cbn. destruct (decide (r0 = r)) as [->|Hne0]; [|exists x0; rewrite list_lookup_insert_ne by done; done].
    exists g'. rewrite list_lookup_insert_eq by (by eapply lookup_lt_Some). assert (x0 = g) as -> by congruence. split; [done|]. split; [done|]. split; [done|]. destruct E4 as [-> | ->]; done.
Qed.

(** What was to run still is. *)
Lemma change_opOk (o : op) : o ∈ tOps th → opOk s' t o.
Proof. apply (t_ops _ _ _ (threadOk_evolves s s' t th (i_threads s (i_sched s HI) t th Ht) (change_evolves t th Ht))). Qed.

Lemma inv_change : threadOk s' t th' → regOk s' r g' → Inv s'.
Proof.
  intros Hok Hr. pose proof (i_sched s HI) as HS. pose proof change_moves as Hm. split.
  - apply (schedOk_moves s s' t _ _ Hm HS Hok).
    + intros t' x _. apply change_evolves.
    + done.
    + intros Hf. apply change_final in Hf. destruct (i_final s HS Hf) as [Hr1 Hno]. split; [done|]. intros t' Hh. apply (Hno t'). by eapply moves_has_back.
    + intros Hn. destruct (i_norun s HS Hn). done.
    + apply not_pushing_count; apply Hnp.
    + intros Hb. left. split; [done|]. intros v Hv. by destruct (Hprom (opSetHooks v) I Hv) as [|[|]].
    + apply HS.
  - intros r0 x. cbn. intros [[<- [<- _]]|[Hne Hx]]%list_lookup_insert_Some; [done|]. eapply (regOk_moves s s' t _ _ Hm r0 x x); try done; [by apply HI|].
    intros o Ho Hin. assert (promise o) as Hp by (by destruct Ho as [->|[[b ->]| ->]]). destruct (Hprom o Hp Hin) as [?|[Heq|Heq]]; [done|..]; subst o; destruct Ho as [Ho|[[b Ho]|Ho]]; congruence.
  - intros l lp Hlp. destruct (i_loops s HI l lp Hlp) as (x & Hx & Hh). cbn. destruct (decide (lreg lp = r)) as [Heq|Hne]; [|exists x; cbn; by rewrite list_lookup_insert_ne].
    exists g'. cbn. rewrite Heq, list_lookup_insert_eq by (by eapply lookup_lt_Some). split; [done|]. rewrite Heq in Hx. assert (x = g) as -> by congruence. auto.
Qed.
End Change.

Section Free2.
Context (s s' : Registry) (t : nat) (ops : list op) (HI : Inv s).

Let ok (o : op) (Ht : threads s !! t = Some (mkThread [] (o :: ops))) : threadOk s t (mkThread [] (o :: ops)) := i_threads s (i_sched s HI) t _ Ht.

Lemma free_no (l : list op) (o : op) : Forall freeOp l → o ∈ l → freeOp o.
Proof. rewrite Forall_forall. auto. Qed.

Lemma step_delete (r : nat) : threads s !! t = Some (mkThread [] (opDelete r :: ops)) → runOp s t (opDelete r) ops = Some s' → Inv s'.
Proof.
  intros Ht Hs. cbn in Hs. destruct (registrations s !! r) as [g|] eqn:Hg; [|done]. destruct (head_free _ _ _ _ _ (ok _ Ht) I) as [Hl Hf].
  destruct (registered g) eqn:Hreg; injection Hs as <-; [|eapply (free_step s _ t ops HI (opDelete r) []); try done; intros _ o Ho; by apply not_elem_of_nil in Ho].
  destruct (pushOps_tail _ _ (t_push _ _ _ (ok _ Ht)) I) as (P1 & P2 & P3). set (g' := mkRegistration false _ _ _ _ _ _ _). set (th' := mkThread [] (opTake r :: ops)).
  assert (∀ o, ¬ freeOp o → o ∉ ops) as Hno by (intros o Hn Hin; by apply Hn, (free_no ops)).
  assert (∀ a, opStopAll a ∉ opDelete r :: ops ∧ opStopAll a ∉ opTake r :: ops) as Hstop.
  { intros a. rewrite !elem_of_cons. split; intros [?|Hin]; try done; by destruct (Hno (opStopAll a) ltac:(by intros ?)). }
  assert (moves s (setThread t th' (setRegistrations (<[r := g']> (registrations s)) s)) t (mkThread [] (opDelete r :: ops)) th') as Hm by (by apply change_moves).
  pose proof (i_regs s HI r g Hg) as [H1 H2 H3 H4 H5 H6 H7 H8 H9]. eapply (inv_change s t _ th' r g g' HI Ht); try done; try by left.
  - intros o Hp Ho. apply elem_of_cons in Ho as [->|Ho]; [done|]. left. by right.
  - cbn. rewrite elem_of_cons. intros [?|Hin]; [done|]. by destruct (Hno opStart ltac:(by intros ?)).
  - unfold pushing. cbn. rewrite !elem_of_cons. split; intros [?|Hin]; done.
  - split; cbn; [done| |intros l Hx; by apply not_elem_of_nil in Hx| |].
    + intros _. right. by constructor.
    + intros o [->|Ho]%elem_of_cons; [exists g'; cbn; rewrite list_lookup_insert_eq by (by eapply lookup_lt_Some); done|].
      eapply (change_opOk s t (mkThread [] (opDelete r :: ops)) th' r g g' HI Ht); try done; [by left|by right].
    + apply pushOps_free; [intros h [?|Hin]%elem_of_cons|intros [?|Hin]%elem_of_cons..]; try done. by apply (P1 h).
  - split; try done; cbn.
    + intros _ _. exists t, th'. split; [by eapply moves_self|by left].
    + intros l Hlive. destruct (H8 l Hlive) as [?|Hwd]; [by left|right]. destruct Hlive as (lp & Hlp & _ & Hne). by eapply moves_waited.
Qed.

(** The loop that is taken is then waited for. *)
Lemma step_take (r : nat) : threads s !! t = Some (mkThread [] (opTake r :: ops)) → runOp s t (opTake r) ops = Some s' → Inv s'.
Proof.
  intros Ht Hs. destruct (t_ops _ _ _ (ok _ Ht) (opTake r) ltac:(by left)) as (g & Hg & Hfin). cbn in Hs. unfold unregisterInner in Hs. rewrite Hg in Hs. injection Hs as <-.
  destruct (head_free _ _ _ _ _ (ok _ Ht) I) as [Hl Hf]. destruct (pushOps_tail _ _ (t_push _ _ _ (ok _ Ht)) I) as (P1 & P2 & P3). set (g' := mkRegistration _ _ _ _ _ _ _ _).
  set (th' := mkThread _ (opClose r :: opStopCallback r :: ops)). assert (∀ o, ¬ freeOp o → o ∉ opTake r :: ops ∧ o ∉ tOps th') as Hno.
  { intros o Hn. cbn. rewrite !elem_of_cons. split; [intros [->|Hin]|intros [->|[->|Hin]]]; try (by apply Hn); by apply Hn, (free_no ops). }
  pose proof (i_regs s HI r g Hg) as [H1 H2 H3 H4 H5 H6 H7 H8 H9].
  assert (∀ l, rloop g = Some l → registered g = false) as Hun.
  { intros l Hll. destruct (registered g) eqn:Hr; [|done]. destruct (i_final s (i_sched s HI) (Hfin eq_refl)) as [Hrun _]. rewrite H1 in Hll; done. }
  assert (moves s (setThread t th' (setRegistrations (<[r := g']> (registrations s)) s)) t (mkThread [] (opTake r :: ops)) th') as Hm.
  { apply change_moves; try done. intros a. apply Hno. by intros ?. }
  eapply (inv_change s t _ th' r g g' HI Ht); try done; try by right.
  - intros o Hp Ho. apply elem_of_cons in Ho as [->|Ho]; [by right; left|left]. do 2 right. done.
  - apply Hno. by intros ?.
  - intros a. apply Hno. by intros ?.
  - unfold pushing. cbn. rewrite !elem_of_cons. split; [intros [?|Hin]|intros [?|[?|Hin]]]; done.
  - split; cbn; [done| | | |].
    + intros _. right. constructor; [done|]. by constructor.
    + intros l Hin. destruct (rloop g) as [l'|] eqn:Hll; [|by apply not_elem_of_nil in Hin]. apply list_elem_of_singleton in Hin as ->. destruct (H7 l' eq_refl) as (lp & Hlp & Hlr & _).
      exists lp, g'. cbn. rewrite Hlr, list_lookup_insert_eq by (by eapply lookup_lt_Some). split; [done|]. split; [done|]. split; [done|]. right. split; [done|]. by apply (Hun l').
    + assert (r < length (registrations s))%nat as Hlt by (by eapply lookup_lt_Some). intros o [->|[->|Ho]%elem_of_cons]%elem_of_cons; [cbn; by rewrite length_insert..|].
      eapply (change_opOk s t (mkThread [] (opTake r :: ops)) th' r g g' HI Ht); try done; [by right|intros a; apply Hno; by intros ?|by right].
    + apply pushOps_free; [intros h [?|[?|Hin]%elem_of_cons]%elem_of_cons|intros [?|[?|Hin]%elem_of_cons]%elem_of_cons..]; try done. by apply (P1 h).
  - split; try done; cbn.
    + intros Hrun Hr. destruct (i_final s (i_sched s HI) (Hfin Hr)). congruence.
    + intros Hr _. eapply moves_final; [done|auto].
    + intros l Hlive. right. destruct (H8 l Hlive) as [Hll|Hwd]; [|destruct Hlive as (lp & Hlp & _ & Hne); by eapply moves_waited].
      exists t, th'. split; [by eapply moves_self|]. cbn. rewrite Hll. by left.
Qed.

Lemma step_restartTake_loop (r l : nat) (st : bool) (g : registration) :
  threads s !! t = Some (mkThread [] (opRestartTake r st :: ops)) → registrations s !! r = Some g → rloop g = Some l → runOp s t (opRestartTake r st) ops = Some s' → Inv s'.
Proof.
  intros Ht Hg Hll Hs. cbn in Hs. unfold restartLoop in Hs. rewrite Hg, Hll in Hs. injection Hs as <-.
  destruct (head_holder _ _ _ _ _ (ok _ Ht) ltac:(done) ltac:(by intros ?)) as [Hl Hh]. destruct (holding_cons _ _ Hh) as [[? _]|(b & tail & Hw & Hops & Htail)]; [done|].
  assert (b = []) as -> by (inversion Hw as [[] | | | | | | | |]; done). cbn [app] in Hops. set (g' := setLoop None g). set (th' := mkThread [l] _).
  destruct (t_ops _ _ _ (ok _ Ht) (opRestartTake r st) ltac:(by left)) as [_ Hst].
  assert (holding (tOps th')) as Hh'.
  { destruct st; cbn [th' tOps app]; rewrite Hops; [exists (opRestartScrape <$> []), tail|exists [opStartLoop r false], tail]; repeat split; try done; repeat constructor. }
  assert (∀ o, o ∈ opRestartTake r st :: ops → o = opRestartTake r st ∨ o = opUnlock ∨ o = opUnregisterAll) as Hin.
  { rewrite Hops. intros o [->|[->|Ho]%elem_of_cons]%elem_of_cons; auto. destruct Htail as [-> | ->]; [by apply not_elem_of_nil in Ho|]. apply list_elem_of_singleton in Ho. auto. }
  assert (∀ o, o ∈ tOps th' → o = opStartLoop r false ∧ st = false ∨ o ∈ opRestartTake r st :: ops) as Hin'.
  { intros o Ho. destruct st; cbn in Ho; [right; by right|]. apply elem_of_cons in Ho as [->|Ho]; [auto|right; by right]. }
  assert (∀ a, opStopAll a ∉ opRestartTake r st :: ops ∧ opStopAll a ∉ tOps th') as Hstop.
  { intros a. split; intros Ho; [by destruct (Hin _ Ho) as [|[|]]|]. destruct (Hin' _ Ho) as [[? _]|Ho']; [done|]. by destruct (Hin _ Ho') as [|[|]]. }
  assert (moves s (setThread t th' (setRegistrations (<[r := g']> (registrations s)) s)) t (mkThread [] (opRestartTake r st :: ops)) th') as Hm by (by apply change_moves).
  pose proof (i_regs s HI r g Hg) as [H1 H2 H3 H4 H5 H6 H7 H8 H9]. eapply (inv_change s t _ th' r g g' HI Ht); try done; try by right.
  - intros o Hp Ho. by destruct (Hin o Ho) as [->|[-> | ->]].
  - intros Ho. destruct (Hin' _ Ho) as [[? _]|Ho']; [done|]. by destruct (Hin _ Ho') as [|[|]].
  - split; by apply holding_not_pushing.
  - split; cbn [tWaits th']; [done|done| | |by apply holding_push].
    + intros l' ->%list_elem_of_singleton. destruct (H7 l Hll) as (lp & Hlp & Hlr & _). exists lp, g'. cbn. rewrite Hlr, list_lookup_insert_eq by (by eapply lookup_lt_Some). split; [done|]. split; [done|]. split; [done|by left].
    + intros o Ho. destruct (Hin' o Ho) as [[-> ->]|Ho']; [|eapply (change_opOk s t (mkThread [] (opRestartTake r st :: ops)) th' r g g' HI Ht); try done; by right].
      cbn. split; [by destruct (running s)|]. exists g'. cbn. rewrite list_lookup_insert_eq by (by eapply lookup_lt_Some). done.
  - split; try done; cbn.
    + intros Hrun Hr. right. exists t, false. split; [done|]. right. exists th'. split; [by eapply moves_self|]. assert (st = false) as -> by (by rewrite Hst, Hrun). by left.
    + intros Hr Hrem. by eapply moves_final, H4.
    + intros Hr Hrem. destruct (H5 Hr Hrem) as (t' & Hht). exists t'. eapply moves_has; [done| |done]. intros Ho. by destruct (Hin _ Ho) as [|[|]].
    + intros l' Hlive. right. destruct (H8 l' Hlive) as [Hll'|Hwd]; [|destruct Hlive as (lp & Hlp & _ & Hne); by eapply moves_waited].
      exists t, th'. split; [by eapply moves_self|]. assert (l' = l) as -> by congruence. by left.
Qed.
End Free2.

Section Starts.
Context (s s' : Registry) (t : nat) (ops : list op) (HI : Inv s).

Let ok (o : op) (Ht : threads s !! t = Some (mkThread [] (o :: ops))) : threadOk s t (mkThread [] (o :: ops)) := i_threads s (i_sched s HI) t _ Ht.

(** The goroutine that holds the lock starts the loop of [r], has the loops of [ids] to start, and releases the lock. *)
Lemma starts_step (o : op) (r : nat) (g : registration) (ids : list nat) (tail : list op) (reset : bool) :
  threads s !! t = Some (mkThread [] (o :: ops)) → startStopLock s = Some t → running s = true → registrations s !! r = Some g → rloop g = None →
  ops = (opRestartScrape <$> ids) ++ opUnlock :: tail → NoDup ids → r ∉ ids → tailOps tail →
  (promise o → o = opRestartScrape r ∨ ∃ b, o = opStartLoop r b) → (∀ a, o ≠ opStopAll a) →
  s' = setThread t (mkThread [] ops) (startLoop r reset s) → Inv s'.
Proof.
  intros Ht Hl Hrun Hg Hn Hops Hnd Hr Htail Hpr Hns ->. destruct (startLoop_eq s r reset g Hg) as (g' & pc & -> & E1 & E2 & E3 & E4 & E5 & Hpc).
  assert (holding ops) as Hh by (exists (opRestartScrape <$> ids), tail; repeat split; [done|by constructor|done]).
  assert (∀ o', o' ∈ ops → (∃ r', o' = opRestartScrape r' ∧ r' ∈ ids) ∨ o' = opUnlock ∨ o' = opUnregisterAll) as Hin.
  { rewrite Hops. intros o' [Ho|[->|Ho]%elem_of_cons]%elem_of_app; [left|auto|]; [by apply list_elem_of_fmap in Ho as (r' & -> & Hin); eauto|].
    destruct Htail as [-> | ->]; [by apply not_elem_of_nil in Ho|]. apply list_elem_of_singleton in Ho. auto. }
  eapply (reg_inv_start s t (o :: ops) ops r g g' pc HI Ht Hl Hrun Hg Hn); try done.
  - split; cbn [tWaits tOps]; [done|done|intros l Hx; by apply not_elem_of_nil in Hx| |by apply holding_push].
    intros o' Ho'. destruct (Hin o' Ho') as [(r' & -> & Hr')|[-> | ->]]; [|done|].
    + destruct (t_ops _ _ _ (ok _ Ht) (opRestartScrape r') ltac:(by right)) as (_ & x & Hx & Hxn). split; [done|]. exists x. cbn. rewrite list_lookup_insert_ne by (intros ->; done). done.
    + apply (t_ops _ _ _ (ok _ Ht) opUnregisterAll). by right.
  - intros o' Hp [->|Ho']%elem_of_cons; [right; auto|by left].
  - intros a. rewrite elem_of_cons. split; [intros [<-|?]; [by destruct (Hns a)|done]|by right].
  - intros Ho'. by right.
Qed.

End Starts.

Section Starts2.
Context (s s' : Registry) (t : nat) (ops : list op) (HI : Inv s).

Let ok (o : op) (Ht : threads s !! t = Some (mkThread [] (o :: ops))) : threadOk s t (mkThread [] (o :: ops)) := i_threads s (i_sched s HI) t _ Ht.

Lemma step_startLoop (r : nat) (b : bool) : threads s !! t = Some (mkThread [] (opStartLoop r b :: ops)) → runOp s t (opStartLoop r b) ops = Some s' → Inv s'.
Proof.
  intros Ht [= <-]. destruct (head_holder _ _ _ _ _ (ok _ Ht) ltac:(done) ltac:(by intros ?)) as [Hl Hh]. destruct (holding_cons _ _ Hh) as [[? _]|(k & tail & Hw & Hops & Htail)]; [done|].
  assert (k = []) as -> by (inversion Hw as [[] | | | | | | | |]; done). destruct (t_ops _ _ _ (ok _ Ht) (opStartLoop r b) ltac:(by left)) as [Hrun (g & Hg & Hn)].
  eapply (starts_step s _ t ops HI (opStartLoop r b) r g [] tail b Ht Hl Hrun Hg Hn Hops); try done; [constructor|apply not_elem_of_nil|eauto].
Qed.

Lemma step_restartScrape (r : nat) : threads s !! t = Some (mkThread [] (opRestartScrape r :: ops)) → runOp s t (opRestartScrape r) ops = Some s' → Inv s'.
Proof.
  intros Ht Hs. destruct (head_holder _ _ _ _ _ (ok _ Ht) ltac:(done) ltac:(by intros ?)) as [Hl Hh]. destruct (holding_cons _ _ Hh) as [[? _]|(k & tail & Hw & Hops & Htail)]; [done|].
  destruct (t_ops _ _ _ (ok _ Ht) (opRestartScrape r) ltac:(by left)) as [Hrun (g & Hg & Hn)]. pose proof (i_regs s HI r g Hg) as [H1 H2 H3 H4 H5 H6 H7 H8 H9].
  assert (∃ ids, k = opRestartScrape <$> ids ∧ NoDup ids ∧ r ∉ ids) as (ids & -> & Hnd & Hr).
  { inversion Hw as [[|r' ids] Hnd Heq| | | | | | | |]; subst; try done. apply NoDup_cons in Hnd as [? ?]. exists ids. done. }
  cbn in Hs. unfold restartScrapeLoop in Hs. rewrite Hg, H3, Hn in Hs. destruct (removalRequested g) eqn:Hrem; injection Hs as <-.
  2: { eapply (starts_step s _ t ops HI (opRestartScrape r) r g ids tail true Ht Hl Hrun Hg Hn Hops); try done; eauto. }
  assert (registered g = false) as Hun. { destruct (registered g); [|done]. destruct (i_final s (i_sched s HI) (H4 eq_refl eq_refl)). congruence. }
  assert (holding ops) as Hh' by (exists (opRestartScrape <$> ids), tail; repeat split; [done|by constructor|done]).
  assert (∀ o, o ∈ ops → (∃ r', o = opRestartScrape r' ∧ r' ∈ ids) ∨ o = opUnlock ∨ o = opUnregisterAll) as Hin.
  { rewrite Hops. intros o' [Ho|[->|Ho]%elem_of_cons]%elem_of_app; [left|auto|]; [by apply list_elem_of_fmap in Ho as (r' & -> & Hin); eauto|].
    destruct Htail as [-> | ->]; [by apply not_elem_of_nil in Ho|]. apply list_elem_of_singleton in Ho. auto. }
  assert (∀ a, opStopAll a ∉ opRestartScrape r :: ops ∧ opStopAll a ∉ ops) as Hstop.
  { intros a. rewrite elem_of_cons. split; [intros [?|Ho]|intros Ho]; [done|..]; by destruct (Hin _ Ho) as [(? & ? & _)|[|]]. }
  assert (setThread t (mkThread [] ops) s = setThread t (mkThread [] ops) (setRegistrations (<[r := g]> (registrations s)) s)) as -> by (rewrite list_insert_id by done; by destruct s).
  eapply (inv_change s t _ (mkThread [] ops) r g g HI Ht); try done; [by left| | | |..].
  - intros o Hp Ho. apply elem_of_cons in Ho as [->|Ho]; [by right; right|by left].
  - cbn. intros Ho. by destruct (Hin _ Ho) as [(? & ? & _)|[|]].
  - split; by apply holding_not_pushing.
  - split; cbn [tWaits tOps]; [done|done|intros l Hx; by apply not_elem_of_nil in Hx| |by apply holding_push].
    intros o Ho. eapply (change_opOk s t (mkThread [] (opRestartScrape r :: ops)) (mkThread [] ops) r g g HI Ht); try done; [by left|by right].
  - assert (moves s (setThread t (mkThread [] ops) (setRegistrations (<[r := g]> (registrations s)) s)) t (mkThread [] (opRestartScrape r :: ops)) (mkThread [] ops)) as Hm by (by apply change_moves).
    split; try done; try congruence. intros l Hlive. destruct (H8 l Hlive) as [?|Hwd]; [by left|right]. destruct Hlive as (lp & Hlp & _ & Hne). by eapply moves_waited.
Qed.

Lemma step_restartTake (r : nat) (st : bool) : threads s !! t = Some (mkThread [] (opRestartTake r st :: ops)) → runOp s t (opRestartTake r st) ops = Some s' → Inv s'.
Proof.
  intros Ht Hs. destruct (t_ops _ _ _ (ok _ Ht) (opRestartTake r st) ltac:(by left)) as [Hlt Hst]. apply lookup_lt_is_Some in Hlt as [g Hg]. destruct (rloop g) as [l|] eqn:Hn; [by eapply step_restartTake_loop|].
  destruct (head_holder _ _ _ _ _ (ok _ Ht) ltac:(done) ltac:(by intros ?)) as [Hl Hh]. destruct (holding_cons _ _ Hh) as [[? _]|(k & tail & Hw & Hops & Htail)]; [done|].
  assert (k = []) as -> by (inversion Hw as [[] | | | | | | | |]; done). cbn in Hs. unfold restartLoop in Hs. rewrite Hg, Hn in Hs. cbn [app] in Hops. destruct st; injection Hs as <-.
  2: { assert (running s = true) as Hrun by (by destruct (running s)).
       eapply (starts_step s _ t ops HI (opRestartTake r false) r g [] tail false Ht Hl Hrun Hg Hn Hops); try done; [constructor|apply not_elem_of_nil]. }
  assert (holding ops) as Hh' by (rewrite Hops; exists (opRestartScrape <$> []), tail; repeat split; [constructor; constructor|done]).
  eapply (quiet_step s _ t _ ops HI Ht); try done; cbn [tOps].
  - intros _ o Ho. left. by right.
  - by apply holding_push.
  - intros o Hp Ho. by apply elem_of_cons in Ho as [->|Ho].
  - intros Ho. by right.
  - intros _ a. split; [intros [?|?]%elem_of_cons; done|intros ?; by right].
  - apply not_pushing_count; by apply holding_not_pushing.
  - auto.
  - apply HI.
Qed.
End Starts2.

(** * The sections that change everything *)
Section All.
Context (s : Registry) (t : nat) (ops : list op) (HI : Inv s).

Let ok (o : op) (Ht : threads s !! t = Some (mkThread [] (o :: ops))) : threadOk s t (mkThread [] (o :: ops)) := i_threads s (i_sched s HI) t _ Ht.

Lemma NoDup_registeredIds : NoDup (registeredIds s).
Proof. apply NoDup_filter, NoDup_seq. Qed.

Lemma step_start (s' : Registry) : threads s !! t = Some (mkThread [] (opStart :: ops)) → runOp s t opStart ops = Some s' → Inv s'.
Proof.
  intros Ht [= <-]. destruct (head_holder _ _ _ _ _ (ok _ Ht) ltac:(done) ltac:(by intros ?)) as [Hl Hh]. destruct (holding_cons _ _ Hh) as [[? _]|(k & tail & Hw & Hops & Htail)]; [done|].
  assert (k = []) as -> by (inversion Hw as [[] | | | | | | | |]; done). cbn [app] in Hops. pose proof (i_sched s HI) as HS. set (th' := mkThread [] _). set (s' := setThread t th' _).
  destruct (t_ops _ _ _ (ok _ Ht) opStart ltac:(by left)) as [Hrun _].
  assert (holding (tOps th')) as Hh' by (exists (opRestartScrape <$> registeredIds s), tail; cbn; rewrite Hops; repeat split; [constructor; apply NoDup_registeredIds|done]).
  assert (has s t opStart) as Hst by (exists (mkThread [] (opStart :: ops)); split; [done|by left]).
  assert (∀ o, o ∈ ops → o = opUnlock ∨ o = opUnregisterAll) as Hin.
  { rewrite Hops. intros o [->|Ho]%elem_of_cons; [auto|]. destruct Htail as [-> | ->]; [by apply not_elem_of_nil in Ho|]. apply list_elem_of_singleton in Ho. auto. }
  assert (∀ o, o ∈ tOps th' → (∃ r, o = opRestartScrape r ∧ r ∈ registeredIds s) ∨ o ∈ ops) as Hin'.
  { cbn. intros o [Ho|Ho]%elem_of_app; [left|auto]. apply list_elem_of_fmap in Ho as (r & -> & Hr). eauto. }
  assert (moves s s' t (mkThread [] (opStart :: ops)) th') as Hm.
  { split; try done; [|intros l lp Hx; by apply not_elem_of_nil in Hx|by left]. intros _ _ a Ho. destruct (Hin' _ Ho) as [(? & ? & _)|Ho']; [done|]. by destruct (Hin _ Ho'). }
  assert (¬ final s) as Hnf by (intros Hf; destruct (i_final s HS Hf) as [_ Hno]; by destruct (Hno t)).
  assert (¬ final s') as Hnf'.
  { intros Hf. apply Hnf. eapply moves_final_back; [exact Hm|done| |done]. intros _ a [?|Ho]%elem_of_cons; [done|]. by destruct (Hin _ Ho). }
  split.
  - apply (schedOk_moves s s' t _ _ Hm HS); try done.
    + split; cbn [tWaits th']; [done|done|intros l Hx; by apply not_elem_of_nil in Hx| |by apply holding_push].
      intros o Ho. destruct (Hin' o Ho) as [(r & -> & (g & Hg & Hreg)%elem_of_registeredIds)|Ho'].
      * split; [done|]. exists g. split; [done|]. by apply (i_stopped _ _ _ (i_regs s HI r g Hg)).
      * pose proof (t_ops _ _ _ (ok _ Ht) o ltac:(by right)) as Hok. by destruct (Hin o Ho') as [-> | ->].
    + intros t' x Hne Hx. apply (evolves_moves s s' t _ _ Hm t' x HS Hne Hx); [right|intros r g Hg; exists g; done|eauto|by left]. split; [congruence|].
      intros Hxs. destruct Hne. apply (i_start s HS); [by exists x|done].
    + intros Ho. destruct (Hin' _ Ho) as [(? & ? & _)|Ho']; [done|]. by destruct (Hin _ Ho').
    + intros Hn. destruct (i_norun s HS Hn) as [_ Hno]. by destruct (Hno t).
    + apply not_pushing_count; by apply holding_not_pushing.
    + intros Hb. left. split; [done|]. cbn. intros v [?|Ho]%elem_of_cons; [done|]. by destruct (Hin _ Ho).
    + apply HS.
  - intros r g Hg. change (registrations s !! r = Some g) in Hg. destruct (i_regs s HI r g Hg) as [H1 H2 H3 H4 H5 H6 H7 H8 H9]. split; try done.
    + intros _ Hreg. right. exists t, false. split; [done|]. left. exists th'. split; [by eapply moves_self|]. cbn. apply elem_of_app. left. apply list_elem_of_fmap. exists r. split; [done|]. apply elem_of_registeredIds. eauto.
    + intros Hr1 Hr2. by destruct (Hnf (H4 Hr1 Hr2)).
    + intros Hr1 Hr2. destruct (H5 Hr1 Hr2) as (t' & Hht). exists t'. eapply moves_has; [done| |done]. intros [?|Ho]%elem_of_cons; [done|]. by destruct (Hin _ Ho).
    + intros l Hlive. destruct (H8 l Hlive) as [?|Hwd]; [by left|right]. destruct Hlive as (lp & Hlp & _ & Hne). by eapply moves_waited.
  - intros l lp Hlp. by apply (i_loops s HI l).
Qed.

Lemma step_setHooks (s' : Registry) (v : nat) : threads s !! t = Some (mkThread [] (opSetHooks v :: ops)) → runOp s t (opSetHooks v) ops = Some s' → Inv s'.
Proof.
  intros Ht Hs. cbn in Hs. case_bool_decide as Hc; [|done]. injection Hs as <-. destruct (head_holder _ _ _ _ _ (ok _ Ht) ltac:(done) ltac:(by intros ?)) as [Hl Hh].
  destruct (holding_cons _ _ Hh) as [[? _]|(k & tail & Hw & Hops & Htail)]; [done|]. assert (k = [] ∨ k = [opStart]) as Hk by (inversion Hw as [[] | | | | | | | |]; try done; subst; auto).
  pose proof (i_sched s HI) as HS. pose proof (t_ops _ _ _ (ok _ Ht) (opSetHooks v) ltac:(by left)) as Hrun. cbn in Hrun. set (th' := mkThread [] ops). set (s' := setThread t th' _).
  assert (holding ops) as Hh'.
  { rewrite Hops. destruct Hk as [-> | ->]; [exists (opRestartScrape <$> []), tail|exists [opStart], tail]; repeat split; try done; repeat constructor. }
  assert (∀ o, o ∈ ops → o = opStart ∨ o = opUnlock ∨ o = opUnregisterAll) as Hin.
  { rewrite Hops. intros o [Ho|[->|Ho]%elem_of_cons]%elem_of_app; [|auto|destruct Htail as [-> | ->]; [by apply not_elem_of_nil in Ho|apply list_elem_of_singleton in Ho; auto]].
    destruct Hk as [-> | ->]; [by apply not_elem_of_nil in Ho|apply list_elem_of_singleton in Ho; auto]. }
  assert (moves s s' t (mkThread [] (opSetHooks v :: ops)) th') as Hm.
  { split; try done; [intros _ _ a Ho; by right|intros l lp Hx; by apply not_elem_of_nil in Hx|by left]. }
  assert (∀ r g', registrations s' !! r = Some g' ↔ ∃ g, registrations s !! r = Some g ∧ g' = if registered g then setHookUsed v g else g) as Hregs.
  { intros r g'. cbn. rewrite list_lookup_fmap, fmap_Some. naive_solver. }
  split.
  - apply (schedOk_moves s s' t _ _ Hm HS); try done.
    + split; cbn [tWaits tOps th']; [done|done|intros l Hx; by apply not_elem_of_nil in Hx| |by apply holding_push].
      intros o Ho. pose proof (t_ops _ _ _ (ok _ Ht) o ltac:(by right)) as Hok. by destruct (Hin o Ho) as [->|[-> | ->]].
    + intros t' x Hne Hx. apply (evolves_moves s s' t _ _ Hm t' x HS Hne Hx); [by left| |eauto|right].
      * intros r g Hg. eexists. split; [apply Hregs; exists g; split; [done|reflexivity]|]. destruct (registered g) eqn:Hr; cbn; repeat split; try done; congruence.
      * intros h Hin'. destruct (t_push _ _ _ (i_threads s HS t' x Hx)) as (P1 & _ & _). eapply (pushing_counted s HI t' x Hx); [|done]. unfold pushing. rewrite (P1 h Hin'). by right; left.
    + intros Ho. left. by right.
    + intros Hf. apply (moves_final_back _ _ _ _ _ Hm) in Hf; [|done|]; cycle 1. { intros _ a [?|Ho]%elem_of_cons; [done|]. by destruct (Hin _ Ho) as [|[|]]. }
      destruct (i_final s HS Hf) as [Hr Hno]. split; [done|]. intros t' Hht. apply (Hno t'). eapply moves_has_back; [done| |done]. intros Ho. by right.
    + intros Hn. split; [done|]. intros Ho. destruct (i_norun s HS Hn) as [_ Hno]. apply (Hno t). exists (mkThread [] (opSetHooks v :: ops)). split; [done|by right].
    + apply not_pushing_count; by apply holding_not_pushing.
    + apply HS.
  - intros r g' Hg'. apply Hregs in Hg' as (g & Hg & ->). destruct (i_regs s HI r g Hg) as [H1 H2 H3 H4 H5 H6 H7 H8 H9].
    assert (regOk s' r (setHookUsed v g) ∧ (registered g = false → regOk s' r g)) as [HA HB]; [|destruct (registered g); auto].
    assert (∀ g', (registered g', removalRequested g', restartInProgress g', rloop g') = (registered g, removalRequested g, restartInProgress g, rloop g) → (registered g = true → hookUsed g' = v) → regOk s' r g') as Hall;
      [|split; [by apply Hall|intros Hreg; apply Hall; [done|congruence]]].
    intros g' [= G1 G2 G3 G4] G5. split; rewrite ?G1, ?G2, ?G3, ?G4; try done.
    + cbn. congruence.
    + intros Hr1 Hr2. eapply moves_final; [done|auto].
    + intros Hr1 Hr2. destruct (H5 Hr1 Hr2) as (t' & Hht). exists t'. eapply moves_has; [done| |done]. intros [?|Ho]%elem_of_cons; done.
    + intros l Hlive. destruct (H8 l Hlive) as [?|Hwd]; [by left|right]. destruct Hlive as (lp & Hlp & _ & Hne). by eapply moves_waited.
  - intros l lp Hlp. destruct (i_loops s HI l lp Hlp) as (g & Hg & _). eexists. split; [apply Hregs; exists g; split; [done|reflexivity]|]. intros Hreg. assert (registered g = true) as Hreg' by (destruct (registered g) eqn:Hr; congruence).
    destruct (decide (lpc lp = LExited)) as [He|He]; [unfold hooked; by rewrite He|]. assert (Live s (lreg lp) l) as Hlive by (by exists lp).
    pose proof (live_waited s t _ _ l g HI Hl Ht eq_refl Hg (or_intror Hreg') Hlive) as Hll. rewrite (i_stopped _ _ _ (i_regs s HI _ g Hg) Hrun Hreg') in Hll. done.
Qed.
End All.

(** All loops are cancelled and taken. *)
Section StopAll.
Context (s : Registry) (t : nat) (ops : list op) (action : option (nat * bool)) (HI : Inv s).
Context (Ht : threads s !! t = Some (mkThread [] (opStopAll action :: ops))).
Let taken : list nat := (stopAllLoopsInner s).2.
Let more : list op := match action with None => [] | Some (v, needToStart) => [opBlock; opSetHooks v] ++ (if needToStart : bool then [opStart] else []) end.
Let th' : thread := mkThread taken (more ++ ops).
Let s' : Registry := setThread t th' (stopAllLoopsInner s).1.

Let ok : threadOk s t (mkThread [] (opStopAll action :: ops)) := i_threads s (i_sched s HI) t _ Ht.

Lemma elem_of_taken (l : nat) : l ∈ taken ↔ ∃ r g, registrations s !! r = Some g ∧ registered g = true ∧ rloop g = Some l.
Proof.
  unfold taken, stopAllLoopsInner. cbn [snd]. rewrite list_elem_of_omap. split.
  - intros (r & (g & Hg & Hr)%elem_of_registeredIds & Hl). rewrite Hg in Hl. eauto.
  - intros (r & g & Hg & Hr & Hl). exists r. split; [apply elem_of_registeredIds; eauto|]. by rewrite Hg.
Qed.

Lemma stopAll_reg (r : nat) (g' : registration) : registrations s' !! r = Some g' ↔ ∃ g, registrations s !! r = Some g ∧ g' = if registered g then setLoop None g else g.
Proof. cbn. rewrite list_lookup_fmap, fmap_Some. naive_solver. Qed.

Lemma stopAll_loop (l : nat) (lp' : scrapeLoop) : loops s' !! l = Some lp' ↔
  ∃ lp, loops s !! l = Some lp ∧ lp' = if bool_decide (l ∈ taken) then mkLoop (lreg lp) true (trigger lp) (lpc lp) else lp.
Proof. cbn. rewrite list_lookup_imap, fmap_Some. done. Qed.

Lemma stopAll_live (r l : nat) : Live s' r l → Live s r l.
Proof. intros (lp' & (lp & Hlp & ->)%stopAll_loop & Hr & Hne). exists lp. by case_bool_decide. Qed.

Lemma stopAll_shape : startStopLock s = Some t ∧ holding (more ++ ops) ∧ ∀ o, o ∈ ops → o = opUnlock ∨ o = opUnregisterAll.
Proof.
  destruct (head_holder _ _ _ _ _ ok ltac:(done) ltac:(by intros ?)) as [Hl Hh]. destruct (holding_cons _ _ Hh) as [[? _]|(k & tail & Hw & Hops & Htail)]; [done|].
  assert (k = []) as -> by (inversion Hw as [[] | | | | | | | |]; done). split; [done|]. split.
  - exists more, tail. rewrite Hops. split; [done|]. split; [|done]. unfold more. destruct action as [[v []]|]; cbn; [constructor; by right|constructor; by left|apply (work_scrapes []); constructor].
  - rewrite Hops. cbn. intros o [->|Ho]%elem_of_cons; [auto|]. destruct Htail as [-> | ->]; [by apply not_elem_of_nil in Ho|]. apply list_elem_of_singleton in Ho. auto.
Qed.

Lemma stopAll_more (o : op) : o ∈ more → o = opBlock ∨ (∃ v, o = opSetHooks v) ∨ o = opStart ∧ ∃ v, action = Some (v, true).
Proof.
  unfold more. destruct action as [[v []]|]; cbn; intros Ho; repeat (apply elem_of_cons in Ho as [->|Ho]; [eauto 8|]); by apply not_elem_of_nil in Ho.
Qed.

Lemma stopAll_moves : moves s s' t (mkThread [] (opStopAll action :: ops)) th'.
Proof.
  split; try done; [|intros l lp Hx; by apply not_elem_of_nil in Hx|by left]. intros _ _ a. cbn. intros [Ho|Ho]%elem_of_app; [|by right]. by destruct (stopAll_more _ Ho) as [|[[? ?]|[? _]]].
Qed.

(** No goroutine but this one starts loops now. *)
Lemma stopAll_start : (∃ v, action = Some (v, true)) → ∀ t', ¬ has s t' opStart.
Proof.
  intros [v ->] t' (x & Hx & Hin). destruct (t_ops _ _ _ ok (opStopAll (Some (v, true))) ltac:(by left)) as [Hr _]. destruct (t_ops _ _ _ (i_threads s (i_sched s HI) t' x Hx) opStart Hin). congruence.
Qed.

Lemma stopAll_final : final s' → running s' = false ∧ ∀ t', ¬ has s' t' opStart.
Proof.
  intros Hf. split; [done|]. destruct stopAll_shape as (Hl & _ & Hin). pose proof stopAll_moves as Hm. intros t' (x & Hx & Ho). destruct (moves_back _ _ _ _ _ Hm t' x Hx) as [[-> ->]|[Hne Hx']].
  - cbn in Ho. apply elem_of_app in Ho as [Ho|Ho]; [|by destruct (Hin _ Ho)]. destruct (stopAll_more _ Ho) as [|[[? ?]|[_ [v ->]]]]; [done..|].
    destruct (t_ops _ _ _ ok (opStopAll (Some (v, true))) ltac:(by left)) as [Hr Hrn]. destruct Hf as (tr & y & H1 & H2 & H3 & H4). destruct (moves_back _ _ _ _ _ Hm tr y H3) as [[-> _]|[_ H3']]; [done|].
    destruct (i_final s (i_sched s HI)) as [Hr' _]; [by exists tr, y|congruence].
  - destruct (t_ops _ _ _ (i_threads s (i_sched s HI) t' x Hx') opStart Ho) as [_ [?|[Hrn He]]]; [congruence|]. destruct Hf as (tr & y & H1 & H2 & _). cbn in H2. congruence.
Qed.

Lemma stopAll_threadOk : threadOk s' t th'.
Proof.
  destruct stopAll_shape as (Hl & Hh & Hin). split; cbn [tWaits tOps th']; [done|done| | |by apply holding_push].
  - intros l (r & g & Hg & Hr & Hll)%elem_of_taken. destruct (i_loop _ _ _ (i_regs s HI r g Hg) l Hll) as (lp & Hlp & Hlr & _). eexists _, _. split; [apply stopAll_loop; eauto|].
    split; [apply stopAll_reg; exists g; split; [|reflexivity]; case_bool_decide; cbn; by rewrite Hlr|]. rewrite Hr. split; [done|by left].
  - intros o [Ho|Ho]%elem_of_app; [destruct (stopAll_more _ Ho) as [->|[[v ->]|[-> _]]]; [done..|]; split; [done|by left]|].
    pose proof (t_ops _ _ _ ok o ltac:(by right)) as Hok. by destruct (Hin o Ho) as [-> | ->].
Qed.

Lemma stopAll_regOk (r : nat) (g : registration) : registrations s !! r = Some g → regOk s' r (if registered g then setLoop None g else g).
Proof.
  intros Hg. destruct (i_regs s HI r g Hg) as [H1 H2 H3 H4 H5 H6 H7 H8 H9]. destruct stopAll_shape as (Hl & Hh & Hin). pose proof stopAll_moves as Hm.
  assert (∀ l, Live s r l → waited s l → waited s' l) as Hwd by (intros l (lp & Hlp & _ & Hne); by eapply moves_waited).
  assert (registered g = false → removalRequested g = false → ∃ t', has s' t' (opTake r)) as Hdel.
  { intros Hr1 Hr2. destruct (H5 Hr1 Hr2) as (t' & Hht). exists t'. eapply moves_has; [done| |done]. intros [?|Ho]%elem_of_cons; [done|]. by destruct (Hin _ Ho). }
  destruct (registered g) eqn:Hreg; split; cbn; try done; try congruence.
  - intros _ Hr. eapply moves_final; [done|auto].
  - intros _. by apply H6.
  - intros l Hlive. right. apply stopAll_live in Hlive. destruct (H8 l Hlive) as [Hll|?]; [|auto]. exists t, th'. split; [by eapply moves_self|]. apply elem_of_taken. eauto.
  - intros Hrem l1 l2 Hl1%stopAll_live Hl2%stopAll_live. auto.
  - intros _. by apply Hdel.
  - intros l Hll. destruct (H7 l Hll) as (lp & Hlp & Hlr & Hc). exists lp. split; [|done]. apply stopAll_loop. exists lp. split; [done|]. rewrite bool_decide_false; [done|].
    intros (r' & g2 & Hg2 & Hr2 & Hl2)%elem_of_taken. destruct (i_loop _ _ _ (i_regs s HI r' g2 Hg2) l Hl2) as (lp2 & Hlp2 & Hlr2 & _). congruence.
  - intros l Hlive. apply stopAll_live in Hlive. destruct (H8 l Hlive) as [?|?]; auto.
  - intros Hrem l1 l2 Hl1%stopAll_live Hl2%stopAll_live. auto.
Qed.

Lemma inv_stopAll : Inv s'.
Proof.
  pose proof stopAll_moves as Hm. pose proof (i_sched s HI) as HS. destruct stopAll_shape as (Hl & Hh & Hin). split.
  - apply (schedOk_moves s s' t _ _ Hm HS stopAll_threadOk).
    + intros t' x Hne Hx. apply (evolves_moves s s' t _ _ Hm t' x HS Hne Hx); [right| | |by left].
      * split; [congruence|done].
      * intros r g Hg. eexists. split; [apply stopAll_reg; exists g; split; [done|reflexivity]|]. destruct (registered g) eqn:Hr; cbn; repeat split; try done; congruence.
      * intros l lp Hlp. eexists. split; [apply stopAll_loop; eauto|]. by case_bool_decide.
    + cbn. intros [Ho|Ho]%elem_of_app; [|by destruct (Hin _ Ho)]. destruct (stopAll_more _ Ho) as [|[[? ?]|[_ Ha]]]; [done..|]. right. by apply stopAll_start.
    + apply stopAll_final.
    + intros Hn. split; [done|]. cbn. intros [Ho|Ho]%elem_of_app; [|by destruct (Hin _ Ho)]. destruct (stopAll_more _ Ho) as [|[[? ?]|[_ [v ->]]]]; [done..|].
      destruct (t_ops _ _ _ ok (opStopAll (Some (v, true))) ltac:(by left)) as [Hr _]. destruct (i_norun s HS Hn). congruence.
    + apply not_pushing_count; apply holding_not_pushing; [by apply (t_holds _ _ _ ok)|done].
    + intros Hb. left. split; [done|]. intros v [?|Ho]%elem_of_cons; [done|]. by destruct (Hin _ Ho).
    + apply HS.
  - intros r g' (g & Hg & ->)%stopAll_reg. by apply stopAll_regOk.
  - intros l lp' (lp & Hlp & ->)%stopAll_loop. destruct (i_loops s HI l lp Hlp) as (g & Hg & Hhk). exists (if registered g then setLoop None g else g).
    split; [apply stopAll_reg; exists g; split; [|done]; by case_bool_decide|]. intros Hr. assert (registered g = true) as Hr' by (destruct (registered g) eqn:E; congruence). specialize (Hhk Hr'). by case_bool_decide.
Qed.
End StopAll.

(** The wait for a loop. *)
Lemma inv_wait (s s' : Registry) (t l : nat) (waits : list nat) (ops : list op) :
  Inv s → threads s !! t = Some (mkThread (l :: waits) ops) → runThread s t = Some s' → Inv s'.
Proof.
  intros HI Ht Hs. unfold runThread in Hs. rewrite Ht in Hs. cbn in Hs. apply bind_Some in Hs as (lp & Hlp & Hs). pose proof (i_threads s (i_sched s HI) t _ Ht) as Hok.
  destruct (t_waits _ _ _ Hok l ltac:(by left)) as (lp' & g & Hlp' & Hg & Hne & _). assert (lp' = lp) as -> by congruence. destruct (cancelled lp) eqn:Hc.
  - destruct (lpc lp) eqn:Hpc; try done. injection Hs as <-.
    assert (moves s (setThread t (mkThread waits ops) s) t (mkThread (l :: waits) ops) (mkThread waits ops)) as Hm.
    { split; try done; [|by left]. intros l' lp' [->|Hin]%elem_of_cons Hl'; [right; congruence|by left]. }
    eapply (inv_quiet s _ t _ _ Hm HI); try done; [|auto|apply HI]. destruct Hok as [H1 H2 H3 H4 H5]. split; try done.
    + intros Hl. destruct (H2 Hl) as [(o & tail & [=] & _)|?]. by right.
    + intros l' Hin. apply (H3 l'). by right.
    + intros o Ho. eapply opOk_quiet; [by apply H4|done..|by eapply moves_final|by left].
  - injection Hs as <-. eapply (inv_loop s l lp _ g (pushes s)); try done; [|apply HI]. intros Hr. destruct (i_loops s HI l lp Hlp) as (g0 & Hg0 & Hh). assert (g0 = g) as -> by congruence. by apply Hh.
Qed.

(** * Every state *)
Lemma reg_inv_init : Inv init.
Proof.
  split; [split; cbn; try done|intros r g Hg; cbn in Hg; by rewrite lookup_nil in Hg|intros l lp Hlp; cbn in Hlp; by rewrite lookup_nil in Hlp].
  - intros t t' (x & Hx & _). cbn in Hx. by rewrite lookup_nil in Hx.
  - intros (t & x & ? & _). done.
  - intros _. split; [done|]. intros t (x & Hx & _). cbn in Hx. by rewrite lookup_nil in Hx.
Qed.

Lemma inv_runOp (s s' : Registry) (t : nat) (o : op) (ops : list op) : Inv s → threads s !! t = Some (mkThread [] (o :: ops)) → runOp s t o ops = Some s' → Inv s'.
Proof.
  intros HI Ht Hs. destruct o; [by eapply step_lock|by eapply step_unlock|by eapply step_start|by eapply step_restartScrape| |by eapply step_readRunning|by eapply step_block|by eapply step_setHooks|
    by eapply step_restartRead|by eapply step_restartTake|by eapply step_startLoop|by eapply step_delete|by eapply step_take|by eapply step_close|by eapply step_stopCallback|by eapply step_unregisterAll|
    by eapply step_pushBegin|by eapply step_push|by eapply step_pushEnd].
  injection Hs as <-. by apply inv_stopAll.
Qed.

(** The goroutines that the calls start. *)
Lemma spawned_locked (s s' : Registry) (o : op) : Inv s → startStopLock s' = startStopLock s → firstWork o → opOk s' (length (threads s)) o → threadOk s' (length (threads s)) (mkThread [] [opLock; o; opUnlock]).
Proof.
  intros HI Hl Ho Hok. assert (∀ o', o' ∈ [opLock; o; opUnlock] → o' = opLock ∨ o' = o ∨ o' = opUnlock) as Hin.
  { intros o'. rewrite !elem_of_cons. intros [->|[->|[->|Hx]]]; auto. by apply not_elem_of_nil in Hx. }
  split; cbn [tOps tWaits].
  - rewrite Hl. intros Hx. apply (i_lock s (i_sched s HI)) in Hx. lia.
  - intros _. left. exists o, []. split; [done|]. split; [done|by left].
  - intros l Hx. by apply not_elem_of_nil in Hx.
  - intros o' Ho'. by destruct (Hin o' Ho') as [->|[-> | ->]].
  - apply pushOps_free; [intros h Hx|intros Hx..]; destruct (Hin _ Hx) as [|[<-|]]; try done; inversion Ho.
Qed.

Lemma locked_not_pushing (o : op) : firstWork o → ¬ pushing (mkThread [] [opLock; o; opUnlock]).
Proof. intros Ho Hx. unfold pushing in Hx. cbn in Hx. rewrite !elem_of_cons in Hx. destruct Hx as [?|[<-|[?|Hx]]]; [done|inversion Ho|done|by apply not_elem_of_nil in Hx]. Qed.

Lemma spawned_free (s s' : Registry) (o : op) : Inv s → startStopLock s' = startStopLock s → freeOp o → opOk s' (length (threads s)) o → (∀ h, o ≠ opPush h) → o ≠ opPushEnd →
  threadOk s' (length (threads s)) (mkThread [] [o]) ∧ ¬ pushing (mkThread [] [o]).
Proof.
  intros HI Hl Ho Hok H1 H2. split; [|unfold pushing; cbn; intros Hx; apply list_elem_of_singleton in Hx; congruence]. split; cbn [tOps tWaits].
  - rewrite Hl. intros Hx. apply (i_lock s (i_sched s HI)) in Hx. lia.
  - intros _. right. by constructor.
  - intros l Hx. by apply not_elem_of_nil in Hx.
  - intros o' ->%list_elem_of_singleton. done.
  - split; [intros h <-%list_elem_of_singleton; by destruct (H1 h)|]. split; intros <-%list_elem_of_singleton; done.
Qed.

Lemma inv_act (s s' : Registry) (a : action) : Inv s → act s a = Some s' → Inv s'.
Proof.
  intros HI. assert (runner s ≠ Some (length (threads s))) as Hrn by (intros Hr; apply (i_runner s (i_sched s HI)) in Hr; lia).
  destruct a as [|r|v| |r|r ch| | |t|l c]; cbn [act]; intros Hs.
  - injection Hs as <-. by apply inv_addRegistration.
  - case_bool_decide as Hlt; [|done]. injection Hs as <-. destruct (spawned_free s (spawn [opDelete r] s) (opDelete r)) as [? ?]; try done.
    eapply inv_spawn; [done|left; split; [reflexivity|]|done|done]. intros Hx. by apply list_elem_of_singleton in Hx.
  - injection Hs as <-. eapply inv_spawn; [done|left; split; [reflexivity|]|apply locked_not_pushing; constructor|by apply spawned_locked; [..|constructor|]]. set_solver.
  - injection Hs as <-. destruct (spawned_free s (spawn [opPushBegin] s) opPushBegin) as [? ?]; try done.
    eapply inv_spawn; [done|left; split; [reflexivity|]|done|done]. intros Hx. by apply list_elem_of_singleton in Hx.
  - by eapply inv_runNow.
  - apply bind_Some in Hs as (g & Hg & Hs). assert (Inv (setRegistrations (<[r := setHookUsed (hook s) g]> (registrations s)) s)) as HI' by (by eapply inv_regs).
    destruct (_ || _); injection Hs as <-; [|done]. eapply inv_spawn; [done|left; split; [reflexivity|]|apply locked_not_pushing; constructor|apply spawned_locked; [done..|constructor|]]; [set_solver|].
    cbn. rewrite length_insert. by eapply lookup_lt_Some.
  - destruct (runner s) eqn:Hr; [done|]. injection Hs as <-. eapply inv_spawn; [done|by right|apply locked_not_pushing; constructor|apply spawned_locked; [done..|constructor|]].
    destruct (i_norun s (i_sched s HI) Hr) as [Hrun _]. split; [done|by right].
  - apply bind_Some in Hs as (t & Ht & Hs). apply bind_Some in Hs as ([w ops] & Hth & Hs). cbn in Hs. destruct w, ops; try done. destruct (ended s) eqn:He; [done|]. injection Hs as <-. by apply inv_end.
  - unfold runThread in Hs. destruct (threads s !! t) as [[[|l w] ops]|] eqn:Ht; [|by eapply (inv_wait s s' t l w ops); [done..|unfold runThread; rewrite Ht]|done].
    cbn in Hs. destruct ops as [|o ops]; [done|]. by eapply inv_runOp.
  - by eapply inv_runLoop.
Qed.

Lemma inv_acts (s s' : Registry) (l : list action) : Inv s → acts s l = Some s' → Inv s'.
Proof.
  revert s. induction l as [|a l IH]; intros s HI Ha; [by injection Ha as <-|]. cbn [acts] in Ha. apply bind_Some in Ha as (s1 & H1 & H2). eapply IH; [|done]. by eapply inv_act.
Qed.

(** * A removed registration *)
Section Calm.
Context (r : nat).

Definition restartOf (o : op) : bool := match o with opRestartRead r' | opRestartTake r' _ | opStartLoop r' _ => bool_decide (r' = r) | _ => false end.

(** Nothing restarts the loop of [r]; once its removal is requested it has none. *)
Record calm (s : Registry) : Prop := {
  c_ops : Forall (λ th, Forall (λ o, restartOf o = false) (tOps th)) (threads s);
  c_loop : ∀ g, registrations s !! r = Some g → removalRequested g = true → rloop g = None;
}.

Lemma calm_set (s s' : Registry) (t : nat) (th : thread) :
  calm s → threads s' = <[t := th]> (threads s) → Forall (λ o, restartOf o = false) (tOps th) →
  (∀ g', registrations s' !! r = Some g' → removalRequested g' = true → ∃ g, registrations s !! r = Some g ∧ (removalRequested g = true ∧ rloop g' = rloop g ∨ rloop g' = None)) → calm s'.
Proof.
  intros [Ho Hl] Hts Hth Hr. split; [rewrite Hts; by apply Forall_insert|]. intros g' Hg' Hrem. destruct (Hr g' Hg' Hrem) as (g & Hg & [[Hrem' ->]| ->]); [by apply Hl|done].
Qed.

Lemma calm_insert (s : Registry) (r0 : nat) (g0 g1 g' : registration) :
  registrations s !! r0 = Some g0 → removalRequested g1 = removalRequested g0 → rloop g1 = rloop g0 ∨ rloop g1 = None → <[r0 := g1]> (registrations s) !! r = Some g' → removalRequested g' = true →
  ∃ g, registrations s !! r = Some g ∧ (removalRequested g = true ∧ rloop g' = rloop g ∨ rloop g' = None).
Proof.
  intros Hg0 E2 E4 [[-> [<- _]]|[Hne Hg']]%list_lookup_insert_Some Hrem; [|eauto]. exists g0. split; [done|]. rewrite E2 in Hrem. destruct E4; auto.
Qed.

Lemma calm_startLoop (s : Registry) (r0 : nat) (b : bool) (g' : registration) :
  (r0 = r → ∀ g, registrations s !! r = Some g → removalRequested g = false) → registrations (startLoop r0 b s) !! r = Some g' → removalRequested g' = true →
  ∃ g, registrations s !! r = Some g ∧ (removalRequested g = true ∧ rloop g' = rloop g ∨ rloop g' = None).
Proof.
  intros Hr Hg' Hrem. unfold startLoop in Hg'. destruct (registrations s !! r0) as [g0|] eqn:Hg0; [|eauto]. cbn in Hg'. apply list_lookup_insert_Some in Hg' as [[-> [<- _]]|[Hne Hg']]; [|eauto].
  cbn in Hrem. rewrite (Hr eq_refl g0 Hg0) in Hrem. done.
Qed.

Lemma calm_fmap (s : Registry) (f : registration → registration) (g' : registration) :
  (∀ g, removalRequested (f g) = removalRequested g ∧ (rloop (f g) = rloop g ∨ rloop (f g) = None)) → (f <$> registrations s) !! r = Some g' → removalRequested g' = true →
  ∃ g, registrations s !! r = Some g ∧ (removalRequested g = true ∧ rloop g' = rloop g ∨ rloop g' = None).
Proof.
  intros Hf Hg' Hrem. rewrite list_lookup_fmap in Hg'. apply fmap_Some in Hg' as (g & Hg & ->). destruct (Hf g) as [E2 E4]. exists g. split; [done|]. rewrite E2 in Hrem. destruct E4; auto.
Qed.

Lemma calm_runOp (s s' : Registry) (t : nat) (o : op) (ops : list op) :
  Inv s → calm s → threads s !! t = Some (mkThread [] (o :: ops)) → runOp s t o ops = Some s' → calm s'.
Proof.
  intros HI Hc Ht Hs. assert (Forall (λ o, restartOf o = false) (o :: ops)) as [Ho Hops]%Forall_cons by (apply (Forall_lookup_1 _ _ _ _ (c_ops s Hc) Ht)).
  pose proof (i_threads s (i_sched s HI) t _ Ht) as Hok.
  destruct o as [| | |r0|a|v| |v|r0|r0 st|r0 b|r0|r0|r0|r0| | |h|]; cbn in Hs.
  all: try (injection Hs as <-; (eapply (calm_set s _ t _ Hc); [reflexivity|..]); cbn; [by repeat constructor|eauto]; fail).
  - destruct (startStopLock s); [done|]. injection Hs as <-. (eapply (calm_set s _ t _ Hc); [reflexivity|..]); eauto.
  - injection Hs as <-. (eapply (calm_set s _ t _ Hc); [reflexivity|..]); [|eauto]. cbn. apply Forall_app. split; [|done]. by apply Forall_fmap, Forall_true.
  - destruct (t_ops _ _ _ Hok (opRestartScrape r0) ltac:(by left)) as [_ (g & Hg & Hn)]. unfold restartScrapeLoop in Hs. rewrite Hg, Hn, (i_progress _ _ _ (i_regs s HI r0 g Hg)) in Hs.
    destruct (removalRequested g) eqn:Hrem; injection Hs as <-; [(eapply (calm_set s _ t _ Hc); [reflexivity|..]); eauto|].
    eapply (calm_set s _ t _ Hc); [unfold startLoop; rewrite Hg; reflexivity|done|intros g'; apply calm_startLoop; intros ->; congruence].
  - injection Hs as <-. (eapply (calm_set s _ t _ Hc); [reflexivity|..]); [|intros g'; cbn; apply calm_fmap; intros g; destruct (registered g); cbn; auto].
    cbn. apply Forall_app. split; [|done]. destruct a as [[v []]|]; repeat constructor.
  - case_bool_decide; [|done]. injection Hs as <-. (eapply (calm_set s _ t _ Hc); [reflexivity|..]); [done|]. intros g'. cbn. apply calm_fmap. intros g. destruct (registered g); cbn; auto.
  - cbn in Ho. apply bool_decide_eq_false in Ho. unfold restartLoop in Hs. destruct (registrations s !! r0) as [g|] eqn:Hg; [|injection Hs as <-; (eapply (calm_set s _ t _ Hc); [reflexivity|..]); eauto].
    destruct (rloop g) as [l|] eqn:Hl.
    + injection Hs as <-. (eapply (calm_set s _ t _ Hc); [reflexivity|..]); [|intros g'; cbn; eapply calm_insert; [done|done|by right]]. cbn. destruct st; cbn; [done|]. constructor; [by apply bool_decide_eq_false|done].
    + injection Hs as <-. destruct st; [(eapply (calm_set s _ t _ Hc); [reflexivity|..]); eauto|]. eapply (calm_set s _ t _ Hc); [unfold startLoop; rewrite Hg; reflexivity|done|intros g'; apply calm_startLoop; congruence].
  - injection Hs as <-. cbn in Ho. apply bool_decide_eq_false in Ho. eapply (calm_set s _ t _ Hc); [unfold startLoop; destruct (registrations s !! r0); reflexivity|done|intros g'; apply calm_startLoop; congruence].
  - destruct (registrations s !! r0) as [g|] eqn:Hg; [|done]. destruct (registered g); injection Hs as <-; (eapply (calm_set s _ t _ Hc); [reflexivity|..]); cbn; eauto. intros g'. eapply calm_insert; [done|done|by left].
  - unfold unregisterInner in Hs. destruct (registrations s !! r0) as [g|] eqn:Hg; injection Hs as <-; ((eapply (calm_set s _ t _ Hc); [reflexivity|..]); [by repeat constructor|]); [|eauto].
    intros g'. cbn. intros [[-> [<- _]]|[Hne Hg']]%list_lookup_insert_Some Hrem; [|eauto]. exists g. auto.
  - apply bind_Some in Hs as (g & Hg & [= <-]). (eapply (calm_set s _ t _ Hc); [reflexivity|..]); [done|]. intros g'. cbn. eapply calm_insert; [done|done|by left].
  - apply bind_Some in Hs as (g & Hg & [= <-]). (eapply (calm_set s _ t _ Hc); [reflexivity|..]); [done|]. intros g'. cbn. eapply calm_insert; [done|done|by left].
  - injection Hs as <-. (eapply (calm_set s _ t _ Hc); [reflexivity|..]); [|eauto]. cbn. apply Forall_app. split; [|done]. by apply Forall_fmap, Forall_true.
  - destruct (blockPushPoint s); [done|]. injection Hs as <-. (eapply (calm_set s _ t _ Hc); [reflexivity|..]); cbn; [by repeat constructor|eauto].
Qed.

Lemma calm_same (s s' : Registry) (ths : list thread) :
  calm s → threads s' = threads s ++ ths → Forall (λ th, Forall (λ o, restartOf o = false) (tOps th)) ths →
  (∀ g', registrations s' !! r = Some g' → removalRequested g' = true → ∃ g, registrations s !! r = Some g ∧ (removalRequested g = true ∧ rloop g' = rloop g ∨ rloop g' = None)) → calm s'.
Proof.
  intros [Ho Hl] Hts Hth Hr. split; [rewrite Hts; by apply Forall_app|]. intros g' Hg' Hrem. destruct (Hr g' Hg' Hrem) as (g & Hg & [[Hrem' ->]| ->]); [by apply Hl|done].
Qed.

Lemma calm_register (s : Registry) : calm s → calm (addRegistration s).
Proof.
  intros Hc. set (g0 := mkRegistration true false false false None (hook s) false 0). assert (calm (setRegistrations (registrations s ++ [g0]) s)) as Hc'.
  { eapply (calm_same s _ [] Hc); [by rewrite app_nil_r|constructor|]. cbn. intros g' Hg' Hrem. apply lookup_app_Some in Hg' as [Hg'|[_ [_ <-]%list_lookup_singleton_Some]]; [eauto|done]. }
  unfold addRegistration. fold g0. destruct (running s); [|done]. eapply (calm_same _ _ [] Hc'); [rewrite app_nil_r; unfold startLoop; cbn; destruct (_ !! _); reflexivity|constructor|].
  intros g'. apply calm_startLoop. cbn. intros <- g Hg. rewrite lookup_app_r, Nat.sub_diag in Hg by lia. cbn in Hg. by injection Hg as <-.
Qed.

Lemma calm_act (s s' : Registry) (a : action) : Inv s → calm s → (∀ c, a ≠ actRetry r c) → act s a = Some s' → calm s'.
Proof.
  intros HI Hc Ha. destruct a as [|r0|v| |r0|r0 ch| | |t|l c]; cbn [act]; intros Hs.
  - injection Hs as <-. by apply calm_register.
  - case_bool_decide as Hlt; [|done]. injection Hs as <-. eapply (calm_same s _ _ Hc); [reflexivity|by repeat constructor|eauto].
  - injection Hs as <-. eapply (calm_same s _ _ Hc); [reflexivity|by repeat constructor|eauto].
  - injection Hs as <-. eapply (calm_same s _ _ Hc); [reflexivity|by repeat constructor|eauto].
  - unfold runNow in Hs. apply bind_Some in Hs as (g & Hg & Hs). destruct (rloop g) eqn:Hl.
    + apply bind_Some in Hs as (lp & _ & [= <-]). eapply (calm_same s _ [] Hc); [by rewrite app_nil_r|constructor|eauto].
    + injection Hs as <-. eapply (calm_same s _ [] Hc); [by rewrite app_nil_r|constructor|]. intros g'. cbn. eapply calm_insert; [done|done|by right].
  - assert (r0 ≠ r) as Hne by (intros ->; by apply (Ha ch)). apply bind_Some in Hs as (g & Hg & Hs). assert (calm (setRegistrations (<[r0 := setHookUsed (hook s) g]> (registrations s)) s)) as Hc'.
    { eapply (calm_same s _ [] Hc); [by rewrite app_nil_r|constructor|]. intros g'. cbn. eapply calm_insert; [done|done|by left]. }
    destruct (_ || _); injection Hs as <-; [|done]. eapply (calm_same _ _ _ Hc'); [reflexivity| |eauto]. constructor; [|constructor]. cbn. repeat constructor. by apply bool_decide_eq_false.
  - destruct (runner s); [done|]. injection Hs as <-. eapply (calm_same s _ _ Hc); [reflexivity|by repeat constructor|eauto].
  - apply bind_Some in Hs as (t & Ht & Hs). apply bind_Some in Hs as ([w ops] & Hth & Hs). cbn in Hs. destruct w, ops; try done. destruct (ended s); [done|]. injection Hs as <-.
    eapply (calm_set s _ t _ Hc); [reflexivity|by repeat constructor|eauto].
  - unfold runThread in Hs. destruct (threads s !! t) as [[[|l w] ops]|] eqn:Ht; [| |done]; cbn in Hs.
    + destruct ops as [|o ops]; [done|]. by eapply calm_runOp.
    + apply bind_Some in Hs as (lp & _ & Hs). destruct (cancelled lp); [destruct (lpc lp); try done|]; injection Hs as <-.
      * eapply (calm_set s _ t _ Hc); [reflexivity|apply (Forall_lookup_1 _ _ _ _ (c_ops s Hc) Ht)|eauto].
      * eapply (calm_same s _ [] Hc); [by rewrite app_nil_r|constructor|eauto].
  - unfold runLoop in Hs. apply bind_Some in Hs as (lp & _ & Hs). apply bind_Some in Hs as (g & _ & Hs).
    destruct c, (lpc lp); try done; try (destruct (cancelled lp); try done); injection Hs as <-; (eapply (calm_same s _ [] Hc); [by rewrite app_nil_r|constructor|eauto]).
Qed.

Lemma calm_acts (s s' : Registry) (l : list action) : Inv s → calm s → (∀ c, actRetry r c ∉ l) → acts s l = Some s' → calm s'.
Proof.
  revert s. induction l as [|a l IH]; intros s HI Hc Hl Ha; [by injection Ha as <-|]. cbn [acts] in Ha. apply bind_Some in Ha as (s1 & H1 & H2).
  eapply IH; [by eapply inv_act| | |done]; [|intros c Hin; apply (Hl c); by right]. eapply calm_act; [done..| |done]. intros c ->. apply (Hl c). by left.
Qed.
End Calm.

(** * What the registry guarantees *)
Definition idle (s : Registry) : Prop := Forall (λ th, th = mkThread [] []) (threads s).

Lemma idle_not_waited (s : Registry) (l : nat) : idle s → ¬ waited s l.
Proof. intros Hi (t & th & Ht & Hin). apply (Forall_lookup_1 _ _ _ _ Hi) in Ht as ->. by apply not_elem_of_nil in Hin. Qed.

Lemma idle_not_has (s : Registry) (t : nat) (o : op) : idle s → ¬ has s t o.
Proof. intros Hi (th & Ht & Hin). apply (Forall_lookup_1 _ _ _ _ Hi) in Ht as ->. by apply not_elem_of_nil in Hin. Qed.

(** C13. On every interleaving of the goroutines that register, unregister, restart, start and stop the loops and of the loops themselves, a
    registration has at most one loop alive until its removal is requested; and when no call is in progress, a registered one
    has exactly one loop, that is not cancelled, when the registry runs and none otherwise, and one that is unregistered
    and that no gather has restarted has none. *)
Theorem loops_of_registrations (l : list action) (s : Registry) (r : nat) (g : registration) :
  acts init l = Some s → registrations s !! r = Some g →
  (removalRequested g = false → ∀ l1 l2, Live s r l1 → Live s r l2 → l1 = l2) ∧
  (idle s →
    (registered g = true → running s = true → ∃ l1 lp, rloop g = Some l1 ∧ loops s !! l1 = Some lp ∧ cancelled lp = false ∧ ∀ l2, Live s r l2 ↔ l2 = l1) ∧
    (registered g = true → running s = false → ∀ l1, ¬ Live s r l1) ∧
    (registered g = false → (∀ c, actRetry r c ∉ l) → ∀ l1, ¬ Live s r l1)).
Proof.
  intros Ha Hg. pose proof (inv_acts init s l reg_inv_init Ha) as HI. pose proof (i_regs s HI r g Hg) as [H1 H2 H3 H4 H5 H6 H7 H8 H9]. split; [done|]. intros Hi.
  assert (∀ l1, Live s r l1 → rloop g = Some l1) as Hown by (intros l1 Hl; destruct (H8 l1 Hl) as [?|Hw]; [done|by destruct (idle_not_waited s l1 Hi)]). split; [|split].
  - intros Hreg Hrun. destruct (H2 Hrun Hreg) as [[l1 Hl]|(t & b & _ & [Hh|Hh])]; [|by destruct (idle_not_has s t _ Hi Hh)..].
    destruct (H7 l1 Hl) as (lp & Hlp & Hlr & Hc & Hne). exists l1, lp. split; [done|]. split; [done|]. split; [done|]. intros l2. split; [intros Hl2; apply Hown in Hl2; congruence|intros ->; by exists lp].
  - intros Hreg Hrun l1 Hl. apply Hown in Hl. by rewrite (H1 Hrun Hreg) in Hl.
  - intros Hreg Hno l1 Hl. apply Hown in Hl. assert (calm r s) as Hc.
    { eapply (calm_acts r init s l reg_inv_init); [split; [constructor|intros ? Hx; cbn in Hx; by rewrite lookup_nil in Hx]|done|done]. }
    destruct (removalRequested g) eqn:Hrem; [by rewrite (c_loop r s Hc g Hg Hrem) in Hl|]. destruct (H5 Hreg eq_refl) as (t & Hh). by destruct (idle_not_has s t _ Hi Hh).
Qed.

(** C14. Once the hooks are changed the points have the new labels: on every interleaving, the points given to [PushPoint] by [pushPoint], and by
    the loop of a registration that is registered, were labelled by the hooks that are in force. *)
Theorem pushes_current (l : list action) (s : Registry) :
  acts init l = Some s → Forall (λ p, fromRegistered p = true → labelled p = current p) (pushes s).
Proof. intros Ha. apply (i_sched s (inv_acts init s l reg_inv_init Ha)). Qed.

(** * The calls return *)
Section Return.
(** A bound on the steps that a section and those that follow from it take, for [n] registrations. *)
Definition opWeight (n : nat) (o : op) : nat :=
  match o with
  | opStart => 1 + 8 * n
  | opRestartScrape _ | opRestartTake _ _ => 8
  | opStopAll _ => 4 + 9 * n
  | opReadRunning _ => 5 + 9 * n
  | opRestartRead _ => 9
  | opStartLoop _ _ => 6
  | opDelete _ => 5
  | opTake _ => 4
  | opUnregisterAll => 1 + 4 * n
  | opPushBegin => 3
  | _ => 1
  end.
Definition threadWeight (n : nat) (th : thread) : nat := sum_list_with (opWeight n) (tOps th) + length (tWaits th).
(** A loop that is not cancelled runs as long as it is not. *)
Definition loopWeight (lp : scrapeLoop) : nat :=
  if cancelled lp then match lpc lp with LExited => 0 | LWait => 1 | LPush _ => 2 | LGather _ => 3 | LReady => 4 end else 5.
Definition potential (s : Registry) : nat := sum_list_with (threadWeight (length (registrations s))) (threads s) + sum_list_with loopWeight (loops s).

(** A step of a call in progress: of its goroutine, or of a loop that was told to stop. *)
Definition callStep (s : Registry) (a : action) : bool :=
  match a with actThread _ => true | actLoop l _ => match loops s !! l with Some lp => cancelled lp | None => false end | _ => false end.
Definition internal (a : action) : bool := match a with actThread _ | actLoop _ _ => true | _ => false end.
Fixpoint callSteps (s : Registry) (l : list action) : nat :=
  match l with [] => 0 | a :: l => match act s a with None => 0 | Some s' => (if callStep s a then 1 else 0) + callSteps s' l end end.

Lemma sum_insert {A : Type} (f : A → nat) (l : list A) (i : nat) (x y : A) : l !! i = Some x → (sum_list_with f (<[i := y]> l) + f x = sum_list_with f l + f y)%nat.
Proof.
  revert i. induction l as [|z l IH]; intros i Hi; [done|]. destruct i as [|i]; cbn in Hi; [injection Hi as ->; cbn; lia|]. specialize (IH i Hi). change (<[S i := y]> (z :: l)) with (z :: <[i := y]> l). cbn. lia.
Qed.

Lemma sum_app {A : Type} (f : A → nat) (l k : list A) : sum_list_with f (l ++ k) = (sum_list_with f l + sum_list_with f k)%nat.
Proof. induction l as [|x l IH]; [done|]. cbn. lia. Qed.

Lemma sum_const {A B : Type} (f : B → nat) (h : A → B) (c : nat) (l : list A) : (∀ x, f (h x) = c) → sum_list_with f (h <$> l) = (c * length l)%nat.
Proof. intros Hc. induction l as [|x l IH]; [cbn; lia|]. cbn. rewrite Hc. change (list_fmap A B h l) with (h <$> l). lia. Qed.

Lemma registeredIds_length (s : Registry) : (length (registeredIds s) ≤ length (registrations s))%nat.
Proof. unfold registeredIds. etransitivity; [apply length_filter|]. by rewrite length_seq. Qed.

Lemma omap_length {A B : Type} (f : A → option B) (l : list A) : (length (omap f l) ≤ length l)%nat.
Proof. induction l as [|x l IH]; [done|]. cbn. destruct (f x); cbn; change (list_omap A B f l) with (omap f l); lia. Qed.

(** The loops that are stopped all at once do not get heavier. *)
Lemma imap_weight (P : nat → bool) (l : list scrapeLoop) : (sum_list_with loopWeight (imap (λ i lp, if P i then mkLoop (lreg lp) true (trigger lp) (lpc lp) else lp) l) ≤ sum_list_with loopWeight l)%nat.
Proof.
  revert P. induction l as [|lp l IH]; intros P; [done|]. cbn. specialize (IH (λ i, P (S i))). unfold compose. apply Nat.add_le_mono; [|done].
  destruct (P 0%nat); [|done]. unfold loopWeight. cbn. destruct (lpc lp), (cancelled lp); lia.
Qed.

Lemma startLoop_weight (s : Registry) (r : nat) (b : bool) :
  length (registrations (startLoop r b s)) = length (registrations s) ∧ threads (startLoop r b s) = threads s ∧ (sum_list_with loopWeight (loops (startLoop r b s)) ≤ sum_list_with loopWeight (loops s) + 5)%nat.
Proof.
  unfold startLoop. destruct (registrations s !! r) as [g|]; [|split; [done|]; split; [done|lia]]. cbn. rewrite length_insert, sum_app. split; [done|]. split; [done|]. destruct (runOnStart g); cbn; lia.
Qed.

Lemma potential_thread (s s' : Registry) (t : nat) (th th' : thread) :
  threads s !! t = Some th → threads s' = <[t := th']> (threads s) → length (registrations s') = length (registrations s) →
  (threadWeight (length (registrations s)) th' + sum_list_with loopWeight (loops s') < threadWeight (length (registrations s)) th + sum_list_with loopWeight (loops s))%nat →
  (potential s' < potential s)%nat.
Proof. intros Ht Hts Hn Hlt. unfold potential. rewrite Hts, Hn. pose proof (sum_insert (threadWeight (length (registrations s))) (threads s) t th th' Ht). lia. Qed.

#[local] Ltac lighter Ht := eapply (potential_thread _ _ _ _ _ Ht); [reflexivity|cbn; by rewrite ?length_insert, ?length_fmap|unfold threadWeight; cbn; lia].
#[local] Ltac lighter_start Ht W := eapply (potential_thread _ _ _ _ _ Ht); [cbn; by rewrite (proj1 (proj2 W))|apply W|unfold threadWeight; cbn -[startLoop]; destruct W as (_ & _ & W); lia].

Lemma runOp_potential (s s' : Registry) (t : nat) (o : op) (ops : list op) :
  threads s !! t = Some (mkThread [] (o :: ops)) → runOp s t o ops = Some s' → (potential s' < potential s)%nat.
Proof.
  intros Ht Hs. pose proof (registeredIds_length s) as Hids.
  destruct o as [| | |r0|a|v| |v|r0|r0 st|r0 b|r0|r0|r0|r0| | |h|]; cbn in Hs; try (injection Hs as <-; lighter Ht; fail).
  - destruct (startStopLock s); [done|]. injection Hs as <-. lighter Ht.
  - injection Hs as <-. eapply (potential_thread s _ t _ _ Ht); [reflexivity|done|]. unfold threadWeight. cbn [tOps tWaits loops setThread setThreads setRunning sum_list_with]. rewrite sum_app, (sum_const _ _ 8) by done. cbn. lia.
  - unfold restartScrapeLoop in Hs. destruct (registrations s !! r0) as [g|] eqn:Hg; [|injection Hs as <-; lighter Ht]. destruct (removalRequested g); [injection Hs as <-; lighter Ht|].
    destruct (restartInProgress g); [injection Hs as <-; lighter Ht|]. pose proof (startLoop_weight s r0 true) as W. destruct (rloop g) as [l|]; injection Hs as <-; [lighter Ht|lighter_start Ht W].
  - injection Hs as <-. eapply (potential_thread s _ t _ _ Ht); [reflexivity|cbn; by rewrite length_fmap|]. unfold threadWeight. cbn [tOps tWaits].
    pose proof (imap_weight (λ l, bool_decide (l ∈ omap (λ r, registrations s !! r ≫= rloop) (registeredIds s))) (loops s)). pose proof (omap_length (λ r, registrations s !! r ≫= rloop) (registeredIds s)).
    destruct a as [[v []]|]; cbn -[imap omap registeredIds]; lia.
  - case_bool_decide; [|done]. injection Hs as <-. lighter Ht.
  - unfold restartLoop in Hs. destruct (registrations s !! r0) as [g|] eqn:Hg; [|injection Hs as <-; lighter Ht]. pose proof (startLoop_weight s r0 false) as W.
    destruct (rloop g) as [l|]; injection Hs as <-; destruct st; [lighter Ht|lighter Ht|lighter Ht|lighter_start Ht W].
  - injection Hs as <-. pose proof (startLoop_weight s r0 b) as W. lighter_start Ht W.
  - destruct (registrations s !! r0) as [g|] eqn:Hg; [|done]. destruct (registered g); injection Hs as <-; lighter Ht.
  - unfold unregisterInner in Hs. destruct (registrations s !! r0) as [g|] eqn:Hg; [|injection Hs as <-; lighter Ht]. destruct (rloop g); injection Hs as <-; lighter Ht.
  - apply bind_Some in Hs as (g & Hg & [= <-]). lighter Ht.
  - apply bind_Some in Hs as (g & Hg & [= <-]). lighter Ht.
  - injection Hs as <-. eapply (potential_thread s _ t _ _ Ht); [reflexivity|done|]. unfold threadWeight. cbn [tOps tWaits loops setThread setThreads sum_list_with]. rewrite sum_app, (sum_const _ _ 4) by done. cbn. lia.
  - destruct (blockPushPoint s); [done|]. injection Hs as <-. lighter Ht.
Qed.

Lemma potential_loop (s : Registry) (l : nat) (lp lp' : scrapeLoop) (p : list push) :
  loops s !! l = Some lp →
  (potential (mkRegistry (running s) (startStopLock s) (runner s) (ended s) (blockPushPoint s) (countPushPoints s) (hook s) (registrations s) (<[l := lp']> (loops s)) (threads s) p) + loopWeight lp =
   potential s + loopWeight lp')%nat.
Proof. intros Hlp. unfold potential. cbn. pose proof (sum_insert loopWeight (loops s) l lp lp' Hlp). lia. Qed.

(** A step of a call is counted, and the others do not add to the count. *)
Lemma act_potential (s s' : Registry) (a : action) : internal a = true → act s a = Some s' → (potential s' + (if callStep s a then 1 else 0) ≤ potential s)%nat.
Proof.
  destruct a as [| | | | | | | |t|l c]; try done; intros _ Hs; cbn [act callStep] in *.
  - unfold runThread in Hs. destruct (threads s !! t) as [[[|l w] ops]|] eqn:Ht; [| |done]; cbn in Hs.
    + destruct ops as [|o ops]; [done|]. pose proof (runOp_potential s s' t o ops Ht Hs). lia.
    + apply bind_Some in Hs as (lp & Hlp & Hs). destruct (cancelled lp) eqn:Hc.
      * destruct (lpc lp) eqn:Hpc; try done. injection Hs as <-. enough (potential (setThread t (mkThread w ops) s) < potential s)%nat by lia. lighter Ht.
      * injection Hs as <-. pose proof (potential_loop s l lp (mkLoop (lreg lp) true (trigger lp) (lpc lp)) (pushes s) Hlp) as Hp. unfold setLoops. unfold loopWeight in Hp. rewrite Hc in Hp. cbn [cancelled lpc] in Hp.
        destruct (lpc lp); lia.
  - unfold runLoop in Hs. apply bind_Some in Hs as (lp & Hlp & Hs). apply bind_Some in Hs as (g & Hg & Hs). rewrite Hlp. pose proof (λ lp' p, potential_loop s l lp lp' p Hlp) as Hp.
    destruct c, (lpc lp) as [| |h|h|] eqn:Hpc; try done; destruct (cancelled lp) eqn:Hc; try done; injection Hs as <-; unfold setLoops, addPush; cbn [running startStopLock runner ended blockPushPoint countPushPoints hook registrations loops threads pushes].
    all: match goal with |- context [potential (mkRegistry _ _ _ _ _ _ _ _ (<[_ := ?x]> _) _ ?p)] => specialize (Hp x p) end; unfold loopWeight in Hp; rewrite Hpc, Hc in Hp; cbn [cancelled lpc] in Hp; lia.
Qed.

(** A goroutine that waits for a loop, or the loop, can move. *)
Lemma wait_progress (s : Registry) (t l : nat) (w : list nat) (ops : list op) :
  Inv s → threads s !! t = Some (mkThread (l :: w) ops) → ∃ a s', callStep s a = true ∧ act s a = Some s'.
Proof.
  intros HI Ht. destruct (t_waits _ _ _ (i_threads s (i_sched s HI) t _ Ht) l ltac:(by left)) as (lp & g & Hlp & Hg & _).
  assert (∀ c s', cancelled lp = true → runLoop s l c = Some s' → ∃ a s', callStep s a = true ∧ act s a = Some s') as Hloop by (intros c s' Hc Hs; exists (actLoop l c), s'; cbn; by rewrite Hlp).
  assert (∀ s', runThread s t = Some s' → ∃ a s', callStep s a = true ∧ act s a = Some s') as Hthread by (intros s' Hs; by exists (actThread t), s').
  unfold runThread in Hthread. rewrite Ht in Hthread. cbn in Hthread. rewrite Hlp in Hthread. cbn in Hthread. destruct (cancelled lp) eqn:Hc; [|by eapply Hthread].
  destruct (lpc lp) as [| |h|h|] eqn:Hpc; [eapply (Hloop lsExit)|eapply (Hloop lsSkip)|eapply (Hloop lsDone)|eapply (Hloop lsPush)|by eapply Hthread]; try done;
    unfold runLoop; rewrite Hlp; cbn; rewrite Hg; cbn; rewrite Hpc, ?Hc; reflexivity.
Qed.

Lemma op_progress (s : Registry) (t : nat) (o : op) (ops : list op) (s' : Registry) : threads s !! t = Some (mkThread [] (o :: ops)) → runOp s t o ops = Some s' → ∃ a s', callStep s a = true ∧ act s a = Some s'.
Proof. intros Ht Hs. exists (actThread t), s'. split; [done|]. cbn. unfold runThread. by rewrite Ht. Qed.

(** A push in progress can move. *)
Lemma push_progress (s : Registry) (t : nat) (th : thread) : Inv s → threads s !! t = Some th → pushing th → ∃ a s', callStep s a = true ∧ act s a = Some s'.
Proof.
  intros HI Ht Hp. destruct th as [[|l w] ops]; [|by eapply wait_progress]. destruct (t_push _ _ _ (i_threads s (i_sched s HI) t _ Ht)) as (_ & P2 & _).
  destruct (P2 Hp) as [Heq|[h Heq]]; cbn in Heq; subst ops; by eapply op_progress.
Qed.

Lemma holder_progress (s : Registry) (t : nat) : Inv s → startStopLock s = Some t → ∃ a s', callStep s a = true ∧ act s a = Some s'.
Proof.
  intros HI Hl. pose proof (i_sched s HI) as HS. pose proof (i_lock s HS t Hl) as Hlt. apply lookup_lt_is_Some in Hlt as [[[|l w] ops] Ht]; [|by eapply wait_progress].
  pose proof (i_threads s HS t _ Ht) as Hok. pose proof (t_holds _ _ _ Hok Hl) as Hh. cbn in Hh. destruct ops as [|o ops]; [by destruct Hh as ([] & ? & [=] & _)|].
  pose proof (holding_ops _ o Hh ltac:(by left)) as Ho.
  destruct o as [| | |r0|a|v| |v|r0|r0 st|r0 b|r0|r0|r0|r0| | |h|]; try done; try (eapply op_progress; [done|reflexivity]).
  - destruct (restartScrapeLoop r0 s) as [[s1 w] more] eqn:Hr. eapply op_progress; [done|]. cbn. rewrite Hr. reflexivity.
  - destruct (decide (countPushPoints s = 0%nat)) as [Hc|Hc]; [eapply op_progress; [done|]; cbn; rewrite bool_decide_true by done; reflexivity|].
    rewrite (i_count s HS) in Hc. destruct (base.filter pushing (threads s)) as [|th ths] eqn:Hf; [by destruct Hc|]. assert (th ∈ base.filter pushing (threads s)) as Hin by (rewrite Hf; by left).
    apply list_elem_of_filter in Hin as [Hp Hin]. apply list_elem_of_lookup in Hin as [t' Ht']. by eapply push_progress.
  - destruct (restartLoop r0 st s) as [[s1 w] more] eqn:Hr. eapply op_progress; [done|]. cbn. rewrite Hr. reflexivity.
Qed.

Lemma progress (s : Registry) : Inv s → ¬ idle s → ∃ a s', callStep s a = true ∧ act s a = Some s'.
Proof.
  intros HI Hi. pose proof (i_sched s HI) as HS. destruct (startStopLock s) as [t|] eqn:Hl; [by eapply holder_progress|].
  apply not_Forall_Exists in Hi; [|intros [[|] []]; [by left|by right|by right|by right]]. apply Exists_exists in Hi as (th & Hin & Hne). apply list_elem_of_lookup in Hin as [t Ht].
  destruct th as [[|l w] ops]; [|by eapply wait_progress]. destruct ops as [|o ops]; [by destruct Hne|]. pose proof (i_threads s HS t _ Ht) as Hok.
  pose proof (t_ops _ _ _ Hok o ltac:(by left)) as Hoo. assert (o = opLock ∨ freeOp o) as Ho.
  { destruct (t_free _ _ _ Hok) as [(o' & tail & [= -> _] & _)|Hf]; [by rewrite Hl|by left|]. apply Forall_cons in Hf as [? _]. by right. }
  destruct o as [| | |r0|a|v| |v|r0|r0 st|r0 b|r0|r0|r0|r0| | |h|]; try (by destruct Ho); try (eapply op_progress; [done|reflexivity]).
  - eapply op_progress; [done|]. cbn. rewrite Hl. reflexivity.
  - cbn in Hoo. apply lookup_lt_is_Some in Hoo as [g Hg]. destruct (registered g) eqn:Hr; (eapply op_progress; [done|]; cbn; rewrite Hg, Hr; reflexivity).
  - destruct (unregisterInner r0 s) as [s1 w] eqn:Hr. eapply op_progress; [done|]. cbn. rewrite Hr. reflexivity.
  - cbn in Hoo. apply lookup_lt_is_Some in Hoo as [g Hg]. eapply op_progress; [done|]. cbn. rewrite Hg. reflexivity.
  - cbn in Hoo. apply lookup_lt_is_Some in Hoo as [g Hg]. eapply op_progress; [done|]. cbn. rewrite Hg. reflexivity.
  - destruct (blockPushPoint s) eqn:Hb; [destruct (i_block s HS Hb) as (t' & v & ? & _); congruence|]. eapply op_progress; [done|]. cbn. rewrite Hb. reflexivity.
Qed.

(** C15. The calls return: in every state, the goroutines that call the registry and the loops that were told to stop take, whatever the other
    loops do meanwhile, a bounded number of steps when no new call is made, and as long as a call has not returned one of them can take one: no
    call waits for ever for another, for a loop or for a push. *)
Theorem calls_return (l : list action) (s : Registry) :
  acts init l = Some s →
  (∀ l', forallb internal l' = true → (callSteps s l' ≤ potential s)%nat) ∧ (¬ idle s → ∃ a s', callStep s a = true ∧ act s a = Some s').
Proof.
  intros Ha. split; [|intros Hi; apply progress; [by eapply inv_acts, Ha; apply reg_inv_init|done]]. clear Ha. intros l'. revert s. induction l' as [|a l' IH]; intros s Hint; [cbn; lia|].
  cbn in Hint. apply andb_prop in Hint as [H1 H2]. cbn [callSteps]. destruct (act s a) as [s'|] eqn:Hs; [|lia]. pose proof (act_potential s s' a H1 Hs). specialize (IH s' H2). lia.
Qed.
End Return.

(** * Concrete runs *)
(** A registration, [Run], a second registration, a gather of the first, new hooks, and the removal of the second. *)
Definition demo_actions : list action :=
  [actRegister; actRun] ++ replicate 4 (actThread 0) ++ [actRegister; actLoop 0 lsRun; actLoop 0 lsGather; actLoop 0 lsDone; actLoop 0 lsPush; actUpdateHooks 7] ++
  replicate 3 (actThread 1) ++ [actLoop 0 lsExit; actLoop 1 lsExit] ++ replicate 8 (actThread 1) ++ [actPush; actThread 2; actThread 2; actThread 2; actUnregister 1] ++
  replicate 3 (actThread 3) ++ [actLoop 3 lsExit] ++ replicate 3 (actThread 3) ++ [actLoop 2 lsRun; actLoop 2 lsGather; actLoop 2 lsDone; actLoop 2 lsPush].
Definition demo : Registry := default init (acts init demo_actions).

Lemma loops_of_registrations_witness :
  (∃ l1 lp, loops demo !! l1 = Some lp ∧ cancelled lp = false ∧ ∀ l2, Live demo 0 l2 ↔ l2 = l1) ∧ (∀ l1, ¬ Live demo 1 l1) ∧ length (loops demo) = 4%nat.
Proof.
  assert (acts init demo_actions = Some demo) as Ha by (vm_compute; reflexivity). assert (idle demo) as Hi by (vm_compute; repeat constructor). split; [|split; [|vm_compute; reflexivity]].
  - destruct (loops_of_registrations demo_actions demo 0 (mkRegistration true false false false (Some 2%nat) 7 false 0) Ha ltac:(vm_compute; reflexivity)) as [_ H].
    destruct (H Hi) as [H1 _]. destruct H1 as (l1 & lp & _ & H2 & H3 & H4); [reflexivity|vm_compute; reflexivity|]. exists l1, lp. exact (conj H2 (conj H3 H4)).
  - destruct (loops_of_registrations demo_actions demo 1 (mkRegistration false true false false None 7 true 1) Ha ltac:(vm_compute; reflexivity)) as [_ H].
    destruct (H Hi) as (_ & _ & H3). apply H3; [reflexivity|]. intros c Hin. unfold demo_actions in Hin. cbn in Hin. repeat (apply elem_of_cons in Hin as [?|Hin]; [discriminate|]). by apply not_elem_of_nil in Hin.
Defined.

Lemma pushes_current_witness :
  Forall (λ p, fromRegistered p = true → labelled p = current p) (pushes demo) ∧ pushes demo = [mkPush true 0 0; mkPush true 7 7; mkPush true 7 7].
Proof. split; [|vm_compute; reflexivity]. apply (pushes_current demo_actions). vm_compute. reflexivity. Defined.

(** The hooks are changed while a push is pending and two loops run. *)
Definition busy_actions : list action := [actRegister; actRun] ++ replicate 4 (actThread 0) ++ [actRegister; actPush; actThread 1; actUpdateHooks 7; actThread 2; actThread 2; actUnregister 0].
Definition busy : Registry := default init (acts init busy_actions).

Lemma calls_return_witness :
  ((∀ l', forallb internal l' = true → (callSteps busy l' ≤ potential busy)%nat) ∧ (¬ idle busy → ∃ a s', callStep busy a = true ∧ act busy a = Some s')) ∧ potential busy = 40%nat.
Proof. split; [|vm_compute; reflexivity]. apply (calls_return busy_actions). vm_compute. reflexivity. Defined.

Definition run1 : list action := [actRegister; actRun] ++ replicate 4 (actThread 0).

(** A gather asks for a restart of the loop while the registration is removed: the restart comes last, and the registration that was removed has a
    loop for ever, and one that its gatherer was closed for. *)
Example restart_revives_loop :
  let s := default init (acts init (run1 ++ [actRetry 0 true; actUnregister 0] ++ replicate 3 (actThread 2) ++ [actLoop 0 lsExit] ++ replicate 3 (actThread 2) ++ replicate 4 (actThread 1) ++ [actLoop 1 lsRun])) in
  forallb (λ th, match tWaits th, tOps th with [], [] => true | _, _ => false end) (threads s) = true ∧
  registrations s = [mkRegistration false true false false (Some 1%nat) 0 true 1] ∧ loops s = [mkLoop 0 true false LExited; mkLoop 0 false false LReady].
Proof. vm_compute. repeat split. Qed.

(** All loops are being stopped when a registration is removed: its [StopCallback] is called while its loop gathers. *)
Example stopped_while_gathering :
  let s := default init (acts init (run1 ++ [actLoop 0 lsRun; actLoop 0 lsGather; actUpdateHooks 7; actThread 1; actThread 1; actThread 1; actUnregister 0] ++ replicate 4 (actThread 2))) in
  (stopCalls <$> registrations s) = [1%nat] ∧ (lpc <$> loops s) = [LGather 0].
Proof. vm_compute. repeat split. Qed.

(** At its end [Run] calls the [StopCallback] of the registrations but leaves them registered: their [Unregister] calls it again. *)
Example stopped_twice :
  let s := default init (acts init (run1 ++ [actEnd] ++ replicate 2 (actThread 0) ++ [actLoop 0 lsExit] ++ replicate 6 (actThread 0) ++ [actUnregister 0] ++ replicate 4 (actThread 1))) in
  (stopCalls <$> registrations s) = [2%nat].
Proof. vm_compute. repeat split. Qed.

(** A registration that is being removed keeps its loop while the hooks are changed: after [UpdateRegistrationHooks] has returned it pushes points with the labels of
    the previous hooks. *)
Example old_labels_pushed :
  let s := default init (acts init (run1 ++ [actLoop 0 lsRun; actLoop 0 lsGather; actUnregister 0; actThread 1; actUpdateHooks 7] ++ replicate 7 (actThread 2) ++ [actLoop 0 lsDone; actLoop 0 lsPush])) in
  tOps <$> threads s !! 2%nat = Some [] ∧ hook s = 7%nat ∧ pushes s = [mkPush false 0 7].
Proof. vm_compute. repeat split. Qed.
