(* ===== verification/ConfigTypes.v ===== *)
(** The structured configuration (config/types.go): the types of its fields under their YAML names, the values that have them once they are
    converted to the types of JSON, and the search of a field by its dotted name (config/loader.go).

    A module of the blackbox exporter is a type of that exporter: any value has it. *)
From Stdlib Require Import QArith.
From S2P Require Import Prelude Strings.

#[local] Open Scope Z_scope.
#[local] Open Scope list_scope.
#[local] Open Scope string_scope.

(** * Types and values *)
Inductive value := VNil | VBool (b : bool) | VNum (n : Q) | VStr (s : string) | VList (l : list value) | VMap (m : gmap string value).

Inductive ty :=
| TBool | TInt | TFloat | TDuration | TStr | TAny
| TPtr (τ : ty) | TList (τ : ty) | TMap (τ : ty) | TStruct (fields : list (string * ty)).

(** * The fields *)
Definition ProcessExporter : ty :=
  TStruct [("enable", TBool)].

Definition NodeExporter : ty :=
  TStruct [("enable", TBool); ("collectors", TList TStr)].

Definition Telemetry : ty :=
  TStruct [("enable", TBool); ("address", TStr)].

Definition LocalStore : ty :=
  TStruct [("enable", TPtr TBool); ("path", TStr); ("retention", TDuration)].

Definition Agent : ty :=
  TStruct [("cloudimage_creation_file", TStr); ("installation_format", TStr); ("facts_file", TStr);
    ("netstat_file", TStr); ("state_file", TStr); ("state_cache_file", TStr); ("state_reset_file", TStr);
    ("deprecated_state_file", TStr); ("state_directory", TStr); ("enable_crash_reporting", TBool);
    ("max_crash_reports_count", TInt); ("upgrade_file", TStr); ("auto_upgrade_file", TStr);
    ("process_exporter", ProcessExporter); ("public_ip_indicator", TStr); ("node_exporter", NodeExporter);
    ("windows_exporter", NodeExporter); ("telemetry", Telemetry); ("override_hostname", TStr);
    ("local_store", LocalStore)].

Definition BlackboxTarget : ty :=
  TStruct [("name", TStr); ("url", TStr); ("module", TStr)].

Definition Blackbox : ty :=
  TStruct [("enable", TBool); ("scraper_name", TStr); ("scraper_send_uuid", TBool); ("user_agent", TStr);
    ("default_dns_resolver", TStr); ("targets", TList BlackboxTarget); ("modules", TMap TAny)].

Definition BleemeoCache : ty :=
  TStruct [("deactivated_metrics_expiration_days", TInt)].

Definition BleemeoMQTT : ty :=
  TStruct [("cafile", TStr); ("host", TStr); ("port", TInt); ("ssl_insecure", TBool); ("ssl", TBool)].

Definition Sentry : ty :=
  TStruct [("dsn", TStr)].

Definition Bleemeo : ty :=
  TStruct [("account_id", TStr); ("api_base", TStr); ("api_ssl_insecure", TBool); ("cache", BleemeoCache);
    ("container_registration_delay_seconds", TInt); ("enable", TBool); ("initial_agent_name", TStr);
    ("initial_server_group_name", TStr); ("initial_server_group_name_for_snmp", TStr);
    ("initial_server_group_name_for_vsphere", TStr); ("mqtt", BleemeoMQTT); ("registration_key", TStr);
    ("sentry", Sentry)].

Definition ContainerFilter : ty :=
  TStruct [("allow_by_default", TBool); ("allow_list", TList TStr); ("deny_list", TList TStr)].

Definition ContainerRuntimeAddresses : ty :=
  TStruct [("addresses", TList TStr); ("prefix_hostroot", TBool)].

Definition ContainerRuntime : ty :=
  TStruct [("docker", ContainerRuntimeAddresses); ("containerd", ContainerRuntimeAddresses)].

Definition Container : ty :=
  TStruct [("filter", ContainerFilter); ("type", TStr); ("pid_namespace_host", TBool); ("runtime", ContainerRuntime);
    ("allowed_label_overrides", TList TStr); ("include_default_label_overrides", TBool)].

Definition DF : ty :=
  TStruct [("host_mount_point", TStr); ("path_ignore", TList TStr); ("ignore_fs_type", TList TStr)].

Definition IPMI : ty :=
  TStruct [("enable", TBool); ("bin_search_path", TStr); ("use_sudo", TBool); ("timeout", TInt)].

Definition JMX : ty :=
  TStruct [("enable", TBool)].

Definition JMXTrans : ty :=
  TStruct [("config_file", TStr); ("file_permission", TStr); ("graphite_port", TInt)].

Definition Kubernetes : ty :=
  TStruct [("enable", TBool); ("allow_cluster_metrics", TBool); ("nodename", TStr); ("clustername", TStr);
    ("kubeconfig", TStr)].

Definition AutoDiscovery : ty :=
  TStruct [("all_enable", TBool); ("journald_enable", TBool); ("syslog_enable", TBool); ("auditd_enable", TBool);
    ("container_and_service_enable", TBool)].

Definition OTELOperator : ty := TMap TAny.

Definition LogReceiver : ty := TMap TAny.

Definition OTELFilters : ty := TMap TAny.

Definition ContainerExcludeRule : ty :=
  TStruct [("container_name", TStr); ("selectors", TMap TStr)].

Definition LegacyEnableListener : ty :=
  TStruct [("enable", TBool); ("address", TStr); ("port", TInt)].

Definition OpenTelemetry : ty :=
  TStruct [("shipping_enable", TBool); ("receivers_default_send_logs", TBool); ("auto_discovery", AutoDiscovery);
    ("known_log_formats", TMap (TList OTELOperator)); ("receivers", TMap LogReceiver);
    ("container_format", TMap TStr); ("global_filters", OTELFilters); ("known_log_filters", TMap OTELFilters);
    ("container_filter", TMap TStr); ("container_exclude", TList ContainerExcludeRule);
    ("grpc", LegacyEnableListener); ("http", LegacyEnableListener)].

Definition LogMetricEntry : ty := TMap TAny.

Definition Log : ty :=
  TStruct [("opentelemetry", OpenTelemetry); ("metrics_rules", TMap (TList LogMetricEntry))].

Definition LoggingBuffer : ty :=
  TStruct [("head_size_bytes", TInt); ("tail_size_bytes", TInt)].

Definition Logging : ty :=
  TStruct [("buffer", LoggingBuffer); ("level", TStr); ("output", TStr); ("filename", TStr); ("package_levels", TStr)].

Definition Mdstat : ty :=
  TStruct [("enable", TBool); ("path_mdadm", TStr); ("use_sudo", TBool)].

Definition PrometheusTarget : ty :=
  TStruct [("url", TStr); ("name", TStr); ("allow_metrics", TList TStr); ("deny_metrics", TList TStr)].

Definition Prometheus : ty :=
  TStruct [("targets", TList PrometheusTarget)].

Definition SNMPTarget : ty :=
  TStruct [("initial_name", TStr); ("target", TStr)].

Definition SNMP : ty :=
  TStruct [("exporter_address", TStr); ("targets", TList SNMPTarget)].

Definition Metric : ty :=
  TStruct [("allow_metrics", TList TStr); ("deny_metrics", TList TStr); ("include_default_metrics", TBool);
    ("prometheus", Prometheus); ("softstatus_period_default", TInt); ("softstatus_period", TMap TInt);
    ("snmp", SNMP)].

Definition OpenSourceMQTT : ty :=
  TStruct [("enable", TBool); ("username", TStr); ("password", TStr); ("ca_file", TStr); ("hosts", TList TStr);
    ("port", TInt); ("ssl_insecure", TBool); ("ssl", TBool)].

Definition NRPE : ty :=
  TStruct [("enable", TBool); ("address", TStr); ("port", TInt); ("ssl", TBool); ("conf_paths", TList TStr)].

Definition NvidiaSMI : ty :=
  TStruct [("enable", TBool); ("bin_path", TStr); ("timeout", TInt)].

Definition NetworkEndpoint : ty :=
  TStruct [("endpoint", TStr)].

Definition NetworkProtocols : ty :=
  TStruct [("grpc", TPtr NetworkEndpoint); ("http", TPtr NetworkEndpoint)].

Definition NetworkListener : ty :=
  TStruct [("protocols", NetworkProtocols)].

Definition OpenTelemetryConfig : ty :=
  TStruct [("listeners", TMap NetworkListener)].

Definition JmxMetric : ty :=
  TStruct [("name", TStr); ("mbean", TStr); ("attribute", TStr); ("path", TStr); ("scale", TFloat); ("derive", TBool);
    ("sum", TBool); ("type_names", TList TStr); ("ratio", TStr)].

Definition ServiceLogFile : ty :=
  TStruct [("file_path", TStr); ("log_format", TStr); ("log_filter", TStr)].

Definition Service : ty :=
  TStruct [("type", TStr); ("variant", TStr); ("instance", TStr); ("port", TInt); ("ignore_ports", TList TInt);
    ("address", TStr); ("tags", TList TStr); ("interval", TInt); ("check_type", TStr); ("http_path", TStr);
    ("http_status_code", TInt); ("http_host", TStr); ("match_process", TStr); ("check_command", TStr);
    ("nagios_nrpe_name", TStr); ("metrics_unix_socket", TStr); ("username", TStr); ("password", TStr);
    ("stats_url", TStr); ("stats_port", TInt); ("stats_protocol", TStr); ("detailed_items", TList TStr);
    ("jmx_port", TInt); ("jmx_username", TStr); ("jmx_password", TStr); ("jmx_metrics", TList JmxMetric);
    ("ssl", TBool); ("ssl_insecure", TBool); ("starttls", TBool); ("ca_file", TStr); ("cert_file", TStr);
    ("key_file", TStr); ("included_items", TList TStr); ("excluded_items", TList TStr);
    ("log_files", TList ServiceLogFile); ("log_format", TStr); ("log_filter", TStr)].

Definition NameInstance : ty :=
  TStruct [("name", TStr); ("instance", TStr)].

Definition Smart : ty :=
  TStruct [("enable", TBool); ("path_smartctl", TStr); ("devices", TList TStr); ("excludes", TList TStr);
    ("max_concurrency", TInt)].

Definition SSACLI : ty :=
  TStruct [("enable", TBool); ("bin_search_path", TStr); ("use_sudo", TBool); ("timeout", TInt)].

Definition StatsD : ty :=
  TStruct [("enable", TBool); ("address", TStr); ("port", TInt)].

Definition Telegraf : ty :=
  TStruct [("docker_metrics_enable", TBool); ("statsd", StatsD)].

Definition Threshold : ty :=
  TStruct [("low_warning", TPtr TFloat); ("low_critical", TPtr TFloat); ("high_warning", TPtr TFloat);
    ("high_critical", TPtr TFloat)].

Definition VSphere : ty :=
  TStruct [("url", TStr); ("username", TStr); ("password", TStr); ("insecure_skip_verify", TBool);
    ("skip_monitor_vms", TBool)].

Definition WebEndpoints : ty :=
  TStruct [("debug_enable", TBool)].

Definition LocalUI : ty :=
  TStruct [("enable", TBool)].

Definition Listener : ty :=
  TStruct [("address", TStr); ("port", TInt); ("allowed_hosts", TList TStr)].

Definition Web : ty :=
  TStruct [("enable", TBool); ("endpoints", WebEndpoints); ("local_ui", LocalUI); ("listener", Listener);
    ("static_cdn_url", TStr)].

Definition Zabbix : ty :=
  TStruct [("enable", TBool); ("address", TStr); ("port", TInt)].

Definition Config : ty :=
  TStruct [("agent", Agent); ("blackbox", Blackbox); ("bleemeo", Bleemeo); ("container", Container); ("df", DF);
    ("disk_ignore", TList TStr); ("disk_monitor", TList TStr); ("ipmi", IPMI); ("jmx", JMX);
    ("jmxtrans", JMXTrans); ("kubernetes", Kubernetes); ("log", Log); ("logging", Logging); ("mdstat", Mdstat);
    ("metric", Metric); ("mqtt", OpenSourceMQTT); ("network_interface_denylist", TList TStr); ("nrpe", NRPE);
    ("nvidia_smi", NvidiaSMI); ("opentelemetry", OpenTelemetryConfig); ("service", TList Service);
    ("service_absent_deactivation_delay", TDuration); ("service_ignore", TList NameInstance);
    ("service_ignore_metrics", TList NameInstance); ("service_ignore_check", TList NameInstance); ("smart", Smart);
    ("ssacli", SSACLI); ("tags", TList TStr); ("telegraf", Telegraf); ("thresholds", TMap Threshold);
    ("vsphere", TList VSphere); ("web", Web); ("zabbix", Zabbix)].

(** * Looking a field up *)
(** [structFieldByYAMLName] *)
Fixpoint structFieldByYAMLName (fields : list (string * ty)) (name : string) : option ty :=
  match fields with
  | [] => None
  | (yamlName, field) :: fields => if String.eqb yamlName name then Some field else structFieldByYAMLName fields name
  end.

Fixpoint pointed (τ : ty) : ty := match τ with TPtr τ => pointed τ | _ => τ end.

(** The loop of [configFieldTypeByPath] over the segments of a key. *)
Fixpoint fieldTypeFrom (current : ty) (segments : list string) : option ty :=
  match segments with
  | [] => Some current
  | segment :: segments =>
      match pointed current with
      | TStruct fields => match structFieldByYAMLName fields segment with Some field => fieldTypeFrom field segments | None => None end
      | _ => None
      end
  end.

(** [configFieldTypeByPath] *)
Definition configFieldTypeByPath (key : string) : option ty := fieldTypeFrom Config (Split "." key).

(** The type of a key once maps are flattened: an entry of a map has the type of its elements. *)
Fixpoint keyTypeFrom (current : ty) (segments : list string) : option ty :=
  match segments with
  | [] => Some current
  | segment :: segments =>
      match current with
      | TStruct fields => match structFieldByYAMLName fields segment with Some field => keyTypeFrom field segments | None => None end
      | TMap τ => keyTypeFrom τ segments
      | TAny => Some TAny
      | _ => None
      end
  end.

Definition keyType (key : string) : option ty := keyTypeFrom Config (Split "." key).

(** * The values of a type *)
(** A nil pointer, slice or map is null in JSON. *)
Inductive hasType : ty → value → Prop :=
| HBool (b : bool) : hasType TBool (VBool b)
| HInt (n : Z) : hasType TInt (VNum (inject_Z n))
| HFloat (n : Q) : hasType TFloat (VNum n)
| HDuration (n : Z) : hasType TDuration (VNum (inject_Z n))
| HStr (s : string) : hasType TStr (VStr s)
| HAny (v : value) : hasType TAny v
| HPtrNil (τ : ty) : hasType (TPtr τ) VNil
| HPtr (τ : ty) (v : value) : hasType τ v → hasType (TPtr τ) v
| HListNil (τ : ty) : hasType (TList τ) VNil
| HList (τ : ty) (l : list value) : (∀ v, v ∈ l → hasType τ v) → hasType (TList τ) (VList l)
| HMapNil (τ : ty) : hasType (TMap τ) VNil
| HMap (τ : ty) (m : gmap string value) : (∀ k v, m !! k = Some v → hasType τ v) → hasType (TMap τ) (VMap m)
| HStruct (fields : list (string * ty)) (m : gmap string value) :
    (∀ k v, m !! k = Some v → is_Some (structFieldByYAMLName fields k)) →
    (∀ k v τ, m !! k = Some v → structFieldByYAMLName fields k = Some τ → hasType τ v) → hasType (TStruct fields) (VMap m).

(** The types whose values are merged. *)
Definition mergeable (τ : ty) : bool := match pointed τ with TList _ | TMap _ | TStruct _ => true | _ => false end.
