(* ===== verification/Config.v ===== *)
(** The configuration (config/loader.go, config/config.go): the items that the files, the environment and the defaults give, their
    priorities and how they are merged.  The type of a configuration is kept by the merges.

    What koanf and mapstructure make of a file or of the environment is an argument: the settings with their values, in the order in which the map is
    iterated over.  A map is a [gmap], a number a rational. *)
From Stdlib Require Import QArith.
From S2P Require Import Prelude Strings ConfigTypes.

#[local] Open Scope string_scope.
#[local] Open Scope Z_scope.
#[local] Open Scope list_scope.

(** * Items *)
Inductive ItemSource := SourceDefault | SourceEnv | SourceFile.

(** The type of an item, which only the API is told, is left out. *)
Record Item := mkItem { Key : string; Value : value; Source : ItemSource; Path : string; Priority : Z }.

Section Keys.
#[local] Open Scope string_scope.

Definition mapKeys : list string :=
  ["thresholds"; "metric.softstatus_period"; "opentelemetry.listeners"; "log.opentelemetry.receivers"; "log.opentelemetry.global_filters";
   "log.opentelemetry.known_log_filters"; "log.opentelemetry.container_filter"; "log.opentelemetry.container_format"; "log.metrics_rules"].

Definition isMapKey (key : string) : option string :=
  list_find (λ mapKey, key = mapKey ∨ String.prefix (mapKey +:+ ".") key = true) mapKeys ≫= λ p, Some p.2.

(** The variables whose name has a part that is the user's. *)
Record dynamicEnvVar := mkDynamicEnvVar { envPrefix : string; configPrefix : string; suffixes : list (string * string) }.

Definition dynamicEnvVarList : list dynamicEnvVar :=
  [mkDynamicEnvVar "GLOUTON_OPENTELEMETRY_LISTENERS_" "opentelemetry.listeners."
     [("_PROTOCOLS_GRPC_ENDPOINT", "protocols.grpc.endpoint"); ("_PROTOCOLS_HTTP_ENDPOINT", "protocols.http.endpoint")];
   mkDynamicEnvVar "GLOUTON_THRESHOLDS_" "thresholds."
     [("_LOW_WARNING", "low_warning"); ("_LOW_CRITICAL", "low_critical"); ("_HIGH_WARNING", "high_warning"); ("_HIGH_CRITICAL", "high_critical")]].

Definition dynamicEnvVarConfigKeys : list string := ["opentelemetry.listeners"; "thresholds"].

(** [nilPrunedConfigKeys] *)
Definition nilPrunedConfigKeys : list string :=
  List.filter (λ key, match configFieldTypeByPath key with Some (TMap elem) => match pointed elem with TStruct _ => true | _ => false end | _ => false end) mapKeys.

Definition isNilAllowedFor (key : string) : bool :=
  bool_decide (key ∈ ["blackbox.modules.http.http.http_client_config.http_headers"; "agent.local_store.enable"]).
End Keys.

#[local] Arguments isMapKey : simpl never.
#[local] Arguments nilPrunedConfigKeys : simpl never.
#[local] Arguments configFieldTypeByPath : simpl never.

(** * Priorities *)
Definition priorityDefault : Z := -1.
Definition priorityMapAndArrayFile : Z := 1.
Definition priorityEnv : Z := 2 ^ 31 - 1.

Definition isSlice (v : value) : bool := match v with VList _ => true | _ => false end.

Definition priority (provider : ItemSource) (key : string) (v : value) (loadCount : Z) : Z :=
  match provider with
  | SourceEnv => if bool_decide (key ∈ dynamicEnvVarConfigKeys) then priorityMapAndArrayFile else priorityEnv
  | SourceFile => if isSlice v then priorityMapAndArrayFile else if isMapKey key then priorityMapAndArrayFile else loadCount
  | SourceDefault => priorityDefault
  end.

(** * Merging *)
(** What [merge] makes of two values of a key that both maps have. *)
Fixpoint mergeEntry (dst src : value) : value :=
  match dst, src with
  | VMap m1, VMap m2 => VMap (union_with (λ d s, Some (mergeEntry d s)) m1 m2)
  | VList l1, VList l2 => VList (l1 ++ l2)
  | _, _ => src
  end.

(** [merge].  [None]: an error. *)
Definition merge (dst src : value) : option value :=
  match dst, src with
  | VList _, VList _ | VMap _, VMap _ => Some (mergeEntry dst src)
  | _, _ => None
  end.

Fixpoint pruneNilMapValues (v : value) : value :=
  match v with
  | VMap m => VMap (omap (λ v, match v with VNil => None | _ => Some (pruneNilMapValues v) end) m)
  | _ => v
  end.

(** * Loading *)
(** A setting of a provider: nothing, a nil map or slice, or a value. *)
Inductive setting := SNull | SNilTyped | SValue (v : value).

(** [allKeys], of what koanf gives: the settings by their flattened keys, and the one of a key that is not flattened. *)
Definition allKeys (all : list (string * setting)) (Get : string → setting) : gmap string setting :=
  foldr (λ kv m, match isMapKey kv.1 with Some mapKey => <[mapKey := Get mapKey]> m | None => <[kv.1 := kv.2]> m end) ∅ all.

(** [convertTypes], of the keys of the two koanf and of the ones that could not be decoded. *)
Definition convertTypes (typedKeys baseKeys : gmap string setting) (failedKeys : list string) : gmap string setting :=
  let typedKeys := base.filter (λ kv, is_Some (baseKeys !! kv.1)) typedKeys in
  let typedKeys := typedKeys ∪ baseKeys in
  foldr delete typedKeys failedKeys.

Record configLoader := mkConfigLoader { items : list Item; loadCount : Z }.

(** [Load], of the settings that [convertTypes] gives. *)
Definition Load (c : configLoader) (path : string) (provider : ItemSource) (config : list (string * setting)) : configLoader * list string :=
  let loadCount := loadCount c + 1 in
  let item (kv : string * setting) : option Item :=
    match kv.2 with
    | SNull | SNilTyped => None
    | SValue v =>
        let v := if bool_decide (kv.1 ∈ nilPrunedConfigKeys) then pruneNilMapValues v else v in
        Some (mkItem kv.1 v provider path (priority provider kv.1 v loadCount))
    end in
  (mkConfigLoader (items c ++ omap item config) loadCount,
   omap (λ kv : string * setting, if kv.2 is SNull then if isNilAllowedFor kv.1 then None else Some kv.1 else None) config).

(** The loop of [Build]: the values, their priorities and the keys that could not be merged. *)
Definition buildItem (s : gmap string value * gmap string Z * list string) (item : Item) : gmap string value * gmap string Z * list string :=
  let '(config, priorities, warnings) := s in
  match config !! Key item with
  | None => (<[Key item := Value item]> config, <[Key item := Priority item]> priorities, warnings)
  | Some old =>
      let previousPriority := default 0 (priorities !! Key item) in
      if previousPriority <? Priority item then (<[Key item := Value item]> config, <[Key item := Priority item]> priorities, warnings)
      else if previousPriority =? Priority item then
        match merge old (Value item) with
        | Some merged => (<[Key item := merged]> config, priorities, warnings)
        | None => (<[Key item := VNil]> config, priorities, warnings ++ [Key item])
        end
      else s
  end.

Definition buildItems (l : list Item) : gmap string value * gmap string Z * list string := foldl buildItem (∅, ∅, []) l.

(** [load]: the files, the environment (with the prefix that is deprecated, then the other one), and the defaults. *)
Record sources := mkSources { files : list (string * list (string * setting)); deprecatedEnv : list (string * setting); env : list (string * setting); defaults : list (string * setting) }.

Definition loadFiles (c : configLoader) (l : list (string * list (string * setting))) : configLoader := foldl (λ c f, (Load c f.1 SourceFile f.2).1) c l.

Definition load (withDefault loadEnviron : bool) (s : sources) : configLoader :=
  let c := loadFiles (mkConfigLoader [] 0) (files s) in
  let c := if loadEnviron then (Load (Load c "" SourceEnv (deprecatedEnv s)).1 "" SourceEnv (env s)).1 else c in
  if withDefault then (Load c "" SourceDefault (defaults s)).1 else c.

(** * How values are put together *)
Definition isMap (v : value) : bool := match v with VMap _ => true | _ => false end.

(** What several settings of the same entry of a map give, in order: the last one, appended to those of the run of lists it ends, or put together entry by
    entry with those of the run of maps it ends. *)
Inductive Combined : list value → value → Prop :=
| CombinedOne (v : value) : Combined [v] v
| CombinedLast (vs : list value) (v : value) : isSlice v = false → isMap v = false → Combined (vs ++ [v]) v
| CombinedLists (vs : list value) (ls : list (list value)) :
    ls ≠ [] → (∀ v, last vs = Some v → isSlice v = false) → Combined (vs ++ (VList <$> ls)) (VList (concat ls))
| CombinedMaps (vs : list value) (ms : list (gmap string value)) (m : gmap string value) :
    ms ≠ [] → (∀ v, last vs = Some v → isMap v = false) →
    (∀ k, m !! k = None ↔ omap (λ m, m !! k) ms = []) → (∀ k v, m !! k = Some v → Combined (omap (λ m, m !! k) ms) v) →
    Combined (vs ++ (VMap <$> ms)) (VMap m).

(** What several settings of a key of the same priority give: lists and maps are put together, and anything else is an error and gives nothing. *)
Inductive Merged : list value → value → Prop :=
| MergedOne (v : value) : Merged [v] v
| MergedAll (vs : list value) (v : value) : forallb isSlice vs = true ∨ forallb isMap vs = true → Combined vs v → Merged vs v
| MergedError (vs : list value) : (2 ≤ length vs)%nat → forallb isSlice vs = false → forallb isMap vs = false → Merged vs VNil.

Fixpoint vsize (v : value) : nat := match v with VMap m => S (map_fold (λ _ v n, (vsize v + n)%nat) 0%nat m) | _ => 0%nat end.

Lemma vsize_entry (m : gmap string value) (k : string) (v : value) : m !! k = Some v → (vsize v < vsize (VMap m))%nat.
Proof. intros Hk. cbn. rewrite (map_fold_delete_L _ _ k v m); [lia| |done]. intros. lia. Qed.

(** What [merge] adds to values put together. *)
Lemma Combined_entries (ms : list (gmap string value)) (m1 m2 : gmap string value) :
  (∀ k, m1 !! k = None ↔ omap (λ m, m !! k) ms = []) →
  (∀ k d s, m1 !! k = Some d → m2 !! k = Some s → Combined (omap (λ m, m !! k) ms ++ [s]) (mergeEntry d s)) → (∀ k d, m1 !! k = Some d → Combined (omap (λ m, m !! k) ms) d) →
  ∀ vs, (∀ v, last vs = Some v → isMap v = false) → Combined (vs ++ (VMap <$> (ms ++ [m2]))) (VMap (union_with (λ d s, Some (mergeEntry d s)) m1 m2)).
Proof.
  intros Hnone Hboth Hleft vs Hvs. apply CombinedMaps; [by destruct ms|done| |]; intros k; rewrite omap_app, lookup_union_with; cbn; specialize (Hnone k).
  - destruct (m1 !! k) as [d|], (m2 !! k) as [s|]; cbn; rewrite ?app_nil_r; try done; [split; [done|]|split; [done|]]; intros [_ ?]%app_eq_nil; done.
  - intros v. destruct (m1 !! k) as [d|] eqn:Hd, (m2 !! k) as [s|] eqn:Hs; cbn; rewrite ?app_nil_r; intros [= <-]; [by apply Hboth|by apply Hleft|]. rewrite (proj1 Hnone) by done. constructor.
Qed.

Lemma Combined_list (vs : list value) (l : list value) : (∀ v, last vs = Some v → isSlice v = false) → Combined (vs ++ [VList l]) (VList l).
Proof. intros Hvs. pose proof (CombinedLists vs [l]) as H. cbn in H. rewrite app_nil_r in H. by apply H. Qed.

Lemma Combined_map (vs : list value) (m : gmap string value) : (∀ v, last vs = Some v → isMap v = false) → Combined (vs ++ [VMap m]) (VMap m).
Proof. intros Hvs. apply (CombinedMaps vs [m]); [done|done|intros k; cbn; by destruct (m !! k)|]. intros k v Hk. cbn. rewrite Hk. constructor. Qed.

Lemma Combined_pair (d s : value) : Combined [d; s] (mergeEntry d s).
Proof.
  remember (vsize d) as n eqn:Hn. revert d s Hn. induction (Nat.lt_wf_0 n) as [n _ IH]. intros d s ->.
  destruct s as [| | | |l2|m2]; [by destruct d; apply (CombinedLast [_])..| |].
  - destruct d as [| | | |l1|m1]; try by apply (Combined_list [_]); intros ? [= <-]. pose proof (CombinedLists [] [l1; l2]) as H. cbn in H. rewrite app_nil_r in H. by apply H.
  - destruct d as [| | | |l1|m1]; try by apply (Combined_map [_]); intros ? [= <-].
    apply (Combined_entries [m1] m1 m2) with (vs := []); [intros k; cbn; by destruct (m1 !! k)| | |done]; intros k d.
    + intros s Hd Hs. cbn. rewrite Hd. apply (IH (vsize d)); [by apply vsize_entry in Hd|done].
    + intros Hd. cbn. rewrite Hd. constructor.
Qed.

Lemma Combined_snoc (vs : list value) (d s : value) : Combined vs d → Combined (vs ++ [s]) (mergeEntry d s).
Proof.
  intros H. revert s. induction H as [v|vs v Hl Hm|vs ls Hls Hvs|vs ms m Hms Hvs Hnone Hin IH]; intros s; [apply Combined_pair|..].
  - destruct s as [| | | |l2|m2]; [by destruct v; apply (CombinedLast (vs ++ [_]))..| |].
    + assert (mergeEntry v (VList l2) = VList l2) as -> by by destruct v. apply Combined_list. intros w. rewrite last_snoc. by intros [= <-].
    + assert (mergeEntry v (VMap m2) = VMap m2) as -> by by destruct v. apply Combined_map. intros w. rewrite last_snoc. by intros [= <-].
  - assert (∀ w, last (vs ++ (VList <$> ls)) = Some w → isMap w = false) as Hlast.
    { intros w. rewrite last_app. destruct (last (VList <$> ls)) as [x|] eqn:Hx; [|by apply last_None, fmap_nil_inv in Hx]. intros [= <-]. rewrite fmap_last in Hx. by apply fmap_Some in Hx as (y & _ & ->). }
    destruct s as [| | | |l2|m2]; [by apply CombinedLast..| |].
    + cbn. rewrite <- app_assoc. change [VList l2] with (VList <$> [l2]). rewrite <- fmap_app. replace (concat ls ++ l2) with (concat (ls ++ [l2])) by (rewrite concat_app; cbn; by rewrite app_nil_r). apply CombinedLists; [by destruct ls|done].
    + by apply Combined_map.
  - assert (∀ w, last (vs ++ (VMap <$> ms)) = Some w → isSlice w = false) as Hlast.
    { intros w. rewrite last_app. destruct (last (VMap <$> ms)) as [x|] eqn:Hx; [|by apply last_None, fmap_nil_inv in Hx]. intros [= <-]. rewrite fmap_last in Hx. by apply fmap_Some in Hx as (y & _ & ->). }
    destruct s as [| | | |l2|m2]; [by apply CombinedLast..| |].
    + by apply Combined_list.
    + cbn [mergeEntry]. rewrite <- app_assoc. change [VMap m2] with (VMap <$> [m2]). rewrite <- fmap_app. apply Combined_entries; auto.
Qed.

(** * What is kept *)
(** The values of the highest priority, in order. *)
Definition top (cs : list (value * Z)) : Z := foldr (λ c p, Z.max c.2 p) (-2) cs.
Definition winners (cs : list (value * Z)) : list value := fst <$> base.filter (λ c, c.2 = top cs) cs.
Definition mergeAll (vs : list value) : option value :=
  match vs with [] => None | v :: vs => Some (foldl (λ a b, default VNil (merge a b)) v vs) end.

Definition candidates (key : string) (l : list Item) : list (value * Z) := (λ i, (Value i, Priority i)) <$> base.filter (λ i, Key i = key) l.

#[local] Arguments top : simpl never.

Lemma top_cons (c : value * Z) (l : list (value * Z)) : top (c :: l) = Z.max c.2 (top l).
Proof. done. Qed.

Lemma top_lower (l : list (value * Z)) : -2 ≤ top l.
Proof. induction l as [|c l IH]; [done|]. rewrite top_cons. lia. Qed.

Lemma top_app (l k : list (value * Z)) : top (l ++ k) = Z.max (top l) (top k).
Proof. induction l as [|c l IH]; [pose proof (top_lower k); cbn; change (top []) with (-2); lia|]. cbn. rewrite !top_cons, IH. lia. Qed.

Lemma top_max (l : list (value * Z)) (c : value * Z) : c ∈ l → c.2 ≤ top l.
Proof. induction l as [|d l IH]; [by intros ?%not_elem_of_nil|]. rewrite top_cons. intros [->|Hin]%elem_of_cons; [lia|]. apply IH in Hin. lia. Qed.

Lemma top_reached (l : list (value * Z)) : l ≠ [] → -2 < top l → ∃ c, c ∈ l ∧ c.2 = top l.
Proof.
  induction l as [|c l IH]; [done|]. intros _. rewrite top_cons. intros Ht. destruct (Z.le_gt_cases (top l) c.2) as [Hle|Hgt]; [exists c; split; [by left|lia]|].
  destruct IH as (d & Hd & Hd'); [by intros ->; change (top []) with (-2) in Hgt, Ht; lia|lia|]. exists d. split; [by right|lia].
Qed.

Lemma top_single (c : value * Z) : -2 < c.2 → top [c] = c.2.
Proof. intros Hc. rewrite top_cons. change (top []) with (-2). lia. Qed.

Lemma winners_snoc_above (cs : list (value * Z)) (c : value * Z) : top cs < c.2 → winners (cs ++ [c]) = [c.1].
Proof.
  intros Hlt. unfold winners. rewrite top_app. pose proof (top_lower cs). rewrite (top_single c) by lia. rewrite Z.max_r by lia. rewrite filter_app.
  assert (base.filter (λ d : value * Z, d.2 = c.2) cs = []) as ->.
  { apply elem_of_nil_inv. intros d Hd%list_elem_of_filter. destruct Hd as [Heq Hd]. apply top_max in Hd. lia. }
  rewrite filter_cons, decide_True by done. by rewrite filter_nil.
Qed.

Lemma winners_snoc_equal (cs : list (value * Z)) (c : value * Z) : -2 < c.2 → top cs = c.2 → winners (cs ++ [c]) = winners cs ++ [c.1].
Proof.
  intros Hp Heq. unfold winners. rewrite top_app, (top_single c), Z.max_l by lia. rewrite filter_app, fmap_app. f_equal.
  rewrite filter_cons, decide_True by done. by rewrite filter_nil.
Qed.

Lemma winners_snoc_below (cs : list (value * Z)) (c : value * Z) : -2 < c.2 → c.2 < top cs → winners (cs ++ [c]) = winners cs.
Proof.
  intros Hp Hlt. unfold winners. rewrite top_app, (top_single c), Z.max_l by lia. rewrite filter_app, fmap_app, filter_cons, decide_False by lia.
  by rewrite filter_nil, app_nil_r.
Qed.

Lemma mergeAll_snoc (vs : list value) (v : value) : mergeAll (vs ++ [v]) = Some (match mergeAll vs with None => v | Some a => default VNil (merge a v) end).
Proof. destruct vs as [|w vs]; [done|]. cbn. by rewrite foldl_app. Qed.

Lemma mergeAll_cases (vs : list value) (v : value) : mergeAll vs = Some v →
  (forallb isSlice vs = true ∧ isSlice v = true ∧ Combined vs v) ∨ (forallb isMap vs = true ∧ isMap v = true ∧ Combined vs v) ∨
  (vs = [v] ∧ isSlice v = false ∧ isMap v = false) ∨ ((2 ≤ length vs)%nat ∧ forallb isSlice vs = false ∧ forallb isMap vs = false ∧ v = VNil).
Proof.
  revert v. induction vs as [|s vs IH] using rev_ind; intros v; [done|]. rewrite mergeAll_snoc. intros [= <-]. rewrite !forallb_app, length_app. cbn [forallb length]. rewrite !andb_true_r.
  destruct (mergeAll vs) as [d|] eqn:Hd; [|assert (vs = []) as -> by by destruct vs].
  2: { destruct s; cbn; auto 10 using CombinedOne. }
  assert (1 ≤ length vs)%nat by (destruct vs; [done|cbn; lia]).
  destruct (IH d eq_refl) as [(H1 & H2 & H3)|[(H1 & H2 & H3)|[(-> & H1 & H2)|(H1 & H2 & H3 & ->)]]].
  - assert (forallb isMap vs = false) as Hm by (destruct vs as [|[] ?]; done). rewrite H1, Hm. destruct d as [| | | |l1|]; try done. cbn. destruct s as [| | | |l2|]; cbn; [right; right; right; split; [lia|done]..| |right; right; right; split; [lia|done]].
    left. do 2 (split; [done|]). by apply (Combined_snoc vs (VList l1) (VList l2)).
  - assert (forallb isSlice vs = false) as Hm by (destruct vs as [|[] ?]; done). rewrite H1, Hm. destruct d as [| | | | |m1]; try done. cbn. destruct s as [| | | | |m2]; cbn; [right; right; right; split; [lia|done]..|].
    right. left. do 2 (split; [done|]). by apply (Combined_snoc vs (VMap m1) (VMap m2)).
  - right. right. right. cbn. rewrite H1, H2. destruct d, s; try done; cbn; split_and!; (done || lia).
  - right. right. right. rewrite H2, H3. split_and!; (done || lia).
Qed.

Lemma mergeAll_merged (vs : list value) : match mergeAll vs with None => vs = [] | Some v => Merged vs v end.
Proof.
  destruct (mergeAll vs) as [v|] eqn:Hv; [|by destruct vs].
  destruct (mergeAll_cases vs v Hv) as [(? & _ & ?)|[(? & _ & ?)|[(-> & _)|(? & ? & ? & ->)]]]; [apply MergedAll; auto..|constructor|by constructor].
Qed.

Lemma candidates_snoc (key : string) (l : list Item) (i : Item) : candidates key (l ++ [i]) = candidates key l ++ (if decide (Key i = key) then [(Value i, Priority i)] else []).
Proof. unfold candidates. rewrite filter_app, fmap_app, filter_cons, filter_nil. by destruct (decide (Key i = key)). Qed.

Lemma buildItems_spec (l : list Item) (key : string) :
  (∀ i, i ∈ l → -2 < Priority i) →
  (buildItems l).1.1 !! key = mergeAll (winners (candidates key l)) ∧ (candidates key l ≠ [] → (buildItems l).1.2 !! key = Some (top (candidates key l)) ∧ winners (candidates key l) ≠ []).
Proof.
  induction l as [|i l IH] using rev_ind; intros Hp; [done|]. destruct IH as [IH1 IH2]; [intros j Hj; apply Hp; set_solver|]. unfold buildItems in *. rewrite foldl_app. cbn [foldl].
  rewrite candidates_snoc. destruct (foldl buildItem (∅, ∅, []) l) as [[config priorities] warnings]. cbn [fst snd] in *. unfold buildItem.
  specialize (Hp i ltac:(set_solver)). destruct (decide (Key i = key)) as [<-|Hne].
  - set (cs := candidates (Key i) l) in *. rewrite IH1. destruct (decide (cs = [])) as [Hcs|Hcs].
    + rewrite Hcs. change (mergeAll (winners [])) with (@None value). cbn [fst snd]. rewrite !lookup_insert_eq, winners_snoc_above, top_app, top_single by done.
      split; [done|]. intros _. split; [f_equal; change (top []) with (-2); cbn; lia|done].
    + destruct (IH2 Hcs) as [Hpr Hw]. destruct (mergeAll (winners cs)) as [old|] eqn:Hold; [|by destruct (winners cs)]. rewrite Hpr. change (default 0 (Some (top cs))) with (top cs).
      destruct (Z.ltb_spec (top cs) (Priority i)) as [Hlt|Hge]; cbn [fst snd].
      * rewrite winners_snoc_above by done. rewrite !lookup_insert_eq, top_app. split; [done|]. intros _. split; [f_equal; rewrite top_single by done; cbn; lia|done].
      * destruct (Z.eqb_spec (top cs) (Priority i)) as [Heq|Hneq].
        -- rewrite winners_snoc_equal, mergeAll_snoc, Hold, top_app by done. cbn [fst snd].
           destruct (merge old (Value i)) as [merged|]; cbn [fst snd default]; rewrite lookup_insert_eq; (split; [done|]); intros _; (split; [rewrite Hpr, top_single by done; f_equal; cbn; lia|by destruct (winners cs)]).
        -- rewrite winners_snoc_below by (cbn; lia). cbn [fst snd]. split; [by rewrite IH1|]. intros _. split; [rewrite Hpr, top_app, top_single by done; f_equal; cbn; lia|done].
  - rewrite app_nil_r. destruct (config !! Key i) as [old|]; cbn [fst snd]; [|by rewrite !lookup_insert_ne].
    destruct (_ <? _); cbn [fst snd]; [by rewrite !lookup_insert_ne|]. destruct (_ =? _); [|done]. destruct (merge old (Value i)); cbn [fst snd]; by rewrite !lookup_insert_ne.
Qed.

(** * Which source wins *)
(** The values a provider gives to a key. *)
Definition provided (key : string) (config : list (string * setting)) : list value :=
  omap (λ kv, match kv.2 with SValue v => if decide (kv.1 = key) then Some (if bool_decide (key ∈ nilPrunedConfigKeys) then pruneNilMapValues v else v) else None | _ => None end) config.

Lemma candidates_app (key : string) (l k : list Item) : candidates key (l ++ k) = candidates key l ++ candidates key k.
Proof. unfold candidates. by rewrite filter_app, fmap_app. Qed.

Lemma candidates_Load (c : configLoader) (path key : string) (provider : ItemSource) (config : list (string * setting)) :
  candidates key (items (Load c path provider config).1) = candidates key (items c) ++ ((λ v, (v, priority provider key v (loadCount c + 1))) <$> provided key config).
Proof.
  unfold Load. cbn [fst items]. rewrite candidates_app. f_equal. induction config as [|[k x] config IH]; [done|]. cbn. destruct x as [| |v]; [exact IH..|].
  unfold candidates. rewrite filter_cons. cbn [Key]. destruct (decide (k = key)) as [->|Hne]; [|exact IH]. rewrite !fmap_cons. f_equal. exact IH.
Qed.

Definition fileCandidates (key : string) (n : Z) (l : list (string * list (string * setting))) : list (value * Z) :=
  concat (imap (λ i f, (λ v, (v, priority SourceFile key v (n + Z.of_nat i + 1))) <$> provided key f.2) l).

Lemma candidates_loadFiles (key : string) (l : list (string * list (string * setting))) (c : configLoader) :
  candidates key (items (loadFiles c l)) = candidates key (items c) ++ fileCandidates key (loadCount c) l ∧ loadCount (loadFiles c l) = loadCount c + Z.of_nat (length l).
Proof.
  revert c. induction l as [|f l IH]; intros c; [cbn; rewrite app_nil_r; split; [done|lia]|]. cbn [loadFiles foldl]. fold (loadFiles (Load c f.1 SourceFile f.2).1 l).
  destruct (IH (Load c f.1 SourceFile f.2).1) as [H1 H2]. rewrite H1, H2, candidates_Load. cbn [Load fst loadCount length]. split; [|lia]. rewrite <- app_assoc. f_equal. unfold fileCandidates. cbn [imap concat].
  f_equal; [by replace (loadCount c + Z.of_nat 0 + 1) with (loadCount c + 1) by lia|]. f_equal. apply imap_ext. intros i x _. unfold compose. by replace (loadCount c + 1 + Z.of_nat i + 1) with (loadCount c + Z.of_nat (S i) + 1) by lia.
Qed.

(** The candidates of one priority, above the others, are the winners. *)
Lemma winners_middle (l1 l2 l3 : list (value * Z)) (p : Z) :
  -2 < p → l2 ≠ [] → (∀ c, c ∈ l2 → c.2 = p) → (∀ c, c ∈ l1 ∨ c ∈ l3 → -2 < c.2 < p) → winners (l1 ++ l2 ++ l3) = fst <$> l2.
Proof.
  intros Hp Hne H2 H13. assert (∀ l, (∀ c, c ∈ l → -2 < c.2 < p) → top l < p) as Hlt.
  { induction l as [|c l IH]; intros Hl; [done|]. rewrite top_cons. specialize (IH (λ d Hd, Hl d ltac:(by right))). specialize (Hl c ltac:(by left)). lia. }
  assert (∀ l, l ≠ [] → (∀ c, c ∈ l → c.2 = p) → top l = p) as Heq.
  { induction l as [|c l IH]; intros Hn Hl; [done|]. rewrite top_cons, (Hl c) by (by left). destruct (decide (l = [])) as [->|Hn']; [change (top []) with (-2); lia|].
    rewrite (IH Hn' (λ d Hd, Hl d ltac:(by right))). lia. }
  unfold winners. rewrite !top_app, (Heq l2 Hne H2). pose proof (Hlt l1 (λ c Hc, H13 c (or_introl Hc))). pose proof (Hlt l3 (λ c Hc, H13 c (or_intror Hc))).
  rewrite Z.max_r by lia. replace (Z.max p (top l3)) with p by lia. rewrite !filter_app, !fmap_app.
  assert (∀ l, (∀ c, c ∈ l → -2 < c.2 < p) → base.filter (λ c : value * Z, c.2 = p) l = []) as Hno.
  { intros l Hl. apply elem_of_nil_inv. intros c [Hc Hin]%list_elem_of_filter. specialize (Hl c Hin). lia. }
  rewrite (Hno l1), (Hno l3) by auto. cbn. rewrite app_nil_r. f_equal. clear -H2. induction l2 as [|c l2 IH]; [done|]. rewrite filter_cons, decide_True by (apply H2; by left). f_equal. apply IH. intros d Hd. apply H2. by right.
Qed.

Lemma winners_one (l : list (value * Z)) (p : Z) : -2 < p → (∀ c, c ∈ l → c.2 = p) → winners l = fst <$> l.
Proof.
  intros Hp Hl. destruct (decide (l = [])) as [->|Hne]; [done|]. pose proof (winners_middle [] l [] p Hp Hne Hl) as H. cbn in H. rewrite app_nil_r in H. apply H. intros c [Hc|Hc]; by apply not_elem_of_nil in Hc.
Qed.

Lemma fileCandidates_snoc (key : string) (n : Z) (l : list (string * list (string * setting))) (f : string * list (string * setting)) :
  fileCandidates key n (l ++ [f]) = fileCandidates key n l ++ ((λ v, (v, priority SourceFile key v (n + Z.of_nat (length l) + 1))) <$> provided key f.2).
Proof. unfold fileCandidates. rewrite imap_app, concat_app. cbn. unfold compose. by rewrite app_nil_r, Nat.add_0_r. Qed.

Lemma fileCandidates_values (key : string) (n : Z) (l : list (string * list (string * setting))) : fst <$> fileCandidates key n l = concat ((λ f, provided key f.2) <$> l).
Proof.
  induction l as [|f l IH] using rev_ind; [done|]. rewrite fileCandidates_snoc, !fmap_app, concat_app, IH. cbn. rewrite app_nil_r. f_equal. rewrite <- list_fmap_compose. unfold compose. cbn. apply list_fmap_id.
Qed.

Lemma fileCandidates_bounds (key : string) (n : Z) (l : list (string * list (string * setting))) (c : value * Z) :
  0 ≤ n → c ∈ fileCandidates key n l → 1 ≤ c.2 ≤ n + Z.of_nat (length l) ∧ (isMapKey key ≠ None ∨ isSlice c.1 = true → c.2 = 1) ∧ c.1 ∈ concat ((λ f, provided key f.2) <$> l).
Proof.
  intros Hn Hc. split; [|split].
  - revert Hc. induction l as [|f l IH] using rev_ind; [by intros ?%not_elem_of_nil|]. rewrite fileCandidates_snoc, elem_of_app, length_app. cbn. intros [Hc|Hc]; [apply IH in Hc; lia|].
    apply list_elem_of_fmap in Hc as (v & -> & _). cbn. unfold priorityMapAndArrayFile. destruct (isSlice v); [lia|]. destruct (isMapKey key); lia.
  - revert Hc. induction l as [|f l IH] using rev_ind; [by intros ?%not_elem_of_nil|]. rewrite fileCandidates_snoc, elem_of_app. intros [Hc|Hc]; [by apply IH|].
    apply list_elem_of_fmap in Hc as (v & -> & _). cbn. intros [Hk|Hk]; [|by rewrite Hk]. destruct (isSlice v); [done|]. by destruct (isMapKey key).
  - rewrite <- (fileCandidates_values key n). by apply list_elem_of_fmap_2.
Qed.

Lemma provided_once (key : string) (config : list (string * setting)) : NoDup (fst <$> config) → (length (provided key config) ≤ 1)%nat.
Proof.
  unfold provided. induction config as [|[k x] config IH]; [cbn; lia|]. cbn. rewrite NoDup_cons. intros [Hk Hnd]. specialize (IH Hnd). destruct x as [| |v]; [exact IH..|].
  destruct (decide (k = key)) as [->|Hne]; [|exact IH]. cbn. enough (omap (λ kv : string * setting, match kv.2 with SValue v => if decide (kv.1 = key) then Some (if bool_decide (key ∈ nilPrunedConfigKeys) then pruneNilMapValues v else v) else None | _ => None end) config = []) as -> by (cbn; lia).
  apply elem_of_nil_inv. intros w ([k' x'] & Hin & Hw)%list_elem_of_omap. cbn in Hw. destruct x' as [| |v']; [done..|]. destruct (decide (k' = key)) as [->|]; [|done]. apply Hk. apply list_elem_of_fmap. by exists (key, SValue v').
Qed.

(** The values of the files that are kept: all those of a map, which are merged; else the last one that is not a list, of any file but the first; else all of
    them, which are lists but perhaps the one of the first file. *)
Definition scalarsAfterFirst (key : string) (l : list (string * list (string * setting))) : list value :=
  base.filter (λ v, isSlice v = false) (concat ((λ f, provided key f.2) <$> drop 1 l)).

Definition fileKept (key : string) (l : list (string * list (string * setting))) : list value :=
  let all := concat ((λ f, provided key f.2) <$> l) in
  if isMapKey key then all else match last (scalarsAfterFirst key l) with Some v => [v] | None => all end.

Lemma scalarsAfterFirst_snoc (key : string) (l : list (string * list (string * setting))) (f : string * list (string * setting)) :
  scalarsAfterFirst key (l ++ [f]) = scalarsAfterFirst key l ++ match l with [] => [] | _ => base.filter (λ v, isSlice v = false) (provided key f.2) end.
Proof.
  unfold scalarsAfterFirst. destruct l as [|x l]; [done|]. cbn [drop app]. change (drop 1 (x :: l)) with (drop 0 l). change (drop 1 (x :: l ++ [f])) with (drop 0 (l ++ [f])).
  rewrite !drop_0, fmap_app, concat_app, filter_app. cbn. by rewrite app_nil_r.
Qed.

Lemma top_bound (l : list (value * Z)) (p : Z) : -2 < p → (∀ c, c ∈ l → c.2 < p) → top l < p.
Proof. intros Hp. induction l as [|c l IH]; intros Hl; [done|]. rewrite top_cons. specialize (IH (λ d Hd, Hl d ltac:(by right))). specialize (Hl c ltac:(by left)). lia. Qed.

Lemma top_one (l : list (value * Z)) (p : Z) : -2 < p → l ≠ [] → (∀ c, c ∈ l → c.2 = p) → top l = p.
Proof.
  intros Hp Hne Hl. destruct l as [|c l]; [done|]. pose proof (top_max (c :: l) c ltac:(by left)) as H1. rewrite (Hl c ltac:(by left)) in H1.
  pose proof (top_bound (c :: l) (p + 1) ltac:(lia) (λ d Hd, ltac:(rewrite (Hl d Hd); lia))). lia.
Qed.

(** The winners among the files; the highest priority is 1 when no scalar is after the first file. *)
Lemma fileWinners (key : string) (l : list (string * list (string * setting))) :
  isMapKey key = None → Forall (λ f, NoDup (fst <$> f.2)) l →
  winners (fileCandidates key 0 l) = fileKept key l ∧
  match last (scalarsAfterFirst key l) with None => ∀ c, c ∈ fileCandidates key 0 l → c.2 = 1 | Some _ => 1 < top (fileCandidates key 0 l) end.
Proof.
  intros Hk. unfold fileKept. rewrite Hk. induction l as [|f l IH] using rev_ind; [intros _; split; [done|]; intros c Hc; by apply not_elem_of_nil in Hc|].
  intros [Hnd [Hf _]%Forall_cons]%Forall_app. specialize (IH Hnd) as [IH1 IH2]. pose proof (provided_once key f.2 Hf) as Hlen.
  rewrite fileCandidates_snoc, scalarsAfterFirst_snoc, fmap_app, concat_app. cbn [fmap list_fmap concat]. rewrite app_nil_r. set (FC := fileCandidates key 0 l) in *.
  destruct (provided key f.2) as [|v [|]]; [| |cbn in Hlen; lia].
  { cbn [fmap list_fmap]. rewrite filter_nil, !app_nil_r. by destruct l; rewrite ?app_nil_r. }
  assert (∀ c, c ∈ FC → 1 ≤ c.2 ≤ Z.of_nat (length l)) as Hb by (intros c Hc; apply fileCandidates_bounds in Hc as [Hc _]; lia).
  cbn [fmap list_fmap priority]. rewrite Hk. unfold priorityMapAndArrayFile. destruct l as [|x l]; [cbn; rewrite ?app_nil_r; destruct (isSlice v); (split; [done|]); intros c ->%list_elem_of_singleton; done|].
  set (l' := x :: l) in *. change (match l' with [] => [] | _ => _ end) with (base.filter (λ v, isSlice v = false) [v]). rewrite filter_cons, filter_nil. destruct (isSlice v) eqn:Hv.
  - rewrite decide_False by done. rewrite app_nil_r. destruct (last (scalarsAfterFirst key l')) as [w|] in IH1, IH2 |- *.
    + rewrite winners_snoc_below by (cbn [snd]; lia). split; [done|]. rewrite top_app, top_single by done. cbn [snd]. lia.
    + assert (winners FC = concat ((λ f, provided key f.2) <$> l')) as Hw by done. split; [|intros c [Hc| ->%list_elem_of_singleton]%elem_of_app; auto].
      destruct (decide (FC = [])) as [Hn|Hn]; [rewrite Hn in *; rewrite <- Hw; done|]. rewrite winners_snoc_equal; [by rewrite Hw|done|]. by apply top_one.
  - rewrite decide_True, last_snoc by done. rewrite winners_snoc_above; [split; [done|]|]; rewrite ?top_app, ?top_single; cbn [snd]; [|lia..|].
    + unfold l'. cbn [length]. lia.
    + apply top_bound; [lia|]. intros c Hc. specialize (Hb c Hc). lia.
Qed.

(** The values that are kept, by the sources. *)
Definition kept (key : string) (s : sources) : list value :=
  let envValues := provided key (deprecatedEnv s) ++ provided key (env s) in
  let first (l k : list value) := match l with [] => k | _ => l end in
  if bool_decide (key ∈ dynamicEnvVarConfigKeys) then first (fileKept key (files s) ++ envValues) (provided key (defaults s))
  else first envValues (first (fileKept key (files s)) (provided key (defaults s))).

Lemma load_candidates (key : string) (s : sources) :
  candidates key (items (load true true s)) =
  fileCandidates key 0 (files s) ++
  ((λ v, (v, if bool_decide (key ∈ dynamicEnvVarConfigKeys) then 1 else priorityEnv)) <$> provided key (deprecatedEnv s) ++ provided key (env s)) ++ ((λ v, (v, -1)) <$> provided key (defaults s)).
Proof.
  unfold load. rewrite !candidates_Load. destruct (candidates_loadFiles key (files s) (mkConfigLoader [] 0)) as [H1 _]. rewrite H1. cbn [app]. unfold candidates at 1. cbn [items]. rewrite filter_nil. cbn [fmap list_fmap app].
  rewrite fmap_app, <- !app_assoc. done.
Qed.

Lemma Load_priority (c : configLoader) (path : string) (provider : ItemSource) (config : list (string * setting)) (i : Item) :
  0 ≤ loadCount c → (∀ j, j ∈ items c → -2 < Priority j) → i ∈ items (Load c path provider config).1 → -2 < Priority i.
Proof.
  intros Hn Hc. unfold Load. cbn [fst items]. rewrite elem_of_app. intros [Hi|Hi]; [auto|]. apply list_elem_of_omap in Hi as ([k x] & _ & Hi). cbn in Hi. destruct x as [| |v]; [done..|]. injection Hi as <-. cbn.
  unfold priority. destruct provider; [done| |]; [by case_bool_decide|]. destruct (isSlice _); [done|]. destruct (isMapKey k); [done|lia].
Qed.

Lemma load_priority (s : sources) (i : Item) : i ∈ items (load true true s) → -2 < Priority i.
Proof.
  assert (∀ l c, 0 ≤ loadCount c → (∀ j, j ∈ items c → -2 < Priority j) → 0 ≤ loadCount (loadFiles c l) ∧ ∀ j, j ∈ items (loadFiles c l) → -2 < Priority j) as Hfiles.
  { induction l as [|f l IH]; intros c Hn Hc; [done|]. cbn [loadFiles foldl]. apply IH; [cbn; lia|]. intros j. by apply Load_priority. }
  destruct (Hfiles (files s) (mkConfigLoader [] 0)) as [Hn Hc]; [done|intros j Hj; by apply not_elem_of_nil in Hj|]. unfold load.
  apply Load_priority; [cbn; lia|]. intros j. apply Load_priority; [cbn; lia|]. intros j'. by apply Load_priority.
Qed.

Lemma dynamic_mapKey (key : string) : key ∈ dynamicEnvVarConfigKeys → isMapKey key = Some key.
Proof. unfold dynamicEnvVarConfigKeys. intros H. repeat (apply elem_of_cons in H as [->|H]; [done|]). by apply not_elem_of_nil in H. Qed.

Lemma winners_low (l1 l2 : list (value * Z)) : top l2 < top l1 → winners (l1 ++ l2) = winners l1.
Proof.
  intros Hlt. unfold winners. rewrite top_app, Z.max_l by lia. rewrite filter_app, fmap_app. assert (base.filter (λ c : value * Z, c.2 = top l1) l2 = []) as ->; [|by rewrite app_nil_r].
  apply elem_of_nil_inv. intros c [Hc Hin]%list_elem_of_filter. apply top_max in Hin. lia.
Qed.

Lemma winners_high (l1 l2 : list (value * Z)) : top l1 < top l2 → winners (l1 ++ l2) = winners l2.
Proof.
  intros Hlt. unfold winners. rewrite top_app, Z.max_r by lia. rewrite filter_app, fmap_app. assert (base.filter (λ c : value * Z, c.2 = top l2) l1 = []) as ->; [|done].
  apply elem_of_nil_inv. intros c [Hc Hin]%list_elem_of_filter. apply top_max in Hin. lia.
Qed.

(** Values of one priority. *)
Lemma winners_const (vs : list value) (p : Z) : -2 < p → winners ((λ v, (v, p)) <$> vs) = vs ∧ top ((λ v, (v, p)) <$> vs) = match vs with [] => -2 | _ => p end.
Proof.
  intros Hp. split.
  - rewrite (winners_one _ p Hp) by by intros c (v & -> & _)%list_elem_of_fmap. rewrite <- list_fmap_compose. apply list_fmap_id.
  - destruct vs as [|v vs]; [done|]. apply top_one; [done|done|]. by intros c (w & -> & _)%list_elem_of_fmap.
Qed.

Lemma fileCandidates_winners (key : string) (l : list (string * list (string * setting))) : Forall (λ f, NoDup (fst <$> f.2)) l → winners (fileCandidates key 0 l) = fileKept key l.
Proof.
  intros Hnd. destruct (isMapKey key) eqn:Hk; [|by apply fileWinners]. unfold fileKept. rewrite Hk, <- (fileCandidates_values key 0). apply (winners_one _ 1); [done|].
  intros c Hc. apply fileCandidates_bounds in Hc as (_ & Hc & _); [|done]. apply Hc. left. by rewrite Hk.
Qed.

Lemma load_winners (key : string) (s : sources) :
  Z.of_nat (length (files s)) < priorityEnv → Forall (λ f, NoDup (fst <$> f.2)) (files s) → winners (candidates key (items (load true true s))) = kept key s.
Proof.
  intros Hlen Hnd. rewrite load_candidates. unfold kept. set (ev := _ ++ provided key (env s)). set (dv := provided key (defaults s)). set (FC := fileCandidates key 0 (files s)).
  pose proof (fileCandidates_winners key (files s) Hnd) as Hfk. fold FC in Hfk. rewrite <- Hfk. assert (∀ c, c ∈ FC → 1 ≤ c.2 < priorityEnv) as Hb by (intros c Hc; apply fileCandidates_bounds in Hc as [Hc _]; lia).
  assert (FC = [] ∨ (1 ≤ top FC ∧ winners FC ≠ [])) as HFC.
  { destruct FC as [|c FC']; [by left|right]. pose proof (top_max (c :: FC') c ltac:(by left)). specialize (Hb c ltac:(by left)). split; [lia|]. intros Hw. unfold winners in Hw. apply fmap_nil_inv in Hw.
    destruct (top_reached (c :: FC')) as (d & Hd & Hd'); [done|lia|]. assert (d ∈ base.filter (λ c0 : value * Z, c0.2 = top (c :: FC')) (c :: FC')) as Hx by by apply list_elem_of_filter. rewrite Hw in Hx. by apply not_elem_of_nil in Hx. }
  assert (top FC < priorityEnv) as Htop by (apply top_bound; [done|]; intros c Hc; by apply Hb).
  destruct (winners_const dv (-1) ltac:(done)) as [Hdw Hdt]. set (DC := (λ v, (v, -1)) <$> dv) in *. assert (top DC ≤ -1) as Hdt' by (rewrite Hdt; destruct dv; lia).
  case_bool_decide as Hdyn.
  - assert (∀ c, c ∈ FC → c.2 = 1) as H1. { intros c Hc. apply fileCandidates_bounds in Hc as (_ & Hc & _); [|done]. apply Hc. left. by rewrite (dynamic_mapKey key Hdyn). }
    destruct (winners_const ev 1 ltac:(done)) as [Hew Het]. set (EC := (λ v, (v, 1)) <$> ev) in *.
    assert (winners (FC ++ EC) = winners FC ++ ev) as Heq. { rewrite <- Hew. rewrite !(winners_one _ 1), fmap_app; try done; [by intros c (v & -> & _)%list_elem_of_fmap|]. intros x [Hx|(v & -> & _)%list_elem_of_fmap]%elem_of_app; auto. }
    rewrite app_assoc, <- Heq. destruct (decide (FC ++ EC = [])) as [Hn|Hn]; [rewrite Hn; exact Hdw|]. assert (top (FC ++ EC) = 1) as Ht by (apply top_one; [done|done|]; intros x [Hx|(v & -> & _)%list_elem_of_fmap]%elem_of_app; auto).
    rewrite winners_low by lia. rewrite Heq. destruct (winners FC ++ ev) as [|] eqn:Hx; [|done]. exfalso. apply app_eq_nil in Hx as [Hx1 Hx2]. destruct HFC as [HFC|[_ HFC]]; [|done]. apply Hn. unfold EC. by rewrite HFC, Hx2.
  - destruct (winners_const ev priorityEnv ltac:(done)) as [Hew Het]. set (EC := (λ v, (v, priorityEnv)) <$> ev) in *. destruct ev as [|e ev'] eqn:Hev.
    + cbn [EC fmap list_fmap app]. destruct HFC as [HFC|[HFC Hne]]; [rewrite HFC; exact Hdw|]. rewrite winners_low by lia. by destruct (winners FC).
    + rewrite winners_high by (rewrite top_app, Het; lia). rewrite winners_low by (rewrite Het; unfold priorityEnv; lia). exact Hew.
Qed.

(** * The types are kept *)
Lemma mergeEntry_typed (τ : ty) (d s : value) : hasType τ d → hasType τ s → hasType τ (mergeEntry d s).
Proof.
  intros Hd. revert s. induction Hd as [| | | | | |τ|τ v Hv IH|τ|τ l Hl _|τ|τ m Hm IH|fields m Hf Hm IH]; intros src Hs.
  1-6: by inversion Hs; subst; constructor. 1: done.
  - inversion Hs as [| | | | | |?|? v' Hv'| | | | |]; subst; [by destruct v; constructor|]. apply HPtr. by apply IH.
  - done.
  - inversion Hs as [| | | | | | | | |? l' Hl'| | |]; subst; [constructor|]. apply HList. intros v [Hv|Hv]%elem_of_app; auto.
  - done.
  - inversion Hs as [| | | | | | | | | | |? m' Hm'|]; subst; [constructor|]. apply HMap. intros k v. rewrite lookup_union_with.
    destruct (m !! k) as [x|] eqn:Hx, (m' !! k) as [y|] eqn:Hy; cbn; intros [= <-]; eauto.
  - inversion Hs as [| | | | | | | | | | | |? m' Hf' Hm']; subst. apply HStruct; intros k v; [|intros τ]; rewrite lookup_union_with;
      destruct (m !! k) as [x|] eqn:Hx, (m' !! k) as [y|] eqn:Hy; cbn; intros [= <-]; eauto.
Qed.

Lemma pointed_typed (τ : ty) (v : value) : hasType τ v → v ≠ VNil → hasType (pointed τ) v.
Proof. induction τ as [| | | | | |τ IH| | |]; intros Hv Hn; try done. inversion Hv; subst; [done|]. by apply IH. Qed.

Lemma typed_pointed (τ : ty) (v : value) : hasType (pointed τ) v → hasType τ v.
Proof. induction τ as [| | | | | |τ IH| | |]; intros Hv; try done. by apply HPtr, IH. Qed.

Lemma merge_typed (τ : ty) (d s : value) :
  mergeable τ = true → hasType τ d → hasType τ s → d ≠ VNil → s ≠ VNil → ∃ v, merge d s = Some v ∧ hasType τ v ∧ v ≠ VNil.
Proof.
  intros Hm Hd Hs Hdn Hsn. assert (∃ v, merge d s = Some v ∧ v = mergeEntry d s ∧ v ≠ VNil) as (v & H1 & -> & H2).
  { apply pointed_typed in Hd, Hs; [|done..]. unfold mergeable in Hm. destruct (pointed τ); try done; inversion Hd; subst; try done; inversion Hs; subst; try done; by eexists. }
  exists (mergeEntry d s). split; [done|]. split; [by apply mergeEntry_typed|done].
Qed.

Lemma typed_slice (τ : ty) (v : value) : pointed τ ≠ TAny → hasType τ v → v ≠ VNil → isSlice v = match pointed τ with TList _ => true | _ => false end.
Proof. intros Hany Hv Hn. apply pointed_typed in Hv; [|done]. assert (∀ τ', pointed τ ≠ TPtr τ') as Hp by (clear; by induction τ). destruct Hv; try done. by destruct (Hp τ0). Qed.

Lemma pruneNilMapValues_typed (τ : ty) (v : value) : hasType τ v → hasType τ (pruneNilMapValues v).
Proof.
  induction 1 as [| | | | | |τ|τ v Hv IH|τ|τ l Hl _|τ|τ m Hm IH|fields m Hf Hm IH]; try by constructor.
  - apply HMap. intros k v. rewrite lookup_omap. destruct (m !! k) as [x|] eqn:Hx; [|done]. cbn. destruct x; intros [= <-]; exact (IH k _ Hx).
  - apply HStruct; intros k v; [|intros τ]; rewrite lookup_omap; (destruct (m !! k) as [x|] eqn:Hx; [|done]); cbn; destruct x; intros [= <-]; eauto; intros Hk; exact (IH k _ τ Hx Hk).
Qed.

(** The settings of one priority of a key that is not merged are one. *)
Lemma buildItems_typed (τ : ty) (key : string) (l : list Item) :
  (∀ i, i ∈ l → -2 < Priority i) → (∀ i, i ∈ l → Key i = key → hasType τ (Value i) ∧ Value i ≠ VNil) →
  mergeable τ = true ∨ NoDup (snd <$> candidates key l) →
  key ∉ (buildItems l).2 ∧ ∀ v, (buildItems l).1.1 !! key = Some v → hasType τ v ∧ v ≠ VNil.
Proof.
  induction l as [|i l IH] using rev_ind; intros Hp Ht Hm; [by split; [apply not_elem_of_nil|]|]. rewrite candidates_snoc, fmap_app in Hm.
  destruct IH as [IH1 IH2]; [intros j Hj; apply Hp; set_solver|intros j Hj; apply Ht; set_solver|destruct Hm as [?|[Hm _]%NoDup_app]; auto|].
  destruct (buildItems_spec l key) as [Hspec1 Hspec2]; [intros j Hj; apply Hp; set_solver|]. unfold buildItems in *. rewrite foldl_app. cbn [foldl].
  destruct (foldl buildItem (∅, ∅, []) l) as [[config priorities] warnings]. cbn [fst snd] in *. unfold buildItem. destruct (decide (Key i = key)) as [<-|Hne].
  - destruct (Ht i ltac:(set_solver) eq_refl) as [Hti Hni]. destruct (config !! Key i) as [old|] eqn:Hold; [|cbn; rewrite lookup_insert_eq; split; [done|by intros v [= <-]]].
    destruct (_ <? _); [cbn; rewrite lookup_insert_eq; split; [done|by intros v [= <-]]|]. destruct (Z.eqb_spec (default 0 (priorities !! Key i)) (Priority i)) as [Heq|]; [|cbn; by rewrite Hold].
    assert (candidates (Key i) l ≠ []) as Hc by (intros Hc; rewrite Hc in Hspec1; done). destruct (Hspec2 Hc) as [Hpr Hw]. rewrite Hpr in Heq. cbn in Heq.
    destruct Hm as [Hm|Hm].
    + destruct (IH2 old eq_refl) as [Hto Hno]. destruct (merge_typed τ old (Value i) Hm Hto Hti Hno Hni) as (v & -> & Hv & Hvn). cbn. rewrite lookup_insert_eq. split; [done|by intros ? [= <-]].
    + exfalso. apply NoDup_app in Hm as (_ & Hm & _). unfold winners in Hw. destruct (base.filter (λ c, c.2 = top (candidates (Key i) l)) (candidates (Key i) l)) as [|c cs] eqn:Hf; [done|].
      assert (c ∈ base.filter (λ c, c.2 = top (candidates (Key i) l)) (candidates (Key i) l)) as Hin by (rewrite Hf; by left). apply list_elem_of_filter in Hin as [Hc2 Hin].
      apply (Hm (Priority i)); [rewrite <- Heq, <- Hc2; by apply list_elem_of_fmap_2|]. by left.
  - destruct (config !! Key i) as [old|]; cbn [fst snd]; [|by rewrite lookup_insert_ne]. destruct (_ <? _); cbn [fst snd]; [by rewrite lookup_insert_ne|]. destruct (_ =? _); [|done].
    destruct (merge old (Value i)); cbn [fst snd]; rewrite lookup_insert_ne by done; [done|]. split; [set_solver|done].
Qed.

Lemma isMapKey_self (key : string) : isMapKey key = Some key → ∃ τ, keyType key = Some τ ∧ mergeable τ = true.
Proof.
  unfold isMapKey. destruct (list_find _ mapKeys) as [[n k]|] eqn:Hf; [|done]. intros [= ->]. apply list_find_Some in Hf as (Hk & _ & _). apply list_elem_of_lookup_2 in Hk.
  assert (forallb (λ k, match keyType k with Some τ => mergeable τ | None => false end) mapKeys = true) as Hall by (vm_compute; reflexivity).
  rewrite forallb_forall in Hall. apply list_elem_of_In, Hall in Hk. destruct (keyType key) as [τ|]; [by exists τ|done].
Qed.

(** The keys of [allKeys] are not the ones under a key of a map. *)
Lemma allKeys_settable (all : list (string * setting)) (Get : string → setting) (key : string) : is_Some (allKeys all Get !! key) → isMapKey key = None ∨ isMapKey key = Some key.
Proof.
  induction all as [|[k x] all IH]; [by intros [? ?]|]. unfold allKeys. cbn [foldr fst snd]. fold (allKeys all Get). destruct (isMapKey k) as [mapKey|] eqn:Hk.
  - destruct (decide (key = mapKey)) as [->|Hne]; [|by rewrite lookup_insert_ne]. intros _. right. clear IH. unfold isMapKey in Hk. destruct (list_find _ mapKeys) as [[n k']|] eqn:Hf; [|done]. injection Hk as ->.
    apply list_find_Some in Hf as (Hin & _ & _). apply list_elem_of_lookup_2 in Hin. assert (forallb (λ k, bool_decide (isMapKey k = Some k)) mapKeys = true) as Hall by (vm_compute; reflexivity).
    rewrite forallb_forall in Hall. apply list_elem_of_In, Hall in Hin. by apply bool_decide_eq_true in Hin.
  - destruct (decide (key = k)) as [->|Hne]; [by left|by rewrite lookup_insert_ne].
Qed.

(** Only the keys of the provider are kept, with their converted value when there is one, and not the ones that could not be decoded. *)
Lemma convertTypes_lookup (typedKeys baseKeys : gmap string setting) (failedKeys : list string) (key : string) :
  convertTypes typedKeys baseKeys failedKeys !! key = if bool_decide (key ∈ failedKeys) then None else (λ b, default b (typedKeys !! key)) <$> baseKeys !! key.
Proof.
  unfold convertTypes. case_bool_decide as Hin.
  - induction failedKeys as [|k failedKeys IH]; [by apply not_elem_of_nil in Hin|]. cbn. destruct (decide (k = key)) as [->|Hne]; [by rewrite lookup_delete_eq|]. rewrite lookup_delete_ne by done. apply IH. set_solver.
  - induction failedKeys as [|k failedKeys IH]; cbn; [|rewrite lookup_delete_ne by set_solver; apply IH; set_solver]. rewrite lookup_union, map_lookup_filter.
    destruct (typedKeys !! key) as [t|]; cbn; [|by destruct (baseKeys !! key)]. destruct (baseKeys !! key) as [b|] eqn:Hb; cbn; case_guard as Hg; cbn; try done; exfalso; destruct Hg; by eexists.
Qed.

(** * The keys of a configuration *)
Definition providers (s : sources) : list (list (string * setting)) := (snd <$> files s) ++ [deprecatedEnv s; env s; defaults s].

Lemma provided_typed (τ : ty) (key : string) (config : list (string * setting)) :
  (∀ v, (key, SValue v) ∈ config → hasType τ v ∧ v ≠ VNil) → ∀ v, v ∈ provided key config → hasType τ v ∧ v ≠ VNil.
Proof.
  intros Ht v ([k x] & Hin & Hv)%list_elem_of_omap. cbn in Hv. destruct x as [| |w]; [done..|]. destruct (decide (k = key)) as [->|]; [|done]. destruct (Ht w Hin) as [Hw Hn]. injection Hv as <-.
  destruct (bool_decide _); [|done]. split; [by apply pruneNilMapValues_typed|by destruct w].
Qed.

Lemma fileCandidates_nodup (key : string) (n : Z) (l : list (string * list (string * setting))) :
  0 ≤ n → isMapKey key = None → Forall (λ f, NoDup (fst <$> f.2)) l → (∀ v, v ∈ concat ((λ f, provided key f.2) <$> l) → isSlice v = false) → NoDup (snd <$> fileCandidates key n l).
Proof.
  intros Hn Hk. induction l as [|f l IH] using rev_ind; [constructor|]. rewrite fmap_app, concat_app. cbn. rewrite app_nil_r. intros [Hnd [Hf _]%Forall_cons]%Forall_app Hs.
  rewrite fileCandidates_snoc, fmap_app. specialize (IH Hnd ltac:(set_solver)). pose proof (provided_once key f.2 Hf) as Hlen. destruct (provided key f.2) as [|v [|]] eqn:Hp; [by rewrite app_nil_r| |cbn in Hlen; lia].
  cbn. rewrite (Hs v) by set_solver. rewrite Hk. apply NoDup_app. split; [done|]. split; [|apply NoDup_singleton]. intros p (c & -> & Hc)%list_elem_of_fmap Hp'. apply list_elem_of_singleton in Hp'.
  apply fileCandidates_bounds in Hc as [Hb _]; lia.
Qed.

Lemma load_values (key : string) (s : sources) (i : Item) :
  i ∈ items (load true true s) → Key i = key → ∃ config, config ∈ providers s ∧ Value i ∈ provided key config.
Proof.
  intros Hi Hk. assert ((Value i, Priority i) ∈ candidates key (items (load true true s))) as Hc.
  { unfold candidates. apply list_elem_of_fmap. exists i. split; [done|]. by apply list_elem_of_filter. }
  rewrite load_candidates in Hc. unfold providers. apply elem_of_app in Hc as [Hc|[Hc|Hc]%elem_of_app].
  - apply fileCandidates_bounds in Hc as (_ & _ & Hc); [|done]. apply list_elem_of_In, in_concat in Hc as (l & Hl & Hv). apply list_elem_of_In, list_elem_of_fmap in Hl as (f & -> & Hf).
    exists f.2. split; [|by apply list_elem_of_In]. apply elem_of_app. left. by apply list_elem_of_fmap_2.
  - apply list_elem_of_fmap in Hc as (v & [= -> _] & [Hv|Hv]%elem_of_app); [exists (deprecatedEnv s)|exists (env s)]; set_solver.
  - apply list_elem_of_fmap in Hc as (v & [= -> _] & Hv). exists (defaults s). set_solver.
Qed.

(** A setting of the sources for a key that [allKeys] can give, of its type and not null. *)
Definition wellTyped (key : string) (τ : ty) (s : sources) : Prop :=
  keyType key = Some τ ∧ pointed τ ≠ TAny ∧ (isMapKey key = None ∨ isMapKey key = Some key) ∧
  Forall (λ config, NoDup (fst <$> config) ∧ ∀ v, (key, SValue v) ∈ config → hasType τ v ∧ v ≠ VNil) (providers s).

Lemma wellTyped_provided (key : string) (τ : ty) (s : sources) (config : list (string * setting)) (v : value) :
  wellTyped key τ s → config ∈ providers s → v ∈ provided key config → hasType τ v ∧ v ≠ VNil.
Proof. intros (_ & _ & _ & Hall) Hc. rewrite Forall_forall in Hall. destruct (Hall config Hc) as [_ Ht]. by apply provided_typed. Qed.

Lemma wellTyped_files (key : string) (τ : ty) (s : sources) : wellTyped key τ s → Forall (λ f, NoDup (fst <$> f.2)) (files s).
Proof.
  intros (_ & _ & _ & Hall). unfold providers in Hall. apply Forall_app in Hall as [Hall _]. rewrite Forall_fmap in Hall. eapply Forall_impl; [exact Hall|]. cbn. by intros f [? _].
Qed.

Lemma wellTyped_slices (key : string) (τ : ty) (s : sources) (v : value) :
  wellTyped key τ s → v ∈ concat ((λ f, provided key f.2) <$> files s) → isSlice v = match pointed τ with TList _ => true | _ => false end.
Proof.
  intros Hw Hv. apply list_elem_of_In, in_concat in Hv as (l & Hl & Hv). apply list_elem_of_In, list_elem_of_fmap in Hl as (f & -> & Hf). apply list_elem_of_In in Hv.
  destruct (wellTyped_provided key τ s f.2 v Hw) as [Ht Hn]; [apply elem_of_app; left; by apply list_elem_of_fmap_2|done|]. destruct Hw as (_ & Hany & _). by apply typed_slice.
Qed.

Lemma wellTyped_nodup (key : string) (τ : ty) (s : sources) :
  wellTyped key τ s → Z.of_nat (length (files s)) < priorityEnv → mergeable τ = false → provided key (deprecatedEnv s) = [] ∨ provided key (env s) = [] →
  NoDup (snd <$> candidates key (items (load true true s))).
Proof.
  intros Hw Hlen Hm Henv. pose proof (wellTyped_files _ _ _ Hw) as Hnd. pose proof Hw as (Hkt & Hany & Hset & Hall).
  assert (isMapKey key = None) as Hmk. { destruct Hset as [?|Hs]; [done|]. destruct (isMapKey_self key Hs) as (τ' & Hτ' & Hm'). rewrite Hkt in Hτ'. injection Hτ' as <-. congruence. }
  assert (∀ config, config ∈ providers s → (length (provided key config) ≤ 1)%nat) as Hone by (intros config Hc; rewrite Forall_forall in Hall; destruct (Hall config Hc) as [Hn _]; by apply provided_once).
  assert (∀ p : Z, ∀ vs : list value, (length vs ≤ 1)%nat → NoDup (snd <$> ((λ v, (v, p)) <$> vs))) as Hfew by (intros p [|v [|]] Hl; cbn in *; [constructor|apply NoDup_singleton|lia]).
  rewrite load_candidates, bool_decide_eq_false_2 by (intros Hd; apply dynamic_mapKey in Hd; congruence).
  assert (length (provided key (deprecatedEnv s) ++ provided key (env s)) ≤ 1)%nat as Hev.
  { pose proof (Hone (deprecatedEnv s) ltac:(unfold providers; set_solver)). pose proof (Hone (env s) ltac:(unfold providers; set_solver)). destruct Henv as [->| ->]; cbn; [done|by rewrite app_nil_r]. }
  set (ev := provided key (deprecatedEnv s) ++ _) in *. rewrite !fmap_app.
  apply NoDup_app. split; [|split].
  - apply fileCandidates_nodup; [done|done|done|]. intros v Hv. rewrite (wellTyped_slices key τ s v Hw Hv). unfold mergeable in Hm. by destruct (pointed τ).
  - intros p (c & -> & Hc)%list_elem_of_fmap [Hp|Hp]%elem_of_app; apply fileCandidates_bounds in Hc as [Hb _]; [|done| |done].
    + apply list_elem_of_fmap in Hp as (c' & Hc' & (v & -> & _)%list_elem_of_fmap). cbn in Hc'. lia.
    + apply list_elem_of_fmap in Hp as (c' & Hc' & (v & -> & _)%list_elem_of_fmap). cbn in Hc'. lia.
  - apply NoDup_app. split; [|split].
    + by apply Hfew.
    + intros p (c & -> & (v & -> & _)%list_elem_of_fmap)%list_elem_of_fmap (c' & Hc' & (v' & -> & _)%list_elem_of_fmap)%list_elem_of_fmap. done.
    + apply Hfew, Hone. unfold providers. set_solver.
Qed.

(** C18. The value of a key is the one of the sources that win: the variables of the environment, else the files, else the default; for the keys of a listener
    or of a threshold, the variables are put after the files.  Of the files, all the settings of a map are kept; of another key, the last setting that is not a
    list when a file after the first has one, else all of them.  When several settings are kept, lists are appended and maps are put together entry
    by entry, in order; anything else, as a scalar that both prefixes of the environment set, gives nil.  The keys of a file, which come from a Go map, are
    distinct. *)
Theorem load_value (key : string) (s : sources) :
  Z.of_nat (length (files s)) < priorityEnv → Forall (λ f, NoDup (fst <$> f.2)) (files s) →
  match (buildItems (items (load true true s))).1.1 !! key with None => kept key s = [] | Some v => Merged (kept key s) v end.
Proof.
  intros Hlen Hnd. destruct (buildItems_spec (items (load true true s)) key) as [-> _]; [apply load_priority|]. rewrite load_winners by done. apply mergeAll_merged.
Qed.

(** C17. The configuration is well typed when its sources are: a key whose settings have the type of its field has a value of this type and is merged without an
    error, unless it is a scalar that both prefixes of the environment set. *)
Theorem load_typed (key : string) (τ : ty) (s : sources) :
  wellTyped key τ s → Z.of_nat (length (files s)) < priorityEnv → mergeable τ = true ∨ provided key (deprecatedEnv s) = [] ∨ provided key (env s) = [] →
  let built := buildItems (items (load true true s)) in
  key ∉ built.2 ∧ (∀ v, built.1.1 !! key = Some v → hasType τ v ∧ v ≠ VNil) ∧ (provided key (defaults s) ≠ [] → is_Some (built.1.1 !! key)).
Proof.
  intros Hw Hlen Hm. cbn zeta. destruct (buildItems_typed τ key (items (load true true s))) as [H1 H2]; [apply load_priority| | |split; [done|split; [done|]]].
  - intros i Hi Hk. destruct (load_values key s i Hi Hk) as (config & Hc & Hv). by eapply wellTyped_provided.
  - destruct (mergeable τ) eqn:Hmτ; [by left|right]. apply (wellTyped_nodup key τ s); [done..|]. by destruct Hm as [?|Hm].
  - intros Hd. destruct (buildItems_spec (items (load true true s)) key) as [-> Hspec]; [apply load_priority|]. destruct Hspec as [_ Hne]; [|destruct (winners _); [done|by eexists]].
    rewrite load_candidates. destruct (provided key (defaults s)); [done|]. intros Hx. by do 2 apply app_eq_nil in Hx as [_ Hx].
Qed.

Section Examples.
#[local] Open Scope string_scope.
#[local] Open Scope Q_scope.

Definition warningAt (n : Q) : value := VMap {["low_warning" := VNil; "high_warning" := VNum n]}.
Definition criticalAt (n : Q) : value := VMap {["high_critical" := VNum n]}.

(** Two files and a variable set the threshold of a metric. *)
Definition exampleSources : sources :=
  mkSources
    [("a.conf", [("thresholds", SValue (VMap {["cpu_used" := warningAt 80; "mem_used" := warningAt 90]})); ("web.listener.port", SValue (VNum 8016)); ("tags", SValue (VList [VStr "a"]))]);
     ("b.conf", [("thresholds", SValue (VMap {["cpu_used" := criticalAt 95]})); ("web.listener.port", SValue (VNum 8017)); ("tags", SValue (VList [VStr "b"]))])]
    [("nrpe.port", SValue (VNum 5667))]
    [("thresholds", SValue (VMap {["cpu_used" := warningAt 70]})); ("nrpe.port", SValue (VNum 5668))]
    [("web.listener.port", SValue (VNum 8015)); ("tags", SValue (VList [])); ("nrpe.port", SValue (VNum 5666)); ("thresholds", SValue (VMap ∅))].

Lemma exampleSources_nodup : Forall (λ f, NoDup (fst <$> f.2)) (files exampleSources).
Proof. repeat constructor; set_solver. Qed.

Lemma load_value_witness :
  let value key := (buildItems (items (load true true exampleSources))).1.1 !! key in
  value "thresholds" = Some (VMap {["cpu_used" := VMap {["high_warning" := VNum 70; "high_critical" := VNum 95]}; "mem_used" := VMap {["high_warning" := VNum 90]}]}) ∧
  value "web.listener.port" = Some (VNum 8017) ∧ Merged (kept "web.listener.port" exampleSources) (VNum 8017).
Proof.
  cbn zeta. assert ((buildItems (items (load true true exampleSources))).1.1 !! "web.listener.port" = Some (VNum 8017)) as Hport by (vm_compute; reflexivity).
  split; [vm_compute; reflexivity|]. split; [exact Hport|]. pose proof (load_value "web.listener.port" exampleSources ltac:(done) exampleSources_nodup) as H. rewrite Hport in H. exact H.
Defined.

Lemma warningAt_typed (n : Q) : hasType Threshold (warningAt n).
Proof.
  apply HStruct; intros k v; [|intros τ]; intros Hk; apply lookup_insert_Some in Hk as [[<- <-]|[_ [<- <-]%lookup_singleton_Some]]; [by eexists..| |]; intros [= <-]; [apply HPtrNil|apply HPtr, HFloat].
Qed.

Lemma criticalAt_typed (n : Q) : hasType Threshold (criticalAt n).
Proof. apply HStruct; intros k v; [|intros τ]; intros [<- <-]%lookup_singleton_Some; [by eexists|]. intros [= <-]. apply HPtr, HFloat. Qed.

Lemma exampleSources_typed : wellTyped "thresholds" (TMap Threshold) exampleSources.
Proof.
  split; [vm_compute; reflexivity|]. split; [done|]. split; [right; vm_compute; reflexivity|]. unfold providers. cbn. repeat apply Forall_cons_2; [..|apply Forall_nil_2]; (split; [repeat constructor; set_solver|]);
    intros v Hv; repeat (apply elem_of_cons in Hv as [Hv|Hv]; [first [discriminate Hv|injection Hv as ->; split; [|done]; apply HMap; intros k w Hw]|]); try by apply not_elem_of_nil in Hv.
  - apply lookup_insert_Some in Hw as [[_ <-]|[_ [_ <-]%lookup_singleton_Some]]; apply warningAt_typed.
  - apply lookup_singleton_Some in Hw as [_ <-]. apply criticalAt_typed.
  - apply lookup_singleton_Some in Hw as [_ <-]. apply warningAt_typed.
  - by rewrite lookup_empty in Hw.
Qed.

Lemma load_typed_witness :
  let built := buildItems (items (load true true exampleSources)) in
  "thresholds" ∉ built.2 ∧ (∀ v, built.1.1 !! "thresholds" = Some v → hasType (TMap Threshold) v ∧ v ≠ VNil) ∧ is_Some (built.1.1 !! "thresholds").
Proof.
  destruct (load_typed "thresholds" (TMap Threshold) exampleSources) as (H1 & H2 & H3); [apply exampleSources_typed|done|by left|]. split; [exact H1|]. split; [exact H2|]. by apply H3.
Defined.

(** A scalar that both prefixes of the environment set is lost. *)
Example env_set_twice :
  let built := buildItems (items (load true true exampleSources)) in
  built.1.1 !! "nrpe.port" = Some VNil ∧ built.2 = ["nrpe.port"].
Proof. cbn zeta. split; vm_compute; reflexivity. Qed.

(** The keys that are pruned are the ones of the dynamic variables. *)
Example pruned_are_dynamic : nilPrunedConfigKeys = reverse dynamicEnvVarConfigKeys.
Proof. vm_compute. reflexivity. Qed.
End Examples.
