(* ===== verification/ConfigEnv.v ===== *)
(** The variables of the environment (config/config.go): the key of the configuration that a variable sets, with the names that are deprecated and
    the ones that have a part that is the user's.

    Names are ASCII.  The order in which a map is iterated over is an argument. *)
From S2P Require Import Prelude Strings ConfigTypes Config.

#[local] Open Scope Z_scope.
#[local] Open Scope list_scope.
#[local] Open Scope string_scope.

(** * Strings *)
Definition upperAscii (c : Ascii.ascii) : Ascii.ascii :=
  let n := Ascii.nat_of_ascii c in if (97 <=? n)%nat && (n <=? 122)%nat then Ascii.ascii_of_nat (n - 32) else c.
Definition lowerAscii (c : Ascii.ascii) : Ascii.ascii :=
  let n := Ascii.nat_of_ascii c in if (65 <=? n)%nat && (n <=? 90)%nat then Ascii.ascii_of_nat (n + 32) else c.

Fixpoint mapString (f : Ascii.ascii → Ascii.ascii) (s : string) : string :=
  match s with EmptyString => EmptyString | String c s => String (f c) (mapString f s) end.

Definition ToUpper : string → string := mapString upperAscii.
Definition ToLower : string → string := mapString lowerAscii.

(** strings.ReplaceAll(s, ".", "_") *)
Definition underscored : string → string := mapString (λ c, if Ascii.eqb c "." then "_"%char else c).

(** strings.CutSuffix *)
Fixpoint CutSuffix (s suffix : string) : option string :=
  if String.eqb s suffix then Some "" else match s with EmptyString => None | String c s => String c <$> CutSuffix s suffix end.

(** * The keys *)
Definition envPrefix : string := "GLOUTON_".
Definition deprecatedEnvPrefix : string := "BLEEMEO_AGENT_".

Definition toEnvKey (key : string) : string := envPrefix +:+ underscored (ToUpper key).
Definition toDeprecatedEnvKey (key : string) : string := deprecatedEnvPrefix +:+ underscored (ToUpper key).

Definition movedKeys : list (string * string) :=
  [("agent.absent_service_deactivation_delay", "service_absent_deactivation_delay"); ("agent.http_debug.enable", "web.endpoints.debug_enable");
   ("agent.http_debug.enabled", "web.endpoints.debug_enable"); ("agent.node_exporter.enabled", "agent.node_exporter.enable");
   ("agent.process_exporter.enabled", "agent.process_exporter.enable"); ("agent.telemetry.enabled", "agent.telemetry.enable");
   ("agent.windows_exporter.enabled", "agent.windows_exporter.enable"); ("blackbox.enabled", "blackbox.enable"); ("bleemeo.enabled", "bleemeo.enable");
   ("jmx.enabled", "jmx.enable"); ("kubernetes.enabled", "kubernetes.enable");
   ("log.opentelemetry.auto_discovery.enable_all", "log.opentelemetry.auto_discovery.all_enable");
   ("log.opentelemetry.auto_discovery.enable_auditd", "log.opentelemetry.auto_discovery.auditd_enable");
   ("log.opentelemetry.auto_discovery.enable_container_and_service", "log.opentelemetry.auto_discovery.container_and_service_enable");
   ("log.opentelemetry.auto_discovery.enable_journalctl", "log.opentelemetry.auto_discovery.journald_enable");
   ("log.opentelemetry.auto_discovery.journalctl_enable", "log.opentelemetry.auto_discovery.journald_enable");
   ("log.opentelemetry.auto_discovery.enable_syslog", "log.opentelemetry.auto_discovery.syslog_enable");
   ("log.opentelemetry.enable", "log.opentelemetry.shipping_enable"); ("network_interface_blacklist", "network_interface_denylist");
   ("nrpe.enabled", "nrpe.enable"); ("telegraf.docker_metrics_enabled", "telegraf.docker_metrics_enable"); ("telegraf.statsd.enabled", "telegraf.statsd.enable");
   ("web.enabled", "web.enable"); ("zabbix.enabled", "zabbix.enable")].

(** The keys of a configuration that is empty: the fields that are not structs, under their path. *)
Fixpoint leafKeys (fuel : nat) (prefix : string) (τ : ty) : list string :=
  match fuel, τ with
  | S fuel, TStruct fields => concat ((λ f, leafKeys fuel (if String.eqb prefix "" then f.1 else prefix +:+ "." +:+ f.1) f.2) <$> fields)
  | _, _ => [prefix]
  end.

Definition configKeys : list string := leafKeys 10 "" Config.

(** * The variables *)
(** The conversion of [envToKeyFunc].  [None]: it panics, as two keys have the same variable. *)
Definition envToKey (allKeys : list string) : option (gmap string string) :=
  foldl (λ m key, match m with None => None | Some m => match m !! toEnvKey key with Some _ => None | None => Some (<[toEnvKey key := key]> m) end end) (Some ∅) allKeys.

Definition movedEnvKeys (movedKeys : list (string * string)) : gmap string string :=
  let m : gmap string string :=
    list_to_map [("BLEEMEO_AGENT_ACCOUNT", "GLOUTON_BLEEMEO_ACCOUNT_ID"); ("BLEEMEO_AGENT_REGISTRATION_KEY", "GLOUTON_BLEEMEO_REGISTRATION_KEY");
                 ("BLEEMEO_AGENT_API_BASE", "GLOUTON_BLEEMEO_API_BASE"); ("BLEEMEO_AGENT_MQTT_HOST", "GLOUTON_BLEEMEO_MQTT_HOST");
                 ("BLEEMEO_AGENT_MQTT_PORT", "GLOUTON_BLEEMEO_MQTT_PORT"); ("BLEEMEO_AGENT_MQTT_SSL", "GLOUTON_BLEEMEO_MQTT_SSL")] in
  foldl (λ m kv, <[toDeprecatedEnvKey kv.1 := toEnvKey kv.2]> (<[toEnvKey kv.1 := toEnvKey kv.2]> m)) m movedKeys.

(** The loop of [resolveDynamicEnvKey] over the suffixes of a variable. *)
Fixpoint resolveSuffix (configPrefix rest : string) (suffixes : list (string * string)) : option string :=
  match suffixes with
  | [] => None
  | (suffix, subKey) :: suffixes =>
      match CutSuffix rest suffix with
      | Some name => if String.eqb name "" then resolveSuffix configPrefix rest suffixes else Some (configPrefix +:+ ToLower name +:+ "." +:+ subKey)
      | None => resolveSuffix configPrefix rest suffixes
      end
  end.

Fixpoint resolveDynamicEnvKey (l : list dynamicEnvVar) (s : string) : option string :=
  match l with
  | [] => None
  | dynamicVar :: l =>
      match CutPrefix (Config.envPrefix dynamicVar) s with
      | None => resolveDynamicEnvKey l s
      | Some rest => match resolveSuffix (configPrefix dynamicVar) rest (suffixes dynamicVar) with Some key => Some key | None => resolveDynamicEnvKey l s end
      end
  end.

(** [envFunc]: the key, empty when there is none, and the names that are deprecated with the ones to use instead. *)
Definition envFunc (envToKey movedEnvKeys : gmap string string) (dynamic : list dynamicEnvVar) (s : string) : string * list (string * string) :=
  let '(s, warnings) := match movedEnvKeys !! s with Some newKey => (newKey, [(s, newKey)]) | None => (s, []) end in
  let '(s, warnings) :=
    match CutPrefix deprecatedEnvPrefix s with Some rest => (envPrefix +:+ rest, warnings ++ [(s, envPrefix +:+ rest)])%list | None => (s, warnings) end in
  (match envToKey !! s with Some key => key | None => default "" (resolveDynamicEnvKey dynamic s) end, warnings).

#[local] Arguments toEnvKey : simpl never.
#[local] Arguments toDeprecatedEnvKey : simpl never.

(** * Laws *)
Lemma mapString_app (f : Ascii.ascii → Ascii.ascii) (s t : string) : mapString f (s +:+ t) = mapString f s +:+ mapString f t.
Proof. induction s as [|c s IH]; [done|]. change (String (f c) (mapString f (s +:+ t)) = String (f c) (mapString f s +:+ mapString f t)). by rewrite IH. Qed.

Lemma envName_app (s t : string) : underscored (ToUpper (s +:+ t)) = underscored (ToUpper s) +:+ underscored (ToUpper t).
Proof. unfold underscored, ToUpper. by rewrite !mapString_app. Qed.

Lemma string_length_app (s t : string) : String.length (s +:+ t) = (String.length s + String.length t)%nat.
Proof. induction s as [|c s IH]; [done|]. change (S (String.length (s +:+ t)) = S (String.length s + String.length t)). by rewrite IH. Qed.

Lemma CutSuffix_Some (s suffix rest : string) : CutSuffix s suffix = Some rest ↔ s = rest +:+ suffix.
Proof.
  revert rest. induction s as [|c s IH]; intros rest; cbn [CutSuffix].
  - destruct suffix as [|d suffix]; (split; [try done; by intros [= <-]|]); destruct rest; done || discriminate.
  - destruct (String.eqb_spec (String c s) suffix) as [<-|Hne].
    + split; [by intros [= <-]|]. destruct rest as [|d rest]; [done|]. change (String d rest +:+ String c s) with (String d (rest +:+ String c s)). intros H. apply (f_equal String.length) in H. cbn in H. rewrite string_length_app in H. cbn in H. lia.
    + destruct rest as [|d rest]; [split; [by destruct (CutSuffix s suffix)|intros Hs; by destruct Hne]|]. change (String d rest +:+ suffix) with (String d (rest +:+ suffix)).
      destruct (CutSuffix s suffix) as [r|] eqn:Hr; cbn; [|split; [done|]]; [|intros [= <- Hs]; apply IH in Hs; by rewrite Hs in Hr].
      split; [intros [= <- <-]; f_equal; by apply IH|]. intros [= <- Hs]. apply IH in Hs. congruence.
Qed.

(** The name that a variable gives back. *)
Definition isName (name : string) : Prop :=
  name ≠ "" ∧ ∀ c, c ∈ String.list_ascii_of_string name → c ≠ "."%char ∧ ((Ascii.nat_of_ascii c < 65)%nat ∨ (90 < Ascii.nat_of_ascii c < 128)%nat).

Lemma ToLower_envName (name : string) : isName name → ToLower (underscored (ToUpper name)) = name.
Proof.
  intros [_ Hc]. induction name as [|c name IH]; [done|]. unfold ToLower, underscored, ToUpper in *. cbn in *. f_equal; [|apply IH; intros d Hd; apply Hc; by right].
  destruct (Hc c ltac:(by left)) as [Hdot Hup]. clear -Hdot Hup. destruct c as [[] [] [] [] [] [] [] []]; vm_compute in Hup |- *; (reflexivity || (exfalso; apply Hdot; reflexivity) || lia).
Qed.

Lemma envToKey_spec (keys : list string) :
  NoDup (toEnvKey <$> keys) → ∃ m, envToKey keys = Some m ∧ ∀ s key, m !! s = Some key ↔ key ∈ keys ∧ toEnvKey key = s.
Proof.
  induction keys as [|k keys IH] using rev_ind; intros Hnd; [exists ∅; split; [done|]; intros s key; rewrite lookup_empty; set_solver|].
  rewrite fmap_app in Hnd. apply NoDup_app in Hnd as (Hnd & Hnew & _). destruct (IH Hnd) as (m & Hm & Hspec). unfold envToKey in *. rewrite foldl_app, Hm. cbn.
  destruct (m !! toEnvKey k) as [k'|] eqn:Hk.
  { apply Hspec in Hk as [Hin Heq]. exfalso. apply (Hnew (toEnvKey k)); [rewrite <- Heq; by apply list_elem_of_fmap_2|by left]. }
  eexists. split; [done|]. intros s key. rewrite lookup_insert_Some, Hspec. split; [intros [[<- <-]|[? [? ?]]]; set_solver|]. intros [[Hin|Hin]%elem_of_app Hs].
  - right. split; [|done]. intros Heq. apply (Hnew s); [rewrite <- Hs; by apply list_elem_of_fmap_2|rewrite <- Heq; by left].
  - apply list_elem_of_singleton in Hin as ->. by left.
Qed.

(** The variables that [movedEnvKeys] replaces. *)
Definition movedPairs (moved : list (string * string)) : list (string * string) :=
  ([("BLEEMEO_AGENT_ACCOUNT", "GLOUTON_BLEEMEO_ACCOUNT_ID"); ("BLEEMEO_AGENT_REGISTRATION_KEY", "GLOUTON_BLEEMEO_REGISTRATION_KEY");
    ("BLEEMEO_AGENT_API_BASE", "GLOUTON_BLEEMEO_API_BASE"); ("BLEEMEO_AGENT_MQTT_HOST", "GLOUTON_BLEEMEO_MQTT_HOST");
    ("BLEEMEO_AGENT_MQTT_PORT", "GLOUTON_BLEEMEO_MQTT_PORT"); ("BLEEMEO_AGENT_MQTT_SSL", "GLOUTON_BLEEMEO_MQTT_SSL")] ++
   concat ((λ kv, [(toEnvKey kv.1, toEnvKey kv.2); (toDeprecatedEnvKey kv.1, toEnvKey kv.2)]) <$> moved))%list.

Lemma movedEnvKeys_lookup (moved : list (string * string)) (s v : string) :
  NoDup (fst <$> movedPairs moved) → movedEnvKeys moved !! s = Some v ↔ (s, v) ∈ movedPairs moved.
Proof.
  revert s v. unfold movedPairs. set (six := [_; _; _; _; _; _]). induction moved as [|kv moved IH] using rev_ind; intros s v Hnd.
  - cbn [concat fmap list_fmap] in *. rewrite app_nil_r in *. unfold movedEnvKeys. cbn [foldl]. fold six. symmetry. by apply elem_of_list_to_map.
  - rewrite fmap_app, concat_app, app_assoc in *. set (pairs := (six ++ _)%list) in *. clearbody pairs. rewrite fmap_app in Hnd. apply NoDup_app in Hnd as (Hnd & Hnew & Hnd').
    unfold movedEnvKeys in *. rewrite foldl_app. cbn [foldl]. cbn in Hnew, Hnd'. apply NoDup_cons in Hnd' as [Hne _]. cbn. rewrite !lookup_insert_Some, IH by done. rewrite elem_of_app.
    assert (∀ v, (toEnvKey kv.1, v) ∉ pairs ∧ (toDeprecatedEnvKey kv.1, v) ∉ pairs) as Hno.
    { intros w. split; intros Hin; apply (list_elem_of_fmap_2 fst), Hnew in Hin; set_solver. }
    split; [intros [[<- <-]|[? [[<- <-]|[? ?]]]]; set_solver|]. intros [Hin|Hin].
    + right. split; [intros <-; exact (proj2 (Hno v) Hin)|]. right. split; [intros <-; exact (proj1 (Hno v) Hin)|done].
    + apply elem_of_cons in Hin as [[= -> ->]|Hin]; [right; split; [set_solver|by left]|]. apply list_elem_of_singleton in Hin as [= -> ->]. by left.
Qed.

Lemma movedPairs_perm (moved moved' : list (string * string)) : moved ≡ₚ moved' → movedPairs moved ≡ₚ movedPairs moved'.
Proof. intros Hp. unfold movedPairs. apply Permutation_app; [done|]. induction Hp as [|x l l' _ IH|x y l|l l' l'' _ IH1 _ IH2]; cbn; [done| | |by etrans]; [by rewrite IH|]. apply (Permutation_app_swap_app [_; _] [_; _]). Qed.

(** What the fields of the configuration and the names that were moved satisfy. *)
Definition isPrefix (p s : string) : bool := if CutPrefix p s then true else false.

Lemma forallb_elem {A : Type} (f : A → bool) (l : list A) (x : A) : forallb f l = true → x ∈ l → f x = true.
Proof. intros Hf Hx. by apply (proj1 (forallb_forall f l) Hf), list_elem_of_In. Qed.

Definition member (s : string) (l : list string) : bool := existsb (String.eqb s) l.

Lemma member_spec (s : string) (l : list string) : reflect (s ∈ l) (member s l).
Proof.
  apply iff_reflect. unfold member. rewrite existsb_exists. split; [intros Hs; exists s; split; [by apply list_elem_of_In|apply String.eqb_refl]|]. intros (x & Hx & Heq%String.eqb_eq). subst x. by apply list_elem_of_In.
Qed.

Fixpoint distinct (l : list string) : bool := match l with [] => true | s :: l => negb (member s l) && distinct l end.

Lemma distinct_spec (l : list string) : distinct l = true → NoDup l.
Proof. induction l as [|s l IH]; [constructor|]. cbn. intros [Hs Hl]%andb_true_iff. constructor; [|by apply IH]. by destruct (member_spec s l). Qed.

Definition movedNames : list string := Eval vm_compute in (fst <$> movedPairs movedKeys).
Definition configNames : list string := Eval vm_compute in (toEnvKey <$> configKeys).

Lemma movedNames_eq : fst <$> movedPairs movedKeys = movedNames.
Proof. vm_compute. reflexivity. Qed.

Lemma configNames_eq : toEnvKey <$> configKeys = configNames.
Proof. vm_compute. reflexivity. Qed.

Lemma configKeys_distinct : NoDup (toEnvKey <$> configKeys).
Proof. rewrite configNames_eq. apply distinct_spec. vm_compute. reflexivity. Qed.

Lemma movedPairs_distinct : NoDup (fst <$> movedPairs movedKeys).
Proof. rewrite movedNames_eq. apply distinct_spec. vm_compute. reflexivity. Qed.

Lemma configKeys_not_moved (key : string) : key ∈ configKeys → toEnvKey key ∉ movedNames.
Proof.
  assert (forallb (λ key, negb (member (toEnvKey key) movedNames)) configKeys = true) as Hchk by (vm_compute; reflexivity).
  intros Hk. pose proof (forallb_elem _ configKeys key Hchk Hk) as H. cbn beta in H. destruct (member_spec (toEnvKey key) movedNames) as [_|Hno]; [discriminate H|exact Hno].
Qed.

Lemma configKeys_deprecated (key : string) : key ∈ configKeys → key ∉ ["mqtt.port"; "mqtt.ssl"] → toDeprecatedEnvKey key ∉ movedNames.
Proof.
  assert (forallb (λ key, member key ["mqtt.port"; "mqtt.ssl"] || negb (member (toDeprecatedEnvKey key) movedNames)) configKeys = true) as Hchk by (vm_compute; reflexivity).
  intros Hk Hne. pose proof (forallb_elem _ configKeys key Hchk Hk) as H. cbn beta in H. clear Hchk Hk. destruct (member_spec key ["mqtt.port"; "mqtt.ssl"]) as [He|_]; [destruct (Hne He)|]. destruct (member_spec (toDeprecatedEnvKey key) movedNames) as [_|Hno]; [discriminate H|exact Hno].
Qed.

Lemma movedKeys_exist (kv : string * string) : kv ∈ movedKeys → kv.2 ∈ configKeys.
Proof.
  assert (forallb (λ kv, member kv.2 configKeys) movedKeys = true) as Hchk by (vm_compute; reflexivity).
  intros Hk. pose proof (forallb_elem _ movedKeys kv Hchk Hk) as H. cbn beta in H. destruct (member_spec kv.2 configKeys) as [Hin|_]; [exact Hin|discriminate H].
Qed.

Lemma dynamic_free (d : dynamicEnvVar) (s : string) : d ∈ dynamicEnvVarList → s ∈ configNames ∨ s ∈ movedNames → isPrefix (Config.envPrefix d) s = false.
Proof.
  assert (forallb (λ d, forallb (λ s, negb (isPrefix (Config.envPrefix d) s)) (configNames ++ movedNames)%list) dynamicEnvVarList = true) as Hchk by (vm_compute; reflexivity).
  intros Hd Hs. apply elem_of_app in Hs. pose proof (forallb_elem _ _ d Hchk Hd) as H. cbn beta in H. pose proof (forallb_elem _ _ s H Hs) as H'. cbn beta in H'. by apply negb_true_iff.
Qed.

#[local] Opaque configKeys movedKeys movedNames configNames.

(** A variable with its suffixes in another order. *)
Definition sameVar (d d' : dynamicEnvVar) : Prop :=
  Config.envPrefix d = Config.envPrefix d' ∧ configPrefix d = configPrefix d' ∧ suffixes d ≡ₚ suffixes d'.

Definition dynamicChecks : bool :=
  forallb (λ d, bool_decide (toEnvKey (configPrefix d) = Config.envPrefix d) &&
                forallb (λ p, bool_decide (underscored (ToUpper ("." +:+ p.2)) = p.1) &&
                              forallb (λ q, bool_decide (p = q) || negb (if CutSuffix p.1 q.1 then true else false)) (suffixes d)) (suffixes d)) dynamicEnvVarList.

Lemma dynamicChecks_hold : dynamicChecks = true.
Proof. vm_compute. reflexivity. Qed.

Lemma dynamicVar_names (d : dynamicEnvVar) : d ∈ dynamicEnvVarList → toEnvKey (configPrefix d) = Config.envPrefix d ∧ ∀ p, p ∈ suffixes d → underscored (ToUpper ("." +:+ p.2)) = p.1.
Proof.
  intros Hd. pose proof dynamicChecks_hold as Hchk. unfold dynamicChecks in Hchk. rewrite forallb_forall in Hchk. apply list_elem_of_In, Hchk in Hd. rewrite andb_true_iff, forallb_forall in Hd. destruct Hd as [Hp%bool_decide_eq_true Hs].
  split; [done|]. intros p Hin. apply list_elem_of_In, Hs in Hin. apply andb_true_iff in Hin as [Hin%bool_decide_eq_true _]. done.
Qed.

Lemma dynamicVar_suffixes (d : dynamicEnvVar) (p q : string * string) : d ∈ dynamicEnvVarList → p ∈ suffixes d → q ∈ suffixes d → p ≠ q → CutSuffix p.1 q.1 = None.
Proof.
  intros Hd Hp Hq Hne. pose proof dynamicChecks_hold as Hchk. unfold dynamicChecks in Hchk. rewrite forallb_forall in Hchk. apply list_elem_of_In, Hchk in Hd. rewrite andb_true_iff, forallb_forall in Hd. destruct Hd as [_ Hs].
  apply list_elem_of_In, Hs in Hp. rewrite andb_true_iff, forallb_forall in Hp. destruct Hp as [_ Hp]. apply list_elem_of_In, Hp in Hq. rewrite bool_decide_eq_false_2 in Hq by done. by destruct (CutSuffix p.1 q.1).
Qed.

Lemma string_app_assoc (s t u : string) : (s +:+ t) +:+ u = s +:+ t +:+ u.
Proof. induction s as [|c s IH]; [done|]. change (String c ((s +:+ t) +:+ u) = String c (s +:+ t +:+ u)). by rewrite IH. Qed.

(** Of two suffixes of a string one is a suffix of the other. *)
Lemma suffixes_comparable (a b s t : string) : a +:+ s = b +:+ t → (∃ c, s = c +:+ t) ∨ (∃ c, t = c +:+ s).
Proof.
  revert b. induction a as [|x a IH]; intros b Heq; [left; by exists b|]. destruct b as [|y b]; [right; by exists (String x a)|].
  change (String x (a +:+ s) = String y (b +:+ t)) in Heq. injection Heq as _ Heq. by apply (IH b).
Qed.

Lemma resolveSuffix_found (prefix name : string) (l : list (string * string)) (suffix sub : string) :
  name ≠ "" → (suffix, sub) ∈ l → (∀ p q, p ∈ l → q ∈ l → p ≠ q → CutSuffix p.1 q.1 = None) →
  resolveSuffix prefix (name +:+ suffix) l = Some (prefix +:+ ToLower name +:+ "." +:+ sub).
Proof.
  intros Hname. induction l as [|[x y] l IH]; intros Hin Hdis; [by apply not_elem_of_nil in Hin|]. cbn. destruct (CutSuffix (name +:+ suffix) x) as [n|] eqn:Hcut.
  - apply CutSuffix_Some in Hcut as Heq. destruct (decide ((suffix, sub) = (x, y))) as [[= -> ->]|Hne].
    + assert (CutSuffix (name +:+ x) x = Some name) as Hn by (by apply CutSuffix_Some). rewrite Hn in Hcut. injection Hcut as <-. destruct (String.eqb_spec name ""); [done|done].
    + exfalso. destruct (suffixes_comparable _ _ _ _ Heq) as [[c Hc]|[c Hc]].
      * pose proof (Hdis (suffix, sub) (x, y) Hin ltac:(by left) Hne) as Hd. cbn in Hd. apply CutSuffix_Some in Hc. congruence.
      * pose proof (Hdis (x, y) (suffix, sub) ltac:(by left) Hin ltac:(done)) as Hd. cbn in Hd. apply CutSuffix_Some in Hc. congruence.
  - apply elem_of_cons in Hin as [[= -> ->]|Hin]; [|apply IH; [done|]; intros p q Hp Hq; apply Hdis; by right].
    assert (CutSuffix (name +:+ x) x = Some name) as Hn by (by apply CutSuffix_Some). congruence.
Qed.

Lemma resolveDynamicEnvKey_found (dyn : list dynamicEnvVar) (d : dynamicEnvVar) (name suffix sub : string) :
  Forall2 sameVar dyn dynamicEnvVarList → d ∈ dynamicEnvVarList → (suffix, sub) ∈ suffixes d → name ≠ "" →
  resolveDynamicEnvKey dyn (Config.envPrefix d +:+ name +:+ suffix) = Some (configPrefix d +:+ ToLower name +:+ "." +:+ sub).
Proof.
  intros Hsame Hd Hs Hname.
  assert (∀ d', sameVar d' d → resolveSuffix (configPrefix d') (name +:+ suffix) (suffixes d') = Some (configPrefix d +:+ ToLower name +:+ "." +:+ sub)) as Hres.
  { intros d' (_ & -> & Hp). apply resolveSuffix_found; [done|by rewrite Hp|]. intros p q. rewrite Hp. by apply dynamicVar_suffixes. }
  assert (∀ d', sameVar d' d → CutPrefix (Config.envPrefix d') (Config.envPrefix d +:+ name +:+ suffix) = Some (name +:+ suffix)) as Hcut by (intros d' (-> & _); by apply CutPrefix_Some).
  inversion Hsame as [|d1 v1 ? ? H1 Hsame1]; subst. inversion Hsame1 as [|d2 v2 ? ? H2 Hsame2]; subst. inversion Hsame2; subst. cbn [resolveDynamicEnvKey].
  apply elem_of_cons in Hd as [Hd|Hd]; [subst d; by rewrite Hcut, Hres|]. apply list_elem_of_singleton in Hd. subst d. rewrite (Hcut d2 H2), (Hres d2 H2). by destruct H1 as (-> & _ & _).
Qed.

Section Variables.
Context (keys : list string) (moved : list (string * string)) (dyn : list dynamicEnvVar) (m : gmap string string).
Context (Hkeys : keys ≡ₚ configKeys) (Hmoved : moved ≡ₚ movedKeys) (Hdyn : Forall2 sameVar dyn dynamicEnvVarList).
Context (Hm : ∀ s key, m !! s = Some key ↔ key ∈ keys ∧ toEnvKey key = s).

Lemma moved_lookup (s v : string) : movedEnvKeys moved !! s = Some v ↔ (s, v) ∈ movedPairs movedKeys.
Proof.
  rewrite movedEnvKeys_lookup; [by rewrite (movedPairs_perm _ _ Hmoved)|]. rewrite (movedPairs_perm _ _ Hmoved). exact movedPairs_distinct.
Qed.

Lemma moved_none (s : string) : s ∉ movedNames → movedEnvKeys moved !! s = None.
Proof. rewrite <- movedNames_eq. intros Hs. destruct (movedEnvKeys moved !! s) as [v|] eqn:Hv; [|done]. apply moved_lookup in Hv. destruct Hs. by apply (list_elem_of_fmap_2 fst) in Hv. Qed.

Lemma envToKey_found (key : string) : key ∈ configKeys → m !! toEnvKey key = Some key.
Proof. intros Hk. apply Hm. by rewrite Hkeys. Qed.

Lemma toEnvKey_not_deprecated (key : string) : CutPrefix deprecatedEnvPrefix (toEnvKey key) = None.
Proof. done. Qed.

(** A variable that names a key sets it. *)
Lemma envFunc_key (key : string) : key ∈ configKeys → envFunc m (movedEnvKeys moved) dyn (toEnvKey key) = (key, []).
Proof.
  intros Hk. unfold envFunc. by rewrite (moved_none _ (configKeys_not_moved key Hk)), toEnvKey_not_deprecated, (envToKey_found key Hk).
Qed.

Lemma envFunc_deprecated (key : string) :
  key ∈ configKeys → key ∉ ["mqtt.port"; "mqtt.ssl"] → envFunc m (movedEnvKeys moved) dyn (toDeprecatedEnvKey key) = (key, [(toDeprecatedEnvKey key, toEnvKey key)]).
Proof.
  intros Hk Hne. unfold envFunc. rewrite (moved_none _ (configKeys_deprecated key Hk Hne)).
  assert (CutPrefix deprecatedEnvPrefix (toDeprecatedEnvKey key) = Some (underscored (ToUpper key))) as -> by (by apply CutPrefix_Some). fold (toEnvKey key). by rewrite (envToKey_found key Hk).
Qed.

Lemma envFunc_moved (s old new : string) :
  (old, new) ∈ movedKeys → s = toEnvKey old ∨ s = toDeprecatedEnvKey old → envFunc m (movedEnvKeys moved) dyn s = (new, [(s, toEnvKey new)]).
Proof.
  intros Hk Hs. assert (movedEnvKeys moved !! s = Some (toEnvKey new)) as Hmv.
  { apply moved_lookup. unfold movedPairs. apply elem_of_app. right. apply list_elem_of_In, in_concat. eexists. split; [apply list_elem_of_In, list_elem_of_fmap; by exists (old, new)|]. destruct Hs as [->| ->]; cbn; auto. }
  unfold envFunc. by rewrite Hmv, toEnvKey_not_deprecated, (envToKey_found new (movedKeys_exist (old, new) Hk)).
Qed.

(** The two keys whose deprecated variables are moved ones. *)
Lemma envFunc_mqtt (key : string) :
  key ∈ ["mqtt.port"; "mqtt.ssl"] → envFunc m (movedEnvKeys moved) dyn (toDeprecatedEnvKey key) = ("bleemeo." +:+ key, [(toDeprecatedEnvKey key, toEnvKey ("bleemeo." +:+ key))]).
Proof.
  intros Hk. assert (movedEnvKeys moved !! toDeprecatedEnvKey key = Some (toEnvKey ("bleemeo." +:+ key)) ∧ "bleemeo." +:+ key ∈ configKeys) as [Hmv Hin].
  { split.
    - apply moved_lookup. unfold movedPairs. apply elem_of_app. left. apply elem_of_cons in Hk as [->|Hk%list_elem_of_singleton]; [|subst key]; [do 4 right; left|do 5 right; left].
    - assert (forallb (λ key, member ("bleemeo." +:+ key) configKeys) ["mqtt.port"; "mqtt.ssl"] = true) as Hchk by (vm_compute; reflexivity).
      pose proof (forallb_elem _ _ key Hchk Hk) as H. cbn beta in H. clear Hchk. destruct (member_spec ("bleemeo." +:+ key) configKeys) as [Hin|_]; [exact Hin|discriminate H]. }
  unfold envFunc. by rewrite Hmv, toEnvKey_not_deprecated, (envToKey_found _ Hin).
Qed.

(** A variable of a listener or of a threshold sets the key with the name in lower case. *)
Lemma envFunc_dynamicName (d : dynamicEnvVar) (name suffix sub : string) :
  d ∈ dynamicEnvVarList → (suffix, sub) ∈ suffixes d → name ≠ "" →
  envFunc m (movedEnvKeys moved) dyn (Config.envPrefix d +:+ name +:+ suffix) = (configPrefix d +:+ ToLower name +:+ "." +:+ sub, []).
Proof.
  intros Hd Hs Hname. destruct (dynamicVar_names d Hd) as [Hpre _]. set (var := Config.envPrefix d +:+ name +:+ suffix).
  assert (∀ s, s ∈ configNames ∨ s ∈ movedNames → s ≠ var) as Hfree.
  { intros s Hin ->. apply (dynamic_free d _ Hd) in Hin. unfold isPrefix in Hin. assert (CutPrefix (Config.envPrefix d) var = Some (name +:+ suffix)) as Hc by (by apply CutPrefix_Some). by rewrite Hc in Hin. }
  unfold envFunc. rewrite moved_none by (intros Hin; by apply (Hfree var); [right|]).
  assert (CutPrefix deprecatedEnvPrefix var = None) as -> by (unfold var; by rewrite <- Hpre).
  assert (m !! var = None) as ->.
  { destruct (m !! var) as [k|] eqn:Hk; [|done]. apply Hm in Hk as [Hk Heq]. rewrite Hkeys in Hk. exfalso. apply (Hfree (toEnvKey k)); [left; rewrite <- configNames_eq; by apply list_elem_of_fmap_2|done]. }
  unfold var. by rewrite (resolveDynamicEnvKey_found dyn d name suffix sub Hdyn Hd Hs Hname).
Qed.

Lemma envFunc_dynamic (d : dynamicEnvVar) (name suffix sub : string) :
  d ∈ dynamicEnvVarList → (suffix, sub) ∈ suffixes d → isName name →
  let key := configPrefix d +:+ name +:+ "." +:+ sub in envFunc m (movedEnvKeys moved) dyn (toEnvKey key) = (key, []).
Proof.
  intros Hd Hs Hname. cbn zeta. destruct (dynamicVar_names d Hd) as [Hpre Hsuf]. specialize (Hsuf _ Hs). cbn in Hsuf. set (up := underscored (ToUpper name)).
  assert (toEnvKey (configPrefix d +:+ name +:+ "." +:+ sub) = Config.envPrefix d +:+ up +:+ suffix) as ->.
  { unfold toEnvKey. rewrite envName_app, envName_app, <- string_app_assoc. fold (toEnvKey (configPrefix d)). rewrite Hpre. fold up. f_equal. f_equal. exact Hsuf. }
  rewrite (envFunc_dynamicName d up suffix sub Hd Hs) by (destruct Hname as [Hn _]; unfold up; by destruct name). unfold up. by rewrite ToLower_envName.
Qed.
End Variables.

(** C19. Whatever the order in which maps are iterated over, no two keys have the same variable, and the variable of a key sets it: with the current prefix, with
    the deprecated one (but for mqtt.port and mqtt.ssl, whose deprecated variables set the keys of Bleemeo's MQTT), and under the name that the key had before it was
    moved.  A variable of a threshold or of a listener sets the key of its name in lower case, which is the key it is named after when the
    name of that one is in lower case and has no dot. *)
Theorem env_roundtrip (keys : list string) (moved : list (string * string)) (dyn : list dynamicEnvVar) :
  keys ≡ₚ configKeys → moved ≡ₚ movedKeys → Forall2 sameVar dyn dynamicEnvVarList →
  ∃ m, envToKey keys = Some m ∧
    let f := envFunc m (movedEnvKeys moved) dyn in
    (∀ key, key ∈ configKeys → f (toEnvKey key) = (key, [])) ∧
    (∀ key, key ∈ configKeys → key ∉ ["mqtt.port"; "mqtt.ssl"] → f (toDeprecatedEnvKey key) = (key, [(toDeprecatedEnvKey key, toEnvKey key)])) ∧
    (∀ key, key ∈ ["mqtt.port"; "mqtt.ssl"] → f (toDeprecatedEnvKey key) = ("bleemeo." +:+ key, [(toDeprecatedEnvKey key, toEnvKey ("bleemeo." +:+ key))])) ∧
    (∀ s old new, (old, new) ∈ movedKeys → s = toEnvKey old ∨ s = toDeprecatedEnvKey old → f s = (new, [(s, toEnvKey new)])) ∧
    (∀ d name suffix sub, d ∈ dynamicEnvVarList → (suffix, sub) ∈ suffixes d → name ≠ "" →
       f (Config.envPrefix d +:+ name +:+ suffix) = (configPrefix d +:+ ToLower name +:+ "." +:+ sub, [])) ∧
    (∀ d name suffix sub, d ∈ dynamicEnvVarList → (suffix, sub) ∈ suffixes d → isName name →
       let key := configPrefix d +:+ name +:+ "." +:+ sub in f (toEnvKey key) = (key, [])).
Proof.
  intros Hkeys Hmoved Hdyn. destruct (envToKey_spec keys) as (m & Hm & Hspec); [rewrite Hkeys; exact configKeys_distinct|]. exists m. split; [exact Hm|]. cbn zeta. split_and!.
  - intros key Hk. by apply (envFunc_key keys).
  - intros key Hk Hne. by apply (envFunc_deprecated keys).
  - intros key Hk. by apply (envFunc_mqtt keys).
  - intros s old new Hk Hs. by apply (envFunc_moved keys moved dyn m Hkeys Hmoved Hspec s old new).
  - intros d name suffix sub Hd Hs Hname. by apply (envFunc_dynamicName keys moved dyn m Hkeys Hmoved Hdyn Hspec d name suffix sub).
  - intros d name suffix sub Hd Hs Hname. by apply (envFunc_dynamic keys moved dyn m Hkeys Hmoved Hdyn Hspec d name suffix sub).
Qed.

Definition exampleDynamic : list dynamicEnvVar := (λ d, mkDynamicEnvVar (Config.envPrefix d) (configPrefix d) (reverse (suffixes d))) <$> dynamicEnvVarList.

Lemma exampleDynamic_same : Forall2 sameVar exampleDynamic dynamicEnvVarList.
Proof. apply Forall2_fmap_l, Forall_Forall2_diag. apply Forall_true. intros d. split; [done|]. split; [done|]. apply reverse_Permutation. Qed.

Lemma env_roundtrip_witness :
  ∃ m, envToKey (reverse configKeys) = Some m ∧
    envFunc m (movedEnvKeys (reverse movedKeys)) exampleDynamic "GLOUTON_THRESHOLDS_CPU_USED_HIGH_WARNING" = ("thresholds.cpu_used.high_warning", []).
Proof.
  destruct (env_roundtrip (reverse configKeys) (reverse movedKeys) exampleDynamic) as (m & Hm & _ & _ & _ & _ & _ & Hdyn); [apply reverse_Permutation|apply reverse_Permutation|exact exampleDynamic_same|].
  exists m. split; [exact Hm|]. apply (Hdyn (mkDynamicEnvVar "GLOUTON_THRESHOLDS_" "thresholds."
     [("_LOW_WARNING", "low_warning"); ("_LOW_CRITICAL", "low_critical"); ("_HIGH_WARNING", "high_warning"); ("_HIGH_CRITICAL", "high_critical")]) "cpu_used" "_HIGH_WARNING" "high_warning").
  - right. left.
  - right. right. left.
  - split; [discriminate|]. intros c Hc. repeat (apply elem_of_cons in Hc as [->|Hc]; [split; [discriminate|vm_compute; lia]|]). destruct (not_elem_of_nil c Hc).
Defined.
