(* ===== verification/ConfigBuild.v ===== *)
(** The end of the construction of the configuration ([Build] of config/loader.go, config/config.go): the formats of logs that are detached from their map, the
    listener that the deprecated settings of OpenTelemetry describe, and the listeners that a receiver names twice.

    The order in which a map is iterated over and what mapstructure decodes are arguments. *)
From Stdlib Require Import QArith.
From stdpp Require Import pretty.
From S2P Require Import Prelude Labels Strings ConfigTypes Config ConfigEnv.

#[local] Open Scope Z_scope.
#[local] Open Scope list_scope.
#[local] Open Scope string_scope.

Definition listenersKey : string := "opentelemetry.listeners".
Definition receiversKey : string := "log.opentelemetry.receivers".
Definition formatsKey : string := "log.opentelemetry.known_log_formats".

(** [legacyNetworkReceiverNames] *)
Definition legacyReceiver : string := "legacy_network".
Definition legacyListener : string := "legacy-network".

(** * The deprecated settings of a listener *)
(** strconv.ParseBool, of a string in lower case *)
Definition strconvParseBool (s : string) : option bool :=
  if member s ["1"; "t"; "true"] then Some true else if member s ["0"; "f"; "false"] then Some false else None.

Definition ParseBool (s : string) : option bool :=
  let s := ToLower s in
  match strconvParseBool s with
  | Some b => Some b
  | None => if String.eqb s "yes" then Some true else if String.eqb s "no" then Some false else None
  end.

Definition legacyNetworkListenerBool (v : option value) : bool :=
  match v with
  | Some (VBool b) => b
  | Some (VStr s) => match ParseBool s with Some b => b | None => false end
  | _ => false
  end.

(** [legacyNetworkListenerPort].  A number is truncated. *)
Definition legacyNetworkListenerPort (v : option value) : option Z :=
  let port :=
    match v with
    | Some (VNum q) => Some (Z.quot (Qnum q) (Zpos (Qden q)))
    | Some (VStr s) => ParseInt s
    | _ => None
    end in
  match port with Some p => if (p =? 0)%Z then None else Some p | None => None end.

(** [endpointOf] *)
Definition endpointOf (config : string → option value) (sub : string) (defaultPort : Z) : string :=
  let path := "log.opentelemetry." +:+ sub in
  if legacyNetworkListenerBool (config (path +:+ ".enable")) then
    let address := match config (path +:+ ".address") with Some (VStr a) => a | _ => "" end in
    let address := if String.eqb address "" then "localhost" else address in
    let port := default defaultPort (legacyNetworkListenerPort (config (path +:+ ".port"))) in
    JoinHostPort address (pretty port)
  else "".

Definition protocolsOf (grpcEndpoint httpEndpoint : string) : gmap string value :=
  let protocols : gmap string value := if String.eqb grpcEndpoint "" then ∅ else {["grpc" := VMap {["endpoint" := VStr grpcEndpoint]}]} in
  if String.eqb httpEndpoint "" then protocols else <["http" := VMap {["endpoint" := VStr httpEndpoint]}]> protocols.

Definition isLegacyKey (key : string) : bool := isPrefix "log.opentelemetry.grpc." key || isPrefix "log.opentelemetry.http." key.

(** * Nested maps *)
Fixpoint setPath (parts : list string) (v : value) (node : gmap string value) : gmap string value :=
  match parts with
  | [] => node
  | [part] => <[part := v]> node
  | part :: parts =>
      let child := match node !! part with Some (VMap child) => child | _ => ∅ end in
      <[part := VMap (setPath parts v child)]> node
  end.

Definition nestedOf (v : option value) : gmap string value := match v with Some (VMap m) => m | _ => ∅ end.

(** * The listeners of a receiver *)
Fixpoint dedupe (seen : gset string) (listeners : list value) : list value :=
  match listeners with
  | [] => []
  | VStr name :: l => if bool_decide (name ∈ seen) then dedupe seen l else VStr name :: dedupe ({[name]} ∪ seen) l
  | v :: l => v :: dedupe seen l
  end.

Definition dedupeReceiver (v : value) : value :=
  match v with
  | VMap receiver =>
      match receiver !! "from_listeners" with
      | Some (VList listeners) => VMap (<["from_listeners" := VList (dedupe ∅ listeners)]> receiver)
      | _ => v
      end
  | _ => v
  end.

Definition dedupeFromListeners (config : gmap string value) : gmap string value :=
  match config !! receiversKey with
  | Some (VMap receivers) => <[receiversKey := VMap (dedupeReceiver <$> receivers)]> config
  | _ => config
  end.

Section Build.
Context (range : gmap string value → list (string * value)) (decodeTop : value → option (option (gmap string value))) (decodeOperators : value → option value).

(** The loop of [mergeKnownLogFormats].  [inr]: it returned early, with the formats that it had already detached. *)
Fixpoint detachFormats (l : list (string * value)) (topMap : option (gmap string value)) (detached config : gmap string value) :
    (option (gmap string value) * gmap string value * gmap string value) + gmap string value :=
  match l with
  | [] => inl (topMap, detached, config)
  | (key, item) :: l =>
      if String.eqb key formatsKey then
        match decodeTop item with None => inr config | Some topMap => detachFormats l topMap detached config end
      else
        match CutPrefix (formatsKey +:+ ".") key with
        | None => detachFormats l topMap detached config
        | Some formatName =>
            if byte_in "." formatName then detachFormats l topMap detached config
            else match decodeOperators item with
                 | None => inr config
                 | Some operators => detachFormats l topMap (<[formatName := operators]> detached) (delete key config)
                 end
        end
  end.

(** [mergeKnownLogFormats], and whether it failed. *)
Definition mergeKnownLogFormats (config : gmap string value) : gmap string value * bool :=
  match detachFormats (range config) None ∅ config with
  | inr config => (config, true)
  | inl (topMap, detached, config) =>
      if bool_decide (detached = ∅) then (config, false)
      else (<[formatsKey := VMap (detached ∪ default ∅ topMap)]> config, false)
  end.

(** [takeNestedMapFromFlatConfig] *)
Definition takeNestedMapFromFlatConfig (config : gmap string value) (key : string) : gmap string value * gmap string value :=
  foldl (λ s kv, match CutPrefix (key +:+ ".") kv.1 with Some relative => (setPath (Split "." relative) kv.2 s.1, delete kv.1 s.2) | None => s end)
    (nestedOf (config !! key), config) (range config).

(** [synthesizeLegacyNetworkListener], and the names that were taken. *)
Definition synthesizeLegacyNetworkListener (config : gmap string value) : gmap string value * list string :=
  let grpcEndpoint := endpointOf (λ k, config !! k) "grpc" 4317 in
  let httpEndpoint := endpointOf (λ k, config !! k) "http" 4318 in
  let config := base.filter (λ kv, isLegacyKey kv.1 = false) config in
  if String.eqb grpcEndpoint "" && String.eqb httpEndpoint "" then (config, [])
  else
    let '(networkListeners, config) := takeNestedMapFromFlatConfig config listenersKey in
    let '(networkListeners, warnings) :=
      match networkListeners !! legacyListener with
      | Some _ => (networkListeners, [legacyListener])
      | None => (<[legacyListener := VMap {["protocols" := VMap (protocolsOf grpcEndpoint httpEndpoint)]}]> networkListeners, [])
      end in
    let config := <[listenersKey := VMap networkListeners]> config in
    let '(receivers, config) := takeNestedMapFromFlatConfig config receiversKey in
    let '(receivers, warnings) :=
      match receivers !! legacyReceiver with
      | Some _ => (receivers, (warnings ++ [legacyReceiver])%list)
      | None => (<[legacyReceiver := VMap {["from_listeners" := VList [VStr legacyListener]; "send_logs" := VBool true]}]> receivers, warnings)
      end in
    (<[receiversKey := VMap receivers]> config, warnings).

(** [Build], without the koanf it is loaded in. *)
Definition Build (items : list Item) : gmap string value :=
  let '(config, _, _) := buildItems items in
  let '(config, _) := mergeKnownLogFormats config in
  let '(config, _) := synthesizeLegacyNetworkListener config in
  dedupeFromListeners config.
End Build.

(** * The formats of logs *)
(** The key of a format that is detached from its map. *)
Definition isFormat (key : string) : bool :=
  match CutPrefix (formatsKey +:+ ".") key with Some name => negb (byte_in "." name) | None => false end.

Section Laws.
Context (range : gmap string value → list (string * value)) (decodeTop : value → option (option (gmap string value))) (decodeOperators : value → option value).
Hypothesis range_perm : ∀ m, range m ≡ₚ map_to_list m.

Lemma detachFormats_other (key : string) (l : list (string * value)) (topMap : option (gmap string value)) (detached config : gmap string value) :
  isFormat key = false →
  match detachFormats decodeTop decodeOperators l topMap detached config with inl (_, _, config') => config' !! key | inr config' => config' !! key end = config !! key.
Proof.
  intros Hkey. revert topMap detached config. induction l as [|[k item] l IH]; intros topMap detached config; [done|]. cbn [detachFormats].
  destruct (String.eqb k formatsKey); [by destruct (decodeTop item)|]. unfold isFormat in Hkey. destruct (CutPrefix (formatsKey +:+ ".") k) as [name|] eqn:Hk; [|done].
  destruct (byte_in "." name) eqn:Hdot; [done|]. destruct (decodeOperators item); [|done]. rewrite IH. apply lookup_delete_ne. intros ->. by rewrite Hk, Hdot in Hkey.
Qed.

Lemma mergeKnownLogFormats_other (key : string) (config : gmap string value) :
  isFormat key = false → key ≠ formatsKey → (mergeKnownLogFormats range decodeTop decodeOperators config).1 !! key = config !! key.
Proof.
  intros Hkey Hne. unfold mergeKnownLogFormats. pose proof (detachFormats_other key (range config) None ∅ config Hkey) as H.
  destruct (detachFormats _ _ _ _ _ _) as [[[topMap detached] config']|config']; [|done]. case_bool_decide; [done|]. cbn. by rewrite lookup_insert_ne.
Qed.

Lemma mergeKnownLogFormats_keys (config : gmap string value) (k : string) :
  is_Some ((mergeKnownLogFormats range decodeTop decodeOperators config).1 !! k) → k = formatsKey ∨ is_Some (config !! k).
Proof.
  assert (∀ l topMap detached c, (∀ k, is_Some (c !! k) → is_Some (config !! k)) →
    ∀ k, is_Some (match detachFormats decodeTop decodeOperators l topMap detached c with inl (_, _, c') => c' !! k | inr c' => c' !! k end) → is_Some (config !! k)) as Hloop.
  { induction l as [|[key item] l IH]; intros topMap detached c Hc x; [by apply Hc|]. cbn [detachFormats]. destruct (String.eqb key formatsKey); [destruct (decodeTop item); [by apply IH|by apply Hc]|].
    destruct (CutPrefix (formatsKey +:+ ".") key); [|by apply IH]. destruct (byte_in "." s); [by apply IH|]. destruct (decodeOperators item); [|by apply Hc]. apply IH. intros y [w Hw]. apply lookup_delete_Some in Hw as [_ Hw]. apply Hc. by eexists. }
  unfold mergeKnownLogFormats. specialize (Hloop (range config) None ∅ config (λ _ H, H) k). destruct (detachFormats _ _ _ _ _ _) as [[[topMap detached] c]|c]; [|by right; apply Hloop].
  case_bool_decide; [by right; apply Hloop|]. cbn. destruct (decide (k = formatsKey)) as [->|Hne]; [by left|]. rewrite lookup_insert_ne by done. right. by apply Hloop.
Qed.

(** The settings of the formats can be decoded. *)
Definition formatsDecode (config : gmap string value) : Prop :=
  (∀ v, config !! formatsKey = Some v → is_Some (decodeTop v)) ∧ ∀ key v, isFormat key = true → config !! key = Some v → is_Some (decodeOperators v).

Definition formatKey (name : string) : string := formatsKey +:+ "." +:+ name.

Lemma isFormat_name (key : string) : isFormat key = true ↔ ∃ name, key = formatKey name ∧ byte_in "." name = false.
Proof.
  unfold isFormat, formatKey. destruct (CutPrefix (formatsKey +:+ ".") key) as [name|] eqn:Hc.
  - apply CutPrefix_Some in Hc. subst key. split.
    + intros Hdot%negb_true_iff. by exists name.
    + intros (name' & Heq & Hdot). apply negb_true_iff. enough (name = name') as -> by done. cbn in Heq. by injection Heq.
  - split; [done|]. intros (name & -> & _). exfalso. enough (CutPrefix (formatsKey +:+ ".") (formatsKey +:+ "." +:+ name) = Some name) by congruence. by apply CutPrefix_Some.
Qed.

(** What the loop leaves when they can. *)
Record detachedOk (l : list (string * value)) (topMap : option (gmap string value)) (detached config : gmap string value)
    (topMap' : option (gmap string value)) (detached' config' : gmap string value) : Prop := {
  do_gone : ∀ key, isFormat key = true → key ∈ l.*1 ∨ config !! key = None → config' !! key = None;
  do_top : ∀ v, (formatsKey, v) ∈ l → decodeTop v = Some topMap';
  do_noTop : formatsKey ∉ l.*1 → topMap' = topMap;
  do_format : ∀ name v, byte_in "." name = false → (formatKey name, v) ∈ l → detached' !! name = decodeOperators v;
  do_other : ∀ name, byte_in "." name = true ∨ formatKey name ∉ l.*1 → detached' !! name = detached !! name
}.

Lemma detachedOk_skip (key : string) (item : value) (l : list (string * value)) (topMap : option (gmap string value)) (detached config : gmap string value)
    (topMap' : option (gmap string value)) (detached' config' : gmap string value) :
  key ≠ formatsKey → isFormat key = false → detachedOk l topMap detached config topMap' detached' config' → detachedOk ((key, item) :: l) topMap detached config topMap' detached' config'.
Proof.
  intros Hne Hf [H1 H2 H3 H4 H5]. split; rewrite ?fmap_cons; cbn [fst].
  - intros k Hk Hin. apply H1; [done|]. destruct Hin as [[->|Hin]%elem_of_cons|Hin]; [congruence|by left|by right].
  - intros v [[= <- _]|Hv]%elem_of_cons; [done|]. by apply H2.
  - intros Hn. apply H3. intros Hin. apply Hn. by right.
  - intros name v Hdot [Heq|Hv]%elem_of_cons; [|by apply H4]. injection Heq as <- _. enough (isFormat (formatKey name) = true) by congruence. apply isFormat_name. by exists name.
  - intros name Hn. apply H5. destruct Hn as [?|Hn]; [by left|right]. intros Hin. apply Hn. by right.
Qed.

Lemma detachFormats_all (l : list (string * value)) (topMap : option (gmap string value)) (detached config : gmap string value) :
  (∀ v, (formatsKey, v) ∈ l → is_Some (decodeTop v)) → (∀ key v, isFormat key = true → (key, v) ∈ l → is_Some (decodeOperators v)) → NoDup l.*1 →
  ∃ topMap' detached' config', detachFormats decodeTop decodeOperators l topMap detached config = inl (topMap', detached', config') ∧
    detachedOk l topMap detached config topMap' detached' config'.
Proof.
  revert topMap detached config. induction l as [|[key item] l IH]; intros topMap detached config Htop Hops Hnd.
  { exists topMap, detached, config. split; [done|]. split; try done; [intros key _ [Hk|Hk]; [by apply not_elem_of_nil in Hk|done]|by intros v ?%not_elem_of_nil|by intros name v _ ?%not_elem_of_nil]. }
  rewrite fmap_cons in Hnd. apply NoDup_cons in Hnd as [Hnot Hnd]. cbn [fst] in Hnot. specialize (λ t d c, IH t d c (λ v Hv, Htop v ltac:(by right)) (λ k v Hk Hv, Hops k v Hk ltac:(by right)) Hnd).
  cbn [detachFormats]. destruct (String.eqb_spec key formatsKey) as [->|Hne].
  - destruct (Htop item ltac:(by left)) as [top Hitem]. rewrite Hitem. destruct (IH top detached config) as (t & d & c & -> & [H1 H2 H3 H4 H5]). exists t, d, c. split; [done|]. split; rewrite ?fmap_cons; cbn [fst].
    + intros k Hk Hin. apply H1; [done|]. destruct Hin as [[->|Hin]%elem_of_cons|Hin]; [done|by left|by right].
    + intros v [[= ->]|Hv]%elem_of_cons; [|by apply H2]. by rewrite H3.
    + intros Hin. destruct Hin. by left.
    + intros name v Hdot [[=]|Hv]%elem_of_cons. by apply H4.
    + intros name Hn. apply H5. destruct Hn as [?|Hn]; [by left|right]. intros Hin. apply Hn. by right.
  - destruct (isFormat key) eqn:Hf.
    + pose proof Hf as (name & -> & Hdot)%isFormat_name. assert (CutPrefix (formatsKey +:+ ".") (formatKey name) = Some name) as -> by (by apply CutPrefix_Some). rewrite Hdot.
      destruct (Hops (formatKey name) item Hf ltac:(by left)) as [operators Hitem]. rewrite Hitem.
      destruct (IH topMap (<[name := operators]> detached) (delete (formatKey name) config)) as (t & d & c & -> & [H1 H2 H3 H4 H5]). exists t, d, c. split; [done|]. split; rewrite ?fmap_cons; cbn [fst].
      * intros k Hk Hin. apply H1; [done|]. destruct (decide (k = formatKey name)) as [->|Hk']; [right; apply lookup_delete_eq|]. rewrite lookup_delete_ne by done. destruct Hin as [[?|?]%elem_of_cons|?]; [done|by left|by right].
      * intros v [Heq|Hv]%elem_of_cons; [|by apply H2]. injection Heq as Heq _. done.
      * intros Hn. apply H3. intros Hin. apply Hn. by right.
      * intros n v Hn [Heq|Hv]%elem_of_cons; [|by apply H4]. injection Heq as Heq ->. subst n. rewrite H5 by by right. by rewrite lookup_insert_eq.
      * intros n Hn. destruct (decide (n = name)) as [->|Hnn]; [destruct Hn as [?|Hn]; [congruence|]; destruct Hn; by left|]. rewrite H5; [by rewrite lookup_insert_ne|]. destruct Hn as [?|Hn]; [by left|right]. intros Hin. apply Hn. by right.
    + destruct (IH topMap detached config) as (t & d & c & Hd & Hok). exists t, d, c. split; [|by apply detachedOk_skip]. unfold isFormat in Hf.
      destruct (CutPrefix (formatsKey +:+ ".") key) as [name|]; [|done]. by destruct (byte_in "." name).
Qed.

(** The formats that are detached join the map of the formats, where they win. *)
Lemma mergeKnownLogFormats_all (config : gmap string value) :
  formatsDecode config →
  let built := (mergeKnownLogFormats range decodeTop decodeOperators config).1 in
  (∀ key, isFormat key = true → built !! key = None) ∧
  (∀ name item, byte_in "." name = false → config !! formatKey name = Some item → nestedOf (built !! formatsKey) !! name = decodeOperators item) ∧
  (∀ top known name v, config !! formatsKey = Some top → decodeTop top = Some (Some known) → known !! name = Some v → config !! formatKey name = None →
     (∃ key, isFormat key = true ∧ is_Some (config !! key)) → nestedOf (built !! formatsKey) !! name = Some v) ∧
  ((∀ key, isFormat key = true → config !! key = None) → built !! formatsKey = config !! formatsKey).
Proof.
  intros [Htop Hops]. assert (∀ k v, (k, v) ∈ range config ↔ config !! k = Some v) as Hr by (intros k v; rewrite range_perm; apply elem_of_map_to_list).
  assert (∀ k, k ∈ (range config).*1 ↔ is_Some (config !! k)) as Hrk.
  { intros k. rewrite list_elem_of_fmap. split; [intros ([k' v] & -> & Hin%Hr); by exists v|]. intros [v Hv%Hr]. by exists (k, v). }
  destruct (detachFormats_all (range config) None ∅ config) as (top' & detached & c & Hd & [H1 H2 _ H4 H5]).
  { intros v Hv. by apply Htop, Hr. } { intros key v Hk Hv. apply (Hops key); [done|by apply Hr]. } { rewrite range_perm. apply NoDup_fst_map_to_list. }
  pose proof (detachFormats_other formatsKey (range config) None ∅ config eq_refl) as Hsame. unfold mergeKnownLogFormats. rewrite Hd in Hsame |- *. cbn zeta.
  assert (∀ key, isFormat key = true → c !! key = None) as Hgone. { intros key Hk. apply H1; [done|]. destruct (config !! key) eqn:Hc; [left; apply Hrk; by eexists|by right]. }
  assert (∀ name item, byte_in "." name = false → config !! formatKey name = Some item → ∃ ops, decodeOperators item = Some ops ∧ detached !! name = Some ops) as Hin.
  { intros name item Hdot Hi. destruct (Hops (formatKey name) item) as [ops Ho]; [apply isFormat_name; by exists name|done|]. exists ops. split; [done|]. rewrite <- Ho. apply H4; [done|by apply Hr]. }
  assert ((∃ key, isFormat key = true ∧ is_Some (config !! key)) → detached ≠ ∅) as Hne.
  { intros (key & (name & -> & Hdot)%isFormat_name & [item Hi]) ->. destruct (Hin name item Hdot Hi) as (ops & _ & He). by rewrite lookup_empty in He. }
  split_and!.
  - intros key Hk. case_bool_decide; cbn [fst]; [by apply Hgone|]. rewrite lookup_insert_ne by by intros <-. by apply Hgone.
  - intros name item Hdot Hi. destruct (Hin name item Hdot Hi) as (ops & -> & He). rewrite bool_decide_false by (intros ->; by rewrite lookup_empty in He). cbn [fst]. rewrite lookup_insert_eq. by apply lookup_union_Some_l.
  - intros top known name v Ht Hk Hv Hnone Hf. rewrite bool_decide_false by by apply Hne. cbn [fst]. rewrite lookup_insert_eq. cbn. rewrite (H2 top) in Hk by by apply Hr. injection Hk as ->.
    rewrite lookup_union_r; [done|]. rewrite H5; [apply lookup_empty|]. right. rewrite Hrk, Hnone. by intros [? ?].
  - intros Hno. rewrite bool_decide_true; [done|]. apply map_empty. intros name. destruct (byte_in "." name) eqn:Hdot; [rewrite H5 by (by left); apply lookup_empty|]. rewrite H5; [apply lookup_empty|].
    right. rewrite Hrk, Hno; [by intros [? ?]|]. apply isFormat_name. by exists name.
Qed.

(** * The nested maps *)
Lemma takeNested_none (config : gmap string value) (key : string) :
  (∀ k, is_Some (config !! k) → isPrefix (key +:+ ".") k = false) → takeNestedMapFromFlatConfig range config key = (nestedOf (config !! key), config).
Proof.
  intros Hno. unfold takeNestedMapFromFlatConfig. assert (∀ kv, kv ∈ range config → isPrefix (key +:+ ".") kv.1 = false) as Hr.
  { intros [k v] Hin. rewrite range_perm in Hin. apply elem_of_map_to_list in Hin. apply Hno. by eexists. }
  revert Hr. generalize (nestedOf (config !! key), config) as s. induction (range config) as [|kv l IH]; intros s Hr; [done|]. cbn [foldl].
  pose proof (Hr kv ltac:(by left)) as Hkv. unfold isPrefix in Hkv. destruct (CutPrefix (key +:+ ".") kv.1); [done|]. apply IH. intros x Hx. apply Hr. by right.
Qed.
End Laws.

Lemma dedupeFromListeners_other (config : gmap string value) (key : string) : key ≠ receiversKey → dedupeFromListeners config !! key = config !! key.
Proof. intros Hne. unfold dedupeFromListeners. destruct (config !! receiversKey) as [[| | | | |receivers]|]; try done. by rewrite lookup_insert_ne. Qed.

Lemma dedupeFromListeners_receivers (config : gmap string value) : nestedOf (dedupeFromListeners config !! receiversKey) = dedupeReceiver <$> nestedOf (config !! receiversKey).
Proof.
  unfold dedupeFromListeners. destruct (config !! receiversKey) as [[| | | | |receivers]|] eqn:Hr; rewrite ?Hr; cbn; rewrite ?fmap_empty; try done. by rewrite lookup_insert_eq.
Qed.

Lemma dedupe_nodup (l : list value) (seen : gset string) :
  NoDup (omap (λ v, if v is VStr s then Some s else None) (dedupe seen l)) ∧ ∀ s, VStr s ∈ dedupe seen l → s ∉ seen ∧ VStr s ∈ l.
Proof.
  revert seen. induction l as [|v l IH]; intros seen; [split; [constructor|by intros s ?%not_elem_of_nil]|].
  destruct v as [| | |x| |]; cbn; [.. | | ]; try (destruct (IH seen) as [H1 H2]; split; [done|]; intros s [?|Hs]%elem_of_cons; [done|]; destruct (H2 s Hs); split; [done|by right]).
  case_bool_decide as Hx; [destruct (IH seen) as [H1 H2]; split; [done|]; intros s Hs; destruct (H2 s Hs); split; [done|by right]|].
  destruct (IH ({[x]} ∪ seen)) as [H1 H2]. cbn. split.
  - constructor; [|done]. intros ([] & Hin & [= ->])%list_elem_of_omap. apply H2 in Hin. set_solver.
  - intros s [[= ->]|Hs]%elem_of_cons; [split; [done|by left]|]. destruct (H2 s Hs). split; [set_solver|by right].
Qed.

Lemma buildItems_keys (l : list Item) (key : string) : is_Some ((buildItems l).1.1 !! key) → ∃ i, i ∈ l ∧ Key i = key.
Proof.
  induction l as [|i l IH] using rev_ind; [by intros [? ?]|]. unfold buildItems in *. rewrite foldl_app. cbn [foldl]. destruct (foldl buildItem (∅, ∅, []) l) as [[config priorities] warnings]. cbn [fst] in *.
  intros Hk. destruct (decide (Key i = key)) as [<-|Hne]; [exists i; set_solver|]. destruct IH as (j & Hj & Hkj); [|exists j; set_solver]. unfold buildItem in Hk.
  destruct (config !! Key i); cbn [fst] in Hk; [|by rewrite lookup_insert_ne in Hk]. destruct (_ <? _)%Z; cbn [fst] in Hk; [by rewrite lookup_insert_ne in Hk|]. destruct (_ =? _)%Z; cbn [fst] in Hk; [|done]. destruct (merge _ _); cbn [fst] in Hk; by rewrite lookup_insert_ne in Hk.
Qed.

Lemma prefix_app (p rest : string) : String.prefix p (p +:+ rest) = true.
Proof. induction p as [|c p IH]; [by destruct rest|]. change (String c p +:+ rest) with (String c (p +:+ rest)). cbn. by destruct (Ascii.ascii_dec c c). Qed.

(** A key that [allKeys] can give is not under the one of a map. *)
Lemma settable_not_under (mapKey key : string) :
  mapKey ∈ [listenersKey; receiversKey] → isMapKey key = None ∨ isMapKey key = Some key → isPrefix (mapKey +:+ ".") key = false.
Proof.
  intros Hm Hs. unfold isPrefix. destruct (CutPrefix (mapKey +:+ ".") key) as [rest|] eqn:Hc; [exfalso|done]. apply CutPrefix_Some in Hc. subst key.
  unfold isMapKey in Hs. destruct (list_find _ mapKeys) as [[n k]|] eqn:Hf.
  - destruct Hs as [Hs|[= Hs]]; [done|]. apply list_find_Some in Hf as (Hin & _ & _). apply list_elem_of_lookup_2 in Hin. rewrite Hs in Hin.
    repeat (apply elem_of_cons in Hm as [->|Hm]; [repeat (apply elem_of_cons in Hin as [Hin|Hin]; [discriminate Hin|]); by apply not_elem_of_nil in Hin|]). by apply not_elem_of_nil in Hm.
  - apply list_find_None in Hf. rewrite Forall_forall in Hf. apply (Hf mapKey); [|right; apply prefix_app].
    repeat (apply elem_of_cons in Hm as [->|Hm]; [unfold mapKeys; set_solver|]). by apply not_elem_of_nil in Hm.
Qed.

Section Legacy.
Context (range : gmap string value → list (string * value)) (decodeTop : value → option (option (gmap string value))) (decodeOperators : value → option value).
Hypothesis range_perm : ∀ m, range m ≡ₚ map_to_list m.

(** [synthesizeLegacyNetworkListener] when no key is under the ones of the listeners and of the receivers. *)
Lemma synthesize_flat (config : gmap string value) :
  (∀ k mapKey, is_Some (config !! k) → mapKey ∈ [listenersKey; receiversKey] → isPrefix (mapKey +:+ ".") k = false) →
  let g := endpointOf (λ k, config !! k) "grpc" 4317 in let h := endpointOf (λ k, config !! k) "http" 4318 in
  let listeners := nestedOf (config !! listenersKey) in let receivers := nestedOf (config !! receiversKey) in
  let built := (synthesizeLegacyNetworkListener range config).1 in
  (∀ key, key ∉ [listenersKey; receiversKey] → built !! key = if isLegacyKey key then None else config !! key) ∧
  (if String.eqb g "" && String.eqb h "" then nestedOf (built !! listenersKey) = listeners ∧ nestedOf (built !! receiversKey) = receivers
   else nestedOf (built !! listenersKey) = listeners ∪ {[legacyListener := VMap {["protocols" := VMap (protocolsOf g h)]}]} ∧
        nestedOf (built !! receiversKey) = receivers ∪ {[legacyReceiver := VMap {["from_listeners" := VList [VStr legacyListener]; "send_logs" := VBool true]}]}).
Proof.
  intros Hflat. cbn zeta. unfold synthesizeLegacyNetworkListener. set (g := endpointOf _ "grpc" 4317). set (h := endpointOf _ "http" 4318).
  set (c1 := base.filter (λ kv, isLegacyKey kv.1 = false) config). assert (∀ key, c1 !! key = if isLegacyKey key then None else config !! key) as Hc1.
  { intros key. unfold c1. rewrite map_lookup_filter. destruct (config !! key) as [v|]; cbn; [|by destruct (isLegacyKey key)]. destruct (isLegacyKey key) eqn:Hk; case_guard; cbn in *; congruence. }
  assert (∀ k mapKey, is_Some (c1 !! k) → mapKey ∈ [listenersKey; receiversKey] → isPrefix (mapKey +:+ ".") k = false) as Hflat1.
  { intros k mapKey Hk. apply Hflat. rewrite Hc1 in Hk. destruct (isLegacyKey k); [by destruct Hk|done]. }
  assert (c1 !! listenersKey = config !! listenersKey ∧ c1 !! receiversKey = config !! receiversKey) as [HL HR] by (rewrite !Hc1; done).
  destruct (String.eqb g "" && String.eqb h ""); [cbn [fst]; rewrite HL, HR; split; [intros key _; apply Hc1|done]|].
  rewrite (takeNested_none range range_perm) by (intros k Hk; apply Hflat1; [done|set_solver]). rewrite HL. set (listeners := nestedOf (config !! listenersKey)).
  assert (∀ (m : gmap string value) k v, match m !! k with Some _ => m | None => <[k := v]> m end = m ∪ {[k := v]}) as Hadd.
  { clear. intros m k v. apply map_eq. intros x. destruct (m !! k) as [w|] eqn:Hk; destruct (decide (x = k)) as [->|Hne];
      rewrite lookup_union, ?lookup_insert_eq, ?lookup_insert_ne, ?lookup_singleton_eq, ?lookup_singleton_ne, ?Hk by done; cbn; try done; by destruct (m !! x). }
  set (newL := VMap {["protocols" := VMap (protocolsOf g h)]}). set (newR := VMap {["from_listeners" := _; "send_logs" := _]}).
  replace (match listeners !! legacyListener with Some _ => (listeners, [legacyListener]) | None => (<[legacyListener:=newL]> listeners, []) end)
    with (listeners ∪ {[legacyListener := newL]}, if listeners !! legacyListener then [legacyListener] else []) by (rewrite <- Hadd; by destruct (listeners !! legacyListener)).
  rewrite (takeNested_none range range_perm).
  2: { intros k Hk. destruct (decide (k = listenersKey)) as [->|Hne]; [done|]. rewrite lookup_insert_ne in Hk by done. apply Hflat1; [done|set_solver]. }
  rewrite lookup_insert_ne, HR by done. set (receivers := nestedOf (config !! receiversKey)). set (w := if listeners !! legacyListener then _ else _).
  replace (match receivers !! legacyReceiver with Some _ => (receivers, (w ++ [legacyReceiver])%list) | None => (<[legacyReceiver:=newR]> receivers, w) end)
    with (receivers ∪ {[legacyReceiver := newR]}, if receivers !! legacyReceiver then (w ++ [legacyReceiver])%list else w) by (rewrite <- Hadd; by destruct (receivers !! legacyReceiver)).
  cbn [fst]. split.
  - intros key Hkey. rewrite !lookup_insert_ne by set_solver. apply Hc1.
  - rewrite lookup_insert_eq, lookup_insert_ne, lookup_insert_eq by done. done.
Qed.

(** C20. Whatever the order in which maps are iterated over, the configuration that is built has none of the deprecated settings of a listener; when one of its two
    protocols is enabled, there is a listener with their endpoints and a receiver that ships its logs, unless the user has one of that name.  The user's listeners
    are kept, and the user's receivers without the listeners they name twice.  When all the formats of logs can be decoded, those that are set apart from the map of the
    formats join it, in place of those of the same name, and the others stay; when one cannot, formats may be lost ([formats_lost]) and nothing is said of them.
    All other settings are kept. *)
Theorem Build_legacy (l : list Item) :
  (∀ i, i ∈ l → isMapKey (Key i) = None ∨ isMapKey (Key i) = Some (Key i)) →
  let config := (buildItems l).1.1 in let built := Build range decodeTop decodeOperators l in
  let g := endpointOf (λ k, config !! k) "grpc" 4317 in let h := endpointOf (λ k, config !! k) "http" 4318 in
  let user m name (v : value) := match nestedOf (config !! m) !! name with Some v' => v' | None => v end in
  (∀ key, isFormat key = false → key ∉ [listenersKey; receiversKey; formatsKey] → built !! key = if isLegacyKey key then None else config !! key) ∧
  (∀ name v, nestedOf (config !! listenersKey) !! name = Some v → nestedOf (built !! listenersKey) !! name = Some v) ∧
  (∀ name v, nestedOf (config !! receiversKey) !! name = Some v → nestedOf (built !! receiversKey) !! name = Some (dedupeReceiver v)) ∧
  (g ≠ "" ∨ h ≠ "" →
   nestedOf (built !! listenersKey) !! legacyListener = Some (user listenersKey legacyListener (VMap {["protocols" := VMap (protocolsOf g h)]})) ∧
   nestedOf (built !! receiversKey) !! legacyReceiver =
     Some (dedupeReceiver (user receiversKey legacyReceiver (VMap {["from_listeners" := VList [VStr legacyListener]; "send_logs" := VBool true]})))) ∧
  (formatsDecode decodeTop decodeOperators config →
   (∀ key, isFormat key = true → built !! key = None) ∧
   (∀ name item, byte_in "." name = false → config !! formatKey name = Some item → nestedOf (built !! formatsKey) !! name = decodeOperators item) ∧
   (∀ top known name v, config !! formatsKey = Some top → decodeTop top = Some (Some known) → known !! name = Some v → config !! formatKey name = None →
      (∃ key, isFormat key = true ∧ is_Some (config !! key)) → nestedOf (built !! formatsKey) !! name = Some v) ∧
   ((∀ key, isFormat key = true → config !! key = None) → built !! formatsKey = config !! formatsKey)).
Proof.
  intros Hset. cbn zeta. unfold Build. destruct (buildItems l) as [[config priorities] warnings] eqn:Hb. cbn [fst].
  pose proof (mergeKnownLogFormats_keys range decodeTop decodeOperators config) as Hkeys. pose proof (mergeKnownLogFormats_all range decodeTop decodeOperators range_perm config) as Hall. pose proof (mergeKnownLogFormats_other range decodeTop decodeOperators) as Hother.
  specialize (λ key, Hother key config). destruct (mergeKnownLogFormats range decodeTop decodeOperators config) as [c1 failed]. cbn [fst] in Hkeys, Hother, Hall.
  destruct (synthesize_flat c1) as [H1 H2].
  { intros k mapKey Hk Hm. destruct (Hkeys k Hk) as [->|Hc]; [repeat (apply elem_of_cons in Hm as [->|Hm]; [done|]); by apply not_elem_of_nil in Hm|].
    apply settable_not_under; [done|]. destruct (buildItems_keys l k) as (i & Hi & <-); [by rewrite Hb|]. by apply Hset. }
  assert (∀ sub port, sub ∈ ["grpc"; "http"] → endpointOf (λ k, c1 !! k) sub port = endpointOf (λ k, config !! k) sub port) as Hend.
  { intros sub port Hsub. unfold endpointOf. repeat (apply elem_of_cons in Hsub as [->|Hsub]; [rewrite !Hother by done; done|]). by apply not_elem_of_nil in Hsub. }
  rewrite !Hend in H2 by set_solver. rewrite !(Hother listenersKey), !(Hother receiversKey) in H2 by done.
  destruct (synthesizeLegacyNetworkListener range c1) as [c2 taken]. cbn [fst] in H1, H2. split_and!.
  - intros key Hf Hk. rewrite dedupeFromListeners_other by set_solver. rewrite H1 by set_solver. destruct (isLegacyKey key); [done|]. apply Hother; set_solver.
  - intros name v Hv. rewrite dedupeFromListeners_other by done. destruct (_ && _); destruct H2 as [-> _]; [done|]. by rewrite lookup_union, Hv, union_Some_l.
  - intros name v Hv. rewrite dedupeFromListeners_receivers, lookup_fmap. destruct (_ && _); destruct H2 as [_ ->]; [by rewrite Hv|]. by rewrite lookup_union, Hv, union_Some_l.
  - intros Hgh. rewrite dedupeFromListeners_other, dedupeFromListeners_receivers, lookup_fmap by done.
    assert (String.eqb (endpointOf (λ k, config !! k) "grpc" 4317) "" && String.eqb (endpointOf (λ k, config !! k) "http" 4318) "" = false) as Hno.
    { apply andb_false_iff. rewrite !String.eqb_neq. exact Hgh. }
    rewrite Hno in H2. destruct H2 as [-> ->]. rewrite !lookup_union, !lookup_singleton_eq. split; [by destruct (nestedOf (config !! listenersKey) !! legacyListener)|]. by destruct (nestedOf (config !! receiversKey) !! legacyReceiver).
  - intros Hdec. destruct (Hall Hdec) as (A1 & A2 & A3 & A4).
    assert (∀ key, isFormat key = true ∨ key = formatsKey → dedupeFromListeners c2 !! key = c1 !! key) as Hsame.
    { intros key Hk. assert (key ∉ [listenersKey; receiversKey] ∧ isLegacyKey key = false) as [Hn Hl]; [|rewrite dedupeFromListeners_other by set_solver; rewrite H1, Hl; done].
      destruct Hk as [(name & -> & _)%isFormat_name| ->]; (split; [|done]); intros [?|[?|?%not_elem_of_nil]%elem_of_cons]%elem_of_cons; done. }
    rewrite !(Hsame formatsKey) by by right. split; [|done]. intros key Hk. rewrite Hsame by by left. by apply A1.
Qed.
End Legacy.

Section Examples.
#[local] Open Scope string_scope.

(** A file enables gRPC, another one changes its port, and a receiver names a listener twice. *)
Definition legacyItems : list Item :=
  items (load true true (mkSources
    [("a.conf", [("log.opentelemetry.grpc.enable", SValue (VBool true)); (receiversKey, SValue (VMap {["app" := VMap {["from_listeners" := VList [VStr "in"; VStr "in"]]}]}))]);
     ("b.conf", [("log.opentelemetry.grpc.port", SValue (VNum 4000))])]
    [] [] [("log.opentelemetry.grpc.port", SValue (VNum 0)); (listenersKey, SValue (VMap ∅))])).

Lemma Build_legacy_witness :
  let built := Build map_to_list (λ _, None) (λ _, None) legacyItems in
  nestedOf (built !! listenersKey) !! legacyListener = Some (VMap {["protocols" := VMap {["grpc" := VMap {["endpoint" := VStr "localhost:4000"]}]}]}) ∧
  nestedOf (built !! receiversKey) !! "app" = Some (VMap {["from_listeners" := VList [VStr "in"]]}).
Proof.
  destruct (Build_legacy map_to_list (λ _, None) (λ _, None) (λ m, reflexivity _) legacyItems) as (_ & _ & Hr & Hl & _).
  - intros i Hi. repeat (apply elem_of_cons in Hi as [->|Hi]; [first [left; vm_compute; reflexivity|right; vm_compute; reflexivity]|]). destruct (not_elem_of_nil i Hi).
  - cbn zeta in *. split.
    + destruct Hl as [Hl _]; [left; vm_compute; discriminate|]. etransitivity; [exact Hl|]. vm_compute. reflexivity.
    + etransitivity; [apply (Hr "app" (VMap {["from_listeners" := VList [VStr "in"; VStr "in"]]})); vm_compute; reflexivity|]. vm_compute. reflexivity.
Defined.

(** A format of logs that cannot be decoded loses the ones that were detached before it. *)
Example formats_lost :
  let config : gmap string value := {["log.opentelemetry.known_log_formats.a" := VList []; "log.opentelemetry.known_log_formats.b" := VStr "x"]} in
  mergeKnownLogFormats (λ _, [("log.opentelemetry.known_log_formats.a", VList []); ("log.opentelemetry.known_log_formats.b", VStr "x")])
    (λ _, None) (λ v, if v is VList _ then Some v else None) config = ({["log.opentelemetry.known_log_formats.b" := VStr "x"]}, true).
Proof. vm_compute. reflexivity. Qed.
End Examples.
